(* ===== verification/_CoqProject ===== *)
-Q . S2P
Prelude.v
BPTreeNode.v
BPTreeWf.v
BPTreeMoves.v
BPTreeRebalance.v
BPTree.v
BPTreeSearch.v
BPTreeInsert.v
BPTreeDelete.v
BPTreeRank.v
BPTreeSpec.v
BPTreeContract.v
OrderedSet.v
ZSet.v
ZSetContract.v
Simd.v
Numbers.v
RespTypes.v
RespParser.v
RespTotal.v
RespCommands.v
Connection.v
RespContract.v
KeyMetadata.v
LinkedList.v
Sharding.v
Executor.v
ExecutorContract.v
Text.v
Streams.v
Eviction.v
Rocks.v
Database.v
DatabaseTypes.v
DatabaseZSets.v
DatabaseInv.v
DatabaseHistories.v
DatabaseStrings.v
SmallPlatform.v
DatabaseContract.v
ClusterConfig.v
Blocking.v
PubSub.v
Commands.v
Acl.v
StringCommands.v
HashCommands.v
SetCommands.v
ListCommands.v
ZSetCommands.v
BitmapCommands.v
HyperLogLog.v
Lcs.v
StringLog.v
TypedStore.v
TypedContainers.v
TypedZSets.v
TypedCommands.v
StringContract.v
HashContract.v
SetContract.v
ListContract.v
BitmapContract.v
ZSetRules.v
TypedServer.v
ScanContract.v
BlockingLists.v
SetWorkers.v
ZSetServer.v
BitFields.v
StringServer.v
AofWriter.v
Persistence.v
AofReplay.v
Rdb.v
RdbContract.v
RdbDatabase.v
