(* ===== verification/Prelude.v ===== *)
(** * AstraDB: a verification development

    AstraDB is a server that speaks the Redis protocol.  Bytes of a connection
    are parsed into commands; an executor thread per worker runs them against
    the worker's data or forwards them to the worker that owns the key; data
    lives in containers (sorted sets on a B+ tree, lists, hash maps) next to
    metadata of every key.  The files model these parts as functions on
    immutable states, one definition for each function of the source, and prove
    what each part promises.  Names follow the source; a letter or a word in
    front tells apart names that occur in two classes ([DGet], [LSet],
    [MetaClear]).  Source paths below are relative to src/.

    ** Files

    - [Prelude]: machine integers as [Z] with explicit wrap-around, byte
      strings, tactics, and lemmas on lists and integers.
    - [BPTreeNode], [BPTreeMoves], [BPTreeRebalance], [BPTree], [BPTreeSearch],
      [BPTreeInsert], [BPTreeDelete], [BPTreeRank]:
      astra/container/zset/bplustree.hpp, and its nodes and paths in
      bplustree_internal.hpp.  A node is the live part of its block: the keys
      in use, the children and the subtree count; a path is the list of its
      records, innermost first.
      [BPTreeWf] and [BPTreeSpec] hold the
      invariant (uniform depth, occupancy, counters, order) and the lemmas on
      it; [BPTreeContract] the theorems.
    - [OrderedSet], [ZSet], [ZSetContract]: the sorted set of
      astra/container/zset/bplustree_zset.cpp on the interface [OrderedSet]
      and its laws [OrderedSetLaws], of which the B+ tree is an instance.
    - [Simd]: astra/base/simd_utils.hpp for the x86-64 build with SSE, and the
      AVX2 search on its own.
    - [Numbers], [RespTypes], [RespParser], [RespTotal], [RespCommands]:
      values of the protocol, their printer and parser (astra/protocol/resp).  [Connection] is the
      receive buffer and the parse loop of a connection (astra/server/worker.hpp);
      [RespContract] the theorems.
    - [KeyMetadata] (astra/container/dash_map.hpp and
      astra/storage/key_metadata.hpp), [LinkedList]
      (astra/container/linked_list.hpp), [Sharding]
      (astra/cluster/shard_manager.hpp and the routing of worker.hpp).
    - [Executor] (astra/server/transaction_state.cpp, the registry, the
      transaction commands and the client branch of the executor loop) and [ExecutorContract], the theorems on interleavings.

    - [Text]: IEEE doubles as [SpecFloat], and splitting, trimming and
      reading of text.  [Streams]: astra/container/stream_data.hpp
      and the identifiers of stream_commands.cpp.
    - [Eviction]: astra/core/memory, the size estimates, the tracker, the queues of 2Q, the choice of victims and the loop.
      [Rocks]: the serializer and the adapter of RocksDB in astra/persistence.
    - [Database], [DatabaseTypes], [DatabaseZSets]: the key space of a worker,
      astra/commands/database.hpp.  [DatabaseInv] and
      [DatabaseHistories] hold its invariant and that every operation keeps it,
      [DatabaseStrings] the simulation of strings over eviction,
      [DatabaseContract] the theorems, [SmallPlatform] concrete parameters for the
      witnesses.
    - [ClusterConfig]: astra/cluster/cluster_config.hpp, the cluster state and the
      serializer of slots.
    - [Blocking]: the wait queues and timers of
      astra/commands/blocking_manager.cpp and one queue that they refine.
      [PubSub]: the subscriptions of the workers and the queues
      between them (astra/server/worker.hpp).
    - [Commands]: the context of a handler (the databases of the workers, the log,
      the blocking manager, the answers) as a state and error monad.
      [StringCommands], [HashCommands], [SetCommands], [ListCommands],
      [ZSetCommands], [BitmapCommands], [HyperLogLog]: the handlers of
      astra/commands/redis/string_commands.cpp, hash_commands.cpp,
      set_commands.cpp, list_commands.cpp, zset_commands.cpp, ttl_commands.cpp,
      bitmap_commands.cpp and hyperloglog_commands.cpp with the tables of their
      registration.  [Acl]: astra/security/acl_manager.hpp, the permission checks of
      astra/commands/command_handler.hpp and the handlers of acl_commands.cpp.
    - [Lcs] proves the subsequence commands, [StringLog] gives the string commands
      a specification on maps with what they log, and [StringServer] runs them
      under the executor.
    - [TypedStore], [TypedContainers], [TypedZSets]: the map from keys to typed values
      with expiry times that a database stands for, and that its operations do on
      that map what their names say.  [TypedCommands] says what it means that a
      handler follows a rule; [StringContract], [HashContract], [SetContract],
      [ListContract], [ZSetRules] and [BitmapContract] prove it command by command,
      [TypedServer] for histories run by the registry.  [ScanContract] is about
      clients that follow cursors, [BlockingLists] about clients that wait,
      [SetWorkers] about sets spread over the workers, [ZSetServer] about sorted sets
      that are popped, waited for and combined, [BitFields] about strings as arrays of
      integers.
    - [AofWriter] (astra/persistence/aof_writer.hpp), [Persistence] (the threads of
      the append-only file in astra/server/managers.hpp as interleaved steps) and
      [AofReplay], which joins the parser, the executor, the string commands and
      the text of the log.
    - [Rdb], [RdbContract]: the snapshot files of
      astra/persistence/rdb_writer.hpp and rdb_reader.hpp, byte for byte;
      [RdbDatabase]: saving and loading the workers in astra/server/managers.hpp.

    ** Theorems

    - End to end ([AofReplay], [Persistence]): the bytes that a single worker without
      eviction and RocksDB logs while clients send string commands and transactions
      rebuild exactly its strings when they are sent to a server, in reads of any
      sizes; whatever the interleaving of the threads, a shutdown loses no command.
      The six string commands that the log forgets and SET with an expiry time, which
      it gets wrong, are left out and are examples of their own ([StringServer]); a
      lost wakeup is a theorem too.
    - Snapshots ([RdbContract], [RdbDatabase]): what was saved is loaded, record by
      record and string by string, while keys and values are not empty and shorter
      than 16384 bytes; where long values, files that are cut off and expiry times
      break this.
    - Commands ([TypedServer], [ScanContract], [BlockingLists], [SetWorkers],
      [ZSetServer], [BitFields]): any history of eighty-seven commands on strings,
      their bits, hashes, sets, lists, sorted sets and expiry times answers as their
      rules on one map say, errors included, on a single worker without eviction and
      RocksDB while no key expires; scans with a positive count end and list every
      entry once, as long as nothing is written meanwhile; a push calls [Send] for the
      first request that waits in BLPOP and forgets those in BRPOP, as ZADD does those
      of BZPOPMIN; set operations find the sets of all workers, but the batch of
      SINTERSTORE finds nothing when a worker is late; ZUNION and ZINTER find the
      members without the scores, BITOP only the values of the last worker; a sorted
      set that is popped empty swallows what is added later; BITFIELD treats a string
      as an array of integers that wrap, saturate or refuse.
    - Permissions ([Acl]): while passwords are required nothing but AUTH and a few
      commands run before somebody has authenticated; but the authentication is that
      of the worker and not of the connection, ACL SETUSER is open to every user, and
      rules that take single commands away are never consulted.
    - Counting ([HyperLogLog]): registers are an array only while no byte of a counter
      is negative; PFADD ends unless an element has one of certain hashes, lowers no
      register and loses the elements whose hash has a certain bit; there is a text for
      which it does not return.
    - Waiting and messages ([Blocking], [PubSub]): requests that wait on a key are
      answered once and in the order of arrival, and a client that blocks twice loses
      the timer of its first request; a message reaches every worker once and in the
      order of its publisher, while the publishers are not ordered among each other.
    - Database ([DatabaseContract]): every history of operations keeps the sizes of
      the maps and a value for every registered key; with a RocksDB behind it that
      takes every write, reads and writes of strings answer as a plain map whatever is
      evicted; what eviction spares; and where expired and evicted keys leave the
      specification, as with DEL.
    - B+ tree ([BPTreeContract]): insertion and deletion refine a sorted list and
      keep the invariant, along every history; ranks count, iterators visit every
      key once in order, GEQ and LEQ find the nearest key, Clear frees every
      node once, and paths fit the fixed depth of the source.
    - Sorted set ([ZSetContract]): the three structures agree after every history
      without a hash collision; ranks, rank ranges and score ranges are those
      of the ordered list; RemoveRangeByScore takes its mutex twice.
    - Protocol ([RespContract]): however a stream of commands is split into reads,
      the commands that are delivered are the ones that were sent; the parser
      is total; parsing reads back what was printed, for values whose lines are short
      enough for the vector search; both parse paths agree; what
      the integer reader and the vector search accept, exactly.
    - Metadata, lists, streams and shards: versions count writes, the life of an
      expiry time, lists refine sequences, a consumer group delivers every entry
      once, slots are partitioned and read back, tags keep keys together.
    - Transactions ([ExecutorContract]): transactions are serial, WATCH detects
      exactly the changes of versions, and the states of connections stay well
      formed.

    Examples beside the theorems evaluate inputs on which the code departs
    from its comments.

    ** Fuel and bounds

    Loops over trees and buffers recurse on a fuel argument.  It is the depth
    of the tree for descents, the number of nodes for Clear, the number of
    bytes left for the parser, the sum of the lengths for the walk back of a
    subsequence, the number of slots for a range of slots, the length of the file
    for a snapshot, one call more than there are entries for a scan and fifty turns for
    the zeros of a hash; the lemmas of [BPTreeSpec], [RespTotal], [Lcs],
    [ClusterConfig], [RdbContract], [ScanContract] and [HyperLogLog] show that these
    are enough, so no theorem is about a run that stopped early, and that no fuel is
    enough for the hashes that PFADD loops on.  The parser
    distinguishes failure, an exception and running out of fuel, and [RespTotal]
    excludes the last.  Counters of the tree are 32 bits wide as in the source, and
    the theorems that need it assume fewer than 2^32 keys.

    ** Parameters

    The hash of members, the printing of doubles ([DoubleText]), the success of
    allocations ([Allocator]), absl's number reader ([AbslNumbers] with its laws),
    random numbers ([Random]) and the order of a shuffle, the CRC32C of snapshots,
    std::hash, the bytes that a failed read leaves in memory or a read behind the end
    of a string finds, RocksDB and its FlatBuffers ([RocksLib] with its
    laws), zstd ([Zstd]), the printer of JSON, the clock, the permission checks and
    the cluster redirection are arguments; [Platform] bundles those of the
    database.  [Horizon] is a time that the clock does not pass during a history, with
    the members that its sorted sets may have, whose hashes differ.  What a score
    that is not a number, a sort by scores without an order and a read behind the
    arguments lead to is an argument [undefined] of the sorted-set handlers.  Which
    workers answer a batch request within its five seconds is part of the context of
    the handlers.  The logarithm, the cast of a double that
    does not fit and a handler that does not return are arguments of the handlers of
    [HyperLogLog].

    A shift by 64 places, which C++ leaves undefined, is that of x86-64.

    ** Not modelled

    Sockets and asio; start-up, configuration and logging; replication links; the
    cache of the registry, which only counts; FlatBuffers, RocksDB, Lua, gossip and
    vector search, which are third-party code.  Tasks for
    other workers are run in the order of the workers, without their queues: that two
    workers can wait for each other is outside of the model.  An answer to a waiting
    client is the call of [Send] on the pointer that was stored for it; whether it
    arrives is not modelled.  Of the handlers of
    data commands those of streams and geospatial data, and of the rest of the server
    the pools, are not part of the development yet. *)

From Stdlib Require Export ZArith Lia Ascii String Sorted.
From stdpp Require Export base numbers option list strings gmap.

#[global] Set Default Goal Selector "!".
#[global] Arguments Nat.div : simpl never.
#[global] Arguments Nat.modulo : simpl never.

(** ** Machine integers

    Fixed-width integers are [Z] with the wrap-around written out: unsigned
    types reduce modulo [2 ^ w], signed types are the two's complement
    representative. *)

Declare Scope astra_scope.
Delimit Scope astra_scope with astra.

Definition wrap (w x : Z) : Z := (x mod 2 ^ w)%Z.
Definition swrap (w x : Z) : Z := ((x + 2 ^ (w - 1)) mod 2 ^ w - 2 ^ (w - 1))%Z.

Definition u8 (x : Z) : Z := wrap 8 x.
Definition u16 (x : Z) : Z := wrap 16 x.
Definition u32 (x : Z) : Z := wrap 32 x.
Definition u64 (x : Z) : Z := wrap 64 x.
Definition i32 (x : Z) : Z := swrap 32 x.
Definition i64 (x : Z) : Z := swrap 64 x.

Definition in_u32 (x : Z) : Prop := (0 <= x < 2 ^ 32)%Z.
Definition in_u64 (x : Z) : Prop := (0 <= x < 2 ^ 64)%Z.
Definition in_i32 (x : Z) : Prop := (- 2 ^ 31 <= x < 2 ^ 31)%Z.
Definition in_i64 (x : Z) : Prop := (- 2 ^ 63 <= x < 2 ^ 63)%Z.

(** Byte strings: [std::string] and [std::string_view] are byte sequences. *)
Abbreviation bytes := (list ascii).
Definition B (s : string) : bytes := list_ascii_of_string s.
Arguments B s%_string_scope.

(** [size()] of a container. *)
Definition zlen {A} (l : list A) : Z := Z.of_nat (length l).

(** ** Tactics *)

(** Case analysis on the first boolean test or match scrutinee of the goal. *)
Ltac case_test :=
  match goal with
  | |- context [if ?b then _ else _] => destruct b eqn:?
  | |- context [match ?x with _ => _ end] => destruct x eqn:?
  end.

(** Turn boolean comparisons of the hypotheses into propositions. *)
Ltac b2p :=
  repeat match goal with
  | H : (_ <? _)%nat = true |- _ => apply Nat.ltb_lt in H
  | H : (_ <? _)%nat = false |- _ => apply Nat.ltb_ge in H
  | H : (_ <=? _)%nat = true |- _ => apply Nat.leb_le in H
  | H : (_ <=? _)%nat = false |- _ => apply Nat.leb_gt in H
  | H : (_ =? _)%nat = true |- _ => apply Nat.eqb_eq in H
  | H : (_ =? _)%nat = false |- _ => apply Nat.eqb_neq in H
  | H : (_ <? _)%Z = true |- _ => apply Z.ltb_lt in H
  | H : (_ <? _)%Z = false |- _ => apply Z.ltb_ge in H
  | H : (_ <=? _)%Z = true |- _ => apply Z.leb_le in H
  | H : (_ <=? _)%Z = false |- _ => apply Z.leb_gt in H
  | H : (_ =? _)%Z = true |- _ => apply Z.eqb_eq in H
  | H : (_ =? _)%Z = false |- _ => apply Z.eqb_neq in H
  | H : _ && _ = true |- _ => apply andb_prop in H as [? ?]
  | H : _ || _ = false |- _ => apply orb_false_elim in H as [? ?]
  | H : negb _ = true |- _ => apply negb_true_iff in H
  | H : negb _ = false |- _ => apply negb_false_iff in H
  end.

(** ** Arithmetic modulo [2 ^ w] *)

Lemma u32_small x : in_u32 x → u32 x = x.
Proof. intros ?. by apply Z.mod_small. Qed.

Lemma u64_small x : in_u64 x → u64 x = x.
Proof. intros H. apply Z.mod_small, H. Qed.

Lemma u32_range x : in_u32 (u32 x).
Proof. apply Z.mod_pos_bound. lia. Qed.

Lemma u32_add_l x y : u32 (u32 x + y) = u32 (x + y).
Proof. unfold u32, wrap. by rewrite Zplus_mod_idemp_l. Qed.

Lemma u32_add_r x y : u32 (x + u32 y) = u32 (x + y).
Proof. unfold u32, wrap. by rewrite Zplus_mod_idemp_r. Qed.

Lemma u32_sub_l x y : u32 (u32 x - y) = u32 (x - y).
Proof. unfold u32, wrap. by rewrite Zminus_mod_idemp_l. Qed.

Lemma u32_sub_r x y : u32 (x - u32 y) = u32 (x - y).
Proof. unfold u32, wrap. by rewrite Zminus_mod_idemp_r. Qed.

Lemma u32_u32 x : u32 (u32 x) = u32 x.
Proof. unfold u32, wrap. by rewrite Zmod_mod. Qed.

Lemma u32_opp x : u32 (- u32 x) = u32 (- x).
Proof. rewrite <- (Z.sub_0_l (u32 x)), u32_sub_r. f_equal. Qed.

(** The same one addition or subtraction further out. *)
Lemma u32_add_out x y : u32 x = u32 y → ∀ z, u32 (x + z) = u32 (y + z).
Proof. intros H z. by rewrite <-(u32_add_l x), H, u32_add_l. Qed.

Lemma u32_sub_out x y : u32 x = u32 y → ∀ z, u32 (x - z) = u32 (y - z).
Proof. apply (λ H z, u32_add_out x y H (- z)%Z). Qed.

Definition u32_add_ll x y := u32_add_out _ _ (u32_add_l x y).
Definition u32_add_rl x y := u32_add_out _ _ (u32_add_r x y).
Definition u32_sub_ll x y := u32_sub_out _ _ (u32_sub_l x y).
Definition u32_sub_rl x y := u32_sub_out _ _ (u32_sub_r x y).

Lemma u32_add_lr x y z : u32 (x + (u32 y + z)) = u32 (x + (y + z)).
Proof. by rewrite <-u32_add_r, u32_add_l, u32_add_r. Qed.

Lemma u32_add_opp x y : u32 (x + - u32 y) = u32 (x + - y).
Proof. apply u32_sub_r. Qed.

Create Rewrite HintDb astra_arith.
#[export] Hint Rewrite u32_add_l u32_add_r u32_sub_l u32_sub_r u32_u32 u32_opp
  u32_add_ll u32_add_rl u32_sub_ll u32_sub_rl u32_add_lr u32_add_opp : astra_arith.

Lemma i32_small x : in_i32 x → i32 x = x.
Proof.
  unfold in_i32, i32, swrap. change (32 - 1)%Z with 31%Z. intros ?.
  rewrite Z.mod_small; lia.
Qed.

Lemma i64_small x : in_i64 x → i64 x = x.
Proof.
  unfold in_i64, i64, swrap. change (64 - 1)%Z with 63%Z. intros ?.
  rewrite Z.mod_small; lia.
Qed.

(** ** Lists as arrays *)

(** [set_slot i x l] writes slot [i] of the array whose live part is [l]; a
    write one past the live part extends it. *)
Definition set_slot {A} (i : nat) (x : A) (l : list A) : list A :=
  take i l ++ x :: drop (S i) l.

Lemma length_set_slot {A} i (x : A) l :
  i < length l → length (set_slot i x l) = length l.
Proof.
  intros. unfold set_slot. rewrite length_app, length_cons, length_take, length_drop. lia.
Qed.

Lemma set_slot_middle {A} (l1 l2 : list A) x y i :
  i = length l1 → set_slot i x (l1 ++ y :: l2) = l1 ++ x :: l2.
Proof.
  intros ->. unfold set_slot. rewrite take_app_length.
  change (l1 ++ y :: l2) with (l1 ++ [y] ++ l2).
  rewrite app_assoc, drop_app_length'; [done|].
  rewrite length_app. simpl. lia.
Qed.

Lemma set_slot_end {A} (l : list A) x i : i = length l → set_slot i x l = l ++ [x].
Proof.
  intros ->. unfold set_slot. rewrite take_ge, drop_ge by lia. done.
Qed.

(** Any index inside a list splits it around the element there. *)
Lemma list_split_at {A} (l : list A) i :
  i < length l → ∃ l1 x l2, l = l1 ++ x :: l2 ∧ length l1 = i.
Proof.
  intros [x Hx]%lookup_lt_is_Some.
  exists (take i l), x, (drop (S i) l). split.
  - by rewrite take_drop_middle.
  - apply length_take_le. apply lookup_lt_Some in Hx. lia.
Qed.

Lemma list_split_at' {A} (l : list A) i :
  i ≤ length l → ∃ l1 l2, l = l1 ++ l2 ∧ length l1 = i.
Proof.
  intros ?. exists (take i l), (drop i l). split; [by rewrite take_drop|].
  by apply length_take_le.
Qed.

Lemma lookup_total_middle {A} `{!Inhabited A} (l1 l2 : list A) x i :
  i = length l1 → (l1 ++ x :: l2) !!! i = x.
Proof. intros ->. apply list_lookup_total_middle. done. Qed.

Lemma drop_S_middle {A} (l1 l2 : list A) x i :
  i = length l1 → drop (S i) (l1 ++ x :: l2) = l2.
Proof. intros ->. rewrite drop_app_ge, Nat.sub_succ_l, Nat.sub_diag by lia. done. Qed.

Lemma set_slot_middle2 {A} (l1 l2 : list A) x y z i :
  i = S (length l1) → set_slot i z (l1 ++ x :: y :: l2) = l1 ++ x :: z :: l2.
Proof.
  intros ->. change (l1 ++ x :: y :: l2) with (l1 ++ [x] ++ y :: l2).
  rewrite app_assoc, set_slot_middle; [by rewrite <-app_assoc|].
  rewrite length_app. simpl. lia.
Qed.

(** ** Sorted lists *)

Lemma StronglySorted_app_iff {A} (R : A → A → Prop) l1 l2 :
  StronglySorted R (l1 ++ l2) ↔
  StronglySorted R l1 ∧ StronglySorted R l2 ∧ (∀ x y, x ∈ l1 → y ∈ l2 → R x y).
Proof.
  induction l1 as [|x l1 IH]; simpl.
  - split; [|tauto]. intros H. split_and!; [constructor|done|]. set_solver.
  - split.
    + intros H. apply StronglySorted_inv in H as [(H1 & H2 & H3)%IH HF]. rewrite Forall_app in HF.
      destruct HF as [HF1 HF2]. rewrite Forall_forall in HF2.
      split_and!; [by constructor|done|]. intros a b [->|Ha]%elem_of_cons Hb; auto.
    + intros (H1 & H2 & H3). apply StronglySorted_inv in H1 as [H1 HF]. constructor.
      * apply IH. split_and!; try done. intros. apply H3; set_solver.
      * rewrite Forall_app. split; [done|]. apply Forall_forall. intros. apply H3; set_solver.
Qed.

Lemma StronglySorted_sublist {A} (R : A → A → Prop) l1 l2 :
  l1 `sublist_of` l2 → StronglySorted R l2 → StronglySorted R l1.
Proof.
  induction 1 as [|x l1 l2 Hs IH|x l1 l2 Hs IH]; [done|..]; intros [H1 H2]%StronglySorted_inv.
  - constructor; [auto|]. rewrite Forall_forall in *. intros y Hy. apply H2.
    eapply elem_of_submseteq; [done|]. by apply sublist_submseteq.
  - auto.
Qed.

Lemma omap_cons_eq {A B} (f : A → option B) x l :
  omap f (x :: l) = match f x with Some y => y :: omap f l | None => omap f l end.
Proof. done. Qed.

Lemma filter_all {A} (P : A → Prop) `{!∀ x, Decision (P x)} l : Forall P l → filter P l = l.
Proof.
  induction 1 as [|x l Hx _ IH]; [done|]. by rewrite filter_cons_True, IH.
Qed.

Lemma filter_none {A} (P : A → Prop) `{!∀ x, Decision (P x)} l :
  Forall (λ x, ¬ P x) l → filter P l = [].
Proof.
  induction 1 as [|x l Hx _ IH]; [done|]. by rewrite filter_cons_False.
Qed.
