(* ===== verification/BPTreeNode.v ===== *)
(** * B+ tree nodes

    Models the node half of src/astra/container/zset/bplustree_internal.hpp:
    the layout constants of [BPNodeLayout], the node with its key slots, child
    slots and subtree count, and every node operation.  A node is the live part
    of its 256-byte block: [keys_] are the [num_items_] key slots, [children_]
    the [num_items_ + 1] child slots of an inner node (a leaf has none) and
    [tree_count_] the 32-bit counter that inner nodes keep.  Child pointers are
    owned by exactly one slot, so a child slot holds the child itself. *)
From S2P Require Import Prelude.

(** ** Layout *)

(** [sizeof(T)], the only thing the layout takes from the key type. *)
Class BPNodeLayout := { kKeySize : nat }.

Definition kBPNodeSize : nat := 256.
Definition kKeyOffset : nat := 4.
Definition kSubTreeLen : nat := 4.
Definition kPtrSize : nat := 8.

(** The three-way comparator of the policy: negative, zero or positive. *)
Class KeyCompareTo (K : Type) := compare_to : K → K → Z.

Section Layout.
Context `{!BPNodeLayout}.

Definition kMaxLeafKeys : nat := (kBPNodeSize - kKeyOffset) / kKeySize.
Definition kMinLeafKeys : nat := kMaxLeafKeys / 2.
Definition kMaxInnerKeys : nat :=
  (kBPNodeSize - kPtrSize - kKeyOffset - kSubTreeLen) / (kKeySize + kPtrSize).
Definition kMinInnerKeys : nat := kMaxInnerKeys / 2.
End Layout.

(** ** Nodes *)

Inductive BPTreeNode (K : Type) : Type :=
  Node {
    leaf_ : bool;
    keys_ : list K;
    children_ : list (BPTreeNode K);
    tree_count_ : Z
  }.
Arguments Node {K} _ _ _ _.
Arguments leaf_ {K} _.
Arguments keys_ {K} _.
Arguments children_ {K} _.
Arguments tree_count_ {K} _.

#[global] Instance BPTreeNode_inhabited K : Inhabited (BPTreeNode K) :=
  populate (Node true [] [] 0%Z).

(** Measures of a subtree: the loops that walk down it are bounded by its
    height, the walk over all of it by its number of nodes. *)
Fixpoint node_height {K} (n : BPTreeNode K) : nat :=
  match n with Node _ _ cs _ => S (foldr Nat.max 0 (map node_height cs)) end.
Fixpoint node_size {K} (n : BPTreeNode K) : nat :=
  match n with Node _ _ cs _ => S (sum_list (map node_size cs)) end.

Section Node.
Context {K : Type} {HK : Inhabited K} {HL : BPNodeLayout}.
Implicit Types (n : BPTreeNode K).

Definition IsLeaf n : bool := leaf_ n.
Definition NumItems n : nat := length (keys_ n).

Definition MaxItems n : nat := if IsLeaf n then kMaxLeafKeys else kMaxInnerKeys.
Definition MinItems n : nat := if IsLeaf n then kMinLeafKeys else kMinInnerKeys.
Definition AvailableSlotCount n : nat := MaxItems n - NumItems n.

Definition Key (i : nat) n : K := keys_ n !!! i.
Definition SetKey (i : nat) (item : K) n : BPTreeNode K :=
  Node (leaf_ n) (set_slot i item (keys_ n)) (children_ n) (tree_count_ n).

Definition Child (i : nat) n : BPTreeNode K := children_ n !!! i.
Definition SetChild (i : nat) (child : BPTreeNode K) n : BPTreeNode K :=
  Node (leaf_ n) (keys_ n) (set_slot i child (children_ n)) (tree_count_ n).

Definition InitSingle (key : K) n : BPTreeNode K :=
  Node (leaf_ n) [key] (children_ n) (tree_count_ n).

(** Subtree counters: a leaf counts its items, an inner node stores the
    number of items of its subtree as a [uint32_t]. *)
Definition GetInnerTreeCount n : Z := tree_count_ n.
Definition TreeCount n : Z :=
  if IsLeaf n then Z.of_nat (NumItems n) else GetInnerTreeCount n.
Definition SetTreeCount (cnt : Z) n : BPTreeNode K :=
  Node (leaf_ n) (keys_ n) (children_ n) cnt.
Definition IncreaseTreeCount (delta : Z) n : BPTreeNode K :=
  Node (leaf_ n) (keys_ n) (children_ n) (u32 (GetInnerTreeCount n + delta)).
Definition GetChildTreeCount (i : nat) n : Z := TreeCount (Child i n).
Definition SetChildTreeCount (i : nat) (cnt : Z) n : BPTreeNode K :=
  SetChild i (SetTreeCount cnt (Child i n)) n.

(** [rank += child->TreeCount()] over a run of children. *)
Definition SumTreeCount (cs : list (BPTreeNode K)) : Z :=
  fold_left (λ acc c, u32 (acc + TreeCount c)) cs 0%Z.

(** The recount used by the debug assertions. *)
Fixpoint DEBUG_TreeCount n : Z :=
  match n with
  | Node leaf ks cs _ =>
      let res := Z.of_nat (length ks) in
      if leaf then res
      else fold_left (λ acc c, u32 (acc + c)) (map DEBUG_TreeCount cs) res
  end.

(** *** Search *)

Record SearchResult := { index : nat; found : bool }.

(** The loop of [BSearch] on [lo, hi). *)
Fixpoint bsearch_loop (fuel : nat) (cmp_op : K → Z) n (lo hi : nat) : SearchResult :=
  match fuel with
  | 0 => {| index := hi; found := false |}
  | S fuel =>
      if lo <? hi then
        let mid := (lo + hi) / 2 in
        let cmp_res := cmp_op (Key mid n) in
        if (cmp_res =? 0)%Z then {| index := mid; found := true |}
        else if (cmp_res <? 0)%Z then bsearch_loop fuel cmp_op n lo mid
        else bsearch_loop fuel cmp_op n (S mid) hi
      else {| index := hi; found := false |}
  end.

Definition BSearch (cmp_op : K → Z) n : SearchResult :=
  let hi := NumItems n in
  let cmp_res := cmp_op (Key (hi - 1) n) in
  if (0 <=? cmp_res)%Z then
    if (0 <? cmp_res)%Z then {| index := hi; found := false |}
    else {| index := hi - 1; found := true |}
  else bsearch_loop (hi - 1) cmp_op n 0 (hi - 1).

(** *** Shifts and insertions *)

(** Opens slot [i]; the slot keeps its old bytes until the caller sets it. *)
Definition ShiftRight (i : nat) n : BPTreeNode K :=
  let num_items_to_shift := NumItems n - i in
  Node (leaf_ n)
       (take i (keys_ n) ++ Key i n :: drop i (keys_ n))
       (if (0 <? num_items_to_shift) && negb (IsLeaf n)
        then take i (children_ n) ++ Child i n :: drop i (children_ n)
        else children_ n)
       (tree_count_ n).

(** Closes key slot [i], and child slot [i] or [i + 1] of an inner node. *)
Definition ShiftLeft (i : nat) (child_step_right : bool) n : BPTreeNode K :=
  let num_items_to_shift := NumItems n - i - 1 in
  let slots :=
    if (0 <? num_items_to_shift) && negb (leaf_ n) then
      let ci := i + (if child_step_right then 1 else 0) in
      if 0 <? NumItems n - ci
      then take ci (children_ n) ++ drop (S ci) (children_ n)
      else children_ n
    else children_ n in
  Node (leaf_ n)
       (take i (keys_ n) ++ drop (S i) (keys_ n))
       (if leaf_ n then slots else take (NumItems n) slots)
       (tree_count_ n).

Definition LeafEraseRight n : BPTreeNode K :=
  Node (leaf_ n) (take (NumItems n - 1) (keys_ n)) (children_ n) (tree_count_ n).

Definition InsertItem (i : nat) (item : K) n : BPTreeNode K :=
  SetKey i item (ShiftRight i n).
Definition LeafInsert (i : nat) (item : K) n : BPTreeNode K := InsertItem i item n.
Definition InnerInsert (i : nat) (item : K) (child : BPTreeNode K) n : BPTreeNode K :=
  SetChild (i + 1) child (InsertItem i item n).

(** *** Moving items between siblings *)

(** Moves [count] items from child [child_pos] through the separator to the
    end of child [child_pos - 1]. *)
Definition RebalanceChildToLeft (child_pos count : nat) n : BPTreeNode K :=
  let src := Child child_pos n in
  let dest := Child (child_pos - 1) n in
  let dest_keys := keys_ dest ++ Key (child_pos - 1) n :: take (count - 1) (keys_ src) in
  let src_keys := drop count (keys_ src) in
  let n := SetKey (child_pos - 1) (Key (count - 1) src) n in
  if IsLeaf src then
    let dest' := Node (leaf_ dest) dest_keys (children_ dest) (tree_count_ dest) in
    let src' := Node (leaf_ src) src_keys (children_ src) (tree_count_ src) in
    SetChild child_pos src' (SetChild (child_pos - 1) dest' n)
  else
    let src_move_count := SumTreeCount (take count (children_ src)) in
    let dest_tree_count := TreeCount dest in
    let src_tree_count := TreeCount src in
    let dest' := Node (leaf_ dest) dest_keys
                      (children_ dest ++ take count (children_ src))
                      (u32 (dest_tree_count + src_move_count + Z.of_nat count)) in
    let src' := Node (leaf_ src) src_keys (drop count (children_ src))
                     (u32 (src_tree_count - src_move_count - Z.of_nat count)) in
    SetChild child_pos src' (SetChild (child_pos - 1) dest' n).

(** Moves the last [count] items of child [child_pos] through the separator
    to the front of child [child_pos + 1]. *)
Definition RebalanceChildToRight (child_pos count : nat) n : BPTreeNode K :=
  let src := Child child_pos n in
  let dest := Child (child_pos + 1) n in
  let kept := NumItems src - count in
  let new_delim := Key kept src in
  let dest_keys := drop (S kept) (keys_ src) ++ Key child_pos n :: keys_ dest in
  let src_keys := take kept (keys_ src) in
  let n := SetKey child_pos new_delim n in
  if IsLeaf src then
    let dest' := Node (leaf_ dest) dest_keys (children_ dest) (tree_count_ dest) in
    let src' := Node (leaf_ src) src_keys (children_ src) (tree_count_ src) in
    SetChild (child_pos + 1) dest' (SetChild child_pos src' n)
  else
    let moved := drop (S kept) (children_ src) in
    let src_move_count := SumTreeCount moved in
    let dest_tree_count := TreeCount dest in
    let src_tree_count := TreeCount src in
    let dest' := Node (leaf_ dest) dest_keys (moved ++ children_ dest)
                      (u32 (dest_tree_count + src_move_count + Z.of_nat count)) in
    let src' := Node (leaf_ src) src_keys (take (S kept) (children_ src))
                     (u32 (src_tree_count - src_move_count - Z.of_nat count)) in
    SetChild (child_pos + 1) dest' (SetChild child_pos src' n).

(** Makes room in the full child [pos] by moving items to a sibling.  The
    result is the updated parent with the child and position to insert at. *)
Definition RebalanceChild (pos insert_pos : nat) n
    : option (BPTreeNode K * nat * nat) :=
  let node := Child pos n in
  let try_right :=
    if pos <? NumItems n then
      let right := Child (pos + 1) n in
      let dest_free := AvailableSlotCount right in
      let to_move :=
        if 0 <? dest_free then
          if insert_pos =? 0 then dest_free
          else if 1 <? dest_free then dest_free / 2 else 0
        else 0 in
      if 0 <? to_move then
        let n' := RebalanceChildToRight pos to_move n in
        let left_items := NumItems (Child pos n') in
        if left_items <? insert_pos
        then Some (n', pos + 1, insert_pos - (left_items + 1))
        else Some (n', pos, insert_pos)
      else None
    else None in
  if 0 <? pos then
    let left := Child (pos - 1) n in
    let dest_free := AvailableSlotCount left in
    let to_move :=
      if 0 <? dest_free then
        if insert_pos =? NumItems node then dest_free
        else if 1 <? dest_free then dest_free / 2 else 0
      else 0 in
    if 0 <? to_move then
      let dest_old_count := NumItems left in
      let n' := RebalanceChildToLeft pos to_move n in
      if insert_pos <? to_move
      then Some (n', pos - 1, dest_old_count + insert_pos + 1)
      else Some (n', pos, insert_pos - to_move)
    else try_right
  else try_right.

(** *** Splitting and merging *)

(** Splits a node around its middle key: left part, right part, median. *)
Definition Split n : BPTreeNode K * BPTreeNode K * K :=
  let mid := NumItems n / 2 in
  let median := Key mid n in
  let right_keys := drop (mid + 1) (keys_ n) in
  if IsLeaf n then
    (Node (leaf_ n) (take mid (keys_ n)) (children_ n) (tree_count_ n),
     Node (leaf_ n) right_keys [] 0%Z,
     median)
  else
    let right_children := drop (mid + 1) (children_ n) in
    let right_subtree_count :=
      fold_left (λ acc c, u32 (acc + TreeCount c)) right_children
                (Z.of_nat (length right_keys)) in
    (IncreaseTreeCount (- (right_subtree_count + 1))
       (Node (leaf_ n) (take mid (keys_ n)) (take (mid + 1) (children_ n)) (tree_count_ n)),
     Node (leaf_ n) right_keys right_children right_subtree_count,
     median).

(** Appends the separator and the whole right sibling to a node. *)
Definition MergeFromRight (key : K) (right : BPTreeNode K) n : BPTreeNode K :=
  let ks := keys_ n ++ key :: keys_ right in
  if IsLeaf n then Node (leaf_ n) ks (children_ n) (tree_count_ n)
  else IncreaseTreeCount (TreeCount right + 1)
         (Node (leaf_ n) ks (children_ n ++ children_ right) (tree_count_ n)).

(** Merges the underfull child [pos] with a sibling, or borrows from one.
    The flag says whether a child was retired (and has to be destroyed). *)
Definition MergeOrRebalanceChild (pos : nat) n : BPTreeNode K * bool :=
  let node := Child pos n in
  let left := Child (pos - 1) n in
  let right := Child (pos + 1) n in
  if (0 <? pos) && (NumItems left + 1 + NumItems node <=? MaxItems left) then
    (ShiftLeft (pos - 1) true
       (SetChild (pos - 1) (MergeFromRight (Key (pos - 1) n) node left) n), true)
  else if pos <? NumItems n then
    if NumItems node + 1 + NumItems right <=? MaxItems right then
      (ShiftLeft pos true (SetChild pos (MergeFromRight (Key pos n) right node) n), true)
    else
      let to_move := (NumItems right - NumItems node) / 2 in
      (RebalanceChildToLeft (pos + 1) to_move n, false)
  else if 0 <? pos then
    let to_move := (NumItems left - NumItems node) / 2 in
    (RebalanceChildToRight (pos - 1) to_move n, false)
  else (n, false).
End Node.
