(* ===== verification/BPTreeWf.v ===== *)
(** * B+ tree nodes: contents and well-formedness

    The abstraction function [inorder] of a node, the invariant [wf] every
    subtree of a reachable tree satisfies, and what the node operations of
    BPTreeNode do to both: sibling moves, splits and merges keep the in-order
    contents, the occupancy bounds and the 32-bit subtree counters. *)
From S2P Require Import Prelude.
From S2P Require Import BPTreeNode.

(** The key sizes for which the 256-byte layout gives every node room for at
    least three keys and keeps the 7-bit item counter in range. *)
Class LayoutOk `{!BPNodeLayout} : Prop := layout_ok : 2 ≤ kKeySize ≤ 64.

Section Contents.
Context {K : Type}.

(** ** In-order contents *)

Fixpoint inorder (n : BPTreeNode K) : list K :=
  match n with
  | Node leaf ks cs _ =>
      if leaf then ks
      else match map inorder cs with
           | [] => []
           | x :: xss => x ++ concat (zip_with cons ks xss)
           end
  end.

(** Keys [ks], each followed by the contents of the child on its right. *)
Definition after (ks : list K) (cs : list (BPTreeNode K)) : list K :=
  concat (zip_with cons ks (map inorder cs)).
(** Contents of the children [cs], each followed by the key on its right. *)
Definition before (cs : list (BPTreeNode K)) (ks : list K) : list K :=
  concat (zip_with (λ c k, inorder c ++ [k]) cs ks).

Definition content (leaf : bool) (ks : list K) (cs : list (BPTreeNode K)) : list K :=
  if leaf then ks else match cs with [] => [] | c :: cs => inorder c ++ after ks cs end.
Definition rest (leaf : bool) (ks : list K) (cs : list (BPTreeNode K)) : list K :=
  if leaf then ks else after ks cs.

(** Number of nodes below a list of children. *)
Definition sizes (cs : list (BPTreeNode K)) : nat := sum_list (map node_size cs).

(** The contents of a node on either side of the gap before key [i]. *)
Definition pre_at (i : nat) (n : BPTreeNode K) : list K :=
  content (leaf_ n) (take i (keys_ n)) (take (S i) (children_ n)).
Definition post_at (i : nat) (n : BPTreeNode K) : list K :=
  rest (leaf_ n) (drop i (keys_ n)) (drop (S i) (children_ n)).

(** The contents of an inner node on either side of its child [i]. *)
Definition pre_child (i : nat) (n : BPTreeNode K) : list K :=
  before (take i (children_ n)) (take i (keys_ n)).
Definition post_child (i : nat) (n : BPTreeNode K) : list K :=
  after (drop i (keys_ n)) (drop (S i) (children_ n)).

Lemma inorder_content n : inorder n = content (leaf_ n) (keys_ n) (children_ n).
Proof. destruct n as [[] ks [|c cs] t]; done. Qed.

Lemma after_app ks1 ks2 cs1 cs2 :
  length ks1 = length cs1 → after (ks1 ++ ks2) (cs1 ++ cs2) = after ks1 cs1 ++ after ks2 cs2.
Proof.
  intros. unfold after. rewrite map_app, zip_with_app, concat_app; [done|].
  by rewrite length_map.
Qed.

Lemma after_cons k ks c cs : after (k :: ks) (c :: cs) = k :: inorder c ++ after ks cs.
Proof. done. Qed.

Lemma before_app ks1 ks2 cs1 cs2 :
  length cs1 = length ks1 →
  before (cs1 ++ cs2) (ks1 ++ ks2) = before cs1 ks1 ++ before cs2 ks2.
Proof. intros. unfold before. by rewrite zip_with_app, concat_app. Qed.

(** The two ways of reading an alternation of children and keys agree. *)
Lemma before_after cs1 ks1 c :
  length cs1 = length ks1 →
  content false ks1 (cs1 ++ [c]) = before cs1 ks1 ++ inorder c.
Proof.
  revert ks1. induction cs1 as [|d cs1 IH]; intros [|k ks1] ?; simplify_eq/=.
  - by rewrite app_nil_r.
  - destruct cs1 as [|d' cs1]; destruct ks1 as [|k' ks1]; simplify_eq/=.
    + unfold after, before. simpl. rewrite !app_nil_r, <-app_assoc. done.
    + specialize (IH (k' :: ks1)). simpl in IH. rewrite after_cons, IH by lia.
      unfold before. simpl. rewrite <-!app_assoc. done.
Qed.

Lemma content_app leaf ks1 ks2 cs1 cs2 :
  leaf = true ∨ length cs1 = S (length ks1) →
  content leaf (ks1 ++ ks2) (cs1 ++ cs2) = content leaf ks1 cs1 ++ rest leaf ks2 cs2.
Proof.
  intros [-> | H]; [done|]. destruct leaf; [done|].
  destruct cs1 as [|c cs1]; [done|]. simpl in *.
  rewrite after_app by lia. by rewrite app_assoc.
Qed.

Lemma content_join leaf ks1 k ks2 cs1 cs2 :
  leaf = true ∨ (length cs1 = S (length ks1) ∧ cs2 ≠ []) →
  content leaf (ks1 ++ k :: ks2) (cs1 ++ cs2) = content leaf ks1 cs1 ++ k :: content leaf ks2 cs2.
Proof.
  intros H. rewrite content_app by tauto. f_equal.
  destruct leaf; [done|]. destruct H as [?|[_ Hne]]; [done|].
  by destruct cs2.
Qed.

Lemma content_child ks1 ks2 cs1 c cs2 :
  length cs1 = length ks1 →
  content false (ks1 ++ ks2) (cs1 ++ c :: cs2) = before cs1 ks1 ++ inorder c ++ after ks2 cs2.
Proof.
  intros H. change (cs1 ++ c :: cs2) with (cs1 ++ [c] ++ cs2).
  rewrite app_assoc, content_app.
  - rewrite before_after by done. by rewrite <-app_assoc.
  - right. rewrite length_app. simpl. lia.
Qed.

Lemma content_two ks1 k ks2 cs1 c d cs2 :
  length cs1 = length ks1 →
  content false (ks1 ++ k :: ks2) (cs1 ++ c :: d :: cs2)
  = before cs1 ks1 ++ inorder c ++ (k :: inorder d) ++ after ks2 cs2.
Proof. intros. by rewrite content_child. Qed.

Lemma sizes_app cs1 cs2 : sizes (cs1 ++ cs2) = sizes cs1 + sizes cs2.
Proof. unfold sizes. induction cs1; simpl; lia. Qed.

Lemma sizes_nil : sizes [] = 0.
Proof. done. Qed.

Lemma sizes_cons c cs : sizes (c :: cs) = node_size c + sizes cs.
Proof. done. Qed.

Lemma node_size_eq n : node_size n = S (sizes (children_ n)).
Proof. by destruct n. Qed.

End Contents.

(** Solve an equation between node counts. *)
Ltac sizes_lia := rewrite ?sizes_app, ?sizes_cons, ?sizes_nil; lia.

Arguments sizes {K} cs : simpl never.
Arguments after {K} ks cs : simpl never.
Arguments before {K} cs ks : simpl never.

Section Wf.
Context {K : Type} {HK : Inhabited K} {HL : BPNodeLayout}.
Implicit Types (n c d : BPTreeNode K).

(** ** The node invariant *)

(** The counter of an inner node is the size of its subtree, as a [uint32_t],
    up to an offset [e] that is nonzero only in the middle of an update. *)
Definition count_ok (e : Z) n : Prop :=
  leaf_ n = true ∨ tree_count_ n = u32 (Z.of_nat (length (inorder n)) + e).

(** The fewest items a node other than the root has: the right half that
    [Split] leaves behind, which can be one less than [MinItems]. *)
Definition occupied n : Prop := (MaxItems n - 1) / 2 ≤ NumItems n.

Definition wf_node (e : Z) (h : nat) (good : BPTreeNode K → Prop) n : Prop :=
  NumItems n ≤ MaxItems n ∧ count_ok e n ∧
  if leaf_ n then h = 0 ∧ children_ n = []
  else length (children_ n) = S (NumItems n) ∧ Forall good (children_ n).

(** [wf h n]: [n] is the root of a well-formed subtree of height [h]. *)
Fixpoint wf (h : nat) n : Prop :=
  match h with
  | 0 => False
  | S h => wf_node 0 h (λ c, wf h c ∧ occupied c) n
  end.

(** A subtree that may hang under an inner node. *)
Definition good (h : nat) n : Prop := wf h n ∧ occupied n.

(** [wf] with a counter that is off by [e] at the top node. *)
Definition wfe (e : Z) (h : nat) n : Prop :=
  match h with
  | 0 => False
  | S h => wf_node e h (good h) n
  end.

Definition sumlen (cs : list (BPTreeNode K)) : nat := length (concat (map inorder cs)).

Lemma wf_wfe h n : wf h n ↔ wfe 0 h n.
Proof. by destruct h. Qed.

Lemma wfe_leaf e h ks cs t :
  wfe e h (Node true ks cs t) ↔ h = 1 ∧ cs = [] ∧ length ks ≤ kMaxLeafKeys.
Proof.
  destruct h as [|h]; simpl; [naive_solver|].
  unfold wf_node, count_ok, NumItems, MaxItems. simpl. naive_solver.
Qed.

Lemma wfe_inner e h ks cs t :
  wfe e (S h) (Node false ks cs t) ↔
  length ks ≤ kMaxInnerKeys ∧ length cs = S (length ks) ∧ Forall (good h) cs ∧
  t = u32 (Z.of_nat (length (content false ks cs)) + e).
Proof.
  unfold wfe, wf_node, count_ok, NumItems, MaxItems.
  rewrite inorder_content. simpl. naive_solver.
Qed.

Lemma wfe_same_kind e1 e2 h c d : wfe e1 h c → wfe e2 h d → leaf_ c = leaf_ d.
Proof.
  destruct h as [|h]; [done|]. intros (_ & _ & Hc) (_ & _ & Hd).
  destruct (leaf_ c), (leaf_ d); try done.
  - destruct Hc as [-> _], Hd as [Hl Hall].
    destruct (children_ d); [done|]. inversion Hall as [|?? [[] _]].
  - destruct Hd as [-> _], Hc as [Hl Hall].
    destruct (children_ c); [done|]. inversion Hall as [|?? [[] _]].
Qed.

Lemma wfe_max e h n : wfe e h n → NumItems n ≤ MaxItems n.
Proof. destruct h; [done|]. by intros [? _]. Qed.

Lemma wfe_children e h n :
  wfe e h n → leaf_ n = false → length (children_ n) = S (NumItems n).
Proof. destruct h; [done|]. intros (_ & _ & H) Hl. rewrite Hl in H. tauto. Qed.

Lemma sumlen_app cs1 cs2 : sumlen (cs1 ++ cs2) = sumlen cs1 + sumlen cs2.
Proof. unfold sumlen. by rewrite map_app, concat_app, length_app. Qed.

Lemma sumlen_cons c cs : sumlen (c :: cs) = length (inorder c) + sumlen cs.
Proof. unfold sumlen. simpl. by rewrite length_app. Qed.

Lemma length_after ks cs :
  length ks = length cs → length (after ks cs) = length ks + sumlen cs.
Proof.
  revert cs. induction ks as [|k ks IH]; intros [|c cs] [=]; [done|].
  rewrite after_cons, sumlen_cons. simpl. rewrite length_app, IH by done. lia.
Qed.

Lemma length_content ks cs :
  length cs = S (length ks) → length (content false ks cs) = length ks + sumlen cs.
Proof.
  destruct cs as [|c cs]; [done|]. intros ?. simplify_eq/=.
  rewrite length_app, length_after, sumlen_cons by done. lia.
Qed.

Lemma MaxItems_bound n : @LayoutOk _ → (3 ≤ MaxItems n ≤ 126)%nat.
Proof.
  intros [H1 H2]. unfold MaxItems, kMaxLeafKeys, kMaxInnerKeys.
  unfold kBPNodeSize, kKeyOffset, kSubTreeLen, kPtrSize.
  assert (Hd : ∀ a b, (0 < b → 3 * b ≤ a → a ≤ 127 * b - 1 → 3 ≤ a / b ≤ 126)%nat).
  { intros a b Hb Ha Ha'. split; [apply Nat.div_le_lower_bound; lia|].
    apply Nat.lt_succ_r, Nat.Div0.div_lt_upper_bound; lia. }
  destruct (IsLeaf n); apply Hd; lia.
Qed.

Context `{!LayoutOk}.

Lemma TreeCount_wfe e h n :
  wfe e h n → leaf_ n = false → TreeCount n = u32 (Z.of_nat (length (inorder n)) + e).
Proof.
  destruct h; [done|]. intros (_ & Hc & _) Hl. unfold TreeCount, IsLeaf.
  rewrite Hl. destruct Hc as [?|Hc]; [congruence|done].
Qed.

Lemma TreeCount_wf h n : wf h n → TreeCount n = u32 (Z.of_nat (length (inorder n))).
Proof.
  intros Hwf%wf_wfe. destruct (leaf_ n) eqn:Hl.
  - unfold TreeCount, IsLeaf. rewrite Hl, inorder_content, Hl. simpl.
    apply wfe_max in Hwf. pose proof (MaxItems_bound n _). unfold NumItems in *.
    rewrite u32_small; [done|]. unfold in_u32. lia.
  - erewrite TreeCount_wfe by done. f_equal. lia.
Qed.

Lemma fold_TreeCount h cs a :
  Forall (good h) cs → in_u32 a →
  fold_left (λ acc c, u32 (acc + TreeCount c)) cs a = u32 (a + Z.of_nat (sumlen cs)).
Proof.
  intros Hall. revert a. induction Hall as [|c cs [Hc _] _ IH]; intros a Ha; simpl.
  - by rewrite Z.add_0_r, u32_small.
  - rewrite IH by apply u32_range. rewrite (TreeCount_wf h), sumlen_cons by done.
    autorewrite with astra_arith. f_equal. lia.
Qed.

Lemma SumTreeCount_good h cs :
  Forall (good h) cs → SumTreeCount cs = u32 (Z.of_nat (sumlen cs)).
Proof. intros. unfold SumTreeCount. erewrite fold_TreeCount; eauto. done. Qed.

End Wf.

Arguments wfe {K HL} e h n : simpl never.
