(* ===== verification/BPTreeMoves.v ===== *)
(** * B+ tree nodes: what the restructuring operations do

    Insertion into a node, moving items between siblings, splitting and
    merging, each stated on the keys and children of the nodes involved. *)
From S2P Require Import Prelude.
From S2P Require Import BPTreeNode.
From S2P Require Import BPTreeWf.

(** Write through to child slots whose index is the length of what is before. *)
Ltac slots :=
  repeat first [rewrite set_slot_middle2 by lia | rewrite set_slot_middle by lia].

Section Moves.
Context {K : Type} {HK : Inhabited K} {HL : BPNodeLayout} {HLok : LayoutOk}.
Implicit Types (n c d src dest : BPTreeNode K) (cs : list (BPTreeNode K)) (k : K) (ks : list K).

(** A node made of the parts of well-formed nodes of height [h]. *)
Definition part (h : nat) (leaf : bool) (ks : list K) (cs : list (BPTreeNode K)) : Prop :=
  if leaf then h = 1 ∧ cs = []
  else ∃ h', h = S h' ∧ length cs = S (length ks) ∧ Forall (good h') cs.

Lemma wfe_part e h n :
  wfe e h n ↔
  part h (leaf_ n) (keys_ n) (children_ n) ∧ NumItems n ≤ MaxItems n ∧ count_ok e n.
Proof.
  unfold part, wfe. destruct h as [|h].
  - destruct (leaf_ n); naive_solver.
  - unfold wf_node. destruct (leaf_ n); [naive_solver|]. unfold NumItems. naive_solver.
Qed.

Lemma part_join h leaf ks1 k ks2 cs1 cs2 :
  part h leaf ks1 cs1 → part h leaf ks2 cs2 → part h leaf (ks1 ++ k :: ks2) (cs1 ++ cs2).
Proof.
  destruct leaf; simpl; [naive_solver|].
  intros (h' & -> & H1 & HF1) (? & [= <-] & H2 & HF2). exists h'.
  rewrite !length_app, Forall_app. simpl. split_and!; try done; lia.
Qed.

Lemma part_split h leaf ks1 k ks2 cs1 cs2 :
  part h leaf (ks1 ++ k :: ks2) (cs1 ++ cs2) →
  leaf = true ∨ length cs1 = S (length ks1) →
  part h leaf ks1 cs1 ∧ part h leaf ks2 cs2.
Proof.
  destruct leaf; simpl.
  - intros [? [-> ->]%app_nil] _. done.
  - intros (h' & -> & Hl & [HF1 HF2]%Forall_app) [?|H]; [done|].
    rewrite !length_app in Hl. simpl in Hl.
    split; exists h'; split_and!; try done; lia.
Qed.

(** The side condition of [content_join] for two parts. *)
Lemma part_join_side h leaf ks1 ks2 cs1 cs2 :
  part h leaf ks1 cs1 → part h leaf ks2 cs2 →
  leaf = true ∨ (length cs1 = S (length ks1) ∧ cs2 ≠ []).
Proof.
  destruct leaf; [by left|]. intros (? & _ & ? & _) (? & _ & H2 & _).
  right. split; [done|]. by destruct cs2.
Qed.

(** Any key of a node splits the node into two parts around it. *)
Lemma node_split_at h n i :
  part h (leaf_ n) (keys_ n) (children_ n) → i < NumItems n →
  ∃ ks1 k ks2 cs1 cs2,
    keys_ n = ks1 ++ k :: ks2 ∧ children_ n = cs1 ++ cs2 ∧ length ks1 = i ∧
    part h (leaf_ n) ks1 cs1 ∧ part h (leaf_ n) ks2 cs2.
Proof.
  intros Hp Hi. destruct (list_split_at (keys_ n) i Hi) as (ks1 & k & ks2 & Hk & Hl).
  exists ks1, k, ks2, (take (S i) (children_ n)), (drop (S i) (children_ n)).
  assert (Hc : children_ n = take (S i) (children_ n) ++ drop (S i) (children_ n))
    by by rewrite take_drop.
  split_and!; try done.
  all: rewrite Hk, Hc in Hp; apply part_split in Hp; try tauto.
  all: destruct (leaf_ n); [by left|right]; unfold NumItems in Hi.
  all: destruct Hp as (? & _ & Hlen & _); rewrite <-Hc, <-Hk in Hlen.
  all: rewrite length_take; lia.
Qed.

(** Number of items of the children of a part, through its contents. *)
Lemma part_length h ks cs :
  part h false ks cs → length (content false ks cs) = length ks + sumlen cs.
Proof. intros (? & _ & ? & _). by apply length_content. Qed.

Lemma part_sum h ks cs :
  part h false ks cs → SumTreeCount cs = u32 (Z.of_nat (sumlen cs)).
Proof. intros (h' & _ & _ & HF). by eapply SumTreeCount_good. Qed.

(** ** Reading and writing slots of a node given by its decomposition *)

Lemma Key_middle leaf ks1 k ks2 cs t i :
  i = length ks1 → Key i (Node leaf (ks1 ++ k :: ks2) cs t) = k.
Proof. apply lookup_total_middle. Qed.

Lemma Child_middle leaf ks cs1 c cs2 t i :
  i = length cs1 → Child i (Node leaf ks (cs1 ++ c :: cs2) t) = c.
Proof. apply lookup_total_middle. Qed.

Lemma Child_middle2 leaf ks cs1 c d cs2 t i :
  i = S (length cs1) → Child i (Node leaf ks (cs1 ++ c :: d :: cs2) t) = d.
Proof.
  intros ->. unfold Child. simpl. change (cs1 ++ c :: d :: cs2) with (cs1 ++ [c] ++ d :: cs2).
  rewrite app_assoc. apply lookup_total_middle. rewrite length_app. simpl. lia.
Qed.

(** ** Building well-formed nodes from parts *)

(** [MaxItems] as a function of the kind of the node. *)
Definition cap (leaf : bool) : nat := if leaf then kMaxLeafKeys else kMaxInnerKeys.

Lemma wfe_cap e h n : wfe e h n → length (keys_ n) ≤ cap (leaf_ n).
Proof. apply wfe_max. Qed.

Lemma wfe_build e h leaf ks cs t :
  part h leaf ks cs →
  length ks ≤ cap leaf →
  (leaf = false → t = u32 (Z.of_nat (length (content false ks cs)) + e)) →
  wfe e h (Node leaf ks cs t).
Proof.
  intros Hp Hlen Ht. apply wfe_part. split_and!; [done..|].
  unfold count_ok. rewrite inorder_content. destruct leaf; simpl; [by left|].
  right. by apply Ht.
Qed.

Lemma length_join ks1 k ks2 cs1 cs2 h :
  part h false ks1 cs1 → part h false ks2 cs2 →
  length (content false (ks1 ++ k :: ks2) (cs1 ++ cs2))
  = length (content false ks1 cs1) + 1 + length (content false ks2 cs2).
Proof.
  intros H1 H2. rewrite content_join by (by eapply part_join_side).
  rewrite length_app. simpl. lia.
Qed.

(** ** Moving items between siblings *)

Lemma RebalanceChildToLeft_eq ed es h ks1 k ks2 cs1 dest src cs2 t s1 s s2 sc1 sc2 :
  length cs1 = length ks1 →
  wfe ed h dest → wfe es h src →
  keys_ src = s1 ++ s :: s2 → children_ src = sc1 ++ sc2 →
  part h (leaf_ src) s1 sc1 → part h (leaf_ src) s2 sc2 →
  length (keys_ dest) + S (length s1) ≤ cap (leaf_ src) →
  ∃ td ts,
    let dest' := Node (leaf_ src) (keys_ dest ++ k :: s1) (children_ dest ++ sc1) td in
    let src' := Node (leaf_ src) s2 sc2 ts in
    RebalanceChildToLeft (S (length ks1)) (S (length s1))
      (Node false (ks1 ++ k :: ks2) (cs1 ++ dest :: src :: cs2) t)
    = Node false (ks1 ++ s :: ks2) (cs1 ++ dest' :: src' :: cs2) t ∧
    wfe ed h dest' ∧ wfe es h src'.
Proof.
  intros Hcs Hd Hs Hsk Hsc Hp1 Hp2 Hmax.
  assert (Hkind := wfe_same_kind _ _ _ _ _ Hd Hs).
  assert (Hpd := Hd). apply wfe_part in Hpd as (Hpd & _ & _). rewrite Hkind in Hpd.
  assert (Hsmax := wfe_cap _ _ _ Hs). rewrite Hsk, length_app in Hsmax. simpl in Hsmax.
  unfold RebalanceChildToLeft. rewrite Nat.sub_succ, Nat.sub_0_r, Nat.sub_succ, Nat.sub_0_r.
  rewrite Child_middle2, Child_middle, Key_middle by lia.
  assert (HKs : Key (length s1) src = s) by (unfold Key; rewrite Hsk; by apply lookup_total_middle).
  rewrite HKs. unfold SetKey, SetChild. simpl.
  rewrite Hsk, Hsc, take_app_length, drop_S_middle by done.
  unfold IsLeaf. destruct (leaf_ src) eqn:Hl; simpl in Hmax, Hsmax.
  - destruct Hp1 as [-> ->], Hp2 as [_ ->], Hpd as [_ Hdc].
    exists (tree_count_ dest), (tree_count_ src). rewrite Hkind, Hdc.
    split; [by slots|]. split; apply wfe_build; rewrite ?length_app; simpl; try done; lia.
  - assert (Hsc1 : length sc1 = S (length s1)) by (by destruct Hp1 as (? & _ & ? & _)).
    rewrite <-Hsc1, take_app_length, drop_app_length, Hkind.
    eexists _, _. split; [by slots|].
    assert (Hsrc := TreeCount_wfe _ _ _ Hs Hl). assert (Hdst := TreeCount_wfe _ _ _ Hd Hkind).
    rewrite inorder_content, Hl, Hsk, Hsc, (length_join _ _ _ _ _ h) in Hsrc by done.
    rewrite inorder_content, Hkind in Hdst.
    rewrite Hsrc, Hdst, (part_sum h s1 sc1), (part_length h s1 sc1) by done.
    autorewrite with astra_arith.
    split; apply wfe_build.
    + by apply part_join.
    + rewrite length_app. simpl. lia.
    + intros _. erewrite length_join, (part_length h s1 sc1) by done. f_equal. lia.
    + done.
    + simpl. lia.
    + intros _. f_equal. lia.
Qed.

Lemma RebalanceChildToRight_eq ed es h ks1 k ks2 cs1 src dest cs2 t s1 s s2 sc1 sc2 :
  length cs1 = length ks1 →
  wfe ed h dest → wfe es h src →
  keys_ src = s1 ++ s :: s2 → children_ src = sc1 ++ sc2 →
  part h (leaf_ src) s1 sc1 → part h (leaf_ src) s2 sc2 →
  length (keys_ dest) + S (length s2) ≤ cap (leaf_ src) →
  ∃ td ts,
    let dest' := Node (leaf_ src) (s2 ++ k :: keys_ dest) (sc2 ++ children_ dest) td in
    let src' := Node (leaf_ src) s1 sc1 ts in
    RebalanceChildToRight (length ks1) (S (length s2))
      (Node false (ks1 ++ k :: ks2) (cs1 ++ src :: dest :: cs2) t)
    = Node false (ks1 ++ s :: ks2) (cs1 ++ src' :: dest' :: cs2) t ∧
    wfe ed h dest' ∧ wfe es h src'.
Proof.
  intros Hcs Hd Hs Hsk Hsc Hp1 Hp2 Hmax.
  assert (Hkind := wfe_same_kind _ _ _ _ _ Hd Hs).
  assert (Hpd := Hd). apply wfe_part in Hpd as (Hpd & _ & _). rewrite Hkind in Hpd.
  assert (Hsmax := wfe_cap _ _ _ Hs). rewrite Hsk, length_app in Hsmax. simpl in Hsmax.
  unfold RebalanceChildToRight. rewrite Nat.add_1_r.
  rewrite Child_middle, (Child_middle2 _ _ _ _ _ _ _ (S _)), Key_middle by lia.
  assert (Hkept : NumItems src - S (length s2) = length s1).
  { unfold NumItems. rewrite Hsk, length_app. simpl. lia. }
  assert (HKs : Key (length s1) src = s) by (unfold Key; rewrite Hsk; by apply lookup_total_middle).
  rewrite Hkept, HKs. unfold SetKey, SetChild. simpl.
  rewrite Hsk, Hsc, take_app_length, drop_S_middle by done.
  unfold IsLeaf. destruct (leaf_ src) eqn:Hl; simpl in Hmax, Hsmax.
  - destruct Hp1 as [-> ->], Hp2 as [_ ->], Hpd as [_ Hdc].
    exists (tree_count_ dest), (tree_count_ src). rewrite Hkind, Hdc.
    split; [by slots|]. split; apply wfe_build; rewrite ?length_app; simpl; try done; lia.
  - assert (Hsc1 : length sc1 = S (length s1)) by (by destruct Hp1 as (? & _ & ? & _)).
    assert (Hsc2 : length sc2 = S (length s2)) by (by destruct Hp2 as (? & _ & ? & _)).
    rewrite <-Hsc1, take_app_length, drop_app_length, Hkind.
    eexists _, _. split; [by slots|].
    assert (Hsrc := TreeCount_wfe _ _ _ Hs Hl). assert (Hdst := TreeCount_wfe _ _ _ Hd Hkind).
    rewrite inorder_content, Hl, Hsk, Hsc, (length_join _ _ _ _ _ h) in Hsrc by done.
    rewrite inorder_content, Hkind in Hdst.
    rewrite Hsrc, Hdst, (part_sum h s2 sc2), (part_length h s2 sc2) by done.
    autorewrite with astra_arith.
    split; apply wfe_build.
    + by apply part_join.
    + rewrite length_app. simpl. lia.
    + intros _. erewrite length_join, (part_length h s2 sc2) by done. f_equal. lia.
    + done.
    + simpl. lia.
    + intros _. f_equal. lia.
Qed.

(** ** Splitting and merging *)

(** [Split] cuts a node around its middle key. *)
Lemma Split_eq e h n :
  wfe e h n → 0 < NumItems n →
  ∃ ks1 m ks2 cs1 cs2 tl tr,
    let left := Node (leaf_ n) ks1 cs1 tl in
    let right := Node (leaf_ n) ks2 cs2 tr in
    keys_ n = ks1 ++ m :: ks2 ∧ children_ n = cs1 ++ cs2 ∧
    length ks1 = NumItems n / 2 ∧
    Split n = (left, right, m) ∧ wfe e h left ∧ wfe 0 h right.
Proof.
  intros Hwf Hpos. assert (Hp := Hwf). apply wfe_part in Hp as (Hp & _ & _).
  assert (Hlt : NumItems n / 2 < NumItems n) by (apply Nat.div_lt; lia).
  destruct (node_split_at h n _ Hp Hlt) as (ks1 & m & ks2 & cs1 & cs2 & Hk & Hc & Hl & Hp1 & Hp2).
  assert (Hmax := wfe_cap _ _ _ Hwf). rewrite Hk, length_app in Hmax. simpl in Hmax.
  assert (HKm : Key (length ks1) n = m) by (unfold Key; rewrite Hk; by apply lookup_total_middle).
  unfold Split. rewrite <-Hl, HKm, Nat.add_1_r, Hk, Hc, take_app_length, drop_S_middle by done.
  unfold IsLeaf. destruct (leaf_ n) eqn:Hleaf; simpl in Hmax.
  - destruct Hp1 as [-> ->], Hp2 as [_ ->].
    exists ks1, m, ks2, [], [], (tree_count_ n), 0%Z.
    split_and!; try done; apply wfe_build; simpl; try done; lia.
  - assert (Hc1 : length cs1 = S (length ks1)) by (by destruct Hp1 as (? & _ & ? & _)).
    rewrite <-Hc1, take_app_length, drop_app_length.
    destruct Hp2 as (h' & -> & Hl2 & HF2).
    assert (Hp2 : part (S h') false ks2 cs2) by (by exists h').
    assert (Hcnt := TreeCount_wfe _ _ _ Hwf Hleaf).
    rewrite inorder_content, Hleaf, Hk, Hc, (length_join _ _ _ _ _ (S h')) in Hcnt by done.
    unfold TreeCount, IsLeaf, GetInnerTreeCount in Hcnt. rewrite Hleaf in Hcnt.
    assert (HM := MaxItems_bound n _). unfold MaxItems, IsLeaf in HM. rewrite Hleaf in HM.
    erewrite fold_TreeCount by (unfold in_u32; eauto; lia).
    unfold IncreaseTreeCount, GetInnerTreeCount. simpl. rewrite Hcnt.
    rewrite (part_length _ ks2 cs2), Z.add_opp_r, Z.sub_add_distr by done.
    autorewrite with astra_arith.
    eexists ks1, m, ks2, cs1, cs2, _, _.
    split_and!; [done..| |]; apply wfe_build; try done; try (simpl; lia); intros _.
    + f_equal. lia.
    + rewrite (part_length _ ks2 cs2) by done. f_equal. lia.
Qed.

Lemma MergeFromRight_eq el er h k left right :
  wfe el h left → wfe er h right →
  length (keys_ left) + 1 + length (keys_ right) ≤ cap (leaf_ left) →
  ∃ t,
    let n := Node (leaf_ left) (keys_ left ++ k :: keys_ right)
                  (children_ left ++ children_ right) t in
    MergeFromRight k right left = n ∧ wfe (el + er) h n.
Proof.
  intros Hl Hr Hmax. assert (Hkind := wfe_same_kind _ _ _ _ _ Hr Hl).
  assert (Hpl := Hl). apply wfe_part in Hpl as (Hpl & _ & _).
  assert (Hpr := Hr). apply wfe_part in Hpr as (Hpr & _ & _). rewrite Hkind in Hpr.
  unfold MergeFromRight, IsLeaf. destruct (leaf_ left) eqn:Hleaf.
  - exists (tree_count_ left). destruct Hpl as [-> ->], Hpr as [_ ->].
    split; [done|]. apply wfe_build; rewrite ?length_app; simpl in *; try done; lia.
  - assert (Hcl := TreeCount_wfe _ _ _ Hl Hleaf). assert (Hcr := TreeCount_wfe _ _ _ Hr Hkind).
    rewrite inorder_content, Hleaf in Hcl. rewrite inorder_content, Hkind in Hcr.
    unfold TreeCount, IsLeaf, GetInnerTreeCount in Hcl. rewrite Hleaf in Hcl.
    unfold IncreaseTreeCount, GetInnerTreeCount. simpl. rewrite Hcl, Hcr.
    eexists. split; [done|]. apply wfe_build.
    + by apply part_join.
    + rewrite length_app. simpl in *. lia.
    + intros _. erewrite length_join by done.
      rewrite Z.add_assoc. autorewrite with astra_arith. f_equal. lia.
Qed.

(** ** Insertion into a node with a free slot *)

(** The gap before key [i] splits a node into its left and right parts. *)
Lemma node_gap h n i :
  part h (leaf_ n) (keys_ n) (children_ n) → i ≤ NumItems n →
  ∃ ks1 ks2 cs1 cs2,
    keys_ n = ks1 ++ ks2 ∧ children_ n = cs1 ++ cs2 ∧ length ks1 = i ∧
    part h (leaf_ n) ks1 cs1 ∧ length cs2 = (if leaf_ n then 0 else length ks2).
Proof.
  intros Hp Hi. exists (take i (keys_ n)), (drop i (keys_ n)),
    (take (S i) (children_ n)), (drop (S i) (children_ n)).
  rewrite !take_drop, length_take_le by done. split_and!; try done.
  - unfold part in *. destruct (leaf_ n).
    + destruct Hp as [-> ->]. by rewrite take_nil.
    + destruct Hp as (h' & -> & Hl & HF). exists h'. unfold NumItems in Hi.
      rewrite !length_take. split_and!; [done|lia|by apply Forall_take].
  - unfold part in *. destruct (leaf_ n).
    + destruct Hp as [-> ->]. by rewrite drop_nil.
    + destruct Hp as (h' & -> & Hl & HF). rewrite !length_drop. lia.
Qed.

Lemma LeafInsert_eq ks1 ks2 t i x :
  i = length ks1 →
  LeafInsert i x (Node true (ks1 ++ ks2) [] t) = Node true (ks1 ++ x :: ks2) [] t.
Proof.
  intros ->. unfold LeafInsert, InsertItem, ShiftRight, SetKey. simpl.
  rewrite andb_false_r, take_app_length, drop_app_length. by slots.
Qed.

(** An inner node whose children [cs1] end at the gap takes the new key and
    the new child right after them. *)
Lemma InnerInsert_eq ks1 ks2 cs1 cs2 t i x c :
  i = length ks1 → length cs1 = S (length ks1) → length cs2 = length ks2 →
  InnerInsert i x c (Node false (ks1 ++ ks2) (cs1 ++ cs2) t)
  = Node false (ks1 ++ x :: ks2) (cs1 ++ c :: cs2) t.
Proof.
  intros -> H1 H2. unfold InnerInsert, InsertItem, SetKey, SetChild, ShiftRight.
  unfold NumItems, Child. simpl. rewrite length_app, take_app_length, drop_app_length.
  rewrite andb_true_r. slots.
  destruct (list_split_at cs1 (length ks1)) as (l1 & d & l2 & -> & Hl1); [lia|].
  rewrite length_app in H1. destruct l2; [|simpl in H1; lia].
  rewrite <-!app_assoc. simpl. rewrite lookup_total_middle by done.
  destruct ks2 as [|k ks2]; destruct cs2 as [|c2 cs2]; try done.
  - destruct (0 <? _) eqn:E; b2p; [simpl in E; lia|].
    rewrite set_slot_end; [by rewrite <-app_assoc|]. rewrite length_app. simpl. lia.
  - destruct (0 <? _) eqn:E; b2p; [|simpl in E; lia].
    rewrite <-Hl1, take_app_length, drop_app_length, Nat.add_1_r. slots. by rewrite <-?app_assoc.
Qed.

(** Contents around a gap, read off a decomposition of the node. *)
Lemma pre_at_eq h leaf ks1 ks2 cs1 cs2 t i :
  part h leaf ks1 cs1 → i = length ks1 → (leaf = true → cs2 = []) →
  pre_at i (Node leaf (ks1 ++ ks2) (cs1 ++ cs2) t) = content leaf ks1 cs1.
Proof.
  intros Hp -> H2. unfold pre_at. simpl. destruct leaf.
  - by rewrite take_app_length.
  - destruct Hp as (? & _ & H1 & _). by rewrite <-H1, !take_app_length.
Qed.

Lemma pre_post_at h n i :
  part h (leaf_ n) (keys_ n) (children_ n) → i ≤ NumItems n →
  inorder n = pre_at i n ++ post_at i n.
Proof.
  intros Hp Hi. unfold pre_at, post_at. rewrite inorder_content.
  rewrite <-(take_drop i (keys_ n)) at 1. rewrite <-(take_drop (S i) (children_ n)) at 1.
  apply content_app. unfold part in Hp. destruct (leaf_ n); [by left|right].
  destruct Hp as (? & _ & Hl & _). unfold NumItems in Hi. rewrite !length_take. lia.
Qed.

Lemma before_snoc cs ks c k :
  length cs = length ks → before (cs ++ [c]) (ks ++ [k]) = before cs ks ++ inorder c ++ [k].
Proof. intros. rewrite before_app by done. unfold before. simpl. by rewrite app_nil_r. Qed.

(** *** Inserting at a gap *)

Lemma LeafInsert_spec h n i x :
  wf h n → leaf_ n = true → NumItems n < MaxItems n → i ≤ NumItems n →
  wf h (LeafInsert i x n) ∧ leaf_ (LeafInsert i x n) = true ∧
  NumItems (LeafInsert i x n) = S (NumItems n) ∧
  inorder (LeafInsert i x n) = pre_at i n ++ x :: post_at i n ∧
  node_size (LeafInsert i x n) = node_size n.
Proof.
  destruct n as [leaf ks cs t]. rewrite !wf_wfe. cbn [leaf_]. intros Hwf -> Hlt Hi.
  apply wfe_leaf in Hwf as (-> & -> & Hmax).
  destruct (list_split_at' ks i Hi) as (k1 & k2 & -> & Hl).
  rewrite LeafInsert_eq, wfe_leaf by done.
  unfold pre_at, post_at, NumItems, MaxItems in *. cbn [leaf_ keys_ children_ IsLeaf inorder] in *.
  rewrite <-Hl, take_app_length, drop_app_length. rewrite !length_app in *. simpl.
  split_and!; try done; lia.
Qed.

Lemma InnerInsert_spec e h n i x r :
  wfe e (S h) n → leaf_ n = false → NumItems n < MaxItems n → i ≤ NumItems n → good h r →
  let n' := InnerInsert i x r n in
  wfe (e - 1 - Z.of_nat (length (inorder r))) (S h) n' ∧ leaf_ n' = false ∧
  NumItems n' = S (NumItems n) ∧
  inorder n' = pre_at i n ++ x :: inorder r ++ post_at i n ∧
  node_size n' = node_size n + node_size r.
Proof.
  destruct n as [leaf ks cs t]. cbn [leaf_]. intros Hwf -> Hlt Hi Hr.
  apply wfe_inner in Hwf as (Hmax & Hlen & HF & Ht).
  destruct (list_split_at' ks i Hi) as (k1 & k2 & -> & Hl).
  unfold pre_at, post_at, NumItems, MaxItems in *. cbn [leaf_ keys_ children_ IsLeaf] in *.
  destruct (list_split_at' cs (S i)) as (c1 & c2 & -> & Hl2); [lia|].
  rewrite !length_app in *. apply Forall_app in HF as [HF1 HF2].
  rewrite InnerInsert_eq by lia. rewrite (inorder_content (Node _ _ _ _)), wfe_inner.
  cbn [leaf_ keys_ children_].
  rewrite <-Hl2, !take_app_length, !drop_app_length, <-Hl, !take_app_length, !drop_app_length.
  rewrite content_app in Ht by (right; lia). rewrite content_app by (right; lia).
  simpl rest in *. rewrite after_cons, !length_app in *. simpl. rewrite length_app in *.
  split_and!; try done; simpl in *; try lia.
  - apply Forall_app. split; [done|]. by constructor.
  - rewrite Ht. f_equal. lia.
  - fold (sizes (c1 ++ r :: c2)) (sizes (c1 ++ c2)). sizes_lia.
Qed.

Lemma IncreaseTreeCount_spec e delta h n :
  wfe e h n → wfe (e + delta) h (IncreaseTreeCount delta n).
Proof.
  rewrite !wfe_part. intros (Hp & Hm & Hc). split_and!; [done..|].
  unfold count_ok in *. rewrite inorder_content in *. simpl.
  destruct Hc as [?|Hc]; [by left|right]. unfold GetInnerTreeCount. rewrite Hc.
  rewrite u32_add_l. f_equal. lia.
Qed.
End Moves.
