(* ===== verification/BPTreeRebalance.v ===== *)
(** * B+ tree nodes: making room and refilling; paths

    The specifications of [RebalanceChild], which makes room next to a full
    child before an insertion, and of [MergeOrRebalanceChild], which refills an
    underfull child after a deletion: both keep the in-order contents of the
    parent, the occupancy of its children and their counters.  At the end, paths. *)
From S2P Require Import Prelude.
From S2P Require Import BPTreeNode.
From S2P Require Import BPTreeWf.
From S2P Require Import BPTreeMoves.

Section Rebalance.
Context {K : Type} {HK : Inhabited K} {HL : BPNodeLayout} {HLok : LayoutOk}.
Implicit Types (n c d src dest : BPTreeNode K) (cs : list (BPTreeNode K)) (k : K) (ks : list K).

(** Where [RebalanceChild] made room for child [pos], with children [cs1]
    before and [cs2] after the chosen child [c]: in the child itself or in a
    sibling.  The counter of the original child keeps its offset [e]. *)
Inductive room (e : Z) (h pos w : nat) : list (BPTreeNode K) → BPTreeNode K → list (BPTreeNode K) → Prop :=
  | room_here cs1 c cs2 :
      w = pos → Forall (good h) cs1 → wfe e h c → Forall (good h) cs2 →
      room e h pos w cs1 c cs2
  | room_left cs1 c o cs2 :
      pos = S w → Forall (good h) cs1 → wfe 0 h c → wfe e h o → occupied o →
      Forall (good h) cs2 → room e h pos w cs1 c (o :: cs2)
  | room_right cs1 o c cs2 :
      w = S pos → Forall (good h) cs1 → wfe e h o → occupied o → wfe 0 h c →
      Forall (good h) cs2 → room e h pos w (cs1 ++ [o]) c cs2.

Lemma cap_bound leaf : 3 ≤ cap leaf ≤ 126.
Proof. apply (MaxItems_bound (Node (K:=nat) leaf [] [] 0) _). Qed.

Lemma low_bound leaf : 1 ≤ (cap leaf - 1) / 2 ∧ 2 * ((cap leaf - 1) / 2) < cap leaf.
Proof.
  pose proof (cap_bound leaf). pose proof (Nat.div_mod_eq (cap leaf - 1) 2).
  pose proof (Nat.mod_upper_bound (cap leaf - 1) 2). lia.
Qed.

Lemma good_wfe h c : good h c ↔ wfe 0 h c ∧ (cap (leaf_ c) - 1) / 2 ≤ length (keys_ c).
Proof. unfold good. rewrite wf_wfe. done. Qed.

Lemma part_node e h n : wfe e h n → part h (leaf_ n) (keys_ n) (children_ n).
Proof. by intros (? & _)%wfe_part. Qed.

(** *** Gaps of a node made of two parts *)

Lemma pre_at_lo h leaf ks1 ks2 cs1 cs2 t t' i :
  part h leaf ks1 cs1 → i ≤ length ks1 →
  pre_at i (Node leaf (ks1 ++ ks2) (cs1 ++ cs2) t) = pre_at i (Node leaf ks1 cs1 t').
Proof.
  intros Hp Hi. unfold pre_at. cbn [leaf_ keys_ children_]. rewrite take_app_le by done.
  destruct leaf; [done|]. destruct Hp as (_ & _ & Hl & _).
  by rewrite (take_app_le cs1) by lia.
Qed.

Lemma pre_at_hi h leaf ks1 k ks2 cs1 cs2 t t' i :
  part h leaf ks1 cs1 → part h leaf ks2 cs2 → length ks1 < i →
  pre_at i (Node leaf (ks1 ++ k :: ks2) (cs1 ++ cs2) t)
  = content leaf ks1 cs1 ++ k :: pre_at (i - S (length ks1)) (Node leaf ks2 cs2 t').
Proof.
  intros Hp1 Hp2 Hi. unfold pre_at. cbn [leaf_ keys_ children_].
  rewrite take_app_ge by lia. replace (i - length ks1) with (S (i - S (length ks1))) by lia.
  cbn [take]. destruct leaf; [done|].
  destruct Hp1 as (_ & _ & Hl1 & _), Hp2 as (_ & _ & Hl2 & _).
  rewrite (take_app_ge cs1) by lia.
  replace (S i - length cs1) with (S (i - S (length ks1))) by lia.
  apply content_join. right. split; [done|]. by destruct cs2.
Qed.

(** *** Moving [S (length s1)] items of [c] to its left sibling *)

Lemma move_left e h ks1 k ks2 cs1 dest c cs2 t tm :
  length cs1 = length ks1 → wfe 0 h dest → wfe e h c →
  0 < tm ≤ NumItems c → NumItems dest + tm ≤ MaxItems dest →
  ∃ s dest' c',
    RebalanceChildToLeft (S (length ks1)) tm
      (Node false (ks1 ++ k :: ks2) (cs1 ++ dest :: c :: cs2) t)
    = Node false (ks1 ++ s :: ks2) (cs1 ++ dest' :: c' :: cs2) t ∧
    wfe 0 h dest' ∧ wfe e h c' ∧ leaf_ dest' = leaf_ c ∧ leaf_ c' = leaf_ c ∧
    NumItems dest' = NumItems dest + tm ∧ NumItems c' + tm = NumItems c ∧
    inorder dest' ++ s :: inorder c' = inorder dest ++ k :: inorder c ∧
    node_size dest' + node_size c' = node_size dest + node_size c ∧
    (∀ ip, ip < tm →
      pre_at (NumItems dest + ip + 1) dest' = inorder dest ++ k :: pre_at ip c) ∧
    (∀ ip, tm ≤ ip → 
      inorder dest' ++ s :: pre_at (ip - tm) c' = inorder dest ++ k :: pre_at ip c).
Proof.
  intros Hl Hd Hc [Htm Htm'] Hmax.
  assert (Hkind := wfe_same_kind _ _ _ _ _ Hd Hc).
  assert (Hpd := part_node _ _ _ Hd). rewrite Hkind in Hpd.
  destruct (node_split_at h c (tm - 1)) as (s1 & s & s2 & sc1 & sc2 & Hk & Hch & Hls & Hp1 & Hp2);
    [by eapply part_node|lia|].
  replace tm with (S (length s1)) in * by lia. clear Htm Hls.
  unfold NumItems, MaxItems, IsLeaf in Hmax. rewrite Hkind in Hmax.
  destruct (RebalanceChildToLeft_eq 0 e h ks1 k ks2 cs1 dest c cs2 t s1 s s2 sc1 sc2)
    as (td & ts & Heq & Hwd & Hws); try done.
  eexists s, _, _. split; [exact Heq|]. clear Heq.
  assert (Hin : inorder c = content (leaf_ c) s1 sc1 ++ s :: content (leaf_ c) s2 sc2).
  { rewrite inorder_content, Hk, Hch. apply content_join. by eapply part_join_side. }
  assert (Hdin : inorder dest = content (leaf_ c) (keys_ dest) (children_ dest)).
  { by rewrite inorder_content, Hkind. }
  assert (Hjoin : ∀ tx, inorder (Node (leaf_ c) (keys_ dest ++ k :: s1) (children_ dest ++ sc1) tx)
                        = inorder dest ++ k :: content (leaf_ c) s1 sc1).
  { intros tx. rewrite inorder_content, Hdin. apply content_join. by eapply part_join_side. }
  split_and!; try done.
  - unfold NumItems. simpl. rewrite length_app. done.
  - unfold NumItems. rewrite Hk, length_app. simpl. lia.
  - rewrite Hjoin, Hin, (inorder_content (Node _ s2 _ _)), <-app_assoc. done.
  - rewrite !node_size_eq, Hch. simpl. rewrite !sizes_app. lia.
  - intros ip Hip. rewrite (pre_at_hi h _ _ _ _ _ _ _ 0) by (done || unfold NumItems; lia).
    replace (NumItems dest + ip + 1 - S (length (keys_ dest))) with ip by (unfold NumItems; lia).
    rewrite Hdin. do 2 f_equal. destruct c as [leaf ksc csc tc]. simpl in *. subst.
    symmetry. apply (pre_at_lo h); [done|lia].
  - intros ip Hip. rewrite Hjoin, <-app_assoc. f_equal. simpl. f_equal.
    destruct c as [leaf ksc csc tc]. simpl in *. subst.
    symmetry. by apply (pre_at_hi h).
Qed.

(** *** Moving the last [S (length s2)] items of [c] to its right sibling *)

Lemma move_right e h ks1 k ks2 cs1 c dest cs2 t tm :
  length cs1 = length ks1 → wfe 0 h dest → wfe e h c →
  0 < tm ≤ NumItems c → NumItems dest + tm ≤ MaxItems dest →
  ∃ s c' dest',
    RebalanceChildToRight (length ks1) tm
      (Node false (ks1 ++ k :: ks2) (cs1 ++ c :: dest :: cs2) t)
    = Node false (ks1 ++ s :: ks2) (cs1 ++ c' :: dest' :: cs2) t ∧
    wfe 0 h dest' ∧ wfe e h c' ∧ leaf_ dest' = leaf_ c ∧ leaf_ c' = leaf_ c ∧
    NumItems dest' = NumItems dest + tm ∧ NumItems c' + tm = NumItems c ∧
    inorder c' ++ s :: inorder dest' = inorder c ++ k :: inorder dest ∧
    node_size c' + node_size dest' = node_size c + node_size dest ∧
    (∀ ip, ip ≤ NumItems c' → pre_at ip c' = pre_at ip c) ∧
    (∀ ip, NumItems c' < ip → ip ≤ NumItems c →
      inorder c' ++ s :: pre_at (ip - (NumItems c' + 1)) dest' = pre_at ip c).
Proof.
  intros Hl Hd Hc [Htm Htm'] Hmax.
  assert (Hkind := wfe_same_kind _ _ _ _ _ Hd Hc).
  assert (Hpd := part_node _ _ _ Hd). rewrite Hkind in Hpd.
  destruct (node_split_at h c (NumItems c - tm))
    as (s1 & s & s2 & sc1 & sc2 & Hk & Hch & Hls & Hp1 & Hp2); [by eapply part_node|lia|].
  assert (Hn : NumItems c = length s1 + S (length s2)) by (unfold NumItems; by rewrite Hk, length_app).
  replace tm with (S (length s2)) in * by lia. clear Htm Hls.
  unfold NumItems, MaxItems, IsLeaf in Hmax. rewrite Hkind in Hmax.
  destruct (RebalanceChildToRight_eq 0 e h ks1 k ks2 cs1 c dest cs2 t s1 s s2 sc1 sc2)
    as (td & ts & Heq & Hwd & Hws); try done.
  eexists s, _, _. split; [exact Heq|]. clear Heq.
  assert (Hin : inorder c = content (leaf_ c) s1 sc1 ++ s :: content (leaf_ c) s2 sc2).
  { rewrite inorder_content, Hk, Hch. apply content_join. by eapply part_join_side. }
  split_and!; try done.
  - unfold NumItems. simpl. rewrite length_app. simpl. lia.
  - rewrite !(inorder_content (Node _ _ _ _)), Hin. cbn [leaf_ keys_ children_].
    rewrite content_join by (by eapply part_join_side).
    rewrite (inorder_content dest), Hkind, <-app_assoc. done.
  - rewrite !node_size_eq, Hch. simpl. rewrite !sizes_app. lia.
  - intros ip Hip. destruct c as [leaf ksc csc tc]. simpl in *. subst.
    symmetry. by apply (pre_at_lo h).
  - intros ip Hip1 Hip2. rewrite (inorder_content (Node _ s1 _ _)). unfold NumItems in *.
    cbn [leaf_ keys_ children_] in *. rewrite (pre_at_lo h _ s2 _ _ _ _ 0) by (done || lia).
    destruct c as [leaf ksc csc tc]. simpl in *. subst. rewrite Nat.add_1_r.
    symmetry. by apply (pre_at_hi h).
Qed.
(** *** [RebalanceChild] *)

(** The outcome of making room for gap [ip] of child [c] of a node: the node
    [n'] offers the same gap at position [ip'] of its child [w]. *)
Definition made_room (e : Z) (h : nat) ks1 ks2 cs1 c cs2 (t : Z) (ip : nat) n' (w ip' : nat) : Prop :=
  ∃ ks1' ks2' cs1' c' cs2',
    n' = Node false (ks1' ++ ks2') (cs1' ++ c' :: cs2') t ∧
    length ks1' = w ∧ length cs1' = w ∧ length cs2' = length ks2' ∧
    length ks1' + length ks2' = length ks1 + length ks2 ∧
    room e h (length ks1) w cs1' c' cs2' ∧ leaf_ c' = leaf_ c ∧
    NumItems c' < MaxItems c' ∧ occupied c' ∧ ip' ≤ NumItems c' ∧
    sizes (cs1' ++ c' :: cs2') = sizes (cs1 ++ c :: cs2) ∧
    before cs1' ks1' ++ pre_at ip' c' = before cs1 ks1 ++ pre_at ip c ∧
    post_at ip' c' ++ after ks2' cs2' = post_at ip c ++ after ks2 cs2.

(** Equal contents and equal contents before the gap leave equal contents
    after it. *)
Lemma post_of_pre e e' h c c' ip ip' (b b' a a' : list K) :
  wfe e h c → wfe e' h c' → ip ≤ NumItems c → ip' ≤ NumItems c' →
  b' ++ inorder c' ++ a' = b ++ inorder c ++ a →
  b' ++ pre_at ip' c' = b ++ pre_at ip c →
  post_at ip' c' ++ a' = post_at ip c ++ a.
Proof.
  intros Hc Hc' Hip Hip' Hall Hpre.
  rewrite (pre_post_at h c ip), (pre_post_at h c' ip') in Hall by (by eapply part_node || done).
  rewrite <-!app_assoc, (app_assoc b'), (app_assoc b), Hpre in Hall.
  by apply app_inv_head in Hall.
Qed.

Lemma occupied_cap c : occupied c ↔ (cap (leaf_ c) - 1) / 2 ≤ NumItems c.
Proof. done. Qed.

Lemma MaxItems_cap c : MaxItems c = cap (leaf_ c).
Proof. done. Qed.

Lemma sandwich (x y x' y' : list K) k k' b a :
  x ++ k :: y = x' ++ k' :: y' → b ++ x ++ k :: y ++ a = b ++ x' ++ k' :: y' ++ a.
Proof. intros H. apply (f_equal (λ l, b ++ l ++ a)) in H. by rewrite <-!app_assoc in H. Qed.

Lemma room_to_left e h ks1 k ks2 cs1 dest c cs2 t ip tm :
  length cs1 = length ks1 → length cs2 = length ks2 →
  Forall (good h) cs1 → good h dest → wfe e h c → Forall (good h) cs2 →
  NumItems c = MaxItems c → ip ≤ NumItems c →
  0 < tm → NumItems dest + tm ≤ MaxItems dest →
  (ip < tm → NumItems dest + tm < MaxItems dest) →
  let n' := RebalanceChildToLeft (S (length ks1)) tm
              (Node false (ks1 ++ k :: ks2) (cs1 ++ dest :: c :: cs2) t) in
  let '(w, ip') := if ip <? tm then (length ks1, NumItems dest + ip + 1)
                   else (S (length ks1), ip - tm) in
  made_room e h (ks1 ++ [k]) ks2 (cs1 ++ [dest]) c cs2 t ip n' w ip'.
Proof.
  intros Hl1 Hl2 HF1 Hd Hc HF2 Hfull Hip Htm Hfree Hstrict n'.
  assert (Hdw := Hd). apply good_wfe in Hdw as [Hdw Hdo].
  assert (Hkind := wfe_same_kind _ _ _ _ _ Hdw Hc).
  pose proof (low_bound (leaf_ c)). rewrite !MaxItems_cap, ?Hkind in *.
  assert (HdN : (cap (leaf_ c) - 1) / 2 ≤ NumItems dest) by done.
  destruct (move_left e h ks1 k ks2 cs1 dest c cs2 t tm)
    as (s & dest' & c' & Heq & Hwd' & Hwc' & Hld & Hlc & Hnd & Hnc & Hin & Hsz & Hlo & Hhi);
    [done..|lia|rewrite MaxItems_cap, Hkind; lia|].
  apply (sandwich _ _ _ _ _ _ (before cs1 ks1) (after ks2 cs2)) in Hin.
  subst n'. rewrite Heq. unfold made_room. rewrite before_snoc by done.
  destruct (ip <? tm) eqn:E; b2p.
  - exists ks1, (s :: ks2), cs1, dest', (c' :: cs2).
    rewrite occupied_cap, MaxItems_cap, Hld, !length_app. simpl.
    assert (Hpre : before cs1 ks1 ++ pre_at (NumItems dest + ip + 1) dest'
                   = (before cs1 ks1 ++ inorder dest ++ [k]) ++ pre_at ip c)
      by (rewrite Hlo, <-!app_assoc by done; done).
    split_and!; try done; try lia.
    + apply room_left; try done; [lia|]. rewrite occupied_cap, Hlc. lia.
    + sizes_lia.
    + eapply post_of_pre; try done; try lia. rewrite after_cons, <-!app_assoc. done.
  - exists (ks1 ++ [s]), ks2, (cs1 ++ [dest']), c', cs2.
    rewrite occupied_cap, MaxItems_cap, Hlc, !length_app, before_snoc, <-!app_assoc by done. simpl.
    assert (Hpre : before cs1 ks1 ++ inorder dest' ++ s :: pre_at (ip - tm) c'
                   = before cs1 ks1 ++ inorder dest ++ k :: pre_at ip c)
      by (by rewrite Hhi).
    split_and!; try done; try lia.
    + apply room_here; try done; [lia|]. apply Forall_app. split; [done|].
      constructor; [|done]. apply good_wfe. split; [done|]. rewrite Hld.
      change (length (keys_ dest')) with (NumItems dest'). lia.
    + sizes_lia.
    + eapply (post_of_pre _ _ _ _ _ _ _ (before cs1 ks1 ++ inorder dest ++ [k])
               (before cs1 ks1 ++ inorder dest' ++ [s])); try done; try lia.
      all: rewrite <-!app_assoc; done.
Qed.

Lemma room_to_right e h ks1 k ks2 cs1 c dest cs2 t ip tm :
  length cs1 = length ks1 → length cs2 = length ks2 →
  Forall (good h) cs1 → good h dest → wfe e h c → Forall (good h) cs2 →
  NumItems c = MaxItems c → ip ≤ NumItems c →
  0 < tm → NumItems dest + tm ≤ MaxItems dest →
  (ip ≠ 0 → NumItems dest + tm < MaxItems dest) →
  let n' := RebalanceChildToRight (length ks1) tm
              (Node false (ks1 ++ k :: ks2) (cs1 ++ c :: dest :: cs2) t) in
  let left_items := NumItems (Child (length ks1) n') in
  let '(w, ip') := if left_items <? ip then (S (length ks1), ip - (left_items + 1))
                   else (length ks1, ip) in
  made_room e h ks1 (k :: ks2) cs1 c (dest :: cs2) t ip n' w ip'.
Proof.
  intros Hl1 Hl2 HF1 Hd Hc HF2 Hfull Hip Htm Hfree Hstrict n'.
  assert (Hdw := Hd). apply good_wfe in Hdw as [Hdw Hdo].
  assert (Hkind := wfe_same_kind _ _ _ _ _ Hdw Hc).
  pose proof (low_bound (leaf_ c)). rewrite !MaxItems_cap, ?Hkind in *.
  assert (HdN : (cap (leaf_ c) - 1) / 2 ≤ NumItems dest) by done.
  destruct (move_right e h ks1 k ks2 cs1 c dest cs2 t tm)
    as (s & c' & dest' & Heq & Hwd' & Hwc' & Hld & Hlc & Hnd & Hnc & Hin & Hsz & Hlo & Hhi);
    [done..|lia|rewrite MaxItems_cap, Hkind; lia|].
  apply (sandwich _ _ _ _ _ _ (before cs1 ks1) (after ks2 cs2)) in Hin.
  subst n'. rewrite Heq, Child_middle by done. unfold made_room.
  destruct (NumItems c' <? ip) eqn:E; b2p.
  - exists (ks1 ++ [s]), ks2, (cs1 ++ [c']), dest', cs2.
    rewrite occupied_cap, MaxItems_cap, Hld, !length_app, before_snoc, <-!app_assoc by done. simpl.
    rewrite Hhi by lia. split_and!; try done; try lia.
    + apply room_right; try done. rewrite occupied_cap, Hlc. lia.
    + sizes_lia.
    + eapply (post_of_pre _ _ _ _ _ _ _ (before cs1 ks1)
               (before cs1 ks1 ++ inorder c' ++ [s])); try done; try lia.
      all: rewrite <-!app_assoc; simpl; rewrite ?Hhi by lia; done.
  - exists ks1, (s :: ks2), cs1, c', (dest' :: cs2).
    rewrite occupied_cap, MaxItems_cap, Hlc, Hlo by done. simpl.
    split_and!; try done; try lia.
    + apply room_here; try done. constructor; [|done]. apply good_wfe. split; [done|].
      rewrite Hld. change (length (keys_ dest')) with (NumItems dest'). lia.
    + sizes_lia.
    + eapply post_of_pre; try done; try lia. by rewrite Hlo by done.
Qed.

(** The two values of [to_move] leave the destination within its capacity. *)
Lemma to_move_bounds free (edge : bool) tm :
  tm = (if 0 <? free then if edge then free else if 1 <? free then free / 2 else 0 else 0) →
  tm ≤ free ∧ (edge = false → 0 < tm → tm < free).
Proof.
  intros ->. assert (H := Nat.div_mod_eq free 2).
  destruct (0 <? free) eqn:?, edge, (1 <? free) eqn:?; b2p; split; intros; try done; lia.
Qed.

Lemma RebalanceChild_spec e h ks1 ks2 cs1 c cs2 t ip n' w ip' :
  length cs1 = length ks1 → length cs2 = length ks2 →
  Forall (good h) cs1 → wfe e h c → Forall (good h) cs2 →
  NumItems c = MaxItems c → ip ≤ NumItems c →
  RebalanceChild (length ks1) ip (Node false (ks1 ++ ks2) (cs1 ++ c :: cs2) t)
  = Some (n', w, ip') →
  made_room e h ks1 ks2 cs1 c cs2 t ip n' w ip'.
Proof.
  intros Hl1 Hl2 HF1 Hc HF2 Hfull Hip. unfold RebalanceChild.
  rewrite (Child_middle _ _ _ _ _ _ (length ks1)) by done.
  cbv zeta.
  match goal with |- (if _ then _ else ?r) = _ → _ => set (right := r) end.
  assert (Hright : right = Some (n', w, ip') → made_room e h ks1 ks2 cs1 c cs2 t ip n' w ip').
  { subst right. unfold NumItems at 1. simpl. rewrite length_app.
    destruct (_ <? _ + _) eqn:E1; b2p; [|done].
    destruct ks2 as [|k ks2], cs2 as [|dest cs2]; try (simpl in *; lia).
    apply Forall_cons in HF2 as [Hd HF2].
    rewrite Nat.add_1_r, (Child_middle2 _ _ _ _ _ _ _ (S _)) by lia.
    unfold AvailableSlotCount.
    match goal with |- context [0 <? (if 0 <? ?f then ?x else 0)] =>
      pose proof (to_move_bounds f (ip =? 0) _ eq_refl) as [Hb Hs];
      set (tm := if 0 <? f then x else 0) in * end.
    destruct (0 <? tm) eqn:E2; b2p; [|done].
    assert (R := room_to_right e h ks1 k ks2 cs1 c dest cs2 t ip tm).
    cbv zeta in R |- *. destruct (_ <? ip); intros [= <- <- <-];
    (apply R; try done; try (simpl in *; lia); intros ?;
      specialize (Hs (proj2 (Nat.eqb_neq _ _) ltac:(done))); lia). }
  destruct (0 <? length ks1) eqn:E1; [|done]. b2p.
  destruct ks1 as [|k ks1 _] using rev_ind; [simpl in *; lia|].
  destruct cs1 as [|dest cs1 _] using rev_ind; [simpl in *; rewrite length_app in *; simpl in *; lia|].
  clearbody right. apply Forall_app in HF1 as [HF1 Hd]. rewrite Forall_singleton in Hd.
  rewrite !length_app in *. simpl in Hl1 |- *. rewrite !Nat.add_1_r in *. simplify_eq Hl1. intros Hl1'.
  rewrite <-!app_assoc. simpl. rewrite Nat.sub_0_r, Child_middle by done.
  unfold AvailableSlotCount.
  match goal with |- context [0 <? (if 0 <? ?f then ?x else 0)] =>
    pose proof (to_move_bounds f (ip =? NumItems c) _ eq_refl) as [Hb Hs];
    set (tm := if 0 <? f then x else 0) in * end.
  destruct (0 <? tm) eqn:E2; b2p; [|done].
  assert (R := room_to_left e h ks1 k ks2 cs1 dest c cs2 t ip tm).
  rewrite Nat.add_1_r in R.
  cbv zeta in R |- *. destruct (ip <? tm) eqn:E3; b2p; intros [= <- <- <-].
  - apply R; try done; try lia. intros ?.
    assert (Hkind := wfe_same_kind _ _ _ _ _ (proj1 (proj1 (good_wfe _ _) Hd)) Hc).
    assert (Hne : (ip =? NumItems c) = false).
    { apply Nat.eqb_neq. rewrite !MaxItems_cap, Hkind in *. lia. }
    specialize (Hs Hne). lia.
  - apply R; try done; lia.
Qed.
(** ** Refilling an underfull child *)

Lemma ShiftLeft_leaf ks1 k ks2 t b i :
  i = length ks1 →
  ShiftLeft i b (Node true (ks1 ++ k :: ks2) [] t) = Node true (ks1 ++ ks2) [] t.
Proof.
  intros ->. unfold ShiftLeft. simpl. rewrite andb_false_r, take_app_length, drop_S_middle; done.
Qed.

(** Closing key slot [i] together with child slot [i + 1]. *)
Lemma ShiftLeft_inner ks1 k ks2 cs1 c d cs2 t i :
  i = length ks1 → length cs1 = length ks1 → length cs2 = length ks2 →
  ShiftLeft i true (Node false (ks1 ++ k :: ks2) (cs1 ++ c :: d :: cs2) t)
  = Node false (ks1 ++ ks2) (cs1 ++ c :: cs2) t.
Proof.
  intros -> H1 H2. unfold ShiftLeft, NumItems. simpl.
  rewrite take_app_length, drop_S_middle, length_app, andb_true_r by done. simpl. f_equal.
  change (cs1 ++ c :: d :: cs2) with (cs1 ++ [c] ++ d :: cs2). rewrite app_assoc.
  assert (Hl : length (cs1 ++ [c]) = length ks1 + 1) by (rewrite length_app; simpl; lia).
  destruct (0 <? _ - _ - _) eqn:E; b2p.
  - destruct (0 <? _ - _) eqn:E2; b2p; [|lia].
    rewrite (take_app_length' (cs1 ++ [c])), drop_S_middle by lia.
    rewrite <-app_assoc, take_ge; [done|]. rewrite length_app. simpl. lia.
  - destruct ks2, cs2; try (simpl in *; lia).
    rewrite take_app_length' by (simpl; lia). done.
Qed.

(** The outcome of refilling: the same contents, every child occupied, and
    one child fewer when one was retired. *)
Definition refilled (h : nat) ks cs (t : Z) (res : BPTreeNode K * bool) : Prop :=
  ∃ ks' cs',
    res.1 = Node false ks' cs' t ∧
    length ks = length ks' + (if res.2 then 1 else 0) ∧
    length cs' = S (length ks') ∧ Forall (good h) cs' ∧
    sizes cs = sizes cs' + (if res.2 then 1 else 0) ∧
    content false ks' cs' = content false ks cs.

Lemma merge_refilled h ks1 k ks2 cs1 c d cs2 t i :
  i = length ks1 → length cs1 = length ks1 → length cs2 = length ks2 →
  Forall (good h) cs1 → wf h c → wf h d → Forall (good h) cs2 →
  occupied c ∨ occupied d → NumItems c + 1 + NumItems d ≤ MaxItems c →
  refilled h (ks1 ++ k :: ks2) (cs1 ++ c :: d :: cs2) t
    (ShiftLeft i true
       (SetChild i (MergeFromRight k d c) (Node false (ks1 ++ k :: ks2) (cs1 ++ c :: d :: cs2) t)),
     true).
Proof.
  intros -> H1 H2 HF1 Hc%wf_wfe Hd%wf_wfe HF2 Hocc Hmax.
  assert (Hkind := wfe_same_kind _ _ _ _ _ Hc Hd).
  assert (Hpc := part_node _ _ _ Hc). assert (Hpd := part_node _ _ _ Hd). rewrite <-Hkind in Hpd.
  destruct (MergeFromRight_eq 0 0 h k c d) as (tm & Heq & Hwf); [done..|].
  rewrite Heq. unfold SetChild. cbn [leaf_ keys_ children_ tree_count_]. slots.
  rewrite ShiftLeft_inner by done.
  eexists _, _. split; [done|]. rewrite !length_app. cbn [fst snd length].
  split_and!; try lia.
  - apply Forall_app. split; [done|]. constructor; [|done]. apply good_wfe. split; [done|].
    simpl. rewrite length_app. simpl. rewrite !occupied_cap, <-Hkind in Hocc.
    unfold NumItems in Hocc. lia.
  - rewrite !sizes_app, !sizes_cons, !node_size_eq. cbn [children_]. rewrite sizes_app. lia.
  - rewrite content_child, content_two, (inorder_content (Node _ _ _ _)) by done.
    cbn [leaf_ keys_ children_]. rewrite content_join by (by eapply part_join_side).
    rewrite (inorder_content c), (inorder_content d), Hkind, <-!app_assoc. done.
Qed.

(** What borrowing half of the surplus of a sibling leaves on both sides. *)
Lemma borrow_bounds leaf a b :
  a < cap leaf / 2 → b ≤ cap leaf → cap leaf < a + 1 + b →
  let m := (b - a) / 2 in
  0 < m ≤ b ∧ a + m ≤ cap leaf ∧ (cap leaf - 1) / 2 ≤ a + m ∧ (cap leaf - 1) / 2 ≤ b - m.
Proof.
  intros Ha Hb Hab. pose proof (Nat.div_mod_eq (b - a) 2). pose proof (Nat.div_mod_eq (cap leaf) 2).
  pose proof (Nat.div_mod_eq (cap leaf - 1) 2).
  pose proof (Nat.mod_upper_bound (b - a) 2). pose proof (Nat.mod_upper_bound (cap leaf) 2).
  pose proof (Nat.mod_upper_bound (cap leaf - 1) 2). cbv zeta. lia.
Qed.

Lemma MinItems_cap c : MinItems c = cap (leaf_ c) / 2.
Proof. unfold MinItems, IsLeaf, kMinLeafKeys, kMinInnerKeys. by destruct (leaf_ c). Qed.

Lemma pair_refilled h ks1 k k' ks2 cs1 c d c' d' cs2 t :
  length cs1 = length ks1 → length cs2 = length ks2 →
  Forall (good h) cs1 → Forall (good h) cs2 → good h c' → good h d' →
  inorder c' ++ k' :: inorder d' = inorder c ++ k :: inorder d →
  node_size c' + node_size d' = node_size c + node_size d →
  refilled h (ks1 ++ k :: ks2) (cs1 ++ c :: d :: cs2) t
    (Node false (ks1 ++ k' :: ks2) (cs1 ++ c' :: d' :: cs2) t, false).
Proof.
  intros H1 H2 HF1 HF2 Hc Hd Hin Hsz. eexists _, _. split; [done|].
  rewrite !length_app. cbn [fst snd length]. split_and!; try lia.
  - apply Forall_app. split; [done|]. rewrite !Forall_cons. done.
  - sizes_lia.
  - rewrite !content_two by done. exact (sandwich _ _ _ _ _ _ _ _ Hin).
Qed.

Lemma borrow_right_refilled h ks1 k ks2 cs1 c d cs2 t :
  length cs1 = length ks1 → length cs2 = length ks2 →
  Forall (good h) cs1 → wf h c → good h d → Forall (good h) cs2 →
  NumItems c < MinItems c → MaxItems d < NumItems c + 1 + NumItems d →
  refilled h (ks1 ++ k :: ks2) (cs1 ++ c :: d :: cs2) t
    (RebalanceChildToLeft (S (length ks1)) ((NumItems d - NumItems c) / 2)
       (Node false (ks1 ++ k :: ks2) (cs1 ++ c :: d :: cs2) t), false).
Proof.
  intros H1 H2 HF1 Hc%wf_wfe [Hd _]%good_wfe HF2 Hmin Hmax.
  assert (Hkind := wfe_same_kind _ _ _ _ _ Hc Hd). assert (Hcap := wfe_max _ _ _ Hd).
  rewrite MinItems_cap, !MaxItems_cap, Hkind in *.
  destruct (borrow_bounds _ _ _ Hmin Hcap Hmax) as (Hm & Hfit & Hlc & Hld).
  destruct (move_left 0 h ks1 k ks2 cs1 c d cs2 t ((NumItems d - NumItems c) / 2))
    as (s & c' & d' & Heq & Hwd' & Hwc' & Hld' & Hlc' & Hnd & Hnc & Hin & Hsz & _ & _);
    [done..|by rewrite MaxItems_cap, Hkind|].
  rewrite Heq. apply pair_refilled; try done; apply good_wfe; split; try done.
  - rewrite Hld'. unfold NumItems in *. lia.
  - rewrite Hlc'. unfold NumItems in *. lia.
Qed.

Lemma borrow_left_refilled h ks1 k ks2 cs1 d c cs2 t :
  length cs1 = length ks1 → length cs2 = length ks2 →
  Forall (good h) cs1 → good h d → wf h c → Forall (good h) cs2 →
  NumItems c < MinItems c → MaxItems d < NumItems c + 1 + NumItems d →
  refilled h (ks1 ++ k :: ks2) (cs1 ++ d :: c :: cs2) t
    (RebalanceChildToRight (length ks1) ((NumItems d - NumItems c) / 2)
       (Node false (ks1 ++ k :: ks2) (cs1 ++ d :: c :: cs2) t), false).
Proof.
  intros H1 H2 HF1 [Hd _]%good_wfe Hc%wf_wfe HF2 Hmin Hmax.
  assert (Hkind := wfe_same_kind _ _ _ _ _ Hc Hd). assert (Hcap := wfe_max _ _ _ Hd).
  rewrite MinItems_cap, !MaxItems_cap, Hkind in *.
  destruct (borrow_bounds _ _ _ Hmin Hcap Hmax) as (Hm & Hfit & Hlc & Hld).
  destruct (move_right 0 h ks1 k ks2 cs1 d c cs2 t ((NumItems d - NumItems c) / 2))
    as (s & d' & c' & Heq & Hwc' & Hwd' & Hlc' & Hld' & Hnc & Hnd & Hin & Hsz & _ & _);
    [done..|by rewrite MaxItems_cap, Hkind|].
  rewrite Heq. apply pair_refilled; try done; apply good_wfe; split; try done.
  - rewrite Hld'. unfold NumItems in *. lia.
  - rewrite Hlc'. unfold NumItems in *. lia.
Qed.

Lemma refill_from_right h ks1 k ks2 cs1 c d cs2 t :
  length cs1 = length ks1 → length cs2 = length ks2 →
  Forall (good h) cs1 → wf h c → good h d → Forall (good h) cs2 → NumItems c < MinItems c →
  let n := Node false (ks1 ++ k :: ks2) (cs1 ++ c :: d :: cs2) t in
  refilled h (ks1 ++ k :: ks2) (cs1 ++ c :: d :: cs2) t
    (if NumItems c + 1 + NumItems d <=? MaxItems d
     then (ShiftLeft (length ks1) true (SetChild (length ks1) (MergeFromRight k d c) n), true)
     else (RebalanceChildToLeft (S (length ks1)) ((NumItems d - NumItems c) / 2) n, false)).
Proof.
  intros H1 H2 HF1 Hc Hd HF2 Hmin n. destruct (_ <=? _) eqn:E; b2p.
  - apply merge_refilled; try done; [apply Hd|right; apply Hd|].
    assert (Hkind := wfe_same_kind _ _ _ _ _ (proj1 (wf_wfe _ _) Hc) (proj1 (wf_wfe _ _) (proj1 Hd))).
    by rewrite !MaxItems_cap, Hkind in *.
  - by apply borrow_right_refilled.
Qed.

Lemma refill_from_left h ks1 k ks2 cs1 d c cs2 t :
  length cs1 = length ks1 → length cs2 = length ks2 →
  Forall (good h) cs1 → good h d → wf h c → Forall (good h) cs2 →
  NumItems d + 1 + NumItems c ≤ MaxItems d →
  let n := Node false (ks1 ++ k :: ks2) (cs1 ++ d :: c :: cs2) t in
  refilled h (ks1 ++ k :: ks2) (cs1 ++ d :: c :: cs2) t
    (ShiftLeft (length ks1) true (SetChild (length ks1) (MergeFromRight k c d) n), true).
Proof.
  intros H1 H2 HF1 Hd Hc HF2 Hmax n.
  apply merge_refilled; try done; [apply Hd|left; apply Hd].
Qed.

Lemma MergeOrRebalanceChild_spec h ks1 ks2 cs1 c cs2 t :
  length cs1 = length ks1 → length cs2 = length ks2 → 0 < length ks1 + length ks2 →
  Forall (good h) cs1 → wf h c → Forall (good h) cs2 → NumItems c < MinItems c →
  refilled h (ks1 ++ ks2) (cs1 ++ c :: cs2) t
    (MergeOrRebalanceChild (length ks1) (Node false (ks1 ++ ks2) (cs1 ++ c :: cs2) t)).
Proof.
  intros H1 H2 Hne HF1 Hc HF2 Hmin. unfold MergeOrRebalanceChild. cbv zeta.
  set (n := Node _ _ _ _).
  assert (Hcc : Child (length ks1) n = c) by by apply Child_middle.
  assert (Hnn : NumItems n = length ks1 + length ks2) by apply length_app.
  rewrite Hcc, Hnn. destruct (_ && _) eqn:E1; [|destruct (_ <? _ + _) eqn:E2]; b2p.
  - destruct ks1 as [|k ks1 _] using rev_ind; [simpl in *; lia|].
    destruct cs1 as [|d cs1 _] using rev_ind; [rewrite length_app in *; simpl in *; lia|].
    apply Forall_app in HF1 as [HF1 Hd]. rewrite Forall_singleton in Hd. subst n.
    rewrite !length_app in *. cbn [length] in *. rewrite Nat.add_sub, <-!app_assoc in *.
    cbn [app] in *. rewrite Child_middle, Key_middle in * by lia.
    apply refill_from_left; try done; lia.
  - destruct ks2 as [|k ks2], cs2 as [|d cs2]; try (simpl in *; lia).
    apply Forall_cons in HF2 as [Hd HF2]. subst n.
    rewrite (Nat.add_1_r (length ks1)), (Child_middle2 _ _ _ _ _ _ _ (S _)), Key_middle by lia.
    apply refill_from_right; try done. by injection H2.
  - destruct ks2, cs2; try (simpl in *; lia). rewrite app_nil_r in *. simpl in Hne.
    destruct (0 <? _) eqn:E3; b2p; [|lia].
    destruct ks1 as [|k ks1 _] using rev_ind; [simpl in *; lia|].
    destruct cs1 as [|d cs1 _] using rev_ind; [rewrite length_app in *; simpl in *; lia|].
    apply Forall_app in HF1 as [HF1 Hd]. rewrite Forall_singleton in Hd. subst n.
    rewrite !length_app in *. cbn [length] in *. rewrite Nat.add_sub, <-!app_assoc in *.
    cbn [app] in *. rewrite Child_middle in * by lia.
    apply andb_false_iff in E1 as [E1|E1]; b2p; [lia|].
    apply borrow_left_refilled; try done; try lia.
Qed.
End Rebalance.

(** ** Paths in a B+ tree

    Models [BPTreePath] of src/astra/container/zset/bplustree_internal.hpp: the
    stack of (node, position) records between the root and an item.  A path is
    the list of its records, innermost first, so that [record_[depth_ - 1]] is
    the head. *)

(** Capacity of [record_]. *)
Definition kMaxDepth : nat := 16.

Section Path.
Context {K : Type} {HK : Inhabited K} {HL : BPNodeLayout}.

Definition BPTreePath : Type := list (BPTreeNode K * nat).
Implicit Types (p : BPTreePath) (node : BPTreeNode K).

Definition Push node (pos : nat) p : BPTreePath := (node, pos) :: p.
Definition Depth p : nat := length p.
Definition Empty p : bool := match p with [] => true | _ => false end.
Definition Last p : BPTreeNode K * nat := match p with f :: _ => f | [] => inhabitant end.
Definition Pop p : BPTreePath := tail p.
Definition HasValidTerminal p : bool :=
  (0 <? Depth p) && ((Last p).2 <? NumItems (Last p).1).
Definition Terminal p : K := Key (Last p).2 (Last p).1.

(** One round of the loop of [Rank]; [last] is [i == bound - 1]. *)
Definition rank_step (last : bool) (rank : Z) (f : BPTreeNode K * nat) : Z :=
  let '(node, pos) := f in
  let delta := if last then 1 else 0 in
  let rank :=
    if IsLeaf node then rank
    else fold_left (λ acc c, u32 (acc + TreeCount c)) (take (pos + delta) (children_ node)) rank in
  u32 (rank + Z.of_nat pos).

Definition Rank p : Z :=
  match p with
  | [] => 0%Z
  | f :: fs => rank_step true (fold_left (rank_step false) (rev fs) 0%Z) f
  end.

(** The do-while of [Next] after its first [Pop]. *)
Fixpoint pop_exhausted p : BPTreePath :=
  match p with
  | [] => []
  | (node, pos) :: p' => if pos =? NumItems node then pop_exhausted p' else p
  end.

(** Pushes the leftmost descendants of [node], [node] included. *)
Fixpoint dig_left (fuel : nat) node p : BPTreePath :=
  match fuel with
  | 0 => p
  | S fuel =>
      let p := Push node 0 p in
      if IsLeaf node then p else dig_left fuel (Child 0 node) p
  end.

Definition Next p : BPTreePath * bool :=
  match p with
  | [] => ([], false)
  | (node, pos) :: p' =>
      if IsLeaf node then
        if S pos <? NumItems node then ((node, S pos) :: p', true)
        else let p := pop_exhausted p' in (p, negb (Empty p))
      else
        let p := (node, S pos) :: p' in
        (dig_left (node_height node) (Child (S pos) node) p, true)
  end.

(** The records [DigRight] pushes, starting at [node]; the leaf position is
    that of its last key. *)
Fixpoint dig_right (fuel : nat) node p : BPTreePath :=
  match fuel with
  | 0 => p
  | S fuel =>
      if IsLeaf node then Push node (NumItems node - 1) p
      else dig_right fuel (Child (NumItems node) node) (Push node (NumItems node) p)
  end.

Definition DigRight p : BPTreePath :=
  let '(node, pos) := Last p in
  dig_right (node_height node) (Child pos node) [] ++ p.

(** The backtracking loop of [Prev] followed by its decrement. *)
Fixpoint pop_first p : BPTreePath * bool :=
  match p with
  | [] => ([], false)
  | (node, pos) :: p' =>
      if pos =? 0 then pop_first p' else ((node, pos - 1) :: p', true)
  end.

Definition Prev p : BPTreePath * bool :=
  match p with
  | [] => ([], false)
  | (node, _) :: _ => if IsLeaf node then pop_first p else (DigRight p, true)
  end.
End Path.
Arguments BPTreePath : clear implicits.
