(* ===== verification/BPTree.v ===== *)
(** * The B+ tree

    Models src/astra/container/zset/bplustree.hpp: the tree with its root and
    counters and every operation of the class.  The operations walk down
    through a path and then write the changed nodes back along it; a parent
    pointer of the path refers to the node its child pointer leads to, so the
    write-back stores the new child in the slot the path recorded. *)
From S2P Require Import Prelude.
From S2P Require Import BPTreeNode.
From S2P Require Import BPTreeRebalance.

Record BPTree (K : Type) := MkTree {
  root_ : option (BPTreeNode K);
  count_ : Z;
  height_ : Z;
  num_nodes_ : Z
}.
Arguments MkTree {K} _ _ _ _.
Arguments root_ {K} _.
Arguments count_ {K} _.
Arguments height_ {K} _.
Arguments num_nodes_ {K} _.

Definition empty_tree {K} : BPTree K := MkTree None 0 0 0.

Section Tree.
Context {K : Type} {HK : Inhabited K} {HL : BPNodeLayout} {HC : KeyCompareTo K}.
Implicit Types (t : BPTree K) (node : BPTreeNode K) (p : BPTreePath K) (item : K).

Definition Size t : Z := count_ t.
Definition TreeEmpty t : bool := (count_ t =? 0)%Z.
Definition Height t : Z := height_ t.
Definition NodeCount t : Z := num_nodes_ t.

(** ** Search *)

(** [cmp_op] is [cmp(q, key)] for the query [q] of the caller. *)
Fixpoint locate_loop (fuel : nat) (cmp_op : K → Z) node p : bool * BPTreePath K :=
  match fuel with
  | 0 => (false, p)
  | S fuel =>
      let res := BSearch cmp_op node in
      let p := Push node (index res) p in
      if found res then (true, p)
      else if IsLeaf node then (false, p)
      else locate_loop fuel cmp_op (Child (index res) node) p
  end.

Definition Locate (cmp_op : K → Z) node : bool * BPTreePath K :=
  locate_loop (node_height node) cmp_op node [].

(** [None]: [Locate] follows the null root of an empty tree. *)
Definition Contains item t : option bool :=
  r ← root_ t; Some (Locate (compare_to item) r).1.

Definition GetRank item (reverse : bool) t : option Z :=
  r ← root_ t;
  let '(found, p) := Locate (compare_to item) r in
  if found then
    Some (if reverse then u32 (count_ t - Rank p - 1) else Rank p)
  else None.

(** The scan of one inner node in [ToRank]. *)
Inductive RankScan := ScanDescend (i : nat) (rank : Z) | ScanStop (i : nat) | ScanPast.

Fixpoint to_rank_scan (cs : list (BPTreeNode K)) (i : nat) (rank : Z) : RankScan :=
  match cs with
  | [] => ScanPast
  | c :: cs =>
      let subtree_cnt := TreeCount c in
      if (rank <? subtree_cnt)%Z then ScanDescend i rank
      else
        let rank := (rank - subtree_cnt)%Z in
        if (rank =? 0)%Z then ScanStop i else to_rank_scan cs (S i) (rank - 1)%Z
  end.

Fixpoint to_rank_loop (fuel : nat) (rank : Z) node p : BPTreePath K :=
  match fuel with
  | 0 => p
  | S fuel =>
      if IsLeaf node then Push node (Z.to_nat rank) p
      else if (rank =? 0)%Z then to_rank_loop fuel rank (Child 0 node) (Push node 0 p)
      else
        match to_rank_scan (children_ node) 0 rank with
        | ScanDescend i rank => to_rank_loop fuel rank (Child i node) (Push node i p)
        | ScanStop i => Push node i p
        | ScanPast => to_rank_loop fuel rank node p
        end
  end.

Definition ToRank (rank : Z) t : BPTreePath K :=
  match root_ t with
  | None => []
  | Some node =>
      if (u32 (rank + 1) =? count_ t)%Z then dig_right (node_height node) node []
      else to_rank_loop (node_height node) rank node []
  end.

Definition FromRank (rank : Z) t : BPTreePath K := ToRank rank t.

Definition GEQ (cmp_op : K → Z) t : BPTreePath K :=
  match root_ t with
  | None => []
  | Some node =>
      let '(res, p) := Locate cmp_op node in
      if negb res && (NumItems (Last p).1 <=? (Last p).2) then (Next p).1 else p
  end.

Definition LEQ (cmp_op : K → Z) t : BPTreePath K :=
  match root_ t with
  | None => []
  | Some node =>
      let '(res, p) := Locate cmp_op node in
      if negb res then (Prev p).1 else p
  end.

(** ** Iteration; [cb] is the callback with the state it captures. *)

Fixpoint iterate_loop {S} (fuel : nat) (cb : S → K → S * bool) p (s : S) : S * bool :=
  match fuel with
  | 0 => (s, true)
  | Datatypes.S fuel =>
      let '(s, go_on) := cb s (Terminal p) in
      if go_on then
        let '(p, more) := Next p in
        if more then iterate_loop fuel cb p s else (s, true)
      else (s, false)
  end.

Definition Iterate {S} (rank_start rank_end : Z) (cb : S → K → S * bool) t (s : S) : S * bool :=
  if (Size t <=? rank_start)%Z then (s, true)
  else iterate_loop (Z.to_nat (rank_end - rank_start + 1)) cb (ToRank rank_start t) s.

Fixpoint iterate_rev_loop {S} (fuel : nat) (cb : S → K → S * bool) p (s : S) : S * bool :=
  match fuel with
  | 0 => (s, true)
  | Datatypes.S fuel =>
      let '(s, go_on) := cb s (Terminal p) in
      if go_on then iterate_rev_loop fuel cb (Prev p).1 s else (s, false)
  end.

Definition IterateReverse {S} (rank_start rank_end : Z) (cb : S → K → S * bool) t (s : S) : S * bool :=
  iterate_rev_loop (Z.to_nat (rank_end - rank_start + 1)) cb
    (ToRank (u32 (count_ t - 1 - rank_start)) t) s.

(** ** Insertion *)

(** Writes [cur] back below [p] and adds [delta] to the counter of every node
    of [p]: the new root. *)
Fixpoint IncreaseSubtreeCounts (delta : Z) (cur : BPTreeNode K) p : BPTreeNode K :=
  match p with
  | [] => cur
  | (node, pos) :: p =>
      IncreaseSubtreeCounts delta (IncreaseTreeCount delta (SetChild pos cur node)) p
  end.

Definition RebalanceLeafAndInsert (parent : BPTreeNode K) (pos : nat) item (insert_pos : nat)
    : option (BPTreeNode K) :=
  match RebalanceChild pos insert_pos parent with
  | Some (parent, w, i) => Some (SetChild w (LeafInsert i item (Child w parent)) parent)
  | None => None
  end.

(** What an insertion changes beside the root: levels and nodes added. *)
Record Grown := { new_root : BPTreeNode K; levels : Z; nodes : Z }.

(** The last part of [InsertToFullLeaf]: a new root above [node] and [right]. *)
Definition grow_root (node right : BPTreeNode K) (median : K) (created : Z) : Grown :=
  {| new_root := Node false [median] [node; right] (u32 (TreeCount node + TreeCount right + 1));
     levels := 1; nodes := (created + 1)%Z |}.

(** [new_node->InnerInsert] into child [w] of [parent] after [RebalanceChild],
    with the counter fixes for the original child [pos]. *)
Definition insert_rebalanced (parent : BPTreeNode K) (pos w i : nat) (median : K)
    (right : BPTreeNode K) : BPTreeNode K :=
  let parent := SetChild w (InnerInsert i median right (Child w parent)) parent in
  if w =? pos then SetChild w (IncreaseTreeCount 1 (Child w parent)) parent
  else
    let parent := SetChild pos (IncreaseTreeCount (- TreeCount right) (Child pos parent)) parent in
    SetChild w (IncreaseTreeCount (TreeCount right + 1) (Child w parent)) parent.

(** A full inner node is split and (median, right) goes to one half. *)
Definition split_inner (node : BPTreeNode K) (pos : nat) (median : K) (right : BPTreeNode K)
    : BPTreeNode K * BPTreeNode K * K :=
  let '(node, next_right, next_median) := Split node in
  if pos <=? NumItems node then
    (IncreaseTreeCount 1 (InnerInsert pos median right node), next_right, next_median)
  else
    (IncreaseTreeCount (- TreeCount right) node,
     IncreaseTreeCount (TreeCount right + 1)
       (InnerInsert (pos - NumItems node - 1) median right next_right),
     next_median).

(** The loop of [InsertToFullLeaf]: [child] is the changed node below [p] and
    (median, right) still has to be added next to it. *)
Fixpoint propagate_split (child right : BPTreeNode K) (median : K) p (created : Z) : Grown :=
  match p with
  | [] => grow_root child right median created
  | (node, pos) :: p =>
      let node := SetChild pos child node in
      let split :=
        let '(node, next_right, next_median) := split_inner node pos median right in
        propagate_split node next_right next_median p (created + 1) in
      if NumItems node <? kMaxInnerKeys then
        {| new_root := IncreaseSubtreeCounts 1
                         (IncreaseTreeCount 1 (InnerInsert pos median right node)) p;
           levels := 0; nodes := created |}
      else
        match p with
        | [] => split
        | (parent, parent_pos) :: p' =>
            match RebalanceChild parent_pos pos (SetChild parent_pos node parent) with
            | Some (parent, w, i) =>
                let parent := insert_rebalanced parent parent_pos w i median right in
                {| new_root := IncreaseSubtreeCounts 1 (IncreaseTreeCount 1 parent) p';
                   levels := 0; nodes := created |}
            | None => split
            end
        end
  end.

Definition split_leaf (node : BPTreeNode K) (insert_pos : nat) item
    : BPTreeNode K * BPTreeNode K * K :=
  let '(node, sibling, median) := Split node in
  if insert_pos <=? NumItems node then (LeafInsert insert_pos item node, sibling, median)
  else (node, LeafInsert (insert_pos - NumItems node - 1) item sibling, median).

Definition InsertToFullLeaf item (node : BPTreeNode K) (insert_pos : nat) p : Grown :=
  let split :=
    let '(node, sibling, median) := split_leaf node insert_pos item in
    propagate_split node sibling median p 1 in
  match p with
  | [] => split
  | (parent, pos) :: p' =>
      match RebalanceLeafAndInsert parent pos item insert_pos with
      | Some parent =>
          {| new_root := IncreaseSubtreeCounts 1 (IncreaseTreeCount 1 parent) p';
             levels := 0; nodes := 0 |}
      | None => split
      end
  end.

Definition Insert item t : BPTree K * bool :=
  match root_ t with
  | None =>
      (MkTree (Some (InitSingle item (Node true [] [] 0))) 1 1 (u32 (num_nodes_ t + 1)), true)
  | Some root =>
      let '(found, p) := Locate (compare_to item) root in
      if found then (t, false)
      else
        let '(leaf, pos) := Last p in
        let p := Pop p in
        let g :=
          if NumItems leaf =? kMaxLeafKeys then InsertToFullLeaf item leaf pos p
          else {| new_root := IncreaseSubtreeCounts 1 (LeafInsert pos item leaf) p;
                  levels := 0; nodes := 0 |} in
        (MkTree (Some (new_root g)) (u32 (count_ t + 1)) (u32 (height_ t + levels g))
                (u32 (num_nodes_ t + nodes g)), true)
  end.

(** ** Deletion *)

(** What a deletion leaves: the new root, levels and nodes removed. *)
Record Shrunk := { shrunk_root : option (BPTreeNode K); shrunk_levels : Z; retired : Z }.

(** The loop of [Delete(path)] at [node], with [p] above it. *)
Fixpoint delete_fixup (node : BPTreeNode K) p (destroyed : Z) : Shrunk :=
  if NumItems node <? MinItems node then
    match p with
    | [] =>
        if NumItems node =? 0 then
          {| shrunk_root := if IsLeaf node then None else Some (Child 0 node);
             shrunk_levels := 1; retired := (destroyed + 1)%Z |}
        else {| shrunk_root := Some node; shrunk_levels := 0; retired := destroyed |}
    | (parent, pos) :: p =>
        let '(parent, retire) := MergeOrRebalanceChild pos (SetChild pos node parent) in
        let parent := IncreaseTreeCount (-1) parent in
        if (retire : bool) then delete_fixup parent p (destroyed + 1)
        else {| shrunk_root := Some (IncreaseSubtreeCounts (-1) parent p);
                shrunk_levels := 0; retired := destroyed |}
    end
  else {| shrunk_root := Some (IncreaseSubtreeCounts (-1) node p);
          shrunk_levels := 0; retired := destroyed |}.

(** The body of [Delete(path)] for the key [key_pos] of [node] below [p]: a key
    of a leaf is removed, a key of an inner node is replaced by its
    predecessor, which is popped from its leaf. *)
Definition delete_at node (key_pos : nat) p : Shrunk :=
  if IsLeaf node then delete_fixup (ShiftLeft key_pos false node) p 0
  else
    let dug := dig_right (node_height node) (Child key_pos node) [] in
    let leaf := (Last dug).1 in
    delete_fixup (LeafEraseRight leaf)
      (Pop dug ++ (SetKey key_pos (Key (NumItems leaf - 1) leaf) node, key_pos) :: p) 0.

Definition DeletePath p t : BPTree K :=
  let '(node, key_pos) := Last p in
  let s := delete_at node key_pos (Pop p) in
  MkTree (shrunk_root s) (u32 (count_ t - 1)) (u32 (height_ t - shrunk_levels s))
         (u32 (num_nodes_ t - retired s)).

Definition Delete item t : BPTree K * bool :=
  match root_ t with
  | None => (t, false)
  | Some root =>
      let '(found, p) := Locate (compare_to item) root in
      if found then (DeletePath p t, true) else (t, false)
  end.

(** Replaces the key equal to [old] by [new_obj] in place. *)
Fixpoint write_back (cur : BPTreeNode K) p : BPTreeNode K :=
  match p with
  | [] => cur
  | (node, pos) :: p => write_back (SetChild pos cur node) p
  end.

Definition ForceUpdate (old new_obj : K) t : BPTree K :=
  match root_ t with
  | None => t
  | Some root =>
      let '(_, p) := Locate (compare_to old) root in
      let '(node, pos) := Last p in
      MkTree (Some (write_back (SetKey pos new_obj node) (Pop p)))
             (count_ t) (height_ t) (num_nodes_ t)
  end.

(** ** Clearing *)

(** [deep_left]: pushes [node] and its leftmost descendants from child [pos]. *)
Fixpoint deep_left (fuel : nat) node (pos : nat) p : BPTreeNode K * BPTreePath K :=
  match fuel with
  | 0 => (node, p)
  | S fuel =>
      let p := Push node pos p in
      let node := Child pos node in
      if IsLeaf node then (node, p) else deep_left fuel node 0 p
  end.

(** The post-order walk of [Clear]; [freed] counts the calls of [DestroyNode]. *)
Fixpoint clear_loop (fuel : nat) node p (freed : Z) : option Z :=
  match fuel with
  | 0 => None
  | S fuel =>
      let freed := (freed + 1)%Z in
      match p with
      | [] => Some freed
      | (node, pos) :: p =>
          if pos <? NumItems node then
            let '(node, p) := deep_left (node_height node) node (S pos) p in
            clear_loop fuel node p freed
          else clear_loop fuel node p freed
      end
  end.

Definition Clear t : option (BPTree K) :=
  match root_ t with
  | None => Some t
  | Some root =>
      let '(node, p) := if IsLeaf root then (root, []) else deep_left (node_height root) root 0 [] in
      freed ← clear_loop (node_size root) node p 0;
      Some (MkTree None 0 0 (u32 (num_nodes_ t - freed)))
  end.
End Tree.
Arguments Grown K : clear implicits.
Arguments Shrunk K : clear implicits.
