(* ===== verification/BPTreeSearch.v ===== *)
(** * B+ tree: searching

    Binary search in a node, contexts (what a path leaves around the subtree
    it leads to) and the specification of [Locate], and the order of the keys. *)
From S2P Require Import Prelude.
From S2P Require Import BPTreeNode.
From S2P Require Import BPTreeWf.
From S2P Require Import BPTreeMoves.
From S2P Require Import BPTreeRebalance.
From S2P Require Import BPTree.

(** Along [l] the comparator [cmp_op] is first positive, then zero at most
    once, then negative: the shape of a query against a sorted list. *)
Definition descending {K} (cmp_op : K → Z) (l : list K) : Prop :=
  StronglySorted (λ x y, (cmp_op x ≤ 0)%Z → (cmp_op y < 0)%Z) l.

Definition all_pos {K} (cmp_op : K → Z) (l : list K) : Prop := Forall (λ x, (0 < cmp_op x)%Z) l.
Definition all_neg {K} (cmp_op : K → Z) (l : list K) : Prop := Forall (λ x, (cmp_op x < 0)%Z) l.

Section Descending.
Context {K : Type} (cmp_op : K → Z).

Lemma descending_app_l l1 l2 : descending cmp_op (l1 ++ l2) → descending cmp_op l1.
Proof. unfold descending. rewrite StronglySorted_app_iff. tauto. Qed.

Lemma descending_app_r l1 l2 : descending cmp_op (l1 ++ l2) → descending cmp_op l2.
Proof. unfold descending. rewrite StronglySorted_app_iff. tauto. Qed.

(** Everything after an element that is not positive is negative. *)
Lemma descending_after l1 x l2 :
  descending cmp_op (l1 ++ x :: l2) → (cmp_op x ≤ 0)%Z → all_neg cmp_op l2.
Proof. intros H%descending_app_r Hx. apply StronglySorted_inv in H as [_ H]. eapply Forall_impl; [done|]. auto. Qed.

(** Everything before an element that is not negative is positive. *)
Lemma descending_before l1 x l2 :
  descending cmp_op (l1 ++ x :: l2) → (0 ≤ cmp_op x)%Z → all_pos cmp_op l1.
Proof.
  unfold descending. rewrite StronglySorted_app_iff. intros (_ & _ & H) Hx.
  apply Forall_forall. intros y Hy. specialize (H y x Hy). destruct (Z.le_gt_cases (cmp_op y) 0); [|lia].
  assert (x ∈ x :: l2) by set_solver. specialize (H ltac:(done)). lia.
Qed.
End Descending.

Section BSearch.
Context {K : Type} {HK : Inhabited K} {HL : BPNodeLayout}.
Implicit Types (n : BPTreeNode K).

(** What [BSearch] promises: an equal key, or the gap the query falls in. *)
Definition search_ok (cmp_op : K → Z) n (res : SearchResult) : Prop :=
  if found res then index res < NumItems n ∧ cmp_op (Key (index res) n) = 0%Z
  else index res ≤ NumItems n ∧ all_pos cmp_op (take (index res) (keys_ n)) ∧
       all_neg cmp_op (drop (index res) (keys_ n)).

Lemma keys_split n i : i < NumItems n → keys_ n = take i (keys_ n) ++ Key i n :: drop (S i) (keys_ n).
Proof.
  intros Hi. unfold Key, NumItems in *. destruct (lookup_lt_is_Some_2 _ _ Hi) as [x Hx].
  rewrite (list_lookup_total_correct _ _ _ Hx). by rewrite take_drop_middle.
Qed.

Lemma take_S_keys n i : i < NumItems n → take (S i) (keys_ n) = take i (keys_ n) ++ [Key i n].
Proof.
  intros Hi. rewrite (keys_split n i Hi) at 1. 
  assert (length (take i (keys_ n)) = i) by (apply length_take_le; unfold NumItems in Hi; lia).
  rewrite take_app_ge by lia. rewrite H, Nat.sub_succ_l, Nat.sub_diag by lia. done.
Qed.

Lemma drop_keys n i : i < NumItems n → drop i (keys_ n) = Key i n :: drop (S i) (keys_ n).
Proof.
  intros Hi. rewrite (keys_split n i Hi) at 1. rewrite drop_app_length'; [done|].
  symmetry. apply length_take_le. unfold NumItems in Hi. lia.
Qed.

Lemma bsearch_loop_ok cmp_op n fuel lo hi :
  descending cmp_op (keys_ n) → lo ≤ hi → hi < NumItems n → hi - lo ≤ fuel →
  all_pos cmp_op (take lo (keys_ n)) → all_neg cmp_op (drop hi (keys_ n)) →
  search_ok cmp_op n (bsearch_loop fuel cmp_op n lo hi).
Proof.
  intros Hd. revert lo hi. induction fuel as [|fuel IH]; intros lo hi Hle Hhi Hf Hpos Hneg; simpl.
  { assert (lo = hi) as -> by lia. split_and!; simpl; try done; lia. }
  destruct (lo <? hi) eqn:E; b2p.
  2: { assert (lo = hi) as -> by lia. split_and!; simpl; try done; lia. }
  assert (Hmid := Nat.div_mod_eq (lo + hi) 2). assert (Hm2 := Nat.mod_upper_bound (lo + hi) 2).
  set (mid := (lo + hi) / 2) in *. rewrite (keys_split n mid) in Hd by lia.
  destruct (_ =? 0)%Z eqn:E0; [|destruct (_ <? 0)%Z eqn:E1]; b2p.
  - split; simpl; [lia|done].
  - apply IH; try lia; try done. rewrite drop_keys by lia. constructor; [done|].
    eapply descending_after; [done|lia].
  - apply IH; try lia; try done. rewrite take_S_keys by lia. apply Forall_app.
    split; [|constructor; [lia|done]]. eapply descending_before; [done|lia].
Qed.

Lemma BSearch_ok cmp_op n :
  descending cmp_op (keys_ n) → 0 < NumItems n → search_ok cmp_op n (BSearch cmp_op n).
Proof.
  intros Hd Hn. unfold BSearch.
  assert (Hd' := Hd). rewrite (keys_split n (NumItems n - 1)) in Hd' by lia.
  destruct (0 <=? _)%Z eqn:E; [destruct (0 <? _)%Z eqn:E1|]; b2p.
  - split_and!; simpl; [done| |rewrite drop_ge by done; constructor].
    replace (NumItems n) with (S (NumItems n - 1)) by lia. rewrite take_S_keys by lia.
    apply Forall_app. split; [|by constructor]. eapply descending_before; [done|lia].
  - split; simpl; lia.
  - apply bsearch_loop_ok; try done; try lia; [constructor|].
    rewrite drop_keys by lia. constructor; [lia|]. eapply descending_after; [done|lia].
Qed.
End BSearch.

Section Context_.
Context {K : Type} {HK : Inhabited K} {HL : BPNodeLayout} {HLok : LayoutOk}.
Implicit Types (n c : BPTreeNode K) (cs : list (BPTreeNode K)) (ks : list K) (p : BPTreePath K).

(** ** Contexts

    The nodes of a path above a subtree, with the contents they put before
    and after it. *)

Fixpoint ctx_pre p : list K :=
  match p with [] => [] | (n, pos) :: p => ctx_pre p ++ pre_child pos n end.
Fixpoint ctx_post p : list K :=
  match p with [] => [] | (n, pos) :: p => post_child pos n ++ ctx_post p end.

(** Number of nodes outside the hole. *)
Definition frame_size n (pos : nat) : nat :=
  S (sizes (take pos (children_ n)) + sizes (drop (S pos) (children_ n))).
Fixpoint ctx_size p : nat :=
  match p with [] => 0 | (n, pos) :: p => ctx_size p + frame_size n pos end.

(** An inner node with a hole at child [pos] for a subtree of height [h]:
    everything else is well-formed, and the counter counts [m] items for the
    subtree in the hole. *)
Definition frame_ok (h : nat) (m : nat) n (pos : nat) : Prop :=
  ∃ ks1 ks2 cs1 c cs2,
    n = Node false (ks1 ++ ks2) (cs1 ++ c :: cs2)
          (u32 (Z.of_nat (m + length (before cs1 ks1) + length (after ks2 cs2)))) ∧
    length ks1 = pos ∧ length cs1 = pos ∧ length cs2 = length ks2 ∧
    Forall (good h) cs1 ∧ Forall (good h) cs2 ∧
    0 < length (ks1 ++ ks2) ≤ kMaxInnerKeys.

(** [ctx_ok H h m p]: plugging a subtree of height [h] with [m] items into [p]
    gives a tree of height [H]. *)
Fixpoint ctx_ok (H h m : nat) p : Prop :=
  match p with
  | [] => H = h
  | (n, pos) :: p =>
      frame_ok h m n pos ∧ (p ≠ [] → occupied n) ∧
      ctx_ok H (S h) (m + length (pre_child pos n) + length (post_child pos n)) p
  end.

Lemma pre_child_eq leaf ks1 ks2 cs1 c cs2 t pos :
  length ks1 = pos → length cs1 = pos →
  pre_child pos (Node leaf (ks1 ++ ks2) (cs1 ++ c :: cs2) t) = before cs1 ks1.
Proof.
  intros <- Hc. unfold pre_child. simpl. rewrite <-Hc at 1. by rewrite !take_app_length.
Qed.

Lemma post_child_eq leaf ks1 ks2 cs1 c cs2 t pos :
  length ks1 = pos → length cs1 = pos →
  post_child pos (Node leaf (ks1 ++ ks2) (cs1 ++ c :: cs2) t) = after ks2 cs2.
Proof.
  intros <- Hc. unfold post_child. cbn [keys_ children_].
  by rewrite drop_app_length, drop_S_middle.
Qed.

Lemma frame_size_eq leaf ks cs1 c cs2 t pos :
  length cs1 = pos → frame_size (Node leaf ks (cs1 ++ c :: cs2) t) pos = S (sizes cs1 + sizes cs2).
Proof.
  intros <-. unfold frame_size. cbn [children_]. by rewrite take_app_length, drop_S_middle.
Qed.

(** Storing the right number of items in the hole makes the frame a node. *)
Lemma frame_plug h m n pos cur delta :
  frame_ok h m n pos → good h cur → Z.of_nat (length (inorder cur)) = (Z.of_nat m + delta)%Z →
  let n' := IncreaseTreeCount delta (SetChild pos cur n) in
  wf (S h) n' ∧ NumItems n' = NumItems n ∧ MaxItems n' = MaxItems n ∧
  node_size n' = frame_size n pos + node_size cur ∧
  inorder n' = pre_child pos n ++ inorder cur ++ post_child pos n.
Proof.
  intros (ks1 & ks2 & cs1 & c & cs2 & -> & Hk & Hc & H2 & HF1 & HF2 & Hn & Hmax) Hcur Hlen n'.
  rewrite pre_child_eq, post_child_eq by done.
  assert (Hin : inorder n' = before cs1 ks1 ++ inorder cur ++ after ks2 cs2).
  { unfold n'. rewrite inorder_content. unfold SetChild. simpl leaf_. simpl keys_. simpl children_.
    slots. apply content_child. lia. }
  split_and!; try done.
  2: { rewrite frame_size_eq by done. unfold n', SetChild. rewrite node_size_eq. simpl. slots.
       sizes_lia. }
  apply wf_wfe. rewrite inorder_content in Hin.
  unfold n', SetChild, IncreaseTreeCount in *. cbn [leaf_ keys_ children_ tree_count_] in *.
  apply wfe_inner. rewrite set_slot_middle in * by lia. rewrite Hin.
  split_and!; try done.
  - rewrite !length_app. simpl. rewrite length_app in *. lia.
  - by apply Forall_app; split; [|constructor].
  - unfold GetInnerTreeCount. simpl. rewrite u32_add_l, !length_app. f_equal. lia.
Qed.

(** ** Descending *)

(** A well-formed inner node is a frame around each of its children. *)
Lemma child_frame h n i :
  wf (S h) n → leaf_ n = false → 0 < NumItems n → i ≤ NumItems n →
  frame_ok h (length (inorder (Child i n))) n i ∧ good h (Child i n) ∧
  frame_size n i + node_size (Child i n) = node_size n ∧
  inorder n = pre_child i n ++ inorder (Child i n) ++ post_child i n.
Proof.
  rewrite wf_wfe. destruct n as [leaf ks cs t]. cbn [leaf_]. intros Hwf -> Hpos Hi.
  apply wfe_inner in Hwf as (Hmax & Hlen & HF & ->). unfold NumItems in *. cbn [keys_] in *.
  destruct (list_split_at' ks i Hi) as (ks1 & ks2 & -> & Hk).
  destruct (list_split_at cs i) as (cs1 & c & cs2 & -> & Hc); [lia|].
  rewrite Child_middle by done. rewrite !length_app in *. simpl in Hlen.
  apply Forall_app in HF as [HF1 [HF HF2]%Forall_cons].
  rewrite (inorder_content (Node _ _ _ _)). cbn [leaf_ keys_ children_].
  rewrite pre_child_eq, post_child_eq, content_child by lia.
  split_and!; try done.
  2: { rewrite frame_size_eq by done. rewrite (node_size_eq (Node _ _ _ _)). simpl. sizes_lia. }
  exists ks1, ks2, cs1, c, cs2. split_and!; try done.
  - repeat f_equal. rewrite !length_app. lia.
  - lia.
  - rewrite length_app. lia.
  - rewrite length_app. lia.
Qed.

Lemma child_ctx H h n i p :
  wf (S h) n → leaf_ n = false → 0 < NumItems n → i ≤ NumItems n →
  (p ≠ [] → occupied n) → ctx_ok H (S h) (length (inorder n)) p →
  ctx_ok H h (length (inorder (Child i n))) ((n, i) :: p) ∧ good h (Child i n) ∧
  ctx_size ((n, i) :: p) + node_size (Child i n) = ctx_size p + node_size n ∧
  ctx_pre ((n, i) :: p) ++ inorder (Child i n) ++ ctx_post ((n, i) :: p)
  = ctx_pre p ++ inorder n ++ ctx_post p.
Proof.
  intros Hwf Hl Hpos Hi Hocc Hctx. destruct (child_frame h n i) as (Hf & Hg & Hs & Hin); [done..|].
  simpl. rewrite Hin in Hctx |- *. rewrite !length_app in Hctx.
  split_and!; try done; [|lia|by rewrite <-!app_assoc].
  by replace (length (inorder (Child i n)) + length (pre_child i n) + length (post_child i n))
    with (length (pre_child i n) + (length (inorder (Child i n)) + length (post_child i n))) by lia.
Qed.

(** *** Around a key of an inner node *)

Lemma pre_child_0 n : pre_child 0 n = [].
Proof. done. Qed.

Lemma post_child_end e h n :
  wfe e h n → leaf_ n = false → post_child (NumItems n) n = [].
Proof. intros. unfold post_child, NumItems. by rewrite drop_ge. Qed.

Lemma inner_split e h n i :
  wfe e h n → leaf_ n = false → i < NumItems n →
  ∃ ks1 k ks2 cs1 c d cs2 t,
    n = Node false (ks1 ++ k :: ks2) (cs1 ++ c :: d :: cs2) t ∧
    length ks1 = i ∧ length cs1 = i ∧ length cs2 = length ks2.
Proof.
  destruct n as [leaf ks cs t]. intros Hwf. cbn [leaf_]. intros -> Hi.
  assert (Hlen := wfe_children _ _ _ Hwf eq_refl). unfold NumItems in *. cbn [keys_ children_] in *.
  destruct (list_split_at ks i Hi) as (ks1 & k & ks2 & -> & Hk).
  destruct (list_split_at cs i) as (cs1 & c & cs2 & -> & Hc); [lia|].
  rewrite !length_app in Hlen. simpl in Hlen. destruct cs2 as [|d cs2]; [simpl in Hlen; lia|].
  exists ks1, k, ks2, cs1, c, d, cs2, t. simpl in Hlen. split_and!; try done. lia.
Qed.

Lemma pre_child_S e h n i :
  wfe e h n → leaf_ n = false → i < NumItems n →
  pre_child (S i) n = pre_child i n ++ inorder (Child i n) ++ [Key i n].
Proof.
  intros Hwf Hl Hi.
  destruct (inner_split e h n i) as (ks1 & k & ks2 & cs1 & c & d & cs2 & t & -> & Hk & Hc & H2);
    [done..|].
  rewrite Child_middle, Key_middle, (pre_child_eq _ _ _ _ _ _ _ i) by done.
  replace (ks1 ++ k :: ks2) with ((ks1 ++ [k]) ++ ks2) by by rewrite <-app_assoc.
  replace (cs1 ++ c :: d :: cs2) with ((cs1 ++ [c]) ++ d :: cs2) by by rewrite <-app_assoc.
  rewrite pre_child_eq by (rewrite length_app; simpl; lia). apply before_snoc. lia.
Qed.

Lemma post_child_lt e h n i :
  wfe e h n → leaf_ n = false → i < NumItems n →
  post_child i n = Key i n :: inorder (Child (S i) n) ++ post_child (S i) n.
Proof.
  intros Hwf Hl Hi.
  destruct (inner_split e h n i) as (ks1 & k & ks2 & cs1 & c & d & cs2 & t & -> & Hk & Hc & H2);
    [done..|].
  rewrite Child_middle2, Key_middle, post_child_eq, after_cons by (done || lia).
  replace (ks1 ++ k :: ks2) with ((ks1 ++ [k]) ++ ks2) by by rewrite <-app_assoc.
  replace (cs1 ++ c :: d :: cs2) with ((cs1 ++ [c]) ++ d :: cs2) by by rewrite <-app_assoc.
  by rewrite post_child_eq by (rewrite length_app; simpl; lia).
Qed.

Lemma occupied_pos n : occupied n → 0 < NumItems n.
Proof. rewrite occupied_cap. pose proof (low_bound (leaf_ n)). lia. Qed.

Lemma wf_height h n : wf h n → node_height n = h.
Proof.
  revert n. induction h as [|h IH]; [done|]. intros [leaf ks cs t].
  rewrite wf_wfe. destruct leaf.
  - rewrite wfe_leaf. intros ([= ->] & -> & _). done.
  - intros (_ & Hlen & HF & _)%wfe_inner. simpl. f_equal.
    destruct cs as [|c cs]; [done|]. clear Hlen.
    assert (HF' : Forall (λ c, node_height c = h) (c :: cs)).
    { eapply Forall_impl; [done|]. intros ? [? _]. by apply IH. }
    clear HF IH. revert c HF'. induction cs as [|d cs IHc]; intros c HF'; simpl.
    + rewrite Forall_singleton in HF'. lia.
    + apply Forall_cons in HF' as [Hc HF']. apply IHc in HF'. simpl in HF'. lia.
Qed.
End Context_.

Section Locate.
Context {K : Type} {HK : Inhabited K} {HL : BPNodeLayout} {HLok : LayoutOk}.
Implicit Types (n root : BPTreeNode K) (p : BPTreePath K) (l : list K).

(** [p] leads from [root] to [n] along child slots. *)
Fixpoint linked root n p : Prop :=
  match p with [] => n = root | (parent, i) :: p => Child i parent = n ∧ linked root parent p end.

(** [n], of height [h], is the subtree that path [p] leads to in [root]. *)
Definition located (H : nat) root (h : nat) n p : Prop :=
  wf h n ∧ 0 < NumItems n ∧ (p ≠ [] → occupied n) ∧
  ctx_ok H h (length (inorder n)) p ∧ ctx_pre p ++ inorder n ++ ctx_post p = inorder root ∧
  ctx_size p + node_size n = node_size root ∧
  linked root n p.

(** A tree with at least one item. *)
Definition root_ok (H : nat) root : Prop := wf H root ∧ 0 < NumItems root.

Lemma located_root H root : root_ok H root → located H root H root [].
Proof. intros [? ?]. split_and!; try done. simpl. by rewrite app_nil_r. Qed.

Lemma located_child H root h n p i :
  located H root h n p → leaf_ n = false → i ≤ NumItems n →
  ∃ h', h = S h' ∧ located H root h' (Child i n) ((n, i) :: p).
Proof.
  intros (Hwf & Hpos & Hocc & Hctx & Hin & Hsz & Hlk) Hl Hi. destruct h as [|h]; [done|].
  exists h. split; [done|].
  destruct (child_ctx H h n i p) as (Hctx' & [Hg1 Hg2] & Hsz' & Hin'); [done..|].
  split_and!; try done; [by apply occupied_pos|by rewrite Hin'|lia].
Qed.

(** One step up: the parent of a located subtree is located. *)
Lemma located_parent H root h n m pos p :
  located H root h n ((m, pos) :: p) →
  located H root (S h) m p ∧ leaf_ m = false ∧ pos ≤ NumItems m ∧ Child pos m = n.
Proof.
  intros (Hwf & Hpos & Hocc & (Hf & Hoccm & Hctx) & Hin & Hsz & Hlk & Hlks).
  assert (Hg : good h n) by (split; [done|by apply Hocc]).
  destruct (frame_plug h _ m pos n 0 Hf Hg) as (Hwf' & Hni & Hmi & Hsz' & Hin'); [lia|].
  destruct Hf as (ks1 & ks2 & cs1 & c & cs2 & -> & <- & Hc & H2 & HF1 & HF2 & Hn & Hmax).
  rewrite Child_middle in Hlk by done. subst c.
  assert (Hid : IncreaseTreeCount 0 (SetChild (length ks1) n (Node false (ks1 ++ ks2)
      (cs1 ++ n :: cs2) (u32 (Z.of_nat (length (inorder n) + length (before cs1 ks1) +
        length (after ks2 cs2))))))
    = Node false (ks1 ++ ks2) (cs1 ++ n :: cs2) (u32 (Z.of_nat (length (inorder n) +
        length (before cs1 ks1) + length (after ks2 cs2))))).
  { unfold IncreaseTreeCount, SetChild, GetInnerTreeCount. simpl. slots.
    by rewrite Z.add_0_r, u32_u32. }
  rewrite Hid in *. clear Hid. set (m := Node _ _ _ _) in *.
  split; [|split_and!; [done| |by apply Child_middle]].
  - split_and!; try done.
    + rewrite Hin', !length_app. by replace (length (pre_child (length ks1) m) + (length (inorder n) +
        length (post_child (length ks1) m))) with (length (inorder n) + length (pre_child (length ks1) m)
        + length (post_child (length ks1) m)) by lia.
    + rewrite <-Hin, Hin'. simpl. by rewrite <-!app_assoc.
    + simpl in Hsz. lia.
  - unfold m, NumItems. simpl. rewrite length_app. lia.
Qed.

Lemma sublist_keys_after ks (cs : list (BPTreeNode K)) :
  length cs = length ks → ks `sublist_of` after ks cs.
Proof.
  revert cs. induction ks as [|k ks IH]; intros [|c cs] [=]; [constructor|].
  rewrite after_cons. apply sublist_skip. by apply sublist_inserts_l, IH.
Qed.

Lemma sublist_keys e h n : wfe e h n → keys_ n `sublist_of` inorder n.
Proof.
  intros Hwf. rewrite inorder_content. destruct (leaf_ n) eqn:Hl; [done|].
  assert (Hlen := wfe_children _ _ _ Hwf Hl). destruct (children_ n) as [|c cs]; [done|].
  simpl. apply sublist_inserts_l, sublist_keys_after. by injection Hlen.
Qed.

(** *** The walk of [Locate] *)

(** What [Locate] returns: the record of an equal key, or the gap of a leaf
    that the query falls in. *)
Definition locate_ok (cmp_op : K → Z) (H : nat) root (res : bool * BPTreePath K) : Prop :=
  ∃ h n i p,
    res.2 = (n, i) :: p ∧ located H root h n p ∧
    if res.1 then i < NumItems n ∧ cmp_op (Key i n) = 0%Z
    else leaf_ n = true ∧ i ≤ NumItems n ∧
         all_pos cmp_op (ctx_pre p ++ pre_at i n) ∧ all_neg cmp_op (post_at i n ++ ctx_post p).

(** Descending into the child of the gap keeps the query inside. *)
Lemma descend_sides cmp_op H root h n p i :
  located H root h n p → leaf_ n = false → descending cmp_op (inorder root) →
  all_pos cmp_op (ctx_pre p) → all_neg cmp_op (ctx_post p) →
  i ≤ NumItems n → all_pos cmp_op (take i (keys_ n)) → all_neg cmp_op (drop i (keys_ n)) →
  all_pos cmp_op (ctx_pre ((n, i) :: p)) ∧ all_neg cmp_op (ctx_post ((n, i) :: p)).
Proof.
  intros (Hwf & Hpos & Hocc & Hctx & Hin & _) Hl Hd Hp Hn Hi Hkp Hkn.
  assert (Hw := Hwf). rewrite wf_wfe in Hw. destruct h as [|h]; [done|].
  assert (Hdn : descending cmp_op (inorder n)).
  { rewrite <-Hin in Hd. by eapply descending_app_l, descending_app_r. }
  destruct (child_frame h n i) as (_ & _ & _ & Hn'); [done..|]. rewrite Hn' in Hdn.
  split; apply Forall_app; split; try done.
  - destruct i as [|i]; [constructor|]. rewrite take_S_keys in Hkp by lia.
    apply Forall_app in Hkp as [_ Hk]. rewrite Forall_singleton in Hk.
    rewrite (pre_child_S 0 (S h)) in * by (done || lia).
    rewrite (app_assoc (pre_child i n)) in *. apply Forall_app. split; [|by constructor].
    rewrite <-(app_assoc _ [_]) in Hdn. eapply descending_before; [exact Hdn|lia].
  - destruct (decide (i = NumItems n)) as [->|Hne].
    + rewrite (post_child_end 0 (S h)) by done. constructor.
    + rewrite drop_keys in Hkn by lia. apply Forall_cons in Hkn as [Hk _].
      rewrite (post_child_lt 0 (S h)) in * by (done || lia). constructor; [done|].
      rewrite app_assoc in Hdn. eapply descending_after; [exact Hdn|lia].
Qed.

Lemma locate_loop_ok cmp_op H root fuel h n p :
  located H root h n p → h ≤ fuel → descending cmp_op (inorder root) →
  all_pos cmp_op (ctx_pre p) → all_neg cmp_op (ctx_post p) →
  locate_ok cmp_op H root (locate_loop fuel cmp_op n p).
Proof.
  revert h n p. induction fuel as [|fuel IH]; intros h n p Hloc Hf Hd Hp Hn; simpl.
  { destruct h; [by destruct Hloc|lia]. }
  assert (Hloc' := Hloc). destruct Hloc' as (Hwf & Hpos & Hocc & Hctx & Hin & _).
  assert (Hs : search_ok cmp_op n (BSearch cmp_op n)).
  { apply BSearch_ok; [|done]. eapply StronglySorted_sublist; [by eapply sublist_keys, wf_wfe|].
    rewrite <-Hin in Hd. by eapply descending_app_l, descending_app_r. }
  destruct (BSearch cmp_op n) as [i b]. unfold search_ok in Hs. cbn [index found] in *.
  destruct b; [by exists h, n, i, p|]. destruct Hs as (Hi & Hkp & Hkn). unfold IsLeaf.
  destruct (leaf_ n) eqn:Hl.
  - exists h, n, i, p. do 4 (split; [done|]). unfold pre_at, post_at, all_pos, all_neg.
    rewrite Hl, !Forall_app. done.
  - destruct (located_child H root h n p i) as (h' & -> & Hloc'); [done..|].
    destruct (descend_sides cmp_op H root (S h') n p i) as [Hp' Hn']; [done..|].
    eapply IH; try done. lia.
Qed.

Lemma Locate_ok cmp_op H root :
  root_ok H root → descending cmp_op (inorder root) → locate_ok cmp_op H root (Locate cmp_op root).
Proof.
  intros Hok Hd. unfold Locate.
  apply (locate_loop_ok _ _ _ _ H); try done; [by apply located_root| |by constructor..].
  destruct Hok as [Hwf _]. by rewrite (wf_height H).
Qed.

Lemma dig_right_app fuel n p : dig_right fuel n p = dig_right fuel n [] ++ p.
Proof.
  revert n p. induction fuel as [|fuel IH]; intros n p; simpl; [done|].
  destruct (IsLeaf n); [done|]. rewrite IH. rewrite (IH _ (Push _ _ [])).
  by rewrite <-app_assoc.
Qed.
End Locate.

(** ** Key orders

    The comparator policies of src/astra/container/zset/bplustree.hpp, the laws
    the tree relies on, and the operations on sorted lists that the tree
    operations are compared with. *)

(** A comparator is a total preorder; equal keys need not be identical. *)
Class KeyOrder (K : Type) `{!KeyCompareTo K} : Prop := {
  compare_flip : ∀ x y : K, Z.sgn (compare_to x y) = (- Z.sgn (compare_to y x))%Z;
  compare_trans : ∀ x y z : K,
    (compare_to x y ≤ 0 → compare_to y z ≤ 0 → compare_to x z ≤ 0)%Z
}.

Section Order.
Context {K : Type} {HC : KeyCompareTo K}.
Implicit Types (x y q : K) (l : list K).

Definition key_lt x y : Prop := (compare_to x y < 0)%Z.
Definition sorted l : Prop := StronglySorted key_lt l.

(** The set operations on a sorted list. *)
Definition mem q l : bool := existsb (λ x, (compare_to q x =? 0)%Z) l.
Definition ins q l : list K :=
  filter (λ x, (0 < compare_to q x)%Z) l ++ q :: filter (λ x, (compare_to q x < 0)%Z) l.
Definition del q l : list K := filter (λ x, compare_to q x ≠ 0%Z) l.

Context {HO : KeyOrder K}.

Lemma compare_gt x y : (compare_to x y < 0 ↔ 0 < compare_to y x)%Z.
Proof. pose proof (compare_flip x y). lia. Qed.

Lemma compare_refl x : compare_to x x = 0%Z.
Proof. pose proof (compare_flip x x). lia. Qed.

Lemma key_lt_trans_l q x y : (compare_to q x ≤ 0)%Z → key_lt x y → key_lt q y.
Proof.
  unfold key_lt. intros Hqx Hxy. destruct (Z.le_gt_cases 0 (compare_to q y)) as [H|]; [|done].
  pose proof (compare_flip q y). assert (Hyq : (compare_to y q ≤ 0)%Z) by lia.
  pose proof (compare_trans y q x Hyq Hqx). pose proof (compare_flip x y). lia.
Qed.

Lemma sorted_descending q l : sorted l → descending (compare_to q) l.
Proof.
  unfold sorted, descending. induction 1 as [|x l Hs IH HF]; constructor; [done|].
  eapply Forall_impl; [done|]. intros y Hy Hx. by eapply key_lt_trans_l.
Qed.

(** A gap found by the query is where [ins] puts it. *)
Lemma ins_gap q l1 l2 :
  all_pos (compare_to q) l1 → all_neg (compare_to q) l2 → ins q (l1 ++ l2) = l1 ++ q :: l2.
Proof.
  intros H1 H2. unfold ins. rewrite !filter_app.
  rewrite (filter_all _ l1), (filter_none _ l2), (filter_none _ l1), (filter_all _ l2);
    [by rewrite app_nil_r|..]; eapply Forall_impl; try done; simpl; intros; lia.
Qed.

Lemma mem_gap q l1 l2 :
  all_pos (compare_to q) l1 → all_neg (compare_to q) l2 → mem q (l1 ++ l2) = false.
Proof.
  intros H1 H2. unfold mem. rewrite existsb_app. apply orb_false_iff. split; apply not_true_iff_false.
  all: intros (x & Hx & E)%existsb_exists; apply Z.eqb_eq in E.
  all: apply list_elem_of_In in Hx; unfold all_pos, all_neg in *; rewrite Forall_forall in *.
  - specialize (H1 x Hx). lia.
  - specialize (H2 x Hx). lia.
Qed.

Lemma sorted_ins_gap q l1 l2 :
  sorted (l1 ++ l2) → all_pos (compare_to q) l1 → all_neg (compare_to q) l2 →
  sorted (l1 ++ q :: l2).
Proof.
  unfold sorted. rewrite !StronglySorted_app_iff. intros (Hs1 & Hs2 & H12) H1 H2.
  unfold all_pos, all_neg in *. rewrite Forall_forall in H1. split_and!; [done| |].
  - constructor; [done|]. done.
  - intros x y Hx [->|Hy]%elem_of_cons; [|by apply H12]. apply compare_gt. by apply H1.
Qed.
End Order.

(** ** The default policy *)

(** A strict weak order, what [std::less] is for the key types in use. *)
Class StrictWeakOrder {K} (less : K → K → bool) : Prop := {
  less_irrefl : ∀ x, less x x = false;
  less_trans : ∀ x y z, less x y = true → less y z = true → less x z = true;
  less_incomparable : ∀ x y z, less x y = false → less y z = false → less x z = false
}.

(** [DefaultCompareTo]: the three-way comparator made of a less-than. *)
Definition DefaultCompareTo {K} (less : K → K → bool) (a b : K) : Z :=
  if less a b then (-1)%Z else if less b a then 1%Z else 0%Z.

Lemma DefaultCompareTo_order {K} (less : K → K → bool) :
  StrictWeakOrder less → @KeyOrder K (DefaultCompareTo less).
Proof.
  intros [Hirr Htr Hinc]. assert (Hasym : ∀ x y, less x y = true → less y x = false).
  { intros x y Hxy. destruct (less y x) eqn:Hyx; [|done]. by rewrite <-(Hirr x), (Htr x y x). }
  assert (Hle : ∀ x y, (DefaultCompareTo less x y ≤ 0)%Z ↔ less y x = false).
  { intros x y. unfold DefaultCompareTo. destruct (less x y) eqn:Hxy.
    - rewrite (Hasym x y) by done. split; intros; [done|lia].
    - destruct (less y x); split; intros; try done; lia. }
  split; unfold compare_to; intros x y.
  - unfold DefaultCompareTo. destruct (less x y) eqn:Hxy; [by rewrite (Hasym x y)|].
    by destruct (less y x).
  - intros z. rewrite !Hle. intros H1 H2. by apply (Hinc z y x).
Qed.

(** Unsigned integer keys under the default policy. *)
#[export] Instance Zltb_order : StrictWeakOrder Z.ltb.
Proof.
  split; intros; rewrite ?Z.ltb_lt, ?Z.ltb_ge in *; lia.
Qed.

Definition uint64_layout : BPNodeLayout := {| kKeySize := 8 |}.
Definition uint64_compare : KeyCompareTo Z := DefaultCompareTo Z.ltb.
