(* ===== verification/BPTreeInsert.v ===== *)
(** * B+ tree: insertion

    [InsertToFullLeaf] with its rebalancing and splitting, and the whole
    insertion at the gap [Locate] found: the new tree is well-formed, has the
    item at that gap, and its level and node counters are right. *)
From S2P Require Import Prelude.
From S2P Require Import BPTreeNode.
From S2P Require Import BPTreeWf.
From S2P Require Import BPTreeMoves.
From S2P Require Import BPTreeRebalance.
From S2P Require Import BPTree.
From S2P Require Import BPTreeSearch.

Section Insert.
Context {K : Type} {HK : Inhabited K} {HL : BPNodeLayout} {HLok : LayoutOk}.
Implicit Types (n c l r node : BPTreeNode K) (cs : list (BPTreeNode K)) (ks : list K)
  (p : BPTreePath K) (k x : K).

(** Offsets only matter modulo [2 ^ 32]. *)
Lemma wfe_cong e e' h n : u32 e = u32 e' → wfe e h n → wfe e' h n.
Proof.
  intros He. rewrite !wfe_part. intros (Hp & Hm & Hc). split_and!; [done..|].
  destruct Hc as [?|Hc]; [by left|right]. rewrite Hc, <-u32_add_r, He. apply u32_add_r.
Qed.

Lemma inorder_IncreaseTreeCount delta n : inorder (IncreaseTreeCount delta n) = inorder n.
Proof. by rewrite !inorder_content. Qed.

Lemma NumItems_IncreaseTreeCount delta n : NumItems (IncreaseTreeCount delta n) = NumItems n.
Proof. done. Qed.

Lemma node_size_IncreaseTreeCount delta n : node_size (IncreaseTreeCount delta n) = node_size n.
Proof. by rewrite !node_size_eq. Qed.

(** *** Writing back along the path *)

Lemma IncreaseSubtreeCounts_ok delta H h m p cur :
  ctx_ok H h m p → wf h cur → 0 < NumItems cur → (p ≠ [] → occupied cur) →
  Z.of_nat (length (inorder cur)) = (Z.of_nat m + delta)%Z →
  let r := IncreaseSubtreeCounts delta cur p in
  root_ok H r ∧ inorder r = ctx_pre p ++ inorder cur ++ ctx_post p ∧
  node_size r = ctx_size p + node_size cur.
Proof.
  revert h m cur. induction p as [|[n pos] p IH]; simpl; intros h m cur.
  { intros -> Hwf Hpos _ _. by rewrite app_nil_r. }
  intros (Hf & Hocc & Hctx) Hwf Hpos Hocc' Hlen.
  destruct (frame_plug h m n pos cur delta) as (Hwf' & Hni & Hmi & Hsz & Hin);
    [done|split; [done|by apply Hocc']|done|].
  destruct (IH (S h) (m + length (pre_child pos n) + length (post_child pos n))
    (IncreaseTreeCount delta (SetChild pos cur n))) as (Hr & Hin' & Hsz'); try done.
  - rewrite Hni. destruct Hf as (ks1 & ks2 & cs1 & c & cs2 & -> & _ & _ & _ & _ & _ & Hn).
    unfold NumItems. simpl. lia.
  - rewrite Hin, !length_app. lia.
  - split; [done|]. split; [|lia]. rewrite Hin', Hin, <-!app_assoc. done.
Qed.

(** *** Splitting a full node at a gap *)

Lemma content_gap h leaf ks cs t i :
  part h leaf ks cs → i ≤ length ks →
  content leaf ks cs = pre_at i (Node leaf ks cs t) ++ post_at i (Node leaf ks cs t).
Proof.
  intros Hp Hi. rewrite <-(pre_post_at h (Node leaf ks cs t) i Hp Hi). by rewrite inorder_content.
Qed.

Lemma Split_gap e h n i :
  wfe e h n → NumItems n = MaxItems n → i ≤ NumItems n →
  ∃ l r m,
    Split n = (l, r, m) ∧ wfe e h l ∧ wfe 0 h r ∧ leaf_ l = leaf_ n ∧ leaf_ r = leaf_ n ∧
    occupied l ∧ occupied r ∧ NumItems l < MaxItems l ∧ NumItems r < MaxItems r ∧
    node_size l + node_size r = S (node_size n) ∧
    inorder n = inorder l ++ m :: inorder r ∧
    (i ≤ NumItems l → pre_at i l = pre_at i n ∧ post_at i l ++ m :: inorder r = post_at i n) ∧
    (NumItems l < i → i - NumItems l - 1 ≤ NumItems r ∧
       inorder l ++ m :: pre_at (i - NumItems l - 1) r = pre_at i n ∧
       post_at (i - NumItems l - 1) r = post_at i n).
Proof.
  intros Hwf Hfull Hi. assert (HM := cap_bound (leaf_ n)).
  rewrite MaxItems_cap in Hfull.
  destruct (Split_eq e h n) as (ks1 & m & ks2 & cs1 & cs2 & tl & tr & Hk & Hc & Hl & Heq & Hwl & Hwr);
    [done|lia|].
  eexists _, _, m. split; [exact Heq|]. clear Heq.
  assert (Hp1 := part_node _ _ _ Hwl). assert (Hp2 := part_node _ _ _ Hwr). simpl in Hp1, Hp2.
  assert (Hn : NumItems n = length ks1 + S (length ks2)).
  { unfold NumItems. by rewrite Hk, length_app. }
  assert (Hdiv := Nat.div_mod_eq (NumItems n) 2). assert (Hmod := Nat.mod_upper_bound (NumItems n) 2).
  assert (Hdiv' := Nat.div_mod_eq (cap (leaf_ n) - 1) 2).
  assert (Hin : inorder n = content (leaf_ n) ks1 cs1 ++ m :: content (leaf_ n) ks2 cs2).
  { rewrite inorder_content, Hk, Hc. apply content_join. by eapply part_join_side. }
  assert (Hlo : i ≤ length ks1 → pre_at i (Node (leaf_ n) ks1 cs1 tl) = pre_at i n).
  { intros. destruct n as [leaf ksn csn tn]. simpl in *. subst. symmetry. by apply (pre_at_lo h). }
  assert (Hhi : length ks1 < i → content (leaf_ n) ks1 cs1 ++
      m :: pre_at (i - length ks1 - 1) (Node (leaf_ n) ks2 cs2 tr) = pre_at i n).
  { intros. destruct n as [leaf ksn csn tn]. simpl in *. subst.
    replace (i - length ks1 - 1) with (i - S (length ks1)) by lia. symmetry. by apply (pre_at_hi h). }
  rewrite !occupied_cap, !MaxItems_cap, !(inorder_content (Node _ _ _ _)).
  unfold NumItems in *. cbn [leaf_ keys_ children_].
  split_and!; try done; try lia.
  - rewrite !node_size_eq, Hc. cbn [children_]. sizes_lia.
  - intros Hle. split; [by apply Hlo|].
    assert (HA := pre_post_at h n i (part_node _ _ _ Hwf) Hi).
    rewrite Hin, <-(Hlo Hle), (content_gap h _ ks1 cs1 tl i), <-app_assoc in HA by done.
    by apply app_inv_head in HA.
  - intros Hlt. split_and!; [lia|by apply Hhi|].
    assert (HA := pre_post_at h n i (part_node _ _ _ Hwf) Hi).
    rewrite Hin, <-(Hhi Hlt), <-app_assoc in HA. apply app_inv_head in HA. injection HA as HA.
    rewrite (content_gap h _ ks2 cs2 tr (i - length ks1 - 1)) in HA by (done || lia).
    by apply app_inv_head in HA.
Qed.

Lemma occupied_grow n n' :
  occupied n → leaf_ n' = leaf_ n → NumItems n' = S (NumItems n) → occupied n'.
Proof. rewrite !occupied_cap. intros ? -> ->. lia. Qed.

Lemma good_grow e h n n' :
  occupied n → leaf_ n' = leaf_ n → NumItems n' = S (NumItems n) → wfe e h n' → u32 e = u32 0 →
  good h n'.
Proof.
  intros Hocc Hl Hn Hwf He. split; [|by eapply occupied_grow].
  apply wf_wfe. by eapply wfe_cong.
Qed.

Lemma split_leaf_ok h n i x :
  wf h n → leaf_ n = true → NumItems n = MaxItems n → i ≤ NumItems n →
  ∃ l r m,
    split_leaf n i x = (l, r, m) ∧ good h l ∧ good h r ∧
    inorder l ++ m :: inorder r = pre_at i n ++ x :: post_at i n ∧
    node_size l + node_size r = S (node_size n).
Proof.
  rewrite wf_wfe. intros Hwf Hl Hfull Hi.
  destruct (Split_gap 0 h n i) as (l & r & m & Heq & Hwl & Hwr & Hll & Hlr & Hol & Hor & Hml & Hmr
    & Hsz & Hin & Hlo & Hhi); [done..|].
  unfold split_leaf. rewrite Heq. rewrite <-wf_wfe in Hwl, Hwr. destruct (i <=? NumItems l) eqn:E; b2p.
  - destruct (Hlo E) as [Hpre Hpost].
    destruct (LeafInsert_spec h l i x) as (Hwi & Hli & Hni & Hini & Hsi); [done|by rewrite Hll|done..|].
    eexists _, _, _. split; [done|]. split_and!.
    + apply wf_wfe in Hwi. apply (good_grow 0 h l); congruence || done.
    + by split.
    + rewrite Hini, Hpre, <-Hpost, <-app_assoc. done.
    + lia.
  - destruct (Hhi E) as (Hi' & Hpre & Hpost).
    destruct (LeafInsert_spec h r (i - NumItems l - 1) x) as (Hwi & Hli & Hni & Hini & Hsi);
      [done|by rewrite Hlr|done..|].
    eexists _, _, _. split; [done|]. split_and!.
    + by split.
    + apply wf_wfe in Hwi. apply (good_grow 0 h r); congruence || done.
    + rewrite Hini, <-Hpre, <-Hpost, <-app_assoc. done.
    + lia.
Qed.

Lemma TreeCount_good h n : good h n → TreeCount n = u32 (Z.of_nat (length (inorder n))).
Proof. intros [Hwf _]. by eapply TreeCount_wf. Qed.

Lemma split_inner_ok h n i k r0 :
  wfe (Z.of_nat (length (inorder r0))) (S h) n → leaf_ n = false → NumItems n = MaxItems n →
  i ≤ NumItems n → good h r0 →
  ∃ l r m,
    split_inner n i k r0 = (l, r, m) ∧ good (S h) l ∧ good (S h) r ∧
    inorder l ++ m :: inorder r = pre_at i n ++ k :: inorder r0 ++ post_at i n ∧
    node_size l + node_size r = S (node_size n + node_size r0).
Proof.
  intros Hwf Hl Hfull Hi Hr0.
  destruct (Split_gap _ (S h) n i Hwf Hfull Hi) as (l & r & m & Heq & Hwl & Hwr & Hll & Hlr & Hol & Hor
    & Hml & Hmr & Hsz & Hin & Hlo & Hhi).
  unfold split_inner. rewrite Heq, (TreeCount_good h r0 Hr0). destruct (i <=? NumItems l) eqn:E; b2p.
  - destruct (Hlo E) as [Hpre Hpost].
    destruct (InnerInsert_spec _ h l i k r0 Hwl) as (Hwi & Hli & Hni & Hini & Hsi);
      [by rewrite Hll|done..|].
    eexists _, _, _. split; [done|]. split_and!.
    + apply (IncreaseTreeCount_spec _ 1) in Hwi.
      eapply good_grow; [exact Hol| |exact Hni|exact Hwi|f_equal; lia]. by rewrite Hll, Hl.
    + split; [by apply wf_wfe|done].
    + rewrite inorder_IncreaseTreeCount, Hini, Hpre, <-Hpost, <-!app_assoc. simpl.
      by rewrite <-app_assoc.
    + rewrite node_size_IncreaseTreeCount. lia.
  - destruct (Hhi E) as (Hi' & Hpre & Hpost).
    destruct (InnerInsert_spec _ h r (i - NumItems l - 1) k r0 Hwr) as (Hwi & Hli & Hni & Hini & Hsi);
      [by rewrite Hlr|done..|].
    eexists _, _, _. split; [done|]. split_and!.
    + split; [|done]. apply wf_wfe. eapply wfe_cong, IncreaseTreeCount_spec, Hwl.
      autorewrite with astra_arith. f_equal. lia.
    + apply (IncreaseTreeCount_spec _ (u32 (Z.of_nat (length (inorder r0))) + 1)) in Hwi.
      eapply good_grow; [exact Hor| |exact Hni|exact Hwi|]; [by rewrite Hlr, Hl|].
      autorewrite with astra_arith. f_equal. lia.
    + rewrite !inorder_IncreaseTreeCount, Hini, <-Hpre, <-Hpost, <-!app_assoc. done.
    + rewrite !node_size_IncreaseTreeCount. lia.
Qed.

(** *** Inserting where [RebalanceChild] made room *)

(** An inner node with [nk] keys, counter [t], children of height [h] made of
    [sz] nodes, and contents [xs]. *)
Definition parent_with (h : nat) (t : Z) (nk sz : nat) (xs : list K) n : Prop :=
  ∃ ks cs,
    n = Node false ks cs t ∧ length ks = nk ∧ length cs = S nk ∧ Forall (good h) cs ∧
    content false ks cs = xs ∧ sizes cs = sz.

Lemma parent_with_child h t ks1 ks2 cs1 c cs2 sz xs :
  length cs1 = length ks1 → length cs2 = length ks2 →
  Forall (good h) cs1 → good h c → Forall (good h) cs2 →
  before cs1 ks1 ++ inorder c ++ after ks2 cs2 = xs → sizes (cs1 ++ c :: cs2) = sz →
  parent_with h t (length ks1 + length ks2) sz xs (Node false (ks1 ++ ks2) (cs1 ++ c :: cs2) t).
Proof.
  intros H1 H2 HF1 Hc HF2 Hin Hsz. exists (ks1 ++ ks2), (cs1 ++ c :: cs2).
  rewrite content_child, !length_app by done. cbn [length].
  split_and!; try done; try lia. apply Forall_app. split; [done|by constructor].
Qed.

(** With offset zero, room anywhere means every child is well-formed. *)
Lemma room_good h pos w cs1 c cs2 :
  room 0 h pos w cs1 c cs2 → Forall (good h) cs1 ∧ wf h c ∧ Forall (good h) cs2.
Proof.
  destruct 1 as [cs1 c cs2 Hw HF1 Hc HF2|cs1 c o cs2 Hw HF1 Hc Ho Hoc HF2|cs1 o c cs2 Hw HF1 Ho Hoc Hc HF2];
    rewrite wf_wfe; try done.
  - split_and!; try done. constructor; [|done]. split; [by apply wf_wfe|done].
  - split_and!; try done. apply Forall_app. split; [done|]. constructor; [|done].
    split; [by apply wf_wfe|done].
Qed.

Lemma around_insert (b b' u u' v v' a a' y : list K) k :
  b' ++ u' = b ++ u → v' ++ a' = v ++ a →
  b' ++ (u' ++ k :: y ++ v') ++ a' = b ++ u ++ k :: y ++ v ++ a.
Proof.
  intros Hb Ha. rewrite <-!app_assoc, (app_assoc b'), Hb, <-app_assoc. simpl.
  by rewrite <-app_assoc, Ha.
Qed.

Lemma SetChild_eq leaf ks cs1 c cs2 t i n :
  i = length cs1 →
  SetChild i n (Node leaf ks (cs1 ++ c :: cs2) t) = Node leaf ks (cs1 ++ n :: cs2) t.
Proof. intros. unfold SetChild. simpl. by slots. Qed.

Lemma SetChild_eq2 leaf ks cs1 c d cs2 t i n :
  i = S (length cs1) →
  SetChild i n (Node leaf ks (cs1 ++ c :: d :: cs2) t) = Node leaf ks (cs1 ++ c :: n :: cs2) t.
Proof. intros. unfold SetChild. simpl. by slots. Qed.

Lemma room_insert_leaf h ks1 ks2 cs1 c cs2 t ip n' w ip' x :
  made_room 0 h ks1 ks2 cs1 c cs2 t ip n' w ip' → leaf_ c = true →
  parent_with h t (length ks1 + length ks2) (sizes (cs1 ++ c :: cs2))
    (before cs1 ks1 ++ pre_at ip c ++ x :: post_at ip c ++ after ks2 cs2)
    (SetChild w (LeafInsert ip' x (Child w n')) n').
Proof.
  intros (ks1' & ks2' & cs1' & c' & cs2' & -> & Hk1 & Hc1 & H2 & Hn & Hroom & Hlc & Hmax & Hocc
    & Hip & Hsz & Hpre & Hpost) Hl.
  apply room_good in Hroom as (HF1 & Hwf & HF2).
  destruct (LeafInsert_spec h c' ip' x) as (Hwi & Hli & Hni & Hini & Hsi); [done|congruence|done..|].
  rewrite Child_middle, SetChild_eq by done. rewrite <-Hn. apply parent_with_child; try done; [lia| | |].
  - split; [done|]. apply (occupied_grow c'); congruence || done.
  - rewrite Hini. by apply (around_insert _ _ _ _ _ _ _ _ []).
  - rewrite <-Hsz. rewrite !sizes_app, !sizes_cons. lia.
Qed.

Lemma room_insert_inner h ks1 ks2 cs1 c cs2 t ip n' w ip' k r0 :
  made_room (Z.of_nat (length (inorder r0))) (S h) ks1 ks2 cs1 c cs2 t ip n' w ip' →
  leaf_ c = false → good h r0 →
  parent_with (S h) t (length ks1 + length ks2) (sizes (cs1 ++ c :: cs2) + node_size r0)
    (before cs1 ks1 ++ pre_at ip c ++ k :: inorder r0 ++ post_at ip c ++ after ks2 cs2)
    (insert_rebalanced n' (length ks1) w ip' k r0).
Proof.
  intros (ks1' & ks2' & cs1' & c' & cs2' & -> & Hk1 & Hc1 & H2 & Hn & Hroom & Hlc & Hmax & Hocc
    & Hip & Hsz & Hpre & Hpost) Hl Hr0.
  unfold insert_rebalanced. rewrite Child_middle, SetChild_eq, (TreeCount_good h r0 Hr0) by done.
  set (R := Z.of_nat (length (inorder r0))) in *. rewrite <-Hn.
  assert (Hins : ∀ e, wfe e (S h) c' → ∀ d, u32 (e - 1 - R + d) = u32 0 →
    let c'' := IncreaseTreeCount d (InnerInsert ip' k r0 c') in
    good (S h) c'' ∧ inorder c'' = pre_at ip' c' ++ k :: inorder r0 ++ post_at ip' c' ∧
    node_size c'' = node_size c' + node_size r0).
  { intros e Hwf d Hd. destruct (InnerInsert_spec e h c' ip' k r0) as (Hwi & Hli & Hni & Hini & Hsi);
      [done|congruence|done..|].
    cbv zeta. rewrite inorder_IncreaseTreeCount, node_size_IncreaseTreeCount. split; [|done].
    eapply good_grow; [exact Hocc| |exact Hni|by apply IncreaseTreeCount_spec|done]. simpl. congruence. }
  destruct Hroom as [cs1' c' cs2' Hw HF1 Hc HF2|cs1' c' o cs2' Hw HF1 Hc Ho Hoc HF2
    |cs1' o c' cs2' Hw HF1 Ho Hoc Hc HF2].
  - destruct (Hins _ Hc 1%Z) as (Hg & Hini & Hsi); [f_equal; lia|].
    rewrite Hw, Nat.eqb_refl, Child_middle, SetChild_eq by lia.
    apply parent_with_child; try done; [lia| |].
    + rewrite Hini. by apply around_insert.
    + rewrite <-Hsz. sizes_lia.
  - destruct (Hins _ Hc (u32 R + 1)%Z) as (Hg & Hini & Hsi);
      [autorewrite with astra_arith; f_equal; lia|].
    rewrite (proj2 (Nat.eqb_neq w (length ks1))) by lia.
    rewrite Child_middle2, SetChild_eq2, Child_middle, SetChild_eq by lia.
    apply parent_with_child; try done; try (simpl in *; lia).
    + constructor; [|done]. split; [|done]. apply wf_wfe.
      eapply wfe_cong, IncreaseTreeCount_spec, Ho. autorewrite with astra_arith.
      f_equal. lia.
    + rewrite Hini. apply around_insert; [done|]. destruct ks2'; [done|].
      by rewrite after_cons, inorder_IncreaseTreeCount in *.
    + rewrite <-Hsz, !sizes_app, !sizes_cons, !node_size_IncreaseTreeCount in *. lia.
  - rewrite length_app in Hc1. simpl in Hc1.
    destruct (Hins _ Hc (u32 R + 1)%Z) as (Hg & Hini & Hsi);
      [autorewrite with astra_arith; f_equal; lia|].
    rewrite (proj2 (Nat.eqb_neq w (length ks1))) by lia.
    rewrite <-!(app_assoc cs1' [_]). cbn [app].
    rewrite Child_middle, SetChild_eq, Child_middle2, SetChild_eq2 by lia.
    rewrite (cons_middle _ cs1'), (app_assoc cs1').
    apply parent_with_child; rewrite ?length_app; try done; try (simpl in *; lia).
    + apply Forall_app. split; [done|]. constructor; [|done]. split; [|done]. apply wf_wfe.
      eapply wfe_cong, IncreaseTreeCount_spec, Ho. autorewrite with astra_arith. f_equal. lia.
    + rewrite Hini. apply around_insert; [|done]. destruct ks1' as [|k1 ks1' _] using rev_ind;
        [simpl in *; lia|].
      rewrite length_app in Hk1. simpl in Hk1.
      by rewrite before_snoc, inorder_IncreaseTreeCount in * by lia.
    + rewrite <-Hsz, !sizes_app, !sizes_cons, !node_size_IncreaseTreeCount in *. sizes_lia.
Qed.

Lemma finish_parent H h m n pos p xs sz n' :
  ctx_ok H h m ((n, pos) :: p) → parent_with h (tree_count_ n) (NumItems n) sz xs n' →
  length xs = m + length (pre_child pos n) + length (post_child pos n) + 1 →
  let r := IncreaseSubtreeCounts 1 (IncreaseTreeCount 1 n') p in
  root_ok H r ∧ inorder r = ctx_pre p ++ xs ++ ctx_post p ∧ node_size r = ctx_size p + S sz.
Proof.
  intros (Hf & Hocc & Hctx) (ks & cs & -> & Hk & Hc & HF & Hin & Hsz) Hlen.
  destruct Hf as (ks1 & ks2 & cs1 & c & cs2 & -> & Hk1 & Hc1 & H2 & HF1 & HF2 & Hn & Hmax).
  rewrite pre_child_eq, post_child_eq in Hlen, Hctx by done.
  unfold NumItems in Hk, Hc. cbn [keys_ tree_count_] in *.
  set (n' := IncreaseTreeCount 1 (Node _ _ _ _)).
  assert (Hin' : inorder n' = xs) by (rewrite inorder_content; exact Hin).
  assert (Hwf : wf (S h) n').
  { apply wf_wfe. unfold n', IncreaseTreeCount. cbn [leaf_ keys_ children_].
    apply wfe_inner. rewrite Hin, Hk. split_and!; try done.
    unfold GetInnerTreeCount. simpl. rewrite u32_add_l. f_equal. lia. }
  edestruct (IncreaseSubtreeCounts_ok 1 H (S h) _ p n' Hctx Hwf) as (Hr & Hinr & Hszr).
  - unfold NumItems, n'. simpl. lia.
  - intros Hne. specialize (Hocc Hne). rewrite occupied_cap in *. unfold NumItems, n' in *.
    cbn [leaf_ keys_ IncreaseTreeCount] in *. lia.
  - rewrite Hin'. lia.
  - rewrite Hin' in Hinr. split_and!; try done; [apply Hr..|]. rewrite Hszr, (node_size_eq n').
    simpl. lia.
Qed.

(** ** Propagating a split *)

Definition grown_ok (H : nat) p (xs : list K) (sz : nat) (created : Z) (g : Grown K) : Prop :=
  root_ok (H + Z.to_nat (levels g)) (new_root g) ∧ (0 ≤ levels g)%Z ∧
  inorder (new_root g) = ctx_pre p ++ xs ++ ctx_post p ∧
  Z.of_nat (node_size (new_root g)) = (Z.of_nat (ctx_size p + sz) + (nodes g - created))%Z.

Lemma grow_root_ok h child r0 k created :
  good h child → good h r0 →
  grown_ok h [] (inorder child ++ k :: inorder r0) (node_size child + node_size r0) created
    (grow_root child r0 k created).
Proof.
  intros Hc Hr. unfold grown_ok, grow_root. cbn [new_root levels nodes].
  assert (Hin : ∀ t, inorder (Node false [k] [child; r0] t) = inorder child ++ k :: inorder r0).
  { intros t. simpl. unfold after. simpl. by rewrite app_nil_r. }
  rewrite !Hin. simpl ctx_pre. simpl ctx_post. rewrite app_nil_r, (TreeCount_good h child Hc), (TreeCount_good h r0 Hr).
  split_and!; try done.
  - split; [|unfold NumItems; simpl; lia]. rewrite Nat.add_1_r. apply wf_wfe, wfe_inner.
    simpl. split_and!; try done; [pose proof (cap_bound false); simpl in *; lia|by rewrite !Forall_cons|].
    autorewrite with astra_arith. unfold after. simpl. rewrite !length_app. simpl.
    rewrite app_nil_r. f_equal. lia.
  - simpl. lia.
Qed.

(** The gap after child [pos] of a frame, with [child] in the hole. *)
Lemma frame_gap h m n pos child :
  frame_ok h m n pos → good h child →
  let n' := SetChild pos child n in
  wfe (Z.of_nat m - Z.of_nat (length (inorder child))) (S h) n' ∧
  leaf_ n' = false ∧ NumItems n' = NumItems n ∧ tree_count_ n' = tree_count_ n ∧
  pos ≤ NumItems n' ∧ pre_at pos n' = pre_child pos n ++ inorder child ∧
  post_at pos n' = post_child pos n ∧ node_size n' = frame_size n pos + node_size child.
Proof.
  intros (ks1 & ks2 & cs1 & c & cs2 & -> & <- & Hc & H2 & HF1 & HF2 & Hn & Hmax) Hch.
  rewrite SetChild_eq, pre_child_eq, post_child_eq, frame_size_eq by done. cbv zeta.
  unfold pre_at, post_at. cbn [leaf_ keys_ children_ tree_count_].
  rewrite wfe_inner, content_child, !length_app by lia.
  rewrite take_app_length, drop_app_length.
  rewrite drop_S_middle, (cons_middle child), (app_assoc cs1) by done.
  rewrite (take_app_length' (cs1 ++ [child])) by (rewrite length_app; simpl; lia).
  rewrite before_after by lia. unfold NumItems. cbn [keys_]. rewrite length_app.
  split_and!; try done; try (rewrite ?length_app in *; simpl; lia).
  - rewrite <-app_assoc. by apply Forall_app; split; [|constructor].
  - f_equal. lia.
  - rewrite node_size_eq. simpl. sizes_lia.
Qed.

(** Terminal case of the loop: the node has a free slot. *)
Lemma insert_free_ok H h m node pos p child r0 k created :
  ctx_ok H h m ((node, pos) :: p) → good h child → good h r0 →
  length (inorder child) + length (inorder r0) = m →
  NumItems (SetChild pos child node) < kMaxInnerKeys →
  grown_ok H ((node, pos) :: p) (inorder child ++ k :: inorder r0)
    (node_size child + node_size r0) created
    {| new_root := IncreaseSubtreeCounts 1
         (IncreaseTreeCount 1 (InnerInsert pos k r0 (SetChild pos child node))) p;
       levels := 0; nodes := created |}.
Proof.
  intros (Hf & Hocc & Hctx) Hc Hr Hlen Hfree.
  destruct (frame_gap h m node pos child Hf Hc) as (Hwf & Hl & Hni & Ht & Hpos & Hpre & Hpost & Hsz).
  set (n' := SetChild pos child node) in *.
  assert (Hmax : NumItems n' < MaxItems n') by (unfold MaxItems, IsLeaf; by rewrite Hl).
  destruct (InnerInsert_spec _ h n' pos k r0 Hwf Hl Hmax Hpos Hr) as (Hwi & Hli & Hni' & Hini & Hsi).
  apply (IncreaseTreeCount_spec _ 1) in Hwi.
  apply (wfe_cong _ 0) in Hwi; [|f_equal; lia].
  edestruct (IncreaseSubtreeCounts_ok 1 H (S h) _ p _ Hctx (proj2 (wf_wfe _ _) Hwi)) as (Hro & Hinr & Hszr).
  - rewrite NumItems_IncreaseTreeCount. lia.
  - intros Hne. specialize (Hocc Hne). assert (Hln : leaf_ node = false) by exact Hl.
    rewrite occupied_cap in *. cbn [leaf_ IncreaseTreeCount].
    rewrite Hli, NumItems_IncreaseTreeCount. rewrite Hln in Hocc. lia.
  - rewrite inorder_IncreaseTreeCount, Hini, Hpre, Hpost, !length_app. simpl. rewrite length_app. lia.
  - rewrite inorder_IncreaseTreeCount, Hini, Hpre, Hpost in Hinr.
    rewrite node_size_IncreaseTreeCount in Hszr.
    unfold grown_ok. cbn [new_root levels nodes]. rewrite Nat.add_0_r.
    split; [done|]. split; [done|]. simpl. split; [|lia].
    rewrite Hinr, <-!app_assoc. simpl. by rewrite <-!app_assoc.
Qed.

(** The node is full, but its parent can make room. *)
Lemma insert_rebalance_ok H h m node pos parent ppos p child r0 k created parent' w i :
  ctx_ok H h m ((node, pos) :: (parent, ppos) :: p) → good h child → good h r0 →
  length (inorder child) + length (inorder r0) = m →
  kMaxInnerKeys ≤ NumItems (SetChild pos child node) →
  RebalanceChild ppos pos (SetChild ppos (SetChild pos child node) parent) = Some (parent', w, i) →
  grown_ok H ((node, pos) :: (parent, ppos) :: p) (inorder child ++ k :: inorder r0)
    (node_size child + node_size r0) created
    {| new_root := IncreaseSubtreeCounts 1
         (IncreaseTreeCount 1 (insert_rebalanced parent' ppos w i k r0)) p;
       levels := 0; nodes := created |}.
Proof.
  intros (Hf & Hocc & Hctx) Hc Hr Hlen Hfull Hreb.
  destruct (frame_gap h m node pos child Hf Hc) as (Hwf & Hl & Hni & Ht & Hpos & Hpre & Hpost & Hsz).
  set (n' := SetChild pos child node) in *.
  assert (Hmax : NumItems n' = MaxItems n').
  { apply wfe_max in Hwf. unfold MaxItems, IsLeaf in *. rewrite Hl in *. lia. }
  replace (Z.of_nat m - Z.of_nat (length (inorder child)))%Z with (Z.of_nat (length (inorder r0)))
    in Hwf by lia.
  assert (Hctx' := Hctx). destruct Hctx' as (Hfp & _ & _).
  destruct Hfp as (ks1 & ks2 & cs1 & c & cs2 & -> & <- & Hc1 & H2 & HF1 & HF2 & Hn & Hmaxp).
  rewrite SetChild_eq in Hreb by done.
  apply (RebalanceChild_spec (Z.of_nat (length (inorder r0))) (S h)) in Hreb; try done.
  apply (room_insert_inner h _ _ _ _ _ _ _ _ _ _ k r0) in Hreb; try done.
  rewrite <-length_app, Hpre, Hpost in Hreb.
  eapply finish_parent in Hctx as (Hro & Hinr & Hszr); [|exact Hreb|].
  - unfold grown_ok. cbn [new_root levels nodes]. rewrite Nat.add_0_r.
    split; [done|]. split; [done|]. cbn [ctx_pre ctx_post ctx_size].
    rewrite pre_child_eq, post_child_eq, frame_size_eq by done. split.
    + rewrite Hinr, <-!app_assoc. cbn [app]. by rewrite <-!app_assoc.
    + rewrite Hszr. sizes_lia.
  - rewrite pre_child_eq, post_child_eq by done. rewrite !length_app. simpl.
    rewrite !length_app. lia.
Qed.

Lemma propagate_split_ok H h m p child r0 k created :
  ctx_ok H h m p → good h child → good h r0 →
  length (inorder child) + length (inorder r0) = m →
  grown_ok H p (inorder child ++ k :: inorder r0) (node_size child + node_size r0) created
    (propagate_split child r0 k p created).
Proof.
  revert h m child r0 k created. induction p as [|[node pos] p IH]; intros h m child r0 k created.
  { simpl. intros -> Hc Hr _. by apply grow_root_ok. }
  intros Hctx Hc Hr Hlen. cbn [propagate_split].
  destruct (_ <? _) eqn:Efree; b2p; [by eapply insert_free_ok|].
  assert (Hsplit : grown_ok H ((node, pos) :: p) (inorder child ++ k :: inorder r0)
    (node_size child + node_size r0) created
    (let '(l, r, m) := split_inner (SetChild pos child node) pos k r0 in
     propagate_split l r m p (created + 1))).
  { destruct Hctx as (Hf & Hocc & Hctx).
    destruct (frame_gap h m node pos child Hf Hc) as (Hwf & Hl & Hni & Ht & Hpos & Hpre & Hpost & Hsz).
    set (n' := SetChild pos child node) in *.
    assert (Hmax : NumItems n' = MaxItems n').
    { apply wfe_max in Hwf. unfold MaxItems, IsLeaf in *. rewrite Hl in *. lia. }
    apply (wfe_cong _ (Z.of_nat (length (inorder r0)))) in Hwf; [|f_equal; lia].
    destruct (split_inner_ok h n' pos k r0 Hwf Hl Hmax Hpos Hr) as (l & r & md & -> & Hgl & Hgr & Hin & Hsz').
    rewrite Hpre, Hpost in Hin. assert (Hlen' := f_equal length Hin).
    rewrite !length_app in Hlen'. simpl in Hlen'. rewrite !length_app in Hlen'.
    destruct (IH (S h) _ l r md (created + 1)%Z Hctx Hgl Hgr) as (Hro & Hlv & Hinr & Hszr); [lia|].
    split; [done|]. split; [done|]. cbn [ctx_pre ctx_post ctx_size]. split; [|lia].
    rewrite Hinr, Hin, <-!app_assoc. cbn [app]. by rewrite <-!app_assoc. }
  destruct p as [|[parent ppos] p]; [done|].
  destruct (RebalanceChild _ _ _) as [[[parent' w] i]|] eqn:Ereb; [|done].
  by eapply insert_rebalance_ok.
Qed.

(** ** Inserting at the gap of a leaf *)

Lemma grown_ok_content H p xs xs' sz sz' created g :
  grown_ok H p xs sz created g → xs = xs' → sz = S sz' → grown_ok H p xs' sz' (created - 1) g.
Proof. intros (H1 & H2 & H3 & H4) <- ->. split_and!; try done; [apply H1..|lia]. Qed.

Lemma InsertToFullLeaf_ok H root leaf pos p x :
  located H root 1 leaf p → leaf_ leaf = true → NumItems leaf = kMaxLeafKeys →
  pos ≤ NumItems leaf →
  grown_ok H p (pre_at pos leaf ++ x :: post_at pos leaf) (node_size leaf) 0
    (InsertToFullLeaf x leaf pos p).
Proof.
  intros (Hwf & Hpos & Hocc & Hctx & Hin & Hsz & Hlink) Hl Hfull Hi.
  assert (Hmax : NumItems leaf = MaxItems leaf) by (unfold MaxItems, IsLeaf; by rewrite Hl).
  assert (Hlen : length (inorder leaf) = length (pre_at pos leaf) + length (post_at pos leaf)).
  { rewrite (pre_post_at 1 leaf pos), length_app; try done. by eapply part_node, wf_wfe. }
  assert (Hsplit : grown_ok H p (pre_at pos leaf ++ x :: post_at pos leaf) (node_size leaf) 0
    (let '(l, r, m) := split_leaf leaf pos x in propagate_split l r m p 1)).
  { destruct (split_leaf_ok 1 leaf pos x Hwf Hl Hmax Hi) as (l & r & md & -> & Hgl & Hgr & Hin' & Hsz').
    assert (Hlen' := f_equal length Hin'). rewrite !length_app in Hlen'. simpl in Hlen'.
    eapply (grown_ok_content _ _ _ _ _ _ 1); [|exact Hin'|exact Hsz'].
    eapply propagate_split_ok; try done. lia. }
  unfold InsertToFullLeaf. destruct p as [|[parent ppos] p]; [done|].
  unfold RebalanceLeafAndInsert.
  destruct (RebalanceChild _ _ _) as [[[parent' w] i]|] eqn:Ereb; [|done].
  assert (Hctx' := Hctx). destruct Hctx' as (Hfp & _ & _).
  destruct Hfp as (ks1 & ks2 & cs1 & c & cs2 & -> & <- & Hc1 & H2 & HF1 & HF2 & Hn & Hmaxp).
  destruct Hlink as [Hlink _]. rewrite Child_middle in Hlink by done. subst c.
  apply (RebalanceChild_spec 0 1) in Ereb; try done.
  apply (room_insert_leaf 1 _ _ _ _ _ _ _ _ _ _ x) in Ereb; try done.
  rewrite <-(length_app ks1 ks2) in Ereb.
  eapply finish_parent in Hctx as (Hro & Hinr & Hszr); [|exact Ereb|].
  - unfold grown_ok. cbn [new_root levels nodes]. rewrite Nat.add_0_r.
    split; [done|]. split; [done|]. cbn [ctx_pre ctx_post ctx_size].
    rewrite pre_child_eq, post_child_eq, frame_size_eq by done. split.
    + rewrite Hinr, <-!app_assoc. cbn [app]. by rewrite <-!app_assoc.
    + rewrite Hszr. sizes_lia.
  - rewrite pre_child_eq, post_child_eq by done. rewrite !length_app. simpl.
    rewrite !length_app. lia.
Qed.

Lemma insert_at_ok H root leaf pos p x :
  located H root 1 leaf p → leaf_ leaf = true → pos ≤ NumItems leaf →
  grown_ok H p (pre_at pos leaf ++ x :: post_at pos leaf) (node_size leaf) 0
    (if NumItems leaf =? kMaxLeafKeys then InsertToFullLeaf x leaf pos p
     else {| new_root := IncreaseSubtreeCounts 1 (LeafInsert pos x leaf) p; levels := 0; nodes := 0 |}).
Proof.
  intros Hloc Hl Hi. destruct (_ =? _) eqn:E; b2p; [by eapply InsertToFullLeaf_ok|].
  destruct Hloc as (Hwf & Hpos & Hocc & Hctx & Hin & Hsz & Hlink).
  assert (Hmax : NumItems leaf < MaxItems leaf).
  { assert (Hw := proj1 (wf_wfe _ _) Hwf). apply wfe_max in Hw. unfold MaxItems, IsLeaf in *.
    rewrite Hl in *. lia. }
  destruct (LeafInsert_spec 1 leaf pos x) as (Hwi & Hli & Hni & Hini & Hsi); [done..|].
  assert (Hlen := f_equal length (pre_post_at 1 leaf pos (part_node _ _ _ (proj1 (wf_wfe _ _) Hwf)) Hi)).
  rewrite length_app in Hlen.
  destruct (IncreaseSubtreeCounts_ok 1 H 1 _ p (LeafInsert pos x leaf) Hctx Hwi) as (Hro & Hinr & Hszr).
  - lia.
  - intros Hne. apply (occupied_grow leaf); [auto|congruence|done].
  - rewrite Hini, length_app. simpl. lia.
  - unfold grown_ok. cbn [new_root levels nodes]. rewrite Nat.add_0_r, Hinr, Hini, Hszr, Hsi.
    split_and!; try done; [apply Hro..|lia].
Qed.
End Insert.
