(* ===== verification/BPTreeDelete.v ===== *)
(** * B+ tree: deletion

    The fix-up loop of [Delete(path)], the replacement of an inner key by its
    predecessor, and the deletion of the key a path points to. *)
From S2P Require Import Prelude.
From S2P Require Import BPTreeNode.
From S2P Require Import BPTreeWf.
From S2P Require Import BPTreeMoves.
From S2P Require Import BPTreeRebalance.
From S2P Require Import BPTree.
From S2P Require Import BPTreeSearch.
From S2P Require Import BPTreeInsert.

Section Delete.
Context {K : Type} {HK : Inhabited K} {HL : BPNodeLayout} {HLok : LayoutOk}.
Implicit Types (n c node : BPTreeNode K) (cs : list (BPTreeNode K)) (ks : list K)
  (p : BPTreePath K) (k x : K).

(** What is left of a tree of height [H] once the contents are [xs], with
    [sz] nodes before the loop started and [destroyed] nodes counted so far. *)
Definition shrunk_ok (H : nat) (xs : list K) (sz : nat) (destroyed : Z) (s : Shrunk K) : Prop :=
  (0 ≤ shrunk_levels s ≤ Z.of_nat H)%Z ∧
  match shrunk_root s with
  | Some r =>
      root_ok (H - Z.to_nat (shrunk_levels s)) r ∧ inorder r = xs ∧
      (Z.of_nat (node_size r) + (retired s - destroyed) = Z.of_nat sz)%Z
  | None =>
      xs = [] ∧ shrunk_levels s = Z.of_nat H ∧ (retired s - destroyed = Z.of_nat sz)%Z
  end.

Lemma min_occupied n : MinItems n ≤ NumItems n → occupied n ∧ 0 < NumItems n.
Proof.
  rewrite MinItems_cap, occupied_cap. pose proof (cap_bound (leaf_ n)).
  pose proof (Nat.div_mod_eq (cap (leaf_ n)) 2). pose proof (Nat.mod_upper_bound (cap (leaf_ n)) 2).
  pose proof (Nat.div_mod_eq (cap (leaf_ n) - 1) 2). lia.
Qed.

Lemma counts_shrunk H h m p node destroyed :
  ctx_ok H h m p → wf h node → 0 < NumItems node → (p ≠ [] → occupied node) →
  length (inorder node) + 1 = m →
  shrunk_ok H (ctx_pre p ++ inorder node ++ ctx_post p) (ctx_size p + node_size node) destroyed
    {| shrunk_root := Some (IncreaseSubtreeCounts (-1) node p); shrunk_levels := 0;
       retired := destroyed |}.
Proof.
  intros Hctx Hwf Hpos Hocc Hlen.
  destruct (IncreaseSubtreeCounts_ok (-1) H h m p node) as (Hro & Hin & Hsz); try done; [lia|].
  split; [simpl; lia|]. cbn [shrunk_root shrunk_levels retired]. rewrite Nat.sub_0_r.
  split; [done|]. split; [done|]. lia.
Qed.

Lemma root_shrunk h node destroyed :
  wf h node → NumItems node = 0 →
  shrunk_ok h (inorder node) (node_size node) destroyed
    {| shrunk_root := if IsLeaf node then None else Some (Child 0 node);
       shrunk_levels := 1; retired := destroyed + 1 |}.
Proof.
  rewrite wf_wfe. destruct node as [leaf ks cs t]. unfold NumItems. simpl. intros Hwf Hks.
  destruct ks; [|done]. destruct leaf.
  - apply wfe_leaf in Hwf as (-> & -> & _). split; [simpl; lia|]. simpl. split_and!; try done. lia.
  - destruct h as [|h]; [done|]. apply wfe_inner in Hwf as (_ & Hlen & HF & _).
    destruct cs as [|c [|? ?]]; try done. rewrite Forall_singleton in HF. destruct HF as [Hwf Hocc].
    split; [simpl; lia|]. cbn [shrunk_root shrunk_levels retired].
    unfold Child, IsLeaf. simpl. rewrite Nat.sub_0_r, app_nil_r.
    split_and!; try done; [by split; [|apply occupied_pos]|lia].
Qed.

(** A refilled parent, with its counter adjusted, is well-formed again. *)
Lemma refilled_parent h m n pos node res :
  frame_ok h m n pos → length (inorder node) + 1 = m →
  refilled h (keys_ (SetChild pos node n)) (children_ (SetChild pos node n)) (tree_count_ n) res →
  let n' := IncreaseTreeCount (-1) res.1 in
  wf (S h) n' ∧ leaf_ n' = false ∧
  NumItems n = NumItems n' + (if res.2 then 1 else 0) ∧
  inorder n' = pre_child pos n ++ inorder node ++ post_child pos n ∧
  node_size n' + (if res.2 then 1 else 0) = frame_size n pos + node_size node.
Proof.
  intros (ks1 & ks2 & cs1 & c & cs2 & -> & <- & Hc & H2 & HF1 & HF2 & Hn & Hmax) Hlen.
  rewrite SetChild_eq, pre_child_eq, post_child_eq, frame_size_eq by done.
  cbn [keys_ children_ tree_count_].
  intros (ks' & cs' & -> & Hk & Hc' & HF & Hsz & Hin). rewrite content_child in Hin by lia. cbv zeta.
  rewrite inorder_IncreaseTreeCount, node_size_IncreaseTreeCount, NumItems_IncreaseTreeCount.
  rewrite inorder_content, node_size_eq, wf_wfe. unfold IncreaseTreeCount, NumItems.
  cbn [leaf_ keys_ children_ GetInnerTreeCount tree_count_]. rewrite wfe_inner, Hin.
  rewrite sizes_app, sizes_cons in Hsz. split_and!; try done; try lia.
  rewrite u32_add_l, !length_app. f_equal. lia.
Qed.

Lemma delete_fixup_ok H h m p node destroyed :
  ctx_ok H h m p → wf h node → length (inorder node) + 1 = m →
  shrunk_ok H (ctx_pre p ++ inorder node ++ ctx_post p) (ctx_size p + node_size node) destroyed
    (delete_fixup node p destroyed).
Proof.
  revert h m node destroyed. induction p as [|[parent pos] p IH]; intros h m node destroyed Hctx Hwf Hlen.
  - simpl. destruct (_ <? _) eqn:E; b2p.
    + simpl in Hctx. subst H. rewrite app_nil_r. destruct (_ =? 0) eqn:E0; b2p.
      * by apply root_shrunk.
      * split; [simpl; lia|]. cbn [shrunk_root shrunk_levels retired]. rewrite Nat.sub_0_r.
        split_and!; try done; try lia. split; [done|lia].
    + destruct (min_occupied node E) as [Hocc Hpos]. by eapply (counts_shrunk H h m []).
  - cbn [delete_fixup]. destruct (_ <? _) eqn:E; b2p.
    2: { destruct (min_occupied node E) as [Hocc Hpos]. by eapply counts_shrunk. }
    destruct Hctx as (Hf & Hocc & Hctx). assert (Hf' := Hf).
    destruct Hf' as (ks1 & ks2 & cs1 & c & cs2 & -> & <- & Hc & H2 & HF1 & HF2 & Hn & Hmax).
    set (t := u32 _) in *.
    assert (Href : refilled h (ks1 ++ ks2) (cs1 ++ node :: cs2) t
      (MergeOrRebalanceChild (length ks1) (SetChild (length ks1) node
         (Node false (ks1 ++ ks2) (cs1 ++ c :: cs2) t)))).
    { rewrite SetChild_eq by done. apply MergeOrRebalanceChild_spec; try done.
      rewrite length_app in Hn. lia. }
    set (n := Node false _ _ _) in *.
    destruct (MergeOrRebalanceChild _ _) as [n' b] eqn:Em.
    destruct (refilled_parent h m n (length ks1) node (n', b)) as (Hwf' & Hl' & Hni & Hin & Hsz);
      [done..|unfold n; rewrite SetChild_eq by done; done|]. cbn [fst snd] in *.
    assert (Hlen' : length (inorder (IncreaseTreeCount (-1) n')) + 1
      = m + length (pre_child (length ks1) n) + length (post_child (length ks1) n)).
    { rewrite Hin, !length_app. lia. }
    assert (Hxs : ctx_pre p ++ inorder (IncreaseTreeCount (-1) n') ++ ctx_post p
      = ctx_pre ((n, length ks1) :: p) ++ inorder node ++ ctx_post ((n, length ks1) :: p)).
    { rewrite Hin. simpl. by rewrite <-!app_assoc. }
    rewrite <-Hxs. cbn [ctx_size]. destruct b.
    + destruct (IH (S h) _ (IncreaseTreeCount (-1) n') (destroyed + 1)%Z Hctx Hwf' Hlen') as [Hlv Hres].
      split; [done|]. destruct (shrunk_root _); destruct Hres as (? & ? & ?); (split; [done|]); (split; [done|]); lia.
    + replace (ctx_size p + frame_size n (length ks1) + node_size node)
        with (ctx_size p + node_size (IncreaseTreeCount (-1) n')) by lia.
      rewrite Nat.add_0_r in Hni. eapply counts_shrunk; try done.
      * rewrite <-Hni. unfold NumItems, n. simpl. lia.
      * intros Hne. specialize (Hocc Hne). rewrite occupied_cap in *. by rewrite Hl', <-Hni.
Qed.

(** ** Digging for the predecessor *)

(** [DigRight] ends at the last key of the subtree, whatever is above it. *)
Definition dug_ok (h : nat) n (leaf : BPTreeNode K) (fs : BPTreePath K) : Prop :=
  good 1 leaf ∧ leaf_ leaf = true ∧
  ∀ H p, p ≠ [] → ctx_ok H h (length (inorder n)) p →
    ctx_ok H 1 (length (inorder leaf)) (fs ++ p) ∧
    ctx_pre (fs ++ p) ++ inorder leaf = ctx_pre p ++ inorder n ∧
    ctx_post (fs ++ p) = ctx_post p ∧
    ctx_size (fs ++ p) + node_size leaf = ctx_size p + node_size n.

Lemma dig_right_ok fuel h n :
  good h n → h ≤ fuel →
  ∃ leaf fs, dig_right fuel n [] = (leaf, NumItems leaf - 1) :: fs ∧ dug_ok h n leaf fs.
Proof.
  revert h n. induction fuel as [|fuel IH]; intros h n [Hwf Hocc] Hf.
  { destruct h; [done|lia]. }
  simpl. unfold IsLeaf. destruct (leaf_ n) eqn:Hl.
  - exists n, []. split; [done|]. destruct n as [leaf ks cs t]. simpl in Hl. subst leaf.
    assert (h = 1) as -> by (by apply wf_wfe, wfe_leaf in Hwf as [-> _]).
    split; [by split|]. split; [done|]. intros H p Hne Hctx. done.
  - destruct h as [|h]; [done|]. assert (Hpos := occupied_pos n Hocc).
    destruct (child_frame h n (NumItems n)) as (Hf' & Hg & Hs & Hin); [done..|].
    destruct (IH h (Child (NumItems n) n) Hg) as (leaf & fs & Heq & Hgl & Hll & Hdug); [lia|].
    exists leaf, (fs ++ [(n, NumItems n)]). rewrite dig_right_app, Heq. split; [done|].
    split; [done|]. split; [done|]. intros H p Hne Hctx. rewrite <-app_assoc. cbn [app].
    destruct (child_ctx H h n (NumItems n) p) as (Hctx' & _ & Hsz' & Hin'); [done..|].
    destruct (Hdug H ((n, NumItems n) :: p)) as (H1 & H2 & H3 & H4); [done..|].
    rewrite H2, H3. cbn [ctx_pre ctx_post ctx_size] in *.
    rewrite (post_child_end 0 (S h)) in * by (done || by apply wf_wfe).
    rewrite app_nil_r in Hin. split_and!; try done; try lia.
    by rewrite Hin, app_assoc.
Qed.

(** ** Deleting the key a path points to *)

Lemma delete_leaf_ok H root h n p i :
  located H root h n p → leaf_ n = true → i < NumItems n →
  ∃ l1 l2, inorder root = l1 ++ Key i n :: l2 ∧
    shrunk_ok H (l1 ++ l2) (node_size root) 0 (delete_fixup (ShiftLeft i false n) p 0).
Proof.
  intros (Hwf & Hpos & Hocc & Hctx & Hin & Hsz & _) Hl Hi.
  destruct n as [leaf ks cs t]. simpl in Hl. subst leaf.
  assert (Hw := Hwf). apply wf_wfe, wfe_leaf in Hw as (-> & -> & Hmax).
  destruct (list_split_at ks i Hi) as (k1 & k & k2 & -> & Hk). rewrite Key_middle by done.
  rewrite ShiftLeft_leaf by done. rewrite length_app in Hmax. simpl in Hmax.
  exists (ctx_pre p ++ k1), (k2 ++ ctx_post p). split; [by rewrite <-Hin; simpl; rewrite <-!app_assoc|].
  replace ((ctx_pre p ++ k1) ++ k2 ++ ctx_post p)
    with (ctx_pre p ++ inorder (Node true (k1 ++ k2) [] t) ++ ctx_post p)
    by (simpl; by rewrite <-!app_assoc).
  rewrite <-Hsz.
  change (node_size (Node true (k1 ++ k :: k2) [] t)) with (node_size (Node true (k1 ++ k2) [] t)).
  eapply (delete_fixup_ok H 1); try done.
  - apply wf_wfe, wfe_leaf. rewrite length_app. split_and!; try done. lia.
  - simpl. rewrite !length_app. simpl. lia.
Qed.

(** Replacing a key of a frame keeps it a frame. *)
Lemma frame_SetKey h m n i k :
  frame_ok h m n i → i < NumItems n →
  frame_ok h m (SetKey i k n) i ∧ pre_child i (SetKey i k n) = pre_child i n ∧
  (∃ xs, post_child i n = Key i n :: xs ∧ post_child i (SetKey i k n) = k :: xs) ∧
  frame_size (SetKey i k n) i = frame_size n i ∧ (occupied n → occupied (SetKey i k n)).
Proof.
  intros (ks1 & ks2 & cs1 & c & cs2 & -> & <- & Hc & H2 & HF1 & HF2 & Hn & Hmax) Hi.
  unfold NumItems in Hi. simpl in Hi. rewrite length_app in Hi.
  destruct ks2 as [|k2 ks2]; [simpl in Hi; lia|]. destruct cs2 as [|c2 cs2]; [done|].
  assert (Hset : SetKey (length ks1) k (Node false (ks1 ++ k2 :: ks2) (cs1 ++ c :: c2 :: cs2)
     (u32 (Z.of_nat (m + length (before cs1 ks1) + length (after (k2 :: ks2) (c2 :: cs2))))))
    = Node false (ks1 ++ k :: ks2) (cs1 ++ c :: c2 :: cs2)
     (u32 (Z.of_nat (m + length (before cs1 ks1) + length (after (k :: ks2) (c2 :: cs2)))))).
  { unfold SetKey. simpl. by slots. }
  rewrite Hset, !pre_child_eq, !post_child_eq, !frame_size_eq, Key_middle by done.
  split_and!; try done.
  - exists ks1, (k :: ks2), cs1, c, (c2 :: cs2). rewrite length_app in *. split_and!; try done; simpl in *; lia.
  - exists (inorder c2 ++ after ks2 cs2). done.
  - rewrite !occupied_cap. unfold NumItems. simpl. rewrite !length_app. done.
Qed.

Lemma delete_inner_ok H root h n p i :
  located H root h n p → leaf_ n = false → i < NumItems n →
  ∃ l1 l2, inorder root = l1 ++ Key i n :: l2 ∧
    shrunk_ok H (l1 ++ l2) (node_size root) 0 (delete_at n i p).
Proof.
  intros Hloc Hl Hi. unfold delete_at, IsLeaf. rewrite Hl.
  destruct Hloc as (Hwf & Hpos & Hocc & Hctx & Hin & Hsz & _). destruct h as [|h]; [done|].
  destruct (child_frame h n i) as (Hf & Hg & Hs & Hin'); [done|done|done|lia|].
  rewrite (wf_height (S h)) by done.
  destruct (dig_right_ok (S h) h (Child i n) Hg) as (leaf & fs & -> & [Hlwf Hlocc] & Hll & Hdug); [lia|].
  cbn [Last fst Pop tail].
  set (k := Key (NumItems leaf - 1) leaf). set (n' := SetKey i k n).
  destruct (frame_SetKey h _ n i k Hf Hi) as (Hf' & Hpre & (xs & Hpost & Hpost') & Hfs & Hocc').
  fold n' in Hf', Hpre, Hpost', Hfs, Hocc'.
  assert (Hlen := f_equal length Hin'). rewrite Hpost, !length_app in Hlen. simpl in Hlen.
  destruct (Hdug H ((n', i) :: p)) as (H1 & H2 & H3 & H4); [done| |].
  { split; [done|]. split; [auto|]. rewrite Hpre, Hpost'. simpl.
    by replace (length (inorder (Child i n)) + length (pre_child i n) + S (length xs))
      with (length (inorder n)) by lia. }
  assert (Hleaf : inorder leaf = inorder (LeafEraseRight leaf) ++ [k]).
  { assert (Hlpos := occupied_pos leaf Hlocc). rewrite !inorder_content. simpl. rewrite Hll. simpl.
    unfold k. rewrite <-take_S_keys by lia. rewrite take_ge; [done|unfold NumItems; lia]. }
  cbn [ctx_pre ctx_post ctx_size] in *. rewrite Hpre, Hpost', Hfs in *.
  rewrite Hleaf, app_assoc in H2.
  exists ((ctx_pre p ++ pre_child i n) ++ inorder (Child i n)), (xs ++ ctx_post p).
  split; [by rewrite <-Hin, Hin', Hpost, <-!app_assoc|].
  assert (Hesz : node_size (LeafEraseRight leaf) = node_size leaf) by by rewrite !node_size_eq.
  replace (node_size root) with (ctx_size (fs ++ (n', i) :: p) + node_size (LeafEraseRight leaf)) by lia.
  replace (((ctx_pre p ++ pre_child i n) ++ inorder (Child i n)) ++ xs ++ ctx_post p)
    with (ctx_pre (fs ++ (n', i) :: p) ++ inorder (LeafEraseRight leaf) ++ ctx_post (fs ++ (n', i) :: p)).
  2: { rewrite H3, <-H2, <-!app_assoc. done. }
  eapply (delete_fixup_ok H 1); [exact H1| |].
  - destruct leaf as [lf lks lcs lt]. simpl in Hll. subst lf.
    apply wf_wfe, wfe_leaf in Hlwf as (_ & -> & Hmax). apply wf_wfe, wfe_leaf. split_and!; try done.
    rewrite length_take. simpl. lia.
  - rewrite Hleaf, length_app. done.
Qed.

Lemma delete_at_ok H root h n p i :
  located H root h n p → i < NumItems n →
  ∃ l1 l2, inorder root = l1 ++ Key i n :: l2 ∧
    shrunk_ok H (l1 ++ l2) (node_size root) 0 (delete_at n i p).
Proof.
  intros Hloc Hi. destruct (leaf_ n) eqn:Hl; [|by eapply delete_inner_ok].
  unfold delete_at, IsLeaf. rewrite Hl. by eapply delete_leaf_ok.
Qed.
End Delete.
