(* ===== verification/BPTreeRank.v ===== *)
(** * B+ tree: ranks and iteration

    A path points to an index of the in-order contents.  [Rank] computes that
    index from the subtree counters, [ToRank] goes the other way, [Next] and
    [Prev] move by one, and the iterations visit a slice of the contents. *)
From S2P Require Import Prelude.
From S2P Require Import BPTreeNode.
From S2P Require Import BPTreeWf.
From S2P Require Import BPTreeMoves.
From S2P Require Import BPTreeRebalance.
From S2P Require Import BPTree.
From S2P Require Import BPTreeSearch.

Section Rank.
Context {K : Type} {HK : Inhabited K} {HL : BPNodeLayout} {HLok : LayoutOk}.
Implicit Types (n m root : BPTreeNode K) (p : BPTreePath K).

(** [p] is at the gap before item [j] of [root], in a node it may enter. *)
Definition at_gap (H : nat) root (j : nat) p : Prop :=
  ∃ h n i q, p = (n, i) :: q ∧ located H root h n q ∧ i ≤ NumItems n ∧
    length (ctx_pre q ++ pre_at i n) = j.

(** [p] points to item [j] of [root]. *)
Definition points (H : nat) root (j : nat) p : Prop :=
  ∃ h n i q, p = (n, i) :: q ∧ located H root h n q ∧ i < NumItems n ∧
    length (ctx_pre q ++ pre_at i n) = j.

(** *** Gaps of a node *)

Lemma pre_at_leaf n i : leaf_ n = true → pre_at i n = take i (keys_ n).
Proof. intros Hl. unfold pre_at. by rewrite Hl. Qed.

Lemma inorder_leaf n : leaf_ n = true → inorder n = keys_ n.
Proof. intros Hl. rewrite inorder_content. by rewrite Hl. Qed.

(** In an inner node the gap before a key comes after the child on its left. *)
Lemma pre_at_inner e h n i :
  wfe e h n → leaf_ n = false → i ≤ NumItems n → pre_at i n = pre_child i n ++ inorder (Child i n).
Proof.
  intros Hwf Hl Hi. assert (Hlen := wfe_children _ _ _ Hwf Hl). unfold pre_at, pre_child. rewrite Hl.
  destruct (list_split_at (children_ n) i) as (cs1 & c & cs2 & Hc & Hl1); [lia|].
  unfold Child. rewrite Hc, lookup_total_middle by done. rewrite <-Hl1 at 3. rewrite take_app_length.
  rewrite (cons_middle c), app_assoc, take_app_length' by (rewrite length_app; simpl; lia).
  apply before_after. rewrite length_take. unfold NumItems in Hi. lia.
Qed.

(** A key sits right after its gap. *)
Lemma pre_at_S n i :
  i < NumItems n → ∀ e h, wfe e h n →
  ∃ xs, inorder n = pre_at i n ++ Key i n :: xs.
Proof.
  intros Hi e h Hwf. rewrite (pre_post_at h n i) by (lia || by eapply part_node).
  unfold post_at. rewrite (drop_keys n i Hi). destruct (leaf_ n) eqn:Hl; simpl; [by eexists|].
  assert (Hlen := wfe_children _ _ _ Hwf Hl). unfold NumItems in *.
  destruct (drop (S i) (children_ n)) as [|c cs] eqn:Hd.
  { apply (f_equal length) in Hd. rewrite length_drop in Hd. simpl in Hd. lia. }
  rewrite after_cons. by eexists.
Qed.

Lemma points_lookup H root j p :
  points H root j p → inorder root !! j = Some (Terminal p).
Proof.
  intros (h & n & i & q & -> & Hloc & Hi & <-). destruct Hloc as (Hwf & _ & _ & _ & Hin & _).
  destruct (pre_at_S n i Hi 0 h) as [xs Hn]; [by apply wf_wfe|].
  rewrite <-Hin, Hn, <-app_assoc, app_assoc. apply list_lookup_middle. done.
Qed.

Lemma points_lt H root j p : points H root j p → j < length (inorder root).
Proof. intros Hp%points_lookup. by eapply lookup_lt_Some. Qed.

(** ** Rank *)

Lemma good_children e h n :
  wfe e (S h) n → leaf_ n = false → Forall (good h) (children_ n).
Proof. intros (_ & _ & H) Hl. rewrite Hl in H. tauto. Qed.

Lemma length_before cs (ks : list K) :
  length cs = length ks → length (before cs ks) = length ks + sumlen cs.
Proof.
  revert ks. induction cs as [|c cs IH]; intros [|k ks] [=]; [done|].
  unfold before, sumlen in *. simpl. rewrite !length_app, IH by done. simpl. lia.
Qed.

Lemma rank_frame h n i rank :
  wf h n → leaf_ n = false → i ≤ NumItems n → in_u32 rank →
  rank_step false rank (n, i) = u32 (rank + Z.of_nat (length (pre_child i n))).
Proof.
  intros Hwf%wf_wfe Hl Hi Hr. assert (Hlen := wfe_children _ _ _ Hwf Hl).
  destruct h as [|h]; [done|]. assert (HF := good_children _ _ _ Hwf Hl).
  simpl. unfold IsLeaf. rewrite Hl, Nat.add_0_r.
  erewrite fold_TreeCount by (done || by apply Forall_take). unfold pre_child.
  unfold NumItems in *. rewrite length_before by (rewrite !length_take; lia).
  rewrite u32_add_l, length_take. f_equal. lia.
Qed.

Lemma rank_last h n i rank :
  wf h n → i < NumItems n → in_u32 rank →
  rank_step true rank (n, i) = u32 (rank + Z.of_nat (length (pre_at i n))).
Proof.
  intros Hwf%wf_wfe Hi Hr. simpl. unfold IsLeaf, NumItems in *. destruct (leaf_ n) eqn:Hl.
  - rewrite pre_at_leaf, length_take by done. f_equal. lia.
  - assert (Hlen := wfe_children _ _ _ Hwf Hl). unfold NumItems in *.
    destruct h as [|h]; [done|]. assert (HF := good_children _ _ _ Hwf Hl).
    erewrite fold_TreeCount by (done || by apply Forall_take).
    unfold pre_at. rewrite Hl, length_content by (rewrite !length_take; lia).
    rewrite Nat.add_1_r, u32_add_l, length_take. f_equal. lia.
Qed.

Lemma rank_frames H root h n p :
  located H root h n p →
  fold_left (rank_step false) (rev p) 0%Z = u32 (Z.of_nat (length (ctx_pre p))).
Proof.
  revert h n. induction p as [|[m pos] p IH]; intros h n Hloc; [done|].
  destruct (located_parent _ _ _ _ _ _ _ Hloc) as (Hloc' & Hl & Hpos & _).
  cbn [rev]. rewrite fold_left_app. cbn [fold_left ctx_pre]. rewrite (IH _ _ Hloc').
  rewrite (rank_frame (S h)) by (done || apply u32_range || apply Hloc').
  rewrite u32_add_l, length_app. f_equal. lia.
Qed.

Lemma Rank_points H root j p : points H root j p → Rank p = u32 (Z.of_nat j).
Proof.
  intros (h & n & i & q & -> & Hloc & Hi & <-). unfold Rank.
  rewrite (rank_frames H root h n q Hloc).
  rewrite (rank_last h) by (done || apply u32_range || apply Hloc).
  rewrite u32_add_l, length_app. f_equal. lia.
Qed.

(** ** Moving along the tree *)

Lemma dig_left_ok H root fuel h n p :
  located H root h n p → h ≤ fuel →
  points H root (length (ctx_pre p)) (dig_left fuel n p).
Proof.
  revert h n p. induction fuel as [|fuel IH]; intros h n p Hloc Hf; simpl.
  { destruct h; [by destruct Hloc|lia]. }
  unfold IsLeaf. destruct (leaf_ n) eqn:Hl.
  - exists h, n, 0, p. split; [done|]. split; [done|]. split; [apply Hloc|].
    rewrite pre_at_leaf by done. simpl. by rewrite app_nil_r.
  - destruct (located_child H root h n p 0) as (h' & -> & Hloc'); [done|done|lia|].
    assert (Hd := IH h' (Child 0 n) (Push n 0 p) Hloc' ltac:(lia)).
    simpl in Hd. by rewrite pre_child_0, app_nil_r in Hd.
Qed.

Lemma dig_right_points H root fuel h n p :
  located H root h n p → h ≤ fuel →
  points H root (length (ctx_pre p ++ inorder n) - 1) (dig_right fuel n p).
Proof.
  revert h n p. induction fuel as [|fuel IH]; intros h n p Hloc Hf; simpl.
  { destruct h; [by destruct Hloc|lia]. }
  unfold IsLeaf. destruct (leaf_ n) eqn:Hl.
  - assert (Hpos : 0 < NumItems n) by apply Hloc.
    exists h, n, (NumItems n - 1), p. split; [done|]. split; [done|]. split; [lia|].
    rewrite pre_at_leaf, inorder_leaf, !length_app, length_take by done. unfold NumItems in *. lia.
  - destruct (located_child H root h n p (NumItems n)) as (h' & -> & Hloc'); [done..|].
    assert (Hd := IH h' _ _ Hloc' ltac:(lia)). simpl in Hd.
    destruct Hloc as (Hwf & Hpos & _).
    destruct (child_frame h' n (NumItems n)) as (_ & _ & _ & Hin); [done..|].
    rewrite (post_child_end 0 (S h')), app_nil_r in Hin by (done || by apply wf_wfe).
    by rewrite <-app_assoc, <-Hin in Hd.
Qed.

(** Climbing out of exhausted nodes: the next key up, or the end. *)
Lemma pop_exhausted_ok H root h n p :
  located H root h n p →
  let j := length (ctx_pre p ++ inorder n) in
  if j <? length (inorder root) then points H root j (pop_exhausted p) else pop_exhausted p = [].
Proof.
  revert h n. induction p as [|[m pos] p IH]; intros h n Hloc; cbv zeta.
  { destruct Hloc as (_ & _ & _ & _ & Hin & _). simpl in *. rewrite app_nil_r in Hin.
    rewrite Hin, Nat.ltb_irrefl. done. }
  destruct (located_parent _ _ _ _ _ _ _ Hloc) as (Hloc' & Hl & Hpos & Hch). simpl.
  assert (Hw : wfe 0 (S h) m) by (apply wf_wfe, Hloc').
  assert (Hg : pre_child pos m ++ inorder n = pre_at pos m)
    by (by rewrite (pre_at_inner 0 (S h)), Hch).
  destruct (_ =? _) eqn:E; b2p.
  - subst pos. specialize (IH _ _ Hloc'). cbv zeta in IH.
    destruct (child_frame h m (NumItems m)) as (_ & _ & _ & Hin); try done; [apply Hloc'..|].
    rewrite (post_child_end 0 (S h)), app_nil_r, Hch in Hin by done.
    by rewrite <-app_assoc, <-Hin.
  - assert (Hp : points H root (length (ctx_pre p ++ pre_at pos m)) ((m, pos) :: p)).
    { exists (S h), m, pos, p. split_and!; try done; [apply Hloc'..|lia]. }
    rewrite <-app_assoc, Hg. by rewrite (proj2 (Nat.ltb_lt _ _) (points_lt _ _ _ _ Hp)).
Qed.

Lemma Next_ok H root j p :
  points H root j p →
  if S j <? length (inorder root)
  then points H root (S j) (Next p).1 ∧ (Next p).2 = true else Next p = ([], false).
Proof.
  intros Hp. assert (Hlt := points_lt _ _ _ _ Hp).
  destruct Hp as (h & n & i & q & -> & Hloc & Hi & Hj). simpl. unfold IsLeaf.
  destruct (leaf_ n) eqn:Hl.
  - rewrite pre_at_leaf, length_app, length_take in Hj by done. unfold NumItems in *.
    destruct (S i <? _) eqn:E; b2p.
    + assert (Hp : points H root (S j) ((n, S i) :: q)).
      { exists h, n, (S i), q. split; [done|]. split; [done|]. split; [done|].
        rewrite pre_at_leaf, length_app, length_take by done. lia. }
      by rewrite (proj2 (Nat.ltb_lt _ _) (points_lt _ _ _ _ Hp)).
    + assert (Hx := pop_exhausted_ok H root h n q Hloc). cbv zeta in Hx.
      rewrite inorder_leaf, length_app in Hx by done.
      replace (length (ctx_pre q) + length (keys_ n)) with (S j) in Hx by lia.
      destruct (S j <? _).
      * cbn [fst snd]. split; [done|]. by destruct Hx as (? & ? & ? & ? & -> & _).
      * by rewrite Hx.
  - destruct (located_child H root h n q (S i)) as (h' & -> & Hloc'); [done|done|lia|].
    assert (Hw : wfe 0 (S h') n) by (apply wf_wfe, Hloc).
    assert (Hd := dig_left_ok H root (node_height n) h' _ _ Hloc').
    rewrite (wf_height (S h')) in Hd by apply Hloc. specialize (Hd ltac:(lia)). cbn [ctx_pre] in Hd.
    rewrite (pre_child_S 0 (S h')), (app_assoc (pre_child i n)), <-(pre_at_inner 0 (S h')) in Hd
      by (done || lia).
    rewrite app_assoc, length_app, Hj, Nat.add_1_r in Hd. rewrite (wf_height (S h')) by apply Hloc.
    by rewrite (proj2 (Nat.ltb_lt _ _) (points_lt _ _ _ _ Hd)).
Qed.

(** Climbing left: the key before the gap, or the start. *)
Lemma pop_first_ctx H root h n p :
  located H root h n p →
  if length (ctx_pre p) =? 0 then pop_first p = ([], false)
  else points H root (length (ctx_pre p) - 1) (pop_first p).1 ∧ (pop_first p).2 = true.
Proof.
  revert h n. induction p as [|[m pos] p IH]; intros h n Hloc; [done|].
  destruct (located_parent _ _ _ _ _ _ _ Hloc) as (Hloc' & Hl & Hpos & Hch). simpl.
  assert (Hw : wfe 0 (S h) m) by (apply wf_wfe, Hloc').
  destruct pos as [|pos]; simpl.
  - specialize (IH _ _ Hloc'). by rewrite pre_child_0, app_nil_r.
  - rewrite Nat.sub_0_r, (pre_child_S 0 (S h)), (app_assoc (pre_child pos m)) by (done || lia).
    rewrite <-(pre_at_inner 0 (S h)), !length_app by (done || lia). simpl.
    rewrite (proj2 (Nat.eqb_neq _ 0)) by lia. split; [|done].
    exists (S h), m, pos, p. split; [done|]. split; [done|]. split; [lia|]. rewrite length_app. lia.
Qed.

(** [Prev] from the gap before item [j]: item [j - 1], or the start. *)
Lemma Prev_leaf_ok H root j p :
  at_gap H root j p → leaf_ (Last p).1 = true →
  if j =? 0 then Prev p = ([], false) else points H root (j - 1) (Prev p).1 ∧ (Prev p).2 = true.
Proof.
  intros (h & n & i & q & -> & Hloc & Hi & Hj). simpl. unfold IsLeaf. intros Hl. rewrite Hl.
  rewrite pre_at_leaf, length_app, length_take in Hj by done. unfold NumItems in *.
  destruct i as [|i].
  - simpl. simpl in Hj. rewrite Nat.add_0_r in Hj. subst j. by apply (pop_first_ctx H root h n).
  - destruct (j =? 0) eqn:E; b2p; [lia|]. simpl. split; [|done].
    exists h, n, (i - 0), q. split; [done|]. split; [done|]. unfold NumItems. split; [lia|].
    rewrite pre_at_leaf, length_app, length_take by done. lia.
Qed.

Lemma Prev_ok H root j p :
  points H root j p →
  if j =? 0 then Prev p = ([], false) else points H root (j - 1) (Prev p).1 ∧ (Prev p).2 = true.
Proof.
  intros Hp. destruct (leaf_ (Last p).1) eqn:Hl.
  { apply Prev_leaf_ok; [|done]. destruct Hp as (h & n & i & q & -> & Hloc & Hi & Hj).
    exists h, n, i, q. split; [done|]. split; [done|]. split; [lia|done]. }
  destruct Hp as (h & n & i & q & -> & Hloc & Hi & Hj). simpl in Hl. simpl. unfold IsLeaf. rewrite Hl.
  destruct (located_child H root h n q i) as (h' & -> & Hloc'); [done|done|lia|].
  assert (Hw : wfe 0 (S h') n) by (apply wf_wfe, Hloc).
  assert (Hd := dig_right_points H root (node_height n) h' _ _ Hloc').
  rewrite (wf_height (S h')) in Hd by apply Hloc. specialize (Hd ltac:(lia)). cbn [ctx_pre] in Hd.
  rewrite <-app_assoc, <-(pre_at_inner 0 (S h')), Hj in Hd by (done || lia).
  unfold DigRight. simpl. rewrite (wf_height (S h')) by apply Hloc.
  assert (0 < j). { destruct Hloc' as (Hwc & Hpc & _). apply wf_wfe in Hwc.
    rewrite (pre_at_inner 0 (S h')), !length_app in Hj by (done || lia).
    assert (Hs := sublist_length _ _ (sublist_keys _ _ _ Hwc)). unfold NumItems in Hpc. lia. }
  destruct (j =? 0) eqn:E; b2p; [lia|].
  split; [|done]. by rewrite <-dig_right_app.
Qed.

(** ** From a rank to a path *)

Lemma to_rank_scan_ok h n i rank :
  wf (S h) n → leaf_ n = false → 0 < NumItems n → i ≤ NumItems n →
  (Z.of_nat (length (inorder n)) < 2 ^ 32)%Z →
  length (pre_child i n) + rank < length (inorder n) →
  match to_rank_scan (drop i (children_ n)) i (Z.of_nat rank) with
  | ScanDescend i' rank' =>
      i' ≤ NumItems n ∧ (0 ≤ rank' < Z.of_nat (length (inorder (Child i' n))))%Z ∧
      Z.of_nat (length (pre_child i n) + rank) = (Z.of_nat (length (pre_child i' n)) + rank')%Z
  | ScanStop i' => i' < NumItems n ∧ length (pre_child i n) + rank = length (pre_at i' n)
  | ScanPast => False
  end.
Proof.
  intros Hwf Hl Hpos. assert (Hw := proj1 (wf_wfe _ _) Hwf).
  assert (Hlen := wfe_children _ _ _ Hw Hl).
  remember (NumItems n - i) as d eqn:Hd. revert i rank Hd.
  induction d as [|d IH]; intros i rank Hd Hi Hsmall Hrank.
  all: destruct (child_frame h n i) as (_ & [Hgc _] & _ & Hin); [done..|].
  all: assert (Hdrop : drop i (children_ n) = Child i n :: drop (S i) (children_ n))
    by (unfold Child; apply drop_S, list_lookup_lookup_total_lt; lia).
  all: assert (Hlens := f_equal length Hin); rewrite !length_app in Hlens.
  all: assert (Hcnt : TreeCount (Child i n) = Z.of_nat (length (inorder (Child i n))))
    by (rewrite (TreeCount_wf h) by done; apply u32_small; unfold in_u32; lia).
  all: rewrite Hdrop; cbn [to_rank_scan]; rewrite Hcnt; destruct (_ <? _)%Z eqn:E; b2p.
  1, 3: split; [done|]; split; [lia|lia].
  - replace i with (NumItems n) in Hlens by lia.
    rewrite (post_child_end 0 (S h)) in Hlens by done. simpl in Hlens.
    replace (NumItems n) with i in Hlens by lia. lia.
  - assert (Hpa := f_equal length (pre_at_inner 0 (S h) n i Hw Hl Hi)). rewrite length_app in Hpa.
    destruct (_ =? 0)%Z eqn:E0; b2p; [split; lia|].
    assert (Hps := f_equal length (pre_child_S 0 (S h) n i Hw Hl ltac:(lia))).
    rewrite !length_app in Hps. simpl in Hps.
    replace (Z.of_nat rank - Z.of_nat (length (inorder (Child i n))) - 1)%Z
      with (Z.of_nat (rank - length (inorder (Child i n)) - 1)) by lia.
    specialize (IH (S i) (rank - length (inorder (Child i n)) - 1) ltac:(lia) ltac:(lia) Hsmall
      ltac:(lia)).
    destruct (to_rank_scan _ _ _); [|split; lia|done]. destruct IH as (? & ? & ?). split_and!; lia.
Qed.

Lemma to_rank_loop_ok H root fuel h n p rank :
  located H root h n p → h ≤ fuel → (Z.of_nat (length (inorder root)) < 2 ^ 32)%Z →
  rank < length (inorder n) →
  points H root (length (ctx_pre p) + rank) (to_rank_loop fuel (Z.of_nat rank) n p).
Proof.
  revert h n p rank. induction fuel as [|fuel IH]; intros h n p rank Hloc Hf Hsmall Hrank; simpl.
  { destruct h; [by destruct Hloc|lia]. }
  unfold IsLeaf. destruct (leaf_ n) eqn:Hl.
  - rewrite inorder_leaf in Hrank by done. exists h, n, rank, p. rewrite Nat2Z.id.
    split; [done|]. split; [done|]. split; [done|].
    rewrite pre_at_leaf, length_app, length_take by done. lia.
  - assert (Hpos : 0 < NumItems n) by apply Hloc.
    assert (Hlen : length (inorder n) ≤ length (inorder root)).
    { destruct Hloc as (_ & _ & _ & _ & Hin & _). rewrite <-Hin, !length_app. lia. }
    destruct (_ =? 0)%Z eqn:E; b2p.
    + destruct (located_child H root h n p 0) as (h' & -> & Hloc'); [done|done|lia|].
      assert (rank = 0) as -> by lia.
      assert (Hd := IH h' _ _ 0 Hloc' ltac:(lia) Hsmall). simpl in Hd.
      rewrite pre_child_0, app_nil_r in Hd. apply Hd.
      assert (Hs := sublist_length _ _ (sublist_keys 0 h' _ (proj1 (wf_wfe _ _) (proj1 Hloc')))).
      destruct Hloc' as (_ & Hp' & _). unfold NumItems in Hp'. lia.
    + destruct h as [|h]; [by destruct Hloc|].
      assert (Hs := to_rank_scan_ok h n 0 rank (proj1 Hloc) Hl Hpos ltac:(lia) ltac:(lia) ltac:(done)).
      rewrite drop_0 in Hs. destruct (to_rank_scan _ _ _) as [i rank'|i|]; [| |done].
      * destruct Hs as (Hi & Hr & Hsum). rewrite pre_child_0 in Hsum. simpl in Hsum.
        destruct (located_child H root (S h) n p i) as (h' & [= <-] & Hloc'); [done..|].
        assert (Hd := IH h _ _ (Z.to_nat rank') Hloc' ltac:(lia) Hsmall ltac:(lia)).
        rewrite Z2Nat.id in Hd by lia. cbn [ctx_pre] in Hd. rewrite length_app in Hd.
        by replace (length (ctx_pre p) + rank)
          with (length (ctx_pre p) + length (pre_child i n) + Z.to_nat rank') by lia.
      * destruct Hs as (Hi & Hsum). rewrite pre_child_0 in Hsum. simpl in Hsum.
        exists (S h), n, i, p. split; [done|]. split; [done|]. split; [done|]. rewrite length_app. lia.
Qed.

Lemma ToRank_ok H t root rank :
  root_ t = Some root → root_ok H root → (Z.of_nat (length (inorder root)) < 2 ^ 32)%Z →
  count_ t = Z.of_nat (length (inorder root)) → rank < length (inorder root) →
  points H root rank (ToRank (Z.of_nat rank) t).
Proof.
  intros Hr Hok Hsmall Hc Hrank. unfold ToRank. rewrite Hr, Hc.
  assert (Hh : node_height root = H) by (by apply wf_height, Hok).
  assert (Hloc := located_root H root Hok). rewrite u32_small by (unfold in_u32; lia).
  destruct (_ =? _)%Z eqn:E; b2p.
  - assert (Hd := dig_right_points H root (node_height root) H root [] Hloc ltac:(lia)).
    simpl in Hd. by replace rank with (length (inorder root) - 1) by lia.
  - apply (to_rank_loop_ok H root _ H root []); try done. lia.
Qed.

(** ** Iteration *)

(** Calling [cb] on the items of a list until it returns [false]. *)
Fixpoint visit {S} (cb : S → K → S * bool) (l : list K) (s : S) : S * bool :=
  match l with
  | [] => (s, true)
  | x :: l => let '(s, go_on) := cb s x in if go_on then visit cb l s else (s, false)
  end.

Lemma iterate_loop_ok {S} H root (cb : S → K → S * bool) fuel j p s :
  points H root j p →
  iterate_loop fuel cb p s = visit cb (take fuel (drop j (inorder root))) s.
Proof.
  revert j p s. induction fuel as [|fuel IH]; intros j p s Hp; [by rewrite take_0|].
  assert (Hlk := points_lookup _ _ _ _ Hp). cbn [iterate_loop].
  rewrite (drop_S _ _ _ Hlk). cbn [take visit].
  destruct (cb s (Terminal p)) as [s' []]; [|done].
  assert (Hn := Next_ok _ _ _ _ Hp). destruct (Next p) as [p' b]. cbn [fst snd] in Hn.
  destruct (_ <? _) eqn:E; b2p.
  - destruct Hn as [Hn ->]. by apply IH.
  - injection Hn as -> ->. by rewrite drop_ge, take_nil by lia.
Qed.

Lemma iterate_rev_loop_ok {S} H root (cb : S → K → S * bool) fuel j p s :
  points H root j p → fuel ≤ Datatypes.S j →
  iterate_rev_loop fuel cb p s
  = visit cb (take fuel (drop (length (inorder root) - Datatypes.S j) (reverse (inorder root)))) s.
Proof.
  revert j p s. induction fuel as [|fuel IH]; intros j p s Hp Hf; [by rewrite take_0|].
  assert (Hlk := points_lookup _ _ _ _ Hp). assert (Hlt := points_lt _ _ _ _ Hp).
  assert (Hrev : reverse (inorder root) !! (length (inorder root) - Datatypes.S j) = Some (Terminal p)).
  { rewrite reverse_lookup by lia. rewrite <-Hlk. f_equal. lia. }
  cbn [iterate_rev_loop]. rewrite (drop_S _ _ _ Hrev). cbn [take visit].
  destruct (cb s (Terminal p)) as [s' []]; [|done].
  assert (Hn := Prev_ok _ _ _ _ Hp). destruct (j =? 0) eqn:E; b2p.
  - assert (fuel = 0) as -> by lia. by rewrite take_0.
  - destruct Hn as [Hn _]. rewrite (IH (j - 1)) by (done || lia). do 3 f_equal. lia.
Qed.
End Rank.
