(* ===== verification/BPTreeSpec.v ===== *)
(** * B+ tree: freeing, depth and the specifications

    [Clear] frees every node exactly once, and a tree of sixteen-byte keys
    whose size fits the 32-bit counter fits the fixed path record; then the
    specifications of the operations. *)
From S2P Require Import Prelude.
From S2P Require Import BPTreeNode.
From S2P Require Import BPTreeWf.
From S2P Require Import BPTreeMoves.
From S2P Require Import BPTreeRebalance.
From S2P Require Import BPTree.
From S2P Require Import BPTreeSearch.
From S2P Require Import BPTreeInsert.
From S2P Require Import BPTreeDelete.
From S2P Require Import BPTreeRank.

Section Clear.
Context {K : Type} {HK : Inhabited K} {HL : BPNodeLayout} {HLok : LayoutOk}.
Implicit Types (n node root : BPTreeNode K) (p : BPTreePath K) (t : BPTree K).

(** Nodes still to be freed above the current one: each node of the path and
    the subtrees to the right of its position. *)
Fixpoint pending p : nat :=
  match p with [] => 0 | (n, pos) :: p => S (sizes (drop (S pos) (children_ n))) + pending p end.

Definition clear_frame (f : BPTreeNode K * nat) : Prop :=
  ∃ h, wf h f.1 ∧ leaf_ f.1 = false ∧ f.2 ≤ NumItems f.1.

Lemma leaf_size h n : wf h n → leaf_ n = true → node_size n = 1.
Proof.
  rewrite wf_wfe. destruct n as [leaf ks cs t]. simpl. intros Hwf ->.
  by apply wfe_leaf in Hwf as (_ & -> & _).
Qed.

Lemma drop_children h n pos :
  wf (S h) n → leaf_ n = false → pos ≤ NumItems n →
  drop pos (children_ n) = Child pos n :: drop (S pos) (children_ n) ∧ wf h (Child pos n).
Proof.
  intros Hwf%wf_wfe Hl Hpos. assert (Hlen := wfe_children _ _ _ Hwf Hl).
  assert (Hlk : children_ n !! pos = Some (Child pos n)).
  { apply list_lookup_lookup_total_lt. lia. }
  split; [by apply drop_S|]. assert (HF := good_children _ _ _ Hwf Hl).
  rewrite Forall_lookup in HF. by destruct (HF _ _ Hlk).
Qed.

Lemma deep_left_ok fuel h n pos p :
  wf (S h) n → leaf_ n = false → pos ≤ NumItems n → h < fuel → Forall clear_frame p →
  let '(node, p') := deep_left fuel n pos p in
  Forall clear_frame p' ∧ 1 + pending p' = S (sizes (drop pos (children_ n))) + pending p.
Proof.
  revert h n pos p. induction fuel as [|fuel IH]; intros h n pos p Hwf Hl Hpos Hf HF; [lia|].
  simpl. destruct (drop_children h n pos Hwf Hl Hpos) as [Hd Hwc].
  assert (HF' : Forall clear_frame (Push n pos p)) by (constructor; [by exists (S h)|done]).
  unfold IsLeaf. destruct (leaf_ (Child pos n)) eqn:Hlc.
  - split; [done|]. rewrite Hd, sizes_cons, (leaf_size h) by done. simpl. lia.
  - destruct h as [|h]; [done|].
    specialize (IH h (Child pos n) 0 (Push n pos p) Hwc Hlc ltac:(lia) ltac:(lia) HF').
    destruct (deep_left fuel (Child pos n) 0 (Push n pos p)) as [node p'].
    destruct IH as [HF'' Heq]. split; [done|]. rewrite drop_0 in Heq. cbn [pending Push] in Heq.
    rewrite Hd, sizes_cons, (node_size_eq (Child pos n)). lia.
Qed.

Lemma clear_loop_ok fuel node p freed :
  Forall clear_frame p → 1 + pending p ≤ fuel →
  clear_loop fuel node p freed = Some (freed + Z.of_nat (1 + pending p))%Z.
Proof.
  revert node p freed. induction fuel as [|fuel IH]; intros node p freed HF Hf; [lia|].
  cbn [clear_loop]. destruct p as [|[n pos] p]; [done|].
  apply Forall_cons in HF as [(h & Hwf & Hl & Hpos) HF]. cbn [fst snd pending] in *.
  destruct h as [|h]; [done|]. assert (Hlen := wfe_children _ _ _ (proj1 (wf_wfe _ _) Hwf) Hl).
  destruct (pos <? NumItems n) eqn:E; b2p.
  - assert (Hd := deep_left_ok (node_height n) h n (S pos) p Hwf Hl E).
    rewrite (wf_height (S h)) in Hd by done. specialize (Hd ltac:(lia) HF).
    rewrite (wf_height (S h)) by done.
    destruct (deep_left (S h) n (S pos) p) as [node' p']. destruct Hd as [HF' Heq].
    rewrite IH by (done || lia). f_equal. cbn [pending]. lia.
  - assert (Hnil : sizes (drop (S pos) (children_ n)) = 0) by (rewrite drop_ge; [done|lia]).
    rewrite Hnil in *. rewrite IH by (done || lia). f_equal. lia.
Qed.

Lemma Clear_ok H t root :
  root_ t = Some root → root_ok H root →
  Clear t = Some (MkTree None 0 0 (u32 (num_nodes_ t - Z.of_nat (node_size root)))).
Proof.
  intros Hr [Hwf Hpos]. unfold Clear. rewrite Hr. unfold IsLeaf. destruct (leaf_ root) eqn:Hl.
  - rewrite clear_loop_ok; [|constructor|rewrite node_size_eq; simpl; lia].
    simpl. by rewrite (leaf_size H).
  - destruct H as [|h]; [done|].
    assert (Hd := deep_left_ok (node_height root) h root 0 [] Hwf Hl).
    rewrite (wf_height (S h)) in Hd by done. specialize (Hd ltac:(lia) ltac:(lia) ltac:(constructor)).
    rewrite (wf_height (S h)) by done. destruct (deep_left _ _ _ _) as [node p].
    destruct Hd as [HF Heq]. rewrite drop_0 in Heq. cbn [pending] in Heq.
    rewrite clear_loop_ok by (done || rewrite node_size_eq; lia). simpl.
    do 3 f_equal. rewrite (node_size_eq root). lia.
Qed.

(** ** How many items a tree of a given height has at least *)

Definition low (leaf : bool) : Z := Z.of_nat ((cap leaf - 1) / 2).

Fixpoint min_items (h : nat) : Z :=
  match h with
  | 0 => 0
  | S 0 => low true
  | S h => low false + (low false + 1) * min_items h
  end.

Lemma low_pos leaf : (1 ≤ low leaf)%Z.
Proof. unfold low. pose proof (low_bound leaf). lia. Qed.

Lemma min_items_nonneg h : (0 ≤ min_items h)%Z.
Proof.
  induction h as [|[|h] IH]; [done|apply Z.le_trans with 1%Z; [done|apply low_pos]|].
  change (min_items (S (S h))) with (low false + (low false + 1) * min_items (S h))%Z.
  pose proof (low_pos false). nia.
Qed.

Lemma sumlen_min h cs :
  Forall (λ c : BPTreeNode K, (min_items h ≤ Z.of_nat (length (inorder c)))%Z) cs →
  (Z.of_nat (length cs) * min_items h ≤ Z.of_nat (sumlen cs))%Z.
Proof.
  induction 1 as [|c cs Hc _ IH]; [done|]. rewrite sumlen_cons. simpl length. lia.
Qed.

Lemma inner_min h n :
  wf (S h) n → leaf_ n = false → (∀ c : BPTreeNode K, good h c → min_items h ≤ Z.of_nat (length (inorder c)))%Z →
  (Z.of_nat (NumItems n) + Z.of_nat (S (NumItems n)) * min_items h ≤ Z.of_nat (length (inorder n)))%Z.
Proof.
  intros Hwf%wf_wfe Hl Hc. assert (Hlen := wfe_children _ _ _ Hwf Hl).
  assert (HF := good_children _ _ _ Hwf Hl).
  assert (Hs := sumlen_min h (children_ n) (Forall_impl _ _ _ HF Hc)).
  rewrite inorder_content, Hl, length_content by (unfold NumItems in *; lia).
  unfold NumItems in *. lia.
Qed.

Lemma good_min h n : good h n → (min_items h ≤ Z.of_nat (length (inorder n)))%Z.
Proof.
  revert n. induction h as [|h IH]; intros n [Hwf Hocc]; [done|]. rewrite occupied_cap in Hocc.
  destruct (leaf_ n) eqn:Hl.
  - assert (h = 0) as ->.
    { apply wf_wfe in Hwf. destruct n. simpl in Hl. subst. apply wfe_leaf in Hwf. lia. }
    simpl. rewrite inorder_leaf by done. unfold low, NumItems in *. lia.
  - assert (Hm := inner_min h n Hwf Hl IH). destruct h as [|h].
    { apply wf_wfe in Hwf. assert (HF := good_children _ _ _ Hwf Hl).
      assert (Hlen := wfe_children _ _ _ Hwf Hl). destruct (children_ n); [done|].
      by apply Forall_cons in HF as [[[] _] _]. }
    change (min_items (S (S h))) with (low false + (low false + 1) * min_items (S h))%Z.
    pose proof (min_items_nonneg (S h)). unfold low in *. nia.
Qed.

(** The root has one key and two subtrees at least. *)
Lemma root_min H root :
  root_ok (S (S H)) root → (1 + 2 * min_items (S H) ≤ Z.of_nat (length (inorder root)))%Z.
Proof.
  intros [Hwf Hpos]. assert (Hl : leaf_ root = false).
  { destruct root as [[] ks cs t]; [|done]. apply wf_wfe, wfe_leaf in Hwf. lia. }
  assert (Hm := inner_min (S H) root Hwf Hl (good_min (S H))).
  pose proof (min_items_nonneg (S H)). nia.
Qed.

Lemma min_items_mono h : (min_items h ≤ min_items (S h))%Z.
Proof.
  destruct h as [|h]; [apply min_items_nonneg|].
  change (min_items (S (S h))) with (low false + (low false + 1) * min_items (S h))%Z.
  pose proof (min_items_nonneg (S h)). pose proof (low_pos false). nia.
Qed.

Lemma min_items_le h h' : h ≤ h' → (min_items h ≤ min_items h')%Z.
Proof. induction 1 as [|h' _ IH]; [done|]. pose proof (min_items_mono h'). lia. Qed.

Lemma height_bound H root B :
  root_ok H root → (Z.of_nat (length (inorder root)) < 1 + 2 * min_items B)%Z → H ≤ B.
Proof.
  intros Hok Hlt. destruct (Nat.le_gt_cases H B) as [|Hgt]; [done|].
  destruct H as [|[|H]]; try lia.
  - assert (B = 0) as -> by lia. destruct Hok as [Hwf Hpos].
    assert (Hs := sublist_length _ _ (sublist_keys 0 1 root (proj1 (wf_wfe _ _) Hwf))).
    unfold NumItems in Hpos. simpl in Hlt. lia.
  - assert (Hm := root_min H root Hok). pose proof (min_items_le B (S H) ltac:(lia)). lia.
Qed.

(** The length of a path is bounded by the height. *)
Lemma located_depth H root h n p : located H root h n p → h + length p = H ∧ 0 < h.
Proof.
  revert h n. induction p as [|[m pos] p IH]; intros h n Hloc.
  - destruct Hloc as (Hwf & _ & _ & Hctx & _). simpl in *. destruct h; [done|lia].
  - destruct (located_parent _ _ _ _ _ _ _ Hloc) as (Hloc' & _).
    destruct (IH _ _ Hloc') as [H1 _]. destruct Hloc as (Hwf & _). simpl. destruct h; [done|lia].
Qed.
End Clear.

(** ** B+ tree: the tree invariant and its contract

    The invariant of a tree, and the refinement theorem of [Insert]: the
    operations of the tree implement those of a sorted list. *)

Section Spec.
Context {K : Type} {HK : Inhabited K} {HL : BPNodeLayout} {HLok : LayoutOk}
  {HC : KeyCompareTo K} {HO : KeyOrder K}.
Implicit Types (t : BPTree K) (x : K) (n root r : BPTreeNode K) (p : BPTreePath K).

(** ** The tree invariant *)

(** The items of a tree in order. *)
Definition items t : list K := match root_ t with Some r => inorder r | None => [] end.

(** [tree_ok H t]: every node below the root is occupied, all leaves are at
    height [H], and the counters are the numbers of items, levels and nodes. *)
Definition tree_ok (H : nat) t : Prop :=
  count_ t = u32 (Z.of_nat (length (items t))) ∧ height_ t = u32 (Z.of_nat H) ∧
  match root_ t with
  | Some r => root_ok H r ∧ num_nodes_ t = u32 (Z.of_nat (node_size r))
  | None => H = 0 ∧ num_nodes_ t = 0%Z
  end.

Definition tree_inv t : Prop := sorted (items t) ∧ ∃ H, tree_ok H t.

Lemma empty_tree_inv : tree_inv (empty_tree : BPTree K).
Proof. split; [constructor|]. by exists 0. Qed.

(** What a search in a tree of the invariant establishes. *)
Lemma Locate_inv t r x :
  tree_inv t → root_ t = Some r →
  ∃ H, tree_ok H t ∧ root_ok H r ∧ locate_ok (compare_to x) H r (Locate (compare_to x) r).
Proof.
  intros [Hs (H & Hc & Hh & Hr)] Hroot. exists H. unfold items in Hs. rewrite Hroot in Hr, Hs.
  destruct Hr as [Hro Hn]. split; [|split; [done|]].
  - unfold tree_ok. by rewrite Hroot.
  - apply Locate_ok; [done|]. by apply sorted_descending.
Qed.

Lemma located_split H root h n p i :
  located H root h n p → i ≤ NumItems n →
  inorder root = (ctx_pre p ++ pre_at i n) ++ (post_at i n ++ ctx_post p).
Proof.
  intros (Hwf & _ & _ & _ & Hin & _) Hi. rewrite <-Hin, (pre_post_at h n i), <-!app_assoc; try done.
  by eapply part_node, wf_wfe.
Qed.

Lemma mem_found (x k : K) l1 l2 : compare_to x k = 0%Z → mem x (l1 ++ k :: l2) = true.
Proof.
  intros E. apply existsb_exists. exists k. split; [|by apply Z.eqb_eq].
  apply in_elt.
Qed.

(** Any key of a node on a path is an item of the tree. *)
Lemma located_key H root h n p i :
  located H root h n p → i < NumItems n →
  ∃ l1 l2, inorder root = l1 ++ Key i n :: l2.
Proof.
  intros (Hwf & _ & _ & _ & Hin & _) Hi.
  assert (Hk : Key i n ∈ inorder root).
  { rewrite <-Hin, !elem_of_app. right; left.
    eapply elem_of_submseteq; [|by apply sublist_submseteq, (sublist_keys 0 h), wf_wfe].
    rewrite (keys_split n i Hi). set_solver. }
  by apply list_elem_of_split in Hk.
Qed.

(** ** Insertion *)

Definition insert_spec x (l : list K) : list K * bool :=
  if mem x l then (l, false) else (ins x l, true).

Lemma Insert_empty t x :
  tree_inv t → root_ t = None →
  tree_inv (Insert x t).1 ∧ (items (Insert x t).1, (Insert x t).2) = insert_spec x (items t) ∧
  ((Insert x t).2 = false → (Insert x t).1 = t).
Proof.
  intros [_ (H & _ & _ & Hn)] Hr. rewrite Hr in Hn. destruct Hn as [_ Hn].
  unfold Insert, insert_spec. rewrite Hr, Hn. cbn [fst snd].
  unfold items at 2 3 4. rewrite Hr. split; [split|done].
  - apply SSorted_cons; [apply SSorted_nil|by apply Forall_nil].
  - exists 1. do 2 (split; [done|]). split; [|done]. split; [|unfold NumItems; simpl; lia].
    apply wf_wfe, wfe_leaf. pose proof (cap_bound true). simpl in *. split_and!; try done. lia.
Qed.

Lemma Insert_ok t x :
  tree_inv t →
  tree_inv (Insert x t).1 ∧
  (items (Insert x t).1, (Insert x t).2) = insert_spec x (items t) ∧
  ((Insert x t).2 = false → (Insert x t).1 = t).
Proof.
  intros Hinv. destruct (root_ t) as [r|] eqn:Hr; [|by apply Insert_empty].
  destruct (Locate_inv t r x Hinv Hr) as (H & Hok & Hro & h & n & i & p & Hp & Hloc & Hres).
  destruct Hok as (Hc & Hh & Hn). rewrite Hr in Hn. destruct Hn as [_ Hn].
  assert (Hit : items t = inorder r) by (unfold items; by rewrite Hr).
  unfold Insert. rewrite Hr. destruct (Locate _ r) as [b p']. cbn [fst snd] in *. subst p'.
  unfold insert_spec. rewrite Hit. destruct b.
  - destruct Hres as [Hi Hk]. destruct (located_key _ _ _ _ _ _ Hloc Hi) as (l1 & l2 & Hl).
    rewrite Hl, mem_found, <-Hl by done. cbn [fst snd]. by rewrite Hit.
  - destruct Hres as (Hleaf & Hi & Hpos & Hneg). cbn [Last Pop tail].
    assert (h = 1) as -> by (destruct Hloc as (Hwf%wf_wfe & _); destruct n; simpl in Hleaf; subst;
      by apply wfe_leaf in Hwf as [-> _]).
    destruct (insert_at_ok H r n i p x Hloc Hleaf Hi) as (Hro' & Hlv & Hin' & Hsz').
    set (g := if _ =? _ then _ else _) in *. cbn [fst snd].
    assert (Hs := located_split _ _ _ _ _ _ Hloc Hi).
    assert (Hnew : inorder (new_root g) = (ctx_pre p ++ pre_at i n) ++ x :: post_at i n ++ ctx_post p).
    { rewrite Hin', <-!app_assoc. done. }
    rewrite Hs, mem_gap, ins_gap by done. unfold tree_inv, items. cbn [root_]. rewrite Hnew.
    split; [split|done].
    + apply sorted_ins_gap; try done.
      rewrite <-Hs, <-Hit. apply Hinv.
    + exists (H + Z.to_nat (levels g)). unfold tree_ok, items. cbn [root_ count_ height_ num_nodes_].
      destruct Hloc as (_ & _ & _ & _ & _ & Hsz & _).
      rewrite Hc, Hh, Hn, Hit, Hs, Hnew. autorewrite with astra_arith.
      split_and!; try apply Hro'; f_equal; rewrite ?length_app; simpl; rewrite ?length_app; lia.
Qed.

(** ** Deletion *)

Definition delete_spec x (l : list K) : list K * bool := (del x l, mem x l).

Lemma del_found x k l1 l2 :
  sorted (l1 ++ k :: l2) → compare_to x k = 0%Z → del x (l1 ++ k :: l2) = l1 ++ l2.
Proof.
  intros Hs Hk. apply (sorted_descending x) in Hs. unfold del.
  assert (H1 : all_pos (compare_to x) l1) by (eapply descending_before; [done|lia]).
  assert (H2 : all_neg (compare_to x) l2) by (eapply descending_after; [done|lia]).
  rewrite filter_app, filter_cons_False by (intros ?; done).
  rewrite !filter_all; [done|..]; eapply Forall_impl; try done; simpl; intros; lia.
Qed.

Lemma del_gap x l1 l2 :
  all_pos (compare_to x) l1 → all_neg (compare_to x) l2 → del x (l1 ++ l2) = l1 ++ l2.
Proof.
  intros H1 H2. unfold del. apply filter_all, Forall_app.
  split; eapply Forall_impl; try done; simpl; intros; lia.
Qed.

Lemma sorted_remove (l1 l2 : list K) k : sorted (l1 ++ k :: l2) → sorted (l1 ++ l2).
Proof.
  unfold sorted. apply StronglySorted_sublist. apply sublist_app; [done|]. by apply sublist_cons.
Qed.

Lemma Delete_ok t x :
  tree_inv t →
  tree_inv (Delete x t).1 ∧
  (items (Delete x t).1, (Delete x t).2) = delete_spec x (items t) ∧
  ((Delete x t).2 = false → (Delete x t).1 = t).
Proof.
  intros Hinv. unfold Delete. destruct (root_ t) as [r|] eqn:Hr.
  2: { cbn [fst snd]. split; [done|]. unfold items. rewrite Hr. done. }
  destruct (Locate_inv t r x Hinv Hr) as (H & Hok & Hro & h & n & i & p & Hp & Hloc & Hres).
  destruct Hok as (Hc & Hh & Hn). rewrite Hr in Hn. destruct Hn as [_ Hn].
  assert (Hit : items t = inorder r) by (unfold items; by rewrite Hr).
  destruct (Locate _ r) as [b p']. cbn [fst snd] in *. subst p'. unfold delete_spec. destruct b.
  - destruct Hres as [Hi Hk]. destruct (delete_at_ok H r h n p i Hloc Hi) as (l1 & l2 & Hin & Hlv & Hs).
    cbn [fst snd]. unfold DeletePath. cbn [Last Pop tail].
    set (s := delete_at n i p) in *.
    assert (Hsort : sorted (l1 ++ Key i n :: l2)) by (rewrite <-Hin, <-Hit; apply Hinv).
    assert (Hnew : match shrunk_root s with Some r => inorder r | None => [] end = l1 ++ l2).
    { destruct (shrunk_root s); [apply Hs|symmetry; apply Hs]. }
    rewrite Hit, Hin, mem_found, del_found by done.
    unfold tree_inv, items, tree_ok. cbn [root_ count_ height_ num_nodes_]. rewrite Hnew.
    split; [|done]. split; [by eapply sorted_remove|].
    exists (H - Z.to_nat (shrunk_levels s)). unfold items at 1. cbn [root_].
    rewrite Hnew, Hc, Hh, Hn, Hit, Hin.
    autorewrite with astra_arith. rewrite !length_app. simpl. split; [f_equal; lia|].
    split; [f_equal; lia|]. destruct (shrunk_root s) as [r'|].
    + destruct Hs as (Hro' & _ & Hsz). split; [done|]. f_equal. lia.
    + destruct Hs as (_ & Hlv' & Hsz). split; [lia|].
      by replace (Z.of_nat (node_size r) - retired s)%Z with 0%Z by lia.
  - destruct Hres as (Hleaf & Hi & Hpos & Hneg). cbn [fst snd].
    rewrite Hit, (located_split _ _ _ _ _ _ Hloc Hi), mem_gap, del_gap by done. done.
Qed.

(** ** Histories *)

(** The operations that change a tree, and their runs from the empty tree. *)
Inductive tree_op := OpInsert (x : K) | OpDelete (x : K).

Definition run_op (t : BPTree K) (o : tree_op) : BPTree K :=
  match o with OpInsert x => (Insert x t).1 | OpDelete x => (Delete x t).1 end.
Definition run_ops (os : list tree_op) : BPTree K := foldl run_op empty_tree os.

Definition spec_op (l : list K) (o : tree_op) : list K :=
  match o with OpInsert x => (insert_spec x l).1 | OpDelete x => (delete_spec x l).1 end.
Definition spec_ops (os : list tree_op) : list K := foldl spec_op [] os.

Lemma run_ops_ok os : tree_inv (run_ops os) ∧ items (run_ops os) = spec_ops os.
Proof.
  unfold run_ops, spec_ops. induction os as [|o os IH] using rev_ind.
  - split; [apply empty_tree_inv|done].
  - rewrite !foldl_app. simpl. destruct IH as [Hinv <-]. destruct o as [x|x]; simpl.
    + destruct (Insert_ok _ x Hinv) as (Hinv' & Heq & _). split; [done|]. by rewrite <-Heq.
    + destruct (Delete_ok _ x Hinv) as (Hinv' & Heq & _). split; [done|]. exact (f_equal fst Heq).
Qed.

(** ** Queries *)

(** Number of items before the place of [x]. *)
Definition rank_of x (l : list K) : nat := length (filter (λ y, (0 < compare_to x y)%Z) l).

Lemma rank_of_app x l1 l2 :
  all_pos (compare_to x) l1 → Forall (λ y, (compare_to x y ≤ 0)%Z) l2 →
  rank_of x (l1 ++ l2) = length l1.
Proof.
  intros H1 H2. unfold rank_of. rewrite filter_app, filter_all, filter_none; [by rewrite app_nil_r| |done].
  eapply Forall_impl; [done|]. simpl. intros. lia.
Qed.

(** A successful search points to the item of rank [rank_of]. *)
Lemma Locate_found t r x :
  tree_inv t → root_ t = Some r → (Locate (compare_to x) r).1 = true →
  ∃ H k l1 l2, root_ok H r ∧ items t = l1 ++ k :: l2 ∧ compare_to x k = 0%Z ∧
    all_pos (compare_to x) l1 ∧ all_neg (compare_to x) l2 ∧
    points H r (length l1) (Locate (compare_to x) r).2.
Proof.
  intros Hinv Hr Hf.
  destruct (Locate_inv t r x Hinv Hr) as (H & _ & Hro & h & n & i & p & Hp & Hloc & Hres).
  rewrite Hf in Hres. destruct Hres as [Hi Hk]. rewrite Hp.
  assert (Hit : items t = inorder r) by (unfold items; by rewrite Hr).
  destruct (pre_at_S n i Hi 0 h) as [xs Hn]; [apply wf_wfe, Hloc|].
  assert (Hin : inorder r = (ctx_pre p ++ pre_at i n) ++ Key i n :: xs ++ ctx_post p).
  { destruct Hloc as (_ & _ & _ & _ & <- & _). by rewrite Hn, <-!app_assoc. }
  destruct Hinv as [Hs _]. rewrite Hit, Hin in Hs. apply (sorted_descending x) in Hs.
  exists H, (Key i n), (ctx_pre p ++ pre_at i n), (xs ++ ctx_post p). rewrite Hit.
  do 3 (split; [done|]). split; [eapply descending_before; [done|lia]|].
  split; [eapply descending_after; [done|lia]|]. by exists h, n, i, p.
Qed.

(** A failed search stops at the gap of a leaf. *)
Lemma Locate_missed t r x :
  tree_inv t → root_ t = Some r → (Locate (compare_to x) r).1 = false →
  ∃ H l1 l2 h n i p, root_ok H r ∧ items t = l1 ++ l2 ∧
    all_pos (compare_to x) l1 ∧ all_neg (compare_to x) l2 ∧
    (Locate (compare_to x) r).2 = (n, i) :: p ∧ located H r h n p ∧ leaf_ n = true ∧
    i ≤ NumItems n ∧ length (ctx_pre p ++ pre_at i n) = length l1.
Proof.
  intros Hinv Hr Hf.
  destruct (Locate_inv t r x Hinv Hr) as (H & _ & Hro & h & n & i & p & Hp & Hloc & Hres).
  rewrite Hf in Hres. destruct Hres as (Hl & Hi & Hpos & Hneg).
  exists H, (ctx_pre p ++ pre_at i n), (post_at i n ++ ctx_post p), h, n, i, p.
  split; [done|]. split; [|by do 6 (split; [done|])].
  unfold items. rewrite Hr. by apply (located_split H r h n p i).
Qed.

Lemma Contains_ok t x :
  tree_inv t →
  Contains x t = match root_ t with Some _ => Some (mem x (items t)) | None => None end.
Proof.
  intros Hinv. unfold Contains. destruct (root_ t) as [r|] eqn:Hr; [|done]. simpl. f_equal.
  destruct ((Locate (compare_to x) r).1) eqn:Hf; symmetry.
  - destruct (Locate_found t r x Hinv Hr Hf) as (_ & k & l1 & l2 & _ & -> & Hk & _). by apply mem_found.
  - destruct (Locate_missed t r x Hinv Hr Hf) as (_ & l1 & l2 & _ & _ & _ & _ & _ & -> & H1 & H2 & _).
    by apply mem_gap.
Qed.

(** The item count is exact while it fits its 32 bits. *)
Definition small t : Prop := (Z.of_nat (length (items t)) < 2 ^ 32)%Z.

Lemma count_small t : tree_inv t → small t → count_ t = Z.of_nat (length (items t)).
Proof. intros [_ (H & -> & _)] Hs. apply u32_small. unfold small, in_u32 in *. lia. Qed.

Lemma GetRank_ok t x reverse :
  tree_inv t → small t →
  GetRank x reverse t =
    if mem x (items t)
    then Some (Z.of_nat (if reverse then length (items t) - 1 - rank_of x (items t)
                         else rank_of x (items t)))
    else None.
Proof.
  intros Hinv Hs. assert (Hc := count_small t Hinv Hs). unfold GetRank.
  destruct (root_ t) as [r|] eqn:Hr; simpl; [|unfold items; by rewrite Hr].
  destruct (Locate (compare_to x) r) as [b p] eqn:HL'. destruct b.
  - destruct (Locate_found t r x Hinv Hr) as (H & k & l1 & l2 & Hro & Hit & Hk & H1 & H2 & Hp);
      [by rewrite HL'|]. rewrite HL' in Hp. cbn [snd] in Hp.
    unfold small in Hs. rewrite Hit in *. rewrite mem_found by done.
    assert (Hle : Forall (λ y, (compare_to x y ≤ 0)%Z) (k :: l2)).
    { constructor; [lia|]. eapply Forall_impl; [done|]. simpl. lia. }
    rewrite rank_of_app by done.
    rewrite (Rank_points _ _ _ _ Hp), Hc. rewrite length_app in *. simpl in *.
    rewrite (u32_small (Z.of_nat (length l1))) by (unfold in_u32; lia). f_equal.
    destruct reverse; [|done]. rewrite u32_small by (unfold in_u32; lia). lia.
  - destruct (Locate_missed t r x Hinv Hr) as (_ & l1 & l2 & _ & _ & _ & _ & _ & -> & H1 & H2 & _);
      [by rewrite HL'|]. by rewrite mem_gap.
Qed.

Lemma FromRank_points t i :
  tree_inv t → small t → i < length (items t) →
  ∃ H r, root_ t = Some r ∧ root_ok H r ∧ items t = inorder r ∧
    points H r i (FromRank (Z.of_nat i) t).
Proof.
  intros Hinv Hs Hi. assert (Hc := count_small t Hinv Hs). destruct Hinv as [_ (H & _ & _ & Hn)].
  unfold small, items in *. destruct (root_ t) as [r|] eqn:Hr; [|simpl in Hi; lia].
  destruct Hn as [Hro _]. exists H, r. do 3 (split; [done|]). by apply ToRank_ok.
Qed.

Lemma Iterate_ok {S} t rs re (cb : S → K → S * bool) s :
  tree_inv t → small t → (0 ≤ rs)%Z →
  Iterate rs re cb t s
  = visit cb (take (Z.to_nat (re - rs + 1)) (drop (Z.to_nat rs) (items t))) s.
Proof.
  intros Hinv Hs Hrs. unfold Iterate, Size. rewrite (count_small t) by done.
  destruct (_ <=? _)%Z eqn:E; b2p.
  - by rewrite drop_ge, take_nil by lia.
  - destruct (FromRank_points t (Z.to_nat rs) Hinv Hs ltac:(lia)) as (H & r & _ & _ & -> & Hp).
    unfold FromRank in Hp. rewrite Z2Nat.id in Hp by done. by eapply iterate_loop_ok.
Qed.

Lemma IterateReverse_ok {S} t rs re (cb : S → K → S * bool) s :
  tree_inv t → small t → (0 ≤ rs ≤ re)%Z → (re < Z.of_nat (length (items t)))%Z →
  IterateReverse rs re cb t s
  = visit cb (take (Z.to_nat (re - rs + 1)) (drop (Z.to_nat rs) (reverse (items t)))) s.
Proof.
  intros Hinv Hs Hrs Hre. unfold IterateReverse. rewrite (count_small t) by done.
  unfold small in Hs. rewrite u32_small by (unfold in_u32; lia).
  set (j := length (items t) - 1 - Z.to_nat rs).
  destruct (FromRank_points t j Hinv Hs ltac:(lia)) as (H & r & _ & _ & Hit & Hp).
  unfold FromRank in Hp. replace (Z.of_nat (length (items t)) - 1 - rs)%Z with (Z.of_nat j) by lia.
  rewrite (iterate_rev_loop_ok H r cb _ j) by (done || lia). rewrite <-Hit. do 3 f_equal. lia.
Qed.

(** *** The nearest item on either side of a query *)

Definition path_item p : option K := if Empty p then None else Some (Terminal p).

Lemma points_item H r j p : points H r j p → path_item p = inorder r !! j.
Proof.
  intros Hp. rewrite (points_lookup _ _ _ _ Hp). destruct Hp as (h & n & i & q & -> & _). done.
Qed.

Lemma head_filter_app (P : K → Prop) `{!∀ x, Decision (P x)} l1 l2 :
  Forall (λ x, ¬ P x) l1 → Forall P l2 → head (filter P (l1 ++ l2)) = (l1 ++ l2) !! length l1.
Proof.
  intros H1 H2. rewrite filter_app, (filter_none P l1), (filter_all P l2) by done.
  rewrite lookup_app_r, Nat.sub_diag by done. by destruct l2.
Qed.

Lemma last_filter_app (P : K → Prop) `{!∀ x, Decision (P x)} l1 l2 :
  Forall P l1 → Forall (λ x, ¬ P x) l2 → last (filter P (l1 ++ l2)) = last l1.
Proof.
  intros H1 H2. by rewrite filter_app, (filter_all P l1), (filter_none P l2), app_nil_r by done.
Qed.

Lemma GEQ_ok t x :
  tree_inv t →
  path_item (GEQ (compare_to x) t) = head (filter (λ y, (compare_to x y ≤ 0)%Z) (items t)).
Proof.
  intros Hinv. unfold GEQ. destruct (root_ t) as [r|] eqn:Hr; [|unfold items; by rewrite Hr].
  assert (Hit : items t = inorder r) by (unfold items; by rewrite Hr).
  destruct (Locate (compare_to x) r) as [b p] eqn:HL'. destruct b.
  - destruct (Locate_found t r x Hinv Hr) as (H & k & l1 & l2 & Hro & Hi & Hk & H1 & H2 & Hp);
      [by rewrite HL'|]. rewrite HL' in Hp. cbn [snd negb andb] in *.
    rewrite (points_item _ _ _ _ Hp), <-Hit, Hi, head_filter_app; [done|..].
    + eapply Forall_impl; [done|]. simpl. lia.
    + constructor; [lia|]. eapply Forall_impl; [done|]. simpl. lia.
  - destruct (Locate_missed t r x Hinv Hr) as (H & l1 & l2 & h & n & i & q & Hro & Hi & H1 & H2 & Hp
      & Hloc & Hl & Hn & Hlen); [by rewrite HL'|]. rewrite HL' in Hp. cbn [snd] in Hp. subst p.
    rewrite Hi, head_filter_app by (eapply Forall_impl; [done|]; simpl; lia).
    rewrite <-Hi, Hit. cbn [negb andb Last fst snd]. destruct (_ <=? _) eqn:E; b2p.
    + assert (Hx := pop_exhausted_ok H r h n q Hloc). cbv zeta in Hx.
      assert (Hfull : pre_at i n = inorder n).
      { rewrite pre_at_leaf, inorder_leaf by done. apply take_ge. unfold NumItems in E. lia. }
      rewrite <-Hfull, Hlen in Hx. unfold Next. cbn [IsLeaf]. unfold IsLeaf. rewrite Hl.
      destruct (S i <? NumItems n) eqn:E2; b2p; [lia|]. cbn [fst].
      destruct (_ <? _) eqn:E3; b2p; [by rewrite (points_item _ _ _ _ Hx)|].
      rewrite Hx. symmetry. apply lookup_ge_None. lia.
    + apply (points_item H). exists h, n, i, q. by do 3 (split; [done|]).
Qed.

Lemma LEQ_ok t x :
  tree_inv t →
  path_item (LEQ (compare_to x) t) = last (filter (λ y, (0 ≤ compare_to x y)%Z) (items t)).
Proof.
  intros Hinv. unfold LEQ. destruct (root_ t) as [r|] eqn:Hr; [|unfold items; by rewrite Hr].
  assert (Hit : items t = inorder r) by (unfold items; by rewrite Hr).
  destruct (Locate (compare_to x) r) as [b p] eqn:HL'. destruct b.
  - destruct (Locate_found t r x Hinv Hr) as (H & k & l1 & l2 & Hro & Hi & Hk & H1 & H2 & Hp);
      [by rewrite HL'|]. rewrite HL' in Hp. cbn [snd negb] in *.
    rewrite (points_item _ _ _ _ Hp), <-Hit, Hi, list_lookup_middle by done.
    rewrite cons_middle, app_assoc, last_filter_app, last_snoc; [done|..].
    + apply Forall_app. split; [eapply Forall_impl; [done|]; simpl; lia|]. constructor; [lia|done].
    + eapply Forall_impl; [done|]. simpl. lia.
  - destruct (Locate_missed t r x Hinv Hr) as (H & l1 & l2 & h & n & i & q & Hro & Hi & H1 & H2 & Hp
      & Hloc & Hl & Hn & Hlen); [by rewrite HL'|]. rewrite HL' in Hp. cbn [snd] in Hp. subst p.
    rewrite Hi, last_filter_app by (eapply Forall_impl; [done|]; simpl; lia). cbn [negb].
    assert (Hg : at_gap H r (length l1) ((n, i) :: q)) by (by exists h, n, i, q).
    assert (Hp := Prev_leaf_ok H r (length l1) _ Hg Hl). rewrite last_lookup.
    destruct (length l1 =? 0) eqn:E; b2p.
    + rewrite Hp. by destruct l1.
    + destruct Hp as [Hp _]. rewrite (points_item _ _ _ _ Hp), <-Hit, Hi.
      rewrite lookup_app_l by lia. f_equal. lia.
Qed.

(** *** Clearing and depth *)

Lemma Clear_inv t : tree_inv t → Clear t = Some empty_tree.
Proof.
  intros [_ (H & Hc & Hh & Hn)]. destruct (root_ t) as [r|] eqn:Hr.
  - destruct Hn as [Hro Hn]. rewrite (Clear_ok H t r) by done. do 2 f_equal. rewrite Hn.
    autorewrite with astra_arith. by rewrite Z.sub_diag.
  - unfold Clear. rewrite Hr. destruct Hn as [-> Hn]. unfold items in Hc. rewrite Hr in Hc.
    destruct t. simpl in *. by subst.
Qed.

Lemma Locate_depth t r x :
  tree_inv t → root_ t = Some r →
  ∃ H, root_ok H r ∧ Depth (Locate (compare_to x) r).2 ≤ H ∧ height_ t = u32 (Z.of_nat H).
Proof.
  intros Hinv Hr.
  destruct (Locate_inv t r x Hinv Hr) as (H & (_ & Hh & _) & Hro & h & n & i & p & Hp & Hloc & _).
  exists H. split; [done|]. split; [|done]. rewrite Hp. unfold Depth. simpl.
  pose proof (located_depth _ _ _ _ _ Hloc). lia.
Qed.

(** *** Replacing a key in place *)

Lemma write_back_ok H h m p cur :
  ctx_ok H h m p → write_back cur p = IncreaseSubtreeCounts 0 cur p.
Proof.
  revert h m cur. induction p as [|[n pos] p IH]; intros h m cur Hctx; [done|].
  destruct Hctx as ((ks1 & ks2 & cs1 & c & cs2 & -> & <- & Hc & _) & _ & Hctx). simpl.
  rewrite (IH _ _ _ Hctx). f_equal. rewrite !SetChild_eq by done.
  unfold IncreaseTreeCount, GetInnerTreeCount. simpl. by rewrite Z.add_0_r, u32_u32.
Qed.

Lemma SetKey_ok h n i k :
  wf h n → i < NumItems n →
  wf h (SetKey i k n) ∧ node_size (SetKey i k n) = node_size n ∧
  NumItems (SetKey i k n) = NumItems n ∧
  ∃ xs, inorder n = pre_at i n ++ Key i n :: xs ∧ inorder (SetKey i k n) = pre_at i n ++ k :: xs.
Proof.
  intros Hwf%wf_wfe Hi. assert (Hp := part_node _ _ _ Hwf).
  destruct (node_split_at h n i Hp Hi) as (ks1 & k0 & ks2 & cs1 & cs2 & Hk & Hc & Hl & Hp1 & Hp2).
  destruct n as [leaf ks cs t]. cbn [leaf_ keys_ children_] in *. subst ks cs.
  assert (Hset : SetKey i k (Node leaf (ks1 ++ k0 :: ks2) (cs1 ++ cs2) t)
                 = Node leaf (ks1 ++ k :: ks2) (cs1 ++ cs2) t).
  { unfold SetKey. simpl. by slots. }
  rewrite Hset, Key_middle, !node_size_eq by done.
  assert (Hpre : pre_at i (Node leaf (ks1 ++ k0 :: ks2) (cs1 ++ cs2) t) = content leaf ks1 cs1).
  { apply (pre_at_eq h); try done. intros ->. by destruct Hp2. }
  rewrite Hpre, !(inorder_content (Node _ _ _ _)). cbn [leaf_ keys_ children_].
  assert (Hside := part_join_side _ _ _ _ _ _ Hp1 Hp2).
  assert (Hmax := wfe_cap _ _ _ Hwf). cbn [leaf_ keys_] in Hmax. split_and!; try done.
  - apply wf_wfe, wfe_build; [by apply part_join| |].
    + rewrite length_app in *. done.
    + intros ->. erewrite length_join by done. destruct h as [|h]; [done|].
      apply wfe_inner in Hwf as (_ & _ & _ & ->). by erewrite length_join by done.
  - unfold NumItems. simpl. by rewrite !length_app.
  - exists (content leaf ks2 cs2). by rewrite !content_join by done.
Qed.

Lemma sorted_replace (l1 l2 : list K) k k' :
  compare_to k k' = 0%Z → sorted (l1 ++ k :: l2) → sorted (l1 ++ k' :: l2).
Proof.
  intros Hk. unfold sorted. rewrite !StronglySorted_app_iff.
  intros (H1 & [H2 HF]%StronglySorted_inv & H3).
  pose proof (compare_flip k k'). split_and!; [done| |].
  - constructor; [done|]. eapply Forall_impl; [done|]. intros y Hy.
    eapply key_lt_trans_l; [|done]. lia.
  - intros x y Hx [->|Hy]%elem_of_cons; [|apply H3; set_solver].
    apply compare_gt.
    assert (Hxk : key_lt x k) by (apply H3; set_solver).
    destruct (Z.le_gt_cases (compare_to k' x) 0) as [Hle|]; [|done].
    assert (Hkx := key_lt_trans_l k' x k Hle Hxk). unfold key_lt in Hkx. lia.
Qed.

Lemma ForceUpdate_ok t old new_obj :
  tree_inv t → mem old (items t) = true → compare_to old new_obj = 0%Z →
  ∃ l1 k l2, items t = l1 ++ k :: l2 ∧ compare_to old k = 0%Z ∧
    tree_inv (ForceUpdate old new_obj t) ∧ items (ForceUpdate old new_obj t) = l1 ++ new_obj :: l2.
Proof.
  intros Hinv Hmem Hnew. unfold ForceUpdate. destruct (root_ t) as [r|] eqn:Hr.
  2: { unfold items in Hmem. by rewrite Hr in Hmem. }
  assert (Hit : items t = inorder r) by (unfold items; by rewrite Hr).
  destruct (Locate_inv t r old Hinv Hr) as (H & Hok & Hro & h & n & i & p & Hp & Hloc & Hres).
  destruct (Locate _ r) as [b p']. cbn [fst snd] in *. subst p'. destruct b.
  2: { destruct Hres as (_ & Hi & Hpos & Hneg).
       rewrite Hit, (located_split _ _ _ _ _ _ Hloc Hi), mem_gap in Hmem by done. done. }
  destruct Hres as [Hi Hk]. cbn [Last Pop tail].
  destruct Hloc as (Hwf & Hpos & Hocc & Hctx & Hin & Hsz & _).
  destruct (SetKey_ok h n i new_obj Hwf Hi) as (Hwf' & Hsz' & Hni & xs & Hn & Hn').
  rewrite (write_back_ok H h _ _ _ Hctx).
  assert (Hlen : length (inorder (SetKey i new_obj n)) = length (inorder n)).
  { by rewrite Hn, Hn', !length_app. }
  destruct (IncreaseSubtreeCounts_ok 0 H h _ p (SetKey i new_obj n) Hctx Hwf') as (Hro' & Hin' & Hszr);
    [lia|intros Hne; specialize (Hocc Hne); by rewrite occupied_cap, Hni in *|lia|].
  assert (Hold : inorder r = (ctx_pre p ++ pre_at i n) ++ Key i n :: xs ++ ctx_post p)
    by (by rewrite <-Hin, Hn, <-!app_assoc).
  assert (Hnew' : inorder (IncreaseSubtreeCounts 0 (SetKey i new_obj n) p)
    = (ctx_pre p ++ pre_at i n) ++ new_obj :: xs ++ ctx_post p) by (by rewrite Hin', Hn', <-!app_assoc).
  exists (ctx_pre p ++ pre_at i n), (Key i n), (xs ++ ctx_post p). rewrite Hit.
  split; [done|]. split; [done|]. split; [|unfold items; cbn [root_]; done].
  destruct Hinv as [Hs _]. destruct Hok as (Hc & Hh & Hnn). rewrite Hr in Hnn.
  split; unfold items; cbn [root_].
  - rewrite Hnew'. rewrite Hit, Hold in Hs. eapply sorted_replace; [|exact Hs].
    pose proof (compare_flip old (Key i n)). pose proof (compare_trans (Key i n) old new_obj).
    pose proof (compare_flip old new_obj). pose proof (compare_trans new_obj old (Key i n)).
    pose proof (compare_flip (Key i n) new_obj). lia.
  - exists H. split; [|split; [done|]]; cbn [count_ num_nodes_ root_].
    + unfold items. cbn [root_]. by rewrite Hc, Hit, Hold, Hnew', !length_app.
    + split; [done|]. rewrite Hszr, Hsz', Hsz. apply Hnn.
Qed.
End Spec.
