(* ===== verification/BPTreeContract.v ===== *)
(** * B+ tree: the contract of the class

    The theorems about [BPTree] as its clients see it, over the invariant
    [tree_inv] and the sorted list [items], each applied to a concrete tree of
    integer keys. *)
From S2P Require Import Prelude.
From S2P Require Import BPTreeNode.
From S2P Require Import BPTreeWf.
From S2P Require Import BPTreeMoves.
From S2P Require Import BPTreeRebalance.
From S2P Require Import BPTree.
From S2P Require Import BPTreeSearch.
From S2P Require Import BPTreeRank.
From S2P Require Import BPTreeSpec.

Section Contract.
Context {K : Type} {HK : Inhabited K} {HL : BPNodeLayout} {HLok : LayoutOk}
  {HC : KeyCompareTo K} {HO : KeyOrder K}.
Implicit Types (t : BPTree K) (x : K).

(** C10. [Insert] keeps the tree invariant (order, balance, occupancy, 32-bit
    subtree, item, level and node counters) and refines insertion into a sorted
    list: an item equal to a present one is refused and leaves the tree as it was,
    any other item ends up at its place. *)
Theorem Insert_refines t x :
  tree_inv t →
  tree_inv (Insert x t).1 ∧
  (items (Insert x t).1, (Insert x t).2) = insert_spec x (items t) ∧
  ((Insert x t).2 = false → (Insert x t).1 = t).
Proof. apply Insert_ok. Qed.

(** C11. [Delete] keeps the tree invariant and refines deletion from a sorted
    list: the items that compare equal to the query are removed, and the result
    says whether there was one; otherwise the tree is unchanged. *)
Theorem Delete_refines t x :
  tree_inv t →
  tree_inv (Delete x t).1 ∧
  (items (Delete x t).1, (Delete x t).2) = delete_spec x (items t) ∧
  ((Delete x t).2 = false → (Delete x t).1 = t).
Proof. apply Delete_ok. Qed.

(** C5. After any history of insertions and deletions from the empty tree the
    invariant holds and the items are those of the same history run on a sorted
    list. *)
Theorem histories_refine (os : list tree_op) :
  tree_inv (run_ops os) ∧ items (run_ops os) = spec_ops os.
Proof. apply run_ops_ok. Qed.

(** [GetRank] finds an item exactly when it is present, and its answer is the
    number of smaller items (of greater items with [reverse]). *)
Theorem GetRank_counts t x reverse :
  tree_inv t → small t →
  GetRank x reverse t =
    if mem x (items t)
    then Some (Z.of_nat (if reverse then length (items t) - 1 - rank_of x (items t)
                         else rank_of x (items t)))
    else None.
Proof. apply GetRank_ok. Qed.

(** [FromRank] leads to the item of the given rank, [Rank] of that path is the
    rank again, and [Next] and [Prev] step to the neighbouring ranks, collapsing
    to the empty path past either end. *)
Theorem FromRank_steps t i :
  tree_inv t → small t → i < length (items t) →
  let p := FromRank (Z.of_nat i) t in
  items t !! i = Some (Terminal p) ∧ Rank p = Z.of_nat i ∧
  path_item (Next p).1 = items t !! (S i) ∧
  path_item (Prev p).1 = (if i =? 0 then None else items t !! (i - 1)).
Proof.
  intros Hinv Hs Hi. destruct (FromRank_points t i Hinv Hs Hi) as (H & r & Hr & Hro & Hit & Hp).
  cbv zeta. set (p := FromRank _ _) in *. unfold small in Hs. rewrite Hit in *. split_and!.
  - by apply (points_lookup H).
  - rewrite (Rank_points _ _ _ _ Hp). apply u32_small. unfold in_u32. lia.
  - assert (Hn := Next_ok _ _ _ _ Hp). destruct (S i <? _) eqn:E; b2p.
    + destruct Hn as [Hn _]. by apply (points_item H).
    + rewrite Hn. symmetry. by apply lookup_ge_None.
  - assert (Hn := Prev_ok _ _ _ _ Hp). destruct (i =? 0); [by rewrite Hn|].
    destruct Hn as [Hn _]. by apply (points_item H).
Qed.

(** [Iterate] calls the callback on the items of ranks [rs] to [re], in order,
    until it asks to stop. *)
Theorem Iterate_visits {S} t rs re (cb : S → K → S * bool) s :
  tree_inv t → small t → (0 ≤ rs)%Z →
  Iterate rs re cb t s
  = visit cb (take (Z.to_nat (re - rs + 1)) (drop (Z.to_nat rs) (items t))) s.
Proof. apply Iterate_ok. Qed.

(** [IterateReverse] calls the callback on the items of reverse ranks [rs] to
    [re], in descending order, until it asks to stop. *)
Theorem IterateReverse_visits {S} t rs re (cb : S → K → S * bool) s :
  tree_inv t → small t → (0 ≤ rs ≤ re)%Z → (re < Z.of_nat (length (items t)))%Z →
  IterateReverse rs re cb t s
  = visit cb (take (Z.to_nat (re - rs + 1)) (drop (Z.to_nat rs) (reverse (items t)))) s.
Proof. apply IterateReverse_ok. Qed.

(** [GEQ] leads to the least item not below the query and [LEQ] to the greatest
    item not above it; the path is empty when there is none. *)
Theorem GEQ_LEQ_nearest t x :
  tree_inv t →
  path_item (GEQ (compare_to x) t) = head (filter (λ y, (compare_to x y ≤ 0)%Z) (items t)) ∧
  path_item (LEQ (compare_to x) t) = last (filter (λ y, (0 ≤ compare_to x y)%Z) (items t)).
Proof. intros Hinv. split; [by apply GEQ_ok|by apply LEQ_ok]. Qed.

(** [Clear] terminates, frees every node exactly once and leaves the empty tree,
    with the node counter back at zero. *)
Theorem Clear_frees t : tree_inv t → Clear t = Some empty_tree.
Proof. apply Clear_inv. Qed.

(** C31. With sixteen-byte keys a tree whose size fits the 32-bit counter never
    overflows the fixed path record of [kMaxDepth] entries. *)
Theorem path_depth_fits t r x :
  kKeySize = 16 → tree_inv t → small t → root_ t = Some r →
  Depth (Locate (compare_to x) r).2 ≤ kMaxDepth ∧ (height_ t ≤ Z.of_nat kMaxDepth)%Z.
Proof.
  intros Hk Hinv Hs Hr. destruct (Locate_depth t r x Hinv Hr) as (H & Hro & Hd & ->).
  assert (H ≤ kMaxDepth).
  { apply (height_bound H r); [done|]. unfold small, items in Hs. rewrite Hr in Hs.
    eapply Z.lt_trans; [exact Hs|]. 
    assert (Hmin : min_items 16 = (8 * 5 ^ 15 - 1)%Z); [|unfold kMaxDepth; rewrite Hmin; lia].
    unfold min_items, low, cap, kMaxLeafKeys, kMaxInnerKeys. rewrite Hk. vm_compute. reflexivity. }
  split; [lia|]. unfold kMaxDepth in *. rewrite u32_small; [lia|]. unfold in_u32. lia.
Qed.

(** [ForceUpdate] replaces the item equal to [old] by an equal object and changes
    nothing else. *)
Theorem ForceUpdate_replaces t old new_obj :
  tree_inv t → mem old (items t) = true → compare_to old new_obj = 0%Z →
  ∃ l1 k l2, items t = l1 ++ k :: l2 ∧ compare_to old k = 0%Z ∧
    tree_inv (ForceUpdate old new_obj t) ∧ items (ForceUpdate old new_obj t) = l1 ++ new_obj :: l2.
Proof. apply ForceUpdate_ok. Qed.

(** On a tree that is not empty [Contains] is membership. *)
Theorem Contains_mem t x :
  tree_inv t → items t ≠ [] → Contains x t = Some (mem x (items t)).
Proof.
  intros Hinv Hne. rewrite (Contains_ok t x Hinv). unfold items in *. by destruct (root_ t).
Qed.
End Contract.

(** ** A concrete tree *)

#[local] Existing Instance uint64_layout.
#[local] Existing Instance uint64_compare.

#[local] Instance uint64_layout_ok : LayoutOk.
Proof. unfold LayoutOk. simpl. lia. Qed.

#[local] Instance uint64_order : KeyOrder Z.
Proof. apply DefaultCompareTo_order, _. Qed.

(** Forty ascending keys: a root above two leaves of eight-byte keys. *)
Definition forty : BPTree Z := run_ops (map (λ n, OpInsert (Z.of_nat n)) (seq 1 40)).

Lemma forty_inv : tree_inv forty.
Proof. apply run_ops_ok. Qed.

Lemma forty_small : small forty.
Proof. unfold small. vm_compute. reflexivity. Qed.

Lemma Insert_refines_witness :
  tree_inv forty ∧
  (items (Insert 100%Z forty).1, (Insert 100%Z forty).2) = (map Z.of_nat (seq 1 40) ++ [100%Z], true).
Proof.
  split; [exact forty_inv|]. pose proof (Insert_refines _ 100%Z forty_inv) as (_ & Heq & _).
  etransitivity; [exact Heq|]. vm_compute. reflexivity.
Defined.

Lemma Delete_refines_witness :
  tree_inv forty ∧
  (items (Delete 40%Z forty).1, (Delete 40%Z forty).2) = (map Z.of_nat (seq 1 39), true).
Proof.
  split; [exact forty_inv|]. pose proof (Delete_refines _ 40%Z forty_inv) as (_ & Heq & _).
  etransitivity; [exact Heq|]. vm_compute. reflexivity.
Defined.

Lemma histories_refine_witness :
  tree_inv (run_ops [OpInsert 5%Z; OpInsert 3%Z; OpDelete 5%Z; OpInsert 9%Z]) ∧
  items (run_ops [OpInsert 5%Z; OpInsert 3%Z; OpDelete 5%Z; OpInsert 9%Z]) = [3; 9]%Z.
Proof.
  destruct (histories_refine [OpInsert 5%Z; OpInsert 3%Z; OpDelete 5%Z; OpInsert 9%Z]) as [H1 H2].
  split; [exact H1|]. etransitivity; [exact H2|]. vm_compute. reflexivity.
Defined.

Lemma GetRank_counts_witness : GetRank 7%Z true forty = Some 33%Z.
Proof.
  rewrite (GetRank_counts forty 7%Z true forty_inv forty_small). vm_compute. reflexivity.
Defined.

Lemma FromRank_steps_witness :
  4 < length (items forty) ∧ Rank (FromRank 4 forty) = 4%Z.
Proof.
  assert (Hi : 4 < length (items forty)) by (apply Nat.ltb_lt; vm_compute; reflexivity).
  split; [exact Hi|]. apply (FromRank_steps forty 4 forty_inv forty_small Hi).
Defined.

Lemma Iterate_visits_witness :
  Iterate 3 5 (λ (s : list Z) k, (k :: s, true)) forty [] = ([6; 5; 4]%Z, true).
Proof.
  rewrite (Iterate_visits forty 3 5 _ [] forty_inv forty_small) by discriminate.
  vm_compute. reflexivity.
Defined.

Lemma IterateReverse_visits_witness :
  IterateReverse 0 2 (λ (s : list Z) k, (k :: s, true)) forty [] = ([38; 39; 40]%Z, true).
Proof.
  rewrite (IterateReverse_visits forty 0 2 _ [] forty_inv forty_small).
  - vm_compute. reflexivity.
  - split; discriminate.
  - vm_compute. reflexivity.
Defined.

Lemma GEQ_LEQ_nearest_witness :
  path_item (GEQ (compare_to 0%Z) forty) = Some 1%Z ∧ path_item (LEQ (compare_to 0%Z) forty) = None.
Proof.
  pose proof (GEQ_LEQ_nearest forty 0%Z forty_inv) as [H1 H2]. split.
  - etransitivity; [exact H1|]. vm_compute. reflexivity.
  - etransitivity; [exact H2|]. vm_compute. reflexivity.
Defined.

Lemma Clear_frees_witness : tree_inv forty ∧ Clear forty = Some empty_tree.
Proof. split; [exact forty_inv|]. exact (Clear_frees forty forty_inv). Defined.

Lemma ForceUpdate_replaces_witness :
  ∃ l1 k l2, items forty = l1 ++ k :: l2 ∧ compare_to 9%Z k = 0%Z ∧
    tree_inv (ForceUpdate 9%Z 9%Z forty) ∧ items (ForceUpdate 9%Z 9%Z forty) = l1 ++ 9%Z :: l2.
Proof.
  apply (ForceUpdate_replaces forty 9%Z 9%Z forty_inv); vm_compute; reflexivity.
Defined.

Lemma Contains_mem_witness : Contains 41%Z forty = Some false.
Proof.
  rewrite (Contains_mem forty 41%Z forty_inv); vm_compute; [reflexivity|discriminate].
Defined.

(** The same keys in sixteen-byte slots: three levels. *)
Definition wide_layout : BPNodeLayout := {| kKeySize := 16 |}.

Lemma wide_layout_ok : @LayoutOk wide_layout.
Proof. unfold LayoutOk. simpl. lia. Qed.

Definition wide : BPTree Z :=
  run_ops (HL := wide_layout) (map (λ n, OpInsert (Z.of_nat n)) (seq 1 200)).

Definition wide_root : BPTreeNode Z := default inhabitant (root_ wide).

Lemma path_depth_fits_witness :
  root_ wide = Some wide_root ∧
  Depth (Locate (compare_to 77%Z) wide_root).2 ≤ kMaxDepth.
Proof.
  assert (Hinv : tree_inv (HL := wide_layout) wide)
    by apply (run_ops_ok (HL := wide_layout) (HLok := wide_layout_ok)).
  assert (Hr : root_ wide = Some wide_root) by (vm_compute; reflexivity).
  assert (Hs : small wide) by (unfold small; vm_compute; reflexivity).
  split; [exact Hr|].
  apply (path_depth_fits (HL := wide_layout) (HLok := wide_layout_ok) wide wide_root 77%Z eq_refl
    Hinv Hs Hr).
Defined.
