(* ===== verification/OrderedSet.v ===== *)
(** * Scores and ordered sets

    [double] values that are not NaN, ordered as IEEE 754 orders them, and the
    (score, hash) elements of src/astra/container/zset/bplustree_zset.hpp.
    Doubles are the Standard Library's [spec_float]; both zeros are values of
    their own that compare equal. *)
From Stdlib Require Import SpecFloat.
From S2P Require Import Prelude.
From S2P Require Import BPTreeNode.
From S2P Require Import BPTreeWf.
From S2P Require Import BPTreeRebalance.
From S2P Require Import BPTree.
From S2P Require Import BPTreeSearch.
From S2P Require Import BPTreeRank.
From S2P Require Import BPTreeSpec.

Definition is_nan (d : spec_float) : bool :=
  match d with S754_nan => true | _ => false end.

(** A double that is not NaN. *)
Record Score := MkScore { dval : spec_float; dval_ok : is_nan dval = false }.

Definition score_lt (a b : Score) : bool := SFltb (dval a) (dval b).
Definition score_eq (a b : Score) : bool := SFeqb (dval a) (dval b).
Definition score_le (a b : Score) : bool := SFleb (dval a) (dval b).

#[global] Instance spec_float_eq_dec : EqDecision spec_float.
Proof. solve_decision. Defined.

#[global] Instance Score_eq_dec : EqDecision Score.
Proof.
  intros [x Hx] [y Hy]. destruct (decide (x = y)) as [->|Hne].
  - left. f_equal. apply (Eqdep_dec.UIP_dec Bool.bool_dec).
  - right. intros [=]. done.
Defined.

Definition score_zero : Score := MkScore (S754_zero false) eq_refl.

(** ** Elements *)

Record ScoredMemberCompact := MkElement { score : Score; member_hash : Z }.

#[global] Instance ScoredMemberCompact_inhabited : Inhabited ScoredMemberCompact :=
  populate (MkElement score_zero 0).

#[global] Instance ScoredMemberCompact_eq_dec : EqDecision ScoredMemberCompact.
Proof. solve_decision. Defined.

(** [operator<]: by score, then by hash. *)
Definition element_lt (a b : ScoredMemberCompact) : bool :=
  if negb (score_eq (score a) (score b)) then score_lt (score a) (score b)
  else (member_hash a <? member_hash b)%Z.

(** [sizeof(ScoredMemberCompact)] is sixteen bytes. *)
#[global] Instance ScoredMember_layout : BPNodeLayout := {| kKeySize := 16 |}.
#[global] Instance ScoredMemberPolicy : KeyCompareTo ScoredMemberCompact := DefaultCompareTo element_lt.

(** ** The order of doubles *)

(** A double as a triple that is compared lexicographically. *)
Definition sf_key (d : spec_float) : Z * (Z * Z) :=
  match d with
  | S754_zero _ => (0, (0, 0))
  | S754_infinity true => (-2, (0, 0))
  | S754_infinity false => (2, (0, 0))
  | S754_nan => (3, (0, 0))
  | S754_finite true m e => (-1, (- e, Zneg m))
  | S754_finite false m e => (1, (e, Zpos m))
  end%Z.

Definition key_compare (a b : Z * (Z * Z)) : comparison :=
  match (a.1 ?= b.1)%Z with
  | Eq => match (a.2.1 ?= b.2.1)%Z with Eq => (a.2.2 ?= b.2.2)%Z | c => c end
  | c => c
  end.

Lemma SFcompare_key x y :
  is_nan x = false → is_nan y = false → SFcompare x y = Some (key_compare (sf_key x) (sf_key y)).
Proof.
  destruct x as [[]|[]| |[] mx ex], y as [[]|[]| |[] my ey]; intros Hx Hy; try done; simpl;
    unfold key_compare; simpl; f_equal.
  rewrite Z.compare_opp, (Z.compare_antisym ex ey). by destruct (ex ?= ey)%Z.
Qed.

Lemma key_compare_spec a b :
  match key_compare a b with
  | Eq => a = b
  | Lt => (a.1 < b.1 ∨ (a.1 = b.1 ∧ (a.2.1 < b.2.1 ∨ (a.2.1 = b.2.1 ∧ a.2.2 < b.2.2))))%Z
  | Gt => (b.1 < a.1 ∨ (a.1 = b.1 ∧ (b.2.1 < a.2.1 ∨ (a.2.1 = b.2.1 ∧ b.2.2 < a.2.2))))%Z
  end.
Proof.
  destruct a as [a1 [a2 a3]], b as [b1 [b2 b3]]. unfold key_compare. simpl.
  destruct (Z.compare_spec a1 b1); [|lia..]. destruct (Z.compare_spec a2 b2); [|lia..].
  destruct (Z.compare_spec a3 b3); subst; [done|lia..].
Qed.

Definition skey (s : Score) : Z * (Z * Z) := sf_key (dval s).

Lemma score_compare a b : SFcompare (dval a) (dval b) = Some (key_compare (skey a) (skey b)).
Proof. apply SFcompare_key; apply dval_ok. Qed.

Definition klt (a b : Z * (Z * Z)) : Prop := key_compare a b = Lt.

Lemma score_lt_key a b : score_lt a b = true ↔ klt (skey a) (skey b).
Proof. unfold score_lt, SFltb, klt. rewrite score_compare. by destruct (key_compare _ _). Qed.

Lemma score_eq_key a b : score_eq a b = true ↔ skey a = skey b.
Proof.
  unfold score_eq, SFeqb. rewrite score_compare. pose proof (key_compare_spec (skey a) (skey b)) as H.
  destruct (key_compare _ _); split; try done; intros E; rewrite E in H; lia.
Qed.

Lemma klt_spec a b : klt a b ↔
  (a.1 < b.1 ∨ (a.1 = b.1 ∧ (a.2.1 < b.2.1 ∨ (a.2.1 = b.2.1 ∧ a.2.2 < b.2.2))))%Z.
Proof.
  unfold klt. pose proof (key_compare_spec a b) as H. destruct (key_compare a b).
  - subst. split; [done|lia].
  - done.
  - split; [done|lia].
Qed.

(** Comparing scores is comparing their keys; [score_le] is its reflexive
    closure. *)
Lemma score_le_spec a b : score_le a b = score_lt a b || score_eq a b.
Proof.
  unfold score_le, score_lt, score_eq, SFleb, SFltb, SFeqb. rewrite score_compare.
  by destruct (key_compare _ _).
Qed.

(** [element_lt] compares score keys and then hashes, lexicographically. *)
Lemma element_lt_spec a b :
  element_lt a b = true ↔
  let x := skey (score a) in let y := skey (score b) in
  (x.1 < y.1 ∨ (x.1 = y.1 ∧ (x.2.1 < y.2.1 ∨ (x.2.1 = y.2.1 ∧
    (x.2.2 < y.2.2 ∨ (x.2.2 = y.2.2 ∧ member_hash a < member_hash b))))))%Z.
Proof.
  cbv zeta. unfold element_lt. destruct (score_eq (score a) (score b)) eqn:E; simpl.
  - apply score_eq_key in E. rewrite Z.ltb_lt, E. lia.
  - rewrite score_lt_key, klt_spec.
    assert (Hne : skey (score a) ≠ skey (score b)) by (intros H; apply score_eq_key in H; congruence).
    destruct (skey (score a)) as [a1 [a2 a3]], (skey (score b)) as [b1 [b2 b3]]. simpl in *.
    split; [lia|]. intros H. assert (¬ (a1 = b1 ∧ a2 = b2 ∧ a3 = b3)%Z) by naive_solver. lia.
Qed.

#[global] Instance element_order : StrictWeakOrder element_lt.
Proof.
  split.
  - intros x. apply not_true_iff_false. rewrite element_lt_spec. cbv zeta. lia.
  - intros x y z. rewrite !element_lt_spec. cbv zeta. lia.
  - intros x y z. rewrite <-!not_true_iff_false, !element_lt_spec. cbv zeta. lia.
Qed.

#[global] Instance element_key_order : KeyOrder ScoredMemberCompact.
Proof. apply DefaultCompareTo_order, _. Qed.

(** Elements compare equal when their hashes are and their scores are. *)
Lemma compare_element_eq a b :
  compare_to a b = 0%Z ↔ score_eq (score a) (score b) = true ∧ member_hash a = member_hash b.
Proof.
  assert (Hkey : skey (score a) = skey (score b) ↔
    ((skey (score a)).1 = (skey (score b)).1 ∧ (skey (score a)).2.1 = (skey (score b)).2.1 ∧
     (skey (score a)).2.2 = (skey (score b)).2.2)%Z).
  { destruct (skey (score a)) as [a1 [a2 a3]], (skey (score b)) as [b1 [b2 b3]]. simpl.
    split; [by intros [= -> -> ->]|]. by intros (-> & -> & ->). }
  unfold compare_to, ScoredMemberPolicy, DefaultCompareTo. rewrite score_eq_key, Hkey.
  destruct (element_lt a b) eqn:H1; [|destruct (element_lt b a) eqn:H2];
    rewrite <-?not_true_iff_false, ?element_lt_spec in *; cbv zeta in *; lia.
Qed.

#[global] Instance ScoredMember_layout_ok : LayoutOk.
Proof. unfold LayoutOk. simpl. lia. Qed.

(** ** Ordered sets

    What the sorted set takes from the tree it is built on, as an interface:
    the operations ([OrderedSet]) and their laws over a sorted list
    ([OrderedSetLaws]); the B+ tree is an instance. *)

Class OrderedSet (K T : Type) := {
  os_empty : T;
  os_insert : K → T → T * bool;
  os_delete : K → T → T * bool;
  os_size : T → Z;
  os_is_empty : T → bool;
  os_rank : K → bool → T → option Z;
  os_at : Z → T → option K;
  os_clear : T → option T
}.

Class OrderedSetLaws (K T : Type) `{!KeyCompareTo K, !OrderedSet K T} := {
  os_inv : T → Prop;
  os_items : T → list K;
  os_sorted t : os_inv t → sorted (os_items t);
  os_empty_ok : os_inv os_empty ∧ os_items os_empty = [];
  os_insert_ok t x :
    os_inv t → os_inv (os_insert x t).1 ∧
    (os_items (os_insert x t).1, (os_insert x t).2) = insert_spec x (os_items t);
  os_delete_ok t x :
    os_inv t → os_inv (os_delete x t).1 ∧
    (os_items (os_delete x t).1, (os_delete x t).2) = delete_spec x (os_items t);
  os_size_ok t :
    os_inv t → (Z.of_nat (length (os_items t)) < 2 ^ 32)%Z →
    os_size t = Z.of_nat (length (os_items t)) ∧
    os_is_empty t = (length (os_items t) =? 0);
  os_rank_ok t x reverse :
    os_inv t → (Z.of_nat (length (os_items t)) < 2 ^ 32)%Z →
    os_rank x reverse t =
      if mem x (os_items t)
      then Some (Z.of_nat (if reverse then length (os_items t) - 1 - rank_of x (os_items t)
                           else rank_of x (os_items t)))
      else None;
  os_at_ok t i :
    os_inv t → (Z.of_nat (length (os_items t)) < 2 ^ 32)%Z → i < length (os_items t) →
    os_at (Z.of_nat i) t = os_items t !! i;
  os_clear_ok t : os_inv t → os_clear t = Some os_empty
}.

Section BPTreeInstance.
Context {K : Type} {HK : Inhabited K} {HL : BPNodeLayout} {HC : KeyCompareTo K}.

(** [os_at] is [FromRank] followed by [path.Last()] on a path that is not
    empty. *)
#[global] Instance BPTree_OrderedSet : OrderedSet K (BPTree K) := {|
  os_empty := empty_tree;
  os_insert := Insert;
  os_delete := Delete;
  os_size := Size;
  os_is_empty := TreeEmpty;
  os_rank := GetRank;
  os_at rank t := path_item (FromRank rank t);
  os_clear := Clear
|}.

#[global] Instance BPTree_OrderedSetLaws {HLok : LayoutOk} {HO : KeyOrder K} :
  OrderedSetLaws K (BPTree K).
Proof.
  refine {| os_inv := tree_inv; os_items := items |}.
  - intros t [Hs _]. exact Hs.
  - split; [apply empty_tree_inv|done].
  - intros t x Hinv. destruct (Insert_ok t x Hinv) as (H1 & H2 & _). done.
  - intros t x Hinv. destruct (Delete_ok t x Hinv) as (H1 & H2 & _). done.
  - intros t Hinv Hs. simpl. unfold Size, TreeEmpty. rewrite (count_small t Hinv Hs).
    split; [done|]. by destruct (length (items t)).
  - intros t x reverse Hinv Hs. by apply GetRank_ok.
  - intros t i Hinv Hs Hi. destruct (FromRank_points t i Hinv Hs Hi) as (H & r & _ & _ & -> & Hp).
    by apply (points_item H).
  - apply Clear_inv.
Defined.
End BPTreeInstance.
