(* ===== verification/ZSet.v ===== *)
(** * Sorted sets

    Models src/astra/container/zset/bplustree_zset.hpp and .cpp: the tree of
    (score, hash) elements, the member-to-score map and the hash-to-member
    map.  [hash] is [absl::Hash<std::string>]; scores are doubles other than
    NaN. *)
From Stdlib Require Import SpecFloat.
From S2P Require Import Prelude.
From S2P Require Import BPTreeNode.
From S2P Require Import BPTreeWf.
From S2P Require Import BPTreeSearch.
From S2P Require Import BPTree.
From S2P Require Import BPTreeSpec.
From S2P Require Import OrderedSet.

Record ZSetBPlus (T : Type) := MkZSet {
  ordered_set_ : T;
  member_to_score_ : gmap bytes Score;
  hash_to_member_ : gmap Z bytes
}.
Arguments MkZSet {T} _ _ _.
Arguments ordered_set_ {T} _.
Arguments member_to_score_ {T} _.
Arguments hash_to_member_ {T} _.

Section ZSet.
Context {T : Type} {OS : OrderedSet ScoredMemberCompact T} (hash : bytes → Z).
Implicit Types (z : ZSetBPlus T) (member : bytes).

Definition empty_zset : ZSetBPlus T := MkZSet os_empty ∅ ∅.

Definition MakeElement member (s : Score) : ScoredMemberCompact := MkElement s (hash member).
Definition FindMemberByHash (h : Z) z : option bytes := hash_to_member_ z !! h.

Definition Add member (s : Score) z : ZSetBPlus T * bool :=
  match member_to_score_ z !! member with
  | Some old_score =>
      if negb (score_eq old_score s) then
        let os := (os_delete (MakeElement member old_score) (ordered_set_ z)).1 in
        let os := (os_insert (MakeElement member s) os).1 in
        (MkZSet os (<[member := s]> (member_to_score_ z))
                   (<[hash member := member]> (hash_to_member_ z)), false)
      else (z, false)
  | None =>
      let os := (os_insert (MakeElement member s) (ordered_set_ z)).1 in
      (MkZSet os (<[member := s]> (member_to_score_ z))
                 (<[hash member := member]> (hash_to_member_ z)), true)
  end.

Definition Remove member z : ZSetBPlus T * bool :=
  match member_to_score_ z !! member with
  | Some s =>
      (MkZSet (os_delete (MakeElement member s) (ordered_set_ z)).1
              (delete member (member_to_score_ z))
              (delete (hash member) (hash_to_member_ z)), true)
  | None => (z, false)
  end.

Definition GetScore member z : option Score := member_to_score_ z !! member.

Definition GetRank member (reverse : bool) z : option Z :=
  s ← member_to_score_ z !! member;
  os_rank (MakeElement member s) reverse (ordered_set_ z).

(** The element of a rank; the [reverse] argument of the two callers is not
    used. *)
Definition ElementByRank (rank : Z) z : option ScoredMemberCompact :=
  if (os_size (ordered_set_ z) <=? rank)%Z then None else os_at (u32 rank) (ordered_set_ z).

Definition GetByRank (rank : Z) (reverse : bool) z : option bytes :=
  e ← ElementByRank rank z; FindMemberByHash (member_hash e) z.

Definition GetScoreByRank (rank : Z) (reverse : bool) z : option Score :=
  e ← ElementByRank rank z; Some (score e).

(** [result.push_back]: the member of an element, and its score or zero. *)
Definition push_element (with_scores : bool) (e : ScoredMemberCompact) z : option (bytes * Score) :=
  m ← FindMemberByHash (member_hash e) z;
  Some (m, if with_scores then score e else score_zero).

Definition in_range (lo hi : Score) (e : ScoredMemberCompact) : bool :=
  score_le lo (score e) && score_le (score e) hi.

Definition GetRangeByScore (lo hi : Score) (with_scores : bool) z : list (bytes * Score) :=
  omap (λ i, e ← os_at i (ordered_set_ z);
             if in_range lo hi e then push_element with_scores e z else None)
       (seqZ 0 (os_size (ordered_set_ z))).

Definition GetRangeByRank (start stop : Z) (reverse with_scores : bool) z : list (bytes * Score) :=
  let size := os_size (ordered_set_ z) in
  if (size <=? start)%Z then []
  else
    let stop := Z.min stop (size - 1) in
    omap (λ i, e ← os_at (if reverse then u32 (size - 1 - i) else u32 i) (ordered_set_ z);
               push_element with_scores e z)
         (seqZ start (stop - start + 1)).

Definition CountRange (lo hi : Score) z : Z :=
  foldl (λ count i, match os_at i (ordered_set_ z) with
                    | Some e => if in_range lo hi e then u64 (count + 1) else count
                    | None => count
                    end)
        0%Z (seqZ 0 (os_size (ordered_set_ z))).

Definition ZSize z : Z := os_size (ordered_set_ z).
Definition ZEmpty z : bool := os_is_empty (ordered_set_ z).
Definition ZContains member z : bool := bool_decide (is_Some (member_to_score_ z !! member)).

Definition ZClear z : option (ZSetBPlus T) :=
  os ← os_clear (ordered_set_ z); Some (MkZSet os ∅ ∅).

Definition GetAll z : list (bytes * Score) := map_to_list (member_to_score_ z).

(** [RemoveRangeByScore] holds the mutex when it calls [Remove], which locks
    it again: with a member to remove, the call does not return ([None]). *)
Definition RemoveRangeByScore (lo hi : Score) z : option (ZSetBPlus T * Z) :=
  let to_remove := filter (λ ms : bytes * Score, score_le lo ms.2 && score_le ms.2 hi = true)
                          (map_to_list (member_to_score_ z)) in
  match to_remove with [] => Some (z, 0%Z) | _ :: _ => None end.

(** ** The invariant

    The tree holds exactly the elements of the members, and the two maps
    invert each other: no two members of the set have the same hash. *)

Context {OL : OrderedSetLaws ScoredMemberCompact T}.

Definition elements z : list ScoredMemberCompact := os_items (ordered_set_ z).

Record zset_inv z : Prop := {
  inv_tree : os_inv (ordered_set_ z);
  inv_elements e :
    e ∈ elements z ↔ ∃ m s, member_to_score_ z !! m = Some s ∧ e = MakeElement m s;
  inv_hash m s : member_to_score_ z !! m = Some s → hash_to_member_ z !! hash m = Some m;
  inv_member h m :
    hash_to_member_ z !! h = Some m → h = hash m ∧ is_Some (member_to_score_ z !! m)
}.

(** The members in order with their scores. *)
Definition listing z : list (bytes * Score) := omap (λ e, push_element true e z) (elements z).

Lemma empty_zset_inv : zset_inv empty_zset.
Proof.
  destruct os_empty_ok as [H1 H2]. split; [done|..].
  - intros e. unfold elements. simpl. rewrite H2. split; [set_solver|].
    intros (m & s & Hm & _). simpl in Hm. by rewrite lookup_empty in Hm.
  - intros m s Hm. simpl in Hm. by rewrite lookup_empty in Hm.
  - intros h m Hm. simpl in Hm. by rewrite lookup_empty in Hm.
Qed.

Lemma elem_of_ins (q x : ScoredMemberCompact) l :
  mem q l = false → x ∈ ins q l ↔ x = q ∨ x ∈ l.
Proof.
  intros Hm. unfold ins. rewrite elem_of_app, elem_of_cons, !list_elem_of_filter.
  split; [tauto|]. intros [->|Hx]; [tauto|].
  destruct (Z.lt_trichotomy (compare_to q x) 0) as [?|[E|?]]; [tauto| |tauto].
  exfalso. apply not_true_iff_false in Hm. apply Hm. apply existsb_exists. exists x.
  split; [by apply list_elem_of_In|by apply Z.eqb_eq].
Qed.

Lemma elem_of_del (q x : ScoredMemberCompact) l :
  x ∈ del q l ↔ x ∈ l ∧ compare_to q x ≠ 0%Z.
Proof. unfold del. rewrite list_elem_of_filter. tauto. Qed.

(** Two elements of the set that compare equal are the same member's. *)
Lemma element_unique z m s e :
  zset_inv z → member_to_score_ z !! m = Some s → e ∈ elements z →
  compare_to (MakeElement m s) e = 0%Z → e = MakeElement m s.
Proof.
  intros Hz Hm He Hc. apply (inv_elements z Hz) in He as (m' & s' & Hm' & ->).
  apply compare_element_eq in Hc as [_ Hh]. simpl in Hh.
  assert (H1 := inv_hash z Hz _ _ Hm). assert (H2 := inv_hash z Hz _ _ Hm').
  rewrite Hh in H1. simplify_eq. done.
Qed.

Lemma fresh_not_mem z m s :
  zset_inv z → hash_to_member_ z !! hash m = None → mem (MakeElement m s) (elements z) = false.
Proof.
  intros Hz Hh. apply not_true_iff_false. intros (e & He & Hc)%existsb_exists.
  apply list_elem_of_In, (inv_elements z Hz) in He as (m' & s' & Hm' & ->).
  apply Z.eqb_eq, compare_element_eq in Hc as [_ Hc]. simpl in Hc.
  apply (inv_hash z Hz) in Hm'. congruence.
Qed.

(** Deleting the element of a member leaves the elements of the others. *)
Lemma delete_member_elements z m s e :
  zset_inv z → member_to_score_ z !! m = Some s →
  e ∈ del (MakeElement m s) (elements z) ↔
  ∃ m' s', m' ≠ m ∧ member_to_score_ z !! m' = Some s' ∧ e = MakeElement m' s'.
Proof.
  intros Hz Hm. rewrite elem_of_del, (inv_elements z Hz). split.
  - intros [(m' & s' & Hm' & ->) Hc]. exists m', s'. split_and!; try done. intros ->.
    simplify_eq. by rewrite compare_refl in Hc.
  - intros (m' & s' & Hne & Hm' & ->). split; [by exists m', s'|]. intros Hc.
    assert (He : MakeElement m' s' = MakeElement m s).
    { apply (element_unique z); try done. apply (inv_elements z Hz). by exists m', s'. }
    injection He as -> Hh. apply (inv_hash z Hz) in Hm, Hm'. rewrite Hh in Hm'. congruence.
Qed.

Lemma Remove_ok member z :
  zset_inv z →
  zset_inv (Remove member z).1 ∧ (Remove member z).2 = ZContains member z ∧
  member_to_score_ (Remove member z).1 = delete member (member_to_score_ z).
Proof.
  intros Hz. unfold Remove, ZContains. destruct (member_to_score_ z !! member) as [s|] eqn:Hm.
  2: { simpl. by rewrite delete_id. }
  split; [|done]. destruct (os_delete_ok _ (MakeElement member s) (inv_tree z Hz)) as [Hd1 Hd2].
  injection Hd2 as Hd2 _. assert (Hh := inv_hash z Hz _ _ Hm).
  split; cbn [fst ordered_set_ member_to_score_ hash_to_member_].
  - done.
  - intros e. unfold elements. cbn [fst ordered_set_]. rewrite Hd2.
    rewrite (delete_member_elements z member s e Hz Hm).
    split; intros (m' & s' & H); exists m', s'; rewrite lookup_delete_Some in *; naive_solver.
  - intros m' s' [Hne Hm']%lookup_delete_Some. rewrite lookup_delete_Some.
    assert (Hh' := inv_hash z Hz _ _ Hm'). split; [congruence|done].
  - intros h m' [Hne Hh']%lookup_delete_Some. destruct (inv_member z Hz _ _ Hh') as [-> [s' Hs']].
    split; [done|]. exists s'. apply lookup_delete_Some. split; [congruence|done].
Qed.

(** Adding a member that is not there and whose hash is not taken. *)
Lemma add_fresh_ok member s z :
  zset_inv z → member_to_score_ z !! member = None → hash_to_member_ z !! hash member = None →
  zset_inv (MkZSet (os_insert (MakeElement member s) (ordered_set_ z)).1
                   (<[member := s]> (member_to_score_ z))
                   (<[hash member := member]> (hash_to_member_ z))).
Proof.
  intros Hz Hm Hh. assert (Hmem := fresh_not_mem z member s Hz Hh).
  destruct (os_insert_ok _ (MakeElement member s) (inv_tree z Hz)) as [Hi1 Hi2].
  unfold insert_spec, elements in *. rewrite Hmem in Hi2. injection Hi2 as Hi2 _.
  split; cbn [ordered_set_ member_to_score_ hash_to_member_].
  - done.
  - intros e. unfold elements. cbn [ordered_set_]. rewrite Hi2, elem_of_ins by done.
    rewrite (inv_elements z Hz). split.
    + intros [->|(m' & s' & Hm' & ->)]; [exists member, s; by rewrite lookup_insert_eq|].
      exists m', s'. rewrite lookup_insert_ne by congruence. done.
    + intros (m' & s' & [[-> ->]|[Hne Hm']]%lookup_insert_Some & ->); [by left|right; by exists m', s'].
  - intros m' s' [[<- <-]|[Hne Hm']]%lookup_insert_Some; [by rewrite lookup_insert_eq|].
    apply (inv_hash z Hz) in Hm'. rewrite lookup_insert_ne by congruence. done.
  - intros h m' [[<- <-]|[Hne Hh']]%lookup_insert_Some.
    + split; [done|]. rewrite lookup_insert_eq. by eexists.
    + destruct (inv_member z Hz _ _ Hh') as [-> [s' Hs']]. split; [done|]. exists s'.
      rewrite lookup_insert_ne by congruence. done.
Qed.

Lemma Add_ok member s z :
  zset_inv z →
  (member_to_score_ z !! member = None → hash_to_member_ z !! hash member = None) →
  zset_inv (Add member s z).1 ∧
  (Add member s z).2 = negb (ZContains member z) ∧
  member_to_score_ (Add member s z).1 =
    match member_to_score_ z !! member with
    | Some old => if score_eq old s then member_to_score_ z else <[member := s]> (member_to_score_ z)
    | None => <[member := s]> (member_to_score_ z)
    end.
Proof.
  intros Hz Hfresh. unfold Add, ZContains. destruct (member_to_score_ z !! member) as [old|] eqn:Hm.
  - destruct (score_eq old s) eqn:Heq; simpl; [done|]. split; [|done].
    destruct (Remove_ok member z Hz) as (Hr & _ & Hr2). unfold Remove in Hr, Hr2. rewrite Hm in Hr, Hr2.
    cbn [fst] in Hr. apply (add_fresh_ok member s) in Hr; cbn [ordered_set_ member_to_score_ hash_to_member_] in *.
    + by rewrite !insert_delete_eq in Hr.
    + by rewrite lookup_delete_eq.
    + by rewrite lookup_delete_eq.
  - split; [|done]. apply add_fresh_ok; try done. auto.
Qed.

(** ** Reading the set in order *)

Lemma element_listing z e :
  zset_inv z → e ∈ elements z →
  ∃ m, push_element true e z = Some (m, score e) ∧ member_to_score_ z !! m = Some (score e) ∧
       e = MakeElement m (score e).
Proof.
  intros Hz He. apply (inv_elements z Hz) in He as (m & s & Hm & ->). exists m.
  unfold push_element, FindMemberByHash. cbn [member_hash MakeElement score].
  by rewrite (inv_hash z Hz _ _ Hm).
Qed.

Lemma listing_lookup z i :
  zset_inv z → listing z !! i = (e ← elements z !! i; push_element true e z).
Proof.
  intros Hz. unfold listing. assert (Hall : Forall (λ e, is_Some (push_element true e z)) (elements z)).
  { apply Forall_forall. intros e He. destruct (element_listing z e Hz He) as (m & -> & _). by eexists. }
  revert i. induction Hall as [|e l [x Hx] _ IH]; intros i; [done|].
  simpl. rewrite Hx. destruct i as [|i]; simpl; [done|]. apply IH.
Qed.

Lemma NoDup_sorted (l : list ScoredMemberCompact) : sorted l → NoDup l.
Proof.
  unfold sorted. induction 1 as [|x l _ IH HF]; constructor; [|done].
  intros Hx. rewrite Forall_forall in HF. specialize (HF _ Hx). unfold key_lt in HF.
  rewrite compare_refl in HF. lia.
Qed.

(** The ordered view has exactly the entries of the member map. *)
Lemma listing_perm z : zset_inv z → listing z ≡ₚ map_to_list (member_to_score_ z).
Proof.
  intros Hz. apply NoDup_Permutation.
  - apply NoDup_alt. intros i j ms Hi Hj. rewrite !listing_lookup in Hi, Hj by done.
    destruct (elements z !! i) as [ei|] eqn:Hei; [|done]. destruct (elements z !! j) as [ej|] eqn:Hej; [|done].
    simpl in *. assert (Hnd := NoDup_sorted _ (os_sorted _ (inv_tree z Hz))).
    destruct (element_listing z ei Hz) as (mi & Hpi & Hmi & Hi'); [by eapply list_elem_of_lookup_2|].
    destruct (element_listing z ej Hz) as (mj & Hpj & Hmj & Hj'); [by eapply list_elem_of_lookup_2|].
    rewrite Hpi in Hi. rewrite Hpj in Hj. simplify_eq.
    rewrite NoDup_alt in Hnd. apply (Hnd i j ei); [done|]. unfold elements in *. congruence.
  - apply NoDup_map_to_list.
  - intros [m s]. rewrite elem_of_map_to_list. unfold listing. rewrite list_elem_of_omap. split.
    + intros (e & He & Hp). destruct (element_listing z e Hz He) as (m' & Hp' & Hm' & _). congruence.
    + intros Hm. exists (MakeElement m s). split; [apply (inv_elements z Hz); by exists m, s|].
      unfold push_element, FindMemberByHash. simpl. by rewrite (inv_hash z Hz _ _ Hm).
Qed.

(** ** The set by rank and by score *)

(** The number of elements fits the tree's 32-bit counter. *)
Definition small_set z : Prop := (Z.of_nat (length (elements z)) < 2 ^ 32)%Z.

(** The entry of an element, and the scores dropped when not asked for. *)
Definition entry z (e : ScoredMemberCompact) : bytes * Score :=
  (default [] (FindMemberByHash (member_hash e) z), score e).
Definition strip (with_scores : bool) (l : list (bytes * Score)) : list (bytes * Score) :=
  if with_scores then l else (λ ms : bytes * Score, (ms.1, score_zero)) <$> l.

Lemma omap_push with_scores z l :
  zset_inv z → l ⊆ elements z →
  omap (λ e, push_element with_scores e z) l = strip with_scores (entry z <$> l).
Proof.
  intros Hz. induction l as [|e l IH]; intros Hl; [by destruct with_scores|].
  rewrite omap_cons_eq, IH by set_solver. rewrite fmap_cons.
  destruct (element_listing z e Hz) as (m & Hp & _); [set_solver|].
  unfold push_element, entry in *. destruct (FindMemberByHash _ z) as [m'|]; [|done].
  by destruct with_scores.
Qed.

Lemma listing_entries z : zset_inv z → listing z = entry z <$> elements z.
Proof. intros Hz. exact (omap_push true z (elements z) Hz (reflexivity _)). Qed.

Lemma length_listing z : zset_inv z → length (listing z) = length (elements z).
Proof. intros Hz. by rewrite listing_entries, length_fmap. Qed.

Lemma size_elements z : zset_inv z → size (member_to_score_ z) = length (elements z).
Proof.
  intros Hz. rewrite <-length_listing by done. rewrite (listing_perm z Hz). by rewrite length_map_to_list.
Qed.

(** A loop that reads the ranks of a run of elements reads the run. *)
Lemma omap_seqZ {A B} (g : Z → option A) (f : A → option B) (l : list A) start :
  (∀ i x, l !! i = Some x → g (start + Z.of_nat i)%Z = Some x) →
  omap (λ i, x ← g i; f x) (seqZ start (Z.of_nat (length l))) = omap f l.
Proof.
  revert start. induction l as [|x l IH]; intros start Hg; [done|].
  rewrite seqZ_cons by (simpl; lia).
  replace (Z.pred (Z.of_nat (length (x :: l)))) with (Z.of_nat (length l)) by (simpl; lia).
  rewrite !omap_cons_eq. assert (H0 := Hg 0 x eq_refl). rewrite Z.add_0_r in H0. rewrite H0.
  rewrite (IH (Z.succ start)); [done|]. intros i y Hi. rewrite <-(Hg (S i) y Hi). f_equal. lia.
Qed.

Lemma os_at_element z i e :
  zset_inv z → small_set z → elements z !! i = Some e →
  os_at (Z.of_nat i) (ordered_set_ z) = Some e.
Proof.
  intros Hz Hs Hi. rewrite os_at_ok; [done|apply Hz|done|by eapply lookup_lt_Some].
Qed.

Lemma os_size_elements z :
  zset_inv z → small_set z → os_size (ordered_set_ z) = Z.of_nat (length (elements z)).
Proof. intros Hz Hs. by apply os_size_ok; [apply Hz|]. Qed.

Lemma filter_entries lo hi z (l : list ScoredMemberCompact) :
  filter (λ ms : bytes * Score, score_le lo ms.2 && score_le ms.2 hi = true) (entry z <$> l) =
  entry z <$> filter (λ e, in_range lo hi e = true) l.
Proof.
  induction l as [|e l IH]; [done|]. rewrite fmap_cons, !filter_cons, IH.
  unfold in_range at 1. cbn [entry snd]. by destruct (decide _).
Qed.

Lemma GetRangeByScore_ok lo hi with_scores z :
  zset_inv z → small_set z →
  GetRangeByScore lo hi with_scores z =
  strip with_scores
    (filter (λ ms : bytes * Score, score_le lo ms.2 && score_le ms.2 hi = true) (listing z)).
Proof.
  intros Hz Hs. unfold GetRangeByScore. rewrite os_size_elements by done.
  rewrite (omap_seqZ (λ i, os_at i (ordered_set_ z))
             (λ e, if in_range lo hi e then push_element with_scores e z else None) (elements z)).
  2: { intros i e Hi. by apply os_at_element. }
  rewrite listing_entries, filter_entries by done.
  rewrite <-omap_push by (try done; intros e He; apply list_elem_of_filter in He; tauto).
  generalize (elements z). intros l. induction l as [|e l IH]; [done|]. rewrite filter_cons.
  rewrite omap_cons_eq, IH. destruct (decide _) as [E|E]; [by rewrite E|].
  apply not_true_is_false in E. by rewrite E.
Qed.

Lemma count_fold (g : Z → option ScoredMemberCompact) lo hi l start c :
  (∀ i x, l !! i = Some x → g (start + Z.of_nat i)%Z = Some x) →
  (0 ≤ c ∧ c + Z.of_nat (length l) < 2 ^ 64)%Z →
  foldl (λ count i, match g i with
                    | Some e => if in_range lo hi e then u64 (count + 1) else count
                    | None => count
                    end) c (seqZ start (Z.of_nat (length l))) =
  (c + Z.of_nat (length (filter (λ e, in_range lo hi e = true) l)))%Z.
Proof.
  revert start c. induction l as [|x l IH]; intros start c Hg Hc; [simpl; lia|].
  rewrite seqZ_cons by (simpl; lia). rewrite filter_cons.
  replace (Z.pred (Z.of_nat (length (x :: l)))) with (Z.of_nat (length l)) by (simpl; lia).
  cbn [foldl]. assert (H0 := Hg 0 x eq_refl). rewrite Z.add_0_r in H0. rewrite H0.
  cbn [length] in Hc. rewrite IH.
  - destruct (decide _) as [E|E]; [rewrite E|apply not_true_is_false in E; by rewrite E].
    cbn [length]. rewrite u64_small by (unfold in_u64; lia). lia.
  - intros i y Hi. rewrite <-(Hg (S i) y Hi). f_equal. lia.
  - destruct (in_range lo hi x); [rewrite u64_small by (unfold in_u64; lia)|]; lia.
Qed.

Lemma CountRange_ok lo hi z :
  zset_inv z → small_set z →
  CountRange lo hi z =
  Z.of_nat (length (filter (λ ms : bytes * Score, score_le lo ms.2 && score_le ms.2 hi = true)
                           (listing z))).
Proof.
  intros Hz Hs. unfold CountRange. rewrite os_size_elements by done.
  rewrite (count_fold (λ i, os_at i (ordered_set_ z))).
  - by rewrite listing_entries, filter_entries, length_fmap by done.
  - intros i e Hi. by apply os_at_element.
  - unfold small_set in Hs. lia.
Qed.

Lemma GetRangeByRank_ok start stop reverse with_scores z :
  zset_inv z → small_set z → (0 ≤ start)%Z →
  GetRangeByRank start stop reverse with_scores z =
  strip with_scores
    (take (Z.to_nat (stop - start + 1))
       (drop (Z.to_nat start) (if reverse then rev (listing z) else listing z))).
Proof.
  intros Hz Hs H0. unfold GetRangeByRank. rewrite os_size_elements by done.
  set (order := if reverse then rev (elements z) else elements z).
  assert (Hlen : length order = length (elements z)) by (unfold order; destruct reverse; by rewrite ?length_rev).
  assert (Hlist : (if reverse then rev (listing z) else listing z) = entry z <$> order).
  { rewrite listing_entries by done. unfold order. destruct reverse; [|done]. symmetry. apply map_rev. }
  rewrite Hlist, <-fmap_drop, <-fmap_take.
  destruct (_ <=? start)%Z eqn:Hb; b2p.
  { rewrite drop_ge by lia. rewrite take_nil. by destruct with_scores. }
  rewrite <-omap_push; [|done|].
  2: { intros e He. apply list_elem_of_lookup in He as [i He]. apply lookup_take_Some in He as [He _].
       rewrite lookup_drop in He. apply list_elem_of_lookup_2 in He. unfold order in He. destruct reverse; [|done].
       by apply list_elem_of_In, in_rev, list_elem_of_In in He. }
  set (l := take _ _).
  rewrite <-(omap_seqZ (λ i, os_at (if reverse then u32 (Z.of_nat (length (elements z)) - 1 - i) else u32 i)
                                   (ordered_set_ z)) (λ e, push_element with_scores e z) l start).
  - assert (Hl : length l = Z.to_nat (Z.min stop (Z.of_nat (length (elements z)) - 1) - start + 1)).
    { unfold l. rewrite length_take, length_drop. lia. }
    rewrite Hl. unfold seqZ. by rewrite Nat2Z.id.
  - intros i e Hi. unfold l in Hi. apply lookup_take_Some in Hi as [Hi _]. rewrite lookup_drop in Hi.
    assert (Hj := lookup_lt_Some _ _ _ Hi). unfold small_set in Hs. unfold order in Hi. destruct reverse.
    + rewrite rev_alt in Hi. apply reverse_lookup_Some in Hi as [Hi _]. rewrite u32_small by (unfold in_u32; lia).
      rewrite <-(os_at_element z _ e Hz Hs Hi). f_equal. lia.
    + rewrite u32_small by (unfold in_u32; lia). rewrite <-(os_at_element z _ e Hz Hs Hi). f_equal. lia.
Qed.
End ZSet.
