(* ===== verification/ZSetContract.v ===== *)
(** * Sorted sets: the contract of the class

    The theorems about [ZSetBPlus] as its clients see it, over any ordered set
    with the laws of [OrderedSetLaws], each applied to a set on the B+ tree. *)
From Stdlib Require Import SpecFloat.
From S2P Require Import Prelude.
From S2P Require Import BPTreeNode.
From S2P Require Import BPTreeSearch.
From S2P Require Import BPTree.
From S2P Require Import BPTreeSpec.
From S2P Require Import OrderedSet.
From S2P Require Import ZSet.

(** What a call of [ZAdd] or [ZRem] does to a map of scores. *)
Inductive zset_op := ZAdd (member : bytes) (s : Score) | ZRem (member : bytes).

Definition op_member (o : zset_op) : bytes :=
  match o with ZAdd m _ => m | ZRem m => m end.

Definition zadd_spec (member : bytes) (s : Score) (M : gmap bytes Score) : gmap bytes Score :=
  match M !! member with
  | Some old => if score_eq old s then M else <[member := s]> M
  | None => <[member := s]> M
  end.

Definition zop_spec (M : gmap bytes Score) (o : zset_op) : gmap bytes Score :=
  match o with ZAdd m s => zadd_spec m s M | ZRem m => delete m M end.

Section ZSetContract.
Context {T : Type} {OS : OrderedSet ScoredMemberCompact T} {OL : OrderedSetLaws ScoredMemberCompact T}.
Context (hash : bytes → Z).
Implicit Types (z : ZSetBPlus T) (member m : bytes).
Abbreviation zset_inv := (zset_inv hash).

Definition run_zop z (o : zset_op) : ZSetBPlus T :=
  match o with ZAdd m s => (Add hash m s z).1 | ZRem m => (Remove hash m z).1 end.
Definition run_zops (os : list zset_op) : ZSetBPlus T := foldl run_zop empty_zset os.

(** The members of a history have hashes of their own. *)
Definition no_collision (os : list zset_op) : Prop :=
  ∀ o o', o ∈ os → o' ∈ os → hash (op_member o) = hash (op_member o') → op_member o = op_member o'.

(** ** Helper lemmas *)

(** The ordered view is sorted by score. *)
Definition score_sorted (l : list (bytes * Score)) : Prop :=
  StronglySorted (λ a b : bytes * Score, score_le a.2 b.2 = true) l.

Lemma key_lt_score (a b : ScoredMemberCompact) : key_lt a b → score_le (score a) (score b) = true.
Proof.
  unfold key_lt, compare_to, ScoredMemberPolicy, DefaultCompareTo.
  destruct (element_lt a b) eqn:E; [|by destruct (element_lt b a)]. intros _.
  rewrite score_le_spec. unfold element_lt in E.
  destruct (score_eq (score a) (score b)); simpl in *; [apply orb_true_r|by rewrite E].
Qed.

Lemma listing_sorted z : zset_inv z → score_sorted (listing z).
Proof.
  intros Hz. rewrite (listing_entries hash) by done. unfold score_sorted.
  assert (H := os_sorted _ (inv_tree hash z Hz)). unfold sorted in H. change (os_items _) with (elements z) in H.
  induction H as [|e l _ IH HF]; [constructor|]. rewrite fmap_cons. constructor; [done|].
  apply Forall_fmap. eapply Forall_impl; [done|]. intros e'. apply key_lt_score.
Qed.

(** The member of a position of the listing has that rank. *)
Lemma GetRank_at z i m s reverse :
  zset_inv z → small_set z → listing z !! i = Some (m, s) →
  GetRank hash m reverse z = Some (Z.of_nat (if reverse then length (elements z) - 1 - i else i)).
Proof.
  intros Hz Hs Hi. rewrite (listing_lookup hash z i Hz) in Hi.
  destruct (elements z !! i) as [e|] eqn:He; [|done]. simpl in Hi.
  destruct (element_listing hash z e Hz) as (m' & Hp & Hm & Hee); [by eapply list_elem_of_lookup_2|].
  rewrite Hp in Hi. injection Hi as -> <-. unfold GetRank. rewrite Hm. simpl. rewrite <-Hee.
  rewrite os_rank_ok by (try done; apply Hz). change (os_items (ordered_set_ z)) with (elements z).
  apply list_elem_of_split_length in He as (l1 & l2 & Hl & Hi).
  assert (Hsort := os_sorted _ (inv_tree hash z Hz)). change (os_items _) with (elements z) in Hsort.
  rewrite Hl in Hsort |- *. unfold sorted in Hsort.
  apply StronglySorted_app_iff in Hsort as (_ & Hs2 & H12). apply StronglySorted_inv in Hs2 as [_ HF].
  rewrite rank_of_app.
  - unfold mem. rewrite existsb_app. simpl. rewrite compare_refl. simpl. rewrite orb_true_r.
    by rewrite <-Hi.
  - apply Forall_forall. intros x Hx. apply compare_gt. apply H12; [done|]. apply list_elem_of_here.
  - constructor; [rewrite compare_refl; lia|]. eapply Forall_impl; [done|]. unfold key_lt. simpl. lia.
Qed.

Lemma listing_member z m s :
  zset_inv z → member_to_score_ z !! m = Some s ↔ ∃ i, listing z !! i = Some (m, s).
Proof.
  intros Hz. rewrite <-elem_of_map_to_list, <-(listing_perm hash z Hz). apply list_elem_of_lookup.
Qed.

Lemma ElementByRank_at z i :
  zset_inv z → small_set z → ElementByRank (Z.of_nat i) z = elements z !! i.
Proof.
  intros Hz Hs. unfold ElementByRank. rewrite (os_size_elements hash) by done. unfold small_set in Hs.
  destruct (_ <=? _)%Z eqn:E; b2p; [symmetry; apply lookup_ge_None; lia|].
  destruct (lookup_lt_is_Some_2 (elements z) i) as [e He]; [lia|].
  rewrite u32_small by (unfold in_u32; lia). rewrite He. by apply (os_at_element hash).
Qed.

Lemma GetByRank_at z i reverse :
  zset_inv z → small_set z → GetByRank (Z.of_nat i) reverse z = fst <$> (listing z !! i).
Proof.
  intros Hz Hs. unfold GetByRank. rewrite ElementByRank_at, (listing_lookup hash) by done.
  destruct (elements z !! i) as [e|]; [|done]. simpl. unfold push_element.
  by destruct (FindMemberByHash _ z).
Qed.

Lemma GetScoreByRank_at z i reverse :
  zset_inv z → small_set z → GetScoreByRank (Z.of_nat i) reverse z = snd <$> (listing z !! i).
Proof.
  intros Hz Hs. unfold GetScoreByRank. rewrite ElementByRank_at, (listing_entries hash) by done.
  rewrite list_lookup_fmap. by destruct (elements z !! i).
Qed.

Lemma run_zops_app os o : run_zops (os ++ [o]) = run_zop (run_zops os) o.
Proof. apply foldl_snoc. Qed.

Lemma run_zops_ok os :
  no_collision os →
  zset_inv (run_zops os) ∧ member_to_score_ (run_zops os) = foldl zop_spec ∅ os ∧
  (∀ m, is_Some (member_to_score_ (run_zops os) !! m) → ∃ o, o ∈ os ∧ op_member o = m).
Proof.
  induction os as [|o os IH] using rev_ind; intros Hnc.
  { split; [apply empty_zset_inv|]. split; [done|]. intros m [s Hs]. cbn [run_zops foldl empty_zset member_to_score_] in Hs.
    by rewrite lookup_empty in Hs. }
  destruct IH as (Hz & Hm & Hops); [intros a b Ha Hb; apply Hnc; set_solver|].
  rewrite run_zops_app, foldl_snoc, <-Hm. set (z := run_zops os) in *.
  assert (Hold : ∀ m, is_Some (member_to_score_ z !! m) → ∃ o', o' ∈ os ++ [o] ∧ op_member o' = m).
  { intros m Hs. destruct (Hops m Hs) as (o' & Ho' & <-). exists o'. set_solver. }
  destruct o as [m s|m]; cbn [run_zop zop_spec].
  - destruct (Add_ok hash m s z Hz) as (H1 & _ & H3).
    { intros HN. destruct (hash_to_member_ z !! hash m) as [m'|] eqn:Hh; [|done]. exfalso.
      destruct (inv_member hash z Hz _ _ Hh) as [Heq Hs]. destruct (Hops m' Hs) as (o' & Ho' & <-).
      assert (m = op_member o') as -> by (apply (Hnc (ZAdd m s) o'); set_solver).
      destruct Hs as [? Hs]. congruence. }
    split; [done|]. split; [done|]. intros m'. rewrite H3. intros Hs.
    destruct (decide (m' = m)) as [->|Hne]; [exists (ZAdd m s); set_solver|]. apply Hold.
    destruct (member_to_score_ z !! m) as [old|]; [destruct (score_eq old s); [done|]|];
      by rewrite lookup_insert_ne in Hs.
  - destruct (Remove_ok hash m z Hz) as (H1 & _ & H3). split; [done|]. split; [done|].
    intros m'. rewrite H3. intros [s [_ Hs]%lookup_delete_Some]. apply Hold. by eexists.
Qed.

(** ** The theorems *)

(** [Add] keeps the invariant, provided a new member's hash is not that of a
    member of the set. It says whether the member is new; the score is replaced
    when it differs (as doubles), and no other member is touched. *)
Theorem Add_updates member s z :
  zset_inv z →
  (member_to_score_ z !! member = None → hash_to_member_ z !! hash member = None) →
  zset_inv (Add hash member s z).1 ∧
  (Add hash member s z).2 = negb (ZContains member z) ∧
  member_to_score_ (Add hash member s z).1 = zadd_spec member s (member_to_score_ z).
Proof. apply Add_ok. Qed.

(** [Remove] keeps the invariant, says whether the member was there, and removes
    it and nothing else. *)
Theorem Remove_updates member z :
  zset_inv z →
  zset_inv (Remove hash member z).1 ∧
  (Remove hash member z).2 = ZContains member z ∧
  member_to_score_ (Remove hash member z).1 = delete member (member_to_score_ z).
Proof. apply Remove_ok. Qed.

(** C12. After any history of [Add] and [Remove] calls whose members have distinct
    hashes, the three structures agree and the set is the map the history
    describes. *)
Theorem zset_histories os :
  no_collision os →
  zset_inv (run_zops os) ∧ member_to_score_ (run_zops os) = foldl zop_spec ∅ os.
Proof. intros H. destruct (run_zops_ok os H) as (H1 & H2 & _). done. Qed.

(** The tree lists every member with its score exactly once, in non-decreasing
    order of the scores, and [Size] counts them. *)
Theorem ordered_view z :
  zset_inv z → small_set z →
  listing z ≡ₚ GetAll z ∧ score_sorted (listing z) ∧
  ZSize z = Z.of_nat (size (member_to_score_ z)) ∧ ZEmpty z = bool_decide (member_to_score_ z = ∅).
Proof.
  intros Hz Hs. split; [by apply (listing_perm hash)|]. split; [by apply listing_sorted|].
  rewrite (size_elements hash) by done. split; [by apply (os_size_elements hash)|].
  unfold ZEmpty. destruct (os_size_ok _ (inv_tree hash z Hz) Hs) as [_ ->].
  change (os_items _) with (elements z). rewrite <-(size_elements hash) by done.
  destruct (Nat.eqb_spec (size (member_to_score_ z)) 0) as [E|E]; symmetry.
  - apply bool_decide_eq_true. by apply map_size_empty_iff.
  - apply bool_decide_eq_false. by rewrite <-map_size_empty_iff.
Qed.

(** [GetRank] and [GetByRank] are inverse to each other; the reverse rank counts
    from the other end, and [GetScoreByRank] is the member's score. *)
Theorem rank_roundtrip z m i reverse :
  zset_inv z → small_set z →
  (GetByRank (Z.of_nat i) reverse z = Some m ↔ GetRank hash m false z = Some (Z.of_nat i)) ∧
  (GetRank hash m false z = Some (Z.of_nat i) →
   GetScoreByRank (Z.of_nat i) reverse z = GetScore m z ∧
   GetRank hash m true z = Some (ZSize z - 1 - Z.of_nat i)%Z).
Proof.
  intros Hz Hs.
  assert (Hrank : GetRank hash m false z = Some (Z.of_nat i) →
                  ∃ s, listing z !! i = Some (m, s) ∧ member_to_score_ z !! m = Some s).
  { intros Hr. assert (Hr' := Hr). unfold GetRank in Hr'.
    destruct (member_to_score_ z !! m) as [s|] eqn:Hm; [|done]. exists s. split; [|done].
    assert (Hm' := Hm). apply (listing_member z m s Hz) in Hm' as [j Hj].
    rewrite (GetRank_at z j m s false Hz Hs Hj) in Hr. injection Hr as Hr%Nat2Z.inj. by subst. }
  split.
  - rewrite GetByRank_at by done. split.
    + intros Hi. destruct (listing z !! i) as [[m' s]|] eqn:Hl; [|done]. injection Hi as ->.
      by rewrite (GetRank_at z i m s false Hz Hs Hl).
    + intros (s & -> & _)%Hrank. done.
  - intros (s & Hl & Hm)%Hrank. rewrite GetScoreByRank_at by done. unfold GetScore. rewrite Hl, Hm.
    split; [done|]. rewrite (GetRank_at z i m s true Hz Hs Hl). unfold ZSize.
    rewrite (os_size_elements hash) by done. f_equal.
    apply lookup_lt_Some in Hl. rewrite (length_listing hash) in Hl by done. lia.
Qed.

(** [GetRangeByRank] is the slice from [start] to [stop] of the ordered view (of
    its reverse with [reverse]), bounds past the end included. *)
Theorem GetRangeByRank_slice start stop reverse with_scores z :
  zset_inv z → small_set z → (0 ≤ start)%Z →
  GetRangeByRank start stop reverse with_scores z =
  strip with_scores
    (take (Z.to_nat (stop - start + 1))
       (drop (Z.to_nat start) (if reverse then rev (listing z) else listing z))).
Proof. apply GetRangeByRank_ok. Qed.

(** [GetRangeByScore] is the part of the ordered view with scores between the
    bounds, in order, and [CountRange] is its length. *)
Theorem GetRangeByScore_filters lo hi with_scores z :
  zset_inv z → small_set z →
  let range := filter (λ ms : bytes * Score, score_le lo ms.2 && score_le ms.2 hi = true) (listing z) in
  GetRangeByScore lo hi with_scores z = strip with_scores range ∧
  CountRange lo hi z = Z.of_nat (length range).
Proof. intros Hz Hs. split; [by apply (GetRangeByScore_ok hash)|by apply (CountRange_ok hash)]. Qed.

(** [RemoveRangeByScore] returns only when there is nothing to remove: a member in
    the range makes it lock its own mutex again. *)
Theorem RemoveRangeByScore_hangs lo hi z :
  zset_inv z → small_set z →
  (RemoveRangeByScore lo hi z = None ↔ (0 < CountRange lo hi z)%Z).
Proof.
  intros Hz Hs. rewrite (CountRange_ok hash) by done. unfold RemoveRangeByScore.
  set (P := λ ms : bytes * Score, score_le lo ms.2 && score_le ms.2 hi = true).
  assert (Hp : filter P (map_to_list (member_to_score_ z)) ≡ₚ filter P (listing z))
    by (by rewrite (listing_perm hash z Hz)).
  apply Permutation_length in Hp. rewrite <-Hp.
  destruct (filter P (map_to_list _)); simpl; split; try done; lia.
Qed.
End ZSetContract.

(** ** The theorems at work *)

(** A hash for the examples: the text as a number in base 256. *)
Definition text_hash (m : bytes) : Z :=
  u64 (foldl (λ h c, h * 256 + Z.of_N (N_of_ascii c))%Z 0%Z m).

Definition int_score (p : positive) : Score := MkScore (S754_finite false p 0) eq_refl.

Definition sample_ops : list zset_op :=
  [ZAdd (B "a") (int_score 2); ZAdd (B "b") (int_score 1); ZAdd (B "c") (int_score 1);
   ZAdd (B "d") (int_score 5); ZAdd (B "a") (int_score 3); ZRem (B "c")].

Definition sample : ZSetBPlus (BPTree ScoredMemberCompact) := run_zops text_hash sample_ops.

Lemma sample_no_collision : no_collision text_hash sample_ops.
Proof.
  assert (H : forallb (λ o, forallb (λ o', implb (text_hash (op_member o) =? text_hash (op_member o'))%Z
                              (bool_decide (op_member o = op_member o'))) sample_ops) sample_ops = true)
    by (vm_compute; reflexivity).
  intros o o' Ho Ho' Hh. rewrite forallb_forall in H. apply list_elem_of_In in Ho, Ho'.
  specialize (H o Ho). cbv beta in H. rewrite forallb_forall in H. specialize (H o' Ho'). cbv beta in H.
  rewrite Hh, Z.eqb_refl in H. by apply bool_decide_eq_true in H.
Qed.

Lemma sample_inv : zset_inv text_hash sample.
Proof. apply (run_zops_ok text_hash sample_ops sample_no_collision). Qed.

Lemma sample_small : small_set sample.
Proof. vm_compute. reflexivity. Qed.

Lemma Add_updates_witness :
  zset_inv text_hash (Add text_hash (B "e") (int_score 4) sample).1 ∧
  (Add text_hash (B "e") (int_score 4) sample).2 = true.
Proof.
  destruct (Add_updates text_hash (B "e") (int_score 4) sample sample_inv) as (H1 & H2 & _).
  - intros _. vm_compute. reflexivity.
  - split; [exact H1|]. etransitivity; [exact H2|]. vm_compute. reflexivity.
Defined.

Lemma Remove_updates_witness :
  zset_inv text_hash (Remove text_hash (B "a") sample).1 ∧ (Remove text_hash (B "a") sample).2 = true.
Proof.
  destruct (Remove_updates text_hash (B "a") sample sample_inv) as (H1 & H2 & _).
  split; [exact H1|]. etransitivity; [exact H2|]. vm_compute. reflexivity.
Defined.

Lemma zset_histories_witness :
  zset_inv text_hash sample ∧
  member_to_score_ sample !! B "a" = Some (int_score 3) ∧ member_to_score_ sample !! B "c" = None.
Proof.
  destruct (zset_histories (T := BPTree ScoredMemberCompact) text_hash sample_ops sample_no_collision) as [H1 H2].
  split; [exact H1|]. unfold sample. rewrite H2. vm_compute. done.
Defined.

Lemma ordered_view_witness :
  score_sorted (listing sample) ∧
  listing sample = [(B "b", int_score 1); (B "a", int_score 3); (B "d", int_score 5)] ∧ ZSize sample = 3%Z.
Proof.
  destruct (ordered_view text_hash sample sample_inv sample_small) as (_ & H2 & H3 & _).
  split; [exact H2|]. split; [vm_compute; reflexivity|]. etransitivity; [exact H3|]. vm_compute. reflexivity.
Defined.

Lemma rank_roundtrip_witness :
  GetByRank 1 false sample = Some (B "a") ∧ GetRank text_hash (B "a") false sample = Some 1%Z ∧
  GetRank text_hash (B "d") true sample = Some 0%Z.
Proof.
  destruct (rank_roundtrip text_hash sample (B "a") 1 false sample_inv sample_small) as [H1 _].
  destruct (rank_roundtrip text_hash sample (B "d") 2 false sample_inv sample_small) as [_ H2].
  assert (Ha : GetRank text_hash (B "a") false sample = Some 1%Z) by (vm_compute; reflexivity).
  split; [by apply H1|]. split; [done|].
  destruct H2 as [_ H2]; [vm_compute; reflexivity|]. etransitivity; [exact H2|]. vm_compute. reflexivity.
Defined.

Lemma GetRangeByRank_slice_witness :
  GetRangeByRank 0 1 true true sample = [(B "d", int_score 5); (B "a", int_score 3)].
Proof.
  etransitivity; [apply (GetRangeByRank_slice text_hash 0 1 true true sample sample_inv sample_small); lia|].
  vm_compute. reflexivity.
Defined.

Lemma GetRangeByScore_filters_witness :
  GetRangeByScore (int_score 1) (int_score 3) true sample = [(B "b", int_score 1); (B "a", int_score 3)] ∧
  CountRange (int_score 1) (int_score 3) sample = 2%Z.
Proof.
  destruct (GetRangeByScore_filters text_hash (int_score 1) (int_score 3) true sample sample_inv sample_small)
    as [H1 H2].
  split; [etransitivity; [exact H1|]|etransitivity; [exact H2|]]; vm_compute; reflexivity.
Defined.

Lemma RemoveRangeByScore_hangs_witness : RemoveRangeByScore (int_score 1) (int_score 1) sample = None.
Proof.
  apply (RemoveRangeByScore_hangs text_hash (int_score 1) (int_score 1) sample sample_inv sample_small).
  vm_compute. reflexivity.
Defined.

(** Two members with one hash and one score: the second one is reported as
    added, but the tree holds one element, and the first member is answered
    with the rank of the second. *)
Example collision_loses_member :
  let hash (_ : bytes) := 7%Z in
  let z : ZSetBPlus (BPTree ScoredMemberCompact) :=
    (Add hash (B "y") (int_score 1) (Add hash (B "x") (int_score 1) empty_zset).1).1 in
  ZSize z = 1%Z ∧ ZContains (B "x") z = true ∧ ZContains (B "y") z = true ∧
  GetRangeByRank 0 10 false true z = [(B "y", int_score 1)].
Proof. vm_compute. done. Qed.

(** [GetByRank] with [reverse] answers as without it. *)
Example GetByRank_ignores_reverse : GetByRank 0 true sample = GetByRank 0 false sample.
Proof. reflexivity. Qed.
