(* ===== verification/Simd.v ===== *)
(** * SIMD text search

    Models src/astra/base/simd_utils.hpp for the x86-64 build: SSE2 and
    SSE4.2, no AVX2 and no NEON.  A vector register is the list of its bytes, a
    comparison mask the list of its bits, lowest first. *)
From Stdlib Require Import ZifyNat.
From S2P Require Import Prelude.

Local Ltac Zify.zify_post_hook ::= Z.to_euclidean_division_equations.

Definition CR : ascii := "013".
Definition LF : ascii := "010".
Definition CRLF : bytes := [CR; LF].

(** [__builtin_ctz] of a mask; [None] when the mask is zero. *)
Fixpoint ctz (mask : list bool) : option nat :=
  match mask with
  | [] => None
  | true :: _ => Some 0
  | false :: mask => S <$> ctz mask
  end.

Definition ascii_eqb (a b : ascii) : bool := bool_decide (a = b).

(** [_mm_cmpeq_epi8] and [_mm_movemask_epi8]. *)
Definition cmpeq_mask (chunk : bytes) (c : ascii) : list bool := ascii_eqb c <$> chunk.

(** The loop of [FindCRLF_SSE42]: [data] is what starts at offset [i], and the
    loop runs while a whole vector and one more byte are left. *)
Fixpoint find_crlf_sse42_loop (fuel i : nat) (data : bytes) : option nat :=
  match fuel with
  | O => None
  | S fuel =>
      if 16 <=? length data - 1 then
        match ctz (cmpeq_mask (take 16 data) CR) with
        | Some pos =>
            if (pos <? 15) && bool_decide (data !! (pos + 1) = Some LF) then Some (i + pos)
            else find_crlf_sse42_loop fuel (i + 16) (drop 16 data)
        | None => find_crlf_sse42_loop fuel (i + 16) (drop 16 data)
        end
      else None
  end.

Definition FindCRLF_SSE42 (data : bytes) : option nat :=
  find_crlf_sse42_loop (length data) 0 data.

(** The scalar loop at the end of [FindCRLF]. *)
Fixpoint find_crlf_scalar (i : nat) (data : bytes) : option nat :=
  match data with
  | a :: (b :: _) as rest =>
      if ascii_eqb a CR && ascii_eqb b LF then Some i else find_crlf_scalar (S i) rest
  | _ => None
  end.

Definition FindCRLF (data : bytes) : option nat :=
  let size := length data in
  if size <? 2 then None
  else if 16 <=? size then
    match FindCRLF_SSE42 data with
    | Some result => Some result
    | None =>
        let processed := (size / 16) * 16 in
        if size - 1 <=? processed then None
        else find_crlf_scalar processed (drop processed data)
    end
  else find_crlf_scalar 0 data.

(** [FindCRLF_AVX2], for a build that has it: sixteen-bit lanes are compared
    with 0x0D0A, the bytes LF, CR in memory order. *)
Fixpoint lanes_lfcr (chunk : bytes) : list bool :=
  match chunk with
  | a :: b :: chunk => let m := ascii_eqb a LF && ascii_eqb b CR in m :: m :: lanes_lfcr chunk
  | _ => []
  end.

Fixpoint find_crlf_avx2_loop (fuel i : nat) (data : bytes) : option nat :=
  match fuel with
  | O => None
  | S fuel =>
      if 32 <=? length data - 1 then
        let mask := lanes_lfcr (take 32 data) in
        match ctz mask with
        | Some pos =>
            if existsb id (take 2 (drop pos mask)) then Some (i + pos)
            else find_crlf_avx2_loop fuel (i + 32) (drop 32 data)
        | None => find_crlf_avx2_loop fuel (i + 32) (drop 32 data)
        end
      else None
  end.

Definition FindCRLF_AVX2 (data : bytes) : option nat := find_crlf_avx2_loop (length data) 0 data.

(** ** Comparing and scanning *)

Definition code (c : ascii) : Z := Z.of_N (N_of_ascii c).
Definition of_code (z : Z) : ascii := ascii_of_N (Z.to_N z).

(** A byte as the signed eight-bit lane [_mm_cmpgt_epi8] compares. *)
Definition signed_code (c : ascii) : Z := if (code c <? 128)%Z then code c else (code c - 256)%Z.

(** What the vector loop compares: 0x20 is set in the bytes above 'Z'. *)
Definition lower_lane (c : ascii) : Z :=
  if (code "Z" <? signed_code c)%Z then Z.lor (code c) 32 else code c.

Fixpoint case_insensitive_sse2_loop (fuel : nat) (a b : bytes) : bool :=
  match fuel with
  | O => true
  | S fuel =>
      if 16 <=? length a then
        if forallb id (zip_with (λ x y, lower_lane x =? lower_lane y)%Z (take 16 a) (take 16 b))
        then case_insensitive_sse2_loop fuel (drop 16 a) (drop 16 b)
        else false
      else true
  end.

Definition CaseInsensitiveEquals_SSE2 (a b : bytes) : bool :=
  case_insensitive_sse2_loop (length a) a b.

(** The scalar case folding. *)
Definition upper_byte (c : ascii) : Z :=
  if (code "a" <=? code c)%Z && (code c <=? code "z")%Z then (code c - 32)%Z else code c.

(** Both texts have the length [len]. *)
Definition CaseInsensitiveEquals (a b : bytes) : bool :=
  let len := length a in
  let processed := if 16 <=? len then (len / 16) * 16 else 0 in
  (if 16 <=? len then CaseInsensitiveEquals_SSE2 a b else true) &&
  forallb id (zip_with (λ x y, upper_byte x =? upper_byte y)%Z (drop processed a) (drop processed b)).

(** FNV-1a over [char], which is signed: bytes above 127 are sign-extended. *)
Definition HashString (data : bytes) : Z :=
  foldl (λ hash c, u64 (Z.lxor hash (u64 (signed_code c)) * 1099511628211))%Z
        14695981039346656037%Z data.

(** The difference of the bytes at the first position where the texts
    differ, for a vector of [w] bytes. *)
Fixpoint mem_compare_loop (w fuel : nat) (a b : bytes) : Z :=
  match fuel with
  | O => 0%Z
  | S fuel =>
      if w <=? length a then
        match ctz (zip_with (λ x y, negb (ascii_eqb x y)) (take w a) (take w b)) with
        | Some pos => (code (nth pos a "000"%char) - code (nth pos b "000"%char))%Z
        | None => mem_compare_loop w fuel (drop w a) (drop w b)
        end
      else 0%Z
  end.

Definition MemCompare_SSE2 (a b : bytes) : Z := mem_compare_loop 16 (length a) a b.

(** [std::memcmp], with the difference of the first bytes that differ. *)
Fixpoint memcmp (a b : bytes) : Z :=
  match a, b with
  | x :: a, y :: b => if ascii_eqb x y then memcmp a b else (code x - code y)%Z
  | _, _ => 0%Z
  end.

Definition MemCompare (a b : bytes) : Z :=
  let len := length a in
  if 16 <=? len then
    let result := MemCompare_SSE2 a b in
    if negb (result =? 0)%Z then result
    else let processed := (len / 16) * 16 in memcmp (drop processed a) (drop processed b)
  else memcmp a b.

Fixpoint has_zero_sse2_loop (fuel : nat) (data : bytes) : bool :=
  match fuel with
  | O => false
  | S fuel =>
      if 16 <=? length data then
        match ctz (cmpeq_mask (take 16 data) "000") with
        | Some _ => true
        | None => has_zero_sse2_loop fuel (drop 16 data)
        end
      else false
  end.

Definition HasZero_SSE2 (data : bytes) : bool := has_zero_sse2_loop (length data) data.

Definition HasZero (data : bytes) : bool :=
  let len := length data in
  if (16 <=? len) && HasZero_SSE2 data then true
  else existsb (λ c, ascii_eqb c "000") (drop ((len / 16) * 16) data).

(** ** Finding the end of a line *)

(** No carriage return in a text. *)
Definition no_cr (l : bytes) : Prop := Forall (λ c, c ≠ CR) l.

(** Where the search sees a line end at offset [k] of [n] bytes: inside a
    vector that is loaded, or in the tail after the last vector. *)
Definition visible (k n : nat) : Prop :=
  (k mod 16 ≠ 15 ∧ (k / 16) * 16 + 16 < n) ∨ (n / 16) * 16 ≤ k.

Lemma ctz_mask_some chunk c pos :
  ctz (cmpeq_mask chunk c) = Some pos → chunk !! pos = Some c ∧ Forall (λ x, x ≠ c) (take pos chunk).
Proof.
  revert pos. induction chunk as [|x chunk IH]; intros pos H; [done|]. cbn [cmpeq_mask fmap list_fmap ctz] in H.
  unfold ascii_eqb at 1 in H. destruct (bool_decide (c = x)) eqn:E.
  - apply bool_decide_eq_true in E as ->. by injection H as <-.
  - apply bool_decide_eq_false in E. destruct (ctz (ascii_eqb c <$> chunk)) as [pos'|] eqn:H'; [|done].
    injection H as <-. destruct (IH pos' H') as [H1 H2]. split; [done|]. simpl. by constructor.
Qed.

Lemma ctz_mask_none chunk c : ctz (cmpeq_mask chunk c) = None → Forall (λ x, x ≠ c) chunk.
Proof.
  induction chunk as [|x chunk IH]; intros H; [constructor|]. cbn [cmpeq_mask fmap list_fmap ctz] in H.
  unfold ascii_eqb at 1 in H. destruct (bool_decide (c = x)) eqn:E; [done|].
  apply bool_decide_eq_false in E. constructor; [done|]. apply IH.
  unfold cmpeq_mask. by destruct (ctz (ascii_eqb c <$> chunk)).
Qed.

Lemma sse42_loop_sound fuel i data p :
  find_crlf_sse42_loop fuel i data = Some p →
  ∃ k, p = i + k ∧ data !! k = Some CR ∧ data !! S k = Some LF ∧
       k mod 16 ≠ 15 ∧ (k / 16) * 16 + 16 < length data.
Proof.
  revert i data. induction fuel as [|fuel IH]; intros i data H; [done|]. cbn [find_crlf_sse42_loop] in H.
  destruct (16 <=? length data - 1) eqn:Hl; [|done]. b2p.
  assert (Hrec : find_crlf_sse42_loop fuel (i + 16) (drop 16 data) = Some p →
    ∃ k, p = i + k ∧ data !! k = Some CR ∧ data !! S k = Some LF ∧
         k mod 16 ≠ 15 ∧ (k / 16) * 16 + 16 < length data).
  { intros Hr. apply IH in Hr as (k & -> & H1 & H2 & H3 & H4). exists (16 + k).
    rewrite lookup_drop in H1, H2. rewrite length_drop in H4. split_and!; try done; try lia. }
  destruct (ctz _) as [pos|] eqn:Hc; [|by apply Hrec].
  destruct ((pos <? 15) && _) eqn:Hb; [|by apply Hrec]. injection H as <-. b2p.
  match goal with H : bool_decide _ = true |- _ => apply bool_decide_eq_true in H; rewrite Nat.add_1_r in H end.
  apply ctz_mask_some in Hc as [Hc _]. apply lookup_take_Some in Hc as [Hc _].
  exists pos. split_and!; try done; lia.
Qed.

Lemma sse42_loop_finds fuel i l r :
  no_cr l → length l + 2 + length r ≤ fuel →
  length l mod 16 ≠ 15 → (length l / 16) * 16 + 16 < length l + 2 + length r →
  find_crlf_sse42_loop fuel i (l ++ CR :: LF :: r) = Some (i + length l).
Proof.
  revert i l. induction fuel as [|fuel IH]; intros i l Hl Hf Hm Hd; [lia|]. cbn [find_crlf_sse42_loop].
  rewrite length_app. cbn [length]. rewrite (proj2 (Nat.leb_le 16 _)) by lia.
  destruct (decide (length l < 16)) as [Hs|Hs].
  - destruct (ctz _) as [pos|] eqn:Hc.
    + apply ctz_mask_some in Hc as [Hc Hn]. apply lookup_take_Some in Hc as [Hc _].
      assert (pos = length l) as ->.
      { destruct (Nat.lt_trichotomy pos (length l)) as [Hp|[Hp|Hp]]; [|done|].
        - rewrite lookup_app_l in Hc by done. unfold no_cr in Hl. rewrite Forall_forall in Hl.
          exfalso. eapply Hl; [by eapply list_elem_of_lookup_2|done].
        - rewrite Forall_forall in Hn. exfalso. apply (Hn CR); [|done].
          apply list_elem_of_lookup. exists (length l). rewrite !lookup_take_lt by lia.
          by rewrite list_lookup_middle. }
      rewrite Nat.mod_small in Hm by lia. rewrite (proj2 (Nat.ltb_lt _ 15)) by lia.
      rewrite lookup_app_r by lia. by replace (length l + 1 - length l) with 1 by lia.
    + apply ctz_mask_none in Hc. rewrite Forall_forall in Hc. exfalso. apply (Hc CR); [|done].
      apply list_elem_of_lookup. exists (length l). rewrite lookup_take_lt by lia. by rewrite list_lookup_middle.
  - destruct (ctz _) as [pos|] eqn:Hc.
    { apply ctz_mask_some in Hc as [Hc _]. apply lookup_take_Some in Hc as [Hc Hp].
      rewrite lookup_app_l in Hc by lia. unfold no_cr in Hl. rewrite Forall_forall in Hl.
      exfalso. eapply Hl; [by eapply list_elem_of_lookup_2|done]. }
    rewrite drop_app_le by lia. rewrite IH.
    + f_equal. rewrite length_drop. lia.
    + by apply Forall_drop.
    + rewrite length_drop. lia.
    + rewrite length_drop. lia.
    + rewrite length_drop. lia.
Qed.

Lemma scalar_sound i data p :
  find_crlf_scalar i data = Some p →
  ∃ k, p = i + k ∧ data !! k = Some CR ∧ data !! S k = Some LF.
Proof.
  revert i. induction data as [|a data IH]; intros i H; [done|]. destruct data as [|b data]; [done|].
  cbn [find_crlf_scalar] in H. destruct (ascii_eqb a CR && ascii_eqb b LF) eqn:E.
  - apply andb_prop in E as [E1%bool_decide_eq_true E2%bool_decide_eq_true]. injection H as <-. subst.
    exists 0. split; [lia|done].
  - apply IH in H as (k & -> & H1 & H2). exists (S k). split; [lia|done].
Qed.

Lemma scalar_step i a b d :
  find_crlf_scalar i (a :: b :: d) =
  if ascii_eqb a CR && ascii_eqb b LF then Some i else find_crlf_scalar (S i) (b :: d).
Proof. done. Qed.

Lemma scalar_finds i l r : no_cr l → find_crlf_scalar i (l ++ CR :: LF :: r) = Some (i + length l).
Proof.
  intros Hl. revert i. induction Hl as [|a l Ha _ IH]; intros i; [simpl; f_equal; lia|].
  assert (Hne : ascii_eqb a CR = false) by (by apply bool_decide_eq_false).
  cbn [app length]. replace (i + S (length l)) with (S i + length l) by lia. rewrite <-(IH (S i)).
  destruct l as [|b l]; cbn [app]; rewrite scalar_step, Hne; done.
Qed.

Lemma FindCRLF_SSE42_none data : length data ≤ 16 → FindCRLF_SSE42 data = None.
Proof.
  intros H. unfold FindCRLF_SSE42. destruct data as [|c data]; [done|]. cbn [length find_crlf_sse42_loop].
  cbn [length] in H. by rewrite (proj2 (Nat.leb_gt 16 _)) by lia.
Qed.

(** The search in one shape: the vectors, then the tail. *)
Lemma FindCRLF_unfold data :
  2 ≤ length data →
  FindCRLF data =
    match FindCRLF_SSE42 data with
    | Some p => Some p
    | None => find_crlf_scalar ((length data / 16) * 16) (drop ((length data / 16) * 16) data)
    end.
Proof.
  intros H2. unfold FindCRLF. rewrite (proj2 (Nat.ltb_ge _ 2)) by lia.
  destruct (16 <=? length data) eqn:H16; b2p.
  - destruct (FindCRLF_SSE42 data) as [p|]; [done|]. destruct (_ <=? _) eqn:Hp; [b2p|done].
    destruct (drop ((length data / 16) * 16) data) as [|a [|b d]] eqn:Hd; [done..|].
    apply (f_equal length) in Hd. rewrite length_drop in Hd. cbn [length] in Hd. lia.
  - rewrite FindCRLF_SSE42_none by lia. by rewrite Nat.div_small, Nat.mul_0_l, drop_0 by lia.
Qed.

Lemma FindCRLF_ok data p :
  FindCRLF data = Some p →
  data !! p = Some CR ∧ data !! S p = Some LF ∧ visible p (length data).
Proof.
  intros H. destruct (decide (2 ≤ length data)) as [H2|H2].
  2: { unfold FindCRLF in H. by rewrite (proj2 (Nat.ltb_lt _ 2)) in H by lia. }
  rewrite FindCRLF_unfold in H by done. destruct (FindCRLF_SSE42 data) as [q|] eqn:Hs.
  - injection H as ->. apply sse42_loop_sound in Hs as (k & -> & H1 & H3 & H4 & H5).
    split_and!; [done..|]. by left.
  - apply scalar_sound in H as (k & -> & H1 & H3). rewrite lookup_drop in H1, H3.
    rewrite <-Nat.add_succ_r. split_and!; [done..|]. right. lia.
Qed.

(** The first line end of a text is reported exactly when it is visible. *)
Lemma FindCRLF_line l r :
  no_cr l → FindCRLF (l ++ CRLF ++ r) = Some (length l) ↔ visible (length l) (length l + 2 + length r).
Proof.
  intros Hl. assert (Hn : length (l ++ CRLF ++ r) = length l + 2 + length r)
    by (rewrite !length_app; simpl; lia).
  split; [intros H; apply FindCRLF_ok in H; rewrite Hn in H; tauto|]. intros Hv.
  rewrite FindCRLF_unfold, Hn by lia. destruct (FindCRLF_SSE42 _) as [q|] eqn:Hs.
  - destruct (decide (length l mod 16 ≠ 15 ∧ (length l / 16) * 16 + 16 < length l + 2 + length r)) as [[H1 H2]|Hne].
    { unfold FindCRLF_SSE42 in Hs. cbn [app CRLF] in Hs. rewrite sse42_loop_finds in Hs by (first [done|cbn [app CRLF] in Hn; lia]).
      by injection Hs as <-. }
    destruct Hv as [Hv|Hv]; [by destruct Hne|]. apply sse42_loop_sound in Hs as (k & -> & H1 & _ & _ & H3).
    rewrite Hn in H3. rewrite lookup_app_l in H1 by lia. unfold no_cr in Hl. rewrite Forall_forall in Hl.
    exfalso. eapply Hl; [by eapply list_elem_of_lookup_2|done].
  - destruct Hv as [[H1 H2]|Hv].
    { unfold FindCRLF_SSE42 in Hs. cbn [app CRLF] in Hs. by rewrite sse42_loop_finds in Hs by (first [done|cbn [app CRLF] in Hn; lia]). }
    rewrite drop_app_le by lia. cbn [app CRLF]. rewrite scalar_finds by (by apply Forall_drop).
    rewrite length_drop. f_equal. lia.
Qed.

Lemma visible_short k n : k ≤ 14 → k + 2 ≤ n → 32 ≤ n → visible k n.
Proof. intros. left. lia. Qed.

(** ** Comparing and scanning: the vector loops do what their scalar
    definitions do *)

Lemma ctz_zip_some a b pos :
  ctz (zip_with (λ x y, negb (ascii_eqb x y)) a b) = Some pos →
  ∀ a' b', (code (nth pos a "000"%char) - code (nth pos b "000"%char))%Z = memcmp (a ++ a') (b ++ b') ∧
           pos < length a ∧ pos < length b.
Proof.
  revert b pos. induction a as [|x a IH]; intros [|y b] pos H a' b'; try done.
  cbn [zip_with ctz app memcmp length] in *. destruct (ascii_eqb x y) eqn:E; simpl in H.
  - destruct (ctz _) as [pos'|] eqn:H'; [|done]. injection H as <-. cbn [nth].
    destruct (IH b pos' H' a' b') as (H1 & H2 & H3). split; [done|]. lia.
  - injection H as <-. cbn [nth]. split; [done|]. lia.
Qed.

Lemma ctz_zip_none a b a' b' :
  length a = length b → ctz (zip_with (λ x y, negb (ascii_eqb x y)) a b) = None →
  memcmp (a ++ a') (b ++ b') = memcmp a' b'.
Proof.
  revert b. induction a as [|x a IH]; intros [|y b] Hl H; try done.
  cbn [zip_with ctz app memcmp] in *. destruct (ascii_eqb x y); simpl in H; [|done].
  apply IH; [by injection Hl|]. by destruct (ctz _).
Qed.

Lemma memcmp_drop w a b :
  length a = length b →
  ctz (zip_with (λ x y, negb (ascii_eqb x y)) (take w a) (take w b)) = None →
  memcmp a b = memcmp (drop w a) (drop w b).
Proof.
  intros Hl H. rewrite <-(take_drop w a) at 1. rewrite <-(take_drop w b) at 1.
  apply ctz_zip_none; [by rewrite !length_take, Hl|done].
Qed.

Lemma memcmp_nonzero a b pos :
  ctz (zip_with (λ x y, negb (ascii_eqb x y)) a b) = Some pos →
  code (nth pos a "000"%char) ≠ code (nth pos b "000"%char).
Proof.
  revert b pos. induction a as [|x a IH]; intros [|y b] pos H; try done.
  cbn [zip_with ctz] in H. destruct (ascii_eqb x y) eqn:E; simpl in H.
  - destruct (ctz _) as [pos'|] eqn:H'; [|done]. injection H as <-. cbn [nth]. by apply IH.
  - injection H as <-. cbn [nth]. apply bool_decide_eq_false in E. unfold code.
    intros H%N2Z.inj. apply E. rewrite <-(ascii_N_embedding x), <-(ascii_N_embedding y). by rewrite H.
Qed.

(** The vector loop answers as [memcmp] when there is a difference in the
    whole vectors, and zero when there is none. *)
Lemma mem_compare_loop_ok w fuel a b :
  0 < w → length a = length b → length a ≤ fuel →
  (mem_compare_loop w fuel a b ≠ 0%Z ∧ mem_compare_loop w fuel a b = memcmp a b) ∨
  (mem_compare_loop w fuel a b = 0%Z ∧
   memcmp a b = memcmp (drop (length a / w * w) a) (drop (length a / w * w) b)).
Proof.
  intros Hw. revert a b. induction fuel as [|fuel IH]; intros a b Hl Hf.
  { right. destruct a; [|simpl in Hf; lia]. destruct b; [|done]. split; [done|]. by rewrite !drop_nil. }
  cbn [mem_compare_loop]. destruct (w <=? length a) eqn:Hwa; b2p.
  2: { right. split; [done|]. by rewrite Nat.div_small, Nat.mul_0_l, !drop_0 by lia. }
  destruct (ctz _) as [pos|] eqn:Hc.
  - left. assert (Hz := memcmp_nonzero _ _ _ Hc).
    destruct (ctz_zip_some _ _ _ Hc (drop w a) (drop w b)) as (H1 & H2 & H3).
    rewrite !take_drop in H1. rewrite !nth_lookup in Hz, H1 |- *.
    rewrite length_take in H2, H3. rewrite !lookup_take_lt in Hz, H1 by lia.
    split; [lia|done].
  - rewrite (memcmp_drop w a b Hl Hc).
    destruct (IH (drop w a) (drop w b)) as [H|[H1 H2]]; [rewrite !length_drop; lia..|by left|].
    right. split; [done|]. rewrite H2, !drop_drop, length_drop.
    replace (w + (length a - w) / w * w) with (length a / w * w); [done|].
    replace (length a) with (length a - w + 1 * w) at 1 by lia.
    rewrite Nat.div_add by lia. lia.
Qed.

Lemma MemCompare_ok a b : length a = length b → MemCompare a b = memcmp a b.
Proof.
  intros Hl. unfold MemCompare, MemCompare_SSE2. destruct (16 <=? length a); [|done].
  destruct (mem_compare_loop_ok 16 (length a) a b) as [[H1 H2]|[H1 H2]]; try lia.
  - by rewrite (proj2 (Z.eqb_neq _ 0) H1).
  - by rewrite H1, H2.
Qed.

Lemma has_zero_loop_ok fuel data :
  length data ≤ fuel →
  existsb (λ c, ascii_eqb c "000") data =
  has_zero_sse2_loop fuel data || existsb (λ c, ascii_eqb c "000") (drop (length data / 16 * 16) data).
Proof.
  revert data. induction fuel as [|fuel IH]; intros data Hf.
  { destruct data; [done|simpl in Hf; lia]. }
  cbn [has_zero_sse2_loop]. destruct (16 <=? length data) eqn:H16; b2p.
  2: { by rewrite Nat.div_small, Nat.mul_0_l, drop_0 by lia. }
  rewrite <-(take_drop 16 data) at 1. rewrite existsb_app. destruct (ctz _) as [pos|] eqn:Hc.
  - apply ctz_mask_some in Hc as [Hc _]. apply orb_true_intro. left. apply existsb_exists.
    exists "000"%char. split; [by eapply list_elem_of_In, list_elem_of_lookup_2|by apply bool_decide_eq_true].
  - apply ctz_mask_none in Hc.
    assert (existsb (λ c, ascii_eqb c "000") (take 16 data) = false) as ->.
    { apply not_true_iff_false. intros (x & Hx & Hx0)%existsb_exists. apply bool_decide_eq_true in Hx0.
      rewrite Forall_forall in Hc. by apply (Hc x); [apply list_elem_of_In|]. }
    simpl. rewrite IH by (rewrite length_drop; lia). rewrite drop_drop, length_drop.
    replace (16 + (length data - 16) / 16 * 16) with (length data / 16 * 16) by lia. done.
Qed.

Lemma HasZero_ok data : HasZero data = existsb (λ c, ascii_eqb c "000") data.
Proof.
  rewrite (has_zero_loop_ok (length data)) by lia. unfold HasZero, HasZero_SSE2.
  destruct (16 <=? length data) eqn:H16; b2p; simpl; [by destruct (has_zero_sse2_loop _ _)|].
  destruct data as [|c data]; [done|]. cbn [length has_zero_sse2_loop].
  by rewrite (proj2 (Nat.leb_gt 16 (S (length data)))) by (simpl in H16; lia).
Qed.
