(* ===== verification/Numbers.v ===== *)
(** * Numbers as text

    What the sources use of [absl::StrCat] and [std::to_string] on a 64-bit
    integer, and of [std::from_chars]: decimal digits with an optional minus
    sign, no leading plus and no spaces. *)
From S2P Require Import Prelude.
From S2P Require Import Simd.

Definition is_digit (c : ascii) : bool := (code "0" <=? code c)%Z && (code c <=? code "9")%Z.
Definition digit_value (c : ascii) : Z := (code c - code "0")%Z.
Definition digit_char (d : Z) : ascii := of_code (d + code "0").

(** The digits of a number below [10 ^ fuel]. *)
Fixpoint decimal (fuel : nat) (n : Z) : bytes :=
  match fuel with
  | O => []
  | S fuel =>
      if (n <? 10)%Z then [digit_char n]
      else decimal fuel (n / 10) ++ [digit_char (n mod 10)]
  end.

(** A 64-bit number has at most nineteen digits. *)
Definition print_int (n : Z) : bytes :=
  if (n <? 0)%Z then "-"%char :: decimal 19 (- n) else decimal 19 n.

(** Digits read from the left. *)
Definition digits_value (acc : Z) (ds : bytes) : Z :=
  foldl (λ v c, v * 10 + digit_value c)%Z acc ds.

Fixpoint span_digits (s : bytes) : bytes * bytes :=
  match s with
  | c :: s' => if is_digit c then let '(ds, rest) := span_digits s' in (c :: ds, rest) else ([], s)
  | [] => ([], [])
  end.

(** [std::from_chars] for [int64_t]: the value and what follows the number, or
    [None] on either error code. *)
Definition from_chars (s : bytes) : option (Z * bytes) :=
  let '(negative, s) :=
    match s with
    | c :: s' => if ascii_eqb c "-" then (true, s') else (false, s)
    | [] => (false, [])
    end in
  match span_digits s with
  | ([], _) => None
  | (ds, rest) =>
      let v := if negative then (- digits_value 0 ds)%Z else digits_value 0 ds in
      if (- 2 ^ 63 <=? v)%Z && (v <? 2 ^ 63)%Z then Some (v, rest) else None
  end.

(** ** Lemmas *)

Definition all_digits (s : bytes) : Prop := Forall (λ c, is_digit c = true) s.

Lemma code_of_code z : (0 ≤ z < 256)%Z → code (of_code z) = z.
Proof.
  intros H. unfold code, of_code. rewrite N_ascii_embedding by lia. lia.
Qed.

Lemma of_code_code c : of_code (code c) = c.
Proof. unfold of_code, code. by rewrite N2Z.id, ascii_N_embedding. Qed.
Lemma code_bound b : (0 ≤ code b < 256)%Z.
Proof. unfold code. assert (H := N_ascii_bounded b). lia. Qed.

Lemma digit_char_ok d : (0 ≤ d < 10)%Z → is_digit (digit_char d) = true ∧ digit_value (digit_char d) = d.
Proof.
  intros H. unfold is_digit, digit_value, digit_char. change (code "0") with 48%Z. change (code "9") with 57%Z.
  rewrite code_of_code by lia. split; [|lia].
  apply andb_true_intro. split; apply Z.leb_le; lia.
Qed.

Lemma digit_range c : is_digit c = true → (0 ≤ digit_value c < 10)%Z.
Proof.
  unfold is_digit, digit_value. change (code "0") with 48%Z. change (code "9") with 57%Z.
  intros H. b2p. lia.
Qed.

Lemma decimal_digits fuel n : (0 ≤ n)%Z → all_digits (decimal fuel n).
Proof.
  revert n. induction fuel as [|fuel IH]; intros n Hn; [constructor|]. cbn [decimal].
  destruct (n <? 10)%Z eqn:E; b2p.
  - constructor; [apply digit_char_ok; lia|constructor].
  - apply Forall_app. split; [apply IH; by apply Z.div_pos|].
    constructor; [|constructor]. apply digit_char_ok. by apply Z.mod_pos_bound.
Qed.

Lemma digits_value_app acc a b : digits_value acc (a ++ b) = digits_value (digits_value acc a) b.
Proof. apply foldl_app. Qed.

Lemma decimal_value fuel n : (0 ≤ n < 10 ^ Z.of_nat fuel)%Z → digits_value 0 (decimal fuel n) = n.
Proof.
  revert n. induction fuel as [|fuel IH]; intros n Hn.
  { simpl in *. lia. }
  rewrite Nat2Z.inj_succ, Z.pow_succ_r in Hn by lia. cbn [decimal]. destruct (n <? 10)%Z eqn:E; b2p.
  - unfold digits_value. cbn [foldl]. rewrite (proj2 (digit_char_ok n ltac:(lia))). lia.
  - rewrite digits_value_app, IH.
    + unfold digits_value. cbn [foldl].
      rewrite (proj2 (digit_char_ok (n mod 10) ltac:(by apply Z.mod_pos_bound))).
      rewrite (Z.div_mod n 10) at 3 by lia. lia.
    + split; [apply Z.div_pos; lia|]. apply Z.div_lt_upper_bound; lia.
Qed.

Lemma decimal_nonempty fuel n : 0 < fuel → decimal fuel n ≠ [].
Proof.
  destruct fuel as [|fuel]; [lia|]. intros _. cbn [decimal]. destruct (n <? 10)%Z; [done|].
  by destruct (decimal fuel (n / 10)).
Qed.

Lemma decimal_length fuel n k :
  (0 ≤ n < 10 ^ Z.of_nat k)%Z → 0 < k → k ≤ fuel → length (decimal fuel n) ≤ k.
Proof.
  revert n k. induction fuel as [|fuel IH]; intros n k Hn Hk Hf; [lia|]. cbn [decimal].
  destruct (n <? 10)%Z eqn:E; b2p; [simpl; lia|]. rewrite length_app. cbn [length].
  destruct (decide (k = 1)) as [->|Hne]; [simpl in Hn; lia|].
  destruct k as [|k]; [lia|]. rewrite Nat2Z.inj_succ, Z.pow_succ_r in Hn by lia.
  assert (length (decimal fuel (n / 10)) ≤ k); [|lia]. apply IH; [|lia..].
  split; [apply Z.div_pos; lia|]. apply Z.div_lt_upper_bound; lia.
Qed.

Lemma span_digits_app ds rest :
  all_digits ds → (∀ c, head rest = Some c → is_digit c = false) →
  span_digits (ds ++ rest) = (ds, rest).
Proof.
  intros Hd Hr. induction Hd as [|c ds Hc _ IH].
  - destruct rest as [|c rest]; [done|]. cbn [app span_digits]. by rewrite (Hr c eq_refl).
  - cbn [app span_digits]. by rewrite Hc, IH.
Qed.

Lemma digits_not_minus ds c ds' : all_digits ds → ds = c :: ds' → ascii_eqb c "-" = false.
Proof.
  intros Hd ->. apply Forall_cons_1 in Hd as [Hc _]. apply bool_decide_eq_false. by intros ->.
Qed.

Lemma print_int_nonneg n : (0 ≤ n)%Z → print_int n = decimal 19 n.
Proof. intros. unfold print_int. by rewrite (proj2 (Z.ltb_ge n 0)) by lia. Qed.

(** Reading back a printed number. *)
Lemma from_chars_print n rest :
  in_i64 n → (∀ c, head rest = Some c → is_digit c = false) →
  from_chars (print_int n ++ rest) = Some (n, rest).
Proof.
  unfold in_i64. intros Hn Hr. unfold print_int, from_chars.
  assert (H19 : (10 ^ Z.of_nat 19 = 10000000000000000000)%Z) by reflexivity.
  destruct (n <? 0)%Z eqn:E; b2p.
  - cbn [app]. change (ascii_eqb "-" "-") with true. cbv iota beta.
    rewrite span_digits_app by (first [exact Hr|apply decimal_digits; lia]).
    destruct (decimal 19 (- n)) eqn:Hd; [exfalso; refine (decimal_nonempty 19 _ _ Hd); lia|].
    rewrite <-Hd, decimal_value by lia.
    rewrite Z.opp_involutive, (proj2 (Z.leb_le _ n)), (proj2 (Z.ltb_lt n _)) by lia. done.
  - assert (Hdig := decimal_digits 19 n E). destruct (decimal 19 n) as [|c ds] eqn:Hd.
    { exfalso. refine (decimal_nonempty 19 _ _ Hd). lia. }
    cbn [app]. rewrite (digits_not_minus _ _ _ Hdig eq_refl).
    change (c :: ds ++ rest) with ((c :: ds) ++ rest). rewrite span_digits_app by done.
    rewrite <-Hd, decimal_value by lia.
    rewrite (proj2 (Z.leb_le _ n)), (proj2 (Z.ltb_lt n _)) by lia. done.
Qed.

Lemma digit_not_cr c : is_digit c = true → c ≠ CR.
Proof. by intros H ->. Qed.

Lemma print_int_no_cr n : no_cr (print_int n).
Proof.
  assert (H : ∀ m, (0 ≤ m)%Z → no_cr (decimal 19 m)).
  { intros m Hm. eapply Forall_impl; [by apply decimal_digits|]. intros c. apply digit_not_cr. }
  unfold print_int. destruct (n <? 0)%Z eqn:E; b2p; [|by apply H]. constructor; [done|]. apply H. lia.
Qed.
