(* ===== verification/RespTypes.v ===== *)
(** * RESP values and commands

    Models src/astra/protocol/resp/resp_types.hpp. *)
From Stdlib Require Import SpecFloat.
From S2P Require Import Prelude.
From S2P Require Import OrderedSet.
From S2P Require Import Simd.
From S2P Require Import Numbers.

Inductive RespType :=
  | kSimpleString | kError | kInteger | kBulkString | kArray
  | kNullBulkString | kNullArray
  | kBoolean | kDouble | kBignum | kVerbatimString | kMap | kSet | kPush
  | kStreamedString | kAttribute | kNull.

#[global] Instance RespType_eq_dec : EqDecision RespType.
Proof. solve_decision. Defined.

(** A type tag and the variant; the two are independent fields. *)
Inductive RespValue := MkResp (type_ : RespType) (value_ : RespVariant)
with RespVariant :=
  | VMonostate
  | VString (s : bytes)
  | VInt (n : Z)
  | VDouble (d : spec_float)
  | VBool (b : bool)
  | VArray (arr : list RespValue)
  | VMap (map : list (bytes * RespValue)).

Definition type_ (v : RespValue) : RespType := let 'MkResp t _ := v in t.
Definition value_ (v : RespValue) : RespVariant := let 'MkResp _ x := v in x.

(** The constructors of the class. *)
Definition resp_of_type (t : RespType) : RespValue := MkResp t VMonostate.
Definition resp_string (s : bytes) : RespValue := MkResp kBulkString (VString s).
Definition resp_int (n : Z) : RespValue := MkResp kInteger (VInt n).
Definition resp_double (d : spec_float) : RespValue := MkResp kDouble (VDouble d).
Definition resp_bool (b : bool) : RespValue := MkResp kBoolean (VBool b).
Definition resp_array (l : list RespValue) : RespValue := MkResp kArray (VArray l).
Definition resp_map (m : list (bytes * RespValue)) : RespValue := MkResp kMap (VMap m).

(** [SetString]: the string with a type of its own. *)
Definition SetString (s : bytes) (t : RespType) (v : RespValue) : RespValue := MkResp t (VString s).
Definition SetInteger (n : Z) (v : RespValue) : RespValue := MkResp kInteger (VInt n).
Definition SetArray (l : list RespValue) (v : RespValue) : RespValue := MkResp kArray (VArray l).

Definition IsNull (v : RespValue) : bool :=
  match type_ v with kNull | kNullBulkString | kNullArray => true | _ => false end.
Definition IsSimpleString (v : RespValue) : bool := bool_decide (type_ v = kSimpleString).
Definition IsError (v : RespValue) : bool := bool_decide (type_ v = kError).
Definition IsInteger (v : RespValue) : bool := bool_decide (type_ v = kInteger).
Definition IsBulkString (v : RespValue) : bool := bool_decide (type_ v = kBulkString).
Definition IsArray (v : RespValue) : bool := bool_decide (type_ v = kArray).

(** The accessors answer a default for another alternative. *)
Definition AsString (v : RespValue) : bytes := match value_ v with VString s => s | _ => [] end.
Definition AsInteger (v : RespValue) : Z := match value_ v with VInt n => n | _ => 0%Z end.
Definition AsDouble (v : RespValue) : spec_float :=
  match value_ v with VDouble d => d | _ => S754_zero false end.
Definition AsBoolean (v : RespValue) : bool := match value_ v with VBool b => b | _ => false end.
Definition AsArray (v : RespValue) : list RespValue := match value_ v with VArray l => l | _ => [] end.
Definition AsMap (v : RespValue) : list (bytes * RespValue) :=
  match value_ v with VMap m => m | _ => [] end.

Definition ArraySize (v : RespValue) : nat := if IsArray v then length (AsArray v) else 0.
Definition IsEmpty (v : RespValue) : bool :=
  if IsNull v then true
  else if IsBulkString v then bool_decide (AsString v = [])
  else if IsArray v then (length (AsArray v) =? 0)
  else false.

(** ** Commands *)

Record CommandArg := MkArg { arg_type : RespType; arg_value : bytes }.

Definition arg_of_type (t : RespType) : CommandArg :=
  MkArg t (match t with kInteger => B "0" | _ => [] end).
Definition arg_string (s : bytes) (t : RespType) : CommandArg := MkArg t s.
Definition arg_int (n : Z) : CommandArg := MkArg kInteger (print_int n).

Definition ArgIsNull (a : CommandArg) : bool :=
  match arg_type a with kNull | kNullBulkString | kNullArray => true | _ => false end.

Definition ArgIsInteger (a : CommandArg) : bool :=
  if decide (arg_type a = kInteger) then true
  else if decide (arg_value a = []) then false
  else match from_chars (arg_value a) with Some (_, []) => true | _ => false end.

Definition ArgAsInteger (a : CommandArg) : Z :=
  match from_chars (arg_value a) with Some (n, []) => n | _ => 0%Z end.

Record Command := MkCommand { cmd_name : bytes; cmd_args : list CommandArg }.

(** ** Induction over nested values *)

Section RespInduction.
Context (P : RespValue → Prop).
Hypothesis Harray : ∀ t l, Forall P l → P (MkResp t (VArray l)).
Hypothesis Hmap : ∀ t m, Forall (λ kv, P kv.2) m → P (MkResp t (VMap m)).
Hypothesis Hleaf : ∀ t x, (∀ l, x ≠ VArray l) → (∀ m, x ≠ VMap m) → P (MkResp t x).

Fixpoint resp_ind (v : RespValue) : P v :=
  match v with
  | MkResp t x =>
      match x as y return P (MkResp t y) with
      | VMonostate => Hleaf t (VMonostate) ltac:(done) ltac:(done)
      | VString s => Hleaf t (VString s) ltac:(done) ltac:(done)
      | VInt n => Hleaf t (VInt n) ltac:(done) ltac:(done)
      | VDouble d => Hleaf t (VDouble d) ltac:(done) ltac:(done)
      | VBool b => Hleaf t (VBool b) ltac:(done) ltac:(done)
      | VArray l =>
          Harray t l ((fix go (l : list RespValue) : Forall P l :=
                         match l with
                         | [] => Forall_nil_2 _
                         | v :: l => Forall_cons_2 _ _ _ (resp_ind v) (go l)
                         end) l)
      | VMap m =>
          Hmap t m ((fix go (m : list (bytes * RespValue)) : Forall (λ kv, P kv.2) m :=
                       match m with
                       | [] => Forall_nil_2 _
                       | (k, v) :: m => Forall_cons_2 _ (k, v) _ (resp_ind v) (go m)
                       end) m)
      end
  end.
End RespInduction.

(** An integer argument reads back as the number it was made of. *)
Lemma arg_int_value n : in_i64 n → ArgIsInteger (arg_int n) = true ∧ ArgAsInteger (arg_int n) = n.
Proof.
  intros Hn. split; [done|]. unfold ArgAsInteger, arg_int. cbn [arg_value].
  rewrite <-(app_nil_r (print_int n)). by rewrite from_chars_print.
Qed.

(** ** Writing RESP

    Models src/astra/protocol/resp/resp_builder.cpp.  [dtoa] is
    [absl::StrCat] of a double. *)

(** Text of doubles: [absl::StrCat] and [absl::SimpleAtod]. *)
Class DoubleText := { dtoa : spec_float → bytes; atod : bytes → option spec_float }.

Definition AppendCRLF (out : bytes) : bytes := out ++ CRLF.
Definition AppendInteger (out : bytes) (n : Z) : bytes := out ++ print_int n.

Definition BuildSimpleString (s : bytes) : bytes := AppendCRLF ("+"%char :: s).
Definition BuildError (msg : bytes) : bytes := AppendCRLF ("-"%char :: msg).
Definition BuildInteger (n : Z) : bytes := AppendCRLF (AppendInteger (B ":") n).
Definition BuildBulkString (s : bytes) : bytes :=
  AppendCRLF (AppendCRLF (AppendInteger (B "$") (i64 (Z.of_nat (length s)))) ++ s).
Definition BuildNullBulkString : bytes := B "$-1" ++ CRLF.
Definition BuildNullArray : bytes := B "*-1" ++ CRLF.
Definition BuildOK : bytes := B "+OK" ++ CRLF.
Definition BuildNil : bytes := BuildNullBulkString.
Definition BuildPong : bytes := B "+PONG" ++ CRLF.
Definition BuildBoolean (b : bool) : bytes := AppendCRLF ["#"%char; if b then "t"%char else "f"%char].
Definition BuildNull : bytes := B "_" ++ CRLF.

(** The header of an array of [n] elements. *)
Definition array_header (n : nat) : bytes := AppendCRLF (AppendInteger (B "*") (i64 (Z.of_nat n))).

(** The header of a map of [n] entries. *)
Definition map_header (n : nat) : bytes := AppendCRLF (AppendInteger (B "%") (i64 (Z.of_nat n))).

(** The overload for strings. *)
Definition BuildArrayOfStrings (arr : list bytes) : bytes :=
  foldl (λ out elem, out ++ BuildBulkString elem) (array_header (length arr)) arr.

Definition BuildErrorOfType (type msg : bytes) : bytes :=
  AppendCRLF ("-"%char :: type ++ " "%char :: msg).

Definition BuildMoved (slot : Z) (ip : bytes) (port : Z) : bytes :=
  let out := AppendInteger (B "-MOVED ") slot in
  let out := out ++ " "%char :: ip ++ [":"%char] in
  AppendCRLF (AppendInteger out port).

Section Builder.
Context {HD : DoubleText}.

Definition BuildDouble (d : spec_float) : bytes := AppendCRLF (","%char :: dtoa d).

(** [Build], with [BuildArray] and [BuildMap] where they recurse. *)
Fixpoint Build (v : RespValue) : bytes :=
  let 'MkResp t x := v in
  match t with
  | kSimpleString => AppendCRLF ("+"%char :: AsString (MkResp t x))
  | kError => AppendCRLF ("-"%char :: AsString (MkResp t x))
  | kInteger => AppendCRLF (AppendInteger (B ":") (AsInteger (MkResp t x)))
  | kBulkString => BuildBulkString (AsString (MkResp t x))
  | kArray =>
      match x with
      | VArray arr => foldl (λ out elem, out ++ elem) (array_header (length arr)) (map Build arr)
      | _ => array_header 0
      end
  | kNullBulkString => BuildNullBulkString
  | kNullArray => BuildNullArray
  | kBoolean => BuildBoolean (AsBoolean (MkResp t x))
  | kDouble => BuildDouble (AsDouble (MkResp t x))
  | kNull => BuildNull
  | kMap =>
      match x with
      | VMap m =>
          foldl (λ out kv, out ++ BuildBulkString kv.1 ++ kv.2) (map_header (length m))
                (map (λ kv, let '(key, value) := kv in (key, Build value)) m)
      | _ => map_header 0
      end
  | _ => BuildNil
  end.

Definition BuildArray (arr : list RespValue) : bytes := Build (resp_array arr).
Definition BuildMap (m : list (bytes * RespValue)) : bytes := Build (resp_map m).
End Builder.

(** ** Lemmas *)

Lemma foldl_concat {A} (f : A → bytes) (acc : bytes) l :
  foldl (λ out x, out ++ f x) acc l = acc ++ concat (map f l).
Proof.
  revert acc. induction l as [|x l IH]; intros acc; simpl; [by rewrite app_nil_r|].
  by rewrite IH, <-app_assoc.
Qed.

Lemma BuildBulkString_eq s :
  BuildBulkString s = "$"%char :: print_int (i64 (Z.of_nat (length s))) ++ CRLF ++ s ++ CRLF.
Proof. unfold BuildBulkString, AppendCRLF, AppendInteger. by rewrite <-!app_assoc. Qed.

Lemma BuildArrayOfStrings_eq arr :
  BuildArrayOfStrings arr =
  "*"%char :: print_int (i64 (Z.of_nat (length arr))) ++ CRLF ++ concat (map BuildBulkString arr).
Proof.
  unfold BuildArrayOfStrings. rewrite foldl_concat. unfold array_header, AppendCRLF, AppendInteger.
  by rewrite <-!app_assoc.
Qed.

Lemma BuildArray_eq `{HD : DoubleText} arr :
  BuildArray arr =
  "*"%char :: print_int (i64 (Z.of_nat (length arr))) ++ CRLF ++ concat (map Build arr).
Proof.
  unfold BuildArray, resp_array. cbn [Build]. rewrite (foldl_concat (λ x, x)), map_id.
  unfold array_header, AppendCRLF, AppendInteger. by rewrite <-!app_assoc.
Qed.
