(* ===== verification/RespParser.v ===== *)
(** * Reading RESP

    Models src/astra/protocol/resp/resp_parser.cpp.  A parser takes the view it
    is given by reference and leaves what it did not consume, also when it
    fails.  [reserve_values] and [reserve_args] say whether the allocator
    grants a vector of that many values or arguments; [atod] is
    [absl::SimpleAtod]. *)
From Stdlib Require Import SpecFloat.
From S2P Require Import Prelude.
From S2P Require Import Simd.
From S2P Require Import Numbers.
From S2P Require Import RespTypes.

Class Allocator := { reserve_values : Z → bool; reserve_args : Z → bool }.

(** A value, [std::nullopt], an exception that leaves the function, or a
    computation that ran out of its fuel. *)
Inductive presult (A : Type) := POk (a : A) | PFail | PThrow | PStuck.
Arguments POk {A} a.
Arguments PFail {A}.
Arguments PThrow {A}.
Arguments PStuck {A}.

Definition Parser (A : Type) : Type := bytes → presult A * bytes.

Definition pret {A} (a : A) : Parser A := λ data, (POk a, data).
Definition pfail {A} : Parser A := λ data, (PFail, data).
Definition pthrow {A} : Parser A := λ data, (PThrow, data).
Definition pbind {A C} (p : Parser A) (k : A → Parser C) : Parser C := λ data,
  match p data with
  | (POk a, data) => k a data
  | (PFail, data) => (PFail, data)
  | (PThrow, data) => (PThrow, data)
  | (PStuck, data) => (PStuck, data)
  end.
Definition pof_option {A} (o : option A) : Parser A :=
  match o with Some a => pret a | None => pfail end.

Notation "x <~ p ;; k" := (pbind p (λ x, k))
  (at level 100, p at level 99, k at level 200, right associativity) : astra_scope.
Open Scope astra_scope.

(** [data.find] for short views, the vector search from 32 bytes on. *)
Definition ReadUntilCRLF : Parser bytes := λ data,
  match (if 32 <=? length data then FindCRLF data else find_crlf_scalar 0 data) with
  | None => (PFail, data)
  | Some crlf_pos => (POk (take crlf_pos data), drop (crlf_pos + 2) data)
  end.

(** The rest after the number is not looked at. *)
Definition ParseInt (s : bytes) : option Z := fst <$> from_chars s.

Definition kMaxBeforeMul : Z := 922337203685477580.

(** The loop of [ParseIntLineFast]. *)
Fixpoint int_line_loop (value : Z) (s : bytes) : option (Z * bytes) :=
  match s with
  | [] => None
  | c :: s =>
      if ascii_eqb c CR then
        match s with
        | c' :: s => if ascii_eqb c' LF then Some (value, s) else None
        | [] => None
        end
      else if negb (is_digit c) then None
      else if (kMaxBeforeMul <? value)%Z then None
      else
        let value := i64 (value * 10 + digit_value c) in
        if (value <? 0)%Z then None else int_line_loop value s
  end.

(** The number and the input after its line; the input is not changed on
    failure. *)
Definition ParseIntLineFast (input : bytes) (allow_negative : bool) : option (Z * bytes) :=
  match input with
  | [] => None
  | c :: s =>
      if ascii_eqb c "-" && negb allow_negative then None
      else
        let negative := ascii_eqb c "-" in
        let s := if negative then s else input in
        match s with
        | [] => None
        | d :: _ =>
            if negb (is_digit d) then None
            else '(value, rest) ← int_line_loop 0 s; Some (if negative then (- value)%Z else value, rest)
        end
  end.

Section Parser.
Context {HD : DoubleText} {HA : Allocator}.

Definition ParseDouble (s : bytes) : option spec_float := atod s.

Definition ParseSimpleString : Parser RespValue :=
  line <~ ReadUntilCRLF;; pret (SetString line kSimpleString (resp_of_type kSimpleString)).

Definition ParseError : Parser RespValue :=
  line <~ ReadUntilCRLF;; pret (SetString line kError (resp_of_type kError)).

Definition ParseInteger : Parser RespValue :=
  line <~ ReadUntilCRLF;; num <~ pof_option (ParseInt line);; pret (resp_int num).

Definition ParseBulkString : Parser RespValue :=
  line <~ ReadUntilCRLF;;
  len <~ pof_option (ParseInt line);;
  if (len =? -1)%Z then pret (resp_of_type kNullBulkString)
  else if (len <? 0)%Z then pfail
  else λ data,
    if (Z.of_nat (length data) <? u64 (len + 2))%Z then (PFail, data)
    else (POk (resp_string (take (Z.to_nat len) data)), drop (Z.to_nat len + 2) data).

(** The loop of [ParseArray], with [count] elements to go. *)
Fixpoint parse_items (parse : Parser RespValue) (fuel : nat) (count : Z) (arr : list RespValue) :
  Parser (list RespValue) :=
  if (count <=? 0)%Z then pret arr
  else match fuel with
       | O => λ data, (PStuck, data)
       | S fuel => value <~ parse;; parse_items parse fuel (count - 1) (arr ++ [value])
       end.

Definition ParseArray (parse : Parser RespValue) : Parser RespValue :=
  line <~ ReadUntilCRLF;;
  count <~ pof_option (ParseInt line);;
  if (count =? -1)%Z then pret (resp_of_type kNullArray)
  else if (count <? 0)%Z then pfail
  else if negb (reserve_values count) then pthrow
  else λ data, (arr <~ parse_items parse (S (length data)) count [];; pret (resp_array arr)) data.

Definition ParseNull : Parser RespValue :=
  line <~ ReadUntilCRLF;;
  if bool_decide (line = []) then pret (resp_of_type kNull) else pfail.

Definition ParseBoolean : Parser RespValue :=
  line <~ ReadUntilCRLF;;
  if bool_decide (line = B "t") then pret (resp_bool true)
  else if bool_decide (line = B "f") then pret (resp_bool false)
  else pfail.

Definition ParseDoubleValue : Parser RespValue :=
  line <~ ReadUntilCRLF;; num <~ pof_option (ParseDouble line);; pret (resp_double num).

(** The body of [Parse], with the recursive call of [ParseArray] a parameter. *)
Definition ParseSwitch (parse : Parser RespValue) : Parser RespValue := λ data,
  match data with
  | [] => (PFail, [])
  | type :: data =>
      if ascii_eqb type "+" then ParseSimpleString data
      else if ascii_eqb type "-" then ParseError data
      else if ascii_eqb type ":" then ParseInteger data
      else if ascii_eqb type "$" then ParseBulkString data
      else if ascii_eqb type "*" then ParseArray parse data
      else if ascii_eqb type "_" then ParseNull data
      else if ascii_eqb type "#" then ParseBoolean data
      else if ascii_eqb type "," then ParseDoubleValue data
      else (PFail, data)
  end.

Fixpoint parse_fuel (fuel : nat) : Parser RespValue :=
  match fuel with
  | O => λ data, (PStuck, data)
  | S fuel => ParseSwitch (parse_fuel fuel)
  end.

(** Every nested value is at least one byte shorter. *)
Definition Parse : Parser RespValue := λ data, parse_fuel (S (length data)) data.

Definition HasCompleteValue (data : bytes) : presult bool :=
  match (Parse data).1 with
  | POk _ => POk true | PFail => POk false | PThrow => PThrow | PStuck => PStuck
  end.

(** ** Commands *)

Definition ToCommandArg (v : RespValue) : option CommandArg :=
  if IsBulkString v then Some (arg_string (AsString v) kBulkString)
  else if IsSimpleString v then Some (arg_string (AsString v) kSimpleString)
  else if IsInteger v then Some (arg_int (AsInteger v))
  else if IsNull v then Some (arg_of_type kNullBulkString)
  else None.

Definition ParseCommand (v : RespValue) : option Command :=
  if negb (IsArray v) || (ArraySize v =? 0) then None
  else match AsArray v with
       | name :: args =>
           if negb (IsBulkString name) then None
           else args ← mapM ToCommandArg args; Some (MkCommand (AsString name) args)
       | [] => None
       end.

(** Element [i] becomes the name or one more argument. *)
Definition push_arg (arg : CommandArg) (cmd : Command) : Command :=
  MkCommand (cmd_name cmd) (cmd_args cmd ++ [arg]).

(** A bulk string of the fast path, after its type byte. *)
Definition fast_bulk (i : Z) (cmd : Command) : Parser Command := λ working,
  match ParseIntLineFast working true with
  | None => (PFail, working)
  | Some (bulk_len64, working) =>
      if (bulk_len64 =? -1)%Z then
        if (i =? 0)%Z then (PFail, working)
        else (POk (push_arg (arg_of_type kNullBulkString) cmd), working)
      else if (bulk_len64 <? 0)%Z then (PFail, working)
      else if (Z.of_nat (length working) <? u64 (bulk_len64 + 2))%Z then (PFail, working)
      else
        let bulk_len := Z.to_nat bulk_len64 in
        if negb (bool_decide (working !! bulk_len = Some CR) &&
                 bool_decide (working !! (bulk_len + 1) = Some LF)) then (PFail, working)
        else
          let payload := take bulk_len working in
          (POk (if (i =? 0)%Z then MkCommand payload (cmd_args cmd)
                else push_arg (arg_string payload kBulkString) cmd),
           drop (bulk_len + 2) working)
  end.

(** Any other element. *)
Definition slow_item (i : Z) (cmd : Command) : Parser Command :=
  value <~ Parse;;
  if (i =? 0)%Z then
    if negb (IsBulkString value) then pfail else pret (MkCommand (AsString value) (cmd_args cmd))
  else arg <~ pof_option (ToCommandArg value);; pret (push_arg arg cmd).

Definition command_item (i : Z) (cmd : Command) : Parser Command := λ working,
  match working with
  | c :: w => if ascii_eqb c "$" then fast_bulk i cmd w else slow_item i cmd working
  | [] => slow_item i cmd working
  end.

Fixpoint command_loop (fuel : nat) (i count : Z) (cmd : Command) : Parser Command :=
  if (count <=? i)%Z then pret cmd
  else match fuel with
       | O => λ working, (PStuck, working)
       | S fuel => cmd <~ command_item i cmd;; command_loop fuel (i + 1) count cmd
       end.

(** [data] advances only on success. *)
Definition ParseCommandFromArray : Parser Command := λ data,
  match data with
  | c :: working =>
      if negb (ascii_eqb c "*") then (PFail, data)
      else match ParseIntLineFast working false with
           | None => (PFail, data)
           | Some (count, working) =>
               if (count <=? 0)%Z || (2 ^ 31 - 1 <? count)%Z then (PFail, data)
               else if negb (reserve_args (if (1 <? count)%Z then count - 1 else 0)) then (PThrow, data)
               else match command_loop (S (length working)) 0 count (MkCommand [] []) working with
                    | (POk cmd, working) => (POk cmd, working)
                    | (r, _) => (r, data)
                    end
           end
  | [] => (PFail, data)
  end.
End Parser.
