(* ===== verification/RespTotal.v ===== *)
(** * RESP: lines, numbers, termination and round trips

    What the two readers of a length line accept, and when the end of a line
    is found; then that the parser ends and that printed values are parsed back. *)
From Stdlib Require Import ZifyNat.
From Stdlib Require Import SpecFloat.
From S2P Require Import Prelude.
From S2P Require Import Simd.
From S2P Require Import Numbers.
From S2P Require Import RespTypes.
From S2P Require Import RespParser.

(** ** The fast reader of a length line *)

Lemma digits_value_ge ds v : all_digits ds → (0 ≤ v)%Z → (v ≤ digits_value v ds)%Z.
Proof.
  intros Hd. revert v. induction Hd as [|c ds Hc _ IH]; intros v Hv; [done|].
  unfold digits_value in *. cbn [foldl]. apply digit_range in Hc.
  specialize (IH (v * 10 + digit_value c)%Z). lia.
Qed.

Lemma i64_overflow x : (2 ^ 63 ≤ x < 2 ^ 63 + 2 ^ 62)%Z → (i64 x < 0)%Z.
Proof.
  intros H. unfold i64, swrap. change (64 - 1)%Z with 63%Z.
  replace (x + 2 ^ 63)%Z with (x - 2 ^ 63 + 1 * 2 ^ 64)%Z by lia.
  rewrite Z.mod_add by lia. rewrite Z.mod_small by lia. lia.
Qed.

Lemma int_line_loop_ok s value v rest :
  (0 ≤ value < 2 ^ 63)%Z →
  int_line_loop value s = Some (v, rest) ↔
  ∃ ds, all_digits ds ∧ s = ds ++ CRLF ++ rest ∧ v = digits_value value ds ∧ (v < 2 ^ 63)%Z.
Proof.
  revert value. induction s as [|c s IH]; intros value Hv; cbn [int_line_loop].
  { split; [done|]. intros ([|? ?] & _ & Hs & _); discriminate Hs. }
  destruct (ascii_eqb c CR) eqn:Hc.
  { apply bool_decide_eq_true in Hc as ->. split.
    - destruct s as [|c' s]; [done|]. destruct (ascii_eqb c' LF) eqn:Hc'; [|done].
      apply bool_decide_eq_true in Hc' as ->. intros [= <- <-]. exists []. split_and!; [constructor|done|done|cbn; lia].
    - intros ([|d ds] & Hd & Hs & -> & _).
      + injection Hs as ->. done.
      + injection Hs as <- _. by apply Forall_cons_1 in Hd as [Hd _]. }
  apply bool_decide_eq_false in Hc. destruct (is_digit c) eqn:Hd; simpl.
  2: { split; [done|]. intros ([|d ds] & Hds & Hs & _); injection Hs as Hcd _; [done|].
       apply Forall_cons_1 in Hds as [Hds _]. congruence. }
  assert (Hr := digit_range c Hd). unfold kMaxBeforeMul.
  assert (Hshape : (∃ ds, all_digits ds ∧ c :: s = ds ++ CRLF ++ rest ∧ v = digits_value value ds ∧ (v < 2 ^ 63)%Z)
    ↔ (value * 10 + digit_value c < 2 ^ 63)%Z ∧
      ∃ ds, all_digits ds ∧ s = ds ++ CRLF ++ rest ∧
            v = digits_value (value * 10 + digit_value c) ds ∧ (v < 2 ^ 63)%Z).
  { split.
    - intros ([|d ds] & Hds & Hs & Hval & Hb); injection Hs as Hcd Hs; [done|]. subst d.
      apply Forall_cons_1 in Hds as [_ Hds]. unfold digits_value in Hval. cbn [foldl] in Hval.
      assert (Hge := digits_value_ge ds (value * 10 + digit_value c) Hds). unfold digits_value in Hge.
      split; [lia|]. exists ds. done.
    - intros (Hlt & ds & Hds & -> & -> & Hb). exists (c :: ds). split; [by constructor|]. done. }
  rewrite Hshape. destruct (_ <? value)%Z eqn:Hk; b2p.
  { split; [done|]. intros [Hlt _]. lia. }
  destruct (decide (value * 10 + digit_value c < 2 ^ 63)%Z) as [Hlt|Hlt].
  - rewrite i64_small by (unfold in_i64; lia). rewrite (proj2 (Z.ltb_ge _ 0)) by lia.
    rewrite IH by lia. tauto.
  - rewrite (proj2 (Z.ltb_lt (i64 _) 0)) by (apply i64_overflow; lia). split; [done|]. intros [Hlt' _]. lia.
Qed.

(** A length line: an optional minus sign, at least one digit, and CRLF. *)
Lemma ParseIntLineFast_ok input allow v rest :
  ParseIntLineFast input allow = Some (v, rest) ↔
  ∃ (negative : bool) ds,
    all_digits ds ∧ ds ≠ [] ∧
    input = (if negative then B "-" else []) ++ ds ++ CRLF ++ rest ∧
    (negative = true → allow = true) ∧
    (digits_value 0 ds < 2 ^ 63)%Z ∧
    v = (if negative then - digits_value 0 ds else digits_value 0 ds)%Z.
Proof.
  assert (Hbody : ∀ (negative : bool) s,
    match s with
    | [] => None
    | d :: _ => if negb (is_digit d) then None
                else '(value, rest) ← int_line_loop 0 s; Some (if negative then (- value)%Z else value, rest)
    end = Some (v, rest) ↔
    ∃ ds, all_digits ds ∧ ds ≠ [] ∧ s = ds ++ CRLF ++ rest ∧ (digits_value 0 ds < 2 ^ 63)%Z ∧
          v = (if negative then - digits_value 0 ds else digits_value 0 ds)%Z).
  { intros negative s. destruct s as [|d s].
    { split; [done|]. intros ([|? ?] & _ & _ & Hs & _); discriminate Hs. }
    destruct (is_digit d) eqn:Hd; simpl negb; cbv iota.
    2: { split; [done|]. intros ([|e ds] & Hds & Hne & Hs & _); [done|]. injection Hs as <- _.
         apply Forall_cons_1 in Hds as [Hds _]. congruence. }
    split.
    - destruct (int_line_loop 0 (d :: s)) as [[v' r']|] eqn:Hl; [|done]. simpl. intros [= <- <-].
      apply int_line_loop_ok in Hl as (ds & Hds & Hs & -> & Hb); [|lia].
      exists ds. split_and!; try done. intros ->. injection Hs as -> _. done.
    - intros (ds & Hds & Hne & Hs & Hb & ->).
      rewrite (proj2 (int_line_loop_ok (d :: s) 0 (digits_value 0 ds) rest ltac:(lia))); [done|].
      exists ds. done. }
  unfold ParseIntLineFast. destruct input as [|c s].
  { split; [done|]. by intros ([|] & [|? ?] & _ & _ & Hs & _). }
  destruct (ascii_eqb c "-") eqn:Hc; simpl andb.
  - apply bool_decide_eq_true in Hc as ->. destruct allow; simpl negb; cbv zeta iota.
    + rewrite (Hbody true s). split.
      * intros (ds & H1 & H2 & -> & H4 & ->). exists true, ds. done.
      * intros ([|] & ds & H1 & H2 & Hs & H3 & H4 & ->).
        -- injection Hs as ->. exists ds. done.
        -- destruct ds as [|d ds]; [done|]. injection Hs as <- _. by apply Forall_cons_1 in H1 as [H1 _].
    + split; [done|]. intros ([|] & ds & H1 & H2 & Hs & H3 & _); [by specialize (H3 eq_refl)|].
      destruct ds as [|d ds]; [done|]. injection Hs as <- _. by apply Forall_cons_1 in H1 as [H1 _].
  - apply bool_decide_eq_false in Hc. cbv zeta iota. rewrite (Hbody false (c :: s)). split.
    + intros (ds & H1 & H2 & Hs & H4 & ->). exists false, ds. done.
    + intros ([|] & ds & H1 & H2 & Hs & H3 & H4 & ->); [by injection Hs as -> _|]. exists ds. done.
Qed.

Lemma ParseIntLineFast_print n allow rest :
  (0 ≤ n < 2 ^ 63)%Z → ParseIntLineFast (print_int n ++ CRLF ++ rest) allow = Some (n, rest).
Proof.
  intros Hn. apply ParseIntLineFast_ok. exists false, (print_int n). rewrite print_int_nonneg by lia.
  assert (H19 : (10 ^ Z.of_nat 19 = 10000000000000000000)%Z) by reflexivity.
  rewrite decimal_value by lia. split_and!.
  - apply decimal_digits. lia.
  - apply decimal_nonempty. lia.
  - reflexivity.
  - intros [=].
  - lia.
  - reflexivity.
Qed.

(** ** The end of a line *)

Lemma ReadUntilCRLF_line l rest :
  no_cr l → (32 ≤ length l + 2 + length rest → visible (length l) (length l + 2 + length rest)) →
  ReadUntilCRLF (l ++ CRLF ++ rest) = (POk l, rest).
Proof.
  intros Hl Hv. unfold ReadUntilCRLF.
  assert (Hn : length (l ++ CRLF ++ rest) = length l + 2 + length rest) by (rewrite !length_app; simpl; lia).
  assert (Hf : (if 32 <=? length (l ++ CRLF ++ rest) then FindCRLF (l ++ CRLF ++ rest)
                else find_crlf_scalar 0 (l ++ CRLF ++ rest)) = Some (length l)).
  { rewrite Hn. destruct (32 <=? _) eqn:E; b2p.
    - apply FindCRLF_line; auto.
    - exact (scalar_finds 0 l rest Hl). }
  rewrite Hf. rewrite take_app_length. rewrite drop_app_ge by lia.
  by replace (length l + 2 - length l) with 2 by lia.
Qed.

Lemma ReadUntilCRLF_short l rest :
  no_cr l → length l ≤ 14 → ReadUntilCRLF (l ++ CRLF ++ rest) = (POk l, rest).
Proof.
  intros Hl Hs. apply ReadUntilCRLF_line; [done|]. intros H. apply visible_short; lia.
Qed.

Lemma find_line_ok data p :
  (if 32 <=? length data then FindCRLF data else find_crlf_scalar 0 data) = Some p →
  data !! p = Some CR ∧ data !! S p = Some LF.
Proof.
  destruct (32 <=? length data); intros H.
  - apply FindCRLF_ok in H. tauto.
  - apply scalar_sound in H as (k & -> & H1 & H2). done.
Qed.

(** A line that is read ends in CRLF; nothing is consumed otherwise. *)
Lemma ReadUntilCRLF_ok data r rest :
  ReadUntilCRLF data = (r, rest) →
  match r with
  | POk line => data = line ++ CRLF ++ rest
  | PFail => rest = data
  | _ => False
  end.
Proof.
  unfold ReadUntilCRLF. destruct (if 32 <=? _ then _ else _) as [p|] eqn:Hf; [|by intros [= <- <-]].
  apply find_line_ok in Hf as [H1 H2]. intros [= <- <-].
  rewrite <-(take_drop p data) at 1. f_equal. rewrite (drop_S _ CR p H1), (drop_S _ LF (S p) H2).
  by replace (p + 2) with (S (S p)) by lia.
Qed.

(** ** RESP: termination of the parser

    Every value that is read consumes input, so the fuel of [Parse] is enough
    and [Parse] satisfies the recursive equation of the source. *)

(** A parser that comes to an end and leaves a suffix of its input, shorter
    than the input if [strict]. *)
Definition safe {A} (p : Parser A) (data : bytes) : Prop :=
  match p data with
  | (POk _, rest) => rest `suffix_of` data
  | (PStuck, _) => False
  | _ => True
  end.

Definition strict {A} (p : Parser A) (data : bytes) : Prop :=
  match p data with
  | (POk _, rest) => rest `suffix_of` data ∧ length rest < length data
  | (PStuck, _) => False
  | _ => True
  end.

Create HintDb resp.

Section Safe.
Context {A C : Type}.

Lemma safe_ret (a : A) data : safe (pret a) data.
Proof. unfold safe. simpl. reflexivity. Qed.
Lemma safe_fail data : safe (A := A) pfail data.
Proof. done. Qed.
Lemma safe_throw data : safe (A := A) pthrow data.
Proof. done. Qed.
Lemma safe_option (o : option A) data : safe (pof_option o) data.
Proof. destruct o; [apply safe_ret|done]. Qed.

Lemma strict_safe (p : Parser A) data : strict p data → safe p data.
Proof. unfold strict, safe. destruct (p data) as [[] rest]; tauto. Qed.

Lemma safe_bind (p : Parser A) (k : A → Parser C) data :
  safe p data → (∀ a rest, p data = (POk a, rest) → safe (k a) rest) → safe (pbind p k) data.
Proof.
  unfold safe, pbind. intros Hp Hk. destruct (p data) as [[a| | |] rest]; try done.
  specialize (Hk a rest eq_refl). destruct (k a rest) as [[] rest']; try done. by etransitivity.
Qed.

Lemma pbind_ext (p : Parser A) (k1 k2 : A → Parser C) data :
  (∀ a rest, p data = (POk a, rest) → k1 a rest = k2 a rest) → pbind p k1 data = pbind p k2 data.
Proof. unfold pbind. intros H. destruct (p data) as [[a| | |] rest]; try done. by apply H. Qed.
End Safe.

#[export] Hint Resolve safe_ret safe_fail safe_throw safe_option strict_safe : resp.

Lemma ReadUntilCRLF_strict data : strict ReadUntilCRLF data.
Proof.
  unfold strict. destruct (ReadUntilCRLF data) as [r rest] eqn:E. apply ReadUntilCRLF_ok in E.
  destruct r as [line| | |]; try done. subst. split; [exists (line ++ CRLF); by rewrite <-app_assoc|].
  rewrite !length_app. simpl. lia.
Qed.

#[export] Hint Resolve ReadUntilCRLF_strict : resp.

Lemma safe_line {C} (k : bytes → Parser C) data :
  (∀ line rest, rest `suffix_of` data → safe (k line) rest) → safe (pbind ReadUntilCRLF k) data.
Proof.
  intros Hk. apply safe_bind; [auto with resp|]. intros line rest E. apply Hk.
  assert (H := ReadUntilCRLF_strict data). unfold strict in H. rewrite E in H. tauto.
Qed.

Lemma pof_option_ok {A} (o : option A) data a rest :
  pof_option o data = (POk a, rest) → rest = data ∧ o = Some a.
Proof. destruct o; [|done]. by intros [= <- <-]. Qed.

Lemma suffix_length_le (a b : bytes) : a `suffix_of` b → length a ≤ length b.
Proof. intros [k ->]. rewrite length_app. lia. Qed.

(** A parser behind the type byte is strict. *)
Lemma strict_after {A} (p : Parser A) c data :
  safe p data → strict (λ d, p (tail d)) (c :: data).
Proof.
  unfold safe, strict. cbn [tail]. destruct (p data) as [[] rest]; try done. intros H.
  split; [by apply suffix_cons_r|]. apply suffix_length_le in H. simpl. lia.
Qed.

Section Total.
Context {HD : DoubleText} {HA : Allocator}.

Lemma ParseBulkString_safe data : safe ParseBulkString data.
Proof.
  apply safe_line. intros line rest _. apply safe_bind; [auto with resp|]. intros len rest' _.
  destruct (len =? -1)%Z; [auto with resp|]. destruct (len <? 0)%Z; [done|]. unfold safe.
  destruct (_ <? _)%Z; [done|]. apply suffix_drop.
Qed.

Lemma simple_parsers_safe data :
  safe ParseSimpleString data ∧ safe ParseError data ∧ safe ParseInteger data ∧
  safe ParseNull data ∧ safe ParseBoolean data ∧ safe ParseDoubleValue data.
Proof.
  split_and!; apply safe_line; intros line rest _; auto with resp;
    first [apply safe_bind; auto with resp; fail|repeat case_match; auto with resp].
Qed.

Lemma parse_items_safe parse fuel count arr data :
  (∀ d, length d ≤ length data → strict parse d) → length data < fuel →
  safe (parse_items parse fuel count arr) data.
Proof.
  revert count arr data. induction fuel as [|fuel IH]; intros count arr data Hp Hf; [lia|].
  cbn [parse_items]. destruct (count <=? 0)%Z; [auto with resp|]. assert (Hs := Hp data ltac:(lia)).
  apply safe_bind; [auto with resp|]. intros v rest E. unfold strict in Hs. rewrite E in Hs.
  apply IH; [intros d Hd; apply Hp; lia|lia].
Qed.

Lemma parse_items_ext p1 p2 fuel count arr data :
  (∀ d, length d ≤ length data → p1 d = p2 d ∧ strict p1 d) →
  parse_items p1 fuel count arr data = parse_items p2 fuel count arr data.
Proof.
  revert count arr data. induction fuel as [|fuel IH]; intros count arr data Hp; [done|].
  cbn [parse_items]. destruct (count <=? 0)%Z; [done|].
  destruct (Hp data ltac:(lia)) as [He Hs]. unfold pbind. rewrite <-He. unfold strict in Hs.
  destruct (p1 data) as [[v| | |] rest]; try done.
  apply IH. intros d Hd. apply Hp. lia.
Qed.

Lemma ParseArray_safe parse data :
  (∀ d, length d ≤ length data → strict parse d) → safe (ParseArray parse) data.
Proof.
  intros Hp. apply safe_line. intros line rest Hr%suffix_length_le. apply safe_bind; [auto with resp|].
  intros count rest' [-> _]%pof_option_ok. destruct (count =? -1)%Z; [auto with resp|]. destruct (count <? 0)%Z; [done|].
  destruct (reserve_values count); simpl; [|done]. unfold safe at 1.
  change (safe (arr <~ parse_items parse (S (length rest)) count [];; pret (resp_array arr)) rest).
  apply safe_bind; [|auto with resp]. apply parse_items_safe; [|lia]. intros d Hd. apply Hp. lia.
Qed.

Lemma ParseArray_ext p1 p2 data :
  (∀ d, length d ≤ length data → p1 d = p2 d ∧ strict p1 d) → ParseArray p1 data = ParseArray p2 data.
Proof.
  intros Hp. unfold ParseArray. apply pbind_ext. intros line rest E.
  assert (Hr := ReadUntilCRLF_strict data). unfold strict in Hr. rewrite E in Hr.
  apply pbind_ext. intros count rest' [-> _]%pof_option_ok. repeat case_match; try done.
  unfold pbind. rewrite (parse_items_ext p1 p2); [done|]. intros d Hd. apply Hp. lia.
Qed.

Lemma ParseSwitch_strict parse data :
  (∀ d, length d < length data → strict parse d) → strict (ParseSwitch parse) data.
Proof.
  intros Hp. destruct data as [|c data]; [done|].
  destruct (simple_parsers_safe data) as (H1 & H2 & H3 & H4 & H5 & H6).
  assert (H7 : safe (ParseArray parse) data) by (apply ParseArray_safe; intros d Hd; apply Hp; simpl; lia).
  assert (H8 := ParseBulkString_safe data).
  assert (Hall : ∀ p : Parser RespValue, safe p data →
    match p data with
    | (POk _, rest) => rest `suffix_of` c :: data ∧ length rest < length (c :: data)
    | (PStuck, _) => False | _ => True end).
  { intros p. apply (strict_after p c data). }
  unfold strict, ParseSwitch.
  repeat match goal with |- context [ascii_eqb c ?t] => destruct (ascii_eqb c t); [by apply Hall|] end. done.
Qed.

Lemma ParseSwitch_ext p1 p2 data :
  (∀ d, length d < length data → p1 d = p2 d ∧ strict p1 d) → ParseSwitch p1 data = ParseSwitch p2 data.
Proof.
  intros Hp. destruct data as [|c data]; [done|]. cbn [ParseSwitch].
  rewrite (ParseArray_ext p1 p2 data); [done|]. intros d Hd. apply Hp. simpl. lia.
Qed.

Lemma parse_fuel_strict fuel data : length data < fuel → strict (parse_fuel fuel) data.
Proof.
  revert data. induction fuel as [|fuel IH]; intros data Hf; [lia|]. cbn [parse_fuel].
  apply ParseSwitch_strict. intros d Hd. apply IH. lia.
Qed.

Lemma parse_fuel_eq f1 f2 data :
  length data < f1 → length data < f2 → parse_fuel f1 data = parse_fuel f2 data.
Proof.
  revert f2 data. induction f1 as [|f1 IH]; intros f2 data H1 H2; [lia|]. destruct f2 as [|f2]; [lia|].
  cbn [parse_fuel]. apply ParseSwitch_ext. intros d Hd. split; [apply IH; lia|apply parse_fuel_strict; lia].
Qed.

Lemma Parse_strict data : strict Parse data.
Proof. apply (parse_fuel_strict (S (length data)) data). lia. Qed.

Lemma Parse_eq data : Parse data = ParseSwitch Parse data.
Proof.
  unfold Parse at 1. cbn [parse_fuel]. apply ParseSwitch_ext. intros d Hd. split.
  - apply parse_fuel_eq; lia.
  - apply parse_fuel_strict. lia.
Qed.

(** ** Commands *)

Lemma fast_bulk_safe i cmd data : safe (fast_bulk i cmd) data.
Proof.
  unfold safe, fast_bulk. destruct (ParseIntLineFast data true) as [[len w]|] eqn:E; [|done].
  apply ParseIntLineFast_ok in E as (neg & ds & _ & _ & -> & _).
  assert (Hw : w `suffix_of` (if neg then B "-" else []) ++ ds ++ CRLF ++ w).
  { rewrite !app_assoc. by eexists. }
  repeat case_match; simplify_eq; try done; etransitivity; first [apply suffix_drop|done|reflexivity].
Qed.

Lemma slow_item_strict i cmd data : strict (slow_item i cmd) data.
Proof.
  assert (H := Parse_strict data). unfold strict, slow_item, pbind in *.
  destruct (Parse data) as [[v| | |] rest]; try done. destruct (i =? 0)%Z.
  - by destruct (negb (IsBulkString v)).
  - by destruct (ToCommandArg v).
Qed.

Lemma command_item_strict i cmd data : strict (command_item i cmd) data.
Proof.
  destruct data as [|c data]; [apply slow_item_strict|]. unfold command_item, strict.
  destruct (ascii_eqb c "$"); [|apply slow_item_strict].
  apply (strict_after (fast_bulk i cmd) c data), fast_bulk_safe.
Qed.

Lemma command_loop_safe fuel i count cmd data :
  length data < fuel → safe (command_loop fuel i count cmd) data.
Proof.
  revert i cmd data. induction fuel as [|fuel IH]; intros i cmd data Hf; [lia|]. cbn [command_loop].
  destruct (count <=? i)%Z; [auto with resp|]. assert (Hs := command_item_strict i cmd data).
  apply safe_bind; [auto with resp|]. intros cmd' rest E. unfold strict in Hs. rewrite E in Hs. apply IH. lia.
Qed.

Lemma ParseCommandFromArray_strict data : strict ParseCommandFromArray data.
Proof.
  unfold strict, ParseCommandFromArray. destruct data as [|c w]; [done|].
  destruct (negb (ascii_eqb c "*")); [done|].
  destruct (ParseIntLineFast w false) as [[count w']|] eqn:E; [|done].
  destruct (_ || _); [done|]. destruct (negb (reserve_args _)); [done|].
  assert (H := command_loop_safe (S (length w')) 0 count (MkCommand [] []) w' ltac:(lia)). unfold safe in H.
  apply ParseIntLineFast_ok in E as (neg & ds & _ & _ & -> & _).
  destruct (command_loop _ _ _ _ w') as [[cmd| | |] rest]; try done.
  assert (Hl := suffix_length_le _ _ H). split; [|cbn [length]; rewrite !length_app; lia].
  apply suffix_cons_r. etransitivity; [exact H|]. rewrite !app_assoc. by eexists.
Qed.

Lemma ParseCommandFromArray_fails data r rest :
  ParseCommandFromArray data = (r, rest) → (∀ cmd, r ≠ POk cmd) → rest = data.
Proof.
  unfold ParseCommandFromArray. intros H Hr. repeat case_match; simplify_eq; try done; exfalso; by eapply Hr.
Qed.
End Total.

(** ** RESP: what is written is read back

    The round trip of values and commands, and messages that are not complete
    yet. *)

(** A line that the search for CRLF finds wherever it stands. *)
Definition line_ok (s : bytes) : Prop := no_cr s ∧ length s ≤ 14.

(** Lengths whose line is found. *)
Definition short (n : nat) : Prop := (Z.of_nat n < 10 ^ 14)%Z.

Section Roundtrip.
Context {HD : DoubleText} {HA : Allocator}.

(** Values whose text lines fit; a double must survive its own text. *)
Inductive sendable : RespValue → Prop :=
  | send_simple s : line_ok s → sendable (MkResp kSimpleString (VString s))
  | send_error s : line_ok s → sendable (MkResp kError (VString s))
  | send_int n : in_i64 n → length (print_int n) ≤ 14 → sendable (resp_int n)
  | send_bulk s : short (length s) → sendable (resp_string s)
  | send_array l :
      short (length l) → reserve_values (Z.of_nat (length l)) = true → Forall sendable l →
      sendable (resp_array l)
  | send_null_bulk : sendable (resp_of_type kNullBulkString)
  | send_null_array : sendable (resp_of_type kNullArray)
  | send_bool b : sendable (resp_bool b)
  | send_double d : line_ok (dtoa d) → atod (dtoa d) = Some d → sendable (resp_double d)
  | send_null : sendable (resp_of_type kNull).

Lemma short_i64 n : short n → i64 (Z.of_nat n) = Z.of_nat n.
Proof. unfold short. intros H. apply i64_small. unfold in_i64. lia. Qed.

Lemma short_line n : short n → line_ok (print_int (Z.of_nat n)).
Proof.
  intros H. split; [apply print_int_no_cr|]. rewrite print_int_nonneg by lia.
  apply decimal_length; [|lia..]. change (Z.of_nat 14) with 14%Z. unfold short in H. lia.
Qed.

Lemma ParseInt_print n : in_i64 n → ParseInt (print_int n) = Some n.
Proof. intros H. unfold ParseInt. rewrite <-(app_nil_r (print_int n)). by rewrite from_chars_print. Qed.

Lemma short_in_i64 n : short n → in_i64 (Z.of_nat n).
Proof. unfold short, in_i64. lia. Qed.

(** Reading a line the writer wrote. *)
Lemma read_line {A} (k : bytes → Parser A) line rest :
  line_ok line → pbind ReadUntilCRLF k (line ++ CRLF ++ rest) = k line rest.
Proof. intros [H1 H2]. unfold pbind. by rewrite ReadUntilCRLF_short. Qed.

Lemma read_length {A} (k : Z → Parser A) n rest :
  short n →
  pbind ReadUntilCRLF (λ line, pbind (pof_option (ParseInt line)) k) (print_int (Z.of_nat n) ++ CRLF ++ rest) =
  k (Z.of_nat n) rest.
Proof.
  intros H. rewrite read_line by (by apply short_line). by rewrite ParseInt_print by (by apply short_in_i64).
Qed.

Lemma ParseBulkString_bulk s rest :
  short (length s) →
  ParseBulkString (print_int (Z.of_nat (length s)) ++ CRLF ++ s ++ CRLF ++ rest) = (POk (resp_string s), rest).
Proof.
  intros Hs. unfold ParseBulkString. rewrite read_length by done.
  rewrite (proj2 (Z.eqb_neq _ (-1))), (proj2 (Z.ltb_ge _ 0)) by lia. unfold short in Hs.
  rewrite u64_small by (unfold in_u64; lia).
  rewrite (proj2 (Z.ltb_ge _ _)) by (rewrite !length_app; simpl; lia). rewrite Nat2Z.id, take_app_length.
  f_equal. rewrite drop_app_ge by lia. by replace (length s + 2 - length s) with 2 by lia.
Qed.

Lemma Build_nonempty v : sendable v → Build v ≠ [].
Proof.
  destruct 1; try done.
  change (Build (resp_array l)) with (BuildArray l). by rewrite BuildArray_eq.
Qed.

Lemma parse_items_all l : ∀ fuel arr rest,
  Forall (λ v, sendable v ∧ ∀ rest, Parse (Build v ++ rest) = (POk v, rest)) l → length l ≤ fuel →
  parse_items Parse fuel (Z.of_nat (length l)) arr (concat (map Build l) ++ rest) = (POk (arr ++ l), rest).
Proof.
  induction l as [|v l IH]; intros fuel arr rest Hl Hf.
  { destruct fuel; simpl; by rewrite app_nil_r. }
  apply Forall_cons_1 in Hl as [[_ Hv] Hl]. destruct fuel as [|fuel]; [simpl in Hf; lia|].
  cbn [parse_items length]. rewrite (proj2 (Z.leb_gt _ 0)) by lia. cbn [map concat]. unfold pbind.
  rewrite <-app_assoc, Hv. replace (Z.of_nat (S (length l)) - 1)%Z with (Z.of_nat (length l)) by lia.
  rewrite IH by (try done; simpl in Hf; lia). by rewrite <-app_assoc.
Qed.

Lemma length_concat_ge (l : list RespValue) :
  Forall sendable l → length l ≤ length (concat (map Build l)).
Proof.
  induction 1 as [|v l Hv _ IH]; [done|]. cbn [map concat length]. rewrite length_app.
  apply Build_nonempty in Hv. destruct (Build v); [done|]. simpl. lia.
Qed.

Lemma Parse_array l rest :
  short (length l) → reserve_values (Z.of_nat (length l)) = true → Forall sendable l →
  Forall (λ v, ∀ rest, Parse (Build v ++ rest) = (POk v, rest)) l →
  Parse (BuildArray l ++ rest) = (POk (resp_array l), rest).
Proof.
  intros Hs Hr Hl Hv. rewrite BuildArray_eq, short_i64 by done. rewrite Parse_eq.
  cbn [app ParseSwitch]. rewrite <-!app_assoc.
  change (ParseArray Parse (print_int (Z.of_nat (length l)) ++ CRLF ++ concat (map Build l) ++ rest) =
          (POk (resp_array l), rest)).
  unfold ParseArray. rewrite read_length by done.
  rewrite (proj2 (Z.eqb_neq _ (-1))), (proj2 (Z.ltb_ge _ 0)), Hr by lia. cbn [negb]. unfold pbind.
  rewrite parse_items_all; [done| |].
  - apply Forall_and. done.
  - rewrite length_app. apply length_concat_ge in Hl. lia.
Qed.

Lemma Parse_Build v rest : sendable v → Parse (Build v ++ rest) = (POk v, rest).
Proof.
  revert rest. induction v as [t l IH|t m _|t x Hx _] using resp_ind; intros rest Hv.
  - inversion Hv as [| | | |l' Hs Hr Hl| | | | |]; subst. apply (Parse_array l rest); try done.
    rewrite Forall_forall in IH, Hl |- *. intros v Hin r. auto.
  - inversion Hv.
  - inversion Hv as [s H|s H|n H1 H2|s H|l H1 H2 H3| | |b|d H1 H2|]; subst.
    + rewrite Parse_eq. cbn. rewrite <-app_assoc. unfold ParseSimpleString. by rewrite read_line.
    + rewrite Parse_eq. cbn. rewrite <-app_assoc. unfold ParseError. by rewrite read_line.
    + rewrite Parse_eq. change (Build (MkResp kInteger (VInt n)) ++ rest) with (":"%char :: (print_int n ++ CRLF) ++ rest).
      cbn [ParseSwitch]. rewrite <-app_assoc.
      change (ParseInteger (print_int n ++ CRLF ++ rest) = (POk (resp_int n), rest)).
      unfold ParseInteger. rewrite read_line by (split; [apply print_int_no_cr|done]). by rewrite ParseInt_print.
    + rewrite Parse_eq. change (Build (MkResp kBulkString (VString s))) with (BuildBulkString s).
      rewrite BuildBulkString_eq, short_i64 by done. cbn [app ParseSwitch]. rewrite <-!app_assoc.
      change (ParseBulkString (print_int (Z.of_nat (length s)) ++ CRLF ++ s ++ CRLF ++ rest) =
              (POk (resp_string s), rest)). by apply ParseBulkString_bulk.
    + by destruct (Hx l).
    + rewrite Parse_eq. cbn. change (ParseBulkString (B "-1" ++ CRLF ++ rest) = (POk (resp_of_type kNullBulkString), rest)).
      unfold ParseBulkString. by rewrite read_line by (split; [repeat constructor; done|simpl; lia]).
    + rewrite Parse_eq. cbn. change (ParseArray Parse (B "-1" ++ CRLF ++ rest) = (POk (resp_of_type kNullArray), rest)).
      unfold ParseArray. by rewrite read_line by (split; [repeat constructor; done|simpl; lia]).
    + rewrite Parse_eq. change (Build (MkResp kBoolean (VBool b)) ++ rest) with ("#"%char :: [if b then "t"%char else "f"%char] ++ CRLF ++ rest).
      change (ParseBoolean ([if b then "t"%char else "f"%char] ++ CRLF ++ rest) = (POk (resp_bool b), rest)).
      unfold ParseBoolean. rewrite read_line; [by destruct b|]. split; [by destruct b; repeat constructor|simpl; lia].
    + rewrite Parse_eq. cbn. rewrite <-app_assoc.
      change (ParseDoubleValue (dtoa d ++ CRLF ++ rest) = (POk (resp_double d), rest)).
      unfold ParseDoubleValue, ParseDouble. rewrite read_line by done. by rewrite H2.
    + rewrite Parse_eq. change (ParseNull ([] ++ CRLF ++ rest) = (POk (resp_of_type kNull), rest)).
      unfold ParseNull. by rewrite read_line by (split; [constructor|simpl; lia]).
Qed.
End Roundtrip.
