(* ===== verification/RespCommands.v ===== *)
(** * RESP: commands

    A command written as an array of bulk strings is read back by the fast
    path and by the general one, and no strict prefix of it is read as
    anything. *)
From Stdlib Require Import SpecFloat.
From S2P Require Import Prelude.
From S2P Require Import Simd.
From S2P Require Import Numbers.
From S2P Require Import RespTypes.
From S2P Require Import RespParser.
From S2P Require Import RespTotal.

(** The command that a list of strings stands for. *)
Definition command_of (name : bytes) (args : list bytes) : Command :=
  MkCommand name (map (λ s, arg_string s kBulkString) args).

(** A text that is complete but for at least one byte. *)
Definition strict_prefix (p m : bytes) : Prop := ∃ x, x ≠ [] ∧ m = p ++ x.

Lemma strict_prefix_app p a b :
  strict_prefix p (a ++ b) → strict_prefix p a ∨ ∃ p', p = a ++ p' ∧ strict_prefix p' b.
Proof.
  intros (x & Hx & He). apply app_eq_inv in He as [(k & -> & ->)|(k & -> & ->)].
  - destruct k as [|c k].
    + right. exists []. rewrite !app_nil_r. split; [done|]. by exists b.
    + left. by exists (c :: k).
  - right. exists k. split; [done|]. by exists x.
Qed.

Lemma strict_prefix_cons p c m : strict_prefix p (c :: m) → p = [] ∨ ∃ p', p = c :: p' ∧ strict_prefix p' m.
Proof.
  intros (x & Hx & He). destruct p as [|c' p]; [by left|]. injection He as <- ->. right. exists p.
  split; [done|]. by exists x.
Qed.

Lemma strict_prefix_length p m : strict_prefix p m → length p < length m.
Proof. intros (x & Hx & ->). rewrite length_app. destruct x; [done|]. simpl. lia. Qed.

(** More input does not change a length line that was read. *)
Lemma ParseIntLineFast_more input allow v rest x :
  ParseIntLineFast input allow = Some (v, rest) → ParseIntLineFast (input ++ x) allow = Some (v, rest ++ x).
Proof.
  rewrite !ParseIntLineFast_ok. intros (neg & ds & H1 & H2 & -> & H3). exists neg, ds.
  split; [done|]. split; [done|]. split; [by rewrite <-!app_assoc|done].
Qed.

Section Commands.
Context {HD : DoubleText} {HA : Allocator}.

Definition fits (s : bytes) : Prop := (Z.of_nat (length s) + 2 < 2 ^ 63)%Z.

Lemma fits_i64 s : fits s → i64 (Z.of_nat (length s)) = Z.of_nat (length s).
Proof. unfold fits. intros H. apply i64_small. unfold in_i64. lia. Qed.

(** What an element does to the command. *)
Definition with_item (i : Z) (s : bytes) (cmd : Command) : Command :=
  if (i =? 0)%Z then MkCommand s (cmd_args cmd) else push_arg (arg_string s kBulkString) cmd.

Lemma command_item_bulk i cmd s rest :
  fits s → command_item i cmd (BuildBulkString s ++ rest) = (POk (with_item i s cmd), rest).
Proof.
  intros Hs. rewrite BuildBulkString_eq, fits_i64 by done. cbn [app command_item].
  change (ascii_eqb "$" "$") with true. cbv iota. unfold fast_bulk. rewrite <-!app_assoc.
  unfold fits in Hs. rewrite ParseIntLineFast_print by lia.
  rewrite (proj2 (Z.eqb_neq _ (-1))), (proj2 (Z.ltb_ge _ 0)) by lia.
  rewrite u64_small by (unfold in_u64; lia).
  rewrite (proj2 (Z.ltb_ge _ _)) by (rewrite !length_app; simpl; lia). rewrite Nat2Z.id.
  rewrite (lookup_app_r s _ (length s)), (lookup_app_r s _ (length s + 1)) by lia.
  replace (length s + 1 - length s) with 1 by lia. rewrite Nat.sub_diag. rewrite take_app_length, drop_app_ge by lia.
  by replace (length s + 2 - length s) with 2 by lia.
Qed.

Lemma command_loop_args l : ∀ fuel i cmd rest,
  Forall fits l → (0 < i)%Z → length l ≤ fuel →
  command_loop fuel i (i + Z.of_nat (length l)) cmd (concat (map BuildBulkString l) ++ rest) =
  (POk (MkCommand (cmd_name cmd) (cmd_args cmd ++ map (λ s, arg_string s kBulkString) l)), rest).
Proof.
  induction l as [|s l IH]; intros fuel i cmd rest Hl Hi Hf.
  { cbn [length map concat app]. rewrite app_nil_r. destruct cmd.
    destruct fuel; cbn [command_loop]; by rewrite (proj2 (Z.leb_le _ i)) by lia. }
  apply Forall_cons_1 in Hl as [Hs Hl]. destruct fuel as [|fuel]; [simpl in Hf; lia|].
  cbn [command_loop length]. rewrite (proj2 (Z.leb_gt _ i)) by lia. cbn [map concat]. unfold pbind.
  rewrite <-app_assoc, command_item_bulk by done.
  replace (i + Z.of_nat (S (length l)))%Z with (i + 1 + Z.of_nat (length l))%Z by lia.
  rewrite IH by (try done; simpl in Hf; lia). unfold with_item. rewrite (proj2 (Z.eqb_neq i 0)) by lia.
  cbn [push_arg cmd_name cmd_args]. by rewrite <-app_assoc.
Qed.

Lemma length_bulks (l : list bytes) : length l ≤ length (concat (map BuildBulkString l)).
Proof.
  induction l as [|s l IH]; [done|]. cbn [map concat length]. rewrite length_app, BuildBulkString_eq.
  simpl. lia.
Qed.

(** The sizes for which a command can be sent and received. *)
Definition sendable_command (name : bytes) (args : list bytes) : Prop :=
  fits name ∧ Forall fits args ∧ (Z.of_nat (S (length args)) < 2 ^ 31)%Z ∧
  reserve_args (Z.of_nat (length args)) = true.

Lemma command_header name args :
  sendable_command name args →
  BuildArrayOfStrings (name :: args) =
  "*"%char :: print_int (Z.of_nat (S (length args))) ++ CRLF ++ concat (map BuildBulkString (name :: args)).
Proof.
  intros (_ & _ & Hc & _). rewrite BuildArrayOfStrings_eq. cbn [length].
  by rewrite i64_small by (unfold in_i64; lia).
Qed.

(** The part of [ParseCommandFromArray] after the header. *)
Lemma ParseCommandFromArray_count name args working rest :
  sendable_command name args →
  ParseIntLineFast working false = Some (Z.of_nat (S (length args)), rest) →
  ParseCommandFromArray ("*"%char :: working) =
    match command_loop (S (length rest)) 0 (Z.of_nat (S (length args))) (MkCommand [] []) rest with
    | (POk cmd, w) => (POk cmd, w)
    | (r, _) => (r, "*"%char :: working)
    end.
Proof.
  intros (_ & _ & Hc & Hr) E. unfold ParseCommandFromArray. change (ascii_eqb "*" "*") with true. cbn [negb].
  rewrite E, (proj2 (Z.leb_gt _ 0)), (proj2 (Z.ltb_ge (2 ^ 31 - 1) _)) by lia. cbn [orb].
  assert ((if (1 <? Z.of_nat (S (length args)))%Z then Z.of_nat (S (length args)) - 1 else 0)%Z =
          Z.of_nat (length args)) as -> by (destruct (_ <? _)%Z eqn:?; b2p; lia).
  by rewrite Hr.
Qed.

Lemma ParseCommandFromArray_command name args rest :
  sendable_command name args →
  ParseCommandFromArray (BuildArrayOfStrings (name :: args) ++ rest) = (POk (command_of name args), rest).
Proof.
  intros Hs. assert (Hs' := Hs). destruct Hs' as (Hn & Ha & Hc & Hr). rewrite command_header by done.
  cbn [app]. rewrite <-!app_assoc.
  rewrite (ParseCommandFromArray_count name args _ (concat (map BuildBulkString (name :: args)) ++ rest));
    [|done|apply ParseIntLineFast_print; lia].
  cbn [command_loop]. rewrite (proj2 (Z.leb_gt _ 0)) by lia. cbn [map concat]. unfold pbind.
  rewrite <-app_assoc, command_item_bulk by done.
  replace (Z.of_nat (S (length args))) with (0 + 1 + Z.of_nat (length args))%Z by lia.
  rewrite command_loop_args; [done|done|lia|]. rewrite !length_app. pose proof (length_bulks args). lia.
Qed.

(** ** Incomplete commands, fast path *)

Lemma command_item_incomplete i cmd s p :
  fits s → strict_prefix p (BuildBulkString s) → ∃ w, command_item i cmd p = (PFail, w).
Proof.
  intros Hs. rewrite BuildBulkString_eq, fits_i64 by done. intros [->|(p' & -> & x & Hx & Hp)]%strict_prefix_cons.
  { exists []. reflexivity. }
  cbn [command_item]. change (ascii_eqb "$" "$") with true. cbv iota. unfold fast_bulk.
  destruct (ParseIntLineFast p' true) as [[v w]|] eqn:E; [|by eexists].
  apply (ParseIntLineFast_more _ _ _ _ x) in E. rewrite <-Hp in E. unfold fits in Hs.
  rewrite ParseIntLineFast_print in E by lia. injection E as <- Hw.
  rewrite (proj2 (Z.eqb_neq _ (-1))), (proj2 (Z.ltb_ge _ 0)) by lia. rewrite u64_small by (unfold in_u64; lia).
  rewrite (proj2 (Z.ltb_lt _ _)); [by eexists|].
  apply (f_equal length) in Hw. rewrite !length_app in Hw. simpl in Hw. destruct x; [done|]. simpl in Hw. lia.
Qed.

Lemma command_loop_incomplete l : ∀ fuel i cmd p,
  Forall fits l → (0 ≤ i)%Z → length l ≤ fuel ∨ length p < fuel → strict_prefix p (concat (map BuildBulkString l)) →
  ∃ w, command_loop fuel i (i + Z.of_nat (length l)) cmd p = (PFail, w).
Proof.
  induction l as [|s l IH]; intros fuel i cmd p Hl Hi Hf Hp.
  { apply strict_prefix_length in Hp. simpl in Hp. lia. }
  apply Forall_cons_1 in Hl as [Hs Hl]. destruct fuel as [|fuel]; [simpl in Hf; lia|].
  cbn [command_loop length]. rewrite (proj2 (Z.leb_gt _ i)) by lia. unfold pbind. cbn [map concat] in Hp.
  apply strict_prefix_app in Hp as [Hp|(p' & -> & Hp)].
  - destruct (command_item_incomplete i cmd s p Hs Hp) as [w ->]. by eexists.
  - rewrite command_item_bulk by done.
    replace (i + Z.of_nat (S (length l)))%Z with (i + 1 + Z.of_nat (length l))%Z by lia.
    apply IH; [done|lia| |done]. rewrite BuildBulkString_eq in Hf. simpl in Hf. rewrite !length_app in Hf. lia.
Qed.

Lemma ParseCommandFromArray_incomplete name args p :
  sendable_command name args → strict_prefix p (BuildArrayOfStrings (name :: args)) →
  ParseCommandFromArray p = (PFail, p).
Proof.
  intros Hs Hp. assert (Hs' := Hs). destruct Hs' as (Hn & Ha & Hc & Hr). rewrite command_header in Hp by done.
  apply strict_prefix_cons in Hp as [->|(p' & -> & x & Hx & Hp)]; [done|].
  destruct (ParseIntLineFast p' false) as [[v w]|] eqn:E.
  2: { unfold ParseCommandFromArray. change (ascii_eqb "*" "*") with true. cbn [negb]. by rewrite E. }
  assert (E' := E). apply (ParseIntLineFast_more _ _ _ _ x) in E'. rewrite <-Hp in E'.
  rewrite ParseIntLineFast_print in E' by lia. injection E' as <- Hw.
  rewrite (ParseCommandFromArray_count name args p' w Hs E).
  destruct (command_loop_incomplete (name :: args) (S (length w)) 0 (MkCommand [] []) w) as [w' Hl].
  - by constructor.
  - lia.
  - right. lia.
  - by exists x.
  - cbn [length] in Hl. rewrite Z.add_0_l in Hl. by rewrite Hl.
Qed.

(** ** Incomplete values, general path *)

Lemma ReadUntilCRLF_incomplete line p :
  no_cr line → strict_prefix p (line ++ CRLF) → ReadUntilCRLF p = (PFail, p).
Proof.
  intros Hl Hp. assert (Hlen := strict_prefix_length _ _ Hp). rewrite length_app in Hlen. simpl in Hlen.
  destruct (ReadUntilCRLF p) as [r rest] eqn:E. apply ReadUntilCRLF_ok in E.
  destruct r as [l| | |]; try done; [|by subst]. exfalso. destruct Hp as (x & _ & Hp).
  assert (Hcr : (line ++ CRLF) !! length l = Some CR).
  { rewrite Hp, E. rewrite <-!app_assoc. rewrite lookup_app_r by lia. by rewrite Nat.sub_diag. }
  rewrite E, !length_app in Hlen. simpl in Hlen. rewrite lookup_app_l in Hcr by lia.
  unfold no_cr in Hl. rewrite Forall_forall in Hl. eapply Hl; [by eapply list_elem_of_lookup_2|done].
Qed.

Lemma read_line_incomplete {A} (k : bytes → Parser A) line m p :
  line_ok line → strict_prefix p (line ++ CRLF ++ m) →
  pbind ReadUntilCRLF k p = (PFail, p) ∨
  ∃ p', strict_prefix p' m ∧ pbind ReadUntilCRLF k p = k line p'.
Proof.
  intros Hl Hp. rewrite app_assoc in Hp. apply strict_prefix_app in Hp as [Hp|(p' & -> & Hp)].
  - left. unfold pbind. destruct Hl as [Hl _]. by rewrite (ReadUntilCRLF_incomplete line p Hl Hp).
  - right. exists p'. split; [done|]. rewrite <-app_assoc. by apply read_line.
Qed.

Lemma read_length_incomplete {A} (k : Z → Parser A) n m p :
  short n → strict_prefix p (print_int (Z.of_nat n) ++ CRLF ++ m) →
  pbind ReadUntilCRLF (λ line, pbind (pof_option (ParseInt line)) k) p = (PFail, p) ∨
  ∃ p', strict_prefix p' m ∧
    pbind ReadUntilCRLF (λ line, pbind (pof_option (ParseInt line)) k) p = k (Z.of_nat n) p'.
Proof.
  intros Hn Hp. apply (read_line_incomplete (λ line, pbind (pof_option (ParseInt line)) k)) in Hp
    as [H|(p' & H1 & H2)]; [by left| |by apply short_line].
  right. exists p'. split; [done|]. rewrite H2. by rewrite ParseInt_print by (by apply short_in_i64).
Qed.

(** Incomplete text on which a parser fails. *)
Definition fails_on {A} (p : Parser A) (data : bytes) : Prop := ∃ w, p data = (PFail, w).

Lemma line_fails {A} (k : bytes → Parser A) line p :
  line_ok line → strict_prefix p (line ++ CRLF) → fails_on (pbind ReadUntilCRLF k) p.
Proof.
  intros [Hl _] Hp. exists p. unfold pbind. by rewrite (ReadUntilCRLF_incomplete line p Hl Hp).
Qed.

Lemma ParseBulkString_incomplete s p :
  short (length s) → strict_prefix p (print_int (Z.of_nat (length s)) ++ CRLF ++ s ++ CRLF) →
  fails_on ParseBulkString p.
Proof.
  intros Hs Hp. unfold ParseBulkString, fails_on.
  eapply read_length_incomplete in Hp as [->|(p' & Hp & ->)]; [by eexists| |done].
  rewrite (proj2 (Z.eqb_neq _ (-1))), (proj2 (Z.ltb_ge _ 0)) by lia. unfold short in Hs.
  rewrite u64_small by (unfold in_u64; lia). apply strict_prefix_length in Hp. rewrite length_app in Hp. simpl in Hp.
  rewrite (proj2 (Z.ltb_lt _ _)) by lia. by eexists.
Qed.

Lemma parse_items_incomplete l : ∀ fuel arr p,
  Forall (λ v, sendable v ∧ ∀ p, strict_prefix p (Build v) → fails_on Parse p) l →
  length p < fuel → strict_prefix p (concat (map Build l)) →
  fails_on (parse_items Parse fuel (Z.of_nat (length l)) arr) p.
Proof.
  induction l as [|v l IH]; intros fuel arr p Hl Hf Hp.
  { apply strict_prefix_length in Hp. simpl in Hp. lia. }
  apply Forall_cons_1 in Hl as [[Hv Hi] Hl]. destruct fuel as [|fuel]; [lia|]. unfold fails_on.
  cbn [parse_items length]. rewrite (proj2 (Z.leb_gt _ 0)) by lia. unfold pbind. cbn [map concat] in Hp.
  apply strict_prefix_app in Hp as [Hp|(p' & -> & Hp)].
  - destruct (Hi p Hp) as [w ->]. by eexists.
  - rewrite Parse_Build by done.
    replace (Z.of_nat (S (length l)) - 1)%Z with (Z.of_nat (length l)) by lia.
    apply IH; [done| |done]. apply Build_nonempty in Hv. destruct (Build v); [done|].
    rewrite length_app in Hf. simpl in Hf. lia.
Qed.

Lemma Parse_array_incomplete l p :
  short (length l) → reserve_values (Z.of_nat (length l)) = true → Forall sendable l →
  Forall (λ v, ∀ p, strict_prefix p (Build v) → fails_on Parse p) l →
  strict_prefix p (BuildArray l) → fails_on Parse p.
Proof.
  intros Hs Hr Hl Hi Hp. rewrite BuildArray_eq, short_i64 in Hp by done. unfold fails_on. rewrite Parse_eq.
  apply strict_prefix_cons in Hp as [->|(p' & -> & Hp)]; [by eexists|].
  change (fails_on (ParseArray Parse) p'). unfold fails_on, ParseArray.
  eapply read_length_incomplete in Hp as [->|(w & Hp & ->)]; [by eexists| |done].
  rewrite (proj2 (Z.eqb_neq _ (-1))), (proj2 (Z.ltb_ge _ 0)), Hr by lia. cbn [negb].
  destruct (parse_items_incomplete l (S (length w)) [] w) as [w' Hw']; [by apply Forall_and|lia|done|].
  unfold pbind. rewrite Hw'. by eexists.
Qed.

(** Strips the type byte of an incomplete value. *)
Ltac incomplete_tag Hp parser :=
  apply strict_prefix_cons in Hp as [->|(p' & -> & Hp)]; [by eexists|]; change (fails_on parser p').

Lemma Parse_incomplete v : ∀ p, sendable v → strict_prefix p (Build v) → fails_on Parse p.
Proof.
  induction v as [t l IH|t m _|t x Hx _] using resp_ind; intros p Hv Hp.
  - inversion Hv as [| | | |l' Hs Hr Hl| | | | |]; subst. apply (Parse_array_incomplete l p); try done.
    rewrite Forall_forall in IH, Hl |- *. intros v Hin r Hr'. eauto.
  - inversion Hv.
  - assert (Hm1 : line_ok (B "-1")) by (split; [repeat constructor; done|simpl; lia]).
    unfold fails_on. rewrite Parse_eq.
    inversion Hv as [s H|s H|n H1 H2|s H|l H1 H2 H3| | |b|d H1 H2|]; subst.
    + incomplete_tag Hp ParseSimpleString. by eapply line_fails.
    + incomplete_tag Hp ParseError. by eapply line_fails.
    + incomplete_tag Hp ParseInteger. eapply line_fails; [split; [apply print_int_no_cr|]|]; done.
    + change (Build (MkResp kBulkString (VString s))) with (BuildBulkString s) in Hp.
      rewrite BuildBulkString_eq, short_i64 in Hp by done. incomplete_tag Hp ParseBulkString.
      by eapply ParseBulkString_incomplete.
    + by destruct (Hx l).
    + incomplete_tag Hp ParseBulkString. by eapply (line_fails _ (B "-1")).
    + incomplete_tag Hp (ParseArray Parse). by eapply (line_fails _ (B "-1")).
    + change (Build (MkResp kBoolean (VBool b))) with ("#"%char :: [if b then "t"%char else "f"%char] ++ CRLF) in Hp.
      incomplete_tag Hp ParseBoolean. eapply line_fails; [|done]. split; [by destruct b; repeat constructor|simpl; lia].
    + incomplete_tag Hp ParseDoubleValue. by eapply line_fails.
    + change (Build (MkResp kNull VMonostate)) with ("_"%char :: [] ++ CRLF) in Hp.
      incomplete_tag Hp ParseNull. eapply line_fails; [|done]. split; [constructor|simpl; lia].
Qed.
End Commands.
