(* ===== verification/Connection.v ===== *)
(** * The read side of a connection

    Models [Worker::Connection::DoRead] and [ProcessCommands] of
    src/astra/server/worker.hpp: the receive buffer with its lazily compacted
    consumed prefix, and the loop that turns it into commands.  Queues and the
    socket are the events of a step. *)
From Stdlib Require Import SpecFloat.
From S2P Require Import Prelude.
From S2P Require Import Simd.
From S2P Require Import Numbers.
From S2P Require Import RespTypes.
From S2P Require Import RespParser.
From S2P Require Import RespTotal.
From S2P Require Import RespCommands.

Record Conn := MkConn { receive_buffer_ : bytes; receive_buffer_offset_ : nat }.

(** A command handed to the executor, or a reply put in the response queue. *)
Inductive event := Enqueue (cmd : Command) | SendResponseViaQueue (response : bytes).

Definition kReceiveBufferCompactThreshold : nat := 8 * 1024.

Definition cleared : Conn := MkConn [] 0.

(** What the parse loop leaves: the events, the bytes consumed and whether a
    protocol error was seen; an exception, with the events before it; or out
    of fuel. *)
Inductive loop_result :=
  | LDone (events : list event) (total_consumed : nat) (protocol_error : bool)
  | LThrow (events : list event)
  | LStuck.

Section Connection.
Context {HD : DoubleText} {HA : Allocator}.

Fixpoint process_loop (fuel : nat) (remaining : bytes) (total_consumed : nat) (events : list event) :
  loop_result :=
  match remaining with
  | [] => LDone events total_consumed false
  | _ :: _ =>
      match fuel with
      | O => LStuck
      | S fuel =>
          let advance view e :=
            process_loop fuel view (total_consumed + (length remaining - length view)) (events ++ [e]) in
          match ParseCommandFromArray remaining with
          | (POk cmd, parse_view) => advance parse_view (Enqueue cmd)
          | (PThrow, _) => LThrow events
          | (PStuck, _) => LStuck
          | (PFail, _) =>
              match Parse remaining with
              | (POk value, slow_view) =>
                  match ParseCommand value with
                  | Some cmd => advance slow_view (Enqueue cmd)
                  | None => advance slow_view (SendResponseViaQueue (B "ERR invalid command format"))
                  end
              | (PThrow, _) => LThrow events
              | (PStuck, _) => LStuck
              | (PFail, _) =>
                  match HasCompleteValue remaining with
                  | POk true =>
                      LDone (events ++ [SendResponseViaQueue (B "ERR invalid RESP protocol")]) total_consumed true
                  | POk false | PFail => LDone events total_consumed false
                  | PThrow => LThrow events
                  | PStuck => LStuck
                  end
              end
          end
      end
  end.

(** Drop the consumed prefix when it is most of a large buffer. *)
Definition compact (c : Conn) : Conn :=
  if receive_buffer_offset_ c =? length (receive_buffer_ c) then cleared
  else if (kReceiveBufferCompactThreshold <=? receive_buffer_offset_ c) &&
          (length (receive_buffer_ c) <=? receive_buffer_offset_ c * 2)
  then MkConn (drop (receive_buffer_offset_ c) (receive_buffer_ c)) 0
  else c.

(** The new state with the events, or [None] when an exception leaves the
    function; the last component is the call of [notify_callback_]. *)
Definition ProcessCommands (c : Conn) : option (Conn * list event * bool) :=
  if length (receive_buffer_ c) <=? receive_buffer_offset_ c then Some (cleared, [], false)
  else
    let remaining := drop (receive_buffer_offset_ c) (receive_buffer_ c) in
    match process_loop (S (length remaining)) remaining 0 [] with
    | LDone events total_consumed protocol_error =>
        let c := MkConn (receive_buffer_ c) (receive_buffer_offset_ c + total_consumed) in
        let c := if protocol_error then cleared else compact c in
        Some (c, events, existsb (λ e, match e with Enqueue _ => true | _ => false end) events)
    | LThrow _ | LStuck => None
    end.

(** One turn of [DoRead] with the bytes that arrived. *)
Definition OnRead (chunk : bytes) (c : Conn) : option (Conn * list event * bool) :=
  let c := compact c in
  ProcessCommands (MkConn (receive_buffer_ c ++ chunk) (receive_buffer_offset_ c)).

Fixpoint run_reads (chunks : list bytes) (c : Conn) : option (Conn * list event) :=
  match chunks with
  | [] => Some (c, [])
  | chunk :: chunks =>
      '(c, events, _) ← OnRead chunk c;
      '(c, events') ← run_reads chunks c;
      Some (c, events ++ events')
  end.

(** ** Properties *)

(** The bytes of the buffer that are not consumed. *)
Definition pending (c : Conn) : bytes := drop (receive_buffer_offset_ c) (receive_buffer_ c).
Definition conn_ok (c : Conn) : Prop := receive_buffer_offset_ c ≤ length (receive_buffer_ c).

Lemma compact_ok c : conn_ok c → conn_ok (compact c) ∧ pending (compact c) = pending c.
Proof.
  unfold conn_ok, compact, pending. intros Hc. destruct (_ =? _) eqn:E1; b2p.
  { simpl. split; [lia|]. by rewrite E1, drop_all. }
  destruct (_ && _); simpl; [|done]. split; [lia|]. by rewrite drop_0.
Qed.

(** The loop comes to an end, consumes a prefix of its input and never reports
    a protocol error. *)
Lemma process_loop_total fuel remaining total events :
  length remaining < fuel →
  match process_loop fuel remaining total events with
  | LDone events' total' protocol_error =>
      protocol_error = false ∧ ∃ n, total' = total + n ∧ n ≤ length remaining
  | LThrow _ => True
  | LStuck => False
  end.
Proof.
  revert remaining total events. induction fuel as [|fuel IH]; intros remaining total events Hf; [lia|].
  cbn [process_loop]. destruct remaining as [|b r]; [split; [done|]; exists 0; lia|].
  set (remaining := b :: r) in *.
  assert (Hadv : ∀ view e, length view < length remaining →
    match process_loop fuel view (total + (length remaining - length view)) (events ++ [e]) with
    | LDone _ total' protocol_error =>
        protocol_error = false ∧ ∃ n, total' = total + n ∧ n ≤ length remaining
    | LThrow _ => True | LStuck => False end).
  { intros view e Hv. specialize (IH view (total + (length remaining - length view)) (events ++ [e]) ltac:(lia)).
    destruct (process_loop _ _ _ _); try done. destruct IH as [? (n & -> & Hn)]. split; [done|].
    exists (length remaining - length view + n). lia. }
  assert (H1 := ParseCommandFromArray_strict remaining). assert (H2 := Parse_strict remaining).
  unfold strict in H1, H2. unfold HasCompleteValue.
  destruct (ParseCommandFromArray remaining) as [[cmd| | |] v1]; [apply Hadv; tauto| |done|done].
  destruct (Parse remaining) as [[value| | |] v2]; [|split; [done|]; exists 0; lia|done|done].
  destruct (ParseCommand value); apply Hadv; tauto.
Qed.

(** A read in terms of the pending bytes: the buffer with its offset and its
    compaction is a queue of bytes. *)
Lemma OnRead_pending chunk c :
  conn_ok c →
  match process_loop (S (length (pending c ++ chunk))) (pending c ++ chunk) 0 [] with
  | LDone events n _ =>
      ∃ c' b, OnRead chunk c = Some (c', events, b) ∧ conn_ok c' ∧ pending c' = drop n (pending c ++ chunk)
  | LThrow _ => OnRead chunk c = None
  | LStuck => False
  end.
Proof.
  intros Hc. destruct (compact_ok c Hc) as [Hc1 Hp1]. unfold OnRead. set (c1 := compact c) in *.
  assert (Hp : drop (receive_buffer_offset_ c1) (receive_buffer_ c1 ++ chunk) = pending c ++ chunk).
  { unfold conn_ok in Hc1. rewrite drop_app_le by done. by rewrite <-Hp1. }
  assert (Ht := process_loop_total (S (length (pending c ++ chunk))) (pending c ++ chunk) 0 [] ltac:(lia)).
  unfold ProcessCommands. cbn [receive_buffer_ receive_buffer_offset_]. rewrite Hp.
  assert (Hl : length (pending c ++ chunk) = length (receive_buffer_ c1 ++ chunk) - receive_buffer_offset_ c1)
    by (rewrite <-Hp, length_drop; done).
  destruct (_ <=? _) eqn:E; b2p.
  { destruct (pending c ++ chunk) as [|? ?] eqn:Hnil; [|simpl in Hl; lia]. cbn [process_loop length].
    exists cleared, false. split; [done|]. split; [apply Nat.le_0_l|done]. }
  destruct (process_loop _ (pending c ++ chunk) 0 []) as [events n err| |]; [|done..].
  destruct Ht as [-> (m & -> & Hm)]. cbn [Nat.add].
  set (c2 := MkConn _ (receive_buffer_offset_ c1 + m)).
  assert (Hc2 : conn_ok c2) by (unfold conn_ok, c2; simpl; lia).
  destruct (compact_ok c2 Hc2) as [Hc3 Hp3]. eexists (compact c2), _. split; [done|]. split; [done|].
  rewrite Hp3. unfold pending at 1. unfold c2. cbn [receive_buffer_ receive_buffer_offset_].
  rewrite <-drop_drop, Hp. done.
Qed.

(** ** A stream of commands *)

(** A command with sizes for which both parsers work. *)
Definition valid_command (c : bytes * list bytes) : Prop :=
  sendable_command c.1 c.2 ∧ sendable (resp_array (map resp_string (c.1 :: c.2))).

Definition message (c : bytes * list bytes) : bytes := BuildArrayOfStrings (c.1 :: c.2).
Definition received (c : bytes * list bytes) : event := Enqueue (command_of c.1 c.2).

(** What is pending between two reads: nothing, or the beginning of the next
    message. *)
Definition incomplete (p : bytes) (cs : list (bytes * list bytes)) : Prop :=
  match cs with [] => p = [] | c :: _ => strict_prefix p (message c) end.

Lemma message_build c : message c = Build (resp_array (map resp_string (c.1 :: c.2))).
Proof.
  change (Build (resp_array ?l)) with (BuildArray l).
  unfold message. rewrite BuildArrayOfStrings_eq, BuildArray_eq, length_map, map_map. done.
Qed.

Lemma process_loop_incomplete fuel p cs total events :
  Forall valid_command cs → incomplete p cs → length p < fuel →
  process_loop fuel p total events = LDone events total false.
Proof.
  intros Hcs Hp Hf. destruct fuel as [|fuel]; [lia|]. destruct p as [|b p]; [done|].
  destruct cs as [|c cs]; [done|]. apply Forall_cons_1 in Hcs as [[Hc1 Hc2] _]. cbn [incomplete] in Hp.
  cbn [process_loop]. rewrite (ParseCommandFromArray_incomplete c.1 c.2) by done.
  rewrite message_build in Hp. destruct (Parse_incomplete _ _ Hc2 Hp) as [w Hw].
  unfold HasCompleteValue. by rewrite Hw.
Qed.

Lemma process_loop_stream cs1 : ∀ fuel p cs2 total events,
  Forall valid_command (cs1 ++ cs2) → incomplete p cs2 →
  length (concat (map message cs1) ++ p) < fuel →
  process_loop fuel (concat (map message cs1) ++ p) total events =
  LDone (events ++ map received cs1) (total + length (concat (map message cs1))) false.
Proof.
  induction cs1 as [|c cs1 IH]; intros fuel p cs2 total events Hv Hp Hf.
  { cbn [map concat app length] in *. rewrite app_nil_r, Nat.add_0_r. by apply (process_loop_incomplete _ _ cs2). }
  assert (Hv' := Hv). cbn [app] in Hv'. apply Forall_cons_1 in Hv' as [[Hc _] Hv'].
  destruct fuel as [|fuel]; [lia|]. cbn [map concat] in *. rewrite <-app_assoc in *.
  set (rest := concat (map message cs1) ++ p) in *.
  assert (Hhead : ∃ b r, message c ++ rest = b :: r ∧ length rest < length (message c ++ rest)).
  { unfold message. rewrite command_header by done. cbn [app]. do 2 eexists. split; [done|].
    cbn [length]. rewrite !length_app. lia. }
  destruct Hhead as (b & r & Hb & Hlt).
  assert (Hstep : process_loop (S fuel) (message c ++ rest) total events =
    process_loop fuel rest (total + (length (message c ++ rest) - length rest)) (events ++ [received c])).
  { rewrite Hb. cbn [process_loop]. rewrite <-Hb.
    by rewrite (ParseCommandFromArray_command c.1 c.2 rest Hc). }
  rewrite Hstep. unfold rest at 1. rewrite (IH _ _ cs2) by (try done; fold rest; lia).
  f_equal; [by rewrite <-app_assoc|]. rewrite (length_app (message c) rest), length_app. lia.
Qed.

(** A prefix of a stream is some whole messages and the beginning of one. *)
Lemma split_stream cs : ∀ p x,
  p ++ x = concat (map message cs) →
  ∃ cs1 cs2 p', cs = cs1 ++ cs2 ∧ p = concat (map message cs1) ++ p' ∧ incomplete p' cs2 ∧
                p' ++ x = concat (map message cs2).
Proof.
  induction cs as [|c cs IH]; intros p x Hp.
  { exists [], [], []. apply app_eq_nil in Hp as [-> ->]. done. }
  cbn [map concat] in Hp. apply app_eq_inv in Hp as [(k & -> & Hk)|(k & Hk & ->)].
  - destruct (IH k x (eq_sym Hk)) as (cs1 & cs2 & p' & -> & -> & H3 & H4).
    exists (c :: cs1), cs2, p'. split; [done|]. split; [cbn [map concat]; by rewrite <-app_assoc|done].
  - destruct k as [|b k].
    + rewrite app_nil_r in Hk. subst p.
      destruct (IH [] (concat (map message cs)) eq_refl) as (cs1 & cs2 & p' & -> & H2 & H3 & H4).
      exists (c :: cs1), cs2, p'. split; [done|].
      split; [cbn [map concat]; by rewrite <-app_assoc, <-H2, app_nil_r|done].
    + exists [], (c :: cs), p. split; [done|]. split; [done|]. split; [by exists (b :: k)|].
      cbn [map concat]. by rewrite Hk, <-app_assoc.
Qed.

Lemma run_reads_stream chunks : ∀ cs c,
  Forall valid_command cs → conn_ok c → incomplete (pending c) cs →
  pending c ++ concat chunks = concat (map message cs) →
  ∃ c', run_reads chunks c = Some (c', map received cs) ∧ conn_ok c' ∧ pending c' = [].
Proof.
  induction chunks as [|chunk chunks IH]; intros cs c Hv Hc Hi Hp.
  { cbn [concat] in Hp. rewrite app_nil_r in Hp. assert (cs = []) as ->.
    { destruct cs as [|m cs]; [done|]. exfalso. apply strict_prefix_length in Hi.
      rewrite Hp in Hi. cbn [map concat] in Hi. rewrite length_app in Hi. lia. }
    exists c. done. }
  cbn [concat] in Hp. rewrite app_assoc in Hp.
  destruct (split_stream cs _ _ Hp) as (cs1 & cs2 & p' & -> & H2 & H3 & H4).
  assert (Hr := OnRead_pending chunk c Hc). rewrite H2 in Hr.
  rewrite (process_loop_stream cs1 _ _ cs2) in Hr by (try done; lia).
  destruct Hr as (c' & b & Hr & Hc' & Hp'). cbn [app Nat.add] in Hp', Hr. rewrite drop_app_length in Hp'.
  apply Forall_app in Hv as [_ Hv]. destruct (IH cs2 c' Hv Hc') as (c'' & Hr' & H); [by rewrite Hp'..|].
  exists c''. split; [|done]. cbn [run_reads]. rewrite Hr. cbn. rewrite Hr'. cbn. by rewrite map_app.
Qed.
End Connection.
