(* ===== verification/RespContract.v ===== *)
(** * RESP: the contract of the protocol layer

    The theorems about the parser, the builder and the read side of a
    connection, each applied to concrete messages, and examples of what the
    vector search misses. *)
From Stdlib Require Import SpecFloat.
From S2P Require Import Prelude.
From S2P Require Import Simd.
From S2P Require Import Numbers.
From S2P Require Import RespTypes.
From S2P Require Import RespParser.
From S2P Require Import RespTotal.
From S2P Require Import RespCommands.
From S2P Require Import Connection.

Section RespContract.
Context {HD : DoubleText} {HA : Allocator}.

(** A type byte that [Parse] does not know. *)
Definition unknown_type (b : ascii) : bool :=
  negb (existsb (ascii_eqb b) (B "+-:$*_#,")).

Lemma unknown_fails b r :
  unknown_type b = true →
  ParseCommandFromArray (b :: r) = (PFail, b :: r) ∧ Parse (b :: r) = (PFail, r).
Proof.
  unfold unknown_type. intros H. rewrite negb_true_iff in H. cbn [B list_ascii_of_string existsb] in H. b2p.
  rewrite Parse_eq. unfold ParseSwitch, ParseCommandFromArray.
  repeat match goal with H : ascii_eqb b _ = false |- _ => rewrite H; clear H end. done.
Qed.

Lemma ParseCommand_strings name args :
  ParseCommand (resp_array (map resp_string (name :: args))) = Some (command_of name args).
Proof.
  unfold ParseCommand. change (IsArray (resp_array _)) with true.
  change (AsArray (resp_array ?l)) with l. change (ArraySize (resp_array ?l)) with (length l).
  cbn [map length negb orb Nat.eqb]. change (IsBulkString (resp_string name)) with true. cbn [negb].
  assert (mapM ToCommandArg (map resp_string args) = Some (map (λ s, arg_string s kBulkString) args)) as ->;
    [|done].
  apply mapM_Some. induction args; simpl; constructor; done.
Qed.

(** ** The theorems *)

(** C7. However the bytes of a sequence of commands are split into reads, the
    connection hands exactly those commands to the executor, in order, without an
    error reply, and its buffer ends up empty. *)
Theorem stream_delivered cs chunks :
  Forall valid_command cs → concat chunks = concat (map message cs) →
  ∃ c, run_reads chunks cleared = Some (c, map received cs) ∧ pending c = [].
Proof.
  intros Hv Hc. destruct (run_reads_stream chunks cs cleared) as (c & H1 & _ & H3); try done.
  - apply Nat.le_0_l.
  - destruct cs as [|c cs]; [done|]. exists (message c). split; [|done].
    unfold message. by rewrite BuildArrayOfStrings_eq.
  - by exists c.
Qed.

(** C30. [Parse] comes to an end on every input, satisfies the recursive equation
    of the source, and a value it returns consumed a non-empty prefix of the
    input. *)
Theorem Parse_total data : strict Parse data ∧ Parse data = ParseSwitch Parse data.
Proof. split; [apply Parse_strict|apply Parse_eq]. Qed.


(** The fast path reads a command written as an array of bulk strings and leaves
    the next one; on a strict prefix it fails without consuming anything. *)
Theorem command_roundtrip name args rest :
  sendable_command name args →
  ParseCommandFromArray (BuildArrayOfStrings (name :: args) ++ rest) = (POk (command_of name args), rest) ∧
  ∀ p, strict_prefix p (BuildArrayOfStrings (name :: args)) → ParseCommandFromArray p = (PFail, p).
Proof.
  intros Hs. split; [by apply ParseCommandFromArray_command|]. intros p.
  by apply ParseCommandFromArray_incomplete.
Qed.

(** The fast path and the general path ([Parse], then [ParseCommand]) read the
    same command from a message. *)
Theorem command_paths_agree name args rest :
  valid_command (name, args) →
  ∃ v, Parse (message (name, args) ++ rest) = (POk v, rest) ∧
       ParseCommandFromArray (message (name, args) ++ rest) =
         (match ParseCommand v with Some cmd => POk cmd | None => PFail end, rest).
Proof.
  intros [H1 H2]. exists (resp_array (map resp_string (name :: args))). split.
  - rewrite message_build. by apply Parse_Build.
  - rewrite ParseCommand_strings. by apply ParseCommandFromArray_command.
Qed.

(** A buffer that starts with a byte that is no RESP type is kept for good: no
    command, no error reply, and every read makes it longer. *)
Theorem garbage_stalls b r chunk c :
  unknown_type b = true → conn_ok c → pending c = b :: r →
  ∃ c', OnRead chunk c = Some (c', [], false) ∧ pending c' = b :: r ++ chunk.
Proof.
  intros Hb Hc Hp. assert (H := OnRead_pending chunk c Hc). rewrite Hp in H. cbn [app] in H.
  assert (Hl : ∀ fuel, process_loop (S fuel) (b :: r ++ chunk) 0 [] = LDone [] 0 false).
  { intros fuel. cbn [process_loop]. destruct (unknown_fails b (r ++ chunk) Hb) as [-> H2].
    unfold HasCompleteValue. by rewrite H2. }
  rewrite Hl in H. destruct H as (c' & f & H1 & H2 & H3). exists c'. split; [|done].
  unfold OnRead, ProcessCommands in *. repeat case_match; simplify_eq; done.
Qed.
End RespContract.

(** The fast reader of a length line accepts exactly an optional minus sign (where
    it is allowed), one or more digits with a value below [2 ^ 63], and CRLF, and
    returns that value and what follows. *)
Theorem ParseIntLineFast_exact input allow v rest :
  ParseIntLineFast input allow = Some (v, rest) ↔
  ∃ (negative : bool) ds,
    all_digits ds ∧ ds ≠ [] ∧
    input = (if negative then B "-" else []) ++ ds ++ CRLF ++ rest ∧
    (negative = true → allow = true) ∧
    (digits_value 0 ds < 2 ^ 63)%Z ∧
    v = (if negative then - digits_value 0 ds else digits_value 0 ds)%Z.
Proof. apply ParseIntLineFast_ok. Qed.

(** The vector search reports only positions of CRLF, and reports the first line
    end exactly when it is visible: not across two vectors, and not in the last
    vector of a buffer that is a multiple of sixteen bytes long. *)
Theorem FindCRLF_exact data l r :
  no_cr l → data = l ++ CRLF ++ r →
  (∀ p, FindCRLF data = Some p → data !! p = Some CR ∧ data !! S p = Some LF) ∧
  (FindCRLF data = Some (length l) ↔ visible (length l) (length data)).
Proof.
  intros Hl ->. split; [intros p H; apply FindCRLF_ok in H; tauto|].
  rewrite FindCRLF_line by done. by rewrite !length_app, Nat.add_assoc.
Qed.

(** The vector versions of [memcmp] and of the search for a zero byte compute what
    their scalar definitions compute. *)
Theorem vector_loops_exact a b :
  length a = length b →
  MemCompare a b = memcmp a b ∧ HasZero a = existsb (λ c, ascii_eqb c "000") a.
Proof. intros H. split; [by apply MemCompare_ok|apply HasZero_ok]. Qed.

(** ** The theorems at work *)

(** Texts of doubles for the examples, and an allocator that grants up to a
    million elements. *)
#[local] Instance sample_text : DoubleText := {| dtoa _ := B "1.5"; atod _ := Some (S754_finite false 3 (-1)) |}.
#[local] Instance sample_allocator : Allocator :=
  {| reserve_values n := (n <=? 1000000)%Z; reserve_args n := (n <=? 1000000)%Z |}.

Definition set_command : bytes * list bytes := (B "SET", [B "key"; B "a b"]).
Definition ping_command : bytes * list bytes := (B "PING", []).

Lemma sample_valid : Forall valid_command [set_command; ping_command].
Proof.
  repeat constructor; vm_compute; reflexivity.
Qed.

Lemma stream_delivered_witness :
  ∃ c, run_reads [B "*3" ++ CRLF ++ B "$3"; CRLF ++ B "SET" ++ CRLF ++ B "$3" ++ CRLF ++ B "key" ++ [CR];
                  [LF] ++ B "$3" ++ CRLF ++ B "a b" ++ CRLF ++ B "*1"; CRLF ++ B "$4" ++ CRLF ++ B "PING" ++ CRLF]
                 cleared = Some (c, [received set_command; received ping_command]) ∧ pending c = [].
Proof.
  apply (stream_delivered [set_command; ping_command]); [exact sample_valid|]. vm_compute. reflexivity.
Defined.

Definition sample_value : RespValue :=
  resp_array [resp_int (-12); resp_string (B "a" ++ CRLF ++ B "b"); resp_bool true;
              resp_double (S754_finite false 3 (-1)); resp_array [MkResp kSimpleString (VString (B "OK"))];
              resp_of_type kNull].

Lemma sample_sendable : sendable sample_value.
Proof.
  repeat first [apply send_array|apply send_int|apply send_bulk|apply send_bool|apply send_double
               |apply send_simple|apply send_null|constructor]; vm_compute; try done; lia.
Qed.


Lemma sample_sendable_command : sendable_command (B "SET") [B "key"; B "a b"].
Proof. assert (H := sample_valid). by apply Forall_cons_1 in H as [[H _] _]. Qed.

Lemma command_roundtrip_witness :
  ParseCommandFromArray (BuildArrayOfStrings [B "SET"; B "key"; B "a b"] ++ B "*1") =
    (POk (command_of (B "SET") [B "key"; B "a b"]), B "*1") ∧
  ParseCommandFromArray (B "*3") = (PFail, B "*3").
Proof.
  destruct (command_roundtrip (B "SET") [B "key"; B "a b"] (B "*1") sample_sendable_command) as [H1 H2].
  split; [exact H1|]. apply H2. exists (drop 2 (message set_command)).
  split; [vm_compute; discriminate|]. vm_compute. reflexivity.
Defined.

Lemma command_paths_agree_witness :
  ∃ v, Parse (message ping_command ++ B "*") = (POk v, B "*") ∧
       ParseCommandFromArray (message ping_command ++ B "*") =
         (match ParseCommand v with Some cmd => POk cmd | None => PFail end, B "*").
Proof.
  apply (command_paths_agree (B "PING") [] (B "*")).
  assert (H := sample_valid). apply Forall_cons_1 in H as [_ H]. by apply Forall_cons_1 in H as [H _].
Defined.

Lemma garbage_stalls_witness :
  ∃ c', OnRead (B "GET x") (MkConn (B "PING" ++ CRLF) 0) = Some (c', [], false) ∧
        pending c' = B "PING" ++ CRLF ++ B "GET x".
Proof.
  apply (garbage_stalls "P" (B "ING" ++ CRLF) (B "GET x") (MkConn (B "PING" ++ CRLF) 0)).
  - vm_compute. reflexivity.
  - apply Nat.le_0_l.
  - vm_compute. reflexivity.
Defined.

Lemma FindCRLF_exact_witness : FindCRLF (B "hello" ++ CRLF ++ B "0123456789012345") = Some 5.
Proof.
  apply (FindCRLF_exact (B "hello" ++ CRLF ++ B "0123456789012345") (B "hello") (B "0123456789012345")).
  - repeat constructor; vm_compute; discriminate.
  - reflexivity.
  - left. vm_compute. lia.
Defined.

Lemma vector_loops_exact_witness :
  MemCompare (B "0123456789abcdef-x") (B "0123456789abcdef-y") = (-1)%Z ∧ HasZero (B "0123456789abcdef-x") = false.
Proof.
  destruct (vector_loops_exact (B "0123456789abcdef-x") (B "0123456789abcdef-y") eq_refl) as [H1 H2].
  split; [etransitivity; [exact H1|]|etransitivity; [exact H2|]]; vm_compute; reflexivity.
Defined.

(** ** What the readers get wrong *)

(** A line end across two vectors is not found, so a complete integer of
    fifteen digits in a buffer of 32 bytes or more is not read. *)
Example long_integer_lost :
  FindCRLF (B "123456789012345" ++ CRLF ++ B "+0123456789abc" ++ CRLF) ≠ Some 15 ∧
  (Parse (B ":123456789012345" ++ CRLF ++ B "+0123456789abc" ++ CRLF)).1 ≠ POk (resp_int 123456789012345).
Proof. split; vm_compute; discriminate. Qed.

(** The AVX2 version looks for LF CR. *)
Example avx2_finds_lf_cr :
  FindCRLF_AVX2 (B "ab" ++ [LF; CR] ++ B "0123456789012345678901234567890") = Some 2 ∧
  FindCRLF_AVX2 (B "ab" ++ [CR; LF] ++ B "0123456789012345678901234567890") = None.
Proof. split; vm_compute; reflexivity. Qed.

(** [Parse] does not look at the two bytes after a bulk string; the fast path
    does. *)
Example bulk_terminator_unchecked :
  Parse (B "$3" ++ CRLF ++ B "fooXY") = (POk (resp_string (B "foo")), []) ∧
  fast_bulk 0 (MkCommand [] []) (B "3" ++ CRLF ++ B "fooXY") = (PFail, B "fooXY").
Proof. split; vm_compute; reflexivity. Qed.

(** Text after a number is ignored. *)
Example trailing_garbage_accepted : Parse (B ":12abc" ++ CRLF) = (POk (resp_int 12), []).
Proof. vm_compute. reflexivity. Qed.

(** The digit that is added last can leave the range of [int64_t], which is
    undefined behaviour in C++, before [value < 0] is tested. *)
Example int_line_overflows :
  (digits_value 0 (B "922337203685477580") <= kMaxBeforeMul)%Z ∧
  ¬ in_i64 (digits_value 0 (B "9223372036854775808")).
Proof. split; [vm_compute; discriminate|]. vm_compute. intros [_ H]. discriminate. Qed.

(** From sixteen bytes on, upper and lower case letters are different. *)
Example long_names_case_sensitive :
  CaseInsensitiveEquals (B "GETGETGETGETGET") (B "getgetgetgetget") = true ∧
  CaseInsensitiveEquals (B "GETGETGETGETGETX") (B "getgetgetgetgetx") = false.
Proof. split; vm_compute; reflexivity. Qed.
