(* ===== verification/KeyMetadata.v ===== *)
(** * Maps of a worker and key metadata

    Models src/astra/container/dash_map.hpp: [DashMap], a hash map with a
    counter of its entries, and [DashSet].  Iteration order is that of
    [map_to_list]. *)
From S2P Require Import Prelude.

Record DashMap (V : Type) := MkDash { map_ : gmap bytes V; size_ : Z }.
Arguments MkDash {V} _ _.
Arguments map_ {V} _.
Arguments size_ {V} _.

Section DashMap.
Context {V : Type}.
Implicit Types (m : DashMap V) (key : bytes).

Definition dash_empty : DashMap V := MkDash ∅ 0.

(** [insert_or_assign]; [true] for a new key. *)
Definition DInsert key (value : V) m : DashMap V * bool :=
  let inserted := bool_decide (map_ m !! key = None) in
  (MkDash (<[key := value]> (map_ m)) (if inserted then u64 (size_ m + 1) else size_ m), inserted).

Definition DGet key m : option V := map_ m !! key.

Definition DRemove key m : DashMap V * bool :=
  if bool_decide (is_Some (map_ m !! key))
  then (MkDash (delete key (map_ m)) (u64 (size_ m - 1)), true)
  else (m, false).

Definition DContains key m : bool := bool_decide (is_Some (map_ m !! key)).
Definition DSize m : Z := size_ m.
Definition DEmpty m : bool := (size_ m =? 0)%Z.
Definition DClear m : DashMap V := MkDash ∅ 0.
Definition DGetAllKeys m : list bytes := fst <$> map_to_list (map_ m).
Definition DGetAllKeyValuePairs m : list (bytes * V) := map_to_list (map_ m).

(** ** The counter *)

Definition dash_ok m : Prop := size_ m = u64 (Z.of_nat (size (map_ m))).

Lemma u64_add x y : u64 (u64 x + y) = u64 (x + y).
Proof. unfold u64, wrap. by rewrite Zplus_mod_idemp_l. Qed.

Lemma dash_empty_ok : dash_ok dash_empty.
Proof. unfold dash_ok. simpl. by rewrite map_size_empty. Qed.

Lemma DInsert_ok key value m :
  dash_ok m → dash_ok (DInsert key value m).1 ∧ (DInsert key value m).2 = negb (DContains key m).
Proof.
  unfold dash_ok, DInsert, DContains. cbn [fst snd map_ size_]. intros Hm.
  destruct (map_ m !! key) as [v|] eqn:Hk.
  - split; [|done]. rewrite bool_decide_eq_false_2 by done. by rewrite map_size_insert_Some by (by eexists).
  - split; [|done]. rewrite bool_decide_eq_true_2 by done.
    rewrite map_size_insert_None by done. rewrite Hm, u64_add. f_equal. lia.
Qed.

Lemma DRemove_ok key m :
  dash_ok m → dash_ok (DRemove key m).1 ∧ (DRemove key m).2 = DContains key m.
Proof.
  unfold dash_ok, DRemove, DContains. intros Hm. destruct (map_ m !! key) as [v|] eqn:Hk.
  - rewrite bool_decide_eq_true_2 by (by eexists). cbn [fst snd map_ size_]. split; [|done].
    rewrite Hm. unfold Z.sub. rewrite u64_add. f_equal.
    rewrite map_size_delete_Some by (by eexists).
    assert (size (map_ m) ≠ 0); [|lia]. intros H. apply map_size_empty_iff in H. by rewrite H in Hk.
  - by rewrite bool_decide_eq_false_2 by (by intros [? ?]).
Qed.

Lemma DInsert_dash key value m : dash_ok m → dash_ok (DInsert key value m).1.
Proof. intros H. by apply DInsert_ok. Qed.

Lemma DRemove_dash key m : dash_ok m → dash_ok (DRemove key m).1.
Proof. intros H. by apply DRemove_ok. Qed.

Lemma DInsert_map key value m : map_ (DInsert key value m).1 = <[key := value]> (map_ m).
Proof. done. Qed.

Lemma DRemove_map key m : map_ (DRemove key m).1 = delete key (map_ m).
Proof.
  unfold DRemove. destruct (map_ m !! key) as [v|] eqn:Hk.
  - by rewrite bool_decide_eq_true_2 by (by eexists).
  - rewrite bool_decide_eq_false_2 by (by intros [? ?]). simpl. by rewrite delete_id.
Qed.

Lemma DContains_spec key m : DContains key m = true ↔ is_Some (DGet key m).
Proof. apply bool_decide_eq_true. Qed.

Lemma DContains_insert key key' value m :
  DContains key (DInsert key' value m).1 = bool_decide (key' = key) || DContains key m.
Proof.
  unfold DContains. rewrite DInsert_map. destruct (decide (key' = key)) as [->|Hne].
  - rewrite lookup_insert_eq, (bool_decide_eq_true_2 (key = key)) by done. by rewrite bool_decide_eq_true_2.
  - by rewrite lookup_insert_ne, (bool_decide_eq_false_2 (key' = key)).
Qed.

Lemma DContains_remove key key' m :
  DContains key (DRemove key' m).1 = negb (bool_decide (key' = key)) && DContains key m.
Proof.
  unfold DContains. rewrite DRemove_map. destruct (decide (key' = key)) as [->|Hne].
  - rewrite lookup_delete_eq, (bool_decide_eq_true_2 (key = key)) by done.
    by rewrite bool_decide_eq_false_2 by (by intros [? ?]).
  - by rewrite lookup_delete_ne, (bool_decide_eq_false_2 (key' = key)).
Qed.

(** Writing back what is there changes nothing. *)
Lemma DInsert_same key value m : DGet key m = Some value → (DInsert key value m).1 = m.
Proof.
  unfold DGet, DInsert. intros H. cbn [fst]. rewrite bool_decide_eq_false_2 by congruence.
  rewrite insert_id by done. by destruct m.
Qed.

Lemma DGet_DInsert key key' value m :
  DGet key (DInsert key' value m).1 = if decide (key' = key) then Some value else DGet key m.
Proof.
  unfold DGet. rewrite DInsert_map. case_decide; subst; [by rewrite lookup_insert_eq|by rewrite lookup_insert_ne].
Qed.

Lemma DGet_DRemove key key' m :
  DGet key (DRemove key' m).1 = if decide (key' = key) then None else DGet key m.
Proof.
  unfold DGet. rewrite DRemove_map. case_decide; subst; [by rewrite lookup_delete_eq|by rewrite lookup_delete_ne].
Qed.
End DashMap.

(** ** Key metadata

    Models src/astra/storage/key_metadata.hpp: the type, expiry time, version,
    access counters and estimated size of every key.  The clock is an argument:
    each operation takes the times its calls of [GetCurrentTimeMs] return. *)

Inductive KeyType := kNone | kString | kHash | kSet | kZSet | kList | kStream | kVector | kJson.

#[global] Instance KeyType_eq_dec : EqDecision KeyType.
Proof. solve_decision. Defined.

Record KeyMetadata := MkMeta {
  key_type : KeyType;
  expire_time_ms : option Z;
  version : Z;
  access_time_ms : Z;
  lfu_counter : Z;
  estimated_size : Z
}.

(** [KeyMetadata(t)] *)
Definition new_metadata (t : KeyType) : KeyMetadata := MkMeta t None 0 0 0 0.

Definition with_expire (e : option Z) (m : KeyMetadata) : KeyMetadata :=
  MkMeta (key_type m) e (version m) (access_time_ms m) (lfu_counter m) (estimated_size m).
Definition with_version (v : Z) (m : KeyMetadata) : KeyMetadata :=
  MkMeta (key_type m) (expire_time_ms m) v (access_time_ms m) (lfu_counter m) (estimated_size m).
Definition with_size (s : Z) (m : KeyMetadata) : KeyMetadata :=
  MkMeta (key_type m) (expire_time_ms m) (version m) (access_time_ms m) (lfu_counter m) s.

Definition IsExpired (now : Z) (m : KeyMetadata) : bool :=
  match expire_time_ms m with
  | None => false
  | Some t => (0 <? t)%Z && (t <? now)%Z
  end.

Definition MetaSetExpireMs (ms : Z) (m : KeyMetadata) : KeyMetadata :=
  with_expire (if (ms <=? 0)%Z then None else Some ms) m.

Definition MetaGetTtlMs (now : Z) (m : KeyMetadata) : option Z :=
  t ← expire_time_ms m;
  if (t <=? 0)%Z || (t <=? now)%Z then None else Some (i64 (t - now)).

(** The counter is cut to eight bits before the minimum is taken. *)
Definition UpdateAccess (now : Z) (m : KeyMetadata) : KeyMetadata :=
  MkMeta (key_type m) (expire_time_ms m) (version m) (Z.land now 16777215)
         (Z.min (u8 (lfu_counter m + 1)) 255) (estimated_size m).

Definition ResetLFUCounter (m : KeyMetadata) : KeyMetadata :=
  MkMeta (key_type m) (expire_time_ms m) (version m) (access_time_ms m)
         (Z.shiftr (lfu_counter m) 1) (estimated_size m).

Definition MetaAddEstimatedSize (delta : Z) (m : KeyMetadata) : KeyMetadata :=
  if (0 <? delta)%Z then with_size (u32 (estimated_size m + u32 delta)) m
  else if (delta <? 0)%Z && (u32 (- delta) <=? estimated_size m)%Z
  then with_size (u32 (estimated_size m - u32 (- delta))) m
  else m.

(** ** The manager: the map [metadata_map_] *)

Definition Manager : Type := DashMap KeyMetadata.
Implicit Types (db : Manager) (key : bytes) (m : KeyMetadata).

Definition RegisterKey key (t : KeyType) db : Manager :=
  let new_version := match DGet key db with Some existing => u64 (version existing + 1) | None => 1%Z end in
  (DInsert key (with_version new_version (new_metadata t)) db).1.

Definition UnregisterKey key db : Manager := (DRemove key db).1.

(** An expired key is removed when it is looked at. *)
Definition IsValid (now : Z) key db : Manager * bool :=
  match DGet key db with
  | None => (db, false)
  | Some m => if IsExpired now m then ((DRemove key db).1, false) else (db, true)
  end.

Definition GetKeyType (now : Z) key db : Manager * option KeyType :=
  match DGet key db with
  | None => (db, None)
  | Some m => if IsExpired now m then ((DRemove key db).1, None) else (db, Some (key_type m))
  end.

(** An operation on the entry of a key; [false] when there is none. *)
Definition update_entry (f : KeyMetadata → KeyMetadata) key db : Manager * bool :=
  match DGet key db with
  | None => (db, false)
  | Some m => ((DInsert key (f m) db).1, true)
  end.

Definition SetExpireMs key (ms : Z) db : Manager * bool := update_entry (MetaSetExpireMs ms) key db.
Definition SetExpireSeconds (now : Z) key (seconds : Z) db : Manager * bool :=
  SetExpireMs key (i64 (now + seconds * 1000)) db.

(** The clock is read twice, by [IsExpired] and by [KeyMetadata::GetTtlMs]. *)
Definition GetTtlMs (now now' : Z) key db : Z :=
  match DGet key db with
  | None => -2
  | Some m =>
      if IsExpired now m then -2
      else match expire_time_ms m with
           | None => -1
           | Some _ => match MetaGetTtlMs now' m with None => -1 | Some ttl => ttl end
           end
  end%Z.

Definition GetTtlSeconds (now now' : Z) key db : Z :=
  let ttl_ms := GetTtlMs now now' key db in
  if (ttl_ms <? 0)%Z then ttl_ms else Z.quot ttl_ms 1000.

Definition GetExpireTimeMs (now : Z) key db : option Z :=
  m ← DGet key db; if IsExpired now m then None else expire_time_ms m.

Definition Persist key db : Manager * bool := update_entry (with_expire None) key db.

(** "A simplified implementation": no key is ever reported. *)
Definition GetExpiredKeys db : list bytes := [].

Definition GetKeyVersion key db : Z := match DGet key db with None => 0%Z | Some m => version m end.

Definition IncrementKeyVersion key db : Manager :=
  (update_entry (λ m, with_version (u64 (version m + 1)) m) key db).1.

Definition MetaClear db : Manager := DClear db.
Definition UpdateAccessInfo (now : Z) key db : Manager * bool := update_entry (UpdateAccess now) key db.
Definition GetAccessTime key db : Z := match DGet key db with None => 0%Z | Some m => access_time_ms m end.
Definition GetLFUCounter key db : Z := match DGet key db with None => 0%Z | Some m => lfu_counter m end.
Definition UpdateEstimatedSize key (s : Z) db : Manager * bool := update_entry (with_size s) key db.
Definition AddEstimatedSize key (delta : Z) db : Manager * bool := update_entry (MetaAddEstimatedSize delta) key db.
Definition GetEstimatedSize key db : Z := match DGet key db with None => 0%Z | Some m => estimated_size m end.
Definition GetTotalEstimatedMemory db : Z :=
  foldl (λ total km, u64 (total + estimated_size km.2)) 0%Z (DGetAllKeyValuePairs db).
Definition HasTTL key db : bool :=
  match DGet key db with None => false | Some m => bool_decide (is_Some (expire_time_ms m)) end.

(** ** Histories *)

Inductive meta_op :=
  | MRegister (key : bytes) (t : KeyType)
  | MUnregister (key : bytes)
  | MIsValid (now : Z) (key : bytes)
  | MGetKeyType (now : Z) (key : bytes)
  | MSetExpire (key : bytes) (ms : Z)
  | MPersist (key : bytes)
  | MIncrement (key : bytes)
  | MClear
  | MAccess (now : Z) (key : bytes)
  | MSize (key : bytes) (s : Z)
  | MAddSize (key : bytes) (delta : Z).

Definition meta_step db (o : meta_op) : Manager :=
  match o with
  | MRegister k t => RegisterKey k t db
  | MUnregister k => UnregisterKey k db
  | MIsValid now k => (IsValid now k db).1
  | MGetKeyType now k => (GetKeyType now k db).1
  | MSetExpire k ms => (SetExpireMs k ms db).1
  | MPersist k => (Persist k db).1
  | MIncrement k => IncrementKeyVersion k db
  | MClear => MetaClear db
  | MAccess now k => (UpdateAccessInfo now k db).1
  | MSize k s => (UpdateEstimatedSize k s db).1
  | MAddSize k d => (AddEstimatedSize k d db).1
  end.

(** The operations that count as a write of [key]. *)
Definition writes_key key (o : meta_op) : bool :=
  match o with MRegister k _ | MIncrement k => bool_decide (k = key) | _ => false end.

Definition writes key (os : list meta_op) : nat := length (filter (λ o, writes_key key o = true) os).

(** The key is there after every step. *)
Fixpoint kept key (os : list meta_op) db : Prop :=
  match os with
  | [] => True
  | o :: os => is_Some (DGet key (meta_step db o)) ∧ kept key os (meta_step db o)
  end.

(** ** Lemmas *)

Lemma DGet_insert key key' v (db : Manager) :
  DGet key (DInsert key' v db).1 = if bool_decide (key' = key) then Some v else DGet key db.
Proof.
  unfold DGet, DInsert. cbn [fst map_]. case_bool_decide; subst; [by rewrite lookup_insert_eq|].
  by rewrite lookup_insert_ne.
Qed.

Lemma DGet_remove key key' (db : Manager) :
  DGet key (DRemove key' db).1 = if bool_decide (key' = key) then None else DGet key db.
Proof.
  unfold DGet. rewrite DRemove_map. case_bool_decide; subst; [by rewrite lookup_delete_eq|].
  by rewrite lookup_delete_ne.
Qed.

Lemma DGet_update f key key' db :
  DGet key (update_entry f key' db).1 =
  if bool_decide (key' = key) then f <$> DGet key db else DGet key db.
Proof.
  unfold update_entry. destruct (DGet key' db) as [m|] eqn:E; cbn [fst].
  - rewrite DGet_insert. case_bool_decide; subst; [by rewrite E|done].
  - case_bool_decide; subst; [by rewrite E|done].
Qed.

(** A step that keeps the key adds one to its version if it is a write. *)
Lemma meta_step_version key o db m m' :
  DGet key db = Some m → DGet key (meta_step db o) = Some m' →
  version m' = if writes_key key o then u64 (version m + 1) else version m.
Proof.
  intros Hm Hm'.
  assert (Hup : ∀ f k, (∀ x, version (f x) = version x) →
            DGet key (update_entry f k db).1 = Some m' → version m' = version m).
  { intros f k Hf. rewrite DGet_update, Hm. case_bool_decide; simpl; intros [= <-]; [apply Hf|done]. }
  destruct o; cbn [meta_step writes_key] in *.
  - unfold RegisterKey in Hm'. rewrite DGet_insert in Hm'. case_bool_decide; subst.
    + rewrite Hm in Hm'. by injection Hm' as <-.
    + congruence.
  - unfold UnregisterKey in Hm'. rewrite DGet_remove in Hm'. case_bool_decide; congruence.
  - unfold IsValid in Hm'. repeat case_match; cbn [fst] in *; rewrite ?DGet_remove in *; repeat case_bool_decide; congruence.
  - unfold GetKeyType in Hm'. repeat case_match; cbn [fst] in *; rewrite ?DGet_remove in *; repeat case_bool_decide; congruence.
  - eapply Hup; [|exact Hm']. done.
  - eapply Hup; [|exact Hm']. done.
  - unfold IncrementKeyVersion in Hm'. rewrite DGet_update, Hm in Hm'.
    case_bool_decide; simpl in Hm'; by injection Hm' as <-.
  - unfold MetaClear, DClear, DGet in Hm'. simpl in Hm'. by rewrite lookup_empty in Hm'.
  - eapply Hup; [|exact Hm']. done.
  - eapply Hup; [|exact Hm']. done.
  - eapply Hup; [|exact Hm']. intros x. unfold MetaAddEstimatedSize. by repeat case_match.
Qed.

Lemma versions_ok key os : ∀ db m,
  DGet key db = Some m → kept key os db → in_u64 (version m) →
  GetKeyVersion key (foldl meta_step db os) = u64 (version m + Z.of_nat (writes key os)).
Proof.
  induction os as [|o os IH]; intros db m Hm Hk Hu.
  { simpl. unfold GetKeyVersion. rewrite Hm. rewrite Z.add_0_r. symmetry. by apply u64_small. }
  destruct Hk as [[m' Hm'] Hk]. cbn [foldl].
  assert (Hv := meta_step_version key o db m m' Hm Hm').
  assert (Hu' : in_u64 (version m')).
  { rewrite Hv. destruct (writes_key key o); [|done]. apply Z.mod_pos_bound. lia. }
  rewrite (IH _ _ Hm' Hk Hu'), Hv. unfold writes. rewrite filter_cons.
  destruct (writes_key key o); [|done].
  destruct (decide _); [|done]. cbn [length]. rewrite u64_add. f_equal. lia.
Qed.

Lemma meta_step_ok db o : dash_ok db → dash_ok (meta_step db o).
Proof.
  intros Hd. assert (Hup : ∀ f k, dash_ok (update_entry f k db).1).
  { intros f k. unfold update_entry. destruct (DGet k db); [|done]. by apply DInsert_ok. }
  destruct o; cbn [meta_step]; try apply Hup.
  - by apply DInsert_ok.
  - by apply DRemove_ok.
  - unfold IsValid. repeat case_match; try done. by apply DRemove_ok.
  - unfold GetKeyType. repeat case_match; try done. by apply DRemove_ok.
  - apply dash_empty_ok.
Qed.

(** ** The theorems *)

(** Along any history in which a key stays present, its version is the initial
    version plus the number of its registrations and increments, modulo [2 ^ 64];
    the entry counter of the map stays right as well. *)
Theorem versions_count_writes key os db m :
  DGet key db = Some m → kept key os db → in_u64 (version m) → dash_ok db →
  GetKeyVersion key (foldl meta_step db os) = u64 (version m + Z.of_nat (writes key os)) ∧
  dash_ok (foldl meta_step db os).
Proof.
  intros Hm Hk Hu Hd. split; [by apply versions_ok|]. clear Hm Hk. revert db Hd.
  induction os as [|o os IH]; intros db Hd; [done|]. cbn [foldl]. apply IH. by apply meta_step_ok.
Qed.

(** The life of an expiry time. After [SetExpireMs] with a positive time the key
    has a TTL up to that time, which [Persist] and a new registration drop; after
    it the TTL is -2 and the next look removes the key. At the very millisecond
    the TTL is -1, as for a key without expiry. *)
Theorem expiry_life key ms db now :
  is_Some (DGet key db) → (0 < ms < 2 ^ 63)%Z → (0 ≤ now < 2 ^ 63)%Z →
  let db' := (SetExpireMs key ms db).1 in
  GetTtlMs now now key db' = (if ms <? now then -2 else if ms =? now then -1 else ms - now)%Z ∧
  (IsValid now key db').2 = (now <=? ms)%Z ∧
  DGet key (IsValid now key db').1 = (if (now <=? ms)%Z then DGet key db' else None) ∧
  GetTtlMs now now key (Persist key db').1 = (-1)%Z ∧
  (∀ t, GetTtlMs now now key (RegisterKey key t db') = (-1)%Z).
Proof.
  intros [m Hm] Hms Hnow db'.
  assert (Hg : DGet key db' = Some (MetaSetExpireMs ms m)).
  { unfold db', SetExpireMs. rewrite DGet_update, Hm. by rewrite bool_decide_eq_true_2. }
  unfold GetTtlMs, IsValid, Persist. rewrite Hg, DGet_update, bool_decide_eq_true_2, Hg by done.
  unfold MetaSetExpireMs, IsExpired, MetaGetTtlMs. cbn [expire_time_ms with_expire fmap option_fmap option_map].
  rewrite (proj2 (Z.leb_gt ms 0)) by lia. cbn [mbind option_bind].
  rewrite (proj2 (Z.ltb_lt 0 ms)), (proj2 (Z.leb_gt ms 0)) by lia. cbn [andb orb].
  split_and!.
  - destruct (ms <? now)%Z eqn:E1; b2p; [done|]. destruct (ms =? now)%Z eqn:E2; b2p.
    + by rewrite (proj2 (Z.leb_le ms now)) by lia.
    + rewrite (proj2 (Z.leb_gt ms now)) by lia. apply i64_small. unfold in_i64. lia.
  - destruct (ms <? now)%Z eqn:E1; b2p; symmetry; [apply Z.leb_gt|apply Z.leb_le]; lia.
  - destruct (ms <? now)%Z eqn:E1; b2p; simpl.
    + rewrite DGet_remove, bool_decide_eq_true_2 by done. by rewrite (proj2 (Z.leb_gt now ms)) by lia.
    + rewrite (proj2 (Z.leb_le now ms)), Hg by lia. unfold MetaSetExpireMs.
      by rewrite (proj2 (Z.leb_gt ms 0)) by lia.
  - done.
  - intros t. unfold RegisterKey. rewrite DGet_insert, bool_decide_eq_true_2 by done. done.
Qed.

(** ** The theorems at work *)

Definition sample_db : Manager := RegisterKey (B "k") kString (RegisterKey (B "j") kList dash_empty).

Lemma sample_db_ok : dash_ok sample_db.
Proof. by apply (meta_step_ok _ (MRegister _ _)), (meta_step_ok _ (MRegister _ _)), dash_empty_ok. Qed.

Lemma versions_count_writes_witness :
  GetKeyVersion (B "k") (foldl meta_step sample_db
    [MRegister (B "k") kHash; MUnregister (B "j"); MIsValid 5 (B "k"); MIncrement (B "k")]) = 3%Z.
Proof.
  etransitivity; [apply (versions_count_writes (B "k") _ sample_db (with_version 1 (new_metadata kString)))|].
  - vm_compute. reflexivity.
  - vm_compute. repeat split; by eexists.
  - vm_compute. split; [discriminate|reflexivity].
  - exact sample_db_ok.
  - vm_compute. reflexivity.
Defined.

Lemma expiry_life_witness : GetTtlMs 400 400 (B "k") (SetExpireMs (B "k") 1000 sample_db).1 = 600%Z.
Proof.
  destruct (expiry_life (B "k") 1000 sample_db 400) as [H _].
  - vm_compute. by eexists.
  - lia.
  - lia.
  - etransitivity; [exact H|]. vm_compute. reflexivity.
Defined.

(** The access counter of a hot key starts again at zero: the sum is cut to
    eight bits before the minimum with 255. *)
Example lfu_counter_wraps now t :
  lfu_counter (UpdateAccess now (MkMeta t None 0 0 255 0)) = 0%Z.
Proof. reflexivity. Qed.

(** A key that is deleted and set again has version 1 again, so a [WATCH] of
    the first incarnation does not see the change. *)
Example recreated_key_same_version :
  GetKeyVersion (B "k") (RegisterKey (B "k") kString (UnregisterKey (B "k") sample_db)) =
  GetKeyVersion (B "k") sample_db.
Proof. vm_compute. reflexivity. Qed.
