(* ===== verification/LinkedList.v ===== *)
(** * Lists

    Models src/astra/container/linked_list.hpp: a vector that becomes a deque
    when it has more than 256 elements.  Indices are 64-bit and may count from
    the end. *)
From S2P Require Import Prelude.

Definition kListVectorThreshold : nat := 256.

Record LinkedList (A : Type) := MkList { use_vector_ : bool; vector_ : list A; deque_ : list A }.
Arguments MkList {A} _ _ _.
Arguments use_vector_ {A} _.
Arguments vector_ {A} _.
Arguments deque_ {A} _.

Section LinkedList.
Context {A : Type} {EqA : EqDecision A}.
Implicit Types (l : LinkedList A) (value : A).

Definition empty_list : LinkedList A := MkList true [] [].

Definition CheckConvertToDeque l : LinkedList A :=
  if use_vector_ l && (kListVectorThreshold <? length (vector_ l))
  then MkList false [] (deque_ l ++ vector_ l)
  else l.

(** A change of the container in use; the vector is checked after it grows. *)
Definition on_storage (grows : bool) (f : list A → list A) l : LinkedList A :=
  if use_vector_ l then
    let l := MkList true (f (vector_ l)) (deque_ l) in
    if grows then CheckConvertToDeque l else l
  else MkList false (vector_ l) (f (deque_ l)).

(** The container in use. *)
Definition storage l : list A := if use_vector_ l then vector_ l else deque_ l.

Definition LSize l : Z := Z.of_nat (length (storage l)).
Definition LEmpty l : bool := match storage l with [] => true | _ => false end.
Definition LClear l : LinkedList A := on_storage false (λ _, []) l.

Definition PushLeft value l : LinkedList A := on_storage true (λ s, value :: s) l.
Definition PushRight value l : LinkedList A := on_storage true (λ s, s ++ [value]) l.

Definition PopLeft l : LinkedList A * option A :=
  match storage l with
  | [] => (l, None)
  | x :: _ => (on_storage false tail l, Some x)
  end.

Definition PopRight l : LinkedList A * option A :=
  match last (storage l) with
  | None => (l, None)
  | Some x => (on_storage false (λ s, take (length s - 1) s) l, Some x)
  end.

(** An index that is too negative becomes zero. *)
Definition Index (index : Z) l : option A :=
  let size := LSize l in
  if (size =? 0)%Z then None
  else
    let index := if (index <? 0)%Z then (if (size + index <? 0)%Z then 0 else size + index)%Z else index in
    if (size <=? index)%Z then None else storage l !! Z.to_nat index.

(** Here it is refused. *)
Definition LSet (index : Z) value l : LinkedList A * bool :=
  let size := LSize l in
  if (size =? 0)%Z then (l, false)
  else
    let index := if (index <? 0)%Z then (size + index)%Z else index in
    if (index <? 0)%Z || (size <=? index)%Z then (l, false)
    else (on_storage false (λ s, <[Z.to_nat index := value]> s) l, true).

(** The clamped bounds of a range; [None] when it is empty. *)
Definition clamp_range (start stop size : Z) : option (Z * Z) :=
  let start := if (start <? 0)%Z then (if (size + start <? 0)%Z then 0 else size + start)%Z else start in
  let stop := if (stop <? 0)%Z then (if (size + stop <? 0)%Z then -1 else size + stop)%Z else stop in
  if (size <=? start)%Z then None
  else
    let stop := if (size <=? stop)%Z then (size - 1)%Z else stop in
    if (stop <? start)%Z then None else Some (start, stop).

Definition LRange (start stop : Z) l : list A :=
  if (LSize l =? 0)%Z then []
  else match clamp_range start stop (LSize l) with
       | None => []
       | Some (start, stop) => drop (Z.to_nat start) (take (Z.to_nat (stop + 1)) (storage l))
       end.

Definition Trim (start stop : Z) l : LinkedList A :=
  if (LSize l =? 0)%Z then l
  else match clamp_range start stop (LSize l) with
       | None => LClear l
       | Some (start, stop) =>
           on_storage false (λ s, drop (Z.to_nat start) (take (Z.to_nat (stop + 1)) s)) l
       end.

(** The erase loop: what is left and how many were erased so far. *)
Fixpoint erase_loop (value : A) (count : Z) (s : list A) (removed : Z) : list A * Z :=
  match s with
  | [] => ([], removed)
  | x :: s =>
      if decide (x = value) then
        let removed := u64 (removed + 1) in
        if (0 <? count)%Z && (count <=? i64 removed)%Z then (s, removed)
        else erase_loop value count s removed
      else let '(s, removed) := erase_loop value count s removed in (x :: s, removed)
  end.

Definition LRemove value (count : Z) l : LinkedList A * Z :=
  (on_storage false (λ s, (erase_loop value count s 0).1) l, (erase_loop value count (storage l) 0).2).

Definition insert_at (i : nat) value (s : list A) : list A := take i s ++ value :: drop i s.

Definition LInsert (pivot_index : Z) value (before : bool) l : LinkedList A * bool :=
  let size := LSize l in
  if (size =? 0)%Z then (l, false)
  else
    let i := if (pivot_index <? 0)%Z then (size + pivot_index)%Z else pivot_index in
    if (i <? 0)%Z || (size <=? i)%Z then (l, false)
    else (on_storage true (insert_at (if before then Z.to_nat i else Z.to_nat i + 1) value) l, true).

(** ** The specification: a plain list *)

Definition list_ok l : Prop :=
  if use_vector_ l then deque_ l = [] ∧ length (vector_ l) ≤ kListVectorThreshold else vector_ l = [].

(** The position of a Redis index in a list of [n] elements. *)
Definition position (n : nat) (i : Z) : Z := if (i <? 0)%Z then (Z.of_nat n + i)%Z else i.

(** The elements whose positions are between two positions. *)
Definition slice (start stop : Z) (s : list A) : list A :=
  let start := Z.to_nat (position (length s) start) in
  let stop := position (length s) stop in
  take (Z.to_nat (stop + 1) - start) (drop start s).

Definition spec_set (i : Z) value (s : list A) : list A * bool :=
  let p := position (length s) i in
  if bool_decide (0 ≤ p < Z.of_nat (length s))%Z then (<[Z.to_nat p := value]> s, true) else (s, false).

Definition spec_insert (i : Z) value (before : bool) (s : list A) : list A * bool :=
  let p := position (length s) i in
  if bool_decide (0 ≤ p < Z.of_nat (length s))%Z
  then (insert_at (if before then Z.to_nat p else Z.to_nat p + 1) value s, true) else (s, false).

(** Remove the first [n] occurrences; all of them for [None]. *)
Fixpoint remove_first (value : A) (n : option nat) (s : list A) : list A :=
  match s with
  | [] => []
  | x :: s =>
      if decide (x = value) then
        match n with
        | Some 0 => x :: s
        | Some (S n) => remove_first value (Some n) s
        | None => remove_first value None s
        end
      else x :: remove_first value n s
  end.

Definition limit (count : Z) : option nat := if (0 <? count)%Z then Some (Z.to_nat count) else None.

Inductive lop :=
  | OPushLeft (v : A) | OPushRight (v : A) | OPopLeft | OPopRight | OSet (i : Z) (v : A)
  | OTrim (start stop : Z) | ORemove (v : A) (count : Z) | OInsert (i : Z) (v : A) (before : bool) | OClear.

Inductive lresult := RNone | RPopped (x : option A) | RDone (b : bool) | RCount (n : Z).

Definition list_step l (o : lop) : LinkedList A * lresult :=
  match o with
  | OPushLeft v => (PushLeft v l, RNone)
  | OPushRight v => (PushRight v l, RNone)
  | OPopLeft => let '(l, x) := PopLeft l in (l, RPopped x)
  | OPopRight => let '(l, x) := PopRight l in (l, RPopped x)
  | OSet i v => let '(l, b) := LSet i v l in (l, RDone b)
  | OTrim start stop => (Trim start stop l, RNone)
  | ORemove v count => let '(l, n) := LRemove v count l in (l, RCount n)
  | OInsert i v before => let '(l, b) := LInsert i v before l in (l, RDone b)
  | OClear => (LClear l, RNone)
  end.

Definition spec_step (s : list A) (o : lop) : list A * lresult :=
  match o with
  | OPushLeft v => (v :: s, RNone)
  | OPushRight v => (s ++ [v], RNone)
  | OPopLeft => (tail s, RPopped (head s))
  | OPopRight => (removelast s, RPopped (last s))
  | OSet i v => let '(s, b) := spec_set i v s in (s, RDone b)
  | OTrim start stop => (slice start stop s, RNone)
  | ORemove v count =>
      let s' := remove_first v (limit count) s in
      (s', RCount (Z.of_nat (length s) - Z.of_nat (length s')))
  | OInsert i v before => let '(s, b) := spec_insert i v before s in (s, RDone b)
  | OClear => ([], RNone)
  end.

(** ** Lemmas *)

Lemma storage_on grows f l :
  list_ok l → storage (on_storage grows f l) = f (storage l).
Proof.
  unfold list_ok, storage, on_storage, CheckConvertToDeque. destruct (use_vector_ l) eqn:E; [|done].
  intros [Hd _]. destruct grows; simpl; [|done]. destruct (_ <? _); simpl; [by rewrite Hd|done].
Qed.

Lemma list_ok_on grows f l :
  list_ok l → (grows = false → length (f (storage l)) ≤ length (storage l)) → list_ok (on_storage grows f l).
Proof.
  unfold list_ok, storage, on_storage, CheckConvertToDeque. destruct (use_vector_ l) eqn:E; [|done].
  intros [Hd Hl] Hf. destruct grows; simpl.
  - destruct (_ <? _) eqn:Hb; simpl; [done|]. b2p. done.
  - split; [done|]. specialize (Hf eq_refl). lia.
Qed.

Lemma clamp_slice start stop (s : list A) :
  s ≠ [] →
  match clamp_range start stop (Z.of_nat (length s)) with
  | None => slice start stop s = []
  | Some (a, b) => drop (Z.to_nat a) (take (Z.to_nat (b + 1)) s) = slice start stop s
  end.
Proof.
  intros Hne. assert (Hlen : 0 < length s) by (destruct s; [done|simpl; lia]).
  unfold clamp_range, slice, position. set (n := Z.of_nat (length s)) in *.
  set (a := if (start <? 0)%Z then if (n + start <? 0)%Z then 0%Z else (n + start)%Z else start).
  assert (Ha : Z.to_nat (if (start <? 0)%Z then (n + start)%Z else start) = Z.to_nat a ∧ (0 ≤ a)%Z).
  { unfold a. destruct (start <? 0)%Z eqn:E1; b2p; [|done]. destruct (n + start <? 0)%Z eqn:E2; b2p; lia. }
  destruct Ha as [-> Ha]. set (e := if (stop <? 0)%Z then (n + stop)%Z else stop).
  set (e' := if (stop <? 0)%Z then if (n + stop <? 0)%Z then (-1)%Z else (n + stop)%Z else stop).
  assert (He : (e' = e ∧ 0 ≤ e)%Z ∨ (e < 0 ∧ e' = -1)%Z).
  { unfold e, e'. destruct (stop <? 0)%Z eqn:E1; b2p; [|lia]. destruct (n + stop <? 0)%Z eqn:E2; b2p; lia. }
  clearbody a e e'. destruct (n <=? a)%Z eqn:E1; b2p.
  { rewrite drop_ge by lia. by rewrite take_nil. }
  destruct (n <=? e')%Z eqn:E2; b2p.
  - rewrite (proj2 (Z.ltb_ge (n - 1) a)) by lia. rewrite (take_ge s) by lia.
    rewrite (take_ge (drop _ _)) by (rewrite length_drop; lia). done.
  - destruct (e' <? a)%Z eqn:E3; b2p.
    + replace (Z.to_nat (e + 1) - Z.to_nat a) with 0 by lia. done.
    + rewrite skipn_firstn_comm. destruct He as [[-> _]|He]; [done|lia].
Qed.

Lemma LRange_ok start stop l : LRange start stop l = slice start stop (storage l).
Proof.
  unfold LRange, LSize. destruct (storage l) as [|x s] eqn:E.
  { simpl. unfold slice. by rewrite drop_nil, take_nil. }
  rewrite (proj2 (Z.eqb_neq _ 0)) by (simpl; lia).
  assert (H := clamp_slice start stop (x :: s) ltac:(done)).
  destruct (clamp_range _ _ _) as [[a b]|]; done.
Qed.

Lemma remove_first_0 value (s : list A) : remove_first value (Some 0) s = s.
Proof. induction s as [|y s IH]; [done|]. simpl. destruct (decide _); [done|]. by rewrite IH. Qed.

Lemma erase_loop_ok value count s : ∀ r,
  (0 ≤ r)%Z → (r + Z.of_nat (length s) < 2 ^ 63)%Z → (0 < count → r < count)%Z →
  let n := if (0 <? count)%Z then Some (Z.to_nat (count - r)) else None in
  erase_loop value count s r =
    (remove_first value n s, r + (Z.of_nat (length s) - Z.of_nat (length (remove_first value n s))))%Z.
Proof.
  induction s as [|x s IH]; intros r Hr Hb Hc n; [simpl; f_equal; lia|].
  cbn [erase_loop remove_first length] in *. destruct (decide (x = value)) as [Hx|Hx].
  - rewrite u64_small by (unfold in_u64; lia). rewrite i64_small by (unfold in_i64; lia). unfold n.
    destruct (0 <? count)%Z eqn:E0; b2p; simpl.
    + specialize (Hc E0). replace (Z.to_nat (count - r)) with (S (Z.to_nat (count - (r + 1)))) by lia.
      destruct (count <=? r + 1)%Z eqn:E1; b2p.
      * replace (Z.to_nat (count - (r + 1))) with 0 by lia.
        rewrite remove_first_0. f_equal. lia.
      * rewrite (IH (r + 1)%Z) by lia. f_equal. lia.
    + rewrite (IH (r + 1)%Z) by lia. f_equal. lia.
  - rewrite (IH r) by lia. fold n. destruct n as [[|n']|]; simpl; f_equal; lia.
Qed.

(** What is erased for every length; only the count wraps. *)
Lemma erase_loop_wraps value count s : ∀ r,
  (count < 2 ^ 63)%Z → in_u64 r → (0 < count → r < count)%Z →
  let n := if (0 <? count)%Z then Some (Z.to_nat (count - r)) else None in
  erase_loop value count s r =
    (remove_first value n s, u64 (r + (Z.of_nat (length s) - Z.of_nat (length (remove_first value n s))))).
Proof.
  induction s as [|x s IH]; intros r Hc Hr Hrc n; [by rewrite Z.sub_diag, Z.add_0_r, u64_small|].
  cbn [erase_loop remove_first length] in *. unfold in_u64 in Hr. destruct (decide (x = value)) as [Hx|Hx].
  - unfold n. destruct (0 <? count)%Z eqn:E0; b2p.
    + specialize (Hrc E0). rewrite u64_small by (unfold in_u64; lia). rewrite i64_small by (unfold in_i64; lia). cbn [andb].
      replace (Z.to_nat (count - r)) with (S (Z.to_nat (count - (r + 1)))) by lia. destruct (count <=? r + 1)%Z eqn:E1; b2p.
      * replace (Z.to_nat (count - (r + 1))) with 0 by lia. rewrite remove_first_0.
        f_equal. rewrite <- (u64_small (r + 1)) at 1 by (unfold in_u64; lia). f_equal. lia.
      * rewrite (IH (r + 1)%Z) by (unfold in_u64; lia). f_equal. f_equal. lia.
    + cbn [andb]. rewrite (IH (u64 (r + 1))) by (unfold in_u64, u64, wrap; lia || apply Z.mod_pos_bound; lia). f_equal. unfold u64, wrap.
      rewrite Zplus_mod_idemp_l. f_equal. lia.
  - rewrite (IH r) by (unfold in_u64; lia). fold n. destruct n as [[|n']|]; cbn; do 2 f_equal; lia.
Qed.

Lemma removelast_take (s : list A) : removelast s = take (length s - 1) s.
Proof. rewrite removelast_firstn_len. f_equal. lia. Qed.

Lemma remove_first_length value n (s : list A) : length (remove_first value n s) ≤ length s.
Proof.
  revert n. induction s as [|x s IH]; intros n; [done|]. cbn [remove_first length].
  destruct (decide _); [destruct n as [[|n]|]; simpl; [lia|specialize (IH (Some n)); lia|specialize (IH None); lia]|].
  simpl. specialize (IH n). lia.
Qed.

Lemma slice_length start stop (s : list A) : length (slice start stop s) ≤ length s.
Proof. unfold slice. rewrite length_take, length_drop. lia. Qed.

(** One operation on the storage, with a function that agrees with [f] on what
    is stored. *)
Lemma step_storage grows f l s' (r : lresult) :
  list_ok l → f (storage l) = s' → (grows = false → length s' ≤ length (storage l)) →
  list_ok (on_storage grows f l) ∧ (storage (on_storage grows f l), r) = (s', r).
Proof.
  intros Hl <- Hlen. split; [by apply list_ok_on|]. by rewrite storage_on.
Qed.

Lemma list_step_sized l o :
  list_ok l → match o with ORemove _ _ => (Z.of_nat (length (storage l)) < 2 ^ 63)%Z | _ => True end →
  list_ok (list_step l o).1 ∧ (storage (list_step l o).1, (list_step l o).2) = spec_step (storage l) o.
Proof.
  intros Hl Hn. destruct o as [v|v| | |i v|start stop|v count|i v before|]; cbn [list_step spec_step].
  - by apply step_storage.
  - by apply step_storage.
  - unfold PopLeft. destruct (storage l) as [|x s] eqn:E; cbn [fst snd]; [by rewrite E|].
    cbn [tail head]. apply step_storage; [done|by rewrite E|]. intros _. rewrite E. simpl. lia.
  - unfold PopRight. destruct (last (storage l)) as [x|] eqn:E; cbn [fst snd].
    + apply step_storage; [done|by rewrite removelast_take|]. intros _. rewrite removelast_take, length_take. lia.
    + apply last_None in E. by rewrite E.
  - unfold LSet, spec_set, position, LSize. destruct (Z.of_nat (length (storage l)) =? 0)%Z eqn:E0; b2p.
    { rewrite bool_decide_eq_false_2 by lia. done. }
    set (p := if (i <? 0)%Z then _ else i). destruct ((p <? 0)%Z || (_ <=? p)%Z) eqn:E.
    + rewrite bool_decide_eq_false_2; [done|]. apply orb_prop in E as [E|E]; b2p; lia.
    + b2p. rewrite bool_decide_eq_true_2 by lia. cbn [fst snd]. apply step_storage; [done|done|].
      intros _. by rewrite length_insert.
  - unfold Trim, LSize. destruct (decide (length (storage l) = 0)) as [E|E].
    { rewrite E. change (Z.of_nat 0 =? 0)%Z with true. cbn [fst snd]. apply nil_length_inv in E. rewrite E.
      split; [done|]. unfold slice. by rewrite drop_nil, take_nil. }
    rewrite (proj2 (Z.eqb_neq _ 0)) by lia.
    assert (H := clamp_slice start stop (storage l) ltac:(by intros H; rewrite H in E)).
    destruct (clamp_range _ _ _) as [[a b]|]; cbn [fst snd].
    + apply step_storage; [done|done|]. intros _. apply slice_length.
    + apply step_storage; [done|done|]. intros _. apply slice_length.
  - unfold LRemove. cbn [fst snd].
    assert (H := erase_loop_ok v count (storage l) 0 ltac:(lia) ltac:(lia) ltac:(lia)). cbv zeta in H.
    rewrite Z.sub_0_r in H. fold (limit count) in H. rewrite H. cbn [fst snd]. rewrite Z.add_0_l.
    apply step_storage; [done|by rewrite H|]. intros _. apply remove_first_length.
  - unfold LInsert, spec_insert, position, LSize. destruct (Z.of_nat (length (storage l)) =? 0)%Z eqn:E0; b2p.
    { rewrite bool_decide_eq_false_2 by lia. done. }
    set (p := if (i <? 0)%Z then _ else i). destruct ((p <? 0)%Z || (_ <=? p)%Z) eqn:E.
    + rewrite bool_decide_eq_false_2; [done|]. apply orb_prop in E as [E|E]; b2p; lia.
    + b2p. rewrite bool_decide_eq_true_2 by lia. cbn [fst snd]. by apply step_storage.
  - apply step_storage; [done|done|]. intros _. simpl. lia.
Qed.

Lemma list_step_ok l o :
  list_ok l → (Z.of_nat (length (storage l)) < 2 ^ 63)%Z →
  list_ok (list_step l o).1 ∧ (storage (list_step l o).1, (list_step l o).2) = spec_step (storage l) o.
Proof. intros Hl Hn. apply list_step_sized; [done|]. by destruct o. Qed.

Lemma erase_loop_length value count s : ∀ r, length (erase_loop value count s r).1 ≤ length s.
Proof.
  induction s as [|x s IH]; intros r; cbn [erase_loop]; [done|].
  destruct (decide _).
  - destruct (_ && _); cbn [fst length]; [lia|]. specialize (IH (u64 (r + 1))). lia.
  - specialize (IH r). destruct (erase_loop value count s r). cbn [fst length] in *. lia.
Qed.

(** The representation stays right whatever the length. *)
Lemma list_step_rep l o : list_ok l → list_ok (list_step l o).1.
Proof.
  intros Hl. destruct o; cbn [list_step]; try by apply list_ok_on.
  - unfold PopLeft. destruct (storage l) eqn:E; [done|]. apply list_ok_on; [done|]. intros _. rewrite E. cbn. lia.
  - unfold PopRight. destruct (last (storage l)); [|done]. apply list_ok_on; [done|]. intros _. rewrite length_take. lia.
  - unfold LSet. repeat case_match; simplify_eq; try done; (apply list_ok_on; [done|]); intros _; by rewrite length_insert.
  - unfold Trim. repeat case_match; try done; (apply list_ok_on; [done|]); intros _; [|cbn; lia].
    rewrite length_drop, length_take. lia.
  - unfold LRemove. apply list_ok_on; [done|]. intros _. apply erase_loop_length.
  - unfold LInsert. repeat case_match; simplify_eq; try done; by apply list_ok_on.
  - unfold LClear. apply list_ok_on; [done|]. intros _. cbn. lia.
Qed.

(** ** The theorems *)

(** C29. Every history of list operations, from either representation, does to the
    elements and answers what the same history does to a plain list; the vector
    never holds more than the threshold. *)
Theorem list_histories os : ∀ l,
  list_ok l →
  (∀ os1 o os2, os = os1 ++ o :: os2 →
     (Z.of_nat (length (foldl (λ s o, (spec_step s o).1) (storage l) os1)) < 2 ^ 63)%Z) →
  list_ok (foldl (λ l o, (list_step l o).1) l os) ∧
  storage (foldl (λ l o, (list_step l o).1) l os) = foldl (λ s o, (spec_step s o).1) (storage l) os ∧
  (∀ o, (Z.of_nat (length (foldl (λ s o, (spec_step s o).1) (storage l) os)) < 2 ^ 63)%Z →
     (list_step (foldl (λ l o, (list_step l o).1) l os) o).2 =
     (spec_step (foldl (λ s o, (spec_step s o).1) (storage l) os) o).2).
Proof.
  induction os as [|o os IH]; intros l Hl Hb.
  { cbn [foldl]. split; [done|]. split; [done|]. intros o Hn.
    destruct (list_step_ok l o Hl Hn) as [_ H]. by rewrite <-H. }
  destruct (list_step_ok l o Hl (Hb [] o os eq_refl)) as [Hl' H].
  apply (f_equal fst) in H. cbn [fst] in H. cbn [foldl].
  specialize (IH _ Hl'). rewrite H in IH. apply IH. intros os1 o' os2 ->. by apply (Hb (o :: os1) o' os2).
Qed.

(** [Range] is the slice between the two positions, where a negative index counts
    from the end and positions outside the list are ignored; [Index] is the
    element at a position, the first one for an index before the list. *)
Theorem Range_Index_positions start stop i l :
  LRange start stop l = slice start stop (storage l) ∧
  Index i l = (if (position (length (storage l)) i <? 0)%Z then head (storage l)
               else storage l !! Z.to_nat (position (length (storage l)) i)).
Proof.
  split; [apply LRange_ok|]. unfold Index, position, LSize.
  destruct (decide (length (storage l) = 0)) as [E|E].
  { apply nil_length_inv in E. rewrite E. cbn [length]. change (Z.of_nat 0 =? 0)%Z with true.
    cbv iota zeta. generalize (if (i <? 0)%Z then (Z.of_nat 0 + i)%Z else i). intros p. by destruct (p <? 0)%Z. }
  rewrite (proj2 (Z.eqb_neq _ 0)) by lia. set (n := Z.of_nat (length (storage l))).
  destruct (i <? 0)%Z eqn:E1; b2p.
  - destruct (n + i <? 0)%Z eqn:E2; b2p.
    + rewrite (proj2 (Z.leb_gt n 0)) by lia. by rewrite head_lookup.
    + by rewrite (proj2 (Z.leb_gt n _)) by lia.
  - rewrite (proj2 (Z.ltb_ge i 0)) by lia. destruct (n <=? i)%Z eqn:E2; b2p; [|done].
    symmetry. apply lookup_ge_None. lia.
Qed.
End LinkedList.

Arguments lop : clear implicits.

(** ** The theorems at work *)

Definition sample_list_ops : list (lop Z) :=
  [OPushRight 1; OPushRight 2; OPushLeft 1; OInsert (-1) 7 true; ORemove 1 1; OTrim 0 (-2)]%Z.

Lemma list_histories_witness :
  storage (foldl (λ l o, (list_step l o).1) (empty_list : LinkedList Z) sample_list_ops) = [1; 7]%Z.
Proof.
  destruct (list_histories sample_list_ops (empty_list : LinkedList Z)) as (_ & H & _).
  - split; [reflexivity|]. vm_compute. lia.
  - intros os1 o os2 Hos. unfold sample_list_ops in Hos.
    do 6 (destruct os1 as [|? os1]; [vm_compute; reflexivity|injection Hos as <- Hos]).
    by destruct os1.
  - etransitivity; [exact H|]. vm_compute. reflexivity.
Defined.

(** [Index] and [Set] disagree on an index before the list. *)
Example Index_clamps_Set_refuses :
  let l := MkList true [5; 6]%Z [] in
  Index (-3) l = Some 5%Z ∧ (LSet (-3) 9%Z l).2 = false.
Proof. vm_compute. done. Qed.
