(* ===== verification/Sharding.v ===== *)
(** * Hash slots and shards

    Models src/astra/cluster/shard_manager.hpp: CRC16 slots with hash tags, the
    distribution of slots over shards, migration and replicas; and the routing
    of a key to a worker in src/astra/server/worker.hpp.  [Node] is
    [libgossip::node_id_t]. *)
From S2P Require Import Prelude.
From S2P Require Import Simd.

Definition kHashSlotCount : Z := 16384.

Definition crc16_table : list Z := [
   0x0000; 0x1021; 0x2042; 0x3063; 0x4084; 0x50a5; 0x60c6; 0x70e7; 0x8108; 0x9129; 0xa14a; 0xb16b;
   0xc18c; 0xd1ad; 0xe1ce; 0xf1ef; 0x1231; 0x0210; 0x3273; 0x2252; 0x52b5; 0x4294; 0x72f7; 0x62d6;
   0x9339; 0x8318; 0xb37b; 0xa35a; 0xd3bd; 0xc39c; 0xf3ff; 0xe3de; 0x2462; 0x3443; 0x0420; 0x1401;
   0x64e6; 0x74c7; 0x44a4; 0x5485; 0xa56a; 0xb54b; 0x8528; 0x9509; 0xe5ee; 0xf5cf; 0xc5ac; 0xd58d;
   0x3653; 0x2672; 0x1611; 0x0630; 0x76d7; 0x66f6; 0x5695; 0x46b4; 0xb75b; 0xa77a; 0x9719; 0x8738;
   0xf7df; 0xe7fe; 0xd79d; 0xc7bc; 0x48c4; 0x58e5; 0x6886; 0x78a7; 0x0840; 0x1861; 0x2802; 0x3823;
   0xc9cc; 0xd9ed; 0xe98e; 0xf9af; 0x8948; 0x9969; 0xa90a; 0xb92b; 0x5af5; 0x4ad4; 0x7ab7; 0x6a96;
   0x1a71; 0x0a50; 0x3a33; 0x2a12; 0xdbfd; 0xcbdc; 0xfbbf; 0xeb9e; 0x9b79; 0x8b58; 0xbb3b; 0xab1a;
   0x6ca6; 0x7c87; 0x4ce4; 0x5cc5; 0x2c22; 0x3c03; 0x0c60; 0x1c41; 0xedae; 0xfd8f; 0xcdec; 0xddcd;
   0xad2a; 0xbd0b; 0x8d68; 0x9d49; 0x7e97; 0x6eb6; 0x5ed5; 0x4ef4; 0x3e13; 0x2e32; 0x1e51; 0x0e70;
   0xff9f; 0xefbe; 0xdfdd; 0xcffc; 0xbf1b; 0xaf3a; 0x9f59; 0x8f78; 0x9188; 0x81a9; 0xb1ca; 0xa1eb;
   0xd10c; 0xc12d; 0xf14e; 0xe16f; 0x1080; 0x00a1; 0x30c2; 0x20e3; 0x5004; 0x4025; 0x7046; 0x6067;
   0x83b9; 0x9398; 0xa3fb; 0xb3da; 0xc33d; 0xd31c; 0xe37f; 0xf35e; 0x02b1; 0x1290; 0x22f3; 0x32d2;
   0x4235; 0x5214; 0x6277; 0x7256; 0xb5ea; 0xa5cb; 0x95a8; 0x8589; 0xf56e; 0xe54f; 0xd52c; 0xc50d;
   0x34e2; 0x24c3; 0x14a0; 0x0481; 0x7466; 0x6447; 0x5424; 0x4405; 0xa7db; 0xb7fa; 0x8799; 0x97b8;
   0xe75f; 0xf77e; 0xc71d; 0xd73c; 0x26d3; 0x36f2; 0x0691; 0x16b0; 0x6657; 0x7676; 0x4615; 0x5634;
   0xd94c; 0xc96d; 0xf90e; 0xe92f; 0x99c8; 0x89e9; 0xb98a; 0xa9ab; 0x5844; 0x4865; 0x7806; 0x6827;
   0x18c0; 0x08e1; 0x3882; 0x28a3; 0x5b7d; 0x4b5c; 0x7b3f; 0x6b1e; 0x1bf9; 0x0bd8; 0x3bbb; 0x2b9a;
   0xad07; 0xbd26; 0x8d45; 0x9d64; 0xed83; 0xfda2; 0xcde1; 0xddc0; 0xad6f; 0xbd4e; 0x8d29; 0x9d08;
   0xedef; 0xfdce; 0xcda9; 0xdd88; 0x6966; 0x7947; 0x4924; 0x5905; 0x29e2; 0x39c3; 0x09a0; 0x1981;
   0x9b5e; 0x8b7f; 0xbb1c; 0xab3d; 0xdbda; 0xcbfb; 0xfb98; 0xebb9; 0x6a56; 0x7a77; 0x4a14; 0x5a35;
   0x2ad2; 0x3af3; 0x0a90; 0x1ab1]%Z.

(** One byte: the table is indexed by the high byte of the register. *)
Definition crc16_step (crc : Z) (c : ascii) : Z :=
  u16 (Z.lxor (Z.shiftl crc 8) (nth (Z.to_nat (Z.lxor (Z.shiftr crc 8) (code c))) crc16_table 0%Z)).

Definition CRC16 (data : bytes) : Z := foldl crc16_step 0%Z data.

Definition Calculate (key : bytes) : Z := (CRC16 key mod kHashSlotCount)%Z.

(** [std::memchr]: the text before and after the first occurrence. *)
Fixpoint memchr (c : ascii) (s : bytes) : option (bytes * bytes) :=
  match s with
  | [] => None
  | x :: s => if ascii_eqb x c then Some ([], s) else '(a, b) ← memchr c s; Some (x :: a, b)
  end.

(** The part of the key that is hashed: a tag in braces that is not empty. *)
Definition hashed_part (key : bytes) : bytes :=
  match memchr "{" key with
  | Some (_, after) =>
      match memchr "}" after with
      | Some (tag, _) => if bool_decide (tag = []) then key else tag
      | None => key
      end
  | None => key
  end.

Definition CalculateWithTag (key : bytes) : Z := Calculate (hashed_part key).

(** [Worker::RouteToWorker]; [mask] is [worker_count_ - 1] for a power of two. *)
Definition RouteToWorker (worker_id worker_count : Z) (is_pow2 : bool) (mask : Z) (key : bytes) : Z :=
  if bool_decide (key = []) then (worker_id mod worker_count)%Z
  else if is_pow2 then Z.land (CalculateWithTag key) mask
  else (CalculateWithTag key mod worker_count)%Z.

(** ** Shards *)

Inductive State := kStable | kMigrating | kImporting.

#[global] Instance State_eq_dec : EqDecision State.
Proof. solve_decision. Defined.

Record ShardConfig (Node : Type) := MkShard {
  shard_id : Z;
  slot_start : Z;
  slot_end : Z;
  primary_node : Node;
  replicas : list Node;
  state : State;
  migration_target : Node
}.
Arguments MkShard {Node} _ _ _ _ _ _ _.
Arguments shard_id {Node} _.
Arguments slot_start {Node} _.
Arguments slot_end {Node} _.
Arguments primary_node {Node} _.
Arguments replicas {Node} _.
Arguments state {Node} _.
Arguments migration_target {Node} _.

Record ShardManager (Node : Type) := MkManager {
  self_id_ : Node;
  shard_count_ : Z;
  shards_ : list (ShardConfig Node);
  slot_to_shard_ : gmap Z Z;
  initialized_ : bool
}.
Arguments MkManager {Node} _ _ _ _ _.
Arguments self_id_ {Node} _.
Arguments shard_count_ {Node} _.
Arguments shards_ {Node} _.
Arguments slot_to_shard_ {Node} _.
Arguments initialized_ {Node} _.

Section Shards.
Context {Node : Type} {EqN : EqDecision Node} {InhN : Inhabited Node}.
Implicit Types (sm : ShardManager Node) (shard slot : Z) (node : Node).

(** [NodeId{}] *)
Definition no_node : Node := inhabitant.

Definition fill_slots (i first last : Z) (m : gmap Z Z) : gmap Z Z :=
  foldl (λ m slot, <[slot := i]> m) m (seqZ first (last - first + 1)).

(** The loop of [Init] for the [n] shards from [i] on. *)
Fixpoint init_loop (self : Node) (slots_per_shard : Z) (n : nat) (i current_slot remaining_slots : Z)
    (shards : list (ShardConfig Node)) (m : gmap Z Z) : list (ShardConfig Node) * gmap Z Z :=
  match n with
  | O => (shards, m)
  | S n =>
      let slots := if (0 <? remaining_slots)%Z then (slots_per_shard + 1)%Z else slots_per_shard in
      let remaining_slots := if (0 <? remaining_slots)%Z then (remaining_slots - 1)%Z else remaining_slots in
      let slot_end := u16 (current_slot + slots - 1) in
      init_loop self slots_per_shard n (i + 1) (u16 (slot_end + 1)) remaining_slots
        (shards ++ [MkShard i current_slot slot_end self [] kStable no_node])
        (fill_slots i current_slot slot_end m)
  end.

Definition Init (shard_count : Z) (self : Node) sm : ShardManager Node * bool :=
  if (shard_count =? 0)%Z || (kHashSlotCount <? shard_count)%Z then (sm, false)
  else
    let '(shards, m) :=
      init_loop self (kHashSlotCount / shard_count) (Z.to_nat shard_count) 0 0
                (kHashSlotCount mod shard_count) [] (slot_to_shard_ sm) in
    (MkManager self shard_count shards m true, true).

Definition GetShardForSlot slot sm : Z := default 0%Z (slot_to_shard_ sm !! slot).
Definition GetShardForKey (key : bytes) sm : Z := GetShardForSlot (CalculateWithTag key) sm.
Definition GetShard shard sm : option (ShardConfig Node) :=
  if (Z.of_nat (length (shards_ sm)) <=? shard)%Z then None else shards_ sm !! Z.to_nat shard.
Definition GetPrimaryNode shard sm : Node :=
  match GetShard shard sm with None => self_id_ sm | Some c => primary_node c end.
Definition GetNodeForKey (key : bytes) sm : Node := GetPrimaryNode (GetShardForKey key sm) sm.
Definition OwnsShard shard sm : bool :=
  match GetShard shard sm with None => false | Some c => bool_decide (primary_node c = self_id_ sm) end.
Definition OwnsSlot slot sm : bool := OwnsShard (GetShardForSlot slot sm) sm.

(** A change of one shard; [false] when there is no such shard. *)
Definition update_shard (f : ShardConfig Node → ShardConfig Node) shard sm : ShardManager Node * bool :=
  if (Z.of_nat (length (shards_ sm)) <=? shard)%Z then (sm, false)
  else (MkManager (self_id_ sm) (shard_count_ sm) (alter f (Z.to_nat shard) (shards_ sm))
                  (slot_to_shard_ sm) (initialized_ sm), true).

Definition with_state (st : State) (target : Node) (c : ShardConfig Node) : ShardConfig Node :=
  MkShard (shard_id c) (slot_start c) (slot_end c) (primary_node c) (replicas c) st target.
Definition with_primary node (c : ShardConfig Node) : ShardConfig Node :=
  MkShard (shard_id c) (slot_start c) (slot_end c) node (replicas c) (state c) (migration_target c).
Definition with_replicas (rs : list Node) (c : ShardConfig Node) : ShardConfig Node :=
  MkShard (shard_id c) (slot_start c) (slot_end c) (primary_node c) rs (state c) (migration_target c).

Definition StartMigration shard (target : Node) sm : ShardManager Node * bool :=
  update_shard (with_state kMigrating target) shard sm.
Definition CompleteMigration shard sm : ShardManager Node * bool :=
  update_shard (λ c, with_state kStable no_node (with_primary (migration_target c) c)) shard sm.
Definition CancelMigration shard sm : ShardManager Node * bool :=
  update_shard (with_state kStable no_node) shard sm.
Definition StartImport shard (source : Node) sm : ShardManager Node * bool :=
  update_shard (with_state kImporting source) shard sm.
Definition CompleteImport shard sm : ShardManager Node * bool :=
  update_shard (with_state kStable no_node) shard sm.

Definition IsMigrating shard sm : bool :=
  match GetShard shard sm with None => false | Some c => bool_decide (state c = kMigrating) end.
Definition IsImporting shard sm : bool :=
  match GetShard shard sm with None => false | Some c => bool_decide (state c = kImporting) end.
Definition GetMigrationTarget shard sm : Node :=
  match GetShard shard sm with None => no_node | Some c => migration_target c end.
Definition GetImportSource shard sm : Node :=
  match GetShard shard sm with None => no_node | Some c => migration_target c end.

Definition AddReplica shard (replica : Node) sm : ShardManager Node * bool :=
  update_shard (λ c, if bool_decide (replica ∈ replicas c) then c
                     else with_replicas (replicas c ++ [replica]) c) shard sm.

(** [std::find] and [erase]: the first occurrence goes. *)
Fixpoint erase_first (node : Node) (l : list Node) : list Node :=
  match l with [] => [] | x :: l => if decide (x = node) then l else x :: erase_first node l end.

Definition RemoveReplica shard (replica : Node) sm : ShardManager Node * bool :=
  update_shard (λ c, with_replicas (erase_first replica (replicas c)) c) shard sm.

Definition GetSlotRange shard sm : Z * Z :=
  match GetShard shard sm with None => (0, 0)%Z | Some c => (slot_start c, slot_end c) end.
Definition GetSlotCount shard sm : Z :=
  match GetShard shard sm with None => 0%Z | Some c => u32 (slot_end c - slot_start c + 1) end.

(** ** Lemmas: the distribution of slots *)

(** Where shard [i] starts when [r] shards have one slot more than [q]. *)
Definition start_of (q r i : Z) : Z := (i * q + Z.min i r)%Z.

Lemma start_of_step q r i :
  (0 ≤ i)%Z → start_of q r (i + 1) = (start_of q r i + (if (0 <? Z.max 0 (r - i))%Z then q + 1 else q))%Z.
Proof. intros Hi. unfold start_of. destruct (_ <? _)%Z eqn:E; b2p; lia. Qed.

Lemma start_of_mono q r a b : (0 ≤ q → a ≤ b → start_of q r a ≤ start_of q r b)%Z.
Proof. unfold start_of. nia. Qed.

(** Every slot is in the range of exactly one shard. *)
Lemma start_of_find q r s (k : nat) :
  (0 ≤ s < start_of q r (Z.of_nat k))%Z → (0 ≤ r)%Z →
  ∃ j, (0 ≤ j < Z.of_nat k)%Z ∧ (start_of q r j ≤ s < start_of q r (j + 1))%Z.
Proof.
  intros Hs Hr. induction k as [|k IH].
  { unfold start_of in Hs. lia. }
  destruct (Z_lt_dec s (start_of q r (Z.of_nat k))) as [H|H].
  - destruct IH as (j & Hj & Hr'); [lia|]. exists j. split; [lia|done].
  - exists (Z.of_nat k). split; [lia|]. replace (Z.of_nat k + 1)%Z with (Z.of_nat (S k)) by lia. lia.
Qed.

Lemma start_of_unique q r s a b :
  (0 ≤ q)%Z → (start_of q r a ≤ s < start_of q r (a + 1))%Z → (start_of q r b ≤ s < start_of q r (b + 1))%Z →
  a = b.
Proof.
  intros Hq Ha Hb. destruct (Z.lt_trichotomy a b) as [H|[H|H]]; [|done|].
  - assert (H' := start_of_mono q r (a + 1) b Hq ltac:(lia)). lia.
  - assert (H' := start_of_mono q r (b + 1) a Hq ltac:(lia)). lia.
Qed.

Lemma fill_slots_lookup i a b m s :
  fill_slots i a b m !! s = if bool_decide (a ≤ s ≤ b)%Z then Some i else m !! s.
Proof.
  unfold fill_slots. remember (Z.to_nat (b - a + 1)) as n eqn:Hn. revert a b m Hn.
  induction n as [|n IH]; intros a b m Hn.
  - rewrite seqZ_nil by lia. simpl. by rewrite bool_decide_eq_false_2 by lia.
  - rewrite seqZ_cons by lia. cbn [foldl].
    replace (Z.pred (b - a + 1)) with (b - Z.succ a + 1)%Z by lia. rewrite IH by lia.
    destruct (decide (s = a)) as [->|Hne].
    + rewrite bool_decide_eq_false_2, lookup_insert_eq by lia. by rewrite bool_decide_eq_true_2 by lia.
    + rewrite lookup_insert_ne by done. repeat case_bool_decide; try done; lia.
Qed.

Definition config_at (self : Node) (q r i : Z) : ShardConfig Node :=
  MkShard i (start_of q r i) (start_of q r (i + 1) - 1) self [] kStable no_node.

Lemma init_loop_ok self q r N : ∀ n i m,
  (0 ≤ i)%Z → (i + Z.of_nat n = N)%Z → (1 ≤ q)%Z → (0 ≤ r < N)%Z → (q * N + r = kHashSlotCount)%Z →
  ∃ m', init_loop self q n i (start_of q r i) (Z.max 0 (r - i)) (config_at self q r <$> seqZ 0 i) m =
          (config_at self q r <$> seqZ 0 N, m') ∧
        (∀ s, (s < start_of q r i)%Z → m' !! s = m !! s) ∧
        (∀ s j, (i ≤ j < N)%Z → (start_of q r j ≤ s < start_of q r (j + 1))%Z → m' !! s = Some j).
Proof.
  induction n as [|n IH]; intros i m Hi Hn Hq Hr Hsum.
  { exists m. replace N with i by lia. split; [done|]. split; [done|]. intros. lia. }
  cbn [init_loop]. assert (Hstep := start_of_step q r i Hi).
  assert (Hend : (start_of q r (i + 1) ≤ kHashSlotCount)%Z).
  { etransitivity; [apply (start_of_mono q r (i + 1) N); lia|]. unfold start_of. nia. }
  assert (Hstart : (0 ≤ start_of q r i)%Z) by (unfold start_of; nia).
  unfold kHashSlotCount in Hend.
  assert (Hu : u16 (start_of q r i + (if (0 <? Z.max 0 (r - i))%Z then q + 1 else q) - 1) = (start_of q r (i + 1) - 1)%Z).
  { unfold u16, wrap. rewrite Z.mod_small; [lia|]. destruct (_ <? _)%Z; lia. }
  rewrite Hu. replace (u16 (start_of q r (i + 1) - 1 + 1)) with (start_of q r (i + 1)).
  2: { unfold u16, wrap. rewrite Z.mod_small; [lia|]. destruct (_ <? _)%Z; lia. }
  replace (if (0 <? Z.max 0 (r - i))%Z then (Z.max 0 (r - i) - 1)%Z else Z.max 0 (r - i)) with (Z.max 0 (r - (i + 1)))
    by (destruct (0 <? _)%Z eqn:E; b2p; lia).
  assert (Hseq : (config_at self q r <$> seqZ 0 i) ++ [config_at self q r i] = config_at self q r <$> seqZ 0 (i + 1)).
  { rewrite seqZ_app by lia. by rewrite fmap_app, Z.add_0_l. }
  change (MkShard i (start_of q r i) (start_of q r (i + 1) - 1) self [] kStable no_node) with (config_at self q r i).
  rewrite Hseq.
  destruct (IH (i + 1)%Z (fill_slots i (start_of q r i) (start_of q r (i + 1) - 1) m)) as (m' & H1 & H2 & H3);
    [lia|lia|done|done|done|].
  exists m'. split; [done|]. split.
  - intros s Hs. rewrite H2 by (destruct (_ <? _)%Z; lia). rewrite fill_slots_lookup.
    by rewrite bool_decide_eq_false_2 by lia.
  - intros s j Hj Hs. destruct (decide (j = i)) as [->|Hne]; [|apply H3; [lia|done]].
    rewrite H2 by lia. rewrite fill_slots_lookup. by rewrite bool_decide_eq_true_2 by lia.
Qed.

Lemma update_shard_get f shard sm j :
  (0 ≤ shard)%Z → (0 ≤ j)%Z →
  GetShard j (update_shard f shard sm).1 =
    (if bool_decide (j = shard) then f <$> GetShard j sm else GetShard j sm).
Proof.
  intros Hs Hj. unfold GetShard, update_shard. destruct (_ <=? shard)%Z eqn:E; b2p; cbn [fst shards_].
  - case_bool_decide; [|done]. subst. by rewrite (proj2 (Z.leb_le _ shard)) by lia.
  - rewrite length_alter. case_bool_decide.
    + subst. rewrite (proj2 (Z.leb_gt _ shard)) by lia. by rewrite list_lookup_alter_eq.
    + destruct (_ <=? j)%Z; [done|]. rewrite list_lookup_alter_ne by lia. done.
Qed.

Lemma update_shard_done f shard sm :
  (update_shard f shard sm).2 = bool_decide (shard < Z.of_nat (length (shards_ sm)))%Z.
Proof. unfold update_shard. destruct (_ <=? _)%Z eqn:E; b2p; symmetry; [apply bool_decide_eq_false|apply bool_decide_eq_true]; lia. Qed.

(** ** The theorems *)

(** [Init] distributes the 16384 slots: every slot belongs to exactly one shard,
    the one [GetShardForSlot] answers, and the sizes of two shards differ by at
    most one. *)
Theorem Init_partitions n self sm :
  (0 < n ≤ kHashSlotCount)%Z →
  let sm' := (Init n self sm).1 in
  (Init n self sm).2 = true ∧
  (∀ slot, (0 ≤ slot < kHashSlotCount)%Z →
     ∃ c, GetShard (GetShardForSlot slot sm') sm' = Some c ∧ (slot_start c ≤ slot ≤ slot_end c)%Z ∧
       ∀ j c', (0 ≤ j)%Z → GetShard j sm' = Some c' → (slot_start c' ≤ slot ≤ slot_end c')%Z →
         j = GetShardForSlot slot sm') ∧
  (∀ j, (0 ≤ j < n)%Z →
     GetSlotCount j sm' =
     if (j <? kHashSlotCount mod n)%Z then (kHashSlotCount / n + 1)%Z else (kHashSlotCount / n)%Z).
Proof.
  intros Hn. set (q := (kHashSlotCount / n)%Z). set (r := (kHashSlotCount mod n)%Z).
  assert (Hq : (1 ≤ q)%Z) by (apply Z.div_le_lower_bound; lia).
  assert (Hr : (0 ≤ r < n)%Z) by (apply Z.mod_pos_bound; lia).
  assert (Hsum : (q * n + r = kHashSlotCount)%Z) by (unfold q, r; rewrite Z.mul_comm; symmetry; apply Z.div_mod; lia).
  destruct (init_loop_ok self q r n (Z.to_nat n) 0 (slot_to_shard_ sm)) as (m & H1 & _ & H3); [lia..|].
  replace (start_of q r 0) with 0%Z in H1 by (unfold start_of; lia).
  replace (Z.max 0 (r - 0)) with r in H1 by lia. change (config_at self q r <$> seqZ 0 0) with (@nil (ShardConfig Node)) in H1.
  assert (Hinit : Init n self sm = (MkManager self n (config_at self q r <$> seqZ 0 n) m true, true)).
  { unfold Init. rewrite (proj2 (Z.eqb_neq n 0)), (proj2 (Z.ltb_ge _ n)) by lia. cbn [orb]. fold q r.
    by rewrite H1. }
  intros sm'. unfold sm'. rewrite Hinit. cbn [fst snd]. split; [done|].
  assert (Hget : ∀ j, (0 ≤ j)%Z → GetShard j (MkManager self n (config_at self q r <$> seqZ 0 n) m true) =
                 if (n <=? j)%Z then None else Some (config_at self q r j)).
  { intros j Hj. unfold GetShard. cbn [shards_]. rewrite length_fmap, length_seqZ, Z2Nat.id by lia.
    destruct (n <=? j)%Z eqn:E; [done|]; b2p. rewrite list_lookup_fmap.
    rewrite lookup_seqZ_lt by lia. simpl. by rewrite Z2Nat.id by lia. }
  assert (Htop : start_of q r n = kHashSlotCount) by (unfold start_of; nia).
  split.
  - intros slot Hslot. destruct (start_of_find q r slot (Z.to_nat n)) as (j & Hj & Hrange);
      [rewrite Z2Nat.id by lia; lia|lia|]. rewrite Z2Nat.id in Hj by lia.
    assert (Hs : GetShardForSlot slot (MkManager self n (config_at self q r <$> seqZ 0 n) m true) = j)
      by (unfold GetShardForSlot; cbn [slot_to_shard_]; by rewrite (H3 slot j)).
    rewrite Hs, Hget by lia. rewrite (proj2 (Z.leb_gt n j)) by lia. eexists. split; [done|].
    cbn [config_at slot_start slot_end]. split; [lia|]. intros j' c' Hj' Hc' Hr'. rewrite Hget in Hc' by lia.
    destruct (n <=? j')%Z; [done|]. injection Hc' as <-. cbn [config_at slot_start slot_end] in Hr'.
    apply (start_of_unique q r slot j' j); lia.
  - intros j Hj. unfold GetSlotCount. rewrite Hget, (proj2 (Z.leb_gt n j)) by lia.
    cbn [config_at slot_start slot_end]. rewrite start_of_step by lia.
    assert (q ≤ kHashSlotCount)%Z by (unfold q; apply Z.div_le_upper_bound; unfold kHashSlotCount; nia).
    unfold kHashSlotCount in *.
    rewrite u32_small; destruct (0 <? Z.max 0 (r - j))%Z eqn:E1; destruct (j <? r)%Z eqn:E2; b2p;
      unfold in_u32; lia.
Qed.

(** Starting and completing a migration makes the target the primary node of that
    shard and of no other, and leaves it stable; a cancelled migration leaves the
    primary node as it was. *)
Theorem migration_moves shard target sm j :
  (0 ≤ shard < Z.of_nat (length (shards_ sm)))%Z → (0 ≤ j)%Z →
  let started := (StartMigration shard target sm).1 in
  IsMigrating shard started = true ∧ GetMigrationTarget shard started = target ∧
  GetPrimaryNode j started = GetPrimaryNode j sm ∧
  GetPrimaryNode j (CompleteMigration shard started).1 =
    (if bool_decide (j = shard) then target else GetPrimaryNode j sm) ∧
  IsMigrating shard (CompleteMigration shard started).1 = false ∧
  GetPrimaryNode j (CancelMigration shard started).1 = GetPrimaryNode j sm ∧
  IsMigrating shard (CancelMigration shard started).1 = false.
Proof.
  intros Hs Hj started.
  destruct (lookup_lt_is_Some_2 (shards_ sm) (Z.to_nat shard)) as [c Hc]; [lia|].
  assert (Hg : GetShard shard sm = Some c).
  { unfold GetShard. by rewrite (proj2 (Z.leb_gt _ shard)) by lia. }
  assert (Hself : ∀ f i x, self_id_ (update_shard f i x).1 = self_id_ (Node := Node) x).
  { intros f i x. unfold update_shard. by destruct (_ <=? _)%Z. }
  unfold started, IsMigrating, GetMigrationTarget, GetPrimaryNode, StartMigration, CompleteMigration, CancelMigration.
  rewrite !Hself, !update_shard_get by lia. rewrite !bool_decide_eq_true_2 with (P := shard = shard) by done.
  rewrite Hg. cbn [fmap option_fmap option_map state with_state with_primary migration_target].
  destruct (decide (j = shard)) as [->|Hne].
  - rewrite !(bool_decide_eq_true_2 (shard = shard)), Hg by done. by repeat split.
  - rewrite !(bool_decide_eq_false_2 (j = shard)) by done. by repeat split.
Qed.
End Shards.

(** ** Slots *)

Lemma memchr_app c a b : Forall (λ x, x ≠ c) a → memchr c (a ++ c :: b) = Some (a, b).
Proof.
  induction 1 as [|x a Hx _ IH]; cbn [app memchr].
  - by rewrite (bool_decide_eq_true_2 (c = c) eq_refl : ascii_eqb c c = true).
  - rewrite (bool_decide_eq_false_2 (x = c) Hx : ascii_eqb x c = false). by rewrite IH.
Qed.

Lemma land_range a m : (0 ≤ a)%Z → (0 ≤ m)%Z → (0 ≤ Z.land a m ≤ m)%Z.
Proof.
  intros Ha Hm. split; [apply Z.land_nonneg; by left|].
  rewrite <-(Z2N.id a), <-(Z2N.id m), <-N2Z.inj_land by done. apply N2Z.inj_le, N.land_le_r.
Qed.

(** A slot is below 16384; keys with the same first tag in braces have the slot of
    the tag, so they are routed to the same worker, which exists. *)
Theorem tags_route_together a tag b key worker_id n is_pow2 :
  Forall (λ c, c ≠ "{"%char) a → Forall (λ c, c ≠ "}"%char) tag → tag ≠ [] → (0 < n)%Z → (0 ≤ worker_id)%Z →
  (0 ≤ CalculateWithTag key < kHashSlotCount)%Z ∧
  CalculateWithTag (a ++ "{"%char :: tag ++ "}"%char :: b) = Calculate tag ∧
  RouteToWorker worker_id n is_pow2 (n - 1) (a ++ "{"%char :: tag ++ "}"%char :: b) =
    (if is_pow2 then Z.land (Calculate tag) (n - 1) else Calculate tag mod n)%Z ∧
  (0 ≤ RouteToWorker worker_id n is_pow2 (n - 1) key < n)%Z.
Proof.
  intros Ha Ht Hne Hn Hw.
  assert (Hrange : ∀ k, (0 ≤ CalculateWithTag k < kHashSlotCount)%Z) by (intros k; by apply Z.mod_pos_bound).
  assert (Htag : CalculateWithTag (a ++ "{"%char :: tag ++ "}"%char :: b) = Calculate tag).
  { unfold CalculateWithTag, hashed_part. rewrite memchr_app, memchr_app by done.
    by rewrite bool_decide_eq_false_2. }
  split; [done|]. split; [done|]. split.
  - unfold RouteToWorker. rewrite bool_decide_eq_false_2 by (by destruct a). by rewrite Htag.
  - unfold RouteToWorker. destruct (bool_decide (key = [])); [by apply Z.mod_pos_bound|].
    destruct is_pow2; [|by apply Z.mod_pos_bound].
    assert (H := land_range (CalculateWithTag key) (n - 1)). specialize (Hrange key). lia.
Qed.

(** The table of CRC-16/XMODEM: division by the polynomial 0x1021. *)
Fixpoint crc_bits (n : nat) (c : Z) : Z :=
  match n with
  | O => c
  | S n => crc_bits n (if Z.testbit c 15 then u16 (Z.lxor (Z.shiftl c 1) 0x1021) else u16 (Z.shiftl c 1))
  end.

Definition crc16_entry (i : Z) : Z := crc_bits 8 (Z.shiftl i 8).

(** The first 208 entries of the table are those of CRC-16/XMODEM, which the
    comment names; the last 48 entries are all different from it. *)
Theorem crc16_table_entries :
  Forall (λ i, nth i crc16_table 0%Z = crc16_entry (Z.of_nat i) ↔ i < 208) (seq 0 256).
Proof.
  apply Forall_forall. intros i Hi. apply elem_of_seq in Hi.
  assert (H : forallb (λ i, Bool.eqb (nth i crc16_table 0 =? crc16_entry (Z.of_nat i))%Z (i <? 208)) (seq 0 256) = true)
    by (vm_compute; reflexivity).
  rewrite forallb_forall in H. specialize (H i). rewrite in_seq in H. specialize (H ltac:(lia)).
  apply eqb_prop in H. rewrite <-Z.eqb_eq, H. apply Nat.ltb_lt.
Qed.

(** ** The theorems at work *)

#[local] Instance node_inhabited : Inhabited nat := populate 0.

Definition fresh_manager : ShardManager nat := MkManager 1 0 [] ∅ false.

Lemma Init_partitions_witness :
  GetShardForSlot 5462 (Init 3 7 fresh_manager).1 = 1%Z ∧ GetSlotCount 0 (Init 3 7 fresh_manager).1 = 5462%Z.
Proof.
  destruct (Init_partitions 3 7 fresh_manager) as (_ & _ & H3); [unfold kHashSlotCount; lia|].
  split; [vm_compute; reflexivity|]. etransitivity; [apply (H3 0%Z); lia|]. vm_compute. reflexivity.
Defined.

Lemma migration_moves_witness :
  GetPrimaryNode 1 (CompleteMigration 1 (StartMigration 1 9 (MkManager 7 2
    [MkShard 0 0 8191 7 [] kStable 0; MkShard 1 8192 16383 7 [] kStable 0] ∅ true)).1).1 = 9.
Proof.
  destruct (migration_moves 1 9 (MkManager 7 2
    [MkShard 0 0 8191 7 [] kStable 0; MkShard 1 8192 16383 7 [] kStable 0] ∅ true) 1) as (_ & _ & _ & H & _).
  - simpl. lia.
  - lia.
  - exact H.
Defined.

Lemma tags_route_together_witness :
  CalculateWithTag (B "user:{bob}:name") = Calculate (B "bob") ∧
  CalculateWithTag (B "user:{bob}:mail") = Calculate (B "bob").
Proof.
  split.
  - apply (tags_route_together (B "user:") (B "bob") (B ":name") (B "x") 0 4 true);
      repeat constructor; try discriminate; lia.
  - apply (tags_route_together (B "user:") (B "bob") (B ":mail") (B "x") 0 4 true);
      repeat constructor; try discriminate; lia.
Defined.

(** The check value of CRC-16/XMODEM is 0x31C3. *)
Example crc16_check_value : CRC16 (B "123456789") ≠ 0x31C3%Z.
Proof. vm_compute. discriminate. Qed.

(** Completing a migration that was not started gives the shard to no node. *)
Example complete_without_start :
  GetPrimaryNode 0 (CompleteMigration 0 (MkManager 7 1 [MkShard 0 0 16383 7 [] kStable 0] ∅ true)).1 = 0.
Proof. vm_compute. reflexivity. Qed.
