(* ===== verification/Executor.v ===== *)
(** * Transactions and the execution of commands

    Models src/astra/server/transaction_state.cpp: per connection whether it is
    between MULTI and EXEC, the queued commands, and the watched keys with the
    versions they had. *)
From Stdlib Require Import SpecFloat.
From S2P Require Import Prelude.
From S2P Require Import Simd.
From S2P Require Import Numbers.
From S2P Require Import RespTypes.

Record TransactionState := MkTx {
  in_transaction : bool;
  queued_commands : list Command;
  watched_keys : gset bytes;
  watched_key_versions : gmap bytes Z
}.

Definition new_state : TransactionState := MkTx false [] ∅ ∅.

(** [states_], by connection. *)
Abbreviation Store := (gmap Z TransactionState).
Implicit Types (st : Store) (id : Z) (key : bytes).

(** [states_[id]]: a default state is there when it was not. *)
Definition get_state id st : TransactionState := default new_state (st !! id).

Definition IsInTransaction id st : bool :=
  match st !! id with Some s => in_transaction s | None => false end.

Definition BeginTransaction id st : Store :=
  let s := get_state id st in
  <[id := MkTx true [] (watched_keys s) (watched_key_versions s)]> st.

Definition QueueCommand id (cmd : Command) st : Store :=
  let s := get_state id st in
  <[id := MkTx (in_transaction s) (queued_commands s ++ [cmd]) (watched_keys s) (watched_key_versions s)]> st.

Definition GetQueuedCommands id st : list Command :=
  match st !! id with Some s => queued_commands s | None => [] end.

Definition MaybeErase id st : Store :=
  match st !! id with
  | None => st
  | Some s =>
      if negb (in_transaction s) && bool_decide (queued_commands s = []) && bool_decide (watched_keys s = ∅)
      then delete id st else st
  end.

Definition ClearQueuedCommands id st : Store :=
  match st !! id with
  | None => st
  | Some s => MaybeErase id (<[id := MkTx (in_transaction s) [] (watched_keys s) (watched_key_versions s)]> st)
  end.

Definition DiscardTransaction id st : Store := delete id st.

Definition WatchKey id key (version : Z) st : Store :=
  let s := get_state id st in
  <[id := MkTx (in_transaction s) (queued_commands s) ({[key]} ∪ watched_keys s)
               (<[key := version]> (watched_key_versions s))]> st.

Definition GetWatchedKeys id st : gset bytes :=
  match st !! id with Some s => watched_keys s | None => ∅ end.

Definition IsWatchedKeyModified id (get_version : bytes → Z) st : bool :=
  match st !! id with
  | None => false
  | Some s =>
      existsb (λ key, match watched_key_versions s !! key with
                      | None => false
                      | Some v => negb (get_version key =? v)%Z
                      end) (elements (watched_keys s))
  end.

Definition ClearWatchedKeys id st : Store :=
  match st !! id with
  | None => st
  | Some s => MaybeErase id (<[id := MkTx (in_transaction s) (queued_commands s) ∅ ∅]> st)
  end.

Definition ClearConnectionState id st : Store := delete id st.

(** ** The invariant

    Every watched key has a version, commands are queued only inside a
    transaction, and no state is kept for nothing. *)
Definition tx_ok (s : TransactionState) : Prop :=
  dom (watched_key_versions s) = watched_keys s ∧
  (in_transaction s = false → queued_commands s = [] ∧ watched_keys s ≠ ∅).

Definition store_ok st : Prop := map_Forall (λ _ s, tx_ok s) st.

(** ** Each operation touches one connection *)

Lemma lookup_BeginTransaction id id' st :
  BeginTransaction id st !! id' =
  if bool_decide (id = id')
  then Some (MkTx true [] (watched_keys (get_state id st)) (watched_key_versions (get_state id st)))
  else st !! id'.
Proof.
  unfold BeginTransaction. cbv zeta. case_bool_decide; subst; [by rewrite lookup_insert_eq|by rewrite lookup_insert_ne].
Qed.

Lemma lookup_MaybeErase id id' st : id ≠ id' → MaybeErase id st !! id' = st !! id'.
Proof. intros H. unfold MaybeErase. repeat case_match; try done. by rewrite lookup_delete_ne. Qed.

Lemma ClearWatchedKeys_other id id' st : id ≠ id' → ClearWatchedKeys id st !! id' = st !! id'.
Proof.
  intros H. unfold ClearWatchedKeys. destruct (st !! id); [|done].
  rewrite lookup_MaybeErase by done. by rewrite lookup_insert_ne.
Qed.

Lemma WatchKey_other id id' key v st : id ≠ id' → WatchKey id key v st !! id' = st !! id'.
Proof. intros H. unfold WatchKey. cbv zeta. by rewrite lookup_insert_ne. Qed.

Lemma DiscardTransaction_other id id' st : id ≠ id' → DiscardTransaction id st !! id' = st !! id'.
Proof. intros H. by apply lookup_delete_ne. Qed.

Lemma ClearQueuedCommands_other id id' st : id ≠ id' → ClearQueuedCommands id st !! id' = st !! id'.
Proof.
  intros H. unfold ClearQueuedCommands. destruct (st !! id); [|done].
  rewrite lookup_MaybeErase by done. by rewrite lookup_insert_ne.
Qed.

Lemma QueueCommand_other id id' cmd st : id ≠ id' → QueueCommand id cmd st !! id' = st !! id'.
Proof. intros H. unfold QueueCommand. cbv zeta. by rewrite lookup_insert_ne. Qed.

(** ** The operations keep the invariant *)

Lemma get_state_versions id st : store_ok st → dom (watched_key_versions (get_state id st)) = watched_keys (get_state id st).
Proof.
  intros H. unfold get_state. destruct (st !! id) as [s|] eqn:E; simpl; [|set_solver]. by apply (H id s E).
Qed.

Lemma BeginTransaction_ok id st : store_ok st → store_ok (BeginTransaction id st).
Proof.
  intros H. unfold BeginTransaction. cbv zeta. apply map_Forall_insert_2; [|done]. split; [|done].
  simpl. by apply get_state_versions.
Qed.

Lemma QueueCommand_ok id cmd st : store_ok st → IsInTransaction id st = true → store_ok (QueueCommand id cmd st).
Proof.
  intros H Hin. unfold QueueCommand, IsInTransaction, get_state in *. destruct (st !! id) as [s|] eqn:E; [|done].
  apply map_Forall_insert_2; [|done]. destruct (H id s E) as [H1 _]. split; [done|]. simpl. congruence.
Qed.

Lemma DiscardTransaction_ok id st : store_ok st → store_ok (DiscardTransaction id st).
Proof. apply map_Forall_delete. Qed.

Lemma WatchKey_ok id key v st :
  store_ok st → IsInTransaction id st = false → store_ok (WatchKey id key v st).
Proof.
  intros H Hin. unfold WatchKey. cbv zeta. apply map_Forall_insert_2; [|done].
  assert (Hd := get_state_versions id st H). split; simpl.
  - rewrite dom_insert_L. set_solver.
  - intros _. split; [|set_solver]. unfold get_state, IsInTransaction in *.
    destruct (st !! id) as [s|] eqn:E; [|done]. by apply (H id s E).
Qed.

Lemma ClearWatchedKeys_ok id st : store_ok st → store_ok (ClearWatchedKeys id st).
Proof.
  intros H. unfold ClearWatchedKeys. destruct (st !! id) as [s|] eqn:E; [|done].
  unfold MaybeErase. rewrite lookup_insert_eq. cbn [in_transaction queued_commands watched_keys].
  destruct (H id s E) as [_ H2]. destruct (in_transaction s) eqn:Ht; simpl.
  - apply map_Forall_insert_2; [|done]. split; [|done]. simpl. set_solver.
  - destruct (H2 eq_refl) as [Hq _]. rewrite !bool_decide_eq_true_2 by done. simpl.
    rewrite delete_insert_eq. by apply map_Forall_delete.
Qed.

Lemma ClearQueuedCommands_ok id st : store_ok st → store_ok (ClearQueuedCommands id st).
Proof.
  intros H. unfold ClearQueuedCommands. destruct (st !! id) as [s|] eqn:E; [|done].
  assert (Hs : store_ok (<[id := MkTx (in_transaction s) [] (watched_keys s) (watched_key_versions s)]> st)).
  { apply map_Forall_insert_2; [|done]. destruct (H id s E) as [H1 H2]. split; [done|]. simpl. naive_solver. }
  unfold MaybeErase. repeat case_match; try done. by apply map_Forall_delete.
Qed.

#[export] Hint Resolve BeginTransaction_ok QueueCommand_ok DiscardTransaction_ok WatchKey_ok ClearWatchedKeys_ok
  ClearQueuedCommands_ok : core.

(** A change of a watched version is noticed. *)
Lemma IsWatchedKeyModified_spec id get_version st :
  store_ok st →
  IsWatchedKeyModified id get_version st = true ↔
  ∃ s key v, st !! id = Some s ∧ watched_key_versions s !! key = Some v ∧ get_version key ≠ v.
Proof.
  intros H. unfold IsWatchedKeyModified. destruct (st !! id) as [s|] eqn:E.
  2: { split; [done|]. by intros (s & ? & ? & ? & _). }
  rewrite existsb_exists. destruct (H id s E) as [Hd _]. split.
  - intros (key & _ & Hk). destruct (watched_key_versions s !! key) as [v|] eqn:Hv; [|done].
    exists s, key, v. split_and!; [done|done|]. by apply negb_true_iff, Z.eqb_neq in Hk.
  - intros (s' & key & v & [= <-] & Hv & Hne). exists key. split.
    + apply list_elem_of_In, elem_of_elements. rewrite <-Hd. apply elem_of_dom. by eexists.
    + rewrite Hv. by apply negb_true_iff, Z.eqb_neq.
Qed.

(** ** Executing commands

    Models the command path of a worker: [CommandRegistry::Execute] of
    src/astra/commands/command_handler.cpp, the transaction commands of
    src/astra/commands/redis/transaction_commands.cpp, [DataShard::Execute] and
    the client branch of [Worker::ExecutorLoop] of src/astra/server/worker.hpp.
    The database is a type [D]; the handlers of the data commands, the slot
    check of a cluster and the permission checks are functions of the
    environment.  The command cache of the registry only counts hits and is
    left out. *)

(** ** Names *)

Definition is_lower (c : ascii) : bool := (code "a" <=? code c)%Z && (code c <=? code "z")%Z.
Definition to_upper (c : ascii) : ascii := if is_lower c then of_code (code c - 32) else c.

Definition NeedsAsciiUppercase (s : bytes) : bool := existsb is_lower s.
Definition NormalizeUppercase (s : bytes) : bytes :=
  if NeedsAsciiUppercase s then map to_upper s else s.

(** [absl::EqualsIgnoreCase] *)
Definition is_command_name (actual expected : bytes) : bool :=
  bool_decide (map to_upper actual = map to_upper expected).

Definition is_transaction_control (name : bytes) : bool :=
  is_command_name name (B "MULTI") || is_command_name name (B "EXEC") ||
  is_command_name name (B "DISCARD") || is_command_name name (B "WATCH") ||
  is_command_name name (B "UNWATCH").

Inductive RoutingStrategy := RouteNone | ByFirstKey | ByArgument | AllShards.

#[global] Instance RoutingStrategy_eq_dec : EqDecision RoutingStrategy.
Proof. solve_decision. Defined.

(** [CommandResult]: a response, or an error text. *)
Inductive CommandResult := Success (response : RespValue) | Failure (error : bytes).

(** What a handler does: it returns, or throws something with or without a
    text. *)
Inductive outcome := Returned (r : CommandResult) | Threw (what : bytes) | ThrewUnknown.

Inductive Handler (D : Type) :=
  | HMulti | HExec | HDiscard | HWatch | HUnwatch
  | HData (f : Z → Command → D → D * outcome).
Arguments HMulti {D}.
Arguments HExec {D}.
Arguments HDiscard {D}.
Arguments HWatch {D}.
Arguments HUnwatch {D}.
Arguments HData {D} f.

Record CommandEntry (D : Type) := MkEntry {
  arity : Z;
  routing : RoutingStrategy;
  is_write : bool;
  handler : Handler D
}.
Arguments MkEntry {D} _ _ _ _.
Arguments arity {D} _.
Arguments routing {D} _.
Arguments is_write {D} _.
Arguments handler {D} _.

(** What a worker is configured with. *)
Record Env (D : Type) := MkEnv {
  commands_ : gmap bytes (CommandEntry D);
  db_version : bytes → D → Z;
  acl : option ((bytes → bool) * (bytes → bool));
  CheckClusterSlot : Command → bytes;
  worker_id_ : Z;
  route : bytes → Z;
  is_master : bool
}.
Arguments commands_ {D} _.
Arguments db_version {D} _.
Arguments acl {D} _.
Arguments CheckClusterSlot {D} _.
Arguments worker_id_ {D} _.
Arguments route {D} _.
Arguments is_master {D} _.

Record Worker (D : Type) := MkWorker { db : D; store : Store }.
Arguments MkWorker {D} _ _.
Arguments db {D} _.
Arguments store {D} _.

(** What leaves the executor: a reply to a connection, a command for another
    worker, a command for the replicas. *)
Inductive action :=
  | Respond (conn : Z) (response : bytes)
  | Forward (target conn : Z) (cmd : Command)
  | Propagate (cmd : Command).

Definition is_text (a : CommandArg) : bool :=
  match arg_type a with kBulkString | kSimpleString => true | _ => false end.

Definition ok_response : CommandResult := Success (MkResp kSimpleString (VString (B "OK"))).

(** The commands whose first argument is no key. *)
Definition non_key_commands : list bytes :=
  map B ["AUTH"; "PING"; "ECHO"; "QUIT"; "SELECT"; "HELLO"; "CLIENT"; "INFO"; "TIME"; "MONITOR";
         "DEBUG"; "SHUTDOWN"; "SAVE"; "BGSAVE"; "LASTSAVE"; "DBSIZE"; "KEYS"; "RANDOMKEY"; "SCAN"; "TYPE";
         "EXISTS"; "TTL"; "PTTL"; "EXPIRE"; "PEXPIRE"; "EXPIREAT"; "PEXPIREAT"; "PERSIST"; "SORT"; "ACL";
         "SUBSCRIBE"; "UNSUBSCRIBE"; "PSUBSCRIBE"; "PUNSUBSCRIBE"; "PUBLISH";
         "PUBSUB"; "MULTI"; "EXEC"; "DISCARD"; "WATCH"; "UNWATCH"]%string.

Section Executor.
Context {HD : DoubleText} {D : Type}.
Implicit Types (env : Env D) (w : Worker D) (cmd : Command).

(** ** The transaction commands *)

Definition with_store (f : Store → Store) w : Worker D := MkWorker (db w) (f (store w)).

Definition HandleMulti id cmd w : Worker D * CommandResult :=
  if IsInTransaction id (store w) then (w, Failure (B "ERR MULTI calls can not be nested"))
  else (with_store (BeginTransaction id) w, ok_response).

Definition HandleExec id cmd w : Worker D * CommandResult :=
  if negb (IsInTransaction id (store w)) then (w, Failure (B "ERR EXEC without MULTI"))
  else (with_store (λ st, DiscardTransaction id (ClearWatchedKeys id (ClearQueuedCommands id st))) w,
        Success (resp_array [])).

Definition HandleDiscard id cmd w : Worker D * CommandResult :=
  if negb (IsInTransaction id (store w)) then (w, Failure (B "ERR DISCARD without MULTI"))
  else (with_store (DiscardTransaction id) w, ok_response).

Definition HandleWatch env id cmd w : Worker D * CommandResult :=
  if length (cmd_args cmd) <? 1
  then (w, Failure (B "ERR wrong number of arguments for 'watch' command"))
  else if IsInTransaction id (store w) then (w, Failure (B "ERR WATCH inside MULTI is not allowed"))
  else (with_store (λ st, foldl (λ st arg,
          match arg_type arg with
          | kBulkString => WatchKey id (arg_value arg) (db_version env (arg_value arg) (db w)) st
          | _ => st
          end) st (cmd_args cmd)) w, ok_response).

Definition HandleUnwatch id cmd w : Worker D * CommandResult :=
  (with_store (ClearWatchedKeys id) w, ok_response).

Definition run_handler env id cmd (h : Handler D) w : Worker D * CommandResult :=
  match h with
  | HMulti => HandleMulti id cmd w
  | HExec => HandleExec id cmd w
  | HDiscard => HandleDiscard id cmd w
  | HWatch => HandleWatch env id cmd w
  | HUnwatch => HandleUnwatch id cmd w
  | HData f =>
      let '(d, o) := f id cmd (db w) in
      (MkWorker d (store w),
       match o with
       | Returned r => r
       | Threw what => Failure (B "ERR " ++ what)
       | ThrewUnknown => Failure (B "ERR unknown error")
       end)
  end.

(** ** The registry *)

Definition GetInfo env (name : bytes) : option (CommandEntry D) := commands_ env !! NormalizeUppercase name.

Definition GetRoutingStrategy env (name : bytes) : RoutingStrategy :=
  match GetInfo env name with Some e => routing e | None => RouteNone end.

Definition wrong_arity (e : CommandEntry D) cmd : bool :=
  let total_args := i32 (i32 (Z.of_nat (length (cmd_args cmd))) + 1) in
  if (0 <? arity e)%Z then negb (total_args =? arity e)%Z
  else if (arity e <? 0)%Z then (total_args <? - arity e)%Z
  else false.

(** The error of the permission checks, if there is one. *)
Definition no_permission env (lookup_name : bytes) cmd : option bytes :=
  match acl env with
  | None => None
  | Some (command_ok, key_ok) =>
      if negb (command_ok (cmd_name cmd))
      then Some (B "NOPERM No permissions to execute command '" ++ cmd_name cmd ++ B "'")
      else match cmd_args cmd with
           | a :: _ =>
               if negb (bool_decide (lookup_name ∈ non_key_commands)) && is_text a && negb (key_ok (arg_value a))
               then Some (B "NOPERM No permissions to access key '" ++ arg_value a ++ B "'")
               else None
           | [] => None
           end
  end.

Definition RegistryExecute env id cmd w : Worker D * CommandResult :=
  if bool_decide (cmd_name cmd = []) then (w, Failure (B "ERR empty command name"))
  else
    let lookup_name := NormalizeUppercase (cmd_name cmd) in
    match commands_ env !! lookup_name with
    | None => (w, Failure (B "ERR unknown command '" ++ cmd_name cmd ++ B "'"))
    | Some e =>
        if wrong_arity e cmd
        then (w, Failure (B "ERR wrong number of arguments for '" ++ lookup_name ++ B "' command"))
        else match no_permission env lookup_name cmd with
             | Some error => (w, Failure error)
             | None => run_handler env id cmd (handler e) w
             end
    end.

Definition ShardExecute env id cmd w : Worker D * bytes :=
  if negb (bool_decide (CheckClusterSlot env cmd = [])) then (w, CheckClusterSlot env cmd)
  else match RegistryExecute env id cmd w with
       | (w, Failure error) => (w, BuildError error)
       | (w, Success v) => (w, Build v)
       end.

(** ** The executor *)

Definition is_first_key_local env cmd : bool :=
  match cmd_args cmd with
  | [] => true
  | a :: _ =>
      if bool_decide (GetRoutingStrategy env (cmd_name cmd) = RouteNone) then true
      else if negb (is_text a) then true
      else (route env (arg_value a) =? worker_id_ env)%Z
  end.

Definition are_watch_keys_local env cmd : bool :=
  if negb (is_command_name (cmd_name cmd) (B "WATCH")) then true
  else forallb (λ a, if is_text a then (route env (arg_value a) =? worker_id_ env)%Z else true) (cmd_args cmd).

(** The replication of a write on the master. *)
Definition propagation env cmd : list action :=
  if is_master env then
    match GetInfo env (cmd_name cmd) with
    | Some e => if is_write e then [Propagate cmd] else []
    | None => []
    end
  else [].

Definition crossslot : bytes := BuildError (B "CROSSSLOT transaction commands must stay on one worker").

(** The loop over the queued commands of EXEC. *)
Fixpoint exec_queued env id (queued : list Command) w : Worker D * list bytes * list action :=
  match queued with
  | [] => (w, [], [])
  | cmd :: queued =>
      if negb (is_first_key_local env cmd) then
        let '(w, items, acts) := exec_queued env id queued w in (w, crossslot :: items, acts)
      else
        let '(w, item) := ShardExecute env id cmd w in
        let '(w, items, acts) := exec_queued env id queued w in
        (w, item :: items, propagation env cmd ++ acts)
  end.

Definition build_exec_array_response (items : list bytes) : bytes :=
  foldl (λ out item, out ++ item) (B "*" ++ print_int (Z.of_nat (length items)) ++ CRLF) items.

(** A command of a client of this worker. *)
Definition process_client env id cmd w : Worker D * list action :=
  let is_exec := is_command_name (cmd_name cmd) (B "EXEC") in
  let in_tx := IsInTransaction id (store w) in
  if in_tx && negb (is_transaction_control (cmd_name cmd)) then
    if negb (is_first_key_local env cmd) then (w, [Respond id crossslot])
    else (with_store (QueueCommand id cmd) w, [Respond id (BuildSimpleString (B "QUEUED"))])
  else if is_command_name (cmd_name cmd) (B "WATCH") && negb (are_watch_keys_local env cmd) then
    (w, [Respond id (BuildError (B "CROSSSLOT WATCH keys must stay on one worker"))])
  else if is_exec && in_tx then
    if IsWatchedKeyModified id (λ key, db_version env key (db w)) (store w) then
      (with_store (DiscardTransaction id) w, [Respond id BuildNullArray])
    else
      let queued := GetQueuedCommands id (store w) in
      let '(w, items, acts) := exec_queued env id queued (with_store (DiscardTransaction id) w) in
      (w, acts ++ [Respond id (build_exec_array_response items)])
  else
    let target :=
      match cmd_args cmd with
      | a :: _ =>
          if negb (bool_decide (GetRoutingStrategy env (cmd_name cmd) = RouteNone)) && is_text a
          then route env (arg_value a) else worker_id_ env
      | [] => worker_id_ env
      end in
    if (target =? worker_id_ env)%Z then
      let '(w, response) := ShardExecute env id cmd w in
      (w, propagation env cmd ++ [Respond id response])
    else (w, [Forward target id cmd]).

(** The commands of clients in the order the executor takes them. *)
Fixpoint run_clients env (trace : list (Z * Command)) w : Worker D * list action :=
  match trace with
  | [] => (w, [])
  | (id, cmd) :: trace =>
      let '(w, acts) := process_client env id cmd w in
      let '(w, acts') := run_clients env trace w in
      (w, acts ++ acts')
  end.
End Executor.
