(* ===== verification/ExecutorContract.v ===== *)
(** * Executing commands: transactions

    Commands of one connection depend on and change only the database and the
    transaction state of that connection; from this, what MULTI, EXEC and WATCH
    promise when commands of several connections interleave. *)
From Stdlib Require Import SpecFloat.
From S2P Require Import Prelude.
From S2P Require Import Simd.
From S2P Require Import Numbers.
From S2P Require Import RespTypes.
From S2P Require Import Executor.

(** ** Locality of the transaction state *)

Definition store_local (d : Z) (f : Store → Store) : Prop :=
  (∀ st x, x ≠ d → f st !! x = st !! x) ∧ (∀ st st', st !! d = st' !! d → f st !! d = f st' !! d).

Lemma store_local_id d : store_local d (λ st, st).
Proof. done. Qed.

Lemma store_local_compose d f g : store_local d f → store_local d g → store_local d (λ st, g (f st)).
Proof.
  intros [F1 F2] [G1 G2]. split; [intros st x Hx; by rewrite G1, F1|intros st st' H; by apply G2, F2].
Qed.

Lemma store_local_foldl {A} d (f : Store → A → Store) l :
  (∀ a, store_local d (λ st, f st a)) → store_local d (λ st, foldl f st l).
Proof.
  intros Hf. induction l as [|a l IH]; [apply store_local_id|].
  exact (store_local_compose d (λ st, f st a) (λ st, foldl f st l) (Hf a) IH).
Qed.

Lemma BeginTransaction_local d : store_local d (BeginTransaction d).
Proof.
  split; intros st x H; rewrite ?lookup_BeginTransaction.
  - by rewrite bool_decide_eq_false_2.
  - unfold get_state. by rewrite H.
Qed.

Lemma QueueCommand_local d cmd : store_local d (QueueCommand d cmd).
Proof.
  split; [intros st x H; by apply QueueCommand_other|]. intros st st' H. unfold QueueCommand, get_state. cbv zeta.
  by rewrite !lookup_insert_eq, H.
Qed.

Lemma WatchKey_local d key v : store_local d (WatchKey d key v).
Proof.
  split; [intros st x H; by apply WatchKey_other|]. intros st st' H. unfold WatchKey, get_state. cbv zeta.
  by rewrite !lookup_insert_eq, H.
Qed.

Lemma DiscardTransaction_local d : store_local d (DiscardTransaction d).
Proof.
  split; [intros st x H; by apply DiscardTransaction_other|]. intros st st' H. unfold DiscardTransaction.
  by rewrite !lookup_delete_eq.
Qed.

Lemma MaybeErase_local d : store_local d (MaybeErase d).
Proof.
  split; [intros st x H; by apply lookup_MaybeErase|]. intros st st' H. unfold MaybeErase. rewrite H.
  repeat case_match; rewrite ?lookup_delete_eq; congruence.
Qed.

Lemma update_then_erase_local d (g : TransactionState → TransactionState) :
  store_local d (λ st, match st !! d with None => st | Some s => MaybeErase d (<[d := g s]> st) end).
Proof.
  destruct (MaybeErase_local d) as [M1 M2]. split.
  - intros st x H. destruct (st !! d); [|done]. by rewrite M1, lookup_insert_ne.
  - intros st st' H. rewrite H. destruct (st' !! d) eqn:E; [|congruence]. apply M2. by rewrite !lookup_insert_eq.
Qed.

Lemma ClearWatchedKeys_local d : store_local d (ClearWatchedKeys d).
Proof. apply (update_then_erase_local d (λ s, MkTx (in_transaction s) (queued_commands s) ∅ ∅)). Qed.

Lemma ClearQueuedCommands_local d : store_local d (ClearQueuedCommands d).
Proof.
  apply (update_then_erase_local d (λ s, MkTx (in_transaction s) [] (watched_keys s) (watched_key_versions s))).
Qed.

Create HintDb local_ops.
#[export] Hint Resolve BeginTransaction_local QueueCommand_local WatchKey_local DiscardTransaction_local
  ClearWatchedKeys_local ClearQueuedCommands_local store_local_id : local_ops.

Lemma IsInTransaction_at d st st' : st !! d = st' !! d → IsInTransaction d st = IsInTransaction d st'.
Proof. unfold IsInTransaction. by intros ->. Qed.

Section Locality.
Context {HD : DoubleText} {D : Type}.
Implicit Types (env : Env D) (w : Worker D) (cmd : Command).

(** The same database and the same state of connection [d]. *)
Definition agree (d : Z) w w' : Prop := db w = db w' ∧ store w !! d = store w' !! d.

(** A step of connection [d]. *)
Definition local_step {R} (d : Z) (F : Worker D → Worker D * R) : Prop :=
  (∀ w x, x ≠ d → store (F w).1 !! x = store w !! x) ∧
  (∀ w w', agree d w w' → agree d (F w).1 (F w').1 ∧ (F w).2 = (F w').2).

Lemma local_const {R} d (r : R) : local_step d (λ w, (w, r)).
Proof. done. Qed.

Lemma local_store {R} d f (r : R) : store_local d f → local_step d (λ w, (with_store f w, r)).
Proof.
  intros [H1 H2]. split; [intros w x Hx; by apply H1|]. intros w w' [Hd Hs]. split; [|done].
  split; [done|]. by apply H2.
Qed.

(** A test that reads only what the step may read. *)
Lemma local_if {R} d (b : Worker D → bool) (F G : Worker D → Worker D * R) :
  (∀ w w', agree d w w' → b w = b w') → local_step d F → local_step d G →
  local_step d (λ w, if b w then F w else G w).
Proof.
  intros Hb [F1 F2] [G1 G2]. split.
  - intros w x Hx. destruct (b w); auto.
  - intros w w' Ha. rewrite <-(Hb w w' Ha). destruct (b w); auto.
Qed.

Lemma agree_in_tx d w w' : agree d w w' → IsInTransaction d (store w) = IsInTransaction d (store w').
Proof. intros [_ H]. by apply IsInTransaction_at. Qed.

Lemma HandleWatch_local env d cmd : local_step d (HandleWatch env d cmd).
Proof.
  unfold HandleWatch. apply local_if; [done|apply local_const|].
  apply local_if; [apply agree_in_tx|apply local_const|].
  assert (Hf : ∀ dbv, store_local d (λ st, foldl (λ st arg,
    match arg_type arg with
    | kBulkString => WatchKey d (arg_value arg) (db_version env (arg_value arg) dbv) st
    | _ => st end) st (cmd_args cmd))).
  { intros dbv. apply store_local_foldl. intros a. destruct (arg_type a); auto with local_ops. }
  split.
  - intros w x Hx. by apply (Hf (db w)).
  - intros w w' [Hd Hs]. rewrite Hd. split; [|done]. split; [done|]. by apply (Hf (db w')).
Qed.

Lemma run_handler_local env d cmd h : local_step d (run_handler env d cmd h).
Proof.
  destruct h as [| | | | |f]; cbn [run_handler].
  - unfold HandleMulti. apply local_if; [apply agree_in_tx|apply local_const|apply local_store; auto with local_ops].
  - unfold HandleExec. apply local_if; [intros w w' H; by rewrite (agree_in_tx d w w' H)|apply local_const|].
    apply local_store. apply (store_local_compose d (λ st, ClearWatchedKeys d (ClearQueuedCommands d st))); [|auto with local_ops].
    apply (store_local_compose d (ClearQueuedCommands d)); auto with local_ops.
  - unfold HandleDiscard. apply local_if; [intros w w' H; by rewrite (agree_in_tx d w w' H)|apply local_const|].
    apply local_store. auto with local_ops.
  - apply HandleWatch_local.
  - unfold HandleUnwatch. apply local_store. auto with local_ops.
  - split.
    + intros w x Hx. cbn [run_handler]. by destruct (f d cmd (db w)).
    + intros w w' [Hd Hs]. cbn [run_handler]. unfold agree. rewrite Hd. by destruct (f d cmd (db w')).
Qed.

Lemma RegistryExecute_local env d cmd : local_step d (RegistryExecute env d cmd).
Proof.
  unfold RegistryExecute. apply local_if; [done|apply local_const|]. cbv zeta.
  destruct (commands_ env !! _) as [e|]; [|apply local_const]. apply local_if; [done|apply local_const|].
  destruct (no_permission env _ cmd); [apply local_const|apply run_handler_local].
Qed.

Lemma ShardExecute_local env d cmd : local_step d (ShardExecute env d cmd).
Proof.
  unfold ShardExecute. apply local_if; [done|apply local_const|].
  destruct (RegistryExecute_local env d cmd) as [H1 H2]. split.
  - intros w x Hx. specialize (H1 w x Hx). by destruct (RegistryExecute env d cmd w) as [w1 []].
  - intros w w' Ha. destruct (H2 w w' Ha) as [Ha' Hr].
    destruct (RegistryExecute env d cmd w) as [w1 r1], (RegistryExecute env d cmd w') as [w2 r2].
    cbn [fst snd] in *. subst r2. by destruct r1.
Qed.

(** The loop of EXEC, with its items and actions as one result. *)
Lemma exec_queued_local env d queued :
  local_step d (λ w, let '(w, items, acts) := exec_queued env d queued w in (w, (items, acts))).
Proof.
  induction queued as [|cmd queued [IH1 IH2]]; [apply local_const|]. cbn [exec_queued].
  destruct (negb (is_first_key_local env cmd)).
  - split.
    + intros w x Hx. specialize (IH1 w x Hx). by destruct (exec_queued env d queued w) as [[w1 i1] a1].
    + intros w w' Ha. destruct (IH2 w w' Ha) as [Ha' Hr].
      destruct (exec_queued env d queued w) as [[w1 i1] a1], (exec_queued env d queued w') as [[w2 i2] a2].
      cbn [fst snd] in *. simplify_eq. done.
  - destruct (ShardExecute_local env d cmd) as [S1 S2]. split.
    + intros w x Hx. specialize (S1 w x Hx). destruct (ShardExecute env d cmd w) as [w0 item].
      specialize (IH1 w0 x Hx). destruct (exec_queued env d queued w0) as [[w1 i1] a1].
      cbn [fst] in *. congruence.
    + intros w w' Ha. destruct (S2 w w' Ha) as [Ha' Hr].
      destruct (ShardExecute env d cmd w) as [w0 item], (ShardExecute env d cmd w') as [w0' item'].
      cbn [fst snd] in *. subst item'. destruct (IH2 w0 w0' Ha') as [Ha'' Hr].
      destruct (exec_queued env d queued w0) as [[w1 i1] a1], (exec_queued env d queued w0') as [[w2 i2] a2].
      cbn [fst snd] in *. simplify_eq. done.
Qed.

(** EXEC inside a transaction. *)
Definition run_exec env (d : Z) w : Worker D * list action :=
  let queued := GetQueuedCommands d (store w) in
  let '(w, items, acts) := exec_queued env d queued (with_store (DiscardTransaction d) w) in
  (w, acts ++ [Respond d (build_exec_array_response items)]).

Lemma run_exec_local env d : local_step d (run_exec env d).
Proof.
  assert (Hdis := local_store (R := unit) d (DiscardTransaction d) tt (DiscardTransaction_local d)).
  destruct Hdis as [D1 D2]. unfold run_exec. split.
  - intros w x Hx. destruct (exec_queued_local env d (GetQueuedCommands d (store w))) as [E1 _].
    specialize (E1 (with_store (DiscardTransaction d) w) x Hx). specialize (D1 w x Hx).
    destruct (exec_queued _ _ _ _) as [[w1 i1] a1]. cbn [fst] in *. congruence.
  - intros w w' Ha. assert (Hq : GetQueuedCommands d (store w) = GetQueuedCommands d (store w')).
    { destruct Ha as [_ Hs]. unfold GetQueuedCommands. by rewrite Hs. }
    rewrite Hq. destruct (exec_queued_local env d (GetQueuedCommands d (store w'))) as [_ E2].
    destruct (D2 w w' Ha) as [Ha' _]. cbn [fst] in Ha'. specialize (E2 _ _ Ha').
    destruct (exec_queued _ _ _ (with_store _ w)) as [[w1 i1] a1], (exec_queued _ _ _ (with_store _ w')) as [[w2 i2] a2].
    cbn [fst snd] in *. destruct E2 as [E2 Hr]. simplify_eq. done.
Qed.

Lemma watched_at env d w w' :
  agree d w w' →
  IsWatchedKeyModified d (λ key, db_version env key (db w)) (store w) =
  IsWatchedKeyModified d (λ key, db_version env key (db w')) (store w').
Proof. intros [Hd Hs]. unfold IsWatchedKeyModified. by rewrite Hd, Hs. Qed.

Lemma process_client_local env d cmd : local_step d (process_client env d cmd).
Proof.
  unfold process_client. cbv zeta.
  apply local_if; [intros w w' H; by rewrite (agree_in_tx d w w' H)| |].
  { apply local_if; [done|apply local_const|apply local_store; auto with local_ops]. }
  apply local_if; [done|apply local_const|].
  apply local_if; [intros w w' H; by rewrite (agree_in_tx d w w' H)| |].
  { apply local_if; [intros w w' H; by apply watched_at|apply local_store; auto with local_ops|].
    apply (run_exec_local env d). }
  apply local_if; [done| |apply local_const].
  destruct (ShardExecute_local env d cmd) as [H1 H2]. split.
  - intros w x Hx. specialize (H1 w x Hx). by destruct (ShardExecute env d cmd w).
  - intros w w' Ha. destruct (H2 w w' Ha) as [Ha' Hr].
    destruct (ShardExecute env d cmd w) as [w1 r1], (ShardExecute env d cmd w') as [w2 r2].
    cbn [fst snd] in *. by subst.
Qed.

(** ** Traces *)

Definition others (c : Z) (trace : list (Z * Command)) : list (Z * Command) :=
  filter (λ p : Z * Command, p.1 ≠ c) trace.
Definition own (c : Z) (trace : list (Z * Command)) : list Command :=
  snd <$> filter (λ p : Z * Command, p.1 = c) trace.

(** The two workers differ at most in the state of connection [c]. *)
Definition same_but (c : Z) w w' : Prop := db w = db w' ∧ ∀ x, x ≠ c → store w !! x = store w' !! x.

Lemma run_clients_cons env id cmd trace w :
  (run_clients env ((id, cmd) :: trace) w).1 = (run_clients env trace (process_client env id cmd w).1).1.
Proof.
  cbn [run_clients]. destruct (process_client env id cmd w) as [w1 a1]. cbn [fst].
  by destruct (run_clients env trace w1).
Qed.

Lemma run_clients_snoc env trace id cmd w :
  run_clients env (trace ++ [(id, cmd)]) w =
  ((process_client env id cmd (run_clients env trace w).1).1,
   (run_clients env trace w).2 ++ (process_client env id cmd (run_clients env trace w).1).2).
Proof.
  revert w. induction trace as [|[id' cmd'] trace IH]; intros w; cbn [app run_clients fst snd].
  - destruct (process_client env id cmd w) as [w1 a1]. cbn [fst snd app]. by rewrite app_nil_r.
  - destruct (process_client env id' cmd' w) as [w1 a1]. rewrite IH.
    destruct (run_clients env trace w1) as [w2 a2]. cbn [fst snd]. by rewrite app_assoc.
Qed.

(** A step of another connection. *)
Lemma other_step env c d cmd w w' :
  d ≠ c → same_but c w w' →
  same_but c (process_client env d cmd w).1 (process_client env d cmd w').1 ∧
  store (process_client env d cmd w).1 !! c = store w !! c.
Proof.
  intros Hd [Hdb Hs]. destruct (process_client_local env d cmd) as [L1 L2].
  destruct (L2 w w') as [[Hdb' Hs'] _]; [by split; [|apply Hs]|]. split; [split; [done|]|by apply L1].
  intros x Hx. destruct (decide (x = d)) as [->|Hne]; [done|]. by rewrite !L1, Hs.
Qed.

(** A command that is queued. *)
Lemma queue_step env c cmd w s :
  store w !! c = Some s → in_transaction s = true →
  is_transaction_control (cmd_name cmd) = false → is_first_key_local env cmd = true →
  process_client env c cmd w =
    (with_store (QueueCommand c cmd) w, [Respond c (BuildSimpleString (B "QUEUED"))]).
Proof.
  intros Hs Ht Hc Hl. unfold process_client, IsInTransaction. cbv zeta. by rewrite Hs, Ht, Hc, Hl.
Qed.

Lemma transaction_body env c mid : ∀ w w' s,
  store w !! c = Some s → in_transaction s = true → same_but c w w' →
  (∀ cmd, (c, cmd) ∈ mid → is_transaction_control (cmd_name cmd) = false ∧ is_first_key_local env cmd = true) →
  same_but c (run_clients env mid w).1 (run_clients env (others c mid) w').1 ∧
  store (run_clients env mid w).1 !! c =
    Some (MkTx true (queued_commands s ++ own c mid) (watched_keys s) (watched_key_versions s)).
Proof.
  induction mid as [|[d cmd] mid IH]; intros w w' s Hs Ht Hsame Hq.
  { cbn [run_clients others own filter fst]. split; [done|]. rewrite Hs. unfold own. simpl.
    rewrite app_nil_r. destruct s. simpl in *. by subst. }
  assert (Hq' : ∀ cmd, (c, cmd) ∈ mid → is_transaction_control (cmd_name cmd) = false ∧ is_first_key_local env cmd = true)
    by (intros; apply Hq; set_solver).
  rewrite run_clients_cons. unfold others, own. rewrite !filter_cons. cbn [fst].
  destruct (decide (d = c)) as [->|Hne].
  - rewrite (decide_False (P := c ≠ c)) by (intros H; by apply H).
    destruct (Hq cmd ltac:(set_solver)) as [H1 H2]. rewrite (queue_step env c cmd w s) by done.
    cbn [fst fmap list_fmap snd]. fold (others c mid).
    destruct (IH (with_store (QueueCommand c cmd) w) w'
      (MkTx true (queued_commands s ++ [cmd]) (watched_keys s) (watched_key_versions s))) as [I1 I2]; try done.
    + unfold with_store, QueueCommand, get_state. cbn [store]. rewrite lookup_insert_eq, Hs. simpl. by rewrite Ht.
    + destruct Hsame as [Hdb Hst]. split; [done|]. intros x Hx. cbn [store with_store].
      rewrite QueueCommand_other by done. by apply Hst.
    + split; [exact I1|]. rewrite I2. cbn [queued_commands watched_keys watched_key_versions].
      by rewrite <-app_assoc.
  - rewrite (decide_True (P := d ≠ c)) by done. rewrite run_clients_cons. fold (others c mid). fold (own c mid).
    destruct (other_step env c d cmd w w' Hne Hsame) as [H1 H2]. apply IH; try done. by rewrite H2.
Qed.

(** EXEC in a transaction. *)
Lemma exec_step env c exec w s :
  store w !! c = Some s → in_transaction s = true → is_command_name (cmd_name exec) (B "EXEC") = true →
  process_client env c exec w =
    if IsWatchedKeyModified c (λ key, db_version env key (db w)) (store w)
    then (with_store (DiscardTransaction c) w, [Respond c BuildNullArray])
    else run_exec env c w.
Proof.
  intros Hs Ht He. unfold process_client. cbv zeta.
  assert (Hc : is_transaction_control (cmd_name exec) = true)
    by (unfold is_transaction_control; rewrite He; by rewrite orb_true_r).
  assert (Hw : is_command_name (cmd_name exec) (B "WATCH") = false).
  { unfold is_command_name in *. apply bool_decide_eq_true in He. apply bool_decide_eq_false. by rewrite He. }
  unfold IsInTransaction at 1 2. rewrite Hs, Ht, Hc, Hw, He. done.
Qed.

(** ** The invariant of the transaction states *)

Lemma IsInTransaction_WatchKey id key v st : IsInTransaction id (WatchKey id key v st) = IsInTransaction id st.
Proof.
  unfold IsInTransaction, WatchKey, get_state. cbv zeta. rewrite lookup_insert_eq. by destruct (st !! id).
Qed.

Lemma watch_loop_ok env id (d : D) args : ∀ st,
  store_ok st → IsInTransaction id st = false →
  store_ok (foldl (λ st arg, match arg_type arg with
    | kBulkString => WatchKey id (arg_value arg) (db_version env (arg_value arg) d) st
    | _ => st end) st args).
Proof.
  induction args as [|a args IH]; intros st Hst Hin; cbn [foldl]; [done|].
  destruct (arg_type a); apply IH; rewrite ?IsInTransaction_WatchKey; auto.
Qed.

Lemma run_handler_ok env id cmd h w : store_ok (store w) → store_ok (store (run_handler env id cmd h w).1).
Proof.
  intros H. destruct h as [| | | | |f]; cbn [run_handler].
  - unfold HandleMulti. destruct (IsInTransaction _ _); cbn; auto.
  - unfold HandleExec. destruct (negb _); cbn; auto.
  - unfold HandleDiscard. destruct (negb _); cbn; auto.
  - unfold HandleWatch. destruct (_ <? _); [done|]. destruct (IsInTransaction _ _) eqn:E; [done|].
    by apply watch_loop_ok.
  - unfold HandleUnwatch. cbn. auto.
  - by destruct (f id cmd (db w)).
Qed.

Lemma ShardExecute_ok env id cmd w : store_ok (store w) → store_ok (store (ShardExecute env id cmd w).1).
Proof.
  intros H. unfold ShardExecute. destruct (negb _); [done|].
  assert (HR : store_ok (store (RegistryExecute env id cmd w).1)).
  { unfold RegistryExecute. case_bool_decide; [done|]. cbv zeta. destruct (commands_ env !! _) as [e|]; [|done].
    destruct (wrong_arity e cmd); [done|]. destruct (no_permission _ _ _); [done|]. by apply run_handler_ok. }
  by destruct (RegistryExecute env id cmd w) as [w1 []].
Qed.

Lemma exec_queued_ok env id queued : ∀ w,
  store_ok (store w) → store_ok (store (exec_queued env id queued w).1.1).
Proof.
  induction queued as [|cmd queued IH]; intros w H; [done|]. cbn [exec_queued]. destruct (negb _).
  - specialize (IH w H). by destruct (exec_queued env id queued w) as [[w1 i1] a1].
  - assert (HS := ShardExecute_ok env id cmd w H). destruct (ShardExecute env id cmd w) as [w0 item].
    specialize (IH w0 HS). by destruct (exec_queued env id queued w0) as [[w1 i1] a1].
Qed.

Lemma exec_queued_length env id queued : ∀ w, length (exec_queued env id queued w).1.2 = length queued.
Proof.
  induction queued as [|cmd queued IH]; intros w; [done|]. cbn [exec_queued]. destruct (negb _).
  - specialize (IH w). destruct (exec_queued env id queued w) as [[w1 i1] a1]. cbn in *. by rewrite IH.
  - destruct (ShardExecute env id cmd w) as [w0 item]. specialize (IH w0).
    destruct (exec_queued env id queued w0) as [[w1 i1] a1]. cbn in *. by rewrite IH.
Qed.

Lemma process_client_ok env id cmd w : store_ok (store w) → store_ok (store (process_client env id cmd w).1).
Proof.
  intros H. unfold process_client. cbv zeta. destruct (IsInTransaction id (store w)) eqn:E; cbn [andb].
  - destruct (negb (is_transaction_control _)).
    { destruct (negb _); cbn; auto. }
    destruct (_ && negb (are_watch_keys_local _ _)); [done|]. rewrite andb_true_r.
    destruct (is_command_name _ (B "EXEC")).
    + destruct (IsWatchedKeyModified _ _ _); [cbn; auto|].
      assert (HE : store_ok (store (exec_queued env id (GetQueuedCommands id (store w)) (with_store (DiscardTransaction id) w)).1.1))
        by (apply exec_queued_ok; cbn; auto).
      by destruct (exec_queued _ _ _ _) as [[w1 i1] a1].
    + destruct (_ =? _)%Z; [|done]. assert (HS := ShardExecute_ok env id cmd w H). by destruct (ShardExecute _ _ _ _).
  - destruct (_ && negb (are_watch_keys_local _ _)); [done|]. rewrite andb_false_r.
    destruct (_ =? _)%Z; [|done]. assert (HS := ShardExecute_ok env id cmd w H). by destruct (ShardExecute _ _ _ _).
Qed.

Lemma run_clients_ok env trace : ∀ w, store_ok (store w) → store_ok (store (run_clients env trace w).1).
Proof.
  induction trace as [|[id cmd] trace IH]; intros w H; [done|]. rewrite run_clients_cons.
  by apply IH, process_client_ok.
Qed.

Lemma run_clients_others env c trace : ∀ w,
  (∀ p, p ∈ trace → p.1 ≠ c) → store (run_clients env trace w).1 !! c = store w !! c.
Proof.
  induction trace as [|[id cmd] trace IH]; intros w H; [done|]. rewrite run_clients_cons, IH by set_solver.
  apply process_client_local. assert (Hc := H (id, cmd) ltac:(set_solver)). cbn in Hc. congruence.
Qed.

(** The versions WATCH notes. *)
Lemma watch_loop_versions env id (d : D) ks : ∀ st,
  let st' := foldl (λ st arg, match arg_type arg with
    | kBulkString => WatchKey id (arg_value arg) (db_version env (arg_value arg) d) st
    | _ => st end) st (map (λ k, MkArg kBulkString k) ks) in
  watched_key_versions (get_state id st') =
  foldl (λ m k, <[k := db_version env k d]> m) (watched_key_versions (get_state id st)) ks.
Proof.
  cbv zeta. induction ks as [|k ks IH]; intros st; [done|]. cbn [map foldl arg_type arg_value]. rewrite IH.
  f_equal. unfold WatchKey, get_state. cbv zeta. by rewrite lookup_insert_eq.
Qed.

Lemma foldl_insert_lookup (f : bytes → Z) ks : ∀ (m : gmap bytes Z) k,
  foldl (λ m k, <[k := f k]> m) m ks !! k = if bool_decide (k ∈ ks) then Some (f k) else m !! k.
Proof.
  induction ks as [|k' ks IH]; intros m k; cbn [foldl].
  - by rewrite bool_decide_eq_false_2 by set_solver.
  - rewrite IH. destruct (decide (k ∈ ks)) as [Hk|Hk].
    + by rewrite !bool_decide_eq_true_2 by set_solver.
    + rewrite (bool_decide_eq_false_2 (k ∈ ks)) by done. destruct (decide (k = k')) as [->|Hne].
      * by rewrite lookup_insert_eq, bool_decide_eq_true_2 by set_solver.
      * by rewrite lookup_insert_ne, bool_decide_eq_false_2 by set_solver.
Qed.

(** ** The contract *)

Lemma exec_after_body env c w1 w2 queue :
  same_but c w1 w2 →
  let r1 := exec_queued env c queue (with_store (DiscardTransaction c) w1) in
  let r2 := exec_queued env c queue (with_store (DiscardTransaction c) w2) in
  db r1.1.1 = db r2.1.1 ∧ r1.1.2 = r2.1.2 ∧ r1.2 = r2.2.
Proof.
  intros [Hdb _]. cbv zeta. destruct (exec_queued_local env c queue) as [_ L].
  destruct (L (with_store (DiscardTransaction c) w1) (with_store (DiscardTransaction c) w2)) as [[Hd _] Hr].
  { split; [done|]. cbn [store with_store]. unfold DiscardTransaction. by rewrite !lookup_delete_eq. }
  destruct (exec_queued _ _ _ (with_store _ w1)) as [[v1 i1] a1], (exec_queued _ _ _ (with_store _ w2)) as [[v2 i2] a2].
  cbn [fst snd] in *. by simplify_eq.
Qed.

(** C6. Transactions are serial: while connection [c] is inside MULTI, its
    commands interleaved with those of any other connections have no effect, and
    at EXEC the outcome is that of the other connections' commands run without
    [c], followed by the queued commands of [c] back to back in the order they
    were sent, answered by one array with an item for each; or, when a watched key
    has another version by then, nothing but a null array and the end of the
    transaction. *)
Theorem transactions_serial env c mid exec w s :
  store w !! c = Some s → in_transaction s = true →
  (∀ cmd, (c, cmd) ∈ mid → is_transaction_control (cmd_name cmd) = false ∧ is_first_key_local env cmd = true) →
  is_command_name (cmd_name exec) (B "EXEC") = true →
  let without := (run_clients env (others c mid) w).1 in
  let before := (run_clients env mid w).2 in
  let after := run_clients env (mid ++ [(c, exec)]) w in
  if IsWatchedKeyModified c (λ key, db_version env key (db without)) (store w)
  then db after.1 = db without ∧ store after.1 !! c = None ∧ after.2 = before ++ [Respond c BuildNullArray]
  else let '(result, items, acts) :=
         exec_queued env c (queued_commands s ++ own c mid) (with_store (DiscardTransaction c) without) in
       db after.1 = db result ∧
       length items = length (queued_commands s) + length (own c mid) ∧
       after.2 = before ++ acts ++ [Respond c (build_exec_array_response items)].
Proof.
  intros Hs Ht Hq He. cbv zeta. rewrite run_clients_snoc. cbn [fst snd].
  destruct (transaction_body env c mid w w s Hs Ht) as [Hsame Hc]; [done|done|].
  rewrite (exec_step env c exec _ _ Hc) by done.
  assert (Hw : IsWatchedKeyModified c (λ key, db_version env key (db (run_clients env mid w).1)) (store (run_clients env mid w).1) =
    IsWatchedKeyModified c (λ key, db_version env key (db (run_clients env (others c mid) w).1)) (store w)).
  { unfold IsWatchedKeyModified. rewrite Hc, Hs. cbn [watched_keys watched_key_versions]. by rewrite (proj1 Hsame). }
  rewrite Hw. clear Hw. set (modified := IsWatchedKeyModified c _ (store w)). destruct modified.
  { cbn [fst snd db store with_store]. split; [apply Hsame|]. split; [apply lookup_delete_eq|done]. }
  unfold run_exec, GetQueuedCommands. rewrite Hc. cbn [queued_commands].
  destruct (exec_after_body env c _ _ (queued_commands s ++ own c mid) Hsame) as (E1 & E2 & E3).
  assert (Hlen : length (exec_queued env c (queued_commands s ++ own c mid)
     (with_store (DiscardTransaction c) (run_clients env (others c mid) w).1)).1.2 = length (queued_commands s ++ own c mid))
    by apply exec_queued_length.
  destruct (exec_queued _ _ _ (with_store _ (run_clients env mid w).1)) as [[v1 i1] a1].
  destruct (exec_queued _ _ _ (with_store _ _)) as [[v2 i2] a2]. cbn [fst snd] in *. subst i2 a2.
  rewrite length_app in Hlen. done.
Qed.

(** C15. WATCH is an optimistic lock: after WATCH of some keys, whatever the other
    connections do in between, EXEC finds a watched key modified exactly when the
    version of one of these keys in the database is no longer the one it had when
    it was watched. *)
Theorem watch_detects env c cmd ks trace w :
  store_ok (store w) → store w !! c = None →
  cmd_args cmd = map (λ k, MkArg kBulkString k) ks → ks ≠ [] → (∀ p, p ∈ trace → p.1 ≠ c) →
  let w' := (run_clients env trace (HandleWatch env c cmd w).1).1 in
  IsWatchedKeyModified c (λ key, db_version env key (db w')) (store w') = true ↔
  ∃ k, k ∈ ks ∧ db_version env k (db w') ≠ db_version env k (db w).
Proof.
  intros Hok Hc Hargs Hks Htr. cbv zeta.
  assert (Hok1 : store_ok (store (HandleWatch env c cmd w).1)) by apply (run_handler_ok env c cmd HWatch w Hok).
  rewrite (IsWatchedKeyModified_spec c _ _ (run_clients_ok env trace _ Hok1)), run_clients_others by done.
  set (d' := db _). assert (Hv : watched_key_versions (get_state c (store (HandleWatch env c cmd w).1)) =
    foldl (λ m k, <[k := db_version env k (db w)]> m) ∅ ks).
  { unfold HandleWatch. rewrite Hargs, length_map. destruct ks as [|k ks']; [done|]. cbn [length].
    destruct (_ <? 1) eqn:E; [by apply Nat.ltb_lt in E; lia|]. unfold IsInTransaction. rewrite Hc.
    cbn [fst store with_store]. rewrite watch_loop_versions. unfold get_state. by rewrite Hc. }
  unfold get_state in Hv. split.
  - intros (s & k & v & E & Hk & Hne). rewrite E in Hv. cbn in Hv. rewrite Hv, foldl_insert_lookup in Hk.
    case_bool_decide; [|by rewrite lookup_empty in Hk]. exists k. split; [done|]. congruence.
  - intros (k & Hk & Hne). destruct (store (HandleWatch env c cmd w).1 !! c) as [s|].
    + exists s, k, (db_version env k (db w)). split_and!; [done| |done]. cbn in Hv.
      by rewrite Hv, foldl_insert_lookup, bool_decide_eq_true_2.
    + exfalso. apply (f_equal (λ m, m !! k)) in Hv. rewrite foldl_insert_lookup, bool_decide_eq_true_2 in Hv by done.
      cbn in Hv. by rewrite lookup_empty in Hv.
Qed.

(** C17. Along every sequence of commands of clients the transaction states stay
    well formed: each watched key has its version, commands are queued only inside
    MULTI, and a connection outside MULTI with nothing watched has no entry; so a
    connection that has just ended its transaction by EXEC or DISCARD leaves
    nothing behind. *)
Theorem transaction_states_ok env trace w :
  store_ok (store w) →
  store_ok (store (run_clients env trace w).1) ∧
  ∀ c s, store (run_clients env trace w).1 !! c = Some s →
    in_transaction s = true ∨ (queued_commands s = [] ∧ ∃ k v, watched_key_versions s !! k = Some v).
Proof.
  intros H. assert (H' := run_clients_ok env trace w H). split; [done|]. intros c s Hs.
  destruct (H' c s Hs) as [Hd Hq]. destruct (in_transaction s); [by left|right].
  destruct (Hq eq_refl) as [Hqueue Hne]. split; [done|]. apply set_choose_L in Hne as [k Hk].
  rewrite <-Hd in Hk. apply elem_of_dom in Hk as [v Hv]. by exists k, v.
Qed.
End Locality.

(** ** A small configuration

    SET and INCR on a map from keys to numbers, where the version of a key is
    the number; one worker. *)
#[local] Instance small_text : DoubleText := {| dtoa _ := []; atod _ := None |}.

Definition arg (k : string) : CommandArg := MkArg kBulkString (B k).
Definition small_incr (_ : Z) (cmd : Command) (d : gmap bytes Z) : gmap bytes Z * outcome :=
  match cmd_args cmd with
  | a :: _ => let v := (default 0 (d !! arg_value a) + 1)%Z in
      (<[arg_value a := v]> d, Returned (Success (MkResp kInteger (VInt v))))
  | [] => (d, Threw (B "no key"))
  end.
Definition small_env : Env (gmap bytes Z) :=
  MkEnv (gmap bytes Z) {[ B "INCR" := MkEntry 2 ByFirstKey true (HData small_incr);
           B "MULTI" := MkEntry 1 RouteNone false HMulti;
           B "EXEC" := MkEntry 1 RouteNone false HExec;
           B "WATCH" := MkEntry (-2) RouteNone false HWatch ]}
    (λ k d, default 0%Z (d !! k)) None (λ _, []) 0 (λ _, 0%Z) true.
Definition incr (k : string) : Command := MkCommand (B "incr") [arg k].
Definition exec_cmd : Command := MkCommand (B "exec") [].
Definition small_tx : TransactionState := MkTx true [incr "a"] {[B "w"]} {[B "w" := 0%Z]}.
Definition small_mid : list (Z * Command) := [(2%Z, incr "a"); (1%Z, incr "b"); (2%Z, incr "b"); (1%Z, incr "a")].
Definition small_worker : Worker (gmap bytes Z) := MkWorker ∅ {[1%Z := small_tx]}.

Lemma transactions_serial_witness :
  let after := run_clients small_env (small_mid ++ [(1%Z, exec_cmd)]) small_worker in
  db after.1 !! B "a" = Some 3%Z ∧ db after.1 !! B "b" = Some 2%Z ∧
  last after.2 = Some (Respond 1 (B "*3" ++ CRLF ++ B ":2" ++ CRLF ++ B ":2" ++ CRLF ++ B ":3" ++ CRLF)).
Proof.
  assert (HW : IsWatchedKeyModified 1 (λ key, db_version small_env key (db (run_clients small_env (others 1 small_mid) small_worker).1))
    (store small_worker) = false) by (vm_compute; reflexivity).
  pose proof (transactions_serial small_env 1 small_mid exec_cmd small_worker small_tx) as H.
  cbv zeta in H |- *. rewrite HW in H. clear HW.
  set (r := exec_queued small_env 1 _ _) in H.
  assert (Hr : db r.1.1 !! B "a" = Some 3%Z ∧ db r.1.1 !! B "b" = Some 2%Z ∧
    build_exec_array_response r.1.2 = B "*3" ++ CRLF ++ B ":2" ++ CRLF ++ B ":2" ++ CRLF ++ B ":3" ++ CRLF)
    by (vm_compute; auto).
  clearbody r. destruct r as [[result items] acts]. cbn [fst snd] in Hr. destruct Hr as (Ea & Eb & Ei).
  destruct H as (H1 & _ & H3).
  - reflexivity.
  - reflexivity.
  - intros cmd Hc. apply list_elem_of_In in Hc. cbn in Hc. destruct Hc as [|[|[|[|[]]]]]; simplify_eq; by vm_compute.
  - by vm_compute.
  - rewrite H1, H3, app_assoc, last_snoc, Ei. auto.
Defined.

Lemma watch_detects_witness :
  let cmd := MkCommand (B "WATCH") [arg "x"; arg "y"] in
  let w' := (run_clients small_env [(2%Z, incr "y")] (HandleWatch small_env 1 cmd (MkWorker ∅ ∅)).1).1 in
  IsWatchedKeyModified 1 (λ key, db_version small_env key (db w')) (store w') = true.
Proof.
  cbv zeta. apply (watch_detects small_env 1 (MkCommand (B "WATCH") [arg "x"; arg "y"]) [B "x"; B "y"] [(2%Z, incr "y")] (MkWorker ∅ ∅)).
  - apply map_Forall_empty.
  - reflexivity.
  - reflexivity.
  - done.
  - intros p Hp. apply list_elem_of_singleton in Hp as ->. done.
  - exists (B "y"). split; [set_solver|]. vm_compute. discriminate.
Defined.

Lemma transaction_states_ok_witness :
  store_ok (store (run_clients small_env (small_mid ++ [(1%Z, exec_cmd)]) (MkWorker ∅ ∅)).1).
Proof. apply (transaction_states_ok small_env). apply map_Forall_empty. Defined.
