(* ===== verification/Text.v ===== *)
(** * Doubles and text

    What the sources use of [double] arithmetic: conversions from and to
    64-bit integers, products and sums, in the binary64 format of the Standard
    Library's [SpecFloat]. *)
From Stdlib Require Import SpecFloat.
From S2P Require Import Prelude.
From S2P Require Import Simd.
From S2P Require Import Numbers.

Definition double_prec : Z := 53.
Definition double_emax : Z := 1024.

(** [static_cast<double>(n)]: the nearest double, ties to even. *)
Definition double_of_Z (n : Z) : spec_float := binary_normalize double_prec double_emax n 0 false.

Definition double_mul (x y : spec_float) : spec_float := SFmul double_prec double_emax x y.
Definition double_add (x y : spec_float) : spec_float := SFadd double_prec double_emax x y.
Definition double_div (x y : spec_float) : spec_float := SFdiv double_prec double_emax x y.

(** The value cut towards zero, [None] for an infinity or NaN. *)
Definition double_trunc (x : spec_float) : option Z :=
  match x with
  | S754_zero _ => Some 0%Z
  | S754_finite sign m e =>
      let magnitude := if (0 <=? e)%Z then (Zpos m * 2 ^ e)%Z else (Zpos m / 2 ^ (- e))%Z in
      Some (if sign then (- magnitude)%Z else magnitude)
  | _ => None
  end.

(** [static_cast<uint64_t>(x)] for a value in range; a value out of range is
    undefined in the source and zero here. *)
Definition double_to_u64 (x : spec_float) : Z :=
  match double_trunc x with
  | Some z => if (0 <=? z)%Z && (z <? 2 ^ 64)%Z then z else 0%Z
  | None => 0%Z
  end.

Definition double_lt (x y : spec_float) : bool := SFltb x y.
Definition double_le (x y : spec_float) : bool := SFleb x y.

(** The literals [0.8], [0.9], [0.067] and [1.0]. *)
Definition d0_8 : spec_float := S754_finite false 7205759403792794 (-53).
Definition d0_9 : spec_float := S754_finite false 8106479329266893 (-53).
Definition d0_067 : spec_float := S754_finite false 4827858800541172 (-56).
Definition d1_0 : spec_float := S754_finite false 4503599627370496 (-52).
Definition d0_0 : spec_float := S754_zero false.

(** [n * f] for an unsigned integer and a double, cut to an integer. *)
Definition scaled (n : Z) (f : spec_float) : Z := double_to_u64 (double_mul (double_of_Z n) f).

Lemma scaled_range n f : in_u64 (scaled n f).
Proof.
  unfold scaled, double_to_u64. destruct (double_trunc _) as [z|]; [|done].
  destruct ((0 <=? z)%Z && (z <? 2 ^ 64)%Z) eqn:E; [|done]. b2p. done.
Qed.

(** ** Text utilities

    What the sources use of [std::stoull], of the search and substring operations
    of [std::string], and of the splitting of strings.  [absl::SimpleAtoi] is
    third-party code: the class [AbslNumbers], with the laws its documentation
    gives, and one instance that has them. *)

(** ** Splitting *)

(** [absl::StrSplit(s, c)]: the pieces between the separators, one more than
    there are separators. *)
Fixpoint split_on (c : ascii) (s : bytes) : list bytes :=
  match s with
  | [] => [[]]
  | x :: s =>
      if decide (x = c) then [] :: split_on c s
      else match split_on c s with
           | p :: ps => (x :: p) :: ps
           | [] => [[x]]
           end
  end.

(** [absl::SkipEmpty()] *)
Definition skip_empty (l : list bytes) : list bytes := filter (λ p, p ≠ []) l.

(** [s.find(c)] *)
Fixpoint find_char (c : ascii) (s : bytes) : option nat :=
  match s with
  | [] => None
  | x :: s => if decide (x = c) then Some 0 else S <$> find_char c s
  end.

(** [s.substr(pos, n)] for a [pos] inside the string. *)
Definition substr (pos n : nat) (s : bytes) : bytes := take n (drop pos s).

(** ** Numbers *)

(** [absl::ascii_isspace] and [std::isspace] in the C locale. *)
Definition is_space (c : ascii) : bool :=
  (code c =? 32)%Z || ((9 <=? code c)%Z && (code c <=? 13)%Z).

Fixpoint skip_spaces (s : bytes) : bytes :=
  match s with c :: s' => if is_space c then skip_spaces s' else s | [] => [] end.

Definition strip_spaces (s : bytes) : bytes := reverse (skip_spaces (reverse (skip_spaces s))).

(** An optional sign. *)
Definition take_sign (s : bytes) : bool * bytes :=
  match s with
  | c :: s' => if ascii_eqb c "-" then (true, s') else if ascii_eqb c "+" then (false, s') else (false, s)
  | [] => (false, [])
  end.

(** [absl::SimpleAtoi] for [int64_t] and for [uint64_t]; [None] when it reports
    failure. *)
Class AbslNumbers := { SimpleAtoi : bytes → option Z; SimpleAtou : bytes → option Z }.

(** Digits read as their value while it fits, a printed number as itself, and a
    result fits. *)
Class AbslNumbersOk `{!AbslNumbers} : Prop := {
  SimpleAtoi_digits ds :
    all_digits ds → ds ≠ [] → (digits_value 0 ds < 2 ^ 63)%Z → SimpleAtoi ds = Some (digits_value 0 ds);
  SimpleAtoi_print n : in_i64 n → SimpleAtoi (print_int n) = Some n;
  SimpleAtoi_range s n : SimpleAtoi s = Some n → in_i64 n;
  SimpleAtou_digits ds :
    all_digits ds → ds ≠ [] → (digits_value 0 ds < 2 ^ 64)%Z → SimpleAtou ds = Some (digits_value 0 ds);
  SimpleAtou_range s n : SimpleAtou s = Some n → in_u64 n
}.

(** Spaces around, an optional sign, and nothing but digits that make a number in
    range. *)
Definition decimal_atoi (s : bytes) : option Z :=
  let '(negative, ds) := take_sign (strip_spaces s) in
  match span_digits ds with
  | ((_ :: _) as ds, []) =>
      let v := if negative then (- digits_value 0 ds)%Z else digits_value 0 ds in
      if (- 2 ^ 63 <=? v)%Z && (v <? 2 ^ 63)%Z then Some v else None
  | _ => None
  end.
(** The same without a minus sign. *)
Definition decimal_atou (s : bytes) : option Z :=
  let '(negative, ds) := take_sign (strip_spaces s) in
  match span_digits ds with
  | ((_ :: _) as ds, []) =>
      if negb negative && (digits_value 0 ds <? 2 ^ 64)%Z then Some (digits_value 0 ds) else None
  | _ => None
  end.
Definition decimal_numbers : AbslNumbers := {| SimpleAtoi := decimal_atoi; SimpleAtou := decimal_atou |}.

(** [std::stoull]: leading spaces, an optional sign, digits and then anything.
    It throws when there is no digit or the number needs more than 64 bits; a
    minus sign negates modulo [2 ^ 64]. *)
Definition stoull (s : bytes) : option Z :=
  let '(negative, ds) := take_sign (skip_spaces s) in
  match span_digits ds with
  | ([], _) => None
  | (ds, _) =>
      let v := digits_value 0 ds in
      if (v <? 2 ^ 64)%Z then Some (if negative then u64 (- v) else v) else None
  end.

(** [std::strtoll] in base ten, on the bytes before the first zero: the number
    when the text ends after its digits; one that needs more than 64 bits is the
    nearest that fits. *)
Definition clamp_i64 (v : Z) : Z := Z.max (- 2 ^ 63) (Z.min (2 ^ 63 - 1) v).
Definition strtoll (s : bytes) : option Z :=
  let '(negative, ds) := take_sign (skip_spaces s) in
  match span_digits ds with
  | ([], _) => None
  | (ds, rest) =>
      if match rest with [] => true | c :: _ => ascii_eqb c "000" end
      then Some (clamp_i64 (if negative then - digits_value 0 ds else digits_value 0 ds)) else None
  end.

(** [std::stoll]: anything may follow the digits; it throws when there is no digit
    or the number does not fit. *)
Definition stoll (s : bytes) : option Z :=
  let '(negative, ds) := take_sign (skip_spaces s) in
  match span_digits ds with
  | ([], _) => None
  | (ds, _) =>
      let v := if negative then (- digits_value 0 ds)%Z else digits_value 0 ds in
      if (- 2 ^ 63 <=? v)%Z && (v <? 2 ^ 63)%Z then Some v else None
  end.

(** [absl::StrCat] of a [uint64_t], which has at most twenty digits. *)
Definition print_u64 (n : Z) : bytes := decimal 20 n.

(** ** Lemmas *)

Lemma span_digits_all ds : all_digits ds → span_digits ds = (ds, []).
Proof. intros H. rewrite <-(app_nil_r ds) at 1. by apply span_digits_app. Qed.

Lemma digit_not_space c : is_digit c = true → is_space c = false.
Proof.
  unfold is_digit, is_space. change (code "0") with 48%Z. change (code "9") with 57%Z. intros H. b2p.
  destruct (code c =? 32)%Z eqn:E1; b2p; [lia|]. destruct (code c <=? 13)%Z eqn:E2; b2p; [lia|].
  by rewrite andb_false_r.
Qed.

(** Nothing to strip from a text without spaces at its ends. *)
Lemma skip_spaces_id s : (∀ c, head s = Some c → is_space c = false) → skip_spaces s = s.
Proof. destruct s as [|c s]; [done|]. intros H. cbn. by rewrite (H c eq_refl). Qed.

Lemma strip_spaces_id s :
  Forall (λ c, is_space c = false) s → strip_spaces s = s.
Proof.
  intros H. assert (Hh : ∀ l, Forall (λ c, is_space c = false) l → skip_spaces l = l).
  { intros l Hl. apply skip_spaces_id. intros c Hc. destruct Hl as [|x l Hx _]; [done|]. by injection Hc as <-. }
  unfold strip_spaces. rewrite (Hh s H), (Hh (reverse s)) by (by apply Forall_reverse). apply reverse_involutive.
Qed.

Lemma digits_no_space ds : all_digits ds → Forall (λ c, is_space c = false) ds.
Proof. intros H. eapply Forall_impl; [exact H|]. intros c. apply digit_not_space. Qed.

(** An unsigned decimal reads as its value. *)
Lemma take_sign_digits ds : all_digits ds → take_sign ds = (false, ds).
Proof.
  destruct 1 as [|c ds Hc _]; [done|]. unfold take_sign, ascii_eqb.
  rewrite !(bool_decide_eq_false_2 (c = _)) by (by intros ->). done.
Qed.

Lemma digits_value_nonneg ds : all_digits ds → ∀ acc, (0 ≤ acc)%Z → (0 ≤ digits_value acc ds)%Z.
Proof.
  induction 1 as [|c ds Hc _ IH]; intros acc Ha; [done|]. apply IH. apply digit_range in Hc. lia.
Qed.

Lemma decimal_atoi_digits ds :
  all_digits ds → ds ≠ [] → (digits_value 0 ds < 2 ^ 63)%Z → decimal_atoi ds = Some (digits_value 0 ds).
Proof.
  intros Hd Hne Hlt. assert (Hge := digits_value_nonneg ds Hd 0 ltac:(lia)). unfold decimal_atoi.
  rewrite strip_spaces_id by (by apply digits_no_space). rewrite take_sign_digits, span_digits_all by done.
  destruct ds as [|c ds]; [done|].
  destruct (_ && _) eqn:E; [done|]. apply andb_false_iff in E as [E|E]; b2p; lia.
Qed.

Lemma decimal_atoi_print n : in_i64 n → decimal_atoi (print_int n) = Some n.
Proof.
  unfold in_i64. intros Hn. assert (H19 : (10 ^ Z.of_nat 19 = 10000000000000000000)%Z) by reflexivity.
  unfold print_int. destruct (n <? 0)%Z eqn:E; b2p.
  - assert (Hd := decimal_digits 19 (- n) ltac:(lia)). unfold decimal_atoi.
    rewrite strip_spaces_id by (constructor; [reflexivity|by apply digits_no_space]). cbn [take_sign].
    change (ascii_eqb "-" "-") with true. cbv iota. rewrite span_digits_all by exact Hd.
    destruct (decimal 19 (- n)) eqn:Hx; [exfalso; refine (decimal_nonempty 19 _ _ Hx); lia|].
    rewrite <-Hx, decimal_value by lia.
    rewrite Z.opp_involutive, (proj2 (Z.leb_le _ n)), (proj2 (Z.ltb_lt n _)) by lia. reflexivity.
  - rewrite decimal_atoi_digits; [by rewrite decimal_value by lia|by apply decimal_digits|apply decimal_nonempty; lia|].
    rewrite decimal_value; lia.
Qed.

Lemma strtoll_range s n : strtoll s = Some n → in_i64 n.
Proof.
  unfold strtoll. destruct (take_sign (skip_spaces s)) as [b ds]. destruct (span_digits ds) as [[|d l] rest]; [done|].
  destruct (match rest with [] => true | c :: _ => ascii_eqb c "000" end); [|done]. generalize (if b then - digits_value 0 (d :: l) else digits_value 0 (d :: l))%Z.
  intros v E. assert (En : n = clamp_i64 v) by congruence. subst n. unfold clamp_i64, in_i64. lia.
Qed.

Lemma span_digits_digits s : all_digits (span_digits s).1.
Proof. induction s as [|c s IH]; [constructor|]. cbn. destruct (is_digit c) eqn:E; [|constructor]. destruct (span_digits s). by constructor. Qed.

Lemma decimal_numbers_ok : @AbslNumbersOk decimal_numbers.
Proof.
  split; cbn.
  - apply decimal_atoi_digits.
  - apply decimal_atoi_print.
  - intros s n. unfold decimal_atoi. destruct (take_sign _) as [neg ds]. destruct (span_digits ds) as [[|c ds'] [|c' r]]; try done.
    cbv zeta. set (v := if neg then _ else _). destruct (_ && _) eqn:E; [|done]. intros [= <-].
    apply andb_prop in E as [E1 E2]. b2p. unfold in_i64. lia.
  - intros ds Hd Hne Hlt. unfold decimal_atou. rewrite strip_spaces_id by (by apply digits_no_space).
    rewrite take_sign_digits, span_digits_all by done. destruct ds as [|c ds]; [done|]. by rewrite (proj2 (Z.ltb_lt _ _) Hlt).
  - intros s n. unfold decimal_atou. destruct (take_sign (strip_spaces s)) as [neg ds] eqn:Et.
    assert (Hs := span_digits_digits ds). destruct (span_digits ds) as [[|c ds'] [|c' r]]; try done.
    cbn [fst] in Hs. destruct neg; [done|]. cbn [negb andb]. destruct (_ <? _)%Z eqn:E; [|done].
    intros Hn. assert (digits_value 0 (c :: ds') = n) as <- by congruence. clear Hn. b2p. assert (Hge := digits_value_nonneg _ Hs 0 ltac:(lia)). unfold in_u64. lia.
Qed.

Lemma SimpleAtoi_print_u64 `{!AbslNumbers, !AbslNumbersOk} n : (0 ≤ n < 2 ^ 63)%Z → SimpleAtoi (print_u64 n) = Some n.
Proof.
  intros Hn. unfold print_u64. assert (Hv : digits_value 0 (decimal 20 n) = n).
  { apply decimal_value. change (10 ^ Z.of_nat 20)%Z with 100000000000000000000%Z. lia. }
  rewrite SimpleAtoi_digits.
  - by rewrite Hv.
  - apply decimal_digits. lia.
  - apply decimal_nonempty. lia.
  - lia.
Qed.

(** Pieces without separators, joined, split into themselves. *)
Lemma split_on_app c a b : c ∉ a → split_on c (a ++ c :: b) = a :: split_on c b.
Proof.
  induction a as [|x a IH]; intros H; cbn.
  - by rewrite decide_True.
  - rewrite not_elem_of_cons in H. destruct H as [Hx Ha]. rewrite decide_False by congruence. by rewrite IH.
Qed.

Lemma split_on_none c a : c ∉ a → split_on c a = [a].
Proof.
  induction a as [|x a IH]; intros H; cbn; [done|].
  rewrite not_elem_of_cons in H. destruct H as [Hx Ha]. rewrite decide_False by congruence. by rewrite IH.
Qed.

Lemma find_char_Some c a b : c ∉ a → find_char c (a ++ c :: b) = Some (length a).
Proof.
  induction a as [|x a IH]; intros H; cbn; [by rewrite decide_True|].
  rewrite not_elem_of_cons in H. destruct H as [Hx Ha]. rewrite decide_False by congruence. by rewrite IH.
Qed.

Lemma find_char_None c a : find_char c a = None ↔ c ∉ a.
Proof.
  induction a as [|x a IH]; cbn; [set_solver|]. rewrite not_elem_of_cons. case_decide as Hx.
  - split; [done|]. intros [? _]. congruence.
  - rewrite fmap_None, IH. naive_solver.
Qed.
