(* ===== verification/Streams.v ===== *)
(** * Streams

    Models src/astra/container/stream_data.hpp and the identifiers of
    src/astra/commands/redis/stream_commands.cpp: the entries of a stream in the
    order of their identifiers, consumer groups and their pending entries.
    Times are nanoseconds since the epoch.  The output of [absl::SimpleAtoi] is
    unspecified when it fails; it is the argument [garbage] here. *)
From S2P Require Import Prelude.
From S2P Require Import Simd.
From S2P Require Import Numbers.
From S2P Require Import Text.

Definition ToUnixMillis (t : Z) : Z := (t / 1000000)%Z.
(** [absl::ToInt64Milliseconds] of a duration, towards zero. *)
Definition ToInt64Milliseconds (d : Z) : Z := Z.quot d 1000000.

Record StreamId := MkId { ms : Z; seq : Z }.

#[global] Instance StreamId_eq_dec : EqDecision StreamId.
Proof. solve_decision. Defined.

Definition id_lt (a b : StreamId) : bool :=
  if negb (ms a =? ms b)%Z then (ms a <? ms b)%Z else (seq a <? seq b)%Z.
Definition id_le (a b : StreamId) : bool := negb (id_lt b a).

Definition id_zero : StreamId := MkId 0 0.
Definition id_max : StreamId := MkId (2 ^ 64 - 1) (2 ^ 64 - 1).

Section StreamIdText.
Context {AN : AbslNumbers} (garbage : bytes → Z).

(** A number stored through a pointer to [int64_t]. *)
Definition atoi_into (s : bytes) : Z := u64 (match SimpleAtoi s with Some n => n | None => garbage s end).

(** [StreamId(const std::string&)] *)
Definition parse_id (str : bytes) : StreamId :=
  if decide (str = B "*") then id_zero
  else match split_on "-" str with
       | [a; b] => MkId (atoi_into a) (atoi_into b)
       | [a] => MkId (atoi_into a) 0
       | _ => id_zero
       end.
End StreamIdText.

Definition id_to_string (id : StreamId) : bytes := print_u64 (ms id) ++ B "-" ++ print_u64 (seq id).

Abbreviation Fields := (list (bytes * bytes)).

Record StreamEntry := MkEntryS { entry_id : StreamId; entry_fields : Fields }.

Record PendingEntry := MkPending {
  pending_entry : StreamEntry;
  pending_consumer : bytes;
  delivery_count : Z;
  last_delivered : Z
}.

(** [std::map<StreamId, PendingEntry>]: in the order of the identifiers. *)
Abbreviation Pel := (list (StreamId * PendingEntry)).

Fixpoint pel_insert (id : StreamId) (p : PendingEntry) (l : Pel) : Pel :=
  match l with
  | [] => [(id, p)]
  | (id', p') :: l' =>
      if id_lt id id' then (id, p) :: l
      else if id_lt id' id then (id', p') :: pel_insert id p l'
      else (id', p) :: l'
  end.

Definition pel_erase (id : StreamId) (l : Pel) : Pel * bool :=
  (filter (λ e, e.1 ≠ id) l, bool_decide (id ∈ l.*1)).

Fixpoint pel_find (id : StreamId) (l : Pel) : option PendingEntry :=
  match l with
  | [] => None
  | (id', p) :: l => if decide (id' = id) then Some p else pel_find id l
  end.

Record StreamConsumerGroup := MkGroup {
  group_name : bytes;
  last_delivered_id : StreamId;
  consumers : gmap bytes StreamId;
  pending_entries : Pel
}.

Record StreamData := MkStream {
  entries : list StreamEntry;
  last_generated_ms : Z;
  last_generated_seq : Z;
  last_id : StreamId;
  groups : gmap bytes StreamConsumerGroup;
  max_len : Z
}.
Implicit Types s : StreamData.

Definition new_stream : StreamData := MkStream [] 0 0 id_zero ∅ 0.

Definition with_entries (l : list StreamEntry) s : StreamData :=
  MkStream l (last_generated_ms s) (last_generated_seq s) (last_id s) (groups s) (max_len s).
Definition with_groups (g : gmap bytes StreamConsumerGroup) s : StreamData :=
  MkStream (entries s) (last_generated_ms s) (last_generated_seq s) (last_id s) g (max_len s).

(** The trimming loop: entries leave at the front while there are more than
    [n]. *)
Definition trim_front (n : Z) (l : list StreamEntry) : list StreamEntry :=
  drop (length l - Z.to_nat n) l.

(** The generated identifier of [XADD key *]. *)
Definition next_id (now : Z) s : StreamId :=
  let ms := ToUnixMillis now in
  let ms := if (ms <? i64 (last_generated_ms s))%Z then i64 (last_generated_ms s) else ms in
  if (ms =? i64 (last_generated_ms s))%Z then MkId (last_generated_ms s) (u64 (last_generated_seq s + 1))
  else MkId (u64 ms) 0.

Definition push_entry (id : StreamId) (fields : Fields) (max_len_val : Z) s : StreamData :=
  let es := entries s ++ [MkEntryS id fields] in
  let es := if (0 <? max_len_val)%Z then trim_front max_len_val es else es in
  MkStream es (ms id) (seq id) (last_id s) (groups s) max_len_val.

(** An explicit identifier that is not above the last entry is refused with
    [0-0]. *)
Definition AddEntry {AN : AbslNumbers} (garbage : bytes → Z) (now : Z) (fields : Fields) (id_spec : bytes) (max_len_val : Z) s
    : StreamData * StreamId :=
  if decide (id_spec = B "*") then
    let id := next_id now s in (push_entry id fields max_len_val s, id)
  else
    let id := parse_id garbage id_spec in
    match last (entries s) with
    | Some e => if id_le id (entry_id e) then (s, id_zero) else (push_entry id fields max_len_val s, id)
    | None => (push_entry id fields max_len_val s, id)
    end.

(** The loop of [Read]: it stops once [count] entries are taken. *)
Fixpoint read_loop (skip : StreamEntry → bool) (count : Z) (l result : list StreamEntry) : list StreamEntry :=
  match l with
  | [] => result
  | e :: l =>
      if skip e then read_loop skip count l result
      else let result := result ++ [e] in
           if (count <=? zlen result)%Z then result else read_loop skip count l result
  end.

Definition Read (start : StreamId) (count : Z) (exclusive : bool) s : list StreamEntry :=
  read_loop (λ e, if exclusive then id_le (entry_id e) start else id_lt (entry_id e) start) count (entries s) [].

Definition CreateGroup (name : bytes) (start_id : StreamId) s : StreamData * bool :=
  match groups s !! name with
  | Some _ => (s, false)
  | None => (with_groups (<[name := MkGroup name start_id ∅ []]> (groups s)) s, true)
  end.

(** The entries a group reads become pending for the consumer. *)
Definition ReadGroup (now : Z) (name consumer : bytes) (count : Z) s : StreamData * list StreamEntry :=
  match groups s !! name with
  | None => (s, [])
  | Some g =>
      let result := read_loop (λ e, id_le (entry_id e) (last_delivered_id g)) count (entries s) [] in
      let pel := foldl (λ pel e, pel_insert (entry_id e) (MkPending e consumer 1 now) pel) (pending_entries g) result in
      match last result with
      | None => (s, [])
      | Some e =>
          (with_groups (<[name := MkGroup (group_name g) (entry_id e)
             (<[consumer := entry_id e]> (consumers g)) pel]> (groups s)) s, result)
      end
  end.

(** ** Streams: theorems

    Entries stay in the order of their identifiers, and a consumer group
    delivers every entry once. *)

(** ** The order of identifiers *)

Definition id_below (a b : StreamId) : Prop := (ms a < ms b ∨ (ms a = ms b ∧ seq a < seq b))%Z.

Lemma id_lt_spec a b : id_lt a b = true ↔ id_below a b.
Proof.
  unfold id_lt, id_below. destruct (ms a =? ms b)%Z eqn:E; b2p; cbn [negb]; rewrite Z.ltb_lt; lia.
Qed.

Lemma id_lt_false a b : id_lt a b = false ↔ ¬ id_below a b.
Proof. rewrite <-id_lt_spec. by destruct (id_lt a b). Qed.

Lemma id_le_spec a b : id_le a b = true ↔ ¬ id_below b a.
Proof. unfold id_le. rewrite negb_true_iff. apply id_lt_false. Qed.

Lemma id_le_false a b : id_le a b = false ↔ id_below b a.
Proof. unfold id_le. rewrite negb_false_iff. apply id_lt_spec. Qed.

(** The two orders as linear arithmetic. *)
Ltac id_order :=
  repeat match goal with
  | H : id_lt _ _ = true |- _ => apply id_lt_spec in H
  | H : id_lt _ _ = false |- _ => apply id_lt_false in H
  | H : id_le _ _ = true |- _ => apply id_le_spec in H
  | H : id_le _ _ = false |- _ => apply id_le_false in H
  | |- id_lt _ _ = true => apply id_lt_spec
  | |- id_le _ _ = true => apply id_le_spec
  | |- id_le _ _ = false => apply id_le_false
  end;
  unfold id_below in *; cbn [ms seq] in *; lia.

Definition before (a b : StreamEntry) : Prop := id_below (entry_id a) (entry_id b).

Definition generated (s : StreamData) : StreamId := MkId (last_generated_ms s) (last_generated_seq s).

(** The entries ascend, and none is above the last generated identifier. *)
Record stream_ok (s : StreamData) : Prop := {
  entries_ascend : StronglySorted before (entries s);
  entries_generated : Forall (λ e, ¬ id_below (generated s) (entry_id e)) (entries s)
}.

(** The generator has room: its millisecond counter fits the signed type it is
    compared in, and its sequence counter can grow. *)
Definition room (now : Z) (s : StreamData) : Prop :=
  (0 ≤ last_generated_ms s < 2 ^ 63 ∧ 0 ≤ last_generated_seq s < 2 ^ 64 - 1 ∧ 0 ≤ ToUnixMillis now < 2 ^ 63)%Z.

Lemma next_id_above now s : room now s → id_below (generated s) (next_id now s).
Proof.
  intros (Hm & Hs & Hn). unfold next_id. cbv zeta. rewrite i64_small by (unfold in_i64; lia).
  destruct (ToUnixMillis now <? last_generated_ms s)%Z eqn:E1; b2p.
  - rewrite Z.eqb_refl, u64_small by (unfold in_u64; lia). unfold generated. id_order.
  - destruct (ToUnixMillis now =? last_generated_ms s)%Z eqn:E2; b2p;
      rewrite u64_small by (unfold in_u64; lia); unfold generated; id_order.
Qed.

Lemma sorted_last_above l e x :
  StronglySorted before l → last l = Some e → ¬ id_below x (entry_id e) → Forall (λ y, ¬ id_below x (entry_id y)) l.
Proof.
  intros Hs Hl Hx. apply last_Some in Hl as [l' ->]. apply StronglySorted_app_iff in Hs as (_ & _ & H).
  apply Forall_app. split; [|by apply Forall_singleton]. apply Forall_forall. intros y Hy.
  assert (Hb := H y e Hy ltac:(set_solver)). unfold before in Hb. id_order.
Qed.

(** A new entry above all others. *)
Lemma push_entry_ok id fields n s :
  stream_ok s → Forall (λ e, id_below (entry_id e) id) (entries s) → stream_ok (push_entry id fields n s).
Proof.
  intros [H1 H2] Hid.
  assert (Hs : StronglySorted before (entries s ++ [MkEntryS id fields])).
  { apply StronglySorted_app_iff. split_and!; [done|by repeat constructor|].
    intros x y Hx ->%list_elem_of_singleton. by eapply (proj1 (Forall_forall _ _) Hid). }
  assert (Hg : Forall (λ e, ¬ id_below id (entry_id e)) (entries s ++ [MkEntryS id fields])).
  { apply Forall_app. split; [|apply Forall_singleton; cbn; id_order].
    eapply Forall_impl; [exact Hid|]. cbn. intros e He. id_order. }
  unfold push_entry, trim_front. split; cbn [entries]; unfold generated; cbn [last_generated_ms last_generated_seq].
  - case_match; [|done]. eapply StronglySorted_sublist; [apply sublist_drop|done].
  - destruct id as [m q]. case_match; [by apply Forall_drop|done].
Qed.

Section StreamContract.
Context {AN : AbslNumbers}.

Lemma AddEntry_accepts garbage now fields spec n s :
  stream_ok s → room now s →
  let '(s', id) := AddEntry garbage now fields spec n s in
  (s' = s ∧ id = id_zero ∧ spec ≠ B "*") ∨
  (s' = push_entry id fields n s ∧ Forall (λ e, id_below (entry_id e) id) (entries s)).
Proof.
  intros [H1 H2] Hr. unfold AddEntry. case_decide as Hspec.
  - right. split; [done|]. eapply Forall_impl; [exact H2|]. cbn. intros e He.
    assert (Ha := next_id_above now s Hr). id_order.
  - destruct (last (entries s)) as [e|] eqn:Hl.
    + destruct (id_le _ (entry_id e)) eqn:E; [by left|]. right. split; [done|].
      apply last_Some in Hl as [l' Hl]. rewrite Hl in H1 |- *. apply StronglySorted_app_iff in H1 as (_ & _ & H).
      apply Forall_app. split; [|apply Forall_singleton; id_order]. apply Forall_forall. intros y Hy.
      assert (Hb := H y e Hy ltac:(set_solver)). unfold before in Hb. id_order.
    + right. split; [done|]. apply last_None in Hl. by rewrite Hl.
Qed.

(** ** Reading *)

Lemma read_loop_spec skip count l : ∀ result,
  read_loop skip count l result =
  result ++ take (Nat.max 1 (Z.to_nat count - length result)) (filter (λ e, skip e = false) l).
Proof.
  induction l as [|e l IH]; intros result; cbn [read_loop].
  { rewrite filter_nil, take_nil. by rewrite app_nil_r. }
  rewrite filter_cons. destruct (skip e) eqn:E; [rewrite decide_False by done; apply IH|].
  rewrite decide_True by done. rewrite IH. unfold zlen. rewrite length_app. cbn [length].
  destruct (count <=? _)%Z eqn:Ec; b2p.
  - replace (Nat.max 1 (Z.to_nat count - length result)) with 1 by lia. done.
  - rewrite <-app_assoc. cbn [app]. f_equal.
    replace (Nat.max 1 (Z.to_nat count - length result))
      with (S (Nat.max 1 (Z.to_nat count - (length result + 1)))) by lia. done.
Qed.

(** The entries a group has not delivered yet. *)
Definition undelivered (from : StreamId) (l : list StreamEntry) : list StreamEntry :=
  filter (λ e, id_le (entry_id e) from = false) l.

Lemma undelivered_sublist from l : undelivered from l `sublist_of` l.
Proof. apply sublist_filter. Qed.

(** After the first part of what is undelivered, the rest is. *)
Lemma undelivered_rest from l a b e :
  StronglySorted before l → undelivered from l = a ++ b → last a = Some e → undelivered (entry_id e) l = b.
Proof.
  intros Hs Hu Hl. apply last_Some in Hl as [a' ->].
  assert (Hs' := StronglySorted_sublist before _ _ (undelivered_sublist from l) Hs). rewrite Hu in Hs'.
  assert (He : e ∈ undelivered from l) by (rewrite Hu; set_solver).
  apply list_elem_of_filter in He as [He _].
  assert (Hff : undelivered (entry_id e) l = undelivered (entry_id e) (undelivered from l)).
  { unfold undelivered. rewrite list_filter_filter. apply list_filter_iff. intros x. split; [|naive_solver].
    intros Hx. split; [done|]. id_order. }
  rewrite Hff, Hu. unfold undelivered. rewrite !filter_app.
  rewrite <-app_assoc in Hs'. apply StronglySorted_app_iff in Hs' as (_ & Hs2 & H1).
  cbn [app] in Hs2. apply StronglySorted_inv in Hs2 as [_ HF]. rewrite Forall_forall in HF.
  rewrite (filter_none _ a'), (filter_none _ [e]), (filter_all _ b); [done| | |].
  - apply Forall_forall. intros x Hx. specialize (HF x Hx). unfold before in HF. id_order.
  - apply Forall_singleton. intros H. id_order.
  - apply Forall_forall. intros x Hx. assert (Hb := H1 x e Hx ltac:(set_solver)). unfold before in Hb.
    intros H. id_order.
Qed.

Lemma undelivered_app from a b : undelivered from (a ++ b) = undelivered from a ++ undelivered from b.
Proof. apply filter_app. Qed.

(** ** Histories of a group *)

Inductive stream_op :=
  | SAdd (now : Z) (fields : Fields) (id_spec : bytes)
  | SRead (now : Z) (consumer : bytes) (count : Z)
  | SAck (id : StreamId).

(** [XADD] without MAXLEN, [XREADGROUP] and [XACK] on the group [name]. *)
Definition stream_step (garbage : bytes → Z) (name : bytes) (o : stream_op) (s : StreamData)
    : StreamData * list StreamEntry :=
  match o with
  | SAdd now fields spec => ((AddEntry garbage now fields spec 0 s).1, [])
  | SRead now consumer count => ReadGroup now name consumer count s
  | SAck id =>
      match groups s !! name with
      | Some g => (with_groups (<[name := MkGroup (group_name g) (last_delivered_id g) (consumers g)
                                            (pel_erase id (pending_entries g)).1]> (groups s)) s, [])
      | None => (s, [])
      end
  end.

Fixpoint stream_run (garbage : bytes → Z) (name : bytes) (os : list stream_op) (s : StreamData)
    : StreamData * list StreamEntry :=
  match os with
  | [] => (s, [])
  | o :: os =>
      let '(s, out) := stream_step garbage name o s in
      let '(s, outs) := stream_run garbage name os s in
      (s, out ++ outs)
  end.

(** The generator has room at every addition. *)
Fixpoint has_room (garbage : bytes → Z) (name : bytes) (os : list stream_op) (s : StreamData) : Prop :=
  match os with
  | [] => True
  | o :: os =>
      match o with SAdd now _ _ => room now s | _ => True end ∧
      has_room garbage name os (stream_step garbage name o s).1
  end.

Lemma ReadGroup_entries now name consumer count s : entries (ReadGroup now name consumer count s).1 = entries s.
Proof. unfold ReadGroup. by repeat case_match. Qed.

Lemma ReadGroup_generated now name consumer count s :
  generated (ReadGroup now name consumer count s).1 = generated s.
Proof. unfold ReadGroup. by repeat case_match. Qed.

(** What a group reads is the first part of what it has not delivered. *)
Lemma ReadGroup_delivers now name consumer count s g :
  groups s !! name = Some g →
  ∃ g' rest, groups (ReadGroup now name consumer count s).1 !! name = Some g' ∧
    undelivered (last_delivered_id g) (entries s) = (ReadGroup now name consumer count s).2 ++ rest ∧
    match last (ReadGroup now name consumer count s).2 with
    | Some e => last_delivered_id g' = entry_id e
    | None => g' = g
    end.
Proof.
  intros Hg. unfold ReadGroup. rewrite Hg. rewrite read_loop_spec. cbn [app length].
  set (k := Nat.max 1 (Z.to_nat count - 0)). set (u := filter _ (entries s)).
  change (undelivered (last_delivered_id g) (entries s)) with u.
  destruct (last (take k u)) as [e|] eqn:Hl; cbn [fst snd].
  - eexists _, (drop k u). cbn [groups with_groups]. rewrite lookup_insert_eq. split; [done|].
    rewrite Hl. split; [by rewrite take_drop|done].
  - exists g, (drop k u). split; [done|]. apply last_None in Hl. split; [|done].
    rewrite <-(take_drop k u) at 1. by rewrite Hl.
Qed.

Lemma AddEntry_groups garbage now fields spec n s : groups (AddEntry garbage now fields spec n s).1 = groups s.
Proof. unfold AddEntry. by repeat case_match. Qed.

Lemma stream_step_ok garbage name o s :
  stream_ok s → match o with SAdd now _ _ => room now s | _ => True end →
  stream_ok (stream_step garbage name o s).1 ∧
  ∃ more, entries (stream_step garbage name o s).1 = entries s ++ more.
Proof.
  intros Hs Hr. destruct o as [now fields spec|now consumer count|id]; cbn [stream_step].
  - assert (H := AddEntry_accepts garbage now fields spec 0 s Hs Hr).
    destruct (AddEntry garbage now fields spec 0 s) as [s' id]. cbn [fst].
    destruct H as [(-> & _)|(-> & Hid)]; [split; [done|]; exists []; by rewrite app_nil_r|].
    split; [by apply push_entry_ok|]. by eexists.
  - split; [|exists []; by rewrite ReadGroup_entries, app_nil_r]. destruct Hs as [H1 H2].
    split; [by rewrite ReadGroup_entries|]. by rewrite ReadGroup_entries, ReadGroup_generated.
  - destruct (groups s !! name); cbn [fst]; (split; [by destruct Hs; split|]); exists []; by rewrite app_nil_r.
Qed.

Lemma stream_run_ok garbage name os : ∀ s,
  stream_ok s → has_room garbage name os s →
  stream_ok (stream_run garbage name os s).1 ∧
  ∃ more, entries (stream_run garbage name os s).1 = entries s ++ more.
Proof.
  induction os as [|o os IH]; intros s Hs Hr; cbn [stream_run].
  { split; [done|]. exists []. by rewrite app_nil_r. }
  destruct Hr as [Hr1 Hr2]. destruct (stream_step_ok garbage name o s Hs Hr1) as [Hs1 [m1 E1]].
  destruct (stream_step garbage name o s) as [s1 out]. cbn [fst] in *.
  destruct (IH s1 Hs1 Hr2) as [Hs2 [m2 E2]]. destruct (stream_run garbage name os s1) as [s2 outs]. cbn [fst] in *.
  split; [done|]. exists (m1 ++ m2). by rewrite E2, E1, <-app_assoc.
Qed.

(** One step of a group, seen from a later state of the stream. *)
Lemma stream_step_delivers garbage name o s g later more :
  groups s !! name = Some g → StronglySorted before later →
  later = entries (stream_step garbage name o s).1 ++ more →
  ∃ g', groups (stream_step garbage name o s).1 !! name = Some g' ∧
    (stream_step garbage name o s).2 ++ undelivered (last_delivered_id g') later =
    undelivered (last_delivered_id g) later.
Proof.
  intros Hg Hs Hl. destruct o as [now fields spec|now consumer count|id]; cbn [stream_step] in *.
  - exists g. cbn [fst snd app]. by rewrite AddEntry_groups.
  - destruct (ReadGroup_delivers now name consumer count s g Hg) as (g' & rest & H1 & H2 & H3).
    exists g'. split; [done|]. rewrite ReadGroup_entries in Hl.
    destruct (last (ReadGroup now name consumer count s).2) as [e|] eqn:Hlast.
    + rewrite H3. assert (Hu : undelivered (last_delivered_id g) later =
        (ReadGroup now name consumer count s).2 ++ (rest ++ undelivered (last_delivered_id g) more)).
      { by rewrite Hl, undelivered_app, H2, <-app_assoc. }
      rewrite (undelivered_rest _ _ _ _ e Hs Hu Hlast). done.
    + apply last_None in Hlast. rewrite Hlast, H3. done.
  - rewrite Hg. cbn [fst snd app groups with_groups]. rewrite lookup_insert_eq. eexists. split; [done|]. done.
Qed.

(** C19. What a history of XADD, XREADGROUP and XACK on a consumer group delivers
    is, in order and without repetition, the entries above the point the group
    started from, up to the point it has reached; no entry is skipped and none is
    delivered twice. *)
Theorem group_exactly_once garbage name os : ∀ s g,
  stream_ok s → groups s !! name = Some g → has_room garbage name os s →
  let '(s', delivered) := stream_run garbage name os s in
  stream_ok s' ∧
  ∃ g', groups s' !! name = Some g' ∧
    delivered ++ undelivered (last_delivered_id g') (entries s') = undelivered (last_delivered_id g) (entries s').
Proof.
  induction os as [|o os IH]; intros s g Hs Hg Hr; cbn [stream_run].
  { split; [done|]. by exists g. }
  destruct Hr as [Hr1 Hr2]. destruct (stream_step_ok garbage name o s Hs Hr1) as [Hs1 _].
  destruct (stream_run_ok garbage name os _ Hs1 Hr2) as [Hs2 [more Hmore]].
  destruct (stream_step_delivers garbage name o s g _ more Hg (entries_ascend _ Hs2) Hmore) as (g1 & Hg1 & Hd).
  specialize (IH _ g1 Hs1 Hg1 Hr2). destruct (stream_step garbage name o s) as [s1 out]. cbn [fst snd] in *.
  destruct (stream_run garbage name os s1) as [s2 outs]. cbn [fst] in *.
  destruct IH as [_ (g' & Hg' & H)]. split; [done|]. exists g'. split; [done|].
  by rewrite <-app_assoc, H, Hd.
Qed.

(** XADD either refuses an explicit identifier, with 0-0 and the stream as it was,
    or appends the entry under an identifier above all others; the stream stays
    sorted, and MAXLEN bounds its length. *)
Theorem AddEntry_appends garbage now fields spec n s :
  stream_ok s → room now s →
  let '(s', id) := AddEntry garbage now fields spec n s in
  stream_ok s' ∧
  ((s' = s ∧ id = id_zero ∧ spec ≠ B "*") ∨
   (last (entries s') = Some (MkEntryS id fields) ∧ Forall (λ e, id_below (entry_id e) id) (entries s) ∧
    entries s' `suffix_of` entries s ++ [MkEntryS id fields] ∧ (0 < n → zlen (entries s') ≤ n)%Z)).
Proof.
  intros Hs Hr. assert (H := AddEntry_accepts garbage now fields spec n s Hs Hr).
  destruct (AddEntry garbage now fields spec n s) as [s' id]. destruct H as [(-> & -> & H)|[-> Hid]]; [by split; [|left]|].
  split; [by apply push_entry_ok|]. right. unfold push_entry, trim_front. cbn [entries].
  destruct (0 <? n)%Z eqn:E; b2p.
  - set (l := entries s ++ [MkEntryS id fields]).
    assert (Hl : length l = S (length (entries s))) by (unfold l; rewrite length_app; cbn; lia).
    split; [|split; [done|split; [|]]].
    + rewrite last_lookup, lookup_drop, length_drop. replace (_ + _) with (pred (length l)) by lia.
      rewrite <- last_lookup. unfold l. by rewrite last_snoc.
    + exists (take (length l - Z.to_nat n) l). by rewrite take_drop.
    + intros _. unfold zlen. rewrite length_drop. lia.
  - split_and!; [by rewrite last_snoc|done|done|lia].
Qed.

(** The text of an identifier, below 2^63 in both parts, is read back as the same
    identifier. *)
Theorem stream_id_roundtrip {AO : AbslNumbersOk} garbage id :
  (0 ≤ ms id < 2 ^ 63)%Z → (0 ≤ seq id < 2 ^ 63)%Z → parse_id garbage (id_to_string id) = id.
Proof.
  intros Hm Hs. unfold parse_id, id_to_string.
  assert (Hd : ∀ n, (0 ≤ n)%Z → "-"%char ∉ print_u64 n).
  { intros n Hn Hi. assert (Ha := decimal_digits 20 n Hn). unfold all_digits in Ha.
    by apply (proj1 (Forall_forall _ _) Ha) in Hi. }
  rewrite decide_False.
  2: { intros H. apply (f_equal length) in H. rewrite !length_app in H. change (length (B "*")) with 1 in H.
       change (length (B "-")) with 1 in H. assert (H1 := decimal_nonempty 20 (ms id) ltac:(lia)).
       fold (print_u64 (ms id)) in H1. destruct (print_u64 (ms id)); [done|]. cbn [length] in H. lia. }
  change (B "-" ++ print_u64 (seq id)) with ("-"%char :: print_u64 (seq id)).
  rewrite split_on_app, split_on_none by (apply Hd; lia). unfold atoi_into.
  rewrite !SimpleAtoi_print_u64 by done. rewrite !u64_small by (unfold in_u64; lia). by destruct id.
Qed.

End StreamContract.

(** ** Witnesses *)

#[local] Existing Instance decimal_numbers.

Definition sample_stream : StreamData := (CreateGroup (B "g") id_zero new_stream).1.
Definition sample_adds : list stream_op :=
  [SAdd 5000000 [(B "f", B "1")] (B "*"); SRead 6000000 (B "c") 10; SAdd 5000000 [] (B "*"); SAdd 0 [] (B "3-1");
   SAck (MkId 5 0); SRead 7000000 (B "d") 1].

Lemma sample_stream_ok : stream_ok sample_stream.
Proof. split; constructor. Qed.

Lemma group_exactly_once_witness :
  ∃ g', groups (stream_run (λ _, 0%Z) (B "g") sample_adds sample_stream).1 !! B "g" = Some g' ∧
    (stream_run (λ _, 0%Z) (B "g") sample_adds sample_stream).2 = [MkEntryS (MkId 5 0) [(B "f", B "1")]; MkEntryS (MkId 5 1) []] ∧
    undelivered (last_delivered_id g') (entries (stream_run (λ _, 0%Z) (B "g") sample_adds sample_stream).1) = [].
Proof.
  assert (H := group_exactly_once (λ _, 0%Z) (B "g") sample_adds sample_stream (MkGroup (B "g") id_zero ∅ []) sample_stream_ok
    ltac:(by vm_compute) ltac:(vm_compute; intuition congruence)).
  destruct (stream_run (λ _, 0%Z) (B "g") sample_adds sample_stream) as [s' d] eqn:E.
  destruct H as [_ (g' & Hg & H)]. exists g'. cbn [fst snd]. split; [done|]. vm_compute in E. simplify_eq.
  vm_compute in Hg. simplify_eq. split; [done|]. by vm_compute.
Defined.

Lemma AddEntry_appends_witness :
  stream_ok (AddEntry (λ _, 0%Z) 5000000 [] (B "*") 1 sample_stream).1.
Proof.
  assert (H := AddEntry_appends (λ _, 0%Z) 5000000 [] (B "*") 1 sample_stream sample_stream_ok
    ltac:(vm_compute; intuition congruence)).
  destruct (AddEntry (λ _, 0%Z) 5000000 [] (B "*") 1 sample_stream) as [s' id]. exact (proj1 H).
Defined.

Lemma stream_id_roundtrip_witness : parse_id (λ _, 0%Z) (id_to_string (MkId 1700000000000 7)) = MkId 1700000000000 7.
Proof. apply (@stream_id_roundtrip decimal_numbers decimal_numbers_ok (λ _, 0%Z) (MkId 1700000000000 7)); vm_compute; intuition congruence. Defined.
