(* ===== verification/Eviction.v ===== *)
(** * Memory accounting and eviction

    Models src/astra/core/memory/eviction_policy.hpp, object_size_estimator.hpp
    and memory_tracker.hpp: the eviction policies, the estimated sizes of
    values, the counter of used memory and its updates by the write commands. *)
From Stdlib Require Import SpecFloat.
From S2P Require Import Prelude.
From S2P Require Import Simd.
From S2P Require Import KeyMetadata.
From S2P Require Import Text.

(** ** Policies *)

Inductive EvictionPolicy :=
  | kNoEviction | kAllKeysLRU | kVolatileLRU | kAllKeysLFU | kVolatileLFU
  | kAllKeysRandom | kVolatileRandom | kVolatileTTL | k2Q.

#[global] Instance EvictionPolicy_eq_dec : EqDecision EvictionPolicy.
Proof. solve_decision. Defined.

Definition EvictionPolicyToString (policy : EvictionPolicy) : bytes :=
  match policy with
  | kNoEviction => B "noeviction"
  | kAllKeysLRU => B "allkeys-lru"
  | kVolatileLRU => B "volatile-lru"
  | kAllKeysLFU => B "allkeys-lfu"
  | kVolatileLFU => B "volatile-lfu"
  | kAllKeysRandom => B "allkeys-random"
  | kVolatileRandom => B "volatile-random"
  | kVolatileTTL => B "volatile-ttl"
  | k2Q => B "2q"
  end.

(** [std::tolower] in the C locale. *)
Definition to_lower (c : ascii) : ascii :=
  if (code "A" <=? code c)%Z && (code c <=? code "Z")%Z then of_code (code c + 32) else c.

Definition StringToEvictionPolicy (str : bytes) : EvictionPolicy :=
  let lower_str := map to_lower str in
  if bool_decide (lower_str = B "noeviction") then kNoEviction
  else if bool_decide (lower_str = B "allkeys-lru") then kAllKeysLRU
  else if bool_decide (lower_str = B "volatile-lru") then kVolatileLRU
  else if bool_decide (lower_str = B "allkeys-lfu") then kAllKeysLFU
  else if bool_decide (lower_str = B "volatile-lfu") then kVolatileLFU
  else if bool_decide (lower_str = B "allkeys-random") then kAllKeysRandom
  else if bool_decide (lower_str = B "volatile-random") then kVolatileRandom
  else if bool_decide (lower_str = B "volatile-ttl") then kVolatileTTL
  else if bool_decide (lower_str = B "2q") || bool_decide (lower_str = B "dash-cache") then k2Q
  else kNoEviction.

Definition IsVolatilePolicy (policy : EvictionPolicy) : bool :=
  match policy with kVolatileLRU | kVolatileLFU | kVolatileRandom | kVolatileTTL => true | _ => false end.

Definition IsEvictionActive (policy : EvictionPolicy) : bool := negb (bool_decide (policy = kNoEviction)).

(** ** Estimated sizes

    Sums of sizes are taken in 64 bits and cut to the 32 bits of the result. *)

Definition EstimateStringSize (key value : bytes) : Z := u32 (24 + zlen key + zlen value + 32).

Definition EstimateStringDelta (key old_value new_value : bytes) : Z :=
  i32 (EstimateStringSize key new_value - EstimateStringSize key old_value).

Definition EstimateHashFieldSize (field value : bytes) : Z := u32 (zlen field + zlen value + 32).
Definition EstimateHashSize (key : bytes) (fields : list (bytes * bytes)) : Z :=
  u32 (64 + foldl (λ total fv, u32 (total + (zlen fv.1 + zlen fv.2 + 32))) 0%Z fields + zlen key + 32).

Definition EstimateSetMemberSize (member : bytes) : Z := u32 (zlen member + 32).
Definition EstimateSetSize (key : bytes) (members : list bytes) : Z :=
  u32 (64 + foldl (λ total m, u32 (total + (zlen m + 32))) 0%Z members + zlen key + 32).

Definition EstimateZSetMemberSize (member : bytes) : Z := u32 (zlen member + 24 + 8).
Definition EstimateZSetSize {S} (key : bytes) (members : list (bytes * S)) : Z :=
  u32 (128 + foldl (λ total ms, u32 (total + (zlen ms.1 + 24 + 8))) 0%Z members + zlen key + 32).

Definition EstimateListElementSize (element : bytes) : Z := u32 (16 + zlen element).
Definition EstimateListSize (key : bytes) (elements : list bytes) : Z :=
  u32 (64 + foldl (λ total e, u32 (total + (16 + zlen e))) 0%Z elements + zlen key + 32).

Definition EstimateStreamEntrySize (entry_id : bytes) (fields : list (bytes * bytes)) : Z :=
  foldl (λ size fv, u32 (size + (zlen fv.1 + zlen fv.2))) (u32 (zlen entry_id + 32)) fields.
Definition EstimateStreamSize (key : bytes) (entries : list (bytes * list (bytes * bytes))) : Z :=
  u32 (128 + foldl (λ total e,
         foldl (λ size fv, u32 (size + (zlen fv.1 + zlen fv.2))) (u32 (u32 (total + zlen e.1) + 32)) e.2)
       0%Z entries + zlen key + 32).

Definition EstimateMetadataSize (key : bytes) : Z := u32 (48 + zlen key + 32).

(** ** The tracker *)

Record MemoryTrackerConfig := MkMemConfig {
  max_memory_limit : Z;
  eviction_policy : EvictionPolicy;
  eviction_threshold : spec_float;
  eviction_samples : Z;
  enable_tracking : bool
}.

Definition default_config : MemoryTrackerConfig := MkMemConfig 0 kNoEviction d0_9 5 true.

Record MemoryTracker := MkTracker { config_ : MemoryTrackerConfig; current_memory_ : Z }.
Implicit Types t : MemoryTracker.

Definition new_tracker (config : MemoryTrackerConfig) : MemoryTracker := MkTracker config 0.

Definition AddMemory (bytes : Z) t : MemoryTracker :=
  if negb (enable_tracking (config_ t)) then t
  else MkTracker (config_ t) (u64 (current_memory_ t + bytes)).

Definition SubtractMemory (bytes : Z) t : MemoryTracker :=
  if negb (enable_tracking (config_ t)) then t
  else MkTracker (config_ t)
         (if (current_memory_ t <? bytes)%Z then 0%Z else (current_memory_ t - bytes)%Z).

Definition UpdateMemory (old_bytes new_bytes : Z) t : MemoryTracker :=
  if negb (enable_tracking (config_ t)) then t
  else if (old_bytes <? new_bytes)%Z then AddMemory (new_bytes - old_bytes) t
  else if (new_bytes <? old_bytes)%Z then SubtractMemory (old_bytes - new_bytes) t
  else t.

Definition GetCurrentMemory t : Z := current_memory_ t.
Definition GetMaxMemory t : Z := max_memory_limit (config_ t).
Definition GetEvictionPolicy t : EvictionPolicy := eviction_policy (config_ t).

(** [ShouldEvict] of the tracker. *)
Definition TrackerShouldEvict t : bool :=
  if negb (enable_tracking (config_ t)) then false
  else if (max_memory_limit (config_ t) =? 0)%Z then false
  else if negb (IsEvictionActive (eviction_policy (config_ t))) then false
  else (max_memory_limit (config_ t) <=? current_memory_ t)%Z.

Definition ShouldCheckEviction t : bool :=
  if negb (enable_tracking (config_ t)) then false
  else if (max_memory_limit (config_ t) =? 0)%Z then false
  else if negb (IsEvictionActive (eviction_policy (config_ t))) then false
  else (scaled (max_memory_limit (config_ t)) d0_8 <=? current_memory_ t)%Z.

Definition IsMemoryFull t : bool :=
  if negb (enable_tracking (config_ t)) then false
  else if (max_memory_limit (config_ t) =? 0)%Z then false
  else (max_memory_limit (config_ t) <=? current_memory_ t)%Z.

Definition ShouldEvictVolatileOnly t : bool := IsVolatilePolicy (eviction_policy (config_ t)).

Definition with_config (f : MemoryTrackerConfig → MemoryTrackerConfig) t : MemoryTracker :=
  MkTracker (f (config_ t)) (current_memory_ t).

Definition SetMaxMemory (max_memory : Z) : MemoryTracker → MemoryTracker :=
  with_config (λ c, MkMemConfig max_memory (eviction_policy c) (eviction_threshold c) (eviction_samples c) (enable_tracking c)).
Definition SetEvictionPolicy (policy : EvictionPolicy) : MemoryTracker → MemoryTracker :=
  with_config (λ c, MkMemConfig (max_memory_limit c) policy (eviction_threshold c) (eviction_samples c) (enable_tracking c)).
Definition SetEvictionThreshold (threshold : spec_float) t : MemoryTracker :=
  if double_lt d0_0 threshold && double_le threshold d1_0
  then with_config (λ c, MkMemConfig (max_memory_limit c) (eviction_policy c) threshold (eviction_samples c) (enable_tracking c)) t
  else t.
Definition SetEvictionSamples (samples : Z) t : MemoryTracker :=
  if (0 <? samples)%Z && (samples <=? 100)%Z
  then with_config (λ c, MkMemConfig (max_memory_limit c) (eviction_policy c) (eviction_threshold c) samples (enable_tracking c)) t
  else t.
Definition SetTrackingEnabled (enabled : bool) : MemoryTracker → MemoryTracker :=
  with_config (λ c, MkMemConfig (max_memory_limit c) (eviction_policy c) (eviction_threshold c) (eviction_samples c) enabled).

Definition GetFreeMemory t : Z :=
  if (max_memory_limit (config_ t) =? 0)%Z then 0%Z
  else if (current_memory_ t <? max_memory_limit (config_ t))%Z
  then (max_memory_limit (config_ t) - current_memory_ t)%Z else 0%Z.

Definition TrackerReset t : MemoryTracker := MkTracker (config_ t) 0.

(** ** The updates of the write commands *)

Definition tracked : Type := MemoryTracker * Manager.

(** The update all helpers end with. *)
Definition track_sizes (key : bytes) (old_size new_size : Z) (tm : tracked) : tracked :=
  (if negb (old_size =? new_size)%Z then UpdateMemory old_size new_size tm.1 else tm.1,
   (UpdateEstimatedSize key new_size tm.2).1).

Definition UpdateString (key old_value new_value : bytes) (tm : tracked) : tracked :=
  track_sizes key (EstimateStringSize key old_value) (EstimateStringSize key new_value) tm.

Definition UpdateHashField (key : bytes) (field_existed : bool) (old_field_value new_field_value : bytes)
    (tm : tracked) : tracked :=
  let old_size := GetEstimatedSize key tm.2 in
  let field_size_delta :=
    if field_existed then u32 (u32 (zlen new_field_value) - u32 (zlen old_field_value))
    else u32 (u32 (zlen new_field_value) + u32 (zlen key) + 8) in
  track_sizes key old_size (u32 (old_size + field_size_delta)) tm.

(** The three helpers of collections differ in the overhead of an element. *)
Definition UpdateElement (overhead : Z) (key : bytes) (existed : bool) (element : bytes) (tm : tracked) : tracked :=
  let old_size := GetEstimatedSize key tm.2 in
  let element_size := u32 (u32 (zlen element) + overhead) in
  track_sizes key old_size (if existed then old_size else u32 (old_size + element_size)) tm.

Definition UpdateSetMember : bytes → bool → bytes → tracked → tracked := UpdateElement 8.
Definition UpdateZSetMember : bytes → bool → bytes → tracked → tracked := UpdateElement 16.
Definition UpdateListElement : bytes → bool → bytes → tracked → tracked := UpdateElement 8.

(** ** Lemmas *)

Lemma policy_roundtrip policy : StringToEvictionPolicy (EvictionPolicyToString policy) = policy.
Proof. by destruct policy; vm_compute. Qed.

Lemma UpdateMemory_config o n t : config_ (UpdateMemory o n t) = config_ t.
Proof. unfold UpdateMemory, AddMemory, SubtractMemory. by repeat case_match. Qed.

Lemma track_sizes_config key o n tm : config_ (track_sizes key o n tm).1 = config_ tm.1.
Proof. unfold track_sizes. cbn [fst]. case_match; [apply UpdateMemory_config|done]. Qed.

(** The counter moves by the difference of the sizes, when it has room. *)
Lemma track_sizes_memory key o n tm :
  enable_tracking (config_ tm.1) = true →
  (0 ≤ current_memory_ tm.1 + (n - o) < 2 ^ 64)%Z →
  current_memory_ (track_sizes key o n tm).1 = (current_memory_ tm.1 + (n - o))%Z.
Proof.
  intros He Hr. unfold track_sizes, UpdateMemory, AddMemory, SubtractMemory. cbn [fst]. rewrite He. cbn [negb].
  destruct (o =? n)%Z eqn:E1; b2p; cbn [negb]; [lia|].
  destruct (o <? n)%Z eqn:E2; b2p.
  - cbn [current_memory_]. apply u64_small. unfold in_u64. lia.
  - destruct (n <? o)%Z eqn:E3; b2p; [|lia]. destruct (current_memory_ tm.1 <? o - n)%Z eqn:E4; b2p; cbn; lia.
Qed.

(** ** Eviction

    Models src/astra/core/memory/eviction_strategy_2q.hpp (the 2Q strategy) and
    eviction_manager.hpp (victim selection and the eviction loop), and the check
    of eviction_monitor.hpp.  The manager works on a database through its
    metadata, its memory tracker and a callback that removes a key; here that
    is the interface [Host], which the database implements.  Random numbers
    come from the class [Random]. *)

(** [absl::Uniform<size_t>(rng, 0, n)] *)
Class Random := { rng : Type; uniform : Z → rng → Z * rng }.
Class RandomOk `{!Random} : Prop := { uniform_range n r : (0 < n → 0 ≤ (uniform n r).1 < n)%Z }.

(** ** The 2Q strategy *)

Inductive KeyState := kProbationary | kProtected.

#[global] Instance KeyState_eq_dec : EqDecision KeyState.
Proof. solve_decision. Defined.

Record EvictionStrategy2Q := Mk2Q {
  probationary_ratio_ : spec_float;
  probationary_queue_ : list bytes;
  protected_queue_ : list bytes;
  key_state_ : gmap bytes KeyState
}.
Implicit Types q : EvictionStrategy2Q.

Definition new_2q (ratio : spec_float) : EvictionStrategy2Q :=
  Mk2Q (if double_le ratio d0_0 || double_le d1_0 ratio then d0_067 else ratio) [] [] ∅.

(** [std::remove] and [erase]: every occurrence of the key goes. *)
Definition remove_key (key : bytes) (l : list bytes) : list bytes := filter (λ k, k ≠ key) l.

(** [std::find] and [erase]: the first occurrence goes. *)
Fixpoint erase_key (key : bytes) (l : list bytes) : list bytes :=
  match l with
  | [] => []
  | k :: l => if decide (k = key) then l else k :: erase_key key l
  end.

Definition PromoteToProtected (key : bytes) q : EvictionStrategy2Q :=
  let prob := remove_key key (probationary_queue_ q) in
  let states := <[key := kProtected]> (key_state_ q) in
  let total_keys := Z.of_nat (size states) in
  let probationary_size := scaled total_keys (probationary_ratio_ q) in
  let protected_max := u64 (total_keys - probationary_size) in
  let '(prob, prot, states) :=
    match protected_queue_ q with
    | demoted :: rest =>
        if (protected_max <=? zlen (protected_queue_ q))%Z
        then (prob ++ [demoted], rest, <[demoted := kProbationary]> states)
        else (prob, protected_queue_ q, states)
    | [] => (prob, [], states)
    end in
  Mk2Q (probationary_ratio_ q) prob (prot ++ [key]) states.

Definition RecordAccess (key : bytes) (key_exists : bool) q : EvictionStrategy2Q :=
  if negb key_exists then
    Mk2Q (probationary_ratio_ q) (probationary_queue_ q ++ [key]) (protected_queue_ q)
         (<[key := kProbationary]> (key_state_ q))
  else match key_state_ q !! key with
       | Some kProbationary => PromoteToProtected key q
       | Some kProtected =>
           if bool_decide (key ∈ protected_queue_ q)
           then Mk2Q (probationary_ratio_ q) (probationary_queue_ q)
                     (erase_key key (protected_queue_ q) ++ [key]) (key_state_ q)
           else q
       | None => q
       end.

Definition GetVictim (total_keys : Z) q : EvictionStrategy2Q * bytes :=
  let probationary_size := scaled total_keys (probationary_ratio_ q) in
  let probationary_count := Z.min probationary_size (zlen (probationary_queue_ q)) in
  let from_protected :=
    match protected_queue_ q with
    | victim :: rest =>
        (Mk2Q (probationary_ratio_ q) (probationary_queue_ q) rest (delete victim (key_state_ q)), victim)
    | [] => (q, [])
    end in
  if (0 <? probationary_count)%Z then
    match probationary_queue_ q with
    | victim :: rest =>
        (Mk2Q (probationary_ratio_ q) rest (protected_queue_ q) (delete victim (key_state_ q)), victim)
    | [] => from_protected
    end
  else from_protected.

Definition RemoveKey (key : bytes) q : EvictionStrategy2Q :=
  match key_state_ q !! key with
  | None => q
  | Some kProbationary =>
      Mk2Q (probationary_ratio_ q) (remove_key key (probationary_queue_ q)) (protected_queue_ q)
           (delete key (key_state_ q))
  | Some kProtected =>
      Mk2Q (probationary_ratio_ q) (probationary_queue_ q) (remove_key key (protected_queue_ q))
           (delete key (key_state_ q))
  end.

Definition GetProbationarySize q : Z := zlen (probationary_queue_ q).
Definition GetProtectedSize q : Z := zlen (protected_queue_ q).

(** ** The manager *)

Record EvictionStats := MkStats { lru_evicted : Z; lfu_evicted : Z; random_evicted : Z; ttl_evicted : Z }.

Record EvictionManager `{!Random} := MkEviction {
  stats_ : EvictionStats;
  rng_ : rng;
  strategy_2q_ : option EvictionStrategy2Q
}.

Definition no_stats : EvictionStats := MkStats 0 0 0 0.

Section Eviction.
Context {HR : Random}.
Implicit Types (em : EvictionManager) (keys : list bytes).

Definition new_manager (r : rng) : EvictionManager := MkEviction _ no_stats r None.

Definition with_stats (f : EvictionStats → EvictionStats) em : EvictionManager :=
  MkEviction _ (f (stats_ em)) (rng_ em) (strategy_2q_ em).
Definition with_rng (r : rng) em : EvictionManager := MkEviction _ (stats_ em) r (strategy_2q_ em).
Definition with_2q (q : option EvictionStrategy2Q) em : EvictionManager := MkEviction _ (stats_ em) (rng_ em) q.

(** The sampling loop of LRU and LFU: of [n] keys taken at random, the first
    one of the least measure below [best]. *)
Fixpoint sample_loop (measure : bytes → Z) keys (n : nat) (best_key : bytes) (best : Z) (r : rng) : bytes * rng :=
  match n with
  | O => (best_key, r)
  | S n =>
      let '(idx, r) := uniform (zlen keys) r in
      let key := default [] (keys !! Z.to_nat idx) in
      if (measure key <? best)%Z then sample_loop measure keys n key (measure key) r
      else sample_loop measure keys n best_key best r
  end.

Definition SelectVictim_LRU (m : Manager) (samples : Z) keys em : EvictionManager * bytes :=
  let '(oldest_key, r) :=
    sample_loop (λ k, GetAccessTime k m) keys (Z.to_nat samples) [] (2 ^ 32 - 1)%Z (rng_ em) in
  let em := with_rng r em in
  (if bool_decide (oldest_key = []) then em
   else with_stats (λ s, MkStats (lru_evicted s + 1) (lfu_evicted s) (random_evicted s) (ttl_evicted s)) em, oldest_key).

Definition SelectVictim_LFU (m : Manager) (samples : Z) keys em : EvictionManager * bytes :=
  let '(least_frequent_key, r) :=
    sample_loop (λ k, GetLFUCounter k m) keys (Z.to_nat samples) [] 255%Z (rng_ em) in
  let em := with_rng r em in
  (if bool_decide (least_frequent_key = []) then em
   else with_stats (λ s, MkStats (lru_evicted s) (lfu_evicted s + 1) (random_evicted s) (ttl_evicted s)) em,
   least_frequent_key).

Definition SelectVictim_Random keys em : EvictionManager * bytes :=
  match keys with
  | [] => (em, [])
  | _ =>
      let '(idx, r) := uniform (zlen keys) (rng_ em) in
      (with_stats (λ s, MkStats (lru_evicted s) (lfu_evicted s) (random_evicted s + 1) (ttl_evicted s)) (with_rng r em),
       default [] (keys !! Z.to_nat idx))
  end.

(** The loop over all keys; the clock is [now]. *)
Definition smallest_ttl (now : Z) (m : Manager) keys : bytes * Z :=
  foldl (λ best key,
    let ttl := GetTtlMs now now key m in
    if (0 <? ttl)%Z && (ttl <? best.2)%Z then (key, ttl) else best) ([], 2 ^ 63 - 1)%Z keys.

Definition SelectVictim_TTL (now : Z) (m : Manager) keys em : EvictionManager * bytes :=
  let smallest_ttl_key := (smallest_ttl now m keys).1 in
  (if bool_decide (smallest_ttl_key = []) then em
   else with_stats (λ s, MkStats (lru_evicted s) (lfu_evicted s) (random_evicted s) (ttl_evicted s + 1)) em,
   smallest_ttl_key).

Definition candidates (policy : EvictionPolicy) (m : Manager) : list bytes :=
  filter (λ key, IsVolatilePolicy policy = false ∨ HasTTL key m = true) (DGetAllKeys m).

Definition SelectVictim (now : Z) (samples : Z) (policy : EvictionPolicy) (m : Manager) em : EvictionManager * bytes :=
  match policy with
  | k2Q =>
      let q := match strategy_2q_ em with Some q => q | None => new_2q d0_067 end in
      let '(q, victim) := GetVictim (zlen (DGetAllKeys m)) q in
      (with_2q (Some q) em, victim)
  | _ =>
      match DGetAllKeys m with
      | [] => (em, [])
      | _ =>
          match candidates policy m with
          | [] => (em, [])
          | keys =>
              match policy with
              | kAllKeysLRU | kVolatileLRU => SelectVictim_LRU m samples keys em
              | kAllKeysLFU | kVolatileLFU => SelectVictim_LFU m samples keys em
              | kAllKeysRandom | kVolatileRandom => SelectVictim_Random keys em
              | kVolatileTTL => SelectVictim_TTL now m keys em
              | _ => (em, [])
              end
          end
      end
  end.
End Eviction.

(** What the manager sees of a database: the metadata, the tracker, the
    callback that deletes a key, and the memory of all workers when the server
    provides it. *)
Record Host (S : Type) := MkHost {
  host_metadata : S → Manager;
  host_set_metadata : Manager → S → S;
  host_tracker : S → MemoryTracker;
  eviction_callback_ : bytes → KeyType → S → S * bool;
  get_total_memory_callback_ : option (S → Z)
}.
Arguments MkHost {S} _ _ _ _ _.
Arguments host_metadata {S} _ _.
Arguments host_set_metadata {S} _ _ _.
Arguments host_tracker {S} _ _.
Arguments eviction_callback_ {S} _ _ _ _.
Arguments get_total_memory_callback_ {S} _.

Section EvictionLoop.
Context {HR : Random} {S : Type} (host : Host S).
Implicit Types (em : EvictionManager) (s : S).

Definition total_memory s : Z :=
  match get_total_memory_callback_ host with
  | Some callback => callback s
  | None => GetCurrentMemory (host_tracker host s)
  end.

Definition ShouldEvict (current_memory max_memory : Z) (policy : EvictionPolicy) s : bool :=
  if negb (enable_tracking (config_ (host_tracker host s))) then false
  else if (max_memory =? 0)%Z then false
  else if negb (IsEvictionActive policy) then false
  else (scaled max_memory (eviction_threshold (config_ (host_tracker host s))) <=? current_memory)%Z.

Definition ExecuteEviction (now : Z) (key : bytes) em s : EvictionManager * S * bool :=
  let '(m, key_type) := GetKeyType now key (host_metadata host s) in
  let s := host_set_metadata host m s in
  match key_type with
  | None => (em, s, false)
  | Some type =>
      let em :=
        match strategy_2q_ em with
        | Some q => if bool_decide (GetEvictionPolicy (host_tracker host s) = k2Q)
                    then with_2q (Some (RemoveKey key q)) em else em
        | None => em
        end in
      let '(s, evicted) := eviction_callback_ host key type s in
      (em, s, evicted)
  end.

(** The eviction loop; [iterations] counts down from [max_iterations]. *)
Fixpoint evict_loop (now : Z) (policy : EvictionPolicy) (max_memory : Z) (iterations : nat)
    (current_memory : Z) (evicted_count : Z) em s : EvictionManager * S * Z :=
  match iterations with
  | O => (em, s, evicted_count)
  | Datatypes.S iterations =>
      if negb (ShouldEvict current_memory max_memory policy s) then (em, s, evicted_count)
      else
        let '(em, victim_key) :=
          SelectVictim now (eviction_samples (config_ (host_tracker host s))) policy (host_metadata host s) em in
        if bool_decide (victim_key = []) then (em, s, evicted_count)
        else
          let '(em, s, evicted) := ExecuteEviction now victim_key em s in
          if evicted
          then evict_loop now policy max_memory iterations (total_memory s) (u64 (evicted_count + 1)) em s
          else evict_loop now policy max_memory iterations current_memory evicted_count em s
  end.

Definition max_iterations : nat := 100.

Definition CheckAndEvict (now : Z) em s : EvictionManager * S * Z :=
  let policy := GetEvictionPolicy (host_tracker host s) in
  let current_memory := total_memory s in
  let max_memory := GetMaxMemory (host_tracker host s) in
  if negb (ShouldEvict current_memory max_memory policy s) then (em, s, 0%Z)
  else if bool_decide (policy = kNoEviction) then (em, s, 0%Z)
  else evict_loop now policy max_memory max_iterations current_memory 0 em s.

(** One turn of the monitor thread. *)
Definition monitor_turn (now : Z) em s : EvictionManager * S :=
  if TrackerShouldEvict (host_tracker host s) then (CheckAndEvict now em s).1 else (em, s).
End EvictionLoop.

(** ** Eviction: what the loop does to a host

    The victims are candidates of the policy, an invariant of single evictions
    is an invariant of the loop, and the loop stops. *)

Section Victims.
Context {HR : Random}.
Implicit Types (em : EvictionManager) (keys : list bytes) (m : Manager).

Lemma sample_loop_in measure keys n : ∀ best_key best r,
  best_key = [] ∨ best_key ∈ keys →
  (sample_loop measure keys n best_key best r).1 = [] ∨ (sample_loop measure keys n best_key best r).1 ∈ keys.
Proof.
  induction n as [|n IH]; intros best_key best r H; cbn [sample_loop]; [done|].
  destruct (uniform (zlen keys) r) as [idx r']. cbv zeta. destruct (_ <? best)%Z; apply IH; [|done].
  destruct (keys !! Z.to_nat idx) as [k|] eqn:E; [|by left]. right. by eapply list_elem_of_lookup_2.
Qed.

Lemma smallest_ttl_in now m keys :
  ((smallest_ttl now m keys).1 = [] ∨ (smallest_ttl now m keys).1 ∈ keys) ∧
  ∀ k, k ∈ keys → (0 < GetTtlMs now now k m → (smallest_ttl now m keys).2 ≤ GetTtlMs now now k m)%Z.
Proof.
  unfold smallest_ttl. induction keys as [|k keys IH] using rev_ind.
  { split; [by left|]. intros k Hk. by apply elem_of_nil in Hk. }
  rewrite foldl_app. cbn [foldl]. destruct IH as [IH1 IH2].
  set (best := foldl _ _ keys) in *. cbv zeta. destruct (_ && _) eqn:E.
  - apply andb_prop in E as [E1 E2]. b2p. cbn [fst snd]. split; [right; apply elem_of_app; right; by apply list_elem_of_singleton|].
    intros k' [Hk|Hk]%elem_of_app Hp; [specialize (IH2 k' Hk Hp); lia|]. apply list_elem_of_singleton in Hk. subst. lia.
  - split; [destruct IH1 as [->|IH1]; [by left|right; apply elem_of_app; by left]|].
    intros k' [Hk|Hk]%elem_of_app Hp; [by apply IH2|]. apply list_elem_of_singleton in Hk. subst.
    apply andb_false_iff in E as [E|E]; b2p; lia.
Qed.

(** A victim is the empty key or a candidate; the 2Q strategy has its own
    queues. *)
Lemma SelectVictim_candidate now samples policy m em :
  policy ≠ k2Q →
  (SelectVictim now samples policy m em).2 = [] ∨ (SelectVictim now samples policy m em).2 ∈ candidates policy m.
Proof.
  intros Hp. unfold SelectVictim. destruct policy; try done;
    (destruct (DGetAllKeys m); [by left|]); (destruct (candidates _ m) as [|k ks] eqn:E; [by left|]); try (by left);
    unfold SelectVictim_LRU, SelectVictim_LFU, SelectVictim_Random, SelectVictim_TTL;
    try match goal with
    | |- context [sample_loop ?f ?ks ?n ?b ?v ?r] =>
        let H := fresh in assert (H := sample_loop_in f ks n b v r ltac:(by left)); by destruct (sample_loop f ks n b v r)
    end.
  all: try (destruct (uniform _ _) as [idx r]; cbn [snd]; destruct ((k :: ks) !! Z.to_nat idx) as [x|] eqn:Ex;
    [right; by eapply list_elem_of_lookup_2|by left]).
  apply smallest_ttl_in.
Qed.
End Victims.

(** ** Invariants of the loop *)

Section EvictionInvariant.
Context {HR : Random} {S : Type} (host : Host S) (I : S → Prop) (policy : EvictionPolicy).

Context (now : Z).

(** One eviction of a key the policy may choose keeps the invariant. *)
Hypothesis I_evict : ∀ key em s,
  I s → policy = k2Q ∨ key ∈ candidates policy (host_metadata host s) → I (ExecuteEviction host now key em s).1.2.

Lemma evict_loop_inv maxm n : ∀ cur cnt em s, I s → I (evict_loop host now policy maxm n cur cnt em s).1.2.
Proof.
  induction n as [|n IH]; intros cur cnt em s Hs; cbn [evict_loop]; [done|].
  destruct (negb _); [done|].
  assert (Hc := SelectVictim_candidate now (eviction_samples (config_ (host_tracker host s))) policy (host_metadata host s) em).
  destruct (SelectVictim _ _ _ _ em) as [em1 victim]. cbn [snd] in Hc. case_bool_decide; [done|].
  assert (He : I (ExecuteEviction host now victim em1 s).1.2).
  { apply I_evict; [done|]. destruct (decide (policy = k2Q)); [by left|]. right. by destruct (Hc ltac:(done)). }
  destruct (ExecuteEviction host now victim em1 s) as [[em2 s2] []]; cbn [fst snd] in *; by apply IH.
Qed.
End EvictionInvariant.

Lemma CheckAndEvict_inv {HR : Random} {S : Type} (host : Host S) (I : S → Prop) now em s :
  (∀ key em s', I s' →
     GetEvictionPolicy (host_tracker host s) = k2Q ∨
       key ∈ candidates (GetEvictionPolicy (host_tracker host s)) (host_metadata host s') →
     I (ExecuteEviction host now key em s').1.2) →
  I s → I (CheckAndEvict host now em s).1.2.
Proof.
  intros H Hs. unfold CheckAndEvict. cbv zeta. destruct (negb _); [done|]. case_bool_decide; [done|].
  by apply (evict_loop_inv host I _ now).
Qed.
