(* ===== verification/Rocks.v ===== *)
(** * RocksDB: the serializer and the adapter

    Models src/astra/persistence/rocksdb_serializer.hpp and the operations of
    rocksdb_adapter.cpp.  The RocksDB library and the FlatBuffers runtime are
    third-party code: the class [RocksLib] gives their calls, [RocksLibOk] what
    their documentation promises.  A FlatBuffers table is the record of the
    schema rocksdb.fbs, with an absent sub-table as [None]; the library turns it
    into bytes and back. *)
From Stdlib Require Import SpecFloat.
From S2P Require Import Prelude.
From S2P Require Import KeyMetadata.

(** ** Values *)

Inductive ValueType :=
  | VtString | VtHash | VtList | VtSet | VtSortedSet | VtBitmap | VtHyperLogLog | VtStream | VtVector | VtJson.

#[global] Instance ValueType_eq_dec : EqDecision ValueType.
Proof. solve_decision. Defined.

(** Components of vectors are the bit patterns of 32-bit floats. *)
Record VectorValue := MkVectorValue { vv_data : list Z; vv_dimension : Z; vv_distance_metric : Z; vv_index_name : bytes }.

Record KeyValue := MkKeyValue {
  value_type : ValueType;
  kv_timestamp : Z;
  kv_ttl_ms : Z;
  string_value : option bytes;
  hash_value : option (list (bytes * bytes));
  list_value : option (list (bytes * Z));
  set_value : option (list bytes);
  sortedset_value : option (list (bytes * spec_float));
  vector_value : option VectorValue;
  json_value : option bytes
}.

Inductive Status := StatusOk | StatusNotFound | StatusError.

Class RocksLib := {
  rocks_db : Type;
  (** the first argument is [WriteOptions::disableWAL] *)
  rocks_db_put : bool → bytes → bytes → rocks_db → rocks_db * Status;
  rocks_db_get : bytes → rocks_db → Status * bytes;
  rocks_db_delete : bool → bytes → rocks_db → rocks_db * Status;
  rocks_db_write : bool → list (bytes * bytes) → rocks_db → rocks_db * Status;
  (** [FlatBufferBuilder::Finish] and [GetKeyValue] *)
  finish_KeyValue : KeyValue → bytes;
  GetKeyValue : bytes → option KeyValue
}.

(** A store that accepts writes, and a buffer that reads back what was built. *)
Class RocksLibOk `{!RocksLib} : Prop := {
  rocks_put_ok w k v d : (rocks_db_put w k v d).2 = StatusOk;
  rocks_get_put w k v d : rocks_db_get k (rocks_db_put w k v d).1 = (StatusOk, v);
  rocks_get_put_ne w k k' v d : k ≠ k' → rocks_db_get k (rocks_db_put w k' v d).1 = rocks_db_get k d;
  rocks_delete_ok w k d : (rocks_db_delete w k d).2 = StatusOk;
  rocks_get_delete w k d : (rocks_db_get k (rocks_db_delete w k d).1).1 = StatusNotFound;
  rocks_get_delete_ne w k k' d : k ≠ k' → rocks_db_get k (rocks_db_delete w k' d).1 = rocks_db_get k d;
  GetKeyValue_finish kv : GetKeyValue (finish_KeyValue kv) = Some kv;
  finish_nonempty kv : finish_KeyValue kv ≠ []
}.

(** ** The serializer

    The time stamp and the remaining life default to zero, and every caller
    leaves them there. *)

Section Serializer.
Context {RL : RocksLib}.

Definition SerializeString (key value : bytes) (timestamp ttl_ms : Z) : bytes :=
  finish_KeyValue (MkKeyValue VtString timestamp ttl_ms (Some value) None None None None None None).

(** An absent value leaves the output as it was, which is empty. *)
Definition DeserializeString (serialized : bytes) : option bytes :=
  kv ← GetKeyValue serialized;
  if decide (value_type kv = VtString) then Some (default [] (string_value kv)) else None.

Definition SerializeHash (key : bytes) (fields : list (bytes * bytes)) (timestamp ttl_ms : Z) : bytes :=
  finish_KeyValue (MkKeyValue VtHash timestamp ttl_ms None (Some fields) None None None None None).

Definition DeserializeHash (serialized : bytes) : option (list (bytes * bytes)) :=
  kv ← GetKeyValue serialized;
  if decide (value_type kv = VtHash) then Some (default [] (hash_value kv)) else None.

Definition SerializeSet (key : bytes) (members : list bytes) (timestamp ttl_ms : Z) : bytes :=
  finish_KeyValue (MkKeyValue VtSet timestamp ttl_ms None None None (Some members) None None None).

Definition DeserializeSet (serialized : bytes) : option (list bytes) :=
  kv ← GetKeyValue serialized;
  if decide (value_type kv = VtSet) then Some (default [] (set_value kv)) else None.

Definition SerializeVector (key : bytes) (vector_data : list Z) (index_name : bytes) (dimension distance_metric : Z)
    (timestamp ttl_ms : Z) : bytes :=
  finish_KeyValue (MkKeyValue VtVector timestamp ttl_ms None None None None None
    (Some (MkVectorValue vector_data dimension distance_metric index_name)) None).

Definition DeserializeVector (serialized : bytes) : option VectorValue :=
  kv ← GetKeyValue serialized;
  if decide (value_type kv = VtVector)
  then Some (default (MkVectorValue [] 0 0 []) (vector_value kv)) else None.

Definition GetValueType (serialized : bytes) : option KeyType :=
  kv ← GetKeyValue serialized;
  match value_type kv with
  | VtString => Some kString
  | VtHash => Some kHash
  | VtSet => Some kSet
  | VtSortedSet => Some kZSet
  | VtList => Some kList
  | VtStream => Some kStream
  | VtVector => Some kVector
  | VtJson => Some kJson
  | VtBitmap | VtHyperLogLog => None
  end.

Definition SerializeJson (key json_str : bytes) (timestamp ttl_ms : Z) : bytes :=
  finish_KeyValue (MkKeyValue VtJson timestamp ttl_ms None None None None None None (Some json_str)).

Definition DeserializeJson (serialized : bytes) : option bytes :=
  kv ← GetKeyValue serialized;
  if decide (value_type kv = VtJson) then Some (default [] (json_value kv)) else None.
End Serializer.

(** ** The adapter *)

(** [db_] is null when the database could not be opened. *)
Record RocksDBAdapter `{!RocksLib} := MkAdapter { enable_wal : bool; db_ : option rocks_db }.

Section Adapter.
Context {RL : RocksLib}.
Implicit Types (a : RocksDBAdapter) (key : bytes).

Definition is_ok (s : Status) : bool := match s with StatusOk => true | _ => false end.

(** A write: the options, the call, and whether its status was ok. *)
Definition adapter_write (f : bool → rocks_db → rocks_db * Status) a : RocksDBAdapter * bool :=
  match db_ a with
  | None => (a, false)
  | Some d =>
      let '(d, status) := f (negb (enable_wal a)) d in (MkAdapter _ (enable_wal a) (Some d), is_ok status)
  end.

Definition RocksPut key (value : bytes) : RocksDBAdapter → RocksDBAdapter * bool :=
  adapter_write (λ w, rocks_db_put w key value).
Definition RocksDelete key : RocksDBAdapter → RocksDBAdapter * bool := adapter_write (λ w, rocks_db_delete w key).
Definition RocksBatchPut (kvs : list (bytes * bytes)) : RocksDBAdapter → RocksDBAdapter * bool :=
  adapter_write (λ w, rocks_db_write w kvs).

Definition RocksGet key a : option bytes :=
  d ← db_ a;
  match rocks_db_get key d with
  | (StatusOk, value) => Some value
  | _ => None
  end.

Definition RocksExists key a : bool :=
  match db_ a with
  | None => false
  | Some d => is_ok (rocks_db_get key d).1
  end.

(** ** Lemmas *)

Lemma adapter_write_open f a : is_Some (db_ a) → is_Some (db_ (adapter_write f a).1).
Proof. unfold adapter_write. intros [d ->]. by destruct (f (negb (enable_wal a)) d). Qed.

Lemma RocksGet_Put {HR : RocksLibOk} key key' value a :
  is_Some (db_ a) →
  RocksGet key (RocksPut key' value a).1 = if decide (key' = key) then Some value else RocksGet key a.
Proof.
  intros [d Hd]. unfold RocksGet, RocksPut, adapter_write. rewrite Hd.
  destruct (rocks_db_put _ key' value d) as [d' s] eqn:E. cbn [fst db_ mbind option_bind].
  assert (Hd' : d' = (rocks_db_put (negb (enable_wal a)) key' value d).1) by by rewrite E.
  case_decide; subst.
  - by rewrite rocks_get_put.
  - by rewrite rocks_get_put_ne.
Qed.

Lemma RocksGet_Delete {HR : RocksLibOk} key key' a :
  is_Some (db_ a) →
  RocksGet key (RocksDelete key' a).1 = if decide (key' = key) then None else RocksGet key a.
Proof.
  intros [d Hd]. unfold RocksGet, RocksDelete, adapter_write. rewrite Hd.
  destruct (rocks_db_delete _ key' d) as [d' s] eqn:E. cbn [fst db_ mbind option_bind].
  assert (Hd' : d' = (rocks_db_delete (negb (enable_wal a)) key' d).1) by by rewrite E.
  case_decide; subst.
  - assert (H := rocks_get_delete (negb (enable_wal a)) key d).
    destruct (rocks_db_get key _) as [s' v]. cbn in H. by subst.
  - by rewrite rocks_get_delete_ne.
Qed.

Lemma DeserializeString_Serialize {HR : RocksLibOk} key value t l :
  DeserializeString (SerializeString key value t l) = Some value.
Proof. unfold DeserializeString, SerializeString. by rewrite GetKeyValue_finish. Qed.

Lemma DeserializeHash_Serialize {HR : RocksLibOk} key fields t l :
  DeserializeHash (SerializeHash key fields t l) = Some fields.
Proof. unfold DeserializeHash, SerializeHash. by rewrite GetKeyValue_finish. Qed.

Lemma DeserializeSet_Serialize {HR : RocksLibOk} key members t l :
  DeserializeSet (SerializeSet key members t l) = Some members.
Proof. unfold DeserializeSet, SerializeSet. by rewrite GetKeyValue_finish. Qed.
End Adapter.
