(* ===== verification/Database.v ===== *)
(** * The database: state, memory and strings

    Models src/astra/commands/database.hpp: the typed key space of a worker
    with its metadata, memory tracker, eviction manager and RocksDB adapter.
    Operations are functions of the database and of [now], the time the clock
    shows while the operation runs.  Hash tables, sets, sorted sets and lists
    are held by shared pointers of one owner, the map; where an operation keeps
    such a pointer over an eviction that drops the key, its later write is lost
    ([put_back]).  RocksDB, random numbers, string hashing, memory allocation
    and JSON documents are third-party code and belong to the class [Platform]. *)
From Stdlib Require Import SpecFloat.
From S2P Require Import Prelude.
From S2P Require Import BPTreeNode.
From S2P Require Import BPTree.
From S2P Require Import OrderedSet.
From S2P Require Import ZSet.
From S2P Require Import Numbers.
From S2P Require Import Text.
From S2P Require Import KeyMetadata.
From S2P Require Import LinkedList.
From S2P Require Import Streams.
From S2P Require Import Eviction.
From S2P Require Import Rocks.

Class Platform := {
  platform_random :: Random;
  platform_numbers :: AbslNumbers;
  (** [absl::Hash<std::string>] *)
  hash : bytes → Z;
  (** whether a string of so many bytes can be allocated *)
  can_allocate : Z → bool;
  (** the texts of the exceptions [std::bad_alloc] and [std::out_of_range] *)
  alloc_what : bytes;
  range_what : bytes;
  platform_rocks :: RocksLib;
  (** [nlohmann::json] and its [dump] *)
  Json : Type;
  json_dump : Json → bytes
}.

(** [container::VectorEntry] *)
Inductive MetaValue := MetaInt (n : Z) | MetaDouble (d : spec_float) | MetaString (s : bytes) | MetaBool (b : bool).
Record VectorEntry := MkVectorEntry { vector : list Z; vector_metadata : gmap bytes MetaValue; index_name : bytes }.

Abbreviation HashType := (DashMap bytes).
Abbreviation SetType := (DashMap unit).
Abbreviation ZSetType := (ZSetBPlus (BPTree ScoredMemberCompact)).
Abbreviation ListType := (LinkedList bytes).

Inductive StorageMode := kRedis | kRocksDB.

#[global] Instance StorageMode_eq_dec : EqDecision StorageMode.
Proof. solve_decision. Defined.

(** The last field is the callback for the memory of all workers, as a function
    of the memory of this one. *)
Record Database `{!Platform} := MkDb {
  strings_ : DashMap bytes;
  hashes_ : DashMap HashType;
  sets_ : DashMap SetType;
  zsets_ : DashMap ZSetType;
  lists_ : DashMap ListType;
  streams_ : DashMap StreamData;
  vectors_ : DashMap VectorEntry;
  jsons_ : DashMap Json;
  metadata_manager_ : Manager;
  memory_tracker_ : option MemoryTracker;
  eviction_manager_ : option EvictionManager;
  rocksdb_adapter_ : option RocksDBAdapter;
  storage_mode_ : StorageMode;
  all_workers_memory : option (Z → Z)
}.

Section Database.
Context {P : Platform}.
Implicit Types (db : Database) (key : bytes).

Definition empty_database : Database :=
  MkDb _ dash_empty dash_empty dash_empty dash_empty dash_empty dash_empty dash_empty dash_empty dash_empty
       None None None kRedis None.

Definition with_strings (x : DashMap bytes) db : Database :=
  let 'MkDb _ _ b c d e f g h m t ev r sm am := db in MkDb _ x b c d e f g h m t ev r sm am.
Definition with_hashes (x : DashMap HashType) db : Database :=
  let 'MkDb _ a _ c d e f g h m t ev r sm am := db in MkDb _ a x c d e f g h m t ev r sm am.
Definition with_sets (x : DashMap SetType) db : Database :=
  let 'MkDb _ a b _ d e f g h m t ev r sm am := db in MkDb _ a b x d e f g h m t ev r sm am.
Definition with_zsets (x : DashMap ZSetType) db : Database :=
  let 'MkDb _ a b c _ e f g h m t ev r sm am := db in MkDb _ a b c x e f g h m t ev r sm am.
Definition with_lists (x : DashMap ListType) db : Database :=
  let 'MkDb _ a b c d _ f g h m t ev r sm am := db in MkDb _ a b c d x f g h m t ev r sm am.
Definition with_streams (x : DashMap StreamData) db : Database :=
  let 'MkDb _ a b c d e _ g h m t ev r sm am := db in MkDb _ a b c d e x g h m t ev r sm am.
Definition with_vectors (x : DashMap VectorEntry) db : Database :=
  let 'MkDb _ a b c d e f _ h m t ev r sm am := db in MkDb _ a b c d e f x h m t ev r sm am.
Definition with_jsons (x : DashMap Json) db : Database :=
  let 'MkDb _ a b c d e f g _ m t ev r sm am := db in MkDb _ a b c d e f g x m t ev r sm am.
Definition with_metadata (x : Manager) db : Database :=
  let 'MkDb _ a b c d e f g h _ t ev r sm am := db in MkDb _ a b c d e f g h x t ev r sm am.
Definition with_tracker (x : option MemoryTracker) db : Database :=
  let 'MkDb _ a b c d e f g h m _ ev r sm am := db in MkDb _ a b c d e f g h m x ev r sm am.
Definition with_eviction (x : option EvictionManager) db : Database :=
  let 'MkDb _ a b c d e f g h m t _ r sm am := db in MkDb _ a b c d e f g h m t x r sm am.
Definition with_rocks (x : option RocksDBAdapter) db : Database :=
  let 'MkDb _ a b c d e f g h m t ev _ sm am := db in MkDb _ a b c d e f g h m t ev x sm am.

(** ** Metadata *)

Definition register key (t : KeyType) db : Database := with_metadata (RegisterKey key t (metadata_manager_ db)) db.
Definition unregister key db : Database := with_metadata (UnregisterKey key (metadata_manager_ db)) db.
Definition touch (now : Z) key db : Database :=
  with_metadata (UpdateAccessInfo now key (metadata_manager_ db)).1 db.
Definition bump_version key db : Database := with_metadata (IncrementKeyVersion key (metadata_manager_ db)) db.

(** [metadata_manager_.IsValid(key)], which forgets an expired key. *)
Definition valid (now : Z) key db : Database * bool :=
  let '(m, ok) := IsValid now key (metadata_manager_ db) in (with_metadata m db, ok).

Definition ShouldTrackAccessInfo db : bool :=
  match memory_tracker_ db with
  | Some t => negb (bool_decide (GetEvictionPolicy t = kNoEviction))
  | None => false
  end.

Definition track_access (now : Z) key db : Database := if ShouldTrackAccessInfo db then touch now key db else db.

(** ** Persistence and eviction *)

Definition put_rocks key (serialized : bytes) db : Database :=
  match rocksdb_adapter_ db with
  | Some r => with_rocks (Some (RocksPut key serialized r).1) db
  | None => db
  end.

(** [DistanceMetric::kL2] *)
Definition kL2 : Z := 1.

Definition serialized_value key (t : KeyType) db : option bytes :=
  match t with
  | kString => (λ v, SerializeString key v 0 0) <$> DGet key (strings_ db)
  | kHash => (λ h, SerializeHash key (DGetAllKeyValuePairs h) 0 0) <$> DGet key (hashes_ db)
  | kSet => (λ s, SerializeSet key (DGetAllKeys s) 0 0) <$> DGet key (sets_ db)
  | kVector => (λ e, SerializeVector key (vector e) (index_name e) (u32 (zlen (vector e))) kL2 0 0) <$> DGet key (vectors_ db)
  | kJson => (λ doc, SerializeJson key (json_dump doc) 0 0) <$> DGet key (jsons_ db)
  | _ => None
  end.

(** Sorted sets, lists and streams are not written; neither is an empty
    serialization. *)
Definition PersistKey key (t : KeyType) db : Database :=
  match rocksdb_adapter_ db with
  | None => db
  | Some _ =>
      match serialized_value key t db with
      | Some ((_ :: _) as serialized) => put_rocks key serialized db
      | _ => db
      end
  end.

(** [strings_.Remove(key) || hashes_.Remove(key) || ...]: the first map that
    has the key loses it. *)
Definition remove_data key db : Database * bool :=
  if DContains key (strings_ db) then (with_strings (DRemove key (strings_ db)).1 db, true)
  else if DContains key (hashes_ db) then (with_hashes (DRemove key (hashes_ db)).1 db, true)
  else if DContains key (sets_ db) then (with_sets (DRemove key (sets_ db)).1 db, true)
  else if DContains key (zsets_ db) then (with_zsets (DRemove key (zsets_ db)).1 db, true)
  else if DContains key (lists_ db) then (with_lists (DRemove key (lists_ db)).1 db, true)
  else if DContains key (streams_ db) then (with_streams (DRemove key (streams_ db)).1 db, true)
  else if DContains key (vectors_ db) then (with_vectors (DRemove key (vectors_ db)).1 db, true)
  else if DContains key (jsons_ db) then (with_jsons (DRemove key (jsons_ db)).1 db, true)
  else (db, false).

(** [SubtractMemory(estimated_size + metadata_size)]: the sum of two 32-bit
    sizes is 32 bits wide. *)
Definition release_memory (estimated_size metadata_size : Z) db : Database :=
  with_tracker (SubtractMemory (u32 (estimated_size + metadata_size)) <$> memory_tracker_ db) db.

Definition EvictKey key (t : KeyType) db : Database * bool :=
  let db := PersistKey key t db in
  let '(db, removed) := remove_data key db in
  if removed then
    let db := release_memory (GetEstimatedSize key (metadata_manager_ db)) (EstimateMetadataSize key) db in
    (unregister key db, true)
  else (db, false).

Definition db_host (total : option (Z → Z)) : Host Database :=
  MkHost metadata_manager_ with_metadata (λ db, default (new_tracker default_config) (memory_tracker_ db)) EvictKey
    ((λ f db, f (default 0%Z (GetCurrentMemory <$> memory_tracker_ db))) <$> total).

(** The check the write operations end with. *)
Definition check_eviction (now : Z) db : Database :=
  match eviction_manager_ db, memory_tracker_ db with
  | Some em, Some t =>
      if ShouldCheckEviction t then
        let '(em, db, _) := CheckAndEvict (db_host (all_workers_memory db)) now em db in
        with_eviction (Some em) db
      else db
  | _, _ => db
  end.

(** An update of the tracker by one of the helpers. *)
Definition track_memory (f : tracked → tracked) db : Database :=
  match memory_tracker_ db with
  | Some t => let '(t, m) := f (t, metadata_manager_ db) in with_tracker (Some t) (with_metadata m db)
  | None => db
  end.

Definition persist_all_in key (t : KeyType) db : Database :=
  if decide (storage_mode_ db = kRocksDB) then PersistKey key t db else db.

(** A database as the server creates it. *)
Definition fresh (t : option MemoryTracker) (em : option EvictionManager) (a : option RocksDBAdapter)
    (mode : StorageMode) (total : option (Z → Z)) : Database :=
  MkDb _ dash_empty dash_empty dash_empty dash_empty dash_empty dash_empty dash_empty dash_empty dash_empty t em a mode total.

(** ** Strings *)

Definition DbSet (now : Z) key (value : bytes) db : Database :=
  let old := DGet key (strings_ db) in
  let db := with_strings (DInsert key value (strings_ db)).1 db in
  let db := match old with None => register key kString db | Some _ => bump_version key db end in
  let db := track_access now key db in
  let db := track_memory (UpdateString key (default [] old) value) db in
  let db := check_eviction now db in
  persist_all_in key kString db.

(** A string found in RocksDB enters the key space. *)
Definition load_string (now : Z) key (serialized : bytes) db : Database * option bytes :=
  match DeserializeString serialized with
  | None => (db, None)
  | Some value =>
      let db := with_strings (DInsert key value (strings_ db)).1 db in
      let db := track_access now key (register key kString db) in
      let db := track_memory (UpdateString key [] value) db in
      (db, DGet key (strings_ db))
  end.

(** In the mode where RocksDB holds all data, a miss ends there; the test of the
    expiry time after it is not reached in either mode. *)
Definition DbGet (now : Z) key db : Database * option bytes :=
  let from_rocks db :=
    match rocksdb_adapter_ db with
    | Some r => match RocksGet key r with
                | Some serialized => load_string now key serialized db
                | None => (db, None)
                end
    | None => (db, None)
    end in
  match DGet key (strings_ db) with
  | Some value => (track_access now key db, Some value)
  | None => from_rocks db
  end.

(** [GETRANGE] *)
Definition DbGetRange (now : Z) key (start stop : Z) db : Database * bytes :=
  let '(db, value) := DbGet now key db in
  match value with
  | None => (db, [])
  | Some str =>
      let len := zlen str in
      let start := if (start <? 0)%Z then (len + start)%Z else start in
      let stop := if (stop <? 0)%Z then (len + stop)%Z else stop in
      let start := if (start <? 0)%Z then 0%Z else start in
      let stop := if (len <=? stop)%Z then (len - 1)%Z else stop in
      (db, if (stop <? start)%Z || (len <=? start)%Z then []
           else take (Z.to_nat (stop - start + 1)) (drop (Z.to_nat start) str))
  end.

(** [resize] and [std::copy]. *)
Definition overwrite (offset : nat) (value str : bytes) : bytes :=
  let str := str ++ replicate (offset + length value - length str) "000"%char in
  take offset str ++ value ++ drop (offset + length value) str.

(** [SETRANGE]; [None] when the string cannot be allocated. *)
Definition DbSetRange (now : Z) key (offset : Z) (value : bytes) db : Database * option Z :=
  let '(db, existing) := DbGet now key db in
  let str := default [] existing in
  if (offset <? 0)%Z then (db, Some (zlen str))
  else if (zlen str <? offset + zlen value)%Z && negb (can_allocate (offset + zlen value)) then (db, None)
  else
    let str := overwrite (Z.to_nat offset) value str in
    (DbSet now key str db, Some (zlen str)).

Definition DbDel key db : Database * bool :=
  let estimated_size := GetEstimatedSize key (metadata_manager_ db) in
  let metadata_size := EstimateMetadataSize key in
  let '(db, removed) := remove_data key db in
  let db := if removed then release_memory estimated_size metadata_size db else db in
  let db := unregister key db in
  let db :=
    if removed && bool_decide (storage_mode_ db = kRocksDB) then
      match rocksdb_adapter_ db with
      | Some r => with_rocks (Some (RocksDelete key r).1) db
      | None => db
      end
    else db in
  (db, removed).

(** The keys one after the other; for more than a hundred keys the source runs
    the same calls in parallel tasks. *)
Definition DbDelMany (keys : list bytes) db : Database * Z :=
  foldl (λ acc key, let '(db, removed) := DbDel key acc.1 in
                    (db, if removed then (acc.2 + 1)%Z else acc.2)) (db, 0%Z) keys.

Definition DbMGet (now : Z) (keys : list bytes) db : Database * list (option bytes) :=
  foldl (λ acc key, let '(db, value) := DbGet now key acc.1 in (db, acc.2 ++ [value])) (db, []) keys.

Definition DbExists (now : Z) key db : Database * bool := valid now key db.
Definition DbGetKeyVersion key db : Z := GetKeyVersion key (metadata_manager_ db).

(** ** Expiry times and totals *)

Definition on_metadata {R} (f : Manager → Manager * R) db : Database * R :=
  let '(m, r) := f (metadata_manager_ db) in (with_metadata m db, r).

Definition DbSetExpireSeconds (now : Z) key (seconds : Z) : Database → Database * bool :=
  on_metadata (SetExpireSeconds now key seconds).
Definition DbSetExpireMs key (ms : Z) : Database → Database * bool := on_metadata (SetExpireMs key ms).
Definition DbGetTtlSeconds (now : Z) key db : Z := GetTtlSeconds now now key (metadata_manager_ db).
Definition DbGetTtlMs (now : Z) key db : Z := GetTtlMs now now key (metadata_manager_ db).
Definition DbGetExpireTimeMs (now : Z) key db : option Z := GetExpireTimeMs now key (metadata_manager_ db).
Definition DbPersist key : Database → Database * bool := on_metadata (Persist key).
Definition DbGetExpiredKeys db : list bytes := GetExpiredKeys (metadata_manager_ db).
Definition DbGetType (now : Z) key : Database → Database * option KeyType := on_metadata (GetKeyType now key).
Definition DbGetAllKeys db : list bytes := DGetAllKeys (metadata_manager_ db).
Definition DbSize db : Z := DSize (metadata_manager_ db).
Definition DbGetKeyCount db : Z :=
  u64 (DSize (strings_ db) + DSize (hashes_ db) + DSize (lists_ db) + DSize (sets_ db) +
       DSize (zsets_ db) + DSize (streams_ db)).

(** Streams, vectors and JSON documents stay. *)
Definition DbClear db : Database :=
  with_metadata (MetaClear (metadata_manager_ db))
    (with_lists (DClear (lists_ db)) (with_zsets (DClear (zsets_ db))
      (with_sets (DClear (sets_ db)) (with_hashes (DClear (hashes_ db)) (with_strings (DClear (strings_ db)) db))))).

(** ** Streams *)

Definition DbGetStream key db : option StreamData := DGet key (streams_ db).

(** A new stream is registered as a string. *)
Definition DbGetOrCreateStream key db : Database * StreamData :=
  match DGet key (streams_ db) with
  | Some s => (db, s)
  | None => (register key kString (with_streams (DInsert key new_stream (streams_ db)).1 db), new_stream)
  end.
Definition put_stream key (s : StreamData) db : Database := with_streams (DInsert key s (streams_ db)).1 db.
End Database.
