(* ===== verification/DatabaseTypes.v ===== *)
(** * The database: hashes, sets and lists

    The operations of src/astra/commands/database.hpp on hash tables, sets and
    lists.  Where the source holds the container by a pointer across an
    eviction, [put_back] writes it only if the key is still there. *)
From Stdlib Require Import SpecFloat.
From S2P Require Import Prelude.
From S2P Require Import Numbers.
From S2P Require Import Text.
From S2P Require Import RespTypes.
From S2P Require Import KeyMetadata.
From S2P Require Import LinkedList.
From S2P Require Import Streams.
From S2P Require Import Eviction.
From S2P Require Import Rocks.
From S2P Require Import Database.

(** A write through the pointer to the container of a key. *)
Definition put_back {V} (key : bytes) (v : V) (m : DashMap V) : DashMap V :=
  if DContains key m then (DInsert key v m).1 else m.

(** ** Fixed notation

    [std::fixed << std::setprecision(p)] and [std::to_string]: the value
    rounded to [p] decimals, ties to even. *)

Definition div_even (a b : Z) : Z :=
  let q := (a / b)%Z in
  let r := (a mod b)%Z in
  if (2 * r <? b)%Z then q else if (b <? 2 * r)%Z then (q + 1)%Z else if Z.even q then q else (q + 1)%Z.

(** [m * 2 ^ e * 10 ^ p] rounded. *)
Definition scaled_digits (p : nat) (m e : Z) : Z :=
  if (0 <=? e)%Z then (m * 10 ^ Z.of_nat p * 2 ^ e)%Z else div_even (m * 10 ^ Z.of_nat p) (2 ^ (- e)).

Definition fixed_nonneg (p : nat) (n : Z) : bytes :=
  let whole := (n / 10 ^ Z.of_nat p)%Z in
  let frac := (n mod 10 ^ Z.of_nat p)%Z in
  let frac_digits := decimal p frac in
  decimal 310 whole ++ B "." ++ replicate (p - length frac_digits) "0"%char ++ frac_digits.

Definition print_fixed (p : nat) (d : spec_float) : bytes :=
  match d with
  | S754_zero s => (if s then B "-" else []) ++ fixed_nonneg p 0
  | S754_finite s m e => (if s then B "-" else []) ++ fixed_nonneg p (scaled_digits p (Zpos m) e)
  | S754_infinity s => (if s then B "-" else []) ++ B "inf"
  | S754_nan => B "nan"
  end.

(** Trailing zeros go when a digit other than zero follows the point; a whole
    number keeps its zeros. *)
Fixpoint drop_zeros (rev : bytes) : bytes :=
  match rev with c :: rest => if decide (c = "0"%char) then drop_zeros rest else rev | [] => [] end.
Definition trim_fixed (s : bytes) : bytes :=
  if bool_decide ("."%char ∈ s) then
    match drop_zeros (reverse s) with
    | c :: rest => if decide (c = "."%char) then s else reverse (c :: rest)
    | [] => s
    end
  else s.

Section DatabaseTypes.
Context {P : Platform} {HD : DoubleText}.
Implicit Types (db : Database) (key field member value : bytes).

(** ** Hash tables *)

Definition GetHash key db : option HashType := DGet key (hashes_ db).

(** [GetHash], and a new table when there is none. *)
Definition hash_or_new key db : Database * HashType :=
  match GetHash key db with
  | Some h => (db, h)
  | None => (register key kHash (with_hashes (DInsert key dash_empty (hashes_ db)).1 db), dash_empty)
  end.

Definition put_hash key (h : HashType) db : Database := with_hashes (put_back key h (hashes_ db)) db.

Definition DbHSet (now : Z) key field value db : Database * bool :=
  let old := h ← GetHash key db; DGet field h in
  let '(db, h) := hash_or_new key db in
  let db := track_memory (UpdateHashField key (bool_decide (is_Some old)) (default [] old) value) db in
  let db := check_eviction now db in
  let '(h, result) := DInsert field value h in
  let db := put_hash key h db in
  (if result then persist_all_in key kHash db else db, result).

(** An operation on the table of a key that is valid; [default] otherwise. *)
Definition on_hash {R} (now : Z) key (d : R) (f : HashType → HashType * R) db : Database * R :=
  let '(db, ok) := valid now key db in
  if negb ok then (db, d)
  else match GetHash key db with
       | None => (db, d)
       | Some h => let '(h, r) := f h in (put_hash key h db, r)
       end.

Definition DbHGet (now : Z) key field : Database → Database * option bytes :=
  on_hash now key None (λ h, (h, DGet field h)).
Definition DbHDel (now : Z) key field : Database → Database * bool := on_hash now key false (DRemove field).
Definition DbHExists (now : Z) key field : Database → Database * bool :=
  on_hash now key false (λ h, (h, DContains field h)).
Definition DbHDelMany (now : Z) key (fields : list bytes) : Database → Database * Z :=
  on_hash now key 0%Z (λ h, foldl (λ acc field, let '(h, removed) := DRemove field acc.1 in
                                     (h, if removed then (acc.2 + 1)%Z else acc.2)) (h, 0%Z) fields).
Definition DbHLen (now : Z) key : Database → Database * Z := on_hash now key 0%Z (λ h, (h, DSize h)).
Definition DbHMGet (now : Z) key (fields : list bytes) : Database → Database * list (option bytes) :=
  on_hash now key (replicate (length fields) None) (λ h, (h, map (λ field, DGet field h) fields)).

(** A value that is no number leaves the table as it is. *)
Definition DbHIncrBy key field (increment : Z) db : Database * Z :=
  let '(db, h) := hash_or_new key db in
  match (match DGet field h with Some value => SimpleAtoi value | None => Some 0%Z end) with
  | None => (db, 0%Z)
  | Some n =>
      let n := i64 (n + increment) in
      (put_hash key (DInsert field (print_int n) h).1 db, n)
  end.

Definition DbHIncrByFloat key field (increment : spec_float) db : Database * spec_float :=
  let '(db, h) := hash_or_new key db in
  match (match DGet field h with Some value => atod value | None => Some d0_0 end) with
  | None => (db, d0_0)
  | Some x =>
      let x := double_add x increment in
      (put_hash key (DInsert field (trim_fixed (print_fixed 17 x)) h).1 db, x)
  end.

Definition DbHSetNx key field value db : Database * bool :=
  match GetHash key db with
  | None =>
      let '(db, h) := hash_or_new key db in (put_hash key (DInsert field value h).1 db, true)
  | Some h => if DContains field h then (db, false) else (put_hash key (DInsert field value h).1 db, true)
  end.

(** ** Sets *)

Definition GetSet key db : option SetType := DGet key (sets_ db).

Definition set_or_new key db : Database * SetType :=
  match GetSet key db with
  | Some s => (db, s)
  | None => (register key kSet (with_sets (DInsert key dash_empty (sets_ db)).1 db), dash_empty)
  end.

Definition put_set key (s : SetType) db : Database := with_sets (put_back key s (sets_ db)) db.

Definition DbSAdd (now : Z) key member db : Database * bool :=
  let member_existed := match GetSet key db with Some s => DContains member s | None => false end in
  let '(db, s) := set_or_new key db in
  let db := track_memory (UpdateSetMember key member_existed member) db in
  let db := check_eviction now db in
  let '(s, result) := DInsert member tt s in
  let db := put_set key s db in
  (if result then persist_all_in key kSet db else db, result).

Definition on_set {R} (now : Z) key (d : R) (f : SetType → SetType * R) db : Database * R :=
  let '(db, ok) := valid now key db in
  if negb ok then (db, d)
  else match GetSet key db with
       | None => (db, d)
       | Some s => let '(s, r) := f s in (put_set key s db, r)
       end.

Definition DbSRem (now : Z) key member : Database → Database * bool := on_set now key false (DRemove member).
Definition DbSIsMember (now : Z) key member : Database → Database * bool :=
  on_set now key false (λ s, (s, DContains member s)).
Definition DbSCard (now : Z) key : Database → Database * Z := on_set now key 0%Z (λ s, (s, DSize s)).

(** A member at random, and its removal; the generator is threaded through. *)
Definition pick_member (s : SetType) (r : rng) : option bytes * rng :=
  if DEmpty s then (None, r)
  else match DGetAllKeys s with
       | [] => (None, r)
       | members => let '(idx, r) := uniform (zlen members) r in (members !! Z.to_nat idx, r)
       end.

Definition DbSPop (now : Z) key (r : rng) db : Database * (option bytes * rng) :=
  on_set now key (None, r) (λ s,
    let '(member, r) := pick_member s r in
    (match member with Some m => (DRemove m s).1 | None => s end, (member, r))) db.

Definition DbSRandMember (now : Z) key (r : rng) : Database → Database * (option bytes * rng) :=
  on_set now key (None, r) (λ s, (s, pick_member s r)).

Definition DbSMove (now : Z) source destination member db : Database * bool :=
  let '(db, ok) := valid now source db in
  if negb ok then (db, false)
  else match GetSet source db with
       | None => (db, false)
       | Some s =>
           if negb (DContains member s) then (db, false)
           else
             let db := put_set source (DRemove member s).1 db in
             let '(db, d) := set_or_new destination db in
             (put_set destination (DInsert member tt d).1 db, true)
       end.

(** The loop of [SInterLocal] over the sets after the first. *)
Fixpoint inter_loop (now : Z) (keys result : list bytes) db : Database * list bytes :=
  match keys with
  | [] => (db, result)
  | key :: keys =>
      let '(db, ok) := valid now key db in
      if negb ok then (db, [])
      else match GetSet key db with
           | None => (db, [])
           | Some s =>
               let result := filter (λ m, DContains m s = true) result in
               match result with [] => (db, []) | _ => inter_loop now keys result db end
           end
  end.

Definition DbSInterLocal (now : Z) (keys : list bytes) db : Database * list bytes :=
  match keys with
  | [] => (db, [])
  | key :: keys =>
      match GetSet key db with
      | None => (db, [])
      | Some s => inter_loop now keys (DGetAllKeys s) db
      end
  end.

(** [union_set], in the order of a hash set. *)
Definition DbSUnion (now : Z) (keys : list bytes) db : Database * list bytes :=
  let '(db, union_set) :=
    foldl (λ acc key,
      let '(db, ok) := valid now key acc.1 in
      if negb ok then (db, acc.2)
      else (db, match GetSet key db with
                | Some s => list_to_set (DGetAllKeys s) ∪ acc.2
                | None => acc.2
                end)) (db, ∅ : gset bytes) keys in
  (db, elements union_set).

Definition DbSDiff (now : Z) (keys : list bytes) db : Database * list bytes :=
  match keys with
  | [] => (db, [])
  | key :: keys =>
      match GetSet key db with
      | None => (db, [])
      | Some s =>
          foldl (λ acc key,
            let '(db, ok) := valid now key acc.1 in
            if negb ok then (db, acc.2)
            else (db, match GetSet key db with
                      | Some s => filter (λ m, DContains m s = false) acc.2
                      | None => acc.2
                      end)) (db, DGetAllKeys s) keys
      end
  end.

(** The destination is cleared or created, and gets the members. *)
Definition store_set destination (members : list bytes) db : Database * Z :=
  let db := match GetSet destination db with
            | Some s => put_set destination (DClear s) db
            | None => (set_or_new destination db).1
            end in
  let s := foldl (λ s m, (DInsert m tt s).1) dash_empty members in
  (put_set destination s db, zlen members).

(** [SInterStore], [SUnionStore] and [SDiffStore] with all sets on this
    worker. *)
Definition DbSInterStore (now : Z) destination (keys : list bytes) db : Database * Z :=
  let '(db, members) := DbSInterLocal now keys db in store_set destination members db.
Definition DbSUnionStore (now : Z) destination (keys : list bytes) db : Database * Z :=
  let '(db, members) := DbSUnion now keys db in store_set destination members db.
Definition DbSDiffStore (now : Z) destination (keys : list bytes) db : Database * Z :=
  let '(db, members) := DbSDiff now keys db in store_set destination members db.

(** ** Lists *)

Definition GetList key db : option ListType := DGet key (lists_ db).

Definition put_list key (l : ListType) db : Database := with_lists (put_back key l (lists_ db)) db.

Definition list_or_new key db : Database * ListType :=
  match GetList key db with
  | Some l => (db, l)
  | None => (register key kList (with_lists (DInsert key empty_list (lists_ db)).1 db), empty_list)
  end.

Definition push_with (now : Z) (push : bytes → ListType → ListType) key value db : Database :=
  let '(db, l) := list_or_new key db in
  let db := track_memory (UpdateListElement key false value) db in
  let db := check_eviction now db in
  put_list key (push value l) db.

Definition DbLPush (now : Z) key value db : Database * bool := (push_with now PushLeft key value db, true).
Definition DbRPush (now : Z) key value db : Database * bool := (push_with now PushRight key value db, true).

(** [lists_.Remove(key)] and [UnregisterKey(key)] *)
Definition drop_list key db : Database := unregister key (with_lists (DRemove key (lists_ db)).1 db).

(** An operation on a valid list; the key goes when [gone] says so. *)
Definition on_list {R} (now : Z) key (d : R) (f : ListType → ListType * R) (gone : ListType → R → bool) db
    : Database * R :=
  let '(db, ok) := valid now key db in
  if negb ok then (db, d)
  else match GetList key db with
       | None => (db, d)
       | Some l =>
           let '(l, r) := f l in
           let db := put_list key l db in
           (if gone l r then drop_list key db else db, r)
       end.

Definition DbLPop (now : Z) key : Database → Database * option bytes :=
  on_list now key None PopLeft (λ l r, negb (bool_decide (is_Some r)) || LEmpty l).
Definition DbRPop (now : Z) key : Database → Database * option bytes :=
  on_list now key None PopRight (λ l r, negb (bool_decide (is_Some r)) || LEmpty l).
Definition DbLLen (now : Z) key : Database → Database * Z := on_list now key 0%Z (λ l, (l, LSize l)) (λ _ _, false).
Definition DbLIndex (now : Z) key (index : Z) : Database → Database * option bytes :=
  on_list now key None (λ l, (l, Index index l)) (λ _ _, false).
Definition DbLSet (now : Z) key (index : Z) value : Database → Database * bool :=
  on_list now key false (LSet index value) (λ _ _, false).
Definition DbLRange (now : Z) key (start stop : Z) : Database → Database * list bytes :=
  on_list now key [] (λ l, (l, LRange start stop l)) (λ _ _, false).
Definition DbLTrim (now : Z) key (start stop : Z) : Database → Database * bool :=
  on_list now key false (λ l, (Trim start stop l, true)) (λ l _, LEmpty l).
Definition DbLRem (now : Z) key value (count : Z) : Database → Database * Z :=
  on_list now key 0%Z (LRemove value count) (λ l _, LEmpty l).
Definition DbLInsert (now : Z) key (pivot_index : Z) value (before : bool) : Database → Database * bool :=
  on_list now key false (LInsert pivot_index value before) (λ _ _, false).

(** The value is pushed at the right end of the destination. *)
Definition DbRPopLPush (now : Z) source destination db : Database * option bytes :=
  let '(db, value) := DbRPop now source db in
  match value with
  | None => (db, None)
  | Some v => ((DbRPush now destination v db).1, Some v)
  end.

(** ** Loading from RocksDB *)

Definition LoadFromRocksDB (now : Z) key db : Database * bool :=
  match rocksdb_adapter_ db with
  | None => (db, false)
  | Some r =>
      match RocksGet key r with
      | None => (db, false)
      | Some serialized =>
          match GetValueType serialized with
          | Some kString =>
              match DeserializeString serialized with
              | Some value =>
                  (track_access now key (register key kString (with_strings (DInsert key value (strings_ db)).1 db)), true)
              | None => (db, false)
              end
          | Some kHash =>
              match DeserializeHash serialized with
              | Some fields =>
                  let h := foldl (λ h fv, (DInsert fv.1 fv.2 h).1) dash_empty fields in
                  (touch now key (register key kHash (with_hashes (DInsert key h (hashes_ db)).1 db)), true)
              | None => (db, false)
              end
          | Some kSet =>
              match DeserializeSet serialized with
              | Some members =>
                  let s := foldl (λ s m, (DInsert m tt s).1) dash_empty members in
                  (touch now key (register key kSet (with_sets (DInsert key s (sets_ db)).1 db)), true)
              | None => (db, false)
              end
          | _ => (db, false)
          end
      end
  end.

Definition DbHGetAll (now : Z) key db : Database * list (bytes * bytes) :=
  let db := if bool_decide (storage_mode_ db = kRocksDB) && negb (DContains key (hashes_ db))
            then (LoadFromRocksDB now key db).1 else db in
  on_hash now key [] (λ h, (h, DGetAllKeyValuePairs h)) db.

Definition DbSMembers (now : Z) key db : Database * list bytes :=
  let db := if bool_decide (storage_mode_ db = kRocksDB) && negb (DContains key (sets_ db))
            then (LoadFromRocksDB now key db).1 else db in
  on_set now key [] (λ s, (s, DGetAllKeys s)) db.
End DatabaseTypes.
