(* ===== verification/DatabaseZSets.v ===== *)
(** * The database: sorted sets and iteration

    The operations of src/astra/commands/database.hpp on sorted sets, and
    [ForEachKey].  Scores are doubles other than NaN; where arithmetic on scores
    could produce a NaN the operation has no result ([None]). *)
From Stdlib Require Import SpecFloat.
From S2P Require Import Prelude.
From S2P Require Import BPTreeNode.
From S2P Require Import BPTree.
From S2P Require Import OrderedSet.
From S2P Require Import ZSet.
From S2P Require Import Simd.
From S2P Require Import Numbers.
From S2P Require Import Text.
From S2P Require Import RespTypes.
From S2P Require Import KeyMetadata.
From S2P Require Import LinkedList.
From S2P Require Import Streams.
From S2P Require Import Eviction.
From S2P Require Import Rocks.
From S2P Require Import Database.
From S2P Require Import DatabaseTypes.

Definition score_of (d : spec_float) : option Score :=
  match is_nan d as b return is_nan d = b → option Score with
  | true => λ _, None
  | false => λ H, Some (MkScore d H)
  end eq_refl.

Section DatabaseZSets.
Context {P : Platform} {HD : DoubleText}.
Implicit Types (db : Database) (key member : bytes).

Definition GetZSet key db : option ZSetType := DGet key (zsets_ db).
Definition put_zset key (z : ZSetType) db : Database := with_zsets (put_back key z (zsets_ db)) db.

Definition zset_or_new key db : Database * ZSetType :=
  match GetZSet key db with
  | Some z => (db, z)
  | None => (register key kZSet (with_zsets (DInsert key empty_zset (zsets_ db)).1 db), empty_zset)
  end.

Definition DbZAdd (now : Z) key (s : Score) member db : Database * bool :=
  let member_existed := match GetZSet key db with Some z => ZContains member z | None => false end in
  let '(db, z) := zset_or_new key db in
  let db := track_memory (UpdateZSetMember key member_existed member) db in
  let db := check_eviction now db in
  let '(z, result) := Add hash member s z in
  (put_zset key z db, result).

Definition on_zset {R} (now : Z) key (d : R) (f : ZSetType → ZSetType * R) db : Database * R :=
  let '(db, ok) := valid now key db in
  if negb ok then (db, d)
  else match GetZSet key db with
       | None => (db, d)
       | Some z => let '(z, r) := f z in (put_zset key z db, r)
       end.

Definition DbZScore (now : Z) key member : Database → Database * option Score :=
  on_zset now key None (λ z, (z, GetScore member z)).
Definition DbZRem (now : Z) key member : Database → Database * bool := on_zset now key false (Remove hash member).
Definition DbZCard (now : Z) key : Database → Database * Z := on_zset now key 0%Z (λ z, (z, ZSize z)).
Definition DbZCount (now : Z) key (lo hi : Score) : Database → Database * Z :=
  on_zset now key 0%Z (λ z, (z, CountRange lo hi z)).
Definition DbZRank (now : Z) key member (reverse : bool) : Database → Database * option Z :=
  on_zset now key None (λ z, (z, GetRank hash member reverse z)).

(** The index arithmetic of [ZRange] and [ZRangeByRank]: the casts to
    [uint64_t] at the end turn a stop of -1 into the largest number. *)
Definition clamp_ranks (start stop size : Z) : option (Z * Z) :=
  if (size =? 0)%Z then None
  else
    let start := if (start <? 0)%Z then (if (size + start <? 0)%Z then 0 else size + start)%Z else start in
    let stop := if (stop <? 0)%Z then (if (size + stop <? 0)%Z then -1 else size + stop)%Z else stop in
    if (size <=? start)%Z then None
    else
      let stop := if (size <=? stop)%Z then (size - 1)%Z else stop in
      Some (u64 start, u64 stop).

Definition zrange (start stop : Z) (reverse with_scores : bool) (z : ZSetType) : list (bytes * Score) :=
  match clamp_ranks start stop (ZSize z) with
  | None => []
  | Some (start, stop) => GetRangeByRank start stop reverse with_scores z
  end.

Definition DbZRange (now : Z) key (start stop : Z) (reverse with_scores : bool)
    : Database → Database * list (bytes * Score) :=
  on_zset now key [] (λ z, (z, zrange start stop reverse with_scores z)).

(** The [reverse] argument is not passed on. *)
Definition DbZRangeByRank (now : Z) key (start stop : Z) (reverse with_scores : bool)
    : Database → Database * list (bytes * Score) :=
  on_zset now key [] (λ z, (z, zrange start stop false with_scores z)).

(** [ZPopMin] and [ZPopMax]: the element of a rank goes; an empty set loses its
    metadata and stays in the map. *)
Definition pop_rank (now : Z) key (rank : ZSetType → Z) db : Database * option (bytes * Score) :=
  let '(db, ok) := valid now key db in
  if negb ok then (db, None)
  else match GetZSet key db with
       | None => (db, None)
       | Some z =>
           if (ZSize z =? 0)%Z then (db, None)
           else match GetRangeByRank (rank z) (rank z) false true z with
                | [] => (db, None)
                | ms :: _ =>
                    let z := (Remove hash ms.1 z).1 in
                    let db := put_zset key z db in
                    (if (ZSize z =? 0)%Z then unregister key db else db, Some ms)
                end
       end.

Definition DbZPopMin (now : Z) key : Database → Database * option (bytes * Score) := pop_rank now key (λ _, 0%Z).
Definition DbZPopMax (now : Z) key : Database → Database * option (bytes * Score) :=
  pop_rank now key (λ z, u64 (ZSize z - 1)).

(** ** Ranges of scores *)

(** [parse_score]: whether the bound is exclusive, and its value; a text that is
    no number is an inclusive zero. *)
Definition parse_score (s : bytes) : bool * spec_float :=
  if decide (s = B "-inf") then (true, S754_infinity true)
  else if decide (s = B "-INF") then (true, S754_infinity true)
  else if bool_decide (s ∈ [B "+inf"; B "+INF"; B "inf"; B "INF"]) then (true, S754_infinity false)
  else
    let '(exclusive, score_str) :=
      match s with
      | c :: rest => if decide (c = "("%char) then (true, rest)
                     else if decide (c = "["%char) then (false, rest) else (false, s)
      | [] => (false, [])
      end in
    match atod score_str with
    | Some value => (exclusive, value)
    | None => (false, d0_0)
    end.

(** [LIMIT offset count] *)
Definition apply_limit {A} (offset count : Z) (l : list A) : list A :=
  let size := zlen l in
  let stop := if (count <? 0)%Z then size else i64 (offset + count) in
  let start := if (offset <? 0)%Z then (if (size + offset <? 0)%Z then 0 else size + offset)%Z else offset in
  if (size <=? start)%Z then []
  else
    let stop := if (size <? stop)%Z then size else stop in
    take (Z.to_nat (stop - start)) (drop (Z.to_nat start) l).

(** The exclusive bounds are tested on the scores the range came with, which are
    zero when scores were not asked for. *)
Definition zrange_by_score (min_str max_str : bytes) (reverse with_scores : bool) (limit : option (Z * Z))
    (z : ZSetType) : option (list (bytes * Score)) :=
  let '(min_exclusive, min_score) := parse_score min_str in
  let '(max_exclusive, max_score) := parse_score max_str in
  lo ← score_of min_score; hi ← score_of max_score;
  let results := GetRangeByScore lo hi with_scores z in
  let filtered := filter (λ ms : bytes * Score,
    (min_exclusive && score_le ms.2 lo) || (max_exclusive && score_le hi ms.2) = false) results in
  let filtered := if reverse then List.rev filtered else filtered in
  Some (match limit with Some (offset, count) => apply_limit offset count filtered | None => filtered end).

Definition DbZRangeByScore (now : Z) key (min_str max_str : bytes) (reverse with_scores : bool)
    (limit : option (Z * Z)) : Database → Database * option (list (bytes * Score)) :=
  on_zset now key (Some []) (λ z, (z, zrange_by_score min_str max_str reverse with_scores limit z)).

(** ** Arithmetic on scores *)

Definition DbZIncrBy key (increment : spec_float) member db : option (Database * spec_float) :=
  let '(db, z) := zset_or_new key db in
  let current := match GetScore member z with Some s => dval s | None => d0_0 end in
  s ← score_of (double_add current increment);
  Some (put_zset key (Add hash member s z).1 db, dval s).

(** [std::min] and [std::max] *)
Definition double_min (a b : spec_float) : spec_float := if double_lt b a then b else a.
Definition double_max (a b : spec_float) : spec_float := if double_lt a b then b else a.

(** The aggregation of a second score; [None] for a name that is none of the
    three. *)
Definition aggregate_scores (aggregate : bytes) (a b : spec_float) : option spec_float :=
  if decide (aggregate = B "SUM") then Some (double_add a b)
  else if decide (aggregate = B "MIN") then Some (double_min a b)
  else if decide (aggregate = B "MAX") then Some (double_max a b)
  else None.

Definition all_members (z : ZSetType) : list (bytes * Score) :=
  GetRangeByRank 0 (u64 (ZSize z - 1)) false true z.

Abbreviation Scores := (gmap bytes spec_float).

(** One sorted set joins the union. *)
Definition union_members (weight : spec_float) (aggregate : bytes) (ms : list (bytes * Score)) (acc : Scores) : Scores :=
  foldl (λ acc m,
    let weighted := double_mul (dval m.2) weight in
    match acc !! m.1 with
    | None => <[m.1 := weighted]> acc
    | Some old => <[m.1 := default old (aggregate_scores aggregate old weighted)]> acc
    end) acc ms.

Fixpoint union_loop (now : Z) (aggregate : bytes) (weights : list spec_float) (i : nat) (keys : list bytes)
    (acc : Scores) db : Database * Scores :=
  match keys with
  | [] => (db, acc)
  | key :: keys =>
      let '(db, ok) := valid now key db in
      let acc :=
        if negb ok then acc
        else match GetZSet key db with
             | None => acc
             | Some z => union_members (default d1_0 (weights !! i)) aggregate (all_members z) acc
             end in
      union_loop now aggregate weights (S i) keys acc db
  end.

(** The destination is cleared or created and gets the members; [None] when a
    score is NaN. *)
Definition store_zset destination (members : list (bytes * spec_float)) db : option Database :=
  let '(db, z) :=
    match GetZSet destination db with
    | Some z => (db, default empty_zset (ZClear z))
    | None => zset_or_new destination db
    end in
  z ← foldl (λ z m, z ← z; s ← score_of m.2; Some (Add hash m.1 s z).1) (Some z) members;
  Some (put_zset destination z db).

Definition DbZUnionStore (now : Z) destination (numkeys : Z) (keys : list bytes) (weights : list spec_float)
    (aggregate : bytes) db : option (Database * Z) :=
  if negb (zlen keys =? numkeys)%Z then Some (db, 0%Z)
  else
    let '(db, acc) := union_loop now aggregate weights 0 keys ∅ db in
    db ← store_zset destination (map_to_list acc) db;
    Some (db, Z.of_nat (size acc)).

(** One sorted set cuts the intersection down; a name that is no aggregation
    drops every member. *)
Definition inter_members (weight : spec_float) (aggregate : bytes) (ms : list (bytes * Score)) (acc : Scores) : Scores :=
  let current : Scores := list_to_map ((λ m, (m.1, dval m.2)) <$> ms) in
  map_imap (λ m s, w ← current !! m; aggregate_scores aggregate s (double_mul w weight)) acc.

(** [None] when the intersection is empty or a key is missing. *)
Fixpoint zinter_loop (now : Z) (aggregate : bytes) (weights : list spec_float) (i : nat) (keys : list bytes)
    (acc : Scores) db : Database * option Scores :=
  match keys with
  | [] => (db, Some acc)
  | key :: keys =>
      let '(db, ok) := valid now key db in
      if negb ok then (db, None)
      else match GetZSet key db with
           | None => (db, None)
           | Some z =>
               let acc := inter_members (default d1_0 (weights !! i)) aggregate (all_members z) acc in
               if decide (acc = ∅) then (db, None) else zinter_loop now aggregate weights (S i) keys acc db
           end
  end.

Definition DbZInterStore (now : Z) destination (numkeys : Z) (keys : list bytes) (weights : list spec_float)
    (aggregate : bytes) db : option (Database * Z) :=
  if negb (zlen keys =? numkeys)%Z || (numkeys =? 0)%Z then Some (db, 0%Z)
  else match keys with
       | [] => Some (db, 0%Z)
       | key :: keys =>
           match GetZSet key db with
           | None => Some (db, 0%Z)
           | Some z =>
               let weight := default d1_0 (weights !! 0) in
               let first := foldl (λ acc m, <[m.1 := double_mul (dval m.2) weight]> acc) (∅ : Scores) (all_members z) in
               let '(db, acc) := zinter_loop now aggregate weights 1 keys first db in
               match acc with
               | None => Some (db, 0%Z)
               | Some acc =>
                   db ← store_zset destination (map_to_list acc) db;
                   Some (db, Z.of_nat (size acc))
               end
           end
       end.

Definition DbZDiff (now : Z) (numkeys : Z) (keys : list bytes) db : Database * list (bytes * Score) :=
  if negb (zlen keys =? numkeys)%Z || (numkeys =? 0)%Z then (db, [])
  else match keys with
       | [] => (db, [])
       | key :: keys =>
           match GetZSet key db with
           | None => (db, [])
           | Some z =>
               foldl (λ acc key,
                 let '(db, ok) := valid now key acc.1 in
                 if negb ok then (db, acc.2)
                 else (db, match GetZSet key db with
                           | Some z => filter (λ m, m.1 ∉ (all_members z).*1) acc.2
                           | None => acc.2
                           end)) (db, all_members z) keys
           end
       end.

Definition DbZDiffStore (now : Z) destination (numkeys : Z) (keys : list bytes) db : option (Database * Z) :=
  let '(db, members) := DbZDiff now numkeys keys db in
  db ← store_zset destination ((λ m, (m.1, dval m.2)) <$> members) db;
  Some (db, zlen members).

(** ** Iteration for snapshots *)

(** [std::to_string(double)] *)
Definition to_string_double (d : spec_float) : bytes := print_fixed 6 d.

(** What [ForEachKey] hands to its callback: key, type, text and remaining time. *)
Definition ForEachKey (now : Z) db : list (bytes * KeyType * bytes * Z) :=
  let entry key t text := (key, t, text, DbGetTtlMs now key db) in
  let lines {A} (f : A → bytes) (l : list A) := concat (map (λ x, f x ++ [LF]) l) in
  ((λ kv, entry kv.1 kString kv.2) <$> DGetAllKeyValuePairs (strings_ db)) ++
  ((λ kv, entry kv.1 kHash (lines (λ fv, fv.1 ++ B ":" ++ fv.2) (DGetAllKeyValuePairs kv.2)))
     <$> DGetAllKeyValuePairs (hashes_ db)) ++
  ((λ kv, entry kv.1 kList (lines (λ e, e) (LRange 0 (-1) kv.2))) <$> DGetAllKeyValuePairs (lists_ db)) ++
  ((λ kv, entry kv.1 kSet (lines (λ m, m) (DGetAllKeys kv.2))) <$> DGetAllKeyValuePairs (sets_ db)) ++
  ((λ kv, entry kv.1 kZSet (lines (λ ms, ms.1 ++ B ":" ++ to_string_double (dval ms.2)) (GetAll kv.2)))
     <$> DGetAllKeyValuePairs (zsets_ db)).
End DatabaseZSets.
