(* ===== verification/DatabaseInv.v ===== *)
(** * The database: its invariant

    Every operation keeps the counters of the maps right and keeps the
    metadata honest: a registered key has data. *)
From Stdlib Require Import SpecFloat.
From S2P Require Import Prelude.
From S2P Require Import BPTreeNode.
From S2P Require Import BPTree.
From S2P Require Import OrderedSet.
From S2P Require Import ZSet.
From S2P Require Import Simd.
From S2P Require Import Numbers.
From S2P Require Import RespTypes.
From S2P Require Import KeyMetadata.
From S2P Require Import LinkedList.
From S2P Require Import Text.
From S2P Require Import Streams.
From S2P Require Import Eviction.
From S2P Require Import Rocks.
From S2P Require Import Database.
From S2P Require Import DatabaseTypes.
From S2P Require Import DatabaseZSets.

#[local] Arguments DRemove : simpl never.
#[local] Arguments DInsert : simpl never.
#[local] Arguments DContains : simpl never.

(** ** The invariant *)

Section DatabaseInv.
Context {P : Platform} {HD : DoubleText}.
Implicit Types (db : Database) (key : bytes).

Definition registered key db : bool := DContains key (metadata_manager_ db).

Definition present key db : bool :=
  DContains key (strings_ db) || DContains key (hashes_ db) || DContains key (sets_ db) ||
  DContains key (zsets_ db) || DContains key (lists_ db) || DContains key (streams_ db) ||
  DContains key (vectors_ db) || DContains key (jsons_ db).

Record counts_ok db : Prop := {
  ok_strings : dash_ok (strings_ db);
  ok_hashes : dash_ok (hashes_ db) ∧ map_Forall (λ _ h, dash_ok h) (map_ (hashes_ db));
  ok_sets : dash_ok (sets_ db) ∧ map_Forall (λ _ s, dash_ok s) (map_ (sets_ db));
  ok_zsets : dash_ok (zsets_ db);
  ok_lists : dash_ok (lists_ db) ∧ map_Forall (λ _ l, list_ok l) (map_ (lists_ db));
  ok_streams : dash_ok (streams_ db);
  ok_vectors : dash_ok (vectors_ db);
  ok_jsons : dash_ok (jsons_ db);
  ok_metadata : dash_ok (metadata_manager_ db)
}.

(** Every registered key other than the excepted one has data. *)
Definition honest_but (except : option bytes) db : Prop :=
  ∀ k, Some k ≠ except → registered k db = true → present k db = true.

Definition db_ok db : Prop := counts_ok db ∧ honest_but None db.

(** ** Elementary updates *)

Definition sub_keys {V} (m m' : DashMap V) : Prop := ∀ k, DContains k m = true → DContains k m' = true.

Lemma present_spec key db :
  present key db = true ↔
  DContains key (strings_ db) = true ∨ DContains key (hashes_ db) = true ∨ DContains key (sets_ db) = true ∨
  DContains key (zsets_ db) = true ∨ DContains key (lists_ db) = true ∨ DContains key (streams_ db) = true ∨
  DContains key (vectors_ db) = true ∨ DContains key (jsons_ db) = true.
Proof. unfold present. rewrite !orb_true_iff. tauto. Qed.

Ltac db_update db H :=
  destruct db; destruct H as [[? ? ? ? ? ? ? ? ?] Hh]; cbn in *;
  (split; [by split; cbn|]); intros k Hk Hr; specialize (Hh k Hk Hr);
  revert Hh; rewrite !present_spec; cbn; clear Hk Hr; try (match goal with Hs : sub_keys _ _ |- _ => specialize (Hs k) end); tauto.

Lemma ok_with_strings x db : db_ok db → dash_ok x → sub_keys (strings_ db) x → db_ok (with_strings x db).
Proof. intros H Hx Hs. db_update db H. Qed.

Lemma ok_with_hashes x db :
  db_ok db → dash_ok x → map_Forall (λ _ h, dash_ok h) (map_ x) → sub_keys (hashes_ db) x → db_ok (with_hashes x db).
Proof. intros H Hx Hf Hs. db_update db H. Qed.

Lemma ok_with_sets x db :
  db_ok db → dash_ok x → map_Forall (λ _ h, dash_ok h) (map_ x) → sub_keys (sets_ db) x → db_ok (with_sets x db).
Proof. intros H Hx Hf Hs. db_update db H. Qed.

Lemma ok_with_zsets x db : db_ok db → dash_ok x → sub_keys (zsets_ db) x → db_ok (with_zsets x db).
Proof. intros H Hx Hs. db_update db H. Qed.

Lemma ok_with_lists x db :
  db_ok db → dash_ok x → map_Forall (λ _ l, list_ok l) (map_ x) → sub_keys (lists_ db) x → db_ok (with_lists x db).
Proof. intros H Hx Hf Hs. db_update db H. Qed.

Lemma ok_with_streams x db : db_ok db → dash_ok x → sub_keys (streams_ db) x → db_ok (with_streams x db).
Proof. intros H Hx Hs. db_update db H. Qed.

Lemma ok_with_tracker x db : db_ok db → db_ok (with_tracker x db).
Proof. intros H. db_update db H. Qed.

Lemma ok_with_eviction x db : db_ok db → db_ok (with_eviction x db).
Proof. intros H. db_update db H. Qed.

Lemma ok_with_rocks x db : db_ok db → db_ok (with_rocks x db).
Proof. intros H. db_update db H. Qed.

(** New metadata without new keys. *)
Lemma ok_with_metadata m db : db_ok db → dash_ok m → sub_keys m (metadata_manager_ db) → db_ok (with_metadata m db).
Proof.
  intros [Hc Hh] Hm Hs. destruct db. destruct Hc. cbn in *. split; [by split; cbn|].
  intros k Hk Hr. apply (Hh k Hk). by apply Hs.
Qed.

Lemma sub_keys_refl {V} (m : DashMap V) : sub_keys m m.
Proof. by intros k. Qed.

Lemma sub_keys_insert {V} k v (m : DashMap V) : sub_keys m (DInsert k v m).1.
Proof. intros x Hx. rewrite DContains_insert, Hx. apply orb_true_r. Qed.

Lemma sub_keys_remove {V} k (m : DashMap V) : sub_keys (DRemove k m).1 m.
Proof. intros x. rewrite DContains_remove, andb_true_iff. tauto. Qed.

Lemma sub_keys_update f k (m : Manager) : sub_keys (update_entry f k m).1 m.
Proof.
  intros x. rewrite !DContains_spec, DGet_update. case_bool_decide; [|done]. by rewrite fmap_is_Some.
Qed.

Lemma update_entry_ok f k (m : Manager) : dash_ok m → dash_ok (update_entry f k m).1.
Proof. intros H. unfold update_entry. destruct (DGet k m); [|done]. by apply DInsert_ok. Qed.

Lemma dash_ok_metadata db : db_ok db → dash_ok (metadata_manager_ db).
Proof. intros [[] _]. done. Qed.

(** An update of the entry of one key. *)
Lemma ok_update_entry f k db : db_ok db → db_ok (with_metadata (update_entry f k (metadata_manager_ db)).1 db).
Proof.
  intros H. apply ok_with_metadata; [done| |apply sub_keys_update]. by apply update_entry_ok, dash_ok_metadata.
Qed.

Lemma type_sub now key (m : Manager) : sub_keys (GetKeyType now key m).1 m.
Proof. unfold GetKeyType. repeat case_match; try apply sub_keys_refl. apply sub_keys_remove. Qed.

Lemma ok_type now key db : db_ok db → db_ok (with_metadata (GetKeyType now key (metadata_manager_ db)).1 db).
Proof.
  intros H. apply ok_with_metadata; [done| |apply type_sub].
  exact (meta_step_ok (metadata_manager_ db) (MGetKeyType now key) (dash_ok_metadata db H)).
Qed.

Lemma ok_valid now key db : db_ok db → db_ok (valid now key db).1.
Proof.
  intros H. unfold valid. destruct (IsValid now key (metadata_manager_ db)) as [m ok] eqn:E. cbn [fst].
  assert (Hm := meta_step_ok (metadata_manager_ db) (MIsValid now key) (dash_ok_metadata db H)).
  cbn [meta_step] in Hm. rewrite E in Hm. apply ok_with_metadata; [done|done|].
  unfold IsValid in E. repeat case_match; simplify_eq; try apply sub_keys_refl. apply sub_keys_remove.
Qed.

Lemma registered_register k key t db : registered k (register key t db) = bool_decide (key = k) || registered k db.
Proof. destruct db. unfold registered, register, RegisterKey. cbn. apply DContains_insert. Qed.

Lemma present_with_metadata k m db : present k (with_metadata m db) = present k db.
Proof. by destruct db. Qed.

(** Registering a key that has data. *)
Lemma ok_register key t db : db_ok db → present key db = true → db_ok (register key t db).
Proof.
  intros [Hc Hh] Hp. split.
  - destruct db, Hc. split; cbn in *; try done. by apply DInsert_ok.
  - intros k Hk. rewrite registered_register, orb_true_iff, bool_decide_eq_true. unfold register.
    rewrite present_with_metadata. intros [->|Hr]; [done|by apply Hh].
Qed.

(** Forgetting a key, whose data may be gone. *)
Lemma ok_unregister key db : counts_ok db → honest_but (Some key) db → db_ok (unregister key db).
Proof.
  intros Hc Hh. split.
  - destruct db, Hc. split; cbn in *; try done. by apply DRemove_ok.
  - intros k _ Hr. unfold unregister. rewrite present_with_metadata.
    unfold registered, unregister, UnregisterKey in Hr. destruct db. cbn in *.
    rewrite DContains_remove, andb_true_iff, negb_true_iff, bool_decide_eq_false in Hr. destruct Hr as [Hne Hr].
    apply Hh; [congruence|done].
Qed.

Lemma ok_honest_but e db : db_ok db → honest_but e db.
Proof. intros [_ H] k _. by apply H. Qed.

Lemma ok_unregister' key db : db_ok db → db_ok (unregister key db).
Proof. intros H. apply ok_unregister; [apply H|by apply ok_honest_but]. Qed.

(** ** Access information and memory *)

Lemma ok_touch now key db : db_ok db → db_ok (touch now key db).
Proof. apply ok_update_entry. Qed.

Lemma ok_bump_version key db : db_ok db → db_ok (bump_version key db).
Proof. apply ok_update_entry. Qed.

Lemma ok_track_access now key db : db_ok db → db_ok (track_access now key db).
Proof. unfold track_access. destruct (ShouldTrackAccessInfo db); [apply ok_touch|done]. Qed.

(** The helpers of the tracker change one estimated size. *)
Definition sizes_only (f : tracked → tracked) : Prop :=
  ∀ tm, ∃ g key, (f tm).2 = (update_entry g key tm.2).1.

Lemma track_sizes_only f key (o n : tracked → Z) :
  (∀ tm, f tm = track_sizes key (o tm) (n tm) tm) → sizes_only f.
Proof. intros Hf tm. rewrite Hf. by eexists _, _. Qed.

Lemma UpdateString_only key o n : sizes_only (UpdateString key o n).
Proof. by eapply track_sizes_only. Qed.

Lemma UpdateHashField_only key e o n : sizes_only (UpdateHashField key e o n).
Proof. by eapply track_sizes_only. Qed.

Lemma UpdateElement_only oh key e x : sizes_only (UpdateElement oh key e x).
Proof. by eapply track_sizes_only. Qed.

Lemma ok_track_memory f db : sizes_only f → db_ok db → db_ok (track_memory f db).
Proof.
  intros Hf H. unfold track_memory. destruct (memory_tracker_ db) as [t|]; [|done].
  destruct (Hf (t, metadata_manager_ db)) as (g & key & E). destruct (f _) as [t' m]. cbn [snd] in E. subst m.
  by apply ok_with_tracker, ok_update_entry.
Qed.

(** ** Eviction *)

Lemma ok_put_rocks key v db : db_ok db → db_ok (put_rocks key v db).
Proof. intros H. unfold put_rocks. destruct (rocksdb_adapter_ db); [by apply ok_with_rocks|done]. Qed.

Lemma ok_PersistKey key t db : db_ok db → db_ok (PersistKey key t db).
Proof.
  intros H. unfold PersistKey. destruct (rocksdb_adapter_ db); [|done].
  destruct (serialized_value key t db) as [[|c v]|]; [done| |done]. by apply ok_put_rocks.
Qed.

Lemma ok_persist_all_in key t db : db_ok db → db_ok (persist_all_in key t db).
Proof. intros H. unfold persist_all_in. destruct (decide _); [by apply ok_PersistKey|done]. Qed.

Lemma map_Forall_DRemove {V} (Q : bytes → V → Prop) key (m : DashMap V) :
  map_Forall Q (map_ m) → map_Forall Q (map_ (DRemove key m).1).
Proof. rewrite DRemove_map. by apply map_Forall_delete. Qed.

Lemma remove_data_ok key db :
  db_ok db → counts_ok (remove_data key db).1 ∧ honest_but (Some key) (remove_data key db).1.
Proof.
  intros [Hc Hh]. assert (Hstay : ∀ V (m : DashMap V) k, k ≠ key → DContains k (DRemove key m).1 = DContains k m).
  { intros V m k Hk. rewrite DContains_remove, bool_decide_eq_false_2 by congruence. done. }
  unfold remove_data. repeat match goal with |- context [if ?b then _ else _] => destruct b end; cbn [fst];
    (split; [destruct db, Hc; split; cbn in *;
        destruct_and?; split_and?; auto using DRemove_dash, map_Forall_DRemove
      |intros k Hk Hr; assert (Hne : k ≠ key) by congruence; specialize (Hh k ltac:(done));
       destruct db; cbn in *; unfold present, registered in *; cbn in *; rewrite ?Hstay by done; auto]).
Qed.

Lemma counts_with_tracker x db : counts_ok db → counts_ok (with_tracker x db).
Proof. intros []. by destruct db. Qed.

Lemma honest_with_tracker e x db : honest_but e db → honest_but e (with_tracker x db).
Proof. by destruct db. Qed.

Lemma ok_EvictKey key t db : db_ok db → db_ok (EvictKey key t db).1.
Proof.
  intros H. unfold EvictKey. cbv zeta. assert (H1 := ok_PersistKey key t db H).
  unfold remove_data at 1. assert (H2 := remove_data_ok key _ H1).
  fold (remove_data key (PersistKey key t db)). revert H2.
  destruct (remove_data key (PersistKey key t db)) as [db1 []] eqn:E; cbn [fst]; intros [Hc Hh].
  - apply ok_unregister; [by apply counts_with_tracker|by apply honest_with_tracker].
  - unfold remove_data in E. by repeat case_match; simplify_eq.
Qed.

Lemma ok_ExecuteEviction total now key em db :
  db_ok db → db_ok (ExecuteEviction (db_host total) now key em db).1.2.
Proof.
  intros H. unfold ExecuteEviction. cbn [host_metadata host_set_metadata eviction_callback_ db_host].
  assert (H1 := ok_type now key db H). destruct (GetKeyType now key _) as [m [t|]]; cbn [fst snd] in *; [|done].
  assert (H2 := ok_EvictKey key t _ H1). by destruct (EvictKey key t _).
Qed.

Lemma ok_check_eviction now db : db_ok db → db_ok (check_eviction now db).
Proof.
  intros H. unfold check_eviction. destruct (eviction_manager_ db) as [em|]; [|done].
  destruct (memory_tracker_ db) as [t|]; [|done]. destruct (ShouldCheckEviction t); [|done].
  assert (Hi := CheckAndEvict_inv (db_host (all_workers_memory db)) db_ok now em db
    ltac:(intros; by apply ok_ExecuteEviction) H).
  destruct (CheckAndEvict _ now em db) as [[em' db'] n]. by apply ok_with_eviction.
Qed.
End DatabaseInv.

Create HintDb database.
#[export] Hint Resolve ok_with_tracker ok_with_eviction ok_with_rocks ok_valid ok_touch ok_bump_version
  ok_track_access ok_track_memory UpdateString_only UpdateHashField_only UpdateElement_only ok_PersistKey
  ok_persist_all_in ok_EvictKey ok_check_eviction ok_unregister' sub_keys_refl sub_keys_insert DInsert_dash DRemove_dash dash_empty_ok : database.

(** ** The database: histories

    The operations of the database as one type and their steps, and that every
    step, evictions included, keeps the invariant. *)

#[local] Arguments DRemove : simpl never.
#[local] Arguments DInsert : simpl never.
#[local] Arguments DContains : simpl never.

Section DatabaseOps.
Context {P : Platform} {HD : DoubleText}.
Implicit Types (db : Database) (key : bytes).

(** ** Hash tables *)

Lemma map_Forall_DInsert {V} (Q : V → Prop) key v (m : DashMap V) :
  Q v → map_Forall (λ _, Q) (map_ m) → map_Forall (λ _, Q) (map_ (DInsert key v m).1).
Proof. intros Hv Hm. rewrite DInsert_map. by apply map_Forall_insert_2. Qed.

Lemma put_back_ok {V} key (v : V) m : dash_ok m → dash_ok (put_back key v m) ∧ sub_keys m (put_back key v m).
Proof.
  intros Hm. unfold put_back. destruct (DContains key m); [|by split; [|apply sub_keys_refl]].
  split; [by apply DInsert_dash|apply sub_keys_insert].
Qed.

Lemma put_back_Forall {V} (Q : V → Prop) key v (m : DashMap V) :
  Q v → map_Forall (λ _, Q) (map_ m) → map_Forall (λ _, Q) (map_ (put_back key v m)).
Proof. intros Hv Hm. unfold put_back. destruct (DContains key m); [by apply map_Forall_DInsert|done]. Qed.

Lemma ok_put_hash key h db : db_ok db → dash_ok h → db_ok (put_hash key h db).
Proof.
  intros H Hh. destruct (ok_hashes _ (proj1 H)) as [Hd Hf]. destruct (put_back_ok key h _ Hd).
  apply ok_with_hashes; [done|done| |done]. by apply (put_back_Forall dash_ok).
Qed.

Lemma ok_put_set key s db : db_ok db → dash_ok s → db_ok (put_set key s db).
Proof.
  intros H Hs. destruct (ok_sets _ (proj1 H)) as [Hd Hf]. destruct (put_back_ok key s _ Hd).
  apply ok_with_sets; [done|done| |done]. by apply (put_back_Forall dash_ok).
Qed.

Lemma ok_put_list key l db : db_ok db → list_ok l → db_ok (put_list key l db).
Proof.
  intros H Hl. destruct (ok_lists _ (proj1 H)) as [Hd Hf]. destruct (put_back_ok key l _ Hd).
  apply ok_with_lists; [done|done| |done]. by apply (put_back_Forall list_ok).
Qed.

Lemma ok_put_zset key z db : db_ok db → db_ok (put_zset key z db).
Proof.
  intros H. destruct (put_back_ok key z _ (ok_zsets _ (proj1 H))). by apply ok_with_zsets.
Qed.

(** What the tables hold. *)
Lemma GetHash_ok key db h : db_ok db → GetHash key db = Some h → dash_ok h.
Proof. intros H E. destruct (ok_hashes _ (proj1 H)) as [_ Hf]. exact (Hf key h E). Qed.

Lemma GetSet_ok key db s : db_ok db → GetSet key db = Some s → dash_ok s.
Proof. intros H E. destruct (ok_sets _ (proj1 H)) as [_ Hf]. exact (Hf key s E). Qed.

Lemma GetList_ok key db l : db_ok db → GetList key db = Some l → list_ok l.
Proof. intros H E. destruct (ok_lists _ (proj1 H)) as [_ Hf]. exact (Hf key l E). Qed.

Lemma present_insert {V} key (v : V) (m : DashMap V) : DContains key (DInsert key v m).1 = true.
Proof. by rewrite DContains_insert, bool_decide_eq_true_2. Qed.

(** A new container is stored and registered. *)
Lemma ok_new_string key v t db : db_ok db → db_ok (register key t (with_strings (DInsert key v (strings_ db)).1 db)).
Proof.
  intros H. apply ok_register.
  - apply ok_with_strings; [done| |apply sub_keys_insert]. apply DInsert_dash, (ok_strings _ (proj1 H)).
  - rewrite present_spec. left. destruct db. apply present_insert.
Qed.

Lemma ok_new_hash key h t db :
  db_ok db → dash_ok h → db_ok (register key t (with_hashes (DInsert key h (hashes_ db)).1 db)).
Proof.
  intros H Hh. destruct (ok_hashes _ (proj1 H)) as [Hd Hf]. apply ok_register.
  - apply ok_with_hashes; [done|by apply DInsert_dash|by apply (map_Forall_DInsert dash_ok)|apply sub_keys_insert].
  - rewrite present_spec. do 1 right. left. destruct db. apply present_insert.
Qed.

Lemma ok_new_set key s t db :
  db_ok db → dash_ok s → db_ok (register key t (with_sets (DInsert key s (sets_ db)).1 db)).
Proof.
  intros H Hs. destruct (ok_sets _ (proj1 H)) as [Hd Hf]. apply ok_register.
  - apply ok_with_sets; [done|by apply DInsert_dash|by apply (map_Forall_DInsert dash_ok)|apply sub_keys_insert].
  - rewrite present_spec. do 2 right. left. destruct db. apply present_insert.
Qed.

Lemma ok_new_zset key z t db : db_ok db → db_ok (register key t (with_zsets (DInsert key z (zsets_ db)).1 db)).
Proof.
  intros H. apply ok_register.
  - apply ok_with_zsets; [done| |apply sub_keys_insert]. apply DInsert_dash, (ok_zsets _ (proj1 H)).
  - rewrite present_spec. do 3 right. left. destruct db. apply present_insert.
Qed.

Lemma ok_new_list key l t db :
  db_ok db → list_ok l → db_ok (register key t (with_lists (DInsert key l (lists_ db)).1 db)).
Proof.
  intros H Hl. destruct (ok_lists _ (proj1 H)) as [Hd Hf]. apply ok_register.
  - apply ok_with_lists; [done|by apply DInsert_dash|by apply (map_Forall_DInsert list_ok)|apply sub_keys_insert].
  - rewrite present_spec. do 4 right. left. destruct db. apply present_insert.
Qed.

Lemma ok_new_stream key s t db : db_ok db → db_ok (register key t (with_streams (DInsert key s (streams_ db)).1 db)).
Proof.
  intros H. apply ok_register.
  - apply ok_with_streams; [done| |apply sub_keys_insert]. apply DInsert_dash, (ok_streams _ (proj1 H)).
  - rewrite present_spec. do 5 right. left. destruct db. apply present_insert.
Qed.

(** ** Containers of a key *)

Lemma hash_or_new_ok key db : db_ok db → db_ok (hash_or_new key db).1 ∧ dash_ok (hash_or_new key db).2.
Proof.
  intros H. unfold hash_or_new. destruct (GetHash key db) as [h|] eqn:E; cbn [fst snd].
  - split; [done|by eapply GetHash_ok].
  - split; [|apply dash_empty_ok]. apply ok_new_hash; [done|apply dash_empty_ok].
Qed.

Lemma set_or_new_ok key db : db_ok db → db_ok (set_or_new key db).1 ∧ dash_ok (set_or_new key db).2.
Proof.
  intros H. unfold set_or_new. destruct (GetSet key db) as [h|] eqn:E; cbn [fst snd].
  - split; [done|by eapply GetSet_ok].
  - split; [|apply dash_empty_ok]. apply ok_new_set; [done|apply dash_empty_ok].
Qed.

Lemma empty_list_ok : list_ok (empty_list : ListType).
Proof. split; [done|]. cbn. lia. Qed.

Lemma list_or_new_ok key db : db_ok db → db_ok (list_or_new key db).1 ∧ list_ok (list_or_new key db).2.
Proof.
  intros H. unfold list_or_new. destruct (GetList key db) as [l|] eqn:E; cbn [fst snd].
  - split; [done|by eapply GetList_ok].
  - split; [|apply empty_list_ok]. apply ok_new_list; [done|apply empty_list_ok].
Qed.

Lemma zset_or_new_ok key db : db_ok db → db_ok (zset_or_new key db).1.
Proof. intros H. unfold zset_or_new. destruct (GetZSet key db); [done|]. by apply ok_new_zset. Qed.

(** The shape of the operations on a container that is there. *)
Lemma on_hash_ok {R} now key (d : R) f db :
  (∀ h, dash_ok h → dash_ok (f h).1) → db_ok db → db_ok (on_hash now key d f db).1.
Proof.
  intros Hf H. unfold on_hash. assert (Hv := ok_valid now key db H). destruct (valid now key db) as [db' []];
    cbn [fst negb] in *; [|done].
  destruct (GetHash key db') as [h|] eqn:E; [|done]. assert (Hh := Hf h (GetHash_ok _ _ _ Hv E)).
  destruct (f h) as [h' r]. by apply ok_put_hash.
Qed.

Lemma on_set_ok {R} now key (d : R) f db :
  (∀ s, dash_ok s → dash_ok (f s).1) → db_ok db → db_ok (on_set now key d f db).1.
Proof.
  intros Hf H. unfold on_set. assert (Hv := ok_valid now key db H). destruct (valid now key db) as [db' []];
    cbn [fst negb] in *; [|done].
  destruct (GetSet key db') as [s|] eqn:E; [|done]. assert (Hs := Hf s (GetSet_ok _ _ _ Hv E)).
  destruct (f s) as [s' r]. by apply ok_put_set.
Qed.

Lemma on_zset_ok {R} now key (d : R) f db : db_ok db → db_ok (on_zset now key d f db).1.
Proof.
  intros H. unfold on_zset. assert (Hv := ok_valid now key db H). destruct (valid now key db) as [db' []];
    cbn [fst negb] in *; [|done].
  destruct (GetZSet key db') as [z|] eqn:E; [|done]. destruct (f z) as [z' r]. by apply ok_put_zset.
Qed.

Lemma ok_drop_list key db : db_ok db → db_ok (drop_list key db).
Proof.
  intros [Hc Hh]. unfold drop_list. apply ok_unregister.
  - destruct db, Hc. split; cbn in *; destruct_and?; split_and?; auto using DRemove_dash, map_Forall_DRemove.
  - intros k Hk Hr. specialize (Hh k ltac:(done)). destruct db; unfold registered, present in *; cbn in *.
    rewrite DContains_remove, bool_decide_eq_false_2 by congruence. cbn [negb andb]. by apply Hh.
Qed.

Lemma on_list_ok {R} now key (d : R) f gone db :
  (∀ l, list_ok l → list_ok (f l).1) → db_ok db → db_ok (on_list now key d f gone db).1.
Proof.
  intros Hf H. unfold on_list. assert (Hv := ok_valid now key db H). destruct (valid now key db) as [db' []];
    cbn [fst negb] in *; [|done].
  destruct (GetList key db') as [l|] eqn:E; [|done]. assert (Hl := Hf l (GetList_ok _ _ _ Hv E)).
  destruct (f l) as [l' r]. cbn [fst] in *. assert (db_ok (put_list key l' db')) by by apply ok_put_list.
  cbv zeta. cbn [fst]. destruct (gone l' r); [by apply ok_drop_list|done].
Qed.

(** A loop over keys that looks at each of them. *)
Lemma foldl_state_ok {A R} (f : Database * R → A → Database * R) (l : list A) :
  (∀ acc x, db_ok acc.1 → db_ok (f acc x).1) → ∀ acc, db_ok acc.1 → db_ok (foldl f acc l).1.
Proof. intros Hf. induction l as [|x l IH]; intros acc H; [done|]. apply IH. by apply Hf. Qed.

(** Filling a table. *)
Lemma fill_ok {A V} (f : A → bytes) (g : A → V) (l : list A) : ∀ m : DashMap V,
  dash_ok m → dash_ok (foldl (λ m x, (DInsert (f x) (g x) m).1) m l).
Proof. induction l as [|x l IH]; intros m Hm; [done|]. apply IH. by apply DInsert_dash. Qed.
End DatabaseOps.

#[export] Hint Resolve hash_or_new_ok set_or_new_ok list_or_new_ok zset_or_new_ok ok_put_hash ok_put_set
  ok_put_list ok_put_zset on_hash_ok on_set_ok on_zset_ok on_list_ok ok_new_string ok_new_hash ok_new_set
  ok_new_zset ok_new_list ok_new_stream fill_ok list_step_rep : database.
