(* ===== verification/DatabaseHistories.v ===== *)
(** * The database: histories

    The operations of the database as one type, with their steps: each of them,
    the evictions it runs included, keeps the invariant. *)
From Stdlib Require Import SpecFloat.
From S2P Require Import Prelude.
From S2P Require Import BPTreeNode.
From S2P Require Import BPTree.
From S2P Require Import OrderedSet.
From S2P Require Import ZSet.
From S2P Require Import Simd.
From S2P Require Import Numbers.
From S2P Require Import Text.
From S2P Require Import RespTypes.
From S2P Require Import KeyMetadata.
From S2P Require Import LinkedList.
From S2P Require Import Streams.
From S2P Require Import Eviction.
From S2P Require Import Rocks.
From S2P Require Import Database.
From S2P Require Import DatabaseTypes.
From S2P Require Import DatabaseZSets.
From S2P Require Import DatabaseInv.

#[local] Arguments DRemove : simpl never.
#[local] Arguments DInsert : simpl never.
#[local] Arguments DContains : simpl never.

Inductive db_op `{!Platform} :=
  | DoSet (key value : bytes) | DoGet (key : bytes) | DoGetRange (key : bytes) (start stop : Z)
  | DoSetRange (key : bytes) (offset : Z) (value : bytes) | DoDel (key : bytes) | DoDelMany (keys : list bytes)
  | DoMGet (keys : list bytes) | DoExists (key : bytes) | DoExpireSeconds (key : bytes) (seconds : Z)
  | DoExpireMs (key : bytes) (ms : Z) | DoPersist (key : bytes) | DoType (key : bytes) | DoClear
  | DoPersistKey (key : bytes) (t : KeyType) | DoEvictKey (key : bytes) (t : KeyType) | DoLoad (key : bytes)
  | DoEvict | DoBump (key : bytes)
  | DoHSet (key field value : bytes) | DoHGet (key field : bytes) | DoHDel (key field : bytes)
  | DoHExists (key field : bytes) | DoHDelMany (key : bytes) (fields : list bytes) | DoHLen (key : bytes)
  | DoHMGet (key : bytes) (fields : list bytes) | DoHIncrBy (key field : bytes) (increment : Z)
  | DoHIncrByFloat (key field : bytes) (increment : spec_float) | DoHSetNx (key field value : bytes) | DoHGetAll (key : bytes)
  | DoSAdd (key member : bytes) | DoSRem (key member : bytes) | DoSIsMember (key member : bytes) | DoSCard (key : bytes)
  | DoSPop (key : bytes) (r : rng) | DoSRandMember (key : bytes) (r : rng) | DoSMove (source destination member : bytes)
  | DoSInter (keys : list bytes) | DoSUnion (keys : list bytes) | DoSDiff (keys : list bytes)
  | DoSInterStore (destination : bytes) (keys : list bytes) | DoSUnionStore (destination : bytes) (keys : list bytes)
  | DoSDiffStore (destination : bytes) (keys : list bytes) | DoSMembers (key : bytes)
  | DoLPush (key value : bytes) | DoRPush (key value : bytes) | DoLPop (key : bytes) | DoRPop (key : bytes)
  | DoLLen (key : bytes) | DoLIndex (key : bytes) (index : Z) | DoLSet (key : bytes) (index : Z) (value : bytes)
  | DoLRange (key : bytes) (start stop : Z) | DoLTrim (key : bytes) (start stop : Z)
  | DoLRem (key value : bytes) (count : Z) | DoLInsert (key : bytes) (index : Z) (value : bytes) (before : bool)
  | DoRPopLPush (source destination : bytes)
  | DoZAdd (key : bytes) (s : Score) (member : bytes) | DoZScore (key member : bytes) | DoZRem (key member : bytes)
  | DoZCard (key : bytes) | DoZCount (key : bytes) (lo hi : Score) | DoZRank (key member : bytes) (reverse : bool)
  | DoZRange (key : bytes) (start stop : Z) (reverse with_scores : bool) | DoZPopMin (key : bytes) | DoZPopMax (key : bytes)
  | DoZRangeByScore (key lo hi : bytes) (reverse with_scores : bool) (limit : option (Z * Z))
  | DoZIncrBy (key : bytes) (increment : spec_float) (member : bytes)
  | DoZUnionStore (destination : bytes) (numkeys : Z) (keys : list bytes) (weights : list spec_float) (aggregate : bytes)
  | DoZInterStore (destination : bytes) (numkeys : Z) (keys : list bytes) (weights : list spec_float) (aggregate : bytes)
  | DoZDiff (numkeys : Z) (keys : list bytes) | DoZDiffStore (destination : bytes) (numkeys : Z) (keys : list bytes)
  | DoStream (key : bytes) (f : StreamData → StreamData).

Section DatabaseHistories.
Context {P : Platform} {HD : DoubleText}.
Implicit Types (db : Database) (key : bytes).

(** The state after an operation that always has one. *)
Definition db_do (now : Z) (o : db_op) db : Database :=
  match o with
  | DoSet k v => DbSet now k v db
  | DoGet k => (DbGet now k db).1
  | DoGetRange k a b => (DbGetRange now k a b db).1
  | DoSetRange k i v => (DbSetRange now k i v db).1
  | DoDel k => (DbDel k db).1
  | DoDelMany ks => (DbDelMany ks db).1
  | DoMGet ks => (DbMGet now ks db).1
  | DoExists k => (DbExists now k db).1
  | DoExpireSeconds k n => (DbSetExpireSeconds now k n db).1
  | DoExpireMs k n => (DbSetExpireMs k n db).1
  | DoPersist k => (DbPersist k db).1
  | DoType k => (DbGetType now k db).1
  | DoClear => DbClear db
  | DoPersistKey k t => PersistKey k t db
  | DoEvictKey k t => (EvictKey k t db).1
  | DoLoad k => (LoadFromRocksDB now k db).1
  | DoEvict => check_eviction now db
  | DoBump k => bump_version k db
  | DoHSet k f v => (DbHSet now k f v db).1
  | DoHGet k f => (DbHGet now k f db).1
  | DoHDel k f => (DbHDel now k f db).1
  | DoHExists k f => (DbHExists now k f db).1
  | DoHDelMany k fs => (DbHDelMany now k fs db).1
  | DoHLen k => (DbHLen now k db).1
  | DoHMGet k fs => (DbHMGet now k fs db).1
  | DoHIncrBy k f n => (DbHIncrBy k f n db).1
  | DoHIncrByFloat k f x => (DbHIncrByFloat k f x db).1
  | DoHSetNx k f v => (DbHSetNx k f v db).1
  | DoHGetAll k => (DbHGetAll now k db).1
  | DoSAdd k m => (DbSAdd now k m db).1
  | DoSRem k m => (DbSRem now k m db).1
  | DoSIsMember k m => (DbSIsMember now k m db).1
  | DoSCard k => (DbSCard now k db).1
  | DoSPop k r => (DbSPop now k r db).1
  | DoSRandMember k r => (DbSRandMember now k r db).1
  | DoSMove s d m => (DbSMove now s d m db).1
  | DoSInter ks => (DbSInterLocal now ks db).1
  | DoSUnion ks => (DbSUnion now ks db).1
  | DoSDiff ks => (DbSDiff now ks db).1
  | DoSInterStore d ks => (DbSInterStore now d ks db).1
  | DoSUnionStore d ks => (DbSUnionStore now d ks db).1
  | DoSDiffStore d ks => (DbSDiffStore now d ks db).1
  | DoSMembers k => (DbSMembers now k db).1
  | DoLPush k v => (DbLPush now k v db).1
  | DoRPush k v => (DbRPush now k v db).1
  | DoLPop k => (DbLPop now k db).1
  | DoRPop k => (DbRPop now k db).1
  | DoLLen k => (DbLLen now k db).1
  | DoLIndex k i => (DbLIndex now k i db).1
  | DoLSet k i v => (DbLSet now k i v db).1
  | DoLRange k a b => (DbLRange now k a b db).1
  | DoLTrim k a b => (DbLTrim now k a b db).1
  | DoLRem k v n => (DbLRem now k v n db).1
  | DoLInsert k i v b => (DbLInsert now k i v b db).1
  | DoRPopLPush s d => (DbRPopLPush now s d db).1
  | DoZAdd k s m => (DbZAdd now k s m db).1
  | DoZScore k m => (DbZScore now k m db).1
  | DoZRem k m => (DbZRem now k m db).1
  | DoZCard k => (DbZCard now k db).1
  | DoZCount k lo hi => (DbZCount now k lo hi db).1
  | DoZRank k m r => (DbZRank now k m r db).1
  | DoZRange k a b r w => (DbZRange now k a b r w db).1
  | DoZPopMin k => (DbZPopMin now k db).1
  | DoZPopMax k => (DbZPopMax now k db).1
  | DoZRangeByScore k a b r w l => (DbZRangeByScore now k a b r w l db).1
  | DoZDiff n ks => (DbZDiff now n ks db).1
  | DoStream k f => let '(db, s) := DbGetOrCreateStream k db in put_stream k (f s) db
  | _ => db
  end.

(** The state after an operation; [None] when a score would be NaN. *)
Definition db_step (now : Z) (o : db_op) db : option Database :=
  match o with
  | DoZIncrBy k x m => fst <$> DbZIncrBy k x m db
  | DoZUnionStore d n ks ws a => fst <$> DbZUnionStore now d n ks ws a db
  | DoZInterStore d n ks ws a => fst <$> DbZInterStore now d n ks ws a db
  | DoZDiffStore d n ks => fst <$> DbZDiffStore now d n ks db
  | _ => Some (db_do now o db)
  end.

(** A history: each operation at its time. *)
Fixpoint db_run (os : list (Z * db_op)) db : option Database :=
  match os with
  | [] => Some db
  | (now, o) :: os => db ← db_step now o db; db_run os db
  end.

(** ** Strings *)

Lemma DbSet_ok now key value db : db_ok db → db_ok (DbSet now key value db).
Proof.
  intros H. unfold DbSet. cbv zeta.
  apply ok_persist_all_in, ok_check_eviction, ok_track_memory, ok_track_access; [apply UpdateString_only|].
  destruct (DGet key (strings_ db)); [|by apply ok_new_string].
  apply ok_bump_version, ok_with_strings; [done| |apply sub_keys_insert]. apply DInsert_dash, (ok_strings _ (proj1 H)).
Qed.

Lemma DbGet_ok now key db : db_ok db → db_ok (DbGet now key db).1.
Proof.
  intros H. unfold DbGet. cbv zeta. destruct (DGet key (strings_ db)); [by apply ok_track_access|].
  destruct (rocksdb_adapter_ db) as [r|]; [|done]. destruct (RocksGet key r) as [v|]; [|done].
  unfold load_string. destruct (DeserializeString v); [|done]. cbn [fst].
  by apply ok_track_memory, ok_track_access, ok_new_string; [apply UpdateString_only|].
Qed.

Lemma DbGetRange_ok now key a b db : db_ok db → db_ok (DbGetRange now key a b db).1.
Proof.
  intros H. unfold DbGetRange. assert (Hg := DbGet_ok now key db H). by destruct (DbGet now key db) as [db' []].
Qed.

Lemma DbSetRange_ok now key i v db : db_ok db → db_ok (DbSetRange now key i v db).1.
Proof.
  intros H. unfold DbSetRange. assert (Hg := DbGet_ok now key db H). destruct (DbGet now key db) as [db' x].
  repeat case_match; try done. by apply DbSet_ok.
Qed.

Lemma DbDel_ok key db : db_ok db → db_ok (DbDel key db).1.
Proof.
  intros H. unfold DbDel. cbv zeta. destruct (remove_data_ok key db H) as [Hc Hh].
  destruct (remove_data key db) as [db1 removed]. cbn [fst] in *.
  set (db2 := unregister key _). assert (db_ok db2) as H2.
  { apply ok_unregister; destruct removed; try done; [by apply counts_with_tracker|by apply honest_with_tracker]. }
  destruct (removed && _); [|done]. destruct (rocksdb_adapter_ db2); [by apply ok_with_rocks|done].
Qed.

Lemma DbDelMany_ok keys db : db_ok db → db_ok (DbDelMany keys db).1.
Proof.
  intros H. apply foldl_state_ok; [|done]. intros [db' n] key H'. assert (Hd := DbDel_ok key db' H').
  cbn [fst]. by destruct (DbDel key db').
Qed.

Lemma DbMGet_ok now keys db : db_ok db → db_ok (DbMGet now keys db).1.
Proof.
  intros H. apply foldl_state_ok; [|done]. intros [db' n] key H'. assert (Hd := DbGet_ok now key db' H').
  cbn [fst]. by destruct (DbGet now key db').
Qed.

Lemma on_metadata_ok {R} (f : Manager → Manager * R) db :
  db_ok (with_metadata (f (metadata_manager_ db)).1 db) → db_ok (on_metadata f db).1.
Proof. unfold on_metadata. by destruct (f (metadata_manager_ db)). Qed.

Lemma DbClear_ok db : db_ok db → db_ok (DbClear db).
Proof.
  intros [Hc _]. split.
  - destruct db, Hc. split; cbn in *; split_and?; try done; apply dash_empty_ok.
  - intros k _ Hr. destruct db. unfold registered in Hr. cbn in Hr.
    apply DContains_spec in Hr as [v Hv]. done.
Qed.

Lemma LoadFromRocksDB_ok now key db : db_ok db → db_ok (LoadFromRocksDB now key db).1.
Proof.
  intros H. unfold LoadFromRocksDB. cbv zeta. repeat case_match; try done; cbn [fst].
  - by apply ok_track_access, ok_new_string.
  - apply ok_touch, ok_new_hash; [done|]. apply (fill_ok fst snd), dash_empty_ok.
  - apply ok_touch, ok_new_set; [done|]. apply (fill_ok (λ m, m) (λ _, tt)), dash_empty_ok.
Qed.

(** ** Hash tables and sets *)

Lemma DbHSet_ok now key field value db : db_ok db → db_ok (DbHSet now key field value db).1.
Proof.
  intros H. unfold DbHSet. cbv zeta. destruct (hash_or_new_ok key db H) as [H1 Hh].
  destruct (hash_or_new key db) as [db1 h]. cbn [fst snd] in *.
  assert (Hi := DInsert_dash field value h Hh). destruct (DInsert field value h) as [h' r]. cbn [fst] in *.
  assert (H2 : db_ok (check_eviction now (track_memory (UpdateHashField key
    (bool_decide (is_Some (h ← GetHash key db; DGet field h))) (default [] (h ← GetHash key db; DGet field h)) value) db1)))
    by eauto with database.
  destruct r; [apply ok_persist_all_in|]; by apply ok_put_hash.
Qed.

Lemma remove_many_ok fields : ∀ acc : HashType * Z, dash_ok acc.1 →
  dash_ok (foldl (λ acc field, let '(h, removed) := DRemove field acc.1 in
                    (h, if removed then (acc.2 + 1)%Z else acc.2)) acc fields).1.
Proof.
  induction fields as [|f fs IH]; intros [h n] H; [done|]. cbn [foldl fst snd]. apply IH.
  assert (Hr := DRemove_dash f h H). by destruct (DRemove f h).
Qed.

Lemma hash_writes_ok key db (f : HashType → HashType) :
  (∀ h, dash_ok h → dash_ok (f h)) → db_ok db → db_ok (put_hash key (f (hash_or_new key db).2) (hash_or_new key db).1).
Proof. intros Hf H. destruct (hash_or_new_ok key db H). apply ok_put_hash; [done|by apply Hf]. Qed.

Lemma DbHIncrBy_ok key field n db : db_ok db → db_ok (DbHIncrBy key field n db).1.
Proof.
  intros H. unfold DbHIncrBy. assert (Hw := λ v, hash_writes_ok key db (λ h, (DInsert field v h).1)
    (DInsert_dash field v) H). destruct (hash_or_new_ok key db H).
  destruct (hash_or_new key db) as [db1 h]. destruct (match DGet field h with Some _ => _ | None => _ end); [apply Hw|done].
Qed.

Lemma DbHIncrByFloat_ok key field x db : db_ok db → db_ok (DbHIncrByFloat key field x db).1.
Proof.
  intros H. unfold DbHIncrByFloat. assert (Hw := λ v, hash_writes_ok key db (λ h, (DInsert field v h).1)
    (DInsert_dash field v) H). destruct (hash_or_new_ok key db H).
  destruct (hash_or_new key db) as [db1 h]. destruct (match DGet field h with Some _ => _ | None => _ end); [apply Hw|done].
Qed.

Lemma DbHSetNx_ok key field value db : db_ok db → db_ok (DbHSetNx key field value db).1.
Proof.
  intros H. unfold DbHSetNx. assert (Hw := hash_writes_ok key db (λ h, (DInsert field value h).1)
    (DInsert_dash field value) H). destruct (GetHash key db) as [h|] eqn:E.
  - destruct (DContains field h); [done|]. apply ok_put_hash; [done|]. exact (DInsert_dash _ _ _ (GetHash_ok _ _ _ H E)).
  - by destruct (hash_or_new key db).
Qed.

Lemma DbHGetAll_ok now key db : db_ok db → db_ok (DbHGetAll now key db).1.
Proof.
  intros H. unfold DbHGetAll. cbv zeta. apply on_hash_ok; [done|].
  destruct (_ && _); [by apply LoadFromRocksDB_ok|done].
Qed.

Lemma DbSMembers_ok now key db : db_ok db → db_ok (DbSMembers now key db).1.
Proof.
  intros H. unfold DbSMembers. cbv zeta. apply on_set_ok; [done|].
  destruct (_ && _); [by apply LoadFromRocksDB_ok|done].
Qed.

Lemma DbSAdd_ok now key member db : db_ok db → db_ok (DbSAdd now key member db).1.
Proof.
  intros H. unfold DbSAdd. cbv zeta. destruct (set_or_new_ok key db H) as [H1 Hs].
  destruct (set_or_new key db) as [db1 s]. cbn [fst snd] in *.
  assert (Hi := DInsert_dash member tt s Hs). destruct (DInsert member tt s) as [s' r]. cbn [fst] in *.
  set (e := match GetSet key db with Some _ => _ | None => _ end).
  assert (H2 : db_ok (check_eviction now (track_memory (UpdateSetMember key e member) db1))).
  { apply ok_check_eviction, ok_track_memory; [apply UpdateElement_only|done]. }
  destruct r; [apply ok_persist_all_in|]; by apply ok_put_set.
Qed.

Lemma DbSPop_ok now key r db : db_ok db → db_ok (DbSPop now key r db).1.
Proof.
  apply on_set_ok. intros s Hs. destruct (pick_member s r) as [[m|] r']; [by apply DRemove_dash|done].
Qed.

Lemma DbSMove_ok now source destination member db : db_ok db → db_ok (DbSMove now source destination member db).1.
Proof.
  intros H. unfold DbSMove. assert (Hv := ok_valid now source db H). destruct (valid now source db) as [db1 []];
    cbn [fst negb] in *; [|done].
  destruct (GetSet source db1) as [s|] eqn:E; [|done]. destruct (DContains member s); [|done]. cbn [negb].
  assert (H2 : db_ok (put_set source (DRemove member s).1 db1)) by (apply ok_put_set; [done|by eapply DRemove_dash, GetSet_ok]).
  destruct (set_or_new_ok destination _ H2) as [H3 Hd]. destruct (set_or_new destination _) as [db3 d]. cbn [fst snd] in *.
  apply ok_put_set; [done|by apply DInsert_dash].
Qed.

Lemma inter_loop_ok now keys : ∀ result db, db_ok db → db_ok (inter_loop now keys result db).1.
Proof.
  induction keys as [|key keys IH]; intros result db H; [done|]. cbn [inter_loop].
  assert (Hv := ok_valid now key db H). destruct (valid now key db) as [db1 []]; cbn [fst negb] in *; [|done].
  destruct (GetSet key db1); [|done]. destruct (filter _ result); [done|by apply IH].
Qed.

Lemma DbSInterLocal_ok now keys db : db_ok db → db_ok (DbSInterLocal now keys db).1.
Proof.
  intros H. unfold DbSInterLocal. destruct keys as [|key keys]; [done|].
  destruct (GetSet key db); [by apply inter_loop_ok|done].
Qed.

Lemma DbSUnion_ok now keys db : db_ok db → db_ok (DbSUnion now keys db).1.
Proof.
  intros H. unfold DbSUnion. set (f := λ acc key, _). assert (Hf := foldl_state_ok f keys).
  specialize (Hf ltac:(intros [db' n] key H'; unfold f; cbn [fst snd]; assert (Hv := ok_valid now key db' H');
    by destruct (valid now key db') as [db1 []]) (db, ∅) H). by destruct (foldl f (db, ∅) keys).
Qed.

Lemma DbSDiff_ok now keys db : db_ok db → db_ok (DbSDiff now keys db).1.
Proof.
  intros H. unfold DbSDiff. destruct keys as [|key keys]; [done|]. destruct (GetSet key db); [|done].
  apply foldl_state_ok; [|done]. intros [db' n] k H'. cbn [fst snd]. assert (Hv := ok_valid now k db' H').
  by destruct (valid now k db') as [db1 []].
Qed.

Lemma store_set_ok destination members db : db_ok db → db_ok (store_set destination members db).1.
Proof.
  intros H. unfold store_set. cbn [fst]. apply ok_put_set.
  - destruct (GetSet destination db); [|by apply set_or_new_ok]. apply ok_put_set; [done|apply dash_empty_ok].
  - apply (fill_ok (λ m, m) (λ _, tt)), dash_empty_ok.
Qed.

Lemma store_result_ok destination (r : Database * list bytes) :
  db_ok r.1 → db_ok (let '(db, members) := r in store_set destination members db).1.
Proof. destruct r. apply store_set_ok. Qed.

(** ** Lists and sorted sets *)

Lemma push_with_ok now push key value db :
  (∀ l : ListType, list_ok l → list_ok (push value l)) → db_ok db → db_ok (push_with now push key value db).
Proof.
  intros Hp H. unfold push_with. destruct (list_or_new_ok key db H) as [H1 Hl].
  destruct (list_or_new key db) as [db1 l]. cbn [fst snd] in *. apply ok_put_list; [|by apply Hp].
  by apply ok_check_eviction, ok_track_memory; [apply UpdateElement_only|].
Qed.

Lemma DbLPush_ok now key value db : db_ok db → db_ok (DbLPush now key value db).1.
Proof. apply push_with_ok. intros l. exact (list_step_rep l (OPushLeft value)). Qed.

Lemma DbRPush_ok now key value db : db_ok db → db_ok (DbRPush now key value db).1.
Proof. apply push_with_ok. intros l. exact (list_step_rep l (OPushRight value)). Qed.

Lemma list_step_fst {R} (o : lop bytes) (g : R → @lresult bytes) (f : ListType → ListType * R) :
  (∀ l, list_step l o = let '(l, r) := f l in (l, g r)) → ∀ l, list_ok l → list_ok (f l).1.
Proof. intros Hf l Hl. assert (H := list_step_rep l o Hl). rewrite Hf in H. by destruct (f l). Qed.

Lemma DbRPop_ok now key db : db_ok db → db_ok (DbRPop now key db).1.
Proof. apply on_list_ok. by apply (list_step_fst OPopRight RPopped). Qed.

Lemma DbRPopLPush_ok now source destination db : db_ok db → db_ok (DbRPopLPush now source destination db).1.
Proof.
  intros H. unfold DbRPopLPush. assert (Hp := DbRPop_ok now source db H).
  destruct (DbRPop now source db) as [db1 [v|]]; [by apply DbRPush_ok|done].
Qed.

Lemma DbLTrim_ok now key a b db : db_ok db → db_ok (DbLTrim now key a b db).1.
Proof. apply on_list_ok. intros l. exact (list_step_rep l (OTrim a b)). Qed.

Lemma DbLSet_ok now key i v db : db_ok db → db_ok (DbLSet now key i v db).1.
Proof. apply on_list_ok. by apply (list_step_fst (OSet i v) RDone). Qed.

Lemma DbLRem_ok now key v n db : db_ok db → db_ok (DbLRem now key v n db).1.
Proof. apply on_list_ok. by apply (list_step_fst (ORemove v n) RCount). Qed.

Lemma DbLInsert_ok now key i v b db : db_ok db → db_ok (DbLInsert now key i v b db).1.
Proof. apply on_list_ok. by apply (list_step_fst (OInsert i v b) RDone). Qed.

Lemma DbZAdd_ok now key s member db : db_ok db → db_ok (DbZAdd now key s member db).1.
Proof.
  intros H. unfold DbZAdd. cbv zeta. assert (H1 := zset_or_new_ok key db H).
  destruct (zset_or_new key db) as [db1 z]. cbn [fst snd] in *. destruct (Add hash member s z) as [z' r].
  by apply ok_put_zset, ok_check_eviction, ok_track_memory; [apply UpdateElement_only|].
Qed.

Lemma pop_rank_ok now key rank db : db_ok db → db_ok (pop_rank now key rank db).1.
Proof.
  intros H. unfold pop_rank. assert (Hv := ok_valid now key db H). destruct (valid now key db) as [db1 []];
    cbn [fst negb] in *; [|done].
  destruct (GetZSet key db1) as [z|]; [|done]. destruct (ZSize z =? 0)%Z; [done|].
  destruct (GetRangeByRank _ _ _ _ _) as [|ms ?]; [done|]. cbn [fst]. destruct (ZSize _ =? 0)%Z.
  - by apply ok_unregister', ok_put_zset.
  - by apply ok_put_zset.
Qed.

Lemma union_loop_ok now aggregate weights keys : ∀ i acc db,
  db_ok db → db_ok (union_loop now aggregate weights i keys acc db).1.
Proof.
  induction keys as [|key keys IH]; intros i acc db H; [done|]. cbn [union_loop].
  assert (Hv := ok_valid now key db H). destruct (valid now key db) as [db1 ok]. by apply IH.
Qed.

Lemma zinter_loop_ok now aggregate weights keys : ∀ i acc db,
  db_ok db → db_ok (zinter_loop now aggregate weights i keys acc db).1.
Proof.
  induction keys as [|key keys IH]; intros i acc db H; [done|]. cbn [zinter_loop].
  assert (Hv := ok_valid now key db H). destruct (valid now key db) as [db1 []]; [|done]. cbn [fst negb] in *.
  destruct (GetZSet key db1); [|done]. cbv zeta. destruct (decide _); [done|by apply IH].
Qed.

Lemma store_zset_ok destination members db db' : db_ok db → store_zset destination members db = Some db' → db_ok db'.
Proof.
  intros H. unfold store_zset. assert (Hn := zset_or_new_ok destination db H).
  set (r := match GetZSet destination db with Some _ => _ | None => _ end).
  assert (Hr : db_ok r.1) by (unfold r; by destruct (GetZSet destination db)).
  destruct r as [db1 z]. destruct (foldl _ _ members) as [z'|]; [|done]. cbn. intros [= <-]. by apply ok_put_zset.
Qed.

Lemma DbZDiff_ok now numkeys keys db : db_ok db → db_ok (DbZDiff now numkeys keys db).1.
Proof.
  intros H. unfold DbZDiff. destruct (_ || _); [done|]. destruct keys as [|key keys]; [done|].
  destruct (GetZSet key db); [|done]. apply foldl_state_ok; [|done]. intros [db' n] k H'. cbn [fst snd].
  assert (Hv := ok_valid now k db' H'). by destruct (valid now k db') as [db1 []].
Qed.

(** The stores: a state, then the members into the destination. *)
Lemma store_zset_then destination members db (n : Z) db' :
  db_ok db → fst <$> (db1 ← store_zset destination members db; Some (db1, n)) = Some db' → db_ok db'.
Proof.
  intros H. destruct (store_zset _ _ db) as [db2|] eqn:E; [|done]. intros [= <-]. by eapply store_zset_ok.
Qed.

Lemma DbZUnionStore_ok now d n ks ws a db db' : db_ok db → fst <$> DbZUnionStore now d n ks ws a db = Some db' → db_ok db'.
Proof.
  intros H. unfold DbZUnionStore. destruct (negb _); [by intros [= <-]|]. assert (Hu := union_loop_ok now a ws ks 0 ∅ db H).
  destruct (union_loop _ _ _ _ _ _ _) as [db1 acc]. by apply store_zset_then.
Qed.

Lemma DbZInterStore_ok now d n ks ws a db db' : db_ok db → fst <$> DbZInterStore now d n ks ws a db = Some db' → db_ok db'.
Proof.
  intros H. unfold DbZInterStore. destruct (_ || _); [by intros [= <-]|]. destruct ks as [|k ks]; [by intros [= <-]|].
  destruct (GetZSet k db) as [z|]; [|by intros [= <-]]. cbv zeta. set (first := foldl _ _ _).
  assert (Hu := zinter_loop_ok now a ws ks 1 first db H).
  destruct (zinter_loop _ _ _ _ _ _ _) as [db1 [acc|]]; [|by intros [= <-]]. by apply store_zset_then.
Qed.

Lemma DbZDiffStore_ok now d n ks db db' : db_ok db → fst <$> DbZDiffStore now d n ks db = Some db' → db_ok db'.
Proof.
  intros H. unfold DbZDiffStore. assert (Hd := DbZDiff_ok now n ks db H). destruct (DbZDiff now n ks db) as [db1 ms].
  by apply store_zset_then.
Qed.

Lemma DbZIncrBy_ok key x member db db' : db_ok db → fst <$> DbZIncrBy key x member db = Some db' → db_ok db'.
Proof.
  intros H. unfold DbZIncrBy. assert (H1 := zset_or_new_ok key db H). destruct (zset_or_new key db) as [db1 z].
  cbv zeta. destruct (score_of _) as [s|]; [|done]. intros [= <-]. by apply ok_put_zset.
Qed.

Lemma DbGetOrCreateStream_ok key f db :
  db_ok db → db_ok (let '(db, s) := DbGetOrCreateStream key db in put_stream key (f s) db).
Proof.
  intros H. unfold DbGetOrCreateStream. destruct (DGet key (streams_ db)) as [s|]; unfold put_stream;
    [assert (H1 := H)|assert (H1 := ok_new_stream key new_stream kString db H)];
    (apply ok_with_streams; [done| |apply sub_keys_insert]); apply DInsert_dash, (ok_streams _ (proj1 H1)).
Qed.

End DatabaseHistories.

Create HintDb db_steps discriminated.
#[export] Hint Constants Opaque : db_steps.
#[export] Hint Resolve DbSet_ok DbGet_ok DbGetRange_ok DbSetRange_ok DbDel_ok DbDelMany_ok DbMGet_ok DbClear_ok
  ok_valid ok_PersistKey ok_EvictKey ok_check_eviction ok_bump_version LoadFromRocksDB_ok DbHSet_ok DbHIncrBy_ok
  DbHIncrByFloat_ok DbHSetNx_ok DbHGetAll_ok DbSMembers_ok DbSAdd_ok DbSPop_ok DbSMove_ok DbSInterLocal_ok DbSUnion_ok
  DbSDiff_ok DbLPush_ok DbRPush_ok DbRPop_ok DbRPopLPush_ok DbLTrim_ok DbLSet_ok DbLRem_ok DbLInsert_ok DbZAdd_ok
  DbZDiff_ok DbGetOrCreateStream_ok : db_steps.

Section DatabaseSteps.
Context {P : Platform} {HD : DoubleText}.
Implicit Types (db : Database) (key : bytes).

(** ** Every step *)

Lemma db_do_ok now o db : db_ok db → db_ok (db_do now o db).
Proof.
  intros H. destruct o; cbn [db_do]; try done; eauto 2 with db_steps nocore.
  all: lazymatch goal with
    | |- db_ok (push_with _ PushLeft ?k ?v ?d) => exact (DbLPush_ok now k v d H)
    | |- db_ok (push_with _ PushRight ?k ?v ?d) => exact (DbRPush_ok now k v d H)
    | |- db_ok (DbSInterStore _ _ _ _).1 => by apply store_result_ok, DbSInterLocal_ok
    | |- db_ok (DbSUnionStore _ _ _ _).1 => by apply store_result_ok, DbSUnion_ok
    | |- db_ok (DbSDiffStore _ _ _ _).1 => by apply store_result_ok, DbSDiff_ok
    | |- db_ok (DbExists _ _ _).1 => by apply ok_valid
    | |- db_ok (DbGetType _ _ _).1 => by apply on_metadata_ok, ok_type
    | |- db_ok (DbSetExpireSeconds _ _ _ _).1 => by apply on_metadata_ok, ok_update_entry
    | |- db_ok (DbSetExpireMs _ _ _).1 => by apply on_metadata_ok, ok_update_entry
    | |- db_ok (DbPersist _ _).1 => by apply on_metadata_ok, ok_update_entry
    | |- db_ok (DbZPopMin _ _ _).1 => by apply pop_rank_ok
    | |- db_ok (DbZPopMax _ _ _).1 => by apply pop_rank_ok
    | _ => idtac
    end.
  all: unfold DbHGet, DbHDel, DbHExists, DbHDelMany, DbHLen, DbHMGet, DbSRem, DbSIsMember, DbSCard, DbSRandMember, DbLPop,
    DbLLen, DbLIndex, DbLRange, DbZScore, DbZRem, DbZCard, DbZCount, DbZRank, DbZRange, DbZRangeByScore.
  all: lazymatch goal with
    | |- db_ok (on_hash _ _ _ _ _).1 => apply on_hash_ok
    | |- db_ok (on_set _ _ _ _ _).1 => apply on_set_ok
    | |- db_ok (on_list _ _ _ _ _ _).1 => apply on_list_ok
    | |- db_ok (on_zset _ _ _ _ _).1 => apply on_zset_ok
    end; try done.
  - intros h. apply DRemove_dash.
  - intros h Hh. by apply remove_many_ok.
  - intros s. apply DRemove_dash.
  - by apply (list_step_fst OPopLeft RPopped).
Qed.

Lemma db_step_ok now o db db' : db_ok db → db_step now o db = Some db' → db_ok db'.
Proof.
  intros H. assert (Hd := db_do_ok now o db H). destruct o; cbn [db_step]; try (intros [= <-]; done).
  - by apply DbZIncrBy_ok.
  - by apply DbZUnionStore_ok.
  - by apply DbZInterStore_ok.
  - by apply DbZDiffStore_ok.
Qed.

Lemma db_run_ok os : ∀ db db', db_ok db → db_run os db = Some db' → db_ok db'.
Proof.
  induction os as [|[now o] os IH]; intros db db' H; cbn [db_run]; [by intros [= <-]|].
  destruct (db_step now o db) as [db1|] eqn:E; [|done]. cbn. apply IH. by eapply db_step_ok.
Qed.
End DatabaseSteps.
