(* ===== verification/DatabaseStrings.v ===== *)
(** * The database: what strings promise

    String operations refine a map from keys to values.  With a RocksDB adapter
    the map is what memory and RocksDB hold together, and evictions do not
    change it; without eviction it is what memory holds. *)
From Stdlib Require Import SpecFloat.
From S2P Require Import Prelude.
From S2P Require Import BPTreeNode.
From S2P Require Import BPTree.
From S2P Require Import OrderedSet.
From S2P Require Import ZSet.
From S2P Require Import Simd.
From S2P Require Import Numbers.
From S2P Require Import Text.
From S2P Require Import RespTypes.
From S2P Require Import KeyMetadata.
From S2P Require Import LinkedList.
From S2P Require Import Streams.
From S2P Require Import Eviction.
From S2P Require Import Rocks.
From S2P Require Import Database.
From S2P Require Import DatabaseTypes.
From S2P Require Import DatabaseZSets.
From S2P Require Import DatabaseInv.
From S2P Require Import DatabaseHistories.

#[local] Arguments DRemove : simpl never.
#[local] Arguments DInsert : simpl never.
#[local] Arguments DContains : simpl never.

Section DatabaseStrings.
Context {P : Platform} {HR : RocksLibOk}.
Implicit Types (db : Database) (key : bytes).

(** ** The value of a key *)

Definition cold key (r : option RocksDBAdapter) : option bytes :=
  a ← r; serialized ← RocksGet key a; DeserializeString serialized.

(** In memory, else in RocksDB. *)
Definition view db key : option bytes :=
  match DGet key (strings_ db) with
  | Some value => Some value
  | None => cold key (rocksdb_adapter_ db)
  end.

(** The metadata of a key that has a string says so. *)
Definition typed db : Prop :=
  ∀ key m, DGet key (metadata_manager_ db) = Some m → is_Some (view db key) → key_type m = kString.

(** Evicted strings have somewhere to go. *)
Definition backed db : Prop :=
  match rocksdb_adapter_ db with
  | Some a => is_Some (db_ a)
  | None => eviction_manager_ db = None
  end.

Definition strings_ok db : Prop := typed db ∧ backed db.

(** Two states with the same strings; the adapter stays. *)
Definition same_strings db db' : Prop :=
  strings_ok db' ∧ (∀ key, view db' key = view db key) ∧
  (is_Some (rocksdb_adapter_ db) → is_Some (rocksdb_adapter_ db')).

Lemma same_refl db : strings_ok db → same_strings db db.
Proof. done. Qed.

Lemma same_trans db1 db2 db3 : same_strings db1 db2 → same_strings db2 db3 → same_strings db1 db3.
Proof. intros (_ & H1 & H2) (H3 & H4 & H5). split; [done|]. split; [intros key; by rewrite H4|auto]. Qed.

(** ** Steps that leave the strings alone *)

(** New metadata whose types come from the old. *)
Definition types_from (m m' : Manager) : Prop :=
  ∀ key x', DGet key m' = Some x' → ∃ x, DGet key m = Some x ∧ key_type x' = key_type x.

Lemma types_update f key (m : Manager) : (∀ x, key_type (f x) = key_type x) → types_from m (update_entry f key m).1.
Proof.
  intros Hf k x'. rewrite DGet_update. case_bool_decide; [|by eauto].
  destruct (DGet k m) as [x|]; [|done]. intros [= <-]. eauto.
Qed.

Lemma types_remove key (m : Manager) : types_from m (DRemove key m).1.
Proof. intros k x'. rewrite DGet_DRemove. case_decide; [done|]. eauto. Qed.

Lemma types_refl (m : Manager) : types_from m m.
Proof. intros k x'. eauto. Qed.

Lemma typed_from db db' :
  typed db → types_from (metadata_manager_ db) (metadata_manager_ db') → (∀ key, view db' key = view db key) → typed db'.
Proof.
  intros Ht Hm Hv key x' Hx Hs. destruct (Hm key x' Hx) as (x & Hx0 & ->). rewrite Hv in Hs. by apply (Ht key x).
Qed.

Lemma same_from db db' :
  strings_ok db → types_from (metadata_manager_ db) (metadata_manager_ db') → (∀ key, view db' key = view db key) →
  backed db' → (is_Some (rocksdb_adapter_ db) → is_Some (rocksdb_adapter_ db')) → same_strings db db'.
Proof. intros [Ht Hb] Hm Hv Hb' Ha. split; [split; [by eapply typed_from|done]|done]. Qed.

Lemma same_metadata m db : strings_ok db → types_from (metadata_manager_ db) m → same_strings db (with_metadata m db).
Proof. intros H Hm. destruct db. by apply same_from; [| | |apply H|]. Qed.

Lemma same_tracker t db : strings_ok db → same_strings db (with_tracker t db).
Proof. intros H. destruct db. by apply same_from; [|apply types_refl| |apply H|]. Qed.

Lemma same_eviction em db : is_Some (rocksdb_adapter_ db) → strings_ok db → same_strings db (with_eviction em db).
Proof.
  intros [a Ha] H. assert (Hb := proj2 H). destruct db. apply same_from; [done|apply types_refl|done| |done].
  unfold backed in *. cbn in *. by rewrite Ha in *.
Qed.

(** Writing to RocksDB under a key: memory has it, or no string is written and
    there was none. *)
Lemma same_put_rocks key v db :
  strings_ok db → is_Some (DGet key (strings_ db)) ∨ view db key = None ∧ DeserializeString v = None →
  same_strings db (put_rocks key v db).
Proof.
  intros H Hk. unfold put_rocks. destruct (rocksdb_adapter_ db) as [a|] eqn:E; [|done].
  assert (Hb := proj2 H). unfold backed in Hb. rewrite E in Hb. destruct db. cbn in *. subst.
  apply same_from; [done|apply types_refl| |unfold backed; cbn; by apply adapter_write_open|by eexists].
  intros k. revert Hk. unfold view, cold. cbn. destruct (DGet k _) eqn:Ek; [done|]. cbn [mbind option_bind].
  rewrite RocksGet_Put by done. case_decide; subst; [|done]. rewrite Ek. intros [[? ?]|[H1 H2]]; [done|].
  cbn in *. by rewrite H1, H2.
Qed.

(** What [PersistKey] writes under a key that has no string in memory is no
    string. *)
Lemma serialized_no_string key t db v :
  DGet key (strings_ db) = None → serialized_value key t db = Some v → DeserializeString v = None.
Proof.
  intros Hn. unfold serialized_value, DeserializeString, SerializeHash, SerializeSet, SerializeVector, SerializeJson.
  destruct t; rewrite ?Hn; try done; intros (x & _ & ->)%fmap_Some; by rewrite GetKeyValue_finish.
Qed.

Lemma same_PersistKey key t db :
  strings_ok db → is_Some (DGet key (strings_ db)) ∨ view db key = None ∨ t = kString → same_strings db (PersistKey key t db).
Proof.
  intros H Ht. unfold PersistKey. destruct (rocksdb_adapter_ db); [|done].
  destruct (serialized_value key t db) as [[|c v]|] eqn:E; [done| |done]. apply same_put_rocks; [done|].
  destruct (DGet key (strings_ db)) as [x|] eqn:Ek; [by left|right].
  split; [|by eapply serialized_no_string]. destruct Ht as [[? ?]|[Ht| ->]]; [done|done|].
  cbn in E. by rewrite Ek in E.
Qed.
(** ** Eviction *)

Lemma view_remove key db :
  strings_ok db → (DGet key (strings_ db) = None ∨ cold key (rocksdb_adapter_ db) = DGet key (strings_ db)) →
  same_strings db (remove_data key db).1.
Proof.
  intros H Hk. unfold remove_data. destruct (DContains key (strings_ db)) eqn:Ec.
  - cbn [fst]. apply DContains_spec in Ec as [v Hv]. destruct Hk as [Hk|Hk]; [congruence|].
    destruct db. apply same_from; [done|apply types_refl| |apply H|done].
    intros k. unfold view. cbn in *. rewrite DGet_DRemove. case_decide; [|done]. subst. by rewrite Hk, Hv.
  - destruct db. cbn in *. repeat match goal with |- context [if ?b then _ else _] => destruct b end;
      by apply same_from; [|apply types_refl| |apply H|].
Qed.

(** After [PersistKey], RocksDB has the string of the key. *)
Lemma cold_PersistKey key db a v :
  rocksdb_adapter_ db = Some a → is_Some (db_ a) → DGet key (strings_ db) = Some v →
  cold key (rocksdb_adapter_ (PersistKey key kString db)) = Some v.
Proof.
  intros Ha Ho Hv. unfold PersistKey. rewrite Ha. cbn [serialized_value]. rewrite Hv. cbn [fmap option_fmap option_map].
  destruct (SerializeString key v 0 0) as [|c s] eqn:E; [by apply finish_nonempty in E|].
  unfold put_rocks. rewrite Ha. destruct db. cbn in *. unfold cold. cbn [mbind option_bind].
  rewrite RocksGet_Put by done. rewrite decide_True by done. cbn [mbind option_bind]. rewrite <- E.
  apply DeserializeString_Serialize.
Qed.

Lemma strings_PersistKey key t db : strings_ (PersistKey key t db) = strings_ db.
Proof. unfold PersistKey, put_rocks. destruct db. cbn. by repeat case_match. Qed.

Lemma same_EvictKey key m db a :
  strings_ok db → rocksdb_adapter_ db = Some a → DGet key (metadata_manager_ db) = Some m →
  same_strings db (EvictKey key (key_type m) db).1.
Proof.
  intros H Ha Hm. assert (Ho : is_Some (db_ a)) by (assert (Hb := proj2 H); unfold backed in Hb; by rewrite Ha in Hb).
  assert (H1 : same_strings db (PersistKey key (key_type m) db)).
  { apply same_PersistKey; [done|]. destruct (view db key) as [v|] eqn:Ev; [|by auto].
    right. right. apply (proj1 H key m); [done|by eexists]. }
  unfold EvictKey. set (db1 := PersistKey key (key_type m) db) in *.
  assert (H2 : same_strings db1 (remove_data key db1).1).
  { apply view_remove; [apply H1|]. unfold db1. rewrite strings_PersistKey.
    destruct (DGet key (strings_ db)) as [v|] eqn:Ev; [right|by left].
    rewrite (proj1 H key m) by (done || (unfold view; rewrite Ev; by eexists)). by eapply cold_PersistKey. }
  assert (H3 := same_trans _ _ _ H1 H2). cbv zeta. destruct (remove_data key db1) as [db2 []]; cbn [fst] in *; [|done].
  eapply same_trans; [exact H3|]. set (db3 := release_memory _ _ db2).
  assert (H4 : same_strings db2 db3) by apply same_tracker, H3. eapply same_trans; [exact H4|].
  apply same_metadata; [apply H4|apply types_remove].
Qed.

Lemma type_types now key (m : Manager) : types_from m (GetKeyType now key m).1.
Proof. unfold GetKeyType. repeat case_match; try apply types_refl. apply types_remove. Qed.

Lemma type_result now key (m : Manager) t :
  (GetKeyType now key m).2 = Some t → ∃ x, DGet key (GetKeyType now key m).1 = Some x ∧ t = key_type x.
Proof. unfold GetKeyType. repeat case_match; intros; simplify_eq/=. eauto. Qed.

Lemma adapter_with_metadata m db : rocksdb_adapter_ (with_metadata m db) = rocksdb_adapter_ db.
Proof. by destruct db. Qed.

Lemma same_ExecuteEviction total now key em db a :
  strings_ok db → rocksdb_adapter_ db = Some a →
  same_strings db (ExecuteEviction (db_host total) now key em db).1.2.
Proof.
  intros H Ha. unfold ExecuteEviction. cbn [host_metadata host_set_metadata eviction_callback_ db_host].
  assert (H1 := same_metadata _ _ H (type_types now key (metadata_manager_ db))).
  assert (Ht := type_result now key (metadata_manager_ db)).
  destruct (GetKeyType now key _) as [m [t|]]; cbn [fst snd] in *; [|done].
  destruct (Ht t eq_refl) as (x & Hx & ->).
  assert (H2 := same_EvictKey key x (with_metadata m db) a (proj1 H1)
    ltac:(by rewrite adapter_with_metadata) ltac:(by destruct db)).
  destruct (EvictKey key _ _) as [db' b]. cbn [fst snd] in *. by eapply same_trans.
Qed.

Lemma same_check_eviction now db : strings_ok db → same_strings db (check_eviction now db).
Proof.
  intros H. unfold check_eviction. destruct (eviction_manager_ db) as [em|] eqn:Eem; [|done].
  destruct (memory_tracker_ db) as [t|]; [|done]. destruct (ShouldCheckEviction t); [|done].
  assert (Ha : is_Some (rocksdb_adapter_ db)).
  { assert (Hb := proj2 H). unfold backed in Hb. destruct (rocksdb_adapter_ db); [by eexists|congruence]. }
  assert (Hi := CheckAndEvict_inv (db_host (all_workers_memory db)) (same_strings db) now em db).
  destruct (CheckAndEvict _ now em db) as [[em' db'] n]. cbn [fst snd] in Hi.
  assert (H' : same_strings db db').
  { apply Hi; [|done]. intros key em1 db1 H1 _. destruct (proj2 (proj2 H1) Ha) as [a Ha1].
    eapply same_trans; [exact H1|]. by eapply same_ExecuteEviction; [apply H1|]. }
  eapply same_trans; [exact H'|]. by apply same_eviction; [apply H'|apply H'].
Qed.
(** ** The operations *)

Lemma same_touch now key db : strings_ok db → same_strings db (touch now key db).
Proof. intros H. apply same_metadata; [done|]. by apply types_update. Qed.

Lemma same_track_access now key db : strings_ok db → same_strings db (track_access now key db).
Proof. intros H. unfold track_access. destruct (ShouldTrackAccessInfo db); [by apply same_touch|done]. Qed.

Lemma same_track_string key o n db : strings_ok db → same_strings db (track_memory (UpdateString key o n) db).
Proof.
  intros H. unfold track_memory. destruct (memory_tracker_ db) as [t|]; [|done].
  unfold UpdateString, track_sizes. cbn [fst snd].
  assert (H1 := same_metadata _ db H (types_update (with_size (EstimateStringSize key n)) key (metadata_manager_ db) ltac:(done))).
  eapply same_trans; [exact H1|]. by apply same_tracker, H1.
Qed.

Lemma same_persist_all key db : strings_ok db → same_strings db (persist_all_in key kString db).
Proof. intros H. unfold persist_all_in. destruct (decide _); [|done]. apply same_PersistKey; auto. Qed.

(** A string enters memory, registered or known as a string. *)
Definition put_string key value db : Database :=
  let old := DGet key (strings_ db) in
  let db := with_strings (DInsert key value (strings_ db)).1 db in
  match old with None => register key kString db | Some _ => bump_version key db end.

Lemma put_string_view key value db k :
  view (put_string key value db) k = if decide (key = k) then Some value else view db k.
Proof.
  unfold put_string, view, register, bump_version. destruct (DGet key _), db; cbn; rewrite DGet_DInsert; by case_decide.
Qed.

Lemma put_string_ok key value db : strings_ok db → strings_ok (put_string key value db).
Proof.
  intros H. split.
  - intros k m Hm. rewrite put_string_view. revert Hm. unfold put_string.
    destruct (DGet key (strings_ db)) as [old|] eqn:E.
    + unfold bump_version, IncrementKeyVersion. destruct db. cbn in *.
      intros Hm Hs. destruct (types_update (λ x, with_version (u64 (version x + 1)) x) key _ ltac:(done) k m Hm) as (x & Hx & ->). apply (proj1 H k x Hx).
      case_decide; [|done]. subst. unfold view. cbn. rewrite E. by eexists.
    + unfold register, RegisterKey. destruct db. cbn in *. rewrite DGet_DInsert. case_decide; [by intros [= <-]|].
      intros Hm Hs. by apply (proj1 H k m Hm).
  - assert (Hb := proj2 H). unfold put_string, backed in *. by destruct db, (DGet key _).
Qed.

Definition updated (f : bytes → option bytes) key value (k : bytes) : option bytes :=
  if decide (key = k) then Some value else f k.

Lemma DbSet_view now key value db :
  strings_ok db →
  strings_ok (DbSet now key value db) ∧ (∀ k, view (DbSet now key value db) k = updated (view db) key value k) ∧
  (is_Some (rocksdb_adapter_ db) → is_Some (rocksdb_adapter_ (DbSet now key value db))).
Proof.
  intros H. unfold DbSet. cbv zeta. fold (put_string key value db).
  assert (H0 := put_string_ok key value db H).
  assert (H1 := same_track_access now key _ H0).
  assert (H2 := same_trans _ _ _ H1 (same_track_string key (default [] (DGet key (strings_ db))) value _ (proj1 H1))).
  assert (H3 := same_trans _ _ _ H2 (same_check_eviction now _ (proj1 H2))).
  assert (H4 := same_trans _ _ _ H3 (same_persist_all key _ (proj1 H3))).
  split; [apply H4|]. split; [intros k; by rewrite (proj1 (proj2 H4)), put_string_view|].
  intros Ha. apply H4. unfold put_string. by destruct db, (DGet key _).
Qed.

Lemma strings_track_access now key db : strings_ (track_access now key db) = strings_ db.
Proof. unfold track_access, touch. destruct (ShouldTrackAccessInfo db); by destruct db. Qed.

Lemma strings_track_memory f db : strings_ (track_memory f db) = strings_ db.
Proof. unfold track_memory. destruct (memory_tracker_ db); [|done]. destruct (f _). by destruct db. Qed.

Lemma DbGet_view now key db :
  strings_ok db → same_strings db (DbGet now key db).1 ∧ (DbGet now key db).2 = view db key.
Proof.
  intros H. unfold DbGet. cbv zeta. destruct (DGet key (strings_ db)) as [v|] eqn:Ek.
  { split; [by apply same_track_access|]. unfold view. by rewrite Ek. }
  unfold view. rewrite Ek. destruct (rocksdb_adapter_ db) as [a|] eqn:Ea; [|done]. cbn [cold mbind option_bind].
  destruct (RocksGet key a) as [s|] eqn:Es; [|done]. cbn [mbind option_bind]. unfold load_string.
  destruct (DeserializeString s) as [v|] eqn:Ev; [|done]. cbn [fst snd].
  assert (E : register key kString (with_strings (DInsert key v (strings_ db)).1 db) = put_string key v db)
    by (unfold put_string; by rewrite Ek).
  rewrite E. assert (H0 := put_string_ok key v db H). assert (H1 := same_track_access now key _ H0).
  assert (H2 := same_trans _ _ _ H1 (same_track_string key [] v _ (proj1 H1))).
  set (db' := track_memory _ _) in *. assert (Hv : ∀ k, view db' k = updated (view db) key v k).
  { intros k. by rewrite (proj1 (proj2 H2)), put_string_view. }
  assert (Hk : view db key = Some v) by (unfold view; rewrite Ek, Ea; cbn; by rewrite Es).
  split.
  - split; [apply H2|]. split.
    + intros k. rewrite Hv. unfold updated. case_decide; by subst.
    + intros _. apply H2. unfold put_string. destruct db, (DGet key _); by eexists.
  - unfold db'. rewrite strings_track_memory, strings_track_access. unfold put_string. rewrite Ek. destruct db. cbn.
    rewrite DGet_DInsert. by rewrite decide_True.
Qed.
(** ** Histories *)

Inductive string_op :=
  | SSet (key value : bytes) | SGet (key : bytes) | SGetRange (key : bytes) (start stop : Z)
  | SSetRange (key : bytes) (offset : Z) (value : bytes) | SMGet (keys : list bytes) | SEvict.

Inductive string_result := SDone | SValue (v : option bytes) | SText (s : bytes) | SLength (n : option Z) | SValues (vs : list (option bytes)).

Definition string_step (now : Z) (o : string_op) db : Database * string_result :=
  match o with
  | SSet k v => (DbSet now k v db, SDone)
  | SGet k => let '(db, v) := DbGet now k db in (db, SValue v)
  | SGetRange k a b => let '(db, s) := DbGetRange now k a b db in (db, SText s)
  | SSetRange k i v => let '(db, n) := DbSetRange now k i v db in (db, SLength n)
  | SMGet ks => let '(db, vs) := DbMGet now ks db in (db, SValues vs)
  | SEvict => (check_eviction now db, SDone)
  end.

(** What the same operations do to a function from keys to values. *)
Definition string_spec (o : string_op) (f : bytes → option bytes) : (bytes → option bytes) * string_result :=
  match o with
  | SSet k v => (updated f k v, SDone)
  | SGet k => (f, SValue (f k))
  | SGetRange k a b => (f, SText (slice a b (default [] (f k))))
  | SSetRange k i v =>
      let old := default [] (f k) in
      if (i <? 0)%Z then (f, SLength (Some (zlen old)))
      else if (zlen old <? i + zlen v)%Z && negb (can_allocate (i + zlen v)) then (f, SLength None)
      else (updated f k (overwrite (Z.to_nat i) v old),
            SLength (Some (Z.max (zlen old) (i + zlen v))))
  | SMGet ks => (f, SValues (f <$> ks))
  | SEvict => (f, SDone)
  end.

Lemma overwrite_length i v s : length (overwrite i v s) = length s `max` (i + length v).
Proof.
  unfold overwrite. rewrite !length_app, length_take, length_drop, length_app, length_replicate. lia.
Qed.

(** [GETRANGE] is the slice between two positions. *)
Lemma range_slice (a b : Z) (s : bytes) :
  (let len := zlen s in
   let start := if (a <? 0)%Z then (len + a)%Z else a in
   let stop := if (b <? 0)%Z then (len + b)%Z else b in
   let start := if (start <? 0)%Z then 0%Z else start in
   let stop := if (len <=? stop)%Z then (len - 1)%Z else stop in
   if (stop <? start)%Z || (len <=? start)%Z then []
   else take (Z.to_nat (stop - start + 1)) (drop (Z.to_nat start) s)) = slice a b s.
Proof.
  unfold slice, position, zlen. cbv zeta. set (n := length s).
  set (start := if (a <? 0)%Z then (Z.of_nat n + a)%Z else a).
  set (stop := if (b <? 0)%Z then (Z.of_nat n + b)%Z else b). clearbody start stop.
  replace (Z.to_nat start) with (Z.to_nat (if (start <? 0)%Z then 0%Z else start))
    by (destruct (start <? 0)%Z eqn:E; b2p; lia).
  set (st := if (start <? 0)%Z then 0%Z else start). assert (Hst : (0 ≤ st)%Z) by (unfold st; case_match; b2p; lia).
  clearbody st. destruct (Z.of_nat n <=? stop)%Z eqn:E1; b2p.
  - destruct (_ || _) eqn:E2.
    + rewrite drop_ge by (apply orb_prop in E2 as [E2|E2]; b2p; unfold n in *; lia). by rewrite take_nil.
    + apply orb_false_elim in E2 as [E2 E3]. b2p. rewrite !take_ge; [done|rewrite length_drop; unfold n in *; lia..].
  - destruct (_ || _) eqn:E2.
    + apply orb_prop in E2 as [E2|E2]; b2p; [by replace (Z.to_nat (stop + 1) - Z.to_nat st) with 0 by lia|].
      rewrite drop_ge by (unfold n in *; lia). by rewrite take_nil.
    + apply orb_false_elim in E2 as [E2 E3]. b2p. f_equal. lia.
Qed.
Lemma DbMGet_view now keys : ∀ db vs,
  strings_ok db →
  let r := foldl (λ acc key, let '(db, value) := DbGet now key acc.1 in (db, acc.2 ++ [value])) (db, vs) keys in
  same_strings db r.1 ∧ r.2 = vs ++ (view db <$> keys).
Proof.
  induction keys as [|key keys IH]; intros db vs H; cbn [foldl fmap list_fmap].
  { split; [done|]. by rewrite app_nil_r. }
  destruct (DbGet_view now key db H) as [H1 Hv]. cbn [fst snd]. destruct (DbGet now key db) as [db1 v]. cbn [fst snd] in *.
  destruct (IH db1 (vs ++ [v]) (proj1 H1)) as [H2 ->]. split; [by eapply same_trans|].
  rewrite <- app_assoc, Hv. cbn [app]. do 2 f_equal. apply list_fmap_ext. intros i k _. apply H1.
Qed.

Lemma string_step_refines now o db f :
  strings_ok db → (∀ k, view db k = f k) →
  strings_ok (string_step now o db).1 ∧ (∀ k, view (string_step now o db).1 k = (string_spec o f).1 k) ∧
  (string_step now o db).2 = (string_spec o f).2.
Proof.
  intros H Hf. destruct o as [k v|k|k a b|k i v|ks|]; cbn [string_step string_spec].
  - destruct (DbSet_view now k v db H) as (H1 & H2 & _). split; [done|]. split; [|done].
    intros k'. cbn [fst]. rewrite H2. unfold updated. by rewrite Hf.
  - destruct (DbGet_view now k db H) as [(H1 & H2 & _) Hv]. destruct (DbGet now k db) as [db1 x]. cbn [fst snd] in *.
    split; [done|]. rewrite Hv, Hf. split; [|done]. intros k'. by rewrite H2.
  - unfold DbGetRange. destruct (DbGet_view now k db H) as [(H1 & H2 & _) Hv]. destruct (DbGet now k db) as [db1 x].
    cbn [fst snd] in *. rewrite <- Hf, <- Hv. destruct x as [s|]; cbn [fst snd default];
      (split; [done|]); (split; [intros k'; by rewrite H2|]); [by rewrite <- range_slice|].
    unfold slice. by rewrite drop_nil, take_nil.
  - unfold DbSetRange. destruct (DbGet_view now k db H) as [(H1 & H2 & _) Hv]. destruct (DbGet now k db) as [db1 x].
    cbn [fst snd] in *. rewrite <- Hf, <- Hv. assert (H2' : ∀ k', view db1 k' = f k') by (intros k'; by rewrite H2).
    destruct (i <? 0)%Z eqn:Ei; b2p; [done|]. unfold default, id. destruct (_ && _); [done|]. cbn [fst snd].
    destruct (DbSet_view now k (overwrite (Z.to_nat i) v (default [] x)) db1 H1) as (H3 & H4 & _).
    split; [done|]. split; [intros k'; rewrite H4; unfold updated; by rewrite H2'|].
    do 2 f_equal. unfold zlen. rewrite overwrite_length. unfold default, id. lia.
  - unfold DbMGet. destruct (DbMGet_view now ks db [] H) as [(H1 & H2 & _) Hv].
    destruct (foldl _ _ _) as [db1 vs]. cbn [fst snd app] in *. split; [done|]. split; [intros k'; by rewrite H2|].
    rewrite Hv. f_equal. by apply list_fmap_ext.
  - destruct (same_check_eviction now db H) as (H1 & H2 & _). split; [done|]. split; [|done]. intros k. cbn [fst]. by rewrite H2.
Qed.

Fixpoint string_run (os : list (Z * string_op)) db : Database * list string_result :=
  match os with
  | [] => (db, [])
  | (now, o) :: os =>
      let '(db, r) := string_step now o db in
      let '(db, rs) := string_run os db in (db, r :: rs)
  end.

Fixpoint string_spec_run (os : list (Z * string_op)) (f : bytes → option bytes) : (bytes → option bytes) * list string_result :=
  match os with
  | [] => (f, [])
  | (_, o) :: os =>
      let '(f, r) := string_spec o f in
      let '(f, rs) := string_spec_run os f in (f, r :: rs)
  end.

Lemma string_run_refines os : ∀ db f,
  strings_ok db → (∀ k, view db k = f k) →
  strings_ok (string_run os db).1 ∧ (∀ k, view (string_run os db).1 k = (string_spec_run os f).1 k) ∧
  (string_run os db).2 = (string_spec_run os f).2.
Proof.
  induction os as [|[now o] os IH]; intros db f H Hf; [done|]. cbn [string_run string_spec_run].
  destruct (string_step_refines now o db f H Hf) as (H1 & H2 & H3).
  destruct (string_step now o db) as [db1 r1], (string_spec o f) as [f1 r1']. cbn [fst snd] in *.
  destruct (IH db1 f1 H1 H2) as (H4 & H5 & H6).
  destruct (string_run os db1) as [db2 rs], (string_spec_run os f1) as [f2 rs']. cbn [fst snd] in *. by subst.
Qed.
End DatabaseStrings.
