(* ===== verification/SmallPlatform.v ===== *)
(** * A small platform

    A concrete instance of the class [Platform], on which the theorems about the
    database are applied: a store that is a finite map, tables written as the
    bits of their code, a counter for random numbers. *)
From Stdlib Require Import SpecFloat.
From S2P Require Import Prelude.
From S2P Require Import Text.
From S2P Require Import KeyMetadata.
From S2P Require Import Eviction.
From S2P Require Import Rocks.
From S2P Require Import Database.

(** ** Codes *)

#[global] Instance spec_float_eq_dec : EqDecision spec_float.
Proof. solve_decision. Defined.

#[global] Program Instance spec_float_countable : Countable spec_float :=
  inj_countable' (λ d, match d with
                      | S754_zero s => inl (inl s)
                      | S754_infinity s => inl (inr s)
                      | S754_nan => inr (inl ())
                      | S754_finite s m e => inr (inr (s, m, e))
                      end)
    (λ x, match x with
          | inl (inl s) => S754_zero s
          | inl (inr s) => S754_infinity s
          | inr (inl _) => S754_nan
          | inr (inr (s, m, e)) => S754_finite s m e
          end) _.
Next Obligation. by intros []. Qed.

Definition value_type_code (t : ValueType) : nat :=
  match t with
  | VtString => 0 | VtHash => 1 | VtList => 2 | VtSet => 3 | VtSortedSet => 4 | VtBitmap => 5 | VtHyperLogLog => 6
  | VtStream => 7 | VtVector => 8 | VtJson => 9
  end.
Definition value_type_of (n : nat) : ValueType :=
  match n with
  | 0 => VtString | 1 => VtHash | 2 => VtList | 3 => VtSet | 4 => VtSortedSet | 5 => VtBitmap | 6 => VtHyperLogLog
  | 7 => VtStream | 8 => VtVector | _ => VtJson
  end.

#[global] Program Instance ValueType_countable : Countable ValueType := inj_countable' value_type_code value_type_of _.
Next Obligation. by intros []. Qed.

#[global] Instance VectorValue_eq_dec : EqDecision VectorValue.
Proof. solve_decision. Defined.

#[global] Program Instance VectorValue_countable : Countable VectorValue :=
  inj_countable' (λ v, (vv_data v, vv_dimension v, vv_distance_metric v, vv_index_name v))
    (λ x, let '(d, n, m, i) := x in MkVectorValue d n m i) _.
Next Obligation. by intros []. Qed.

#[global] Instance KeyValue_eq_dec : EqDecision KeyValue.
Proof. solve_decision. Defined.

#[global] Program Instance KeyValue_countable : Countable KeyValue :=
  inj_countable' (λ k, (value_type k, (kv_timestamp k, kv_ttl_ms k), string_value k, hash_value k, (list_value k, set_value k),
      (sortedset_value k, vector_value k, json_value k)))
    (λ x, let '(t, (ts, ttl), s, h, (l, se), (z, v, j)) := x in MkKeyValue t ts ttl s h l se z v j) _.
Next Obligation. by intros []. Qed.

(** The bits of a positive number as text, and back. *)
Fixpoint bits_text (p : positive) : bytes :=
  match p with xH => [] | xO p => "0"%char :: bits_text p | xI p => "1"%char :: bits_text p end.
Fixpoint text_bits (s : bytes) : positive :=
  match s with [] => xH | c :: s => if decide (c = "1"%char) then xI (text_bits s) else xO (text_bits s) end.

Lemma text_bits_text p : text_bits (bits_text p) = p.
Proof. induction p as [p IH|p IH|]; cbn; by rewrite ?IH. Qed.

Definition small_finish (kv : KeyValue) : bytes := "F"%char :: bits_text (encode kv).
Definition small_get (s : bytes) : option KeyValue :=
  match s with [] => None | _ :: s => decode (text_bits s) end.

(** ** The instances *)

Definition small_random : Random := {| rng := Z; uniform n r := (r mod n, r + 1)%Z |}.

Definition small_rocks : RocksLib := {|
  rocks_db := gmap bytes bytes;
  rocks_db_put _ k v d := (<[k := v]> d, StatusOk);
  rocks_db_get k d := match d !! k with Some v => (StatusOk, v) | None => (StatusNotFound, []) end;
  rocks_db_delete _ k d := (delete k d, StatusOk);
  rocks_db_write _ kvs d := (list_to_map (reverse kvs) ∪ d, StatusOk);
  finish_KeyValue := small_finish;
  GetKeyValue := small_get
|}.

Lemma small_rocks_ok : @RocksLibOk small_rocks.
Proof.
  split; cbn; intros.
  - done.
  - by rewrite lookup_insert_eq.
  - by rewrite lookup_insert_ne by congruence.
  - done.
  - by rewrite lookup_delete_eq.
  - by rewrite lookup_delete_ne by congruence.
  - rewrite text_bits_text. apply decode_encode.
  - done.
Qed.

Definition small_platform : Platform := {|
  platform_random := small_random;
  platform_numbers := decimal_numbers;
  hash k := Z.of_nat (length k);
  can_allocate n := (n <? 2 ^ 20)%Z;
  alloc_what := B "bad_alloc";
  range_what := B "out_of_range";
  platform_rocks := small_rocks;
  Json := bytes;
  json_dump := λ j, j
|}.
