(* ===== verification/DatabaseContract.v ===== *)
(** * The database: its promises

    The invariant over all histories, strings as a map with eviction to RocksDB,
    what eviction spares, and what expiry and eviction lose. *)
From Stdlib Require Import SpecFloat.
From S2P Require Import Prelude.
From S2P Require Import BPTreeNode.
From S2P Require Import BPTree.
From S2P Require Import OrderedSet.
From S2P Require Import ZSet.
From S2P Require Import Simd.
From S2P Require Import Numbers.
From S2P Require Import Text.
From S2P Require Import RespTypes.
From S2P Require Import KeyMetadata.
From S2P Require Import LinkedList.
From S2P Require Import Streams.
From S2P Require Import Eviction.
From S2P Require Import Rocks.
From S2P Require Import Database.
From S2P Require Import DatabaseTypes.
From S2P Require Import DatabaseZSets.
From S2P Require Import DatabaseInv.
From S2P Require Import DatabaseHistories.
From S2P Require Import DatabaseStrings.
From S2P Require Import SmallPlatform.

#[local] Arguments DRemove : simpl never.
#[local] Arguments DInsert : simpl never.
#[local] Arguments DContains : simpl never.

Section DatabaseContract.
Context {P : Platform} {HD : DoubleText}.
Implicit Types (db : Database) (key : bytes).

Lemma fresh_ok t em a mode total : db_ok (fresh t em a mode total).
Proof.
  split.
  - split; cbn; split_and?; try apply dash_empty_ok; apply map_Forall_empty.
  - intros k _ Hr. unfold registered in Hr. apply DContains_spec in Hr as [x Hx]. done.
Qed.

(** ** What eviction spares *)

(** All a database holds of a key. *)
Definition entry key db :=
  (DGet key (metadata_manager_ db),
   (DGet key (strings_ db), DGet key (hashes_ db), DGet key (sets_ db), DGet key (zsets_ db)),
   (DGet key (lists_ db), DGet key (streams_ db), DGet key (vectors_ db), DGet key (jsons_ db))).

Lemma DGet_DRemove_ne {V} key key' (m : DashMap V) : key' ≠ key → DGet key (DRemove key' m).1 = DGet key m.
Proof. intros H. rewrite DGet_DRemove. by rewrite decide_False. Qed.

Lemma remove_data_entry key key' db : key' ≠ key → entry key (remove_data key' db).1 = entry key db.
Proof.
  intros H. destruct db. unfold remove_data, entry.
  repeat match goal with |- context [if ?b then _ else _] => destruct b end; cbn; by rewrite ?DGet_DRemove_ne.
Qed.

Lemma PersistKey_entry key key' t db : entry key (PersistKey key' t db) = entry key db.
Proof. unfold PersistKey, put_rocks. destruct db. cbn. by repeat case_match. Qed.

Lemma meta_PersistKey key t db : metadata_manager_ (PersistKey key t db) = metadata_manager_ db.
Proof. unfold PersistKey, put_rocks. destruct db. cbn. by repeat case_match. Qed.

Lemma hashes_PersistKey key t db : hashes_ (PersistKey key t db) = hashes_ db.
Proof. unfold PersistKey, put_rocks. destruct db. cbn. by repeat case_match. Qed.

Lemma EvictKey_entry key key' t db : key' ≠ key → entry key (EvictKey key' t db).1 = entry key db.
Proof.
  intros H. unfold EvictKey. rewrite <- (PersistKey_entry key key' t db), <- (remove_data_entry key key' (PersistKey key' t db) H).
  destruct (remove_data key' (PersistKey key' t db)) as [db1 []]; [|done]. destruct db1. unfold entry. cbn.
  unfold UnregisterKey. by rewrite DGet_DRemove_ne.
Qed.

Lemma GetKeyType_ne now key key' (m : Manager) : key' ≠ key → DGet key (GetKeyType now key' m).1 = DGet key m.
Proof. intros H. unfold GetKeyType. repeat case_match; try done. cbn [fst]. by apply DGet_DRemove_ne. Qed.

Lemma ExecuteEviction_entry total now key key' em db :
  key' ≠ key → entry key (ExecuteEviction (db_host total) now key' em db).1.2 = entry key db.
Proof.
  intros H. unfold ExecuteEviction. cbn [host_metadata host_set_metadata eviction_callback_ db_host].
  assert (Hg := GetKeyType_ne now key key' (metadata_manager_ db) H).
  destruct (GetKeyType now key' _) as [m [t|]]; cbn [fst snd] in *.
  - assert (He := EvictKey_entry key key' t (with_metadata m db) H). destruct (EvictKey _ _ _) as [db' b]. cbn [fst snd] in *.
    rewrite He. destruct db. unfold entry. cbn in *. by rewrite Hg.
  - destruct db. unfold entry. cbn in *. by rewrite Hg.
Qed.

Lemma entry_with_eviction key em db : entry key (with_eviction em db) = entry key db.
Proof. by destruct db. Qed.

Lemma volatile_candidate policy key (m : Manager) :
  IsVolatilePolicy policy = true → key ∈ candidates policy m → HasTTL key m = true.
Proof. unfold candidates. intros Hv [[H|H] _]%list_elem_of_filter; congruence. Qed.

Lemma check_eviction_spares now db t key :
  memory_tracker_ db = Some t → IsVolatilePolicy (GetEvictionPolicy t) = true →
  HasTTL key (metadata_manager_ db) = false → entry key (check_eviction now db) = entry key db.
Proof.
  intros Ht Hv Hk. unfold check_eviction. destruct (eviction_manager_ db) as [em|]; [|done]. rewrite Ht.
  destruct (ShouldCheckEviction t); [|done].
  assert (Hi := CheckAndEvict_inv (db_host (all_workers_memory db)) (λ db', entry key db' = entry key db) now em db).
  destruct (CheckAndEvict _ now em db) as [[em' db'] n]. cbn [fst snd] in Hi. rewrite entry_with_eviction.
  apply Hi; [|done]. intros key' em1 db1 H1 Hc. cbn [db_host host_tracker host_metadata] in Hc. rewrite Ht in Hc. cbn in Hc.
  rewrite ExecuteEviction_entry; [done|]. intros ->. destruct Hc as [Hc|Hc].
  - by rewrite Hc in Hv.
  - apply volatile_candidate in Hc; [|done]. unfold HasTTL in *. unfold entry in H1. simplify_eq.
    match goal with H : DGet key _ = DGet key _ |- _ => rewrite H in Hc end. congruence.
Qed.
(** ** The 2Q policy *)

(** No key was ever recorded. *)
Definition no_queues (em : EvictionManager) : Prop :=
  match strategy_2q_ em with
  | None => True
  | Some q => probationary_queue_ q = [] ∧ protected_queue_ q = []
  end.

Lemma SelectVictim_2q_none now samples m em :
  no_queues em → (SelectVictim now samples k2Q m em).2 = [] ∧ no_queues (SelectVictim now samples k2Q m em).1.
Proof.
  intros H. unfold no_queues, SelectVictim, GetVictim in *. destruct (strategy_2q_ em) as [q|].
  - destruct H as [H1 H2]. rewrite H1, H2. by destruct (0 <? _)%Z; cbn.
  - cbn. by destruct (0 <? _)%Z.
Qed.

Lemma CheckAndEvict_2q {S} (host : Host S) now em s :
  GetEvictionPolicy (host_tracker host s) = k2Q → no_queues em →
  (CheckAndEvict host now em s).1.2 = s ∧ no_queues (CheckAndEvict host now em s).1.1.
Proof.
  intros Hp H. unfold CheckAndEvict. rewrite Hp. cbv zeta. destruct (negb _); [done|]. rewrite bool_decide_eq_false_2 by done.
  generalize max_iterations. intros [|n]; [done|]. cbn [evict_loop]. destruct (negb _); [done|].
  destruct (SelectVictim_2q_none now (eviction_samples (config_ (host_tracker host s))) (host_metadata host s) em H) as [Hv Hq].
  destruct (SelectVictim _ _ _ _ em) as [em1 victim]. cbn [fst snd] in *. subst. by rewrite bool_decide_eq_true_2.
Qed.

(** ** Expiry *)

Lemma valid_unregistered now key db : DGet key (metadata_manager_ db) = None → valid now key db = (db, false).
Proof. intros H. unfold valid, IsValid. rewrite H. by destruct db. Qed.

Lemma valid_expired now key db m :
  DGet key (metadata_manager_ db) = Some m → IsExpired now m = true → valid now key db = (unregister key db, false).
Proof. intros H He. unfold valid, IsValid. by rewrite H, He. Qed.

(** A write to a hash table that is there never registers the key. *)
Lemma DbHSet_unregistered now key field value db h :
  eviction_manager_ db = None → DGet key (metadata_manager_ db) = None → GetHash key db = Some h →
  DGet key (metadata_manager_ (DbHSet now key field value db).1) = None ∧
  GetHash key (DbHSet now key field value db).1 = Some (DInsert field value h).1.
Proof.
  intros He Hm Hh. unfold DbHSet, hash_or_new. rewrite Hh. cbv zeta. cbn [fst snd mbind option_bind].
  set (db1 := track_memory _ db).
  assert (Hd : DGet key (metadata_manager_ db1) = None ∧ hashes_ db1 = hashes_ db ∧ eviction_manager_ db1 = None).
  { unfold db1, track_memory. destruct (memory_tracker_ db); [|done]. unfold UpdateHashField, track_sizes. cbn [fst snd].
    split_and!; [|by destruct db..]. destruct db. cbn in *. unfold UpdateEstimatedSize, update_entry. by rewrite Hm. }
  destruct Hd as (Hm1 & Hh1 & He1). clearbody db1.
  assert (Hc : check_eviction now db1 = db1) by (unfold check_eviction; by rewrite He1). rewrite Hc.
  destruct (DInsert field value h) as [h' r]. set (db2 := put_hash key h' db1).
  assert (H2 : DGet key (metadata_manager_ db2) = None ∧ GetHash key db2 = Some h').
  { unfold db2, put_hash, put_back, GetHash in *. rewrite Hh1 in *.
    assert (DContains key (hashes_ db) = true) as -> by (apply DContains_spec; by eexists).
    split; [by destruct db1|]. destruct db1. cbn. rewrite DGet_DInsert. by rewrite decide_True. }
  destruct r; cbn [fst]; [|done]. unfold persist_all_in. destruct (decide _); [|done].
  unfold GetHash in *. by rewrite meta_PersistKey, hashes_PersistKey.
Qed.
(** A write of a string that is there never registers the key. *)
Lemma DbSet_unregistered now key value db old :
  eviction_manager_ db = None → DGet key (metadata_manager_ db) = None → DGet key (strings_ db) = Some old →
  DGet key (metadata_manager_ (DbSet now key value db)) = None ∧ DGet key (strings_ (DbSet now key value db)) = Some value.
Proof.
  intros He Hm Hs. unfold DbSet. rewrite Hs. cbv zeta. set (db1 := bump_version key _).
  assert (H1 : DGet key (metadata_manager_ db1) = None ∧ DGet key (strings_ db1) = Some value ∧ eviction_manager_ db1 = None).
  { unfold db1, bump_version, IncrementKeyVersion, update_entry. destruct db. cbn in *. rewrite Hm. cbn.
    rewrite DGet_DInsert. by rewrite decide_True. }
  clearbody db1. destruct H1 as (Hm1 & Hs1 & He1). set (db2 := track_access now key db1).
  assert (H2 : DGet key (metadata_manager_ db2) = None ∧ DGet key (strings_ db2) = Some value ∧ eviction_manager_ db2 = None).
  { unfold db2, track_access, touch, UpdateAccessInfo, update_entry. rewrite Hm1. destruct (ShouldTrackAccessInfo db1); by destruct db1. }
  clearbody db2. destruct H2 as (Hm2 & Hs2 & He2). set (db3 := track_memory _ db2).
  assert (H3 : DGet key (metadata_manager_ db3) = None ∧ DGet key (strings_ db3) = Some value ∧ eviction_manager_ db3 = None).
  { unfold db3, track_memory. destruct (memory_tracker_ db2); [|done]. unfold UpdateString, track_sizes, UpdateEstimatedSize,
      update_entry. cbn [fst snd]. rewrite Hm2. by destruct db2. }
  clearbody db3. destruct H3 as (Hm3 & Hs3 & He3). unfold check_eviction. rewrite He3.
  unfold persist_all_in. destruct (decide _); [|done].
  by rewrite meta_PersistKey, strings_PersistKey.
Qed.

Lemma DbGet_memory now key db v : DGet key (strings_ db) = Some v → (DbGet now key db).2 = Some v.
Proof. intros H. unfold DbGet. by rewrite H. Qed.

(** ** Evicted strings *)

Lemma HasTTL_update f key key' (m : Manager) :
  (∀ x, expire_time_ms (f x) = expire_time_ms x) → HasTTL key (update_entry f key' m).1 = HasTTL key m.
Proof.
  intros Hf. unfold HasTTL. rewrite DGet_update. case_bool_decide; [|done]. destruct (DGet key m); [|done]. cbn. by rewrite Hf.
Qed.

Lemma HasTTL_track_access now key key' db :
  HasTTL key (metadata_manager_ (track_access now key' db)) = HasTTL key (metadata_manager_ db).
Proof.
  unfold track_access. destruct (ShouldTrackAccessInfo db); [|done]. unfold touch. destruct db. cbn.
  by apply HasTTL_update.
Qed.

Lemma HasTTL_track_string key key' o n db :
  HasTTL key (metadata_manager_ (track_memory (UpdateString key' o n) db)) = HasTTL key (metadata_manager_ db).
Proof.
  unfold track_memory. destruct (memory_tracker_ db); [|done]. unfold UpdateString, track_sizes. cbn [fst snd]. destruct db. cbn.
  by apply HasTTL_update.
Qed.

(** A string that comes from RocksDB has no expiry time. *)
Lemma DbGet_cold_ttl now key db :
  DGet key (strings_ db) = None → DGet key (metadata_manager_ db) = None →
  HasTTL key (metadata_manager_ (DbGet now key db).1) = false.
Proof.
  intros Hs Hm. assert (H0 : HasTTL key (metadata_manager_ db) = false) by (unfold HasTTL; by rewrite Hm).
  unfold DbGet. rewrite Hs. cbv zeta. destruct (rocksdb_adapter_ db) as [a|]; [|done]. destruct (RocksGet key a) as [s|]; [|done].
  unfold load_string. destruct (DeserializeString s) as [v|]; [|done]. cbn [fst].
  rewrite HasTTL_track_string, HasTTL_track_access. destruct db. cbn. unfold HasTTL, RegisterKey.
  rewrite DGet_DInsert. by rewrite decide_True.
Qed.

Lemma EvictKey_own_entry key t db m v :
  entry key db = (Some m, (Some v, None, None, None), (None, None, None, None)) →
  entry key (EvictKey key t db).1 = (None, (None, None, None, None), (None, None, None, None)).
Proof.
  intros He. unfold EvictKey. cbv zeta. rewrite <- (PersistKey_entry key key t db) in He. set (db1 := PersistKey key t db) in *.
  clearbody db1. unfold entry in He. injection He as Hm H1 H2 H3 H4 H5 H6 H7 H8. unfold remove_data.
  assert (DContains key (strings_ db1) = true) as -> by (apply DContains_spec; by exists v).
  destruct db1. unfold entry. cbn in *. unfold UnregisterKey. rewrite !DGet_DRemove, !decide_True by done. by rewrite H2, H3, H4, H5, H6, H7, H8.
Qed.

(** [DEL] of a key that no map has. *)
Lemma DbDel_absent key db :
  entry key db = (None, (None, None, None, None), (None, None, None, None)) → DbDel key db = (unregister key db, false).
Proof.
  intros He. unfold entry in He. injection He as Hm H1 H2 H3 H4 H5 H6 H7 H8. unfold DbDel, remove_data.
  assert (Hn : ∀ V (x : DashMap V), DGet key x = None → DContains key x = false).
  { intros V x Hx. apply not_true_iff_false. rewrite DContains_spec, Hx. by intros [? ?]. }
  by rewrite !Hn.
Qed.

(** ** The theorems *)

(** C2. Whatever operations run on a database the server created, in whatever
    order and at whatever times, with or without a memory limit, eviction policy
    and RocksDB, the counters of all maps stay exact, the lists keep their
    representation, and every key the metadata knows has a value in one of the
    maps. *)
Theorem database_invariant os t em a mode total db :
  db_run os (fresh t em a mode total) = Some db →
  counts_ok db ∧ ∀ key, registered key db = true → present key db = true.
Proof.
  intros H. apply db_run_ok in H; [|apply fresh_ok]. destruct H as [Hc Hh]. split; [done|]. intros key. by apply Hh.
Qed.

(** C3. With a RocksDB behind it that takes every write and gives back what was
    written, or without eviction, a database answers every history of Set, Get,
    GetRange, SetRange and MGet as a function from keys to values does; evictions,
    which may run inside any write and between the operations, do not change an
    answer. Del and Exists are not among the operations: they do not see an
    evicted key ([evicted_string_returns]). *)
Theorem strings_survive_eviction {HR : RocksLibOk} os db :
  strings_ok db →
  (string_run os db).2 = (string_spec_run os (view db)).2 ∧
  ∀ key, view (string_run os db).1 key = (string_spec_run os (view db)).1 key.
Proof. intros H. destruct (string_run_refines os db (view db) H ltac:(done)) as (_ & H1 & H2). done. Qed.

(** Under a volatile policy the eviction inside a write leaves a key without an
    expiry time as it is: its metadata and its value of every type. *)
Theorem volatile_spares_persistent now db t key :
  memory_tracker_ db = Some t → IsVolatilePolicy (GetEvictionPolicy t) = true →
  HasTTL key (metadata_manager_ db) = false → entry key (check_eviction now db) = entry key db.
Proof. apply check_eviction_spares. Qed.

(** Under the 2Q policy no key is ever evicted: nothing records an access, so the
    queues the victims come from stay empty. *)
Theorem two_queue_never_evicts now db t em :
  eviction_manager_ db = Some em → no_queues em → memory_tracker_ db = Some t → GetEvictionPolicy t = k2Q →
  ∃ em', no_queues em' ∧ check_eviction now db = with_eviction (Some em') db.
Proof.
  intros He Hq Ht Hp. unfold check_eviction. rewrite He, Ht. destruct (ShouldCheckEviction t).
  - destruct (CheckAndEvict_2q (db_host (all_workers_memory db)) now em db) as [H1 H2];
      [cbn; by rewrite Ht|done|].
    destruct (CheckAndEvict _ now em db) as [[em' db'] n]. cbn [fst snd] in *. subst. eauto.
  - exists em. split; [done|]. destruct db. cbn in *. by subst.
Qed.

(** Once a hash table has expired and was looked at, a write to it reports success
    but no read sees it, at any later time: the table is still in memory, so the
    write does not register the key again. *)
Theorem expired_hash_swallows_writes now now' key field value db m h :
  eviction_manager_ db = None → DGet key (metadata_manager_ db) = Some m → IsExpired now m = true →
  GetHash key db = Some h → DContains field h = false →
  let db1 := (DbExists now key db).1 in
  (DbHSet now key field value db1).2 = true ∧ (DbHGet now' key field (DbHSet now key field value db1).1).2 = None.
Proof.
  intros He Hm Hx Hh Hf. unfold DbExists. rewrite (valid_expired now key db m) by done. cbn [fst].
  set (db1 := unregister key db).
  assert (H1 : eviction_manager_ db1 = None ∧ DGet key (metadata_manager_ db1) = None ∧ GetHash key db1 = Some h).
  { unfold db1, unregister, UnregisterKey. destruct db. cbn in *. rewrite DGet_DRemove. by rewrite decide_True. }
  destruct H1 as (He1 & Hm1 & Hh1). destruct (DbHSet_unregistered now key field value db1 h He1 Hm1 Hh1) as [Hm2 _]. split.
  - unfold DbHSet, hash_or_new. rewrite Hh1. cbv zeta.
    assert (Hr : (DInsert field value h).2 = true).
    { unfold DInsert, DContains in *. cbn [snd]. destruct (map_ h !! field); [done|]. by rewrite bool_decide_eq_true_2. }
    by destruct (DInsert field value h).
  - unfold DbHGet, on_hash. by rewrite valid_unregistered.
Qed.

(** A string past its expiry time is still served by GET, and once EXISTS has
    looked at it, a new SET does not make the key exist again. *)
Theorem expired_string_limbo now now' key value db m old :
  eviction_manager_ db = None → DGet key (metadata_manager_ db) = Some m → IsExpired now m = true →
  DGet key (strings_ db) = Some old →
  (DbGet now key db).2 = Some old ∧ (DbExists now key db).2 = false ∧
  let db1 := DbSet now key value (DbExists now key db).1 in
  (DbExists now' key db1).2 = false ∧ (DbGet now' key db1).2 = Some value.
Proof.
  intros He Hm Hx Hs. unfold DbExists. rewrite (valid_expired now key db m) by done. cbn [fst snd].
  split; [by apply DbGet_memory|]. split; [done|]. set (db1 := unregister key db).
  assert (H1 : eviction_manager_ db1 = None ∧ DGet key (metadata_manager_ db1) = None ∧ DGet key (strings_ db1) = Some old).
  { unfold db1, unregister, UnregisterKey. destruct db. cbn in *. rewrite DGet_DRemove. by rewrite decide_True. }
  destruct H1 as (He1 & Hm1 & Hs1). destruct (DbSet_unregistered now key value db1 old He1 Hm1 Hs1) as [H2 H3].
  cbv zeta. rewrite valid_unregistered by done. split; [done|by apply DbGet_memory].
Qed.

(** An evicted string is out of reach of DEL, which reports that there is no such
    key and leaves it in RocksDB; the next GET brings it back, without the expiry
    time it had. *)
Theorem evicted_string_returns {HR : RocksLibOk} now key db m a v :
  strings_ok db → rocksdb_adapter_ db = Some a →
  entry key db = (Some m, (Some v, None, None, None), (None, None, None, None)) →
  let db1 := (EvictKey key (key_type m) db).1 in
  (DbDel key db1).2 = false ∧ (DbGet now key (DbDel key db1).1).2 = Some v ∧
  HasTTL key (metadata_manager_ (DbGet now key (DbDel key db1).1).1) = false.
Proof.
  intros H Ha He db1. assert (Hm : DGet key (metadata_manager_ db) = Some m) by (unfold entry in He; congruence).
  assert (H1 := same_EvictKey key m db a H Ha Hm). fold db1 in H1.
  assert (He1 : entry key db1 = (None, (None, None, None, None), (None, None, None, None)))
    by by eapply EvictKey_own_entry.
  assert (Hd : DbDel key db1 = (unregister key db1, false)) by by apply DbDel_absent.
  rewrite Hd. cbn [fst snd]. split; [done|]. set (db2 := unregister key db1).
  assert (H2 : same_strings db1 db2) by (apply same_metadata; [apply H1|apply types_remove]).
  assert (Hs2 : DGet key (strings_ db2) = None) by (unfold db2, unregister, entry in *; destruct db1; cbn in *; congruence).
  split; [|by apply DbGet_cold_ttl; [|destruct (DGet key (metadata_manager_ db2)) eqn:E; [|done];
    unfold db2, unregister, UnregisterKey in E; destruct db1; cbn in E; rewrite DGet_DRemove, decide_True in E by done]].
  destruct (DbGet_view now key db2 (proj1 H2)) as [_ ->]. rewrite (proj1 (proj2 H2)), (proj1 (proj2 H1)).
  unfold view. unfold entry in He. by replace (DGet key (strings_ db)) with (Some v) by congruence.
Qed.
End DatabaseContract.

(** ** Witnesses *)

#[local] Existing Instance small_platform.
#[local] Instance small_text : DoubleText := {| dtoa _ := []; atod _ := None |}.

(** A limit of a few bytes, so that writes evict. *)
Definition tight (policy : EvictionPolicy) : MemoryTracker :=
  new_tracker (MkMemConfig 20 policy d0_8 5 true).
Definition small_adapter : RocksDBAdapter := MkAdapter _ true (Some (∅ : gmap bytes bytes)).
Definition small_database (policy : EvictionPolicy) : Database :=
  fresh (Some (tight policy)) (Some (new_manager 0%Z)) (Some small_adapter) kRedis None.

Definition small_history : list (Z * db_op) :=
  [(1, DoSet (B "a") (B "0123456789")); (2, DoHSet (B "h") (B "f") (B "v")); (3, DoLPush (B "l") (B "x"));
   (4, DoExpireMs (B "h") 5); (6, DoHGet (B "h") (B "f")); (7, DoSet (B "b") (B "0123456789")); (8, DoGet (B "a"))]%Z.

(** A term that evaluates to a result has one. *)
Lemma evaluates {A} (o : option A) : match o with Some _ => true | None => false end = true → ∃ x, o = Some x.
Proof. destruct o; [eauto|done]. Qed.

Lemma database_invariant_witness :
  (∃ db, db_run small_history (small_database kAllKeysRandom) = Some db ∧
     counts_ok db ∧ ∀ key, registered key db = true → present key db = true).
Proof.
  destruct (evaluates (db_run small_history (small_database kAllKeysRandom)) ltac:(vm_compute; reflexivity)) as [db E].
  exists db. split; [exact E|].
  exact (database_invariant small_history (Some (tight kAllKeysRandom)) (Some (new_manager 0%Z)) (Some small_adapter)
    kRedis None db E).
Defined.

Definition small_strings : list (Z * string_op) :=
  [(1, SSet (B "a") (B "0123456789")); (2, SSet (B "b") (B "0123456789")); (3, SSet (B "c") (B "0123456789"));
   (4, SGet (B "a")); (5, SGet (B "b")); (6, SSetRange (B "a") 8 (B "xyz")); (7, SGetRange (B "a") (-4) (-1))]%Z.

(** The second write is evicted; the answers are those of a map. *)
Lemma strings_survive_eviction_witness :
  DContains (B "b") (strings_ (string_run (take 3 small_strings) (small_database kAllKeysRandom)).1) = false ∧
  (string_run small_strings (small_database kAllKeysRandom)).2 =
    [SDone; SDone; SDone; SValue (Some (B "0123456789")); SValue (Some (B "0123456789")); SLength (Some 11); SText (B "7xyz")]%Z.
Proof.
  split; [by vm_compute|].
  destruct (@strings_survive_eviction small_platform small_rocks_ok small_strings (small_database kAllKeysRandom)) as [H _].
  { split; [intros k m Hm; done|by eexists]. }
  rewrite H. by vm_compute.
Defined.

Definition volatile_database : Database :=
  let db := DbSet 1 (B "keep") (B "0123456789") (fresh (Some (tight kVolatileTTL)) None None kRedis None) in
  let db := DbSet 1 (B "drop") (B "0123456789") db in
  with_eviction (Some (new_manager 0%Z)) (DbSetExpireMs (B "drop") 100 db).1.

Lemma volatile_spares_persistent_witness :
  DContains (B "drop") (strings_ (check_eviction 2 volatile_database)) = false ∧
  entry (B "keep") (check_eviction 2 volatile_database) = entry (B "keep") volatile_database.
Proof.
  split; [by vm_compute|]. destruct (memory_tracker_ volatile_database) as [t|] eqn:E; [|by vm_compute in E].
  apply (volatile_spares_persistent 2 volatile_database t (B "keep")); [done| |by vm_compute].
  vm_compute in E. by simplify_eq.
Defined.

Lemma two_queue_never_evicts_witness :
  ∃ em', no_queues em' ∧
    check_eviction 1 (small_database k2Q) = with_eviction (Some em') (small_database k2Q).
Proof. by eapply (two_queue_never_evicts 1 (small_database k2Q) (tight k2Q)). Defined.

Definition expired_hash : Database :=
  let db := (DbHSet 1 (B "h") (B "f") (B "v") (fresh None None None kRedis None)).1 in (DbSetExpireMs (B "h") 5 db).1.

Lemma expired_hash_swallows_writes_witness :
  let db1 := (DbExists 9 (B "h") expired_hash).1 in
  (DbHSet 9 (B "h") (B "g") (B "w") db1).2 = true ∧
  (DbHGet 10 (B "h") (B "g") (DbHSet 9 (B "h") (B "g") (B "w") db1).1).2 = None.
Proof.
  by eapply (expired_hash_swallows_writes 9 10 (B "h") (B "g") (B "w") expired_hash
    (MkMeta kHash (Some 5%Z) 1 0 0 0) (DInsert (B "f") (B "v") dash_empty).1); vm_compute.
Defined.

Definition expired_string : Database :=
  (DbSetExpireMs (B "k") 5 (DbSet 1 (B "k") (B "old") (fresh None None None kRedis None))).1.

Lemma expired_string_limbo_witness :
  (DbGet 9 (B "k") expired_string).2 = Some (B "old") ∧ (DbExists 9 (B "k") expired_string).2 = false ∧
  let db1 := DbSet 9 (B "k") (B "new") (DbExists 9 (B "k") expired_string).1 in
  (DbExists 10 (B "k") db1).2 = false ∧ (DbGet 10 (B "k") db1).2 = Some (B "new").
Proof.
  by eapply (expired_string_limbo 9 10 (B "k") (B "new") expired_string (MkMeta kString (Some 5%Z) 1 0 0 0)); vm_compute.
Defined.

Definition volatile_string : Database :=
  (DbSetExpireMs (B "k") 5 (DbSet 1 (B "k") (B "v") (fresh None None (Some small_adapter) kRocksDB None))).1.

Lemma evicted_string_returns_witness :
  HasTTL (B "k") (metadata_manager_ volatile_string) = true ∧
  let db1 := (EvictKey (B "k") kString volatile_string).1 in
  (DbDel (B "k") db1).2 = false ∧ (DbGet 2 (B "k") (DbDel (B "k") db1).1).2 = Some (B "v") ∧
  HasTTL (B "k") (metadata_manager_ (DbGet 2 (B "k") (DbDel (B "k") db1).1).1) = false.
Proof.
  split; [by vm_compute|].
  destruct (evaluates (rocksdb_adapter_ volatile_string) ltac:(vm_compute; reflexivity)) as [a Ha].
  apply (@evicted_string_returns small_platform small_rocks_ok 2 (B "k") volatile_string (MkMeta kString (Some 5%Z) 1 0 0 0) a (B "v")).
  - unfold volatile_string, DbSetExpireMs, on_metadata, SetExpireMs, update_entry.
    assert (H0 : strings_ok (fresh None None (Some small_adapter) kRocksDB None))
      by (split; [intros k m Hm; done|by eexists]).
    assert (H1 := proj1 (@DbSet_view small_platform small_rocks_ok 1 (B "k") (B "v") _ H0)).
    exact (proj1 (@same_metadata small_platform _ _ H1 (types_update (MetaSetExpireMs 5) (B "k") _ ltac:(done)))).
  - exact Ha.
  - reflexivity.
Defined.
