(* ===== verification/ClusterConfig.v ===== *)
(** * Cluster configuration

    Models src/astra/cluster/cluster_config.hpp: the immutable cluster state with
    the owner of every slot, the check whether a key belongs to another node, and
    the compact text of slot assignments. *)
From Stdlib Require Import SpecFloat.
From stdpp Require Import sorting.
From S2P Require Import Prelude.
From S2P Require Import Simd.
From S2P Require Import Numbers.
From S2P Require Import Text.
From S2P Require Import Sharding.

Inductive ClusterRole := kMaster | kSlave | kNone.

Record ClusterNodeInfo := MkNode {
  node_id : bytes; node_ip : bytes; node_port : Z; node_bus_port : Z;
  node_role : ClusterRole; node_master_id : bytes; node_config_epoch : Z
}.

(** [slot_owners_] is an array of 16384 strings that start empty; here the slots
    with an owner. *)
Record ClusterState := MkCluster {
  nodes_ : gmap bytes ClusterNodeInfo;
  slot_owners_ : gmap Z bytes;
  self_id_ : bytes;
  enabled_ : bool
}.
Implicit Types st : ClusterState.

Definition default_cluster : ClusterState := MkCluster ∅ ∅ [] false.

(** The constructor; [epoch] is the clock in milliseconds. *)
Definition new_cluster (self_id ip : bytes) (port bus_port epoch : Z) : ClusterState :=
  MkCluster {[ self_id := MkNode self_id ip port bus_port kMaster [] epoch ]} ∅ self_id true.

Definition GetSelfId st : bytes := self_id_ st.
Definition IsEnabled st : bool := enabled_ st.
Definition GetNode (id : bytes) st : option ClusterNodeInfo := nodes_ st !! id.

Definition slot_owner (slot : Z) st : bytes := default [] (slot_owners_ st !! slot).

Definition GetSlotOwner (slot : Z) st : option bytes :=
  if (16384 <=? slot)%Z || bool_decide (slot_owner slot st = []) then None else Some (slot_owner slot st).

Definition WithNodeAdded (node : ClusterNodeInfo) st : ClusterState :=
  MkCluster (<[node_id node := node]> (nodes_ st)) (slot_owners_ st) (self_id_ st) (enabled_ st).
Definition WithNodeRemoved (id : bytes) st : ClusterState :=
  MkCluster (delete id (nodes_ st)) (slot_owners_ st) (self_id_ st) (enabled_ st).

Definition WithSlotAssigned (id : bytes) (slot : Z) st : ClusterState :=
  if (slot <? 16384)%Z then MkCluster (nodes_ st) (<[slot := id]> (slot_owners_ st)) (self_id_ st) (enabled_ st) else st.
Definition WithSlotsAssigned (id : bytes) (slots : list Z) st : ClusterState :=
  foldl (λ st slot, WithSlotAssigned id slot st) st slots.
Definition WithSlotsRemoved (slots : list Z) st : ClusterState := WithSlotsAssigned [] slots st.

(** The thread-local state is null until it is set. *)
Definition GetKeyOwner (state : option ClusterState) (key : bytes) : option bytes :=
  st ← state; if IsEnabled st then GetSlotOwner (CalculateWithTag key) st else None.

Definition CheckKeyRedirect (state : option ClusterState) (key : bytes) : option bytes :=
  st ← state;
  if negb (IsEnabled st) then None
  else
    owner ← GetSlotOwner (CalculateWithTag key) st;
    if decide (owner = GetSelfId st) then None else Some owner.

(** ** The text of slot assignments *)

(** [std::unique] on a sorted vector. *)
Fixpoint unique (l : list Z) : list Z :=
  match l with
  | x :: ((y :: _) as l') => if (x =? y)%Z then unique l' else x :: unique l'
  | _ => l
  end.

Definition sorted_slots (slots : list Z) : list Z := unique (merge_sort Z.le slots).

(** The runs of consecutive slots. *)
Fixpoint runs (l : list Z) : list (Z * Z) :=
  match l with
  | [] => []
  | x :: l =>
      match runs l with
      | (a, b) :: rs => if (a =? x + 1)%Z then (x, b) :: rs else (x, x) :: (a, b) :: rs
      | [] => [(x, x)]
      end
  end.

Definition run_text (r : Z * Z) : bytes :=
  if (r.1 =? r.2)%Z then print_u64 r.1 else print_u64 r.1 ++ B "-" ++ print_u64 r.2.

Fixpoint join (sep : ascii) (l : list bytes) : bytes :=
  match l with
  | [] => []
  | [p] => p
  | p :: l => p ++ sep :: join sep l
  end.

Definition Serialize (slots : list Z) : bytes :=
  match slots with [] => [] | _ => join "," (run_text <$> runs (sorted_slots slots)) end.

(** [for (uint16_t slot = range_start; slot <= range_end; ++slot)]; the counter
    wraps, and [None] is a loop that does not end. *)
Fixpoint slot_loop (fuel : nat) (slot range_end : Z) : option (list Z) :=
  match fuel with
  | O => None
  | S fuel => if (slot <=? range_end)%Z then cons slot <$> slot_loop fuel (u16 (slot + 1)) range_end else Some []
  end.

(** More than the slots of a range that ends. *)
Definition slot_fuel : nat := N.to_nat 65536.

Inductive slots_outcome := Slots (l : list Z) | SlotsThrow | SlotsHang.

(** [std::stoul] and the cast to [uint16_t]. *)
Definition stoul_u16 (s : bytes) : option Z := u16 <$> stoull s.

Definition parse_part (part : bytes) : slots_outcome :=
  match find_char "-" part with
  | Some dash_pos =>
      match stoul_u16 (substr 0 dash_pos part), stoul_u16 (drop (dash_pos + 1) part) with
      | Some range_start, Some range_end =>
          match slot_loop slot_fuel range_start range_end with Some l => Slots l | None => SlotsHang end
      | _, _ => SlotsThrow
      end
  | None => match stoul_u16 part with Some slot => Slots [slot] | None => SlotsThrow end
  end.

Fixpoint parse_parts (parts : list bytes) : slots_outcome :=
  match parts with
  | [] => Slots []
  | part :: parts =>
      match parse_part part with
      | Slots l => match parse_parts parts with Slots l' => Slots (l ++ l') | o => o end
      | o => o
      end
  end.

Definition Deserialize (data : bytes) : slots_outcome :=
  match data with [] => Slots [] | _ => parse_parts (split_on "," data) end.

(** [GetStats]: the slots and ranges of a text; [None] when [std::stoul]
    throws. *)
Record SerializationStats := MkSlotStats {
  slot_count : Z; string_size : Z; compressed_ranges : Z; compression_ratio : spec_float
}.

Fixpoint count_parts (parts : list bytes) (slots ranges : Z) : option (Z * Z) :=
  match parts with
  | [] => Some (slots, ranges)
  | part :: parts =>
      match find_char "-" part with
      | Some dash_pos =>
          range_start ← stoul_u16 (substr 0 dash_pos part);
          range_end ← stoul_u16 (drop (dash_pos + 1) part);
          count_parts parts (u64 (slots + (range_end - range_start + 1))) (ranges + 1)
      | None => count_parts parts (u64 (slots + 1)) ranges
      end
  end.

Definition GetStats (data : bytes) : option SerializationStats :=
  '(slots, ranges) ← count_parts (match data with [] => [] | _ => split_on "," data end) 0 0;
  Some (MkSlotStats slots (zlen data) ranges
          (if (0 <? slots)%Z then double_div (double_of_Z (zlen data)) (double_of_Z slots) else d0_0)).

(** ** Lemmas *)

Lemma u16_small n : (0 ≤ n < 2 ^ 16)%Z → u16 n = n.
Proof. apply Z.mod_small. Qed.

Lemma print_u64_digits n : (0 ≤ n)%Z → all_digits (print_u64 n).
Proof. apply decimal_digits. Qed.

Lemma print_u64_no c n : (0 ≤ n)%Z → is_digit c = false → c ∉ print_u64 n.
Proof.
  intros Hn Hc Hi. assert (Ha := print_u64_digits n Hn). apply (proj1 (Forall_forall _ _) Ha) in Hi. congruence.
Qed.

Lemma stoul_print n rest :
  (0 ≤ n < 2 ^ 16)%Z → (∀ c, head rest = Some c → is_digit c = false) → stoul_u16 (print_u64 n ++ rest) = Some n.
Proof.
  intros Hn Hr. unfold stoul_u16, stoull. assert (Hd := print_u64_digits n ltac:(lia)).
  assert (Hv : digits_value 0 (print_u64 n) = n).
  { apply decimal_value. change (10 ^ Z.of_nat 20)%Z with 100000000000000000000%Z. lia. }
  assert (Hne : print_u64 n ≠ []) by (apply decimal_nonempty; lia).
  revert Hd Hv Hne. generalize (print_u64 n). intros ds Hd Hv Hne. destruct ds as [|c ds]; [done|].
  assert (Hc : is_digit c = true) by by apply Forall_cons_1 in Hd as [? _].
  rewrite skip_spaces_id by (intros c' [= <-]; by apply digit_not_space).
  assert (Hs : take_sign ((c :: ds) ++ rest) = (false, (c :: ds) ++ rest)).
  { unfold take_sign, ascii_eqb. cbn [app]. rewrite !(bool_decide_eq_false_2 (c = _)) by (by intros ->). done. }
  rewrite Hs, span_digits_app, Hv by done. rewrite (proj2 (Z.ltb_lt n _)) by lia. cbn. by rewrite u16_small.
Qed.

Lemma slot_fuel_Z : Z.of_nat slot_fuel = (2 ^ 16)%Z.
Proof. unfold slot_fuel. by rewrite N_nat_Z. Qed.
#[local] Opaque slot_fuel.

Lemma slot_loop_counts fuel a b :
  (0 ≤ a)%Z → (b < 2 ^ 16 - 1)%Z → (0 ≤ b - a + 1 < Z.of_nat fuel)%Z → slot_loop fuel a b = Some (seqZ a (b - a + 1)).
Proof.
  revert a. induction fuel as [|fuel IH]; intros a Ha Hb Hf; cbn [slot_loop].
  { lia. }
  destruct (a <=? b)%Z eqn:E; b2p.
  - rewrite u16_small, IH by lia. rewrite (seqZ_cons a) by lia. rewrite Z.add_1_r.
    by replace (b - Z.succ a + 1)%Z with (Z.pred (b - a + 1)) by lia.
  - rewrite seqZ_nil by lia. done.
Qed.

(** The runs are the list they were made of. *)
Definition expand (r : Z * Z) : list Z := seqZ r.1 (r.2 - r.1 + 1).

Lemma runs_expand l : (runs l ≫= expand) = l.
Proof.
  induction l as [|x l IH]; [done|]. cbn [runs]. destruct (runs l) as [|[a b] rs] eqn:E.
  - cbn in IH. subst. cbn. unfold expand. cbn [fst snd]. replace (x - x + 1)%Z with 1%Z by lia. done.
  - assert (Hab : (a ≤ b)%Z).
    { clear IH. revert a b rs E. induction l as [|y l IH']; intros a b rs E; [done|]. cbn [runs] in E.
      destruct (runs l) as [|[a' b'] rs'] eqn:E'; [simplify_eq; lia|].
      specialize (IH' a' b' rs' eq_refl). destruct (a' =? y + 1)%Z eqn:Ey; simplify_eq; b2p; lia. }
    destruct (a =? x + 1)%Z eqn:Ea; b2p; rewrite <- IH; cbn; unfold expand; cbn [fst snd].
    + subst a. rewrite (seqZ_cons x) by lia. replace (Z.succ x) with (x + 1)%Z by lia.
      by replace (Z.pred (b - x + 1)) with (b - (x + 1) + 1)%Z by lia.
    + replace (x - x + 1)%Z with 1%Z by lia. done.
Qed.

Lemma runs_range l lo hi : Forall (λ x, lo ≤ x < hi)%Z l → Forall (λ r, lo ≤ r.1 ≤ r.2 ∧ r.2 < hi)%Z (runs l).
Proof.
  induction 1 as [|x l Hx _ IH]; [constructor|]. cbn [runs]. destruct IH as [|[a b] rs Hab Hrs]; [repeat constructor; cbn; lia|].
  cbn [fst snd] in *. destruct (a =? x + 1)%Z eqn:E; b2p; repeat constructor; cbn; try lia; done.
Qed.

Lemma run_text_no_comma r : (0 ≤ r.1)%Z → (0 ≤ r.2)%Z → ","%char ∉ run_text r.
Proof.
  intros H1 H2. assert (Hd : is_digit "," = false) by reflexivity. unfold run_text.
  destruct (r.1 =? r.2)%Z; [by apply print_u64_no|]. rewrite !not_elem_of_app.
  split; [by apply print_u64_no|]. split; [|by apply print_u64_no]. by intros [H|H%elem_of_nil]%elem_of_cons.
Qed.

Lemma parse_run r : (0 ≤ r.1 ≤ r.2 ∧ r.2 < 2 ^ 16 - 1)%Z → parse_part (run_text r) = Slots (expand r).
Proof.
  intros [Hr1 Hr2]. assert (Hd : is_digit "-" = false) by reflexivity.
  unfold parse_part, run_text. destruct (r.1 =? r.2)%Z eqn:E; b2p.
  - rewrite (proj2 (find_char_None _ _)) by (apply print_u64_no; [lia|done]).
    rewrite <- (app_nil_r (print_u64 r.1)), stoul_print by (done || lia). unfold expand. rewrite E.
    by replace (r.2 - r.2 + 1)%Z with 1%Z by lia.
  - change (B "-" ++ print_u64 r.2) with ("-"%char :: print_u64 r.2).
    rewrite find_char_Some by (apply print_u64_no; [lia|done]). unfold substr. rewrite drop_0, take_app_length.
    rewrite drop_app_ge by lia. replace (length (print_u64 r.1) + 1 - length (print_u64 r.1)) with 1 by lia.
    change (drop 1 ("-"%char :: print_u64 r.2)) with (drop 0 (print_u64 r.2)). rewrite drop_0.
    rewrite <- (app_nil_r (print_u64 r.1)), <- (app_nil_r (print_u64 r.2)).
    rewrite !stoul_print by (done || lia).
    rewrite slot_loop_counts; [done|lia|lia|]. rewrite slot_fuel_Z. lia.
Qed.

Lemma join_split l : l ≠ [] → Forall (λ p, ","%char ∉ p) l → split_on "," (join "," l) = l.
Proof.
  induction l as [|p l IH]; [done|]. intros _ [Hp Hl]%Forall_cons. destruct l as [|q l]; [by apply split_on_none|].
  change (join "," (p :: q :: l)) with (p ++ ","%char :: join "," (q :: l)). rewrite split_on_app by done. by rewrite IH.
Qed.

Lemma parse_runs rs :
  Forall (λ r, 0 ≤ r.1 ≤ r.2 ∧ r.2 < 2 ^ 16 - 1)%Z rs → parse_parts (run_text <$> rs) = Slots (rs ≫= expand).
Proof.
  induction 1 as [|r rs Hr _ IH]; [done|]. cbn [fmap list_fmap parse_parts mbind list_bind]. by rewrite parse_run, IH.
Qed.

(** Sorting and removing duplicates. *)
Lemma unique_elem l x : x ∈ unique l ↔ x ∈ l.
Proof.
  induction l as [|a l IH]; [done|]. destruct l as [|b l]; [done|].
  change (unique (a :: b :: l)) with (if (a =? b)%Z then unique (b :: l) else a :: unique (b :: l)).
  destruct (a =? b)%Z eqn:E; b2p; [subst; rewrite IH; set_solver|]. rewrite !elem_of_cons in *. rewrite IH. done.
Qed.

Lemma unique_sorted l : Sorted Z.le l → Sorted Z.lt (unique l).
Proof.
  induction l as [|a l IH]; [done|]. intros Hs. destruct l as [|b l]; [by repeat constructor|].
  change (unique (a :: b :: l)) with (if (a =? b)%Z then unique (b :: l) else a :: unique (b :: l)).
  apply Sorted_inv in Hs as [Hs Hh]. specialize (IH Hs). destruct (a =? b)%Z eqn:E; b2p; [done|].
  constructor; [done|]. apply HdRel_inv in Hh. apply Sorted_StronglySorted in Hs; [|intros x y z; lia].
  destruct (unique (b :: l)) as [|c u] eqn:Eu; [constructor|]. constructor.
  assert (Hc : c ∈ b :: l) by (rewrite <- unique_elem, Eu; set_solver).
  apply elem_of_cons in Hc as [->|Hc]; [lia|]. apply StronglySorted_inv in Hs as [_ Hf].
  apply (proj1 (Forall_forall _ _) Hf) in Hc. lia.
Qed.

Lemma sorted_slots_spec slots : Sorted Z.lt (sorted_slots slots) ∧ ∀ x, x ∈ sorted_slots slots ↔ x ∈ slots.
Proof.
  unfold sorted_slots. split.
  - apply unique_sorted, Sorted_merge_sort. intros x y. lia.
  - intros x. rewrite unique_elem. by rewrite merge_sort_Permutation.
Qed.

(** ** The theorem *)

(** C28. The text of a set of slots reads back as exactly those slots, in
    ascending order and without repetition. *)
Theorem slots_roundtrip slots :
  Forall (λ s, 0 ≤ s < 2 ^ 16 - 1)%Z slots →
  ∃ l, Deserialize (Serialize slots) = Slots l ∧ Sorted Z.lt l ∧ ∀ x, x ∈ l ↔ x ∈ slots.
Proof.
  intros Hs. destruct (sorted_slots_spec slots) as [H1 H2]. exists (sorted_slots slots). split; [|done].
  destruct slots as [|s0 slots]; [done|]. unfold Serialize. set (l := sorted_slots (s0 :: slots)) in *. clearbody l.
  assert (Hl : Forall (λ s, 0 ≤ s < 2 ^ 16 - 1)%Z l).
  { apply Forall_forall. intros x Hx%H2. by apply (proj1 (Forall_forall _ _) Hs). }
  assert (Hr := runs_range l 0 (2 ^ 16 - 1) Hl).
  assert (Hp : run_text <$> runs l ≠ []).
  { assert (Hi : s0 ∈ l) by (apply H2; set_solver). intros E. apply fmap_nil_inv in E.
    assert (Hx := runs_expand l). rewrite E in Hx. rewrite <- Hx in Hi. by apply elem_of_nil in Hi. }
  assert (Hd : Deserialize (join "," (run_text <$> runs l)) = parse_parts (run_text <$> runs l)).
  { rewrite <- (join_split (run_text <$> runs l)) at 2; [|done|].
    - unfold Deserialize. destruct (join _ _) eqn:E; [|done]. destruct (runs l) as [|r rs]; [done|].
      exfalso. assert (Hne : run_text r ≠ []).
      { unfold run_text. assert (Hn := λ n, decimal_nonempty 20 n ltac:(lia)). destruct (_ =? _)%Z; [apply Hn|].
        intros [Hx _]%app_eq_nil. by apply Hn in Hx. }
      cbn [fmap list_fmap join] in E. destruct (run_text <$> rs); [done|]. by apply app_eq_nil in E as [? _].
    - apply Forall_fmap. eapply Forall_impl; [exact Hr|]. cbn. intros r Hx. apply run_text_no_comma; lia. }
  rewrite Hd, parse_runs by done. by rewrite runs_expand.
Qed.

(** A range that ends at the largest 16-bit number never ends. *)
Lemma slot_loop_wraps fuel a : (0 ≤ a < 2 ^ 16)%Z → slot_loop fuel a (2 ^ 16 - 1) = None.
Proof.
  revert a. induction fuel as [|fuel IH]; intros a Ha; [done|]. cbn [slot_loop].
  rewrite (proj2 (Z.leb_le a _)) by lia. rewrite IH; [done|]. unfold u16. apply Z.mod_pos_bound. lia.
Qed.

Lemma slots_roundtrip_witness :
  Serialize [5; 3; 4; 9; 3]%Z = B "3-5,9" ∧
  ∃ l, Deserialize (Serialize [5; 3; 4; 9; 3]%Z) = Slots l ∧ Sorted Z.lt l ∧ ∀ x, x ∈ l ↔ x ∈ [5; 3; 4; 9; 3]%Z.
Proof.
  split; [by vm_compute|]. apply (slots_roundtrip [5; 3; 4; 9; 3]%Z). repeat constructor; cbv; congruence.
Defined.
