(* ===== verification/Blocking.v ===== *)
(** * Blocked clients

    Models src/astra/commands/blocking_manager.hpp and .cpp: the queue of the
    clients that wait on a key, first come first served, and the timers.  What a
    client does when it is woken is a function on the state of the server; the
    answers are handed to the pointer to its connection.  A timer that runs out is an
    event. *)
From Stdlib Require Import SpecFloat.
From S2P Require Import Prelude.
From S2P Require Import RespTypes.
From S2P Require Import Text.

Section Blocking.
Context {State : Type}.

(** [connected] is whether the pointer to the connection is set. *)
Record BlockedClient := MkBlocked {
  client_id : Z;
  client_key : bytes;
  client_command : Command;
  timeout_seconds : spec_float;
  start_time : Z;
  callback : State → State * RespValue;
  connected : bool
}.

(** A timer of a client that never times out is idle; another has its delay in
    milliseconds. *)
Record BlockingManager := MkBlocking {
  wait_queues_ : gmap bytes (list BlockedClient);
  timeout_timers_ : gmap Z (option Z)
}.
Implicit Types (m : BlockingManager) (c : BlockedClient) (id : Z) (key : bytes).

(** The calls of [Send]: the client and the answer. *)
Definition sending : Type := list (Z * RespValue).

Definition queue_of key m : list BlockedClient := default [] (wait_queues_ m !! key).

Definition timer_of (timeout : spec_float) : option Z :=
  if double_lt d0_0 timeout then Some (default 0%Z (double_trunc (double_mul timeout (double_of_Z 1000)))) else None.

Definition AddBlockedClient key c m : BlockingManager :=
  MkBlocking (<[key := queue_of key m ++ [c]]> (wait_queues_ m)) (<[client_id c := timer_of (timeout_seconds c)]> (timeout_timers_ m)).

Definition is_client id c : bool := (client_id c =? id)%Z.

(** The first queue, in the order of the table, that has the client. *)
Definition find_queue id m : option bytes :=
  '(_, kq) ← list_find (λ kq, existsb (is_client id) kq.2 = true) (map_to_list (wait_queues_ m)); Some kq.1.

Definition RemoveBlockedClient id m : BlockingManager :=
  let timers := delete id (timeout_timers_ m) in
  match find_queue id m with
  | Some key => MkBlocking (<[key := filter (λ c, is_client id c = false) (queue_of key m)]> (wait_queues_ m)) timers
  | None => MkBlocking (wait_queues_ m) timers
  end.

(** [connection->Send(result)], when the pointer is set.  The server casts the address
    of its own connections through [void*] to the unrelated class of the pointer
    (astra/server/worker.hpp); what comes of a call on it is not modelled: an element of
    [sending] is the call, not the arrival of the answer. *)
Definition send c (result : RespValue) : sending := if connected c then [(client_id c, result)] else [].

Definition ProcessBlockedCommand c (s : State) : State * sending :=
  let '(s, result) := callback c s in (s, send c result).

(** An empty queue goes. *)
Definition put_queue key (q : list BlockedClient) m : gmap bytes (list BlockedClient) :=
  match q with [] => delete key (wait_queues_ m) | _ => <[key := q]> (wait_queues_ m) end.

(** The first client that waits on the key. *)
Definition take_waiting key m : BlockingManager * option BlockedClient :=
  match queue_of key m with
  | [] => (m, None)
  | c :: q => (MkBlocking (put_queue key q m) (delete (client_id c) (timeout_timers_ m)), Some c)
  end.

Definition WakeUpBlockedClients key m (s : State) : BlockingManager * State * sending :=
  match take_waiting key m with
  | (m, None) => (m, s, [])
  | (m, Some c) => let '(s, sent) := ProcessBlockedCommand c s in (m, s, sent)
  end.

(** The client is erased from the first queue that has it. *)
Fixpoint erase_first id (q : list BlockedClient) : list BlockedClient :=
  match q with [] => [] | c :: q => if is_client id c then q else c :: erase_first id q end.

Definition HandleTimeout id m : BlockingManager * sending :=
  let timers := delete id (timeout_timers_ m) in
  match find_queue id m with
  | Some key =>
      let q := queue_of key m in
      (MkBlocking (put_queue key (erase_first id q) m) timers,
       match list_find (λ c, is_client id c = true) q with
       | Some (_, c) => send c (resp_of_type kNullBulkString)
       | None => []
       end)
  | None => (MkBlocking (wait_queues_ m) timers, [])
  end.

(** [now] and the start are in nanoseconds. *)
Definition has_expired (now : Z) c : bool :=
  let elapsed := double_div (double_of_Z (now - start_time c)) (double_of_Z 1000000000) in
  double_lt (timeout_seconds c) elapsed && double_lt d0_0 (timeout_seconds c).

(** Expired clients are answered by their callback. *)
Fixpoint clean_queue (now : Z) (q : list BlockedClient) (timers : gmap Z (option Z)) (s : State)
    : list BlockedClient * gmap Z (option Z) * State * sending :=
  match q with
  | [] => ([], timers, s, [])
  | c :: q =>
      if has_expired now c then
        let timers := delete (client_id c) timers in
        let '(s, sent) := if connected c then let '(s, result) := callback c s in (s, send c result) else (s, []) in
        let '(q, timers, s, sent') := clean_queue now q timers s in
        (q, timers, s, sent ++ sent')
      else
        let '(q, timers, s, sent) := clean_queue now q timers s in (c :: q, timers, s, sent)
  end.

Definition CleanExpiredRequests (now : Z) m (s : State) : BlockingManager * State * sending :=
  foldl (λ acc kq,
    let '(m, s, sent) := acc in
    let '(q, timers, s, sent') := clean_queue now kq.2 (timeout_timers_ m) s in
    (MkBlocking (<[kq.1 := q]> (wait_queues_ m)) timers, s, sent ++ sent')) (m, s, []) (map_to_list (wait_queues_ m)).

Definition GetBlockedClientCount m : Z := foldl (λ n kq, u64 (n + zlen kq.2)) 0%Z (map_to_list (wait_queues_ m)).
Definition IsClientBlocked id m : bool := existsb (λ kq, existsb (is_client id) kq.2) (map_to_list (wait_queues_ m)).
End Blocking.

Arguments BlockedClient : clear implicits.
Arguments BlockingManager : clear implicits.

(** ** Blocked clients: the contract

    The queues behave as one list of requests in the order in which they came: a key
    wakes the first request that waits on it, a timer answers a request of its client
    with nil, and a request that is answered is gone.  A client may have several
    requests; its timer is that of the last one. *)

Section BlockingContract.
Context {State : Type}.
Abbreviation Manager := (BlockingManager State).
Abbreviation Client := (BlockedClient State).
Implicit Types (m : Manager) (c : Client) (id : Z) (key : bytes) (l : list (bytes * Client)) (s : State).

(** ** The specification: one list *)

(** What happens to the clients. *)
Inductive block_op :=
  | OBlock key (c : Client) | OWake key | OTimeout id | OLeave id | OClean (now : Z).

Definition ids l : list Z := (λ x, client_id x.2) <$> l.
Definition waiting_on key l : list Client := snd <$> filter (λ x, x.1 = key) l.

(** Requests answered by their callbacks, one after the other. *)
Fixpoint answer_all (q : list Client) s : State * sending :=
  match q with
  | [] => (s, [])
  | c :: q =>
      let '(s, sent) := if connected c then let '(s, result) := callback c s in (s, send c result) else (s, []) in
      let '(s, sent') := answer_all q s in (s, sent ++ sent')
  end.
Definition expired_on (now : Z) l key : list Client := filter (λ c, has_expired now c = true) (waiting_on key l).

(** A timer takes the first request of its client on some key, a client that leaves all
    its requests on some key; the expired requests are answered key by key. *)
Inductive queue_step : block_op → list (bytes * Client) → State → list (bytes * Client) → State → sending → Prop :=
  | QBlock key c l s : queue_step (OBlock key c) l s (l ++ [(key, c)]) s []
  | QWake key c l1 l2 s s' result : waiting_on key l1 = [] → callback c s = (s', result) →
      queue_step (OWake key) (l1 ++ (key, c) :: l2) s (l1 ++ l2) s' (send c result)
  | QWake_none key l s : waiting_on key l = [] → queue_step (OWake key) l s l s []
  | QTimeout id key c l1 l2 s : client_id c = id → (∀ c', (key, c') ∈ l1 → client_id c' ≠ id) →
      queue_step (OTimeout id) (l1 ++ (key, c) :: l2) s (l1 ++ l2) s (send c (resp_of_type kNullBulkString))
  | QTimeout_none id l s : id ∉ ids l → queue_step (OTimeout id) l s l s []
  | QLeave id key c l s : (key, c) ∈ l → client_id c = id →
      queue_step (OLeave id) l s (filter (λ x, ¬ (x.1 = key ∧ client_id x.2 = id)) l) s []
  | QLeave_none id l s : id ∉ ids l → queue_step (OLeave id) l s l s []
  | QClean now keys l s : NoDup keys → (∀ x, x ∈ l → x.1 ∈ keys) →
      queue_step (OClean now) l s (filter (λ x, has_expired now x.2 = false) l)
        (answer_all (concat (expired_on now l <$> keys)) s).1 (answer_all (concat (expired_on now l <$> keys)) s).2.

Inductive queue_run : list block_op → list (bytes * Client) → State → list (bytes * Client) → State → sending → Prop :=
  | QNil l s : queue_run [] l s l s []
  | QCons o os l1 s1 l2 s2 sent l3 s3 sent' : queue_step o l1 s1 l2 s2 sent → queue_run os l2 s2 l3 s3 sent' →
      queue_run (o :: os) l1 s1 l3 s3 (sent ++ sent').

Definition block_step (o : block_op) m s : Manager * State * sending :=
  match o with
  | OBlock key c => (AddBlockedClient key c m, s, [])
  | OWake key => WakeUpBlockedClients key m s
  | OTimeout id => let '(m, sent) := HandleTimeout id m in (m, s, sent)
  | OLeave id => (RemoveBlockedClient id m, s, [])
  | OClean now => CleanExpiredRequests now m s
  end.
Fixpoint block_run (os : list block_op) m s : Manager * State * sending :=
  match os with
  | [] => (m, s, [])
  | o :: os =>
      let '(m, s, sent) := block_step o m s in
      let '(m, s, sent') := block_run os m s in (m, s, sent ++ sent')
  end.

(** ** The relation *)

(** The queues are those of the list, and the client of a timer waits. *)
Record represents m l : Prop := {
  rep_queues key : queue_of key m = waiting_on key l;
  rep_timers id : is_Some (timeout_timers_ m !! id) → id ∈ ids l
}.

(** Every client that waits has one request and its timer. *)
Definition armed m l : Prop := NoDup (ids l) ∧ ∀ id, id ∈ ids l → is_Some (timeout_timers_ m !! id).

Lemma waiting_app key l l' : waiting_on key (l ++ l') = waiting_on key l ++ waiting_on key l'.
Proof. unfold waiting_on. by rewrite filter_app, fmap_app. Qed.
Lemma waiting_cons key x l : waiting_on key (x :: l) = (if decide (x.1 = key) then [x.2] else []) ++ waiting_on key l.
Proof. unfold waiting_on. rewrite filter_cons. by destruct (decide _). Qed.
Lemma waiting_elem key c l : c ∈ waiting_on key l ↔ (key, c) ∈ l.
Proof.
  unfold waiting_on. rewrite list_elem_of_fmap. split.
  - intros ([k c'] & -> & [E H]%list_elem_of_filter). cbn in *. by subst.
  - intros H. exists (key, c). split; [done|]. by apply list_elem_of_filter.
Qed.
Lemma ids_elem id l : id ∈ ids l ↔ ∃ key c, (key, c) ∈ l ∧ client_id c = id.
Proof.
  unfold ids. rewrite list_elem_of_fmap. split.
  - intros ([key c] & -> & H). eauto.
  - intros (key & c & H & <-). by exists (key, c).
Qed.

(** The first, or any, request that waits on a key splits the list. *)
Lemma waiting_split key l : ∀ q1 c q2, waiting_on key l = q1 ++ c :: q2 →
  ∃ l1 l2, l = l1 ++ (key, c) :: l2 ∧ waiting_on key l1 = q1 ∧ waiting_on key l2 = q2.
Proof.
  induction l as [|[k x] l IH]; intros q1 c q2 E; [by destruct q1|]. rewrite waiting_cons in E. cbn [fst snd] in E. destruct (decide (k = key)) as [->|Hk].
  - destruct q1 as [|y q1]; cbn [app] in E.
    + injection E as -> E. by exists [], l.
    + injection E as -> E. destruct (IH q1 c q2 E) as (l1 & l2 & -> & H1 & H2). exists ((key, y) :: l1), l2. split; [done|]. rewrite waiting_cons. cbn [fst snd].
      rewrite decide_True by done. by rewrite H1.
  - destruct (IH q1 c q2 E) as (l1 & l2 & -> & H1 & H2). exists ((k, x) :: l1), l2. split; [done|]. rewrite waiting_cons. cbn [fst snd]. by rewrite decide_False, H1.
Qed.
Lemma waiting_without key c l1 l2 key' :
  waiting_on key' (l1 ++ l2) = if decide (key = key') then waiting_on key l1 ++ waiting_on key l2 else waiting_on key' (l1 ++ (key, c) :: l2).
Proof. rewrite waiting_app. case_decide as E; [by subst|]. rewrite waiting_app, waiting_cons. cbn [fst]. by rewrite decide_False. Qed.

Lemma queue_put key key' q m t :
  queue_of key' (MkBlocking (put_queue key q m) t) = if decide (key = key') then q else queue_of key' m.
Proof.
  unfold queue_of, put_queue. cbn. destruct q as [|c q]; case_decide; subst.
  - by rewrite lookup_delete_eq.
  - by rewrite lookup_delete_ne.
  - by rewrite lookup_insert_eq.
  - by rewrite lookup_insert_ne.
Qed.
Lemma queue_of_insert key key' q m t :
  queue_of key' (MkBlocking (<[key := q]> (wait_queues_ m)) t) = if decide (key = key') then q else queue_of key' m.
Proof. unfold queue_of. cbn. case_decide; subst; [by rewrite lookup_insert_eq|by rewrite lookup_insert_ne]. Qed.
Lemma timers_delete {A} id id' (t : gmap Z A) : is_Some (delete id t !! id') ↔ id ≠ id' ∧ is_Some (t !! id').
Proof. rewrite lookup_delete_is_Some. done. Qed.

(** ** The steps *)

Lemma add_represents key c m l : represents m l → represents (AddBlockedClient key c m) (l ++ [(key, c)]).
Proof.
  intros H. split.
  - intros key'. unfold AddBlockedClient. rewrite queue_of_insert, waiting_app, !(rep_queues _ _ H), waiting_cons. cbn.
    case_decide; subst; [done|]. by rewrite app_nil_r.
  - intros id. unfold AddBlockedClient, ids. cbn. rewrite fmap_app, elem_of_app, lookup_insert_is_Some. cbn. rewrite list_elem_of_singleton.
    intros [->|[_ Hid]]; [by right|left; by apply (rep_timers _ _ H)].
Qed.

(** A request is gone, and the timer of its client with it. *)
Lemma gone_represents m' m l1 key c l2 :
  represents m (l1 ++ (key, c) :: l2) → (∀ key', queue_of key' m' = if decide (key = key') then waiting_on key l1 ++ waiting_on key l2 else queue_of key' m) →
  timeout_timers_ m' = delete (client_id c) (timeout_timers_ m) → represents m' (l1 ++ l2).
Proof.
  intros H Hq Ht. split.
  - intros key'. rewrite Hq, (waiting_without key c l1 l2 key'). case_decide; [done|]. apply H.
  - intros id. rewrite Ht, timers_delete. intros [Hne Hid]. apply (rep_timers _ _ H) in Hid. unfold ids in *. rewrite fmap_app, fmap_cons in Hid. rewrite fmap_app. set_solver.
Qed.
Lemma gone_armed m' m l1 key c l2 :
  timeout_timers_ m' = delete (client_id c) (timeout_timers_ m) → armed m (l1 ++ (key, c) :: l2) → armed m' (l1 ++ l2).
Proof.
  intros Ht [Hn Ha]. unfold ids in *. assert (Hp : (λ x, client_id x.2) <$> l1 ++ (key, c) :: l2 ≡ₚ client_id c :: ((λ x, client_id x.2) <$> l1 ++ l2)).
  { rewrite !fmap_app, fmap_cons. symmetry. apply Permutation_middle. }
  unfold armed, ids. rewrite Hp, NoDup_cons in Hn. destruct Hn as [Hc Hn]. split; [done|]. intros id Hid. rewrite Ht, timers_delete. split; [by intros <-|].
  apply Ha. rewrite Hp. by right.
Qed.
Lemma absent_armed m l id : id ∉ ids l → armed m l → armed (MkBlocking (wait_queues_ m) (delete id (timeout_timers_ m))) l.
Proof. intros Hid [Hn Ha]. split; [done|]. intros id' Hin. cbn. rewrite timers_delete. split; [by intros ->|by apply Ha]. Qed.
Lemma add_armed key c m l : client_id c ∉ ids l → armed m l → armed (AddBlockedClient key c m) (l ++ [(key, c)]).
Proof.
  intros Hc [Hn Ha]. unfold armed, ids in *. rewrite fmap_app. split.
  - apply NoDup_app. split; [done|]. split; [|apply NoDup_singleton]. intros id Hid Hin. apply list_elem_of_singleton in Hin. cbn in Hin. by subst.
  - intros id [Hid|Hid]%elem_of_app; cbn; rewrite lookup_insert_is_Some'; [right; by apply Ha|left]. apply list_elem_of_singleton in Hid. done.
Qed.
Lemma absent_represents m l id : represents m l → represents (MkBlocking (wait_queues_ m) (delete id (timeout_timers_ m))) l.
Proof. intros H. split; [apply H|]. intros id'. cbn. rewrite timers_delete. intros [_ Hid]. by apply (rep_timers _ _ H). Qed.

Lemma wake_refines key m l s : represents m l →
  let '(m', s', sent) := WakeUpBlockedClients key m s in ∃ l', queue_step (OWake key) l s l' s' sent ∧ represents m' l' ∧ (armed m l → armed m' l').
Proof.
  intros H. unfold WakeUpBlockedClients, take_waiting. rewrite (rep_queues _ _ H). destruct (waiting_on key l) as [|c q] eqn:E.
  - exists l. split; [by constructor|]. by split.
  - destruct (waiting_split key l [] c q E) as (l1 & l2 & -> & H1 & H2). unfold ProcessBlockedCommand. destruct (callback c s) as [s' result] eqn:Ec.
    exists (l1 ++ l2). split; [by constructor|]. split; [|by apply (gone_armed _ m l1 key c l2)].
    apply (gone_represents _ m l1 key c l2 H); [|done]. intros key'. rewrite queue_put. case_decide; [|done]. by rewrite H1, H2.
Qed.

(** ** By the client *)

Lemma existsb_is_client id (q : list Client) : existsb (is_client id) q = true ↔ ∃ c, c ∈ q ∧ client_id c = id.
Proof.
  rewrite existsb_exists. split.
  - intros (c & Hc & E). apply Z.eqb_eq in E. exists c. split; [by apply list_elem_of_In|done].
  - intros (c & Hc & E). exists c. split; [by apply list_elem_of_In|by apply Z.eqb_eq].
Qed.

(** The queue that is found has a request of the client. *)
Lemma find_queue_spec id m l :
  represents m l →
  match find_queue id m with
  | None => id ∉ ids l
  | Some key => ∃ c, (key, c) ∈ l ∧ client_id c = id
  end.
Proof.
  intros H. unfold find_queue. destruct (list_find _ _) as [[i [key q]]|] eqn:E; cbn.
  - apply list_find_Some in E as (Hi & Hex & _). cbn in Hex. apply list_elem_of_lookup_2, elem_of_map_to_list in Hi.
    apply existsb_is_client in Hex as (c & Hc & Hid). exists c. split; [|done].
    apply waiting_elem. rewrite <- (rep_queues _ _ H). unfold queue_of. by rewrite Hi.
  - apply list_find_None in E. intros (key & c & Hin & Hid)%ids_elem.
    apply waiting_elem in Hin. rewrite <- (rep_queues _ _ H) in Hin. unfold queue_of in Hin.
    destruct (wait_queues_ m !! key) as [q|] eqn:Eq; [|by apply not_elem_of_nil in Hin]. cbn in Hin.
    rewrite Forall_forall in E. apply (E (key, q)); [by apply elem_of_map_to_list|]. cbn. apply existsb_is_client. eauto.
Qed.

(** The first request of the client in a queue. *)
Lemma first_of id (q : list Client) : (∃ c, c ∈ q ∧ client_id c = id) →
  ∃ q1 c q2 i, q = q1 ++ c :: q2 ∧ client_id c = id ∧ Forall (λ c, client_id c ≠ id) q1 ∧ erase_first id q = q1 ++ q2 ∧
    list_find (λ c, is_client id c = true) q = Some (i, c).
Proof.
  induction q as [|x q IH]; intros (c & Hc & Hid); [by apply not_elem_of_nil in Hc|]. cbn [erase_first list_find].
  destruct (is_client id x) eqn:Ex; unfold is_client in Ex; b2p.
  - exists [], x, q, 0. split; [done|]. split; [done|]. split; [constructor|]. split; [done|]. by rewrite decide_True.
  - apply elem_of_cons in Hc as [->|Hc]; [done|]. destruct IH as (q1 & c' & q2 & i & -> & H1 & H2 & H3 & H4); [by exists c|].
    exists (x :: q1), c', q2, (S i). rewrite H3. split; [done|]. split; [done|]. split; [by constructor|]. split; [done|].
    rewrite decide_False by done. by rewrite H4.
Qed.

Lemma timeout_refines id m l s : represents m l →
  let '(m', sent) := HandleTimeout id m in ∃ l', queue_step (OTimeout id) l s l' s sent ∧ represents m' l' ∧ (armed m l → armed m' l').
Proof.
  intros H. unfold HandleTimeout. assert (Hf := find_queue_spec id m l H). destruct (find_queue id m) as [key|].
  - destruct Hf as (c0 & Hin & Hid0). assert (Hq : ∃ c, c ∈ queue_of key m ∧ client_id c = id) by (exists c0; split; [rewrite (rep_queues _ _ H); by apply waiting_elem|done]).
    destruct (first_of id (queue_of key m) Hq) as (q1 & c & q2 & i & Eq & Hid & H1 & -> & ->).
    assert (Ew := rep_queues _ _ H key). rewrite Eq in Ew. symmetry in Ew. destruct (waiting_split key l q1 c q2 Ew) as (l1 & l2 & -> & E1 & E2).
    exists (l1 ++ l2). split; [|split].
    + apply (QTimeout id key c); [done|]. intros c' Hc'. apply waiting_elem in Hc'. rewrite E1 in Hc'. rewrite Forall_forall in H1. by apply H1.
    + apply (gone_represents _ m l1 key c l2 H); [|cbn; by rewrite Hid]. intros key'. rewrite queue_put. case_decide; [|done]. by rewrite E1, E2.
    + apply (gone_armed _ m l1 key c l2). cbn. by rewrite Hid.
  - exists l. split; [by apply QTimeout_none|]. split; [by apply absent_represents|by apply absent_armed].
Qed.

Lemma waiting_filter key id l key' :
  waiting_on key' (filter (λ x, ¬ (x.1 = key ∧ client_id x.2 = id)) l) =
  if decide (key = key') then filter (λ c, is_client id c = false) (waiting_on key l) else waiting_on key' l.
Proof.
  induction l as [|[k c] l IH]; [by case_decide|]. rewrite filter_cons. cbn [fst snd]. rewrite !waiting_cons. cbn [fst snd].
  destruct (decide (¬ (k = key ∧ client_id c = id))) as [Hn|Hn].
  - rewrite waiting_cons, IH. cbn [fst snd]. destruct (decide (key = key')) as [<-|]; [|done]. destruct (decide (k = key)) as [->|]; [|done].
    cbn [app]. rewrite filter_cons, decide_True; [done|]. apply Z.eqb_neq. tauto.
  - apply dec_stable in Hn as [-> Hid]. rewrite IH. destruct (decide (key = key')) as [<-|Hk].
    + rewrite decide_True by done. cbn [app]. rewrite filter_cons, decide_False; [done|]. unfold is_client. by rewrite (proj2 (Z.eqb_eq _ _) Hid).
    + done.
Qed.

Lemma filter_ids (Q : bytes * Client → Prop) `{!∀ x, Decision (Q x)} l : NoDup (ids l) → NoDup (ids (filter Q l)).
Proof.
  unfold ids. induction l as [|x l IH]; intros Hn; [done|]. rewrite fmap_cons, NoDup_cons in Hn. destruct Hn as [Hx Hn]. rewrite filter_cons.
  case_decide; [|by apply IH]. rewrite fmap_cons, NoDup_cons. split; [|by apply IH]. intros Hin. apply Hx. apply list_elem_of_fmap in Hin as (y & E & [_ Hy]%list_elem_of_filter).
  apply list_elem_of_fmap. by exists y.
Qed.
Lemma ids_inj l k c k' c' : NoDup (ids l) → (k, c) ∈ l → (k', c') ∈ l → client_id c = client_id c' → k = k'.
Proof.
  intros Hn H1 H2 E. apply list_elem_of_lookup in H1 as [i Hi], H2 as [j Hj]. unfold ids in Hn. assert (i = j) as ->; [|congruence].
  apply (NoDup_lookup _ i j (client_id c) Hn); rewrite list_lookup_fmap; [by rewrite Hi|rewrite Hj; cbn; by rewrite E].
Qed.

Lemma ids_same l k c k' c' : NoDup (ids l) → (k, c) ∈ l → (k', c') ∈ l → client_id c = client_id c' → c = c'.
Proof.
  intros Hn H1 H2 E. apply list_elem_of_lookup in H1 as [i Hi], H2 as [j Hj]. unfold ids in Hn. assert (i = j) as ->; [|congruence].
  apply (NoDup_lookup _ i j (client_id c) Hn); rewrite list_lookup_fmap; [by rewrite Hi|rewrite Hj; cbn; by rewrite E].
Qed.

Lemma leave_refines id m l s : represents m l → ∃ l', queue_step (OLeave id) l s l' s [] ∧ represents (RemoveBlockedClient id m) l' ∧ (armed m l → armed (RemoveBlockedClient id m) l').
Proof.
  intros H. unfold RemoveBlockedClient. assert (Hf := find_queue_spec id m l H). destruct (find_queue id m) as [key|].
  - destruct Hf as (c & Hin & Hid). exists (filter (λ x, ¬ (x.1 = key ∧ client_id x.2 = id)) l). split; [by apply (QLeave id key c)|]. split; [split|].
    + intros key'. rewrite queue_of_insert, waiting_filter, !(rep_queues _ _ H). done.
    + intros id'. cbn. rewrite timers_delete. intros [Hne Ht]. apply (rep_timers _ _ H), ids_elem in Ht as (k & c' & Hc' & Hid'). apply ids_elem. exists k, c'.
      split; [|done]. apply list_elem_of_filter. split; [|done]. cbn. intros [_ E]. by rewrite Hid' in E.
    + intros [Hn Ha]. split; [by apply filter_ids|]. intros id' (k & c' & [Hf Hc']%list_elem_of_filter & Hid')%ids_elem. cbn in *. rewrite timers_delete.
      split; [|apply Ha, ids_elem; eauto]. intros <-. apply Hf. split; [|done]. rewrite <- Hid in Hid'. by apply (ids_inj l k c' key c Hn).
  - exists l. split; [by apply QLeave_none|]. split; [by apply absent_represents|by apply absent_armed].
Qed.

(** ** Cleaning *)

Lemma clean_queue_spec now (q : list Client) : ∀ timers s,
  let '(q', timers', s', sent) := clean_queue now q timers s in
  q' = filter (λ c, has_expired now c = false) q ∧ (s', sent) = answer_all (filter (λ c, has_expired now c = true) q) s ∧
  ∀ id, is_Some (timers' !! id) ↔ is_Some (timers !! id) ∧ ∀ c, c ∈ q → has_expired now c = true → client_id c ≠ id.
Proof.
  induction q as [|c q IH]; intros timers s; cbn [clean_queue].
  - split; [done|]. split; [done|]. intros id. split; [|tauto]. intros Hi. split; [done|]. by intros c ?%not_elem_of_nil.
  - destruct (has_expired now c) eqn:Ee.
    + rewrite !filter_cons, Ee. rewrite decide_False, decide_True by done. cbn [answer_all].
      destruct (if connected c then _ else _) as [s1 sent1]. specialize (IH (delete (client_id c) timers) s1).
      destruct (clean_queue now q _ s1) as [[[q' timers'] s'] sent]. destruct IH as (-> & E & H). rewrite <- E. split; [done|]. split; [done|].
      intros id. rewrite H, timers_delete. split.
      * intros [[Hne Hi] Ho]. split; [done|]. intros c' [->|Hin]%elem_of_cons He; [done|by apply Ho].
      * intros [Hi Ho]. split; [split; [apply Ho; [by left|done]|done]|]. intros c' Hin He. apply Ho; [by right|done].
    + rewrite !filter_cons, Ee. rewrite decide_True, decide_False by done. specialize (IH timers s).
      destruct (clean_queue now q timers s) as [[[q' timers'] s'] sent]. destruct IH as (-> & E & H). split; [done|]. split; [done|].
      intros id. rewrite H. split.
      * intros [Hi Ho]. split; [done|]. intros c' [->|Hin]%elem_of_cons He; [by rewrite Ee in He|by apply Ho].
      * intros [Hi Ho]. split; [done|]. intros c' Hin He. apply Ho; [by right|done].
Qed.

Lemma answer_all_app (q1 q2 : list Client) s :
  answer_all (q1 ++ q2) s = let '(s, sent) := answer_all q1 s in let '(s, sent') := answer_all q2 s in (s, sent ++ sent').
Proof.
  revert s. induction q1 as [|c q1 IH]; intros s; cbn [app answer_all]; [by destruct (answer_all q2 s)|].
  destruct (if connected c then _ else _) as [s1 sent1]. rewrite IH. destruct (answer_all q1 s1) as [s2 sent2]. destruct (answer_all q2 s2). by rewrite app_assoc.
Qed.

(** The queues one after the other. *)
Lemma clean_queues now (kqs : list (bytes * list Client)) : ∀ m s sent0,
  NoDup kqs.*1 → (∀ kq, kq ∈ kqs → queue_of kq.1 m = kq.2) →
  let '(m', s', sent) := foldl (λ acc kq,
    let '(m, s, sent) := acc in
    let '(q, timers, s, sent') := clean_queue now kq.2 (timeout_timers_ m) s in
    (MkBlocking (<[kq.1 := q]> (wait_queues_ m)) timers, s, sent ++ sent')) (m, s, sent0) kqs in
  (s', sent) = (let '(s', sent) := answer_all (concat ((λ kq, filter (λ c, has_expired now c = true) kq.2) <$> kqs)) s in (s', sent0 ++ sent)) ∧
  (∀ key, queue_of key m' = if decide (key ∈ kqs.*1) then filter (λ c, has_expired now c = false) (queue_of key m) else queue_of key m) ∧
  ∀ id, is_Some (timeout_timers_ m' !! id) ↔ is_Some (timeout_timers_ m !! id) ∧ ∀ kq c, kq ∈ kqs → c ∈ kq.2 → has_expired now c = true → client_id c ≠ id.
Proof.
  induction kqs as [|[key q] kqs IH]; intros m s sent0 Hn Hq; cbn [foldl].
  - split; [cbn; by rewrite app_nil_r|]. split; [done|]. intros id. split; [|tauto]. intros Hi. split; [done|]. by intros kq c ?%not_elem_of_nil.
  - cbn [fmap list_fmap fst] in Hn. apply NoDup_cons in Hn as [Hk Hn]. cbn [fst snd]. assert (Hc := clean_queue_spec now q (timeout_timers_ m) s).
    destruct (clean_queue now q (timeout_timers_ m) s) as [[[q' timers'] s1] sent1]. destruct Hc as (-> & E & Ht).
    set (m1 := MkBlocking _ _). specialize (IH m1 s1 (sent0 ++ sent1) Hn). destruct (foldl _ _ kqs) as [[m' s'] sent].
    destruct IH as (E' & Hq' & Ht').
    { intros kq Hin. unfold m1. rewrite queue_of_insert, decide_False; [apply Hq; by right|]. intros ->. apply Hk. apply list_elem_of_fmap. by exists kq. }
    split.
    { rewrite E'. cbn [fmap list_fmap concat snd]. rewrite answer_all_app, <- E. destruct (answer_all _ s1). by rewrite app_assoc. }
    split.
    { intros key'. rewrite Hq'. unfold m1. rewrite queue_of_insert. cbn [fmap list_fmap fst]. destruct (decide (key = key')) as [<-|Hne].
      - rewrite (decide_False (P := key ∈ kqs.*1)), decide_True by (done || by left). assert (Eq := Hq (key, q) (list_elem_of_here _ _)). cbn in Eq. by rewrite Eq.
      - destruct (decide (key' ∈ kqs.*1)); [rewrite decide_True by (by right)|rewrite decide_False by (rewrite elem_of_cons; naive_solver)]; done. }
    intros id. rewrite Ht'. unfold m1. cbn. rewrite Ht. split.
    + intros [[Hi Hi''] Hi']. split; [done|]. intros kq c [->|Hin]%elem_of_cons Hc He; [by apply Hi''|by apply (Hi' kq)].
    + intros [Hi Ho]. split; [split; [done|]|].
      * intros c Hc. apply (Ho (key, q)); [by left|done].
      * intros kq c Hin. apply Ho. by right.
Qed.

Lemma waiting_expired now key l :
  waiting_on key (filter (λ x, has_expired now x.2 = false) l) = filter (λ c, has_expired now c = false) (waiting_on key l).
Proof.
  induction l as [|[k c] l IH]; [done|]. rewrite filter_cons, waiting_cons. cbn [fst snd]. destruct (decide (has_expired now c = false)) as [He|He].
  - rewrite waiting_cons. cbn [fst snd]. destruct (decide (k = key)); cbn [app]; [rewrite filter_cons, decide_True by done|]; by rewrite IH.
  - destruct (decide (k = key)); cbn [app]; [rewrite filter_cons, decide_False by done|]; by rewrite IH.
Qed.

Lemma clean_refines now m l s : represents m l →
  let '(m', s', sent) := CleanExpiredRequests now m s in ∃ l', queue_step (OClean now) l s l' s' sent ∧ represents m' l' ∧ (armed m l → armed m' l').
Proof.
  intros H. unfold CleanExpiredRequests. set (kqs := map_to_list (wait_queues_ m)).
  assert (Hk : ∀ kq, kq ∈ kqs → queue_of kq.1 m = kq.2).
  { intros [key q] Hin. apply elem_of_map_to_list in Hin. unfold queue_of. cbn. by rewrite Hin. }
  assert (Hall : ∀ x, x ∈ l → x.1 ∈ kqs.*1).
  { intros [key c] Hin. apply waiting_elem in Hin. rewrite <- (rep_queues _ _ H) in Hin. unfold queue_of in Hin. destruct (wait_queues_ m !! key) as [q|] eqn:Eq; [|by apply not_elem_of_nil in Hin].
    apply list_elem_of_fmap. exists (key, q). split; [done|]. by apply elem_of_map_to_list. }
  assert (Hn : NoDup kqs.*1) by apply NoDup_fst_map_to_list. assert (Hc := clean_queues now kqs m s [] Hn Hk).
  destruct (foldl _ _ kqs) as [[m' s'] sent]. destruct Hc as (E & Hq & Ht). exists (filter (λ x, has_expired now x.2 = false) l). split.
  - assert (Ee : (λ kq : bytes * list Client, filter (λ c, has_expired now c = true) kq.2) <$> kqs = expired_on now l <$> kqs.*1).
    { rewrite <- list_fmap_compose. apply Forall_fmap_ext_1, Forall_forall. intros kq Hin. unfold compose, expired_on. by rewrite <- (rep_queues _ _ H), (Hk kq Hin). }
    rewrite Ee in E. assert (Q := QClean now kqs.*1 l s Hn Hall). destruct (answer_all _ s) as [s1 sent1]. cbn in E, Q. by injection E as -> ->.
  - split; [split|].
    + intros key. rewrite waiting_expired, Hq, (rep_queues _ _ H). case_decide as Hin; [done|]. symmetry.
      assert (Ew : waiting_on key l = []); [|by rewrite Ew]. destruct (waiting_on key l) as [|c q] eqn:Ew; [done|]. exfalso. apply Hin.
      apply (Hall (key, c)). apply waiting_elem. rewrite Ew. by left.
    + intros id Hi. apply Ht in Hi as [Hi Hi']. apply (rep_timers _ _ H), ids_elem in Hi as (key & c & Hin & Hid). apply ids_elem. exists key, c. split; [|done].
      apply list_elem_of_filter. split; [|done]. cbn. destruct (has_expired now c) eqn:Ex; [|done]. exfalso.
      assert (Hw := Hin). apply waiting_elem in Hw. rewrite <- (rep_queues _ _ H) in Hw. unfold queue_of in Hw. destruct (wait_queues_ m !! key) as [q|] eqn:Eq; [|by apply not_elem_of_nil in Hw].
      apply (Hi' (key, q) c); [by apply elem_of_map_to_list|done|done|done].
    + intros [Hd Ha]. split; [by apply filter_ids|]. intros id (key & c & [Hx Hin]%list_elem_of_filter & Hid)%ids_elem. apply Ht. split; [apply Ha, ids_elem; eauto|].
      intros [k q] c' Hk' Hc' He Hid'. cbn in *. assert (Eq := Hk _ Hk'). cbn in Eq. rewrite <- Eq, (rep_queues _ _ H) in Hc'. apply waiting_elem in Hc'. rewrite <- Hid' in Hid.
      assert (c = c') as -> by (by apply (ids_same l key c k c' Hd)). by rewrite He in Hx.
Qed.

Lemma blocked_ids id m l : represents m l → IsClientBlocked id m = false → id ∉ ids l.
Proof.
  intros H Hb Hin. apply ids_elem in Hin as (key & c & Hin & Hid). apply waiting_elem in Hin. rewrite <- (rep_queues _ _ H) in Hin. unfold queue_of in Hin.
  destruct (wait_queues_ m !! key) as [q|] eqn:Eq; [|by apply not_elem_of_nil in Hin]. cbn in Hin. assert (Ht : IsClientBlocked id m = true); [|congruence].
  apply existsb_exists. exists (key, q). split; [by apply list_elem_of_In, elem_of_map_to_list|]. apply existsb_is_client. eauto.
Qed.

(** A client that waits sends no other blocking command. *)
Definition may_block (o : block_op) m : Prop := match o with OBlock _ c => IsClientBlocked (client_id c) m = false | _ => True end.
Lemma step_refines o m l s : represents m l →
  let '(m', s', sent) := block_step o m s in ∃ l', queue_step o l s l' s' sent ∧ represents m' l' ∧ (may_block o m → armed m l → armed m' l').
Proof.
  intros H. destruct o as [key c|key|id|id|now]; cbn [block_step may_block].
  - exists (l ++ [(key, c)]). split; [constructor|]. split; [by apply add_represents|]. intros Hb. apply add_armed. by apply (blocked_ids _ m).
  - assert (Hw := wake_refines key m l s H). destruct (WakeUpBlockedClients key m s) as [[m' s'] sent]. naive_solver.
  - assert (Ht := timeout_refines id m l s H). destruct (HandleTimeout id m) as [m' sent]. naive_solver.
  - destruct (leave_refines id m l s H) as (l' & H1 & H2 & H3). exists l'. tauto.
  - assert (Hc := clean_refines now m l s H). destruct (CleanExpiredRequests now m s) as [[m' s'] sent]. naive_solver.
Qed.

Fixpoint patient (os : list block_op) m s : Prop :=
  match os with
  | [] => True
  | o :: os => may_block o m ∧ let '(m, s, _) := block_step o m s in patient os m s
  end.


(** When a client blocks a second time, its first request loses its timer: after the
    second one was served, the first waits for ever unless somebody pushes. *)
Theorem second_request_untimed key key' c c' m l s :
  represents m l → key ≠ key' → client_id c = client_id c' → waiting_on key' l = [] →
  let '(m', _, _) := block_run [OBlock key c; OBlock key' c'; OWake key'] m s in
  c ∈ queue_of key m' ∧ timeout_timers_ m' !! client_id c = None.
Proof.
  intros H Hk Hid Hw. cbn [block_run block_step]. set (m2 := AddBlockedClient key' c' (AddBlockedClient key c m)).
  assert (Eq : ∀ k, queue_of k m2 = (if decide (k = key') then [c'] else if decide (k = key) then queue_of key m ++ [c] else queue_of k m)).
  { intros k. unfold m2, AddBlockedClient. rewrite !queue_of_insert. rewrite (decide_False (P := key = key')) by done. rewrite (rep_queues _ _ H key'), Hw.
    destruct (decide (key' = k)) as [->|]; [by rewrite decide_True|]. rewrite (decide_False (P := k = key')) by done.
    destruct (decide (key = k)) as [->|]; [by rewrite decide_True|by rewrite decide_False]. }
  unfold WakeUpBlockedClients, take_waiting. rewrite Eq, decide_True by done. unfold ProcessBlockedCommand. destruct (callback c' s) as [s' result].
  split.
  - rewrite queue_put, decide_False, Eq, decide_False, decide_True by done. set_solver.
  - cbn. rewrite Hid. apply lookup_delete_eq.
Qed.
End BlockingContract.

(** ** A witness *)

(** Two clients wait for one list; the second times out. *)
Definition pop_first (s : list bytes) : list bytes * RespValue :=
  match s with [] => ([], resp_of_type kNullBulkString) | x :: s => (s, resp_string x) end.
Definition small_client (id : Z) : BlockedClient (list bytes) :=
  MkBlocked id (B "q") (MkCommand (B "BLPOP") []) d1_0 0 pop_first true.
Definition no_blocked : BlockingManager (list bytes) := MkBlocking ∅ ∅.
Definition small_blocking : list block_op :=
  [OBlock (B "q") (small_client 1); OBlock (B "q") (small_client 2); OWake (B "q"); OTimeout 2; OWake (B "q")].

Lemma none_blocked : represents no_blocked [].
Proof. split; [reflexivity|]. intros id [x Hx]. discriminate Hx. Qed.
Lemma second_request_untimed_witness :
  let '(m', _, _) := block_run [OBlock (B "a") (small_client 1); OBlock (B "b") (small_client 1); OWake (B "b")] no_blocked [B "x"] in
  small_client 1 ∈ queue_of (B "a") m' ∧ timeout_timers_ m' !! 1%Z = None.
Proof. exact (second_request_untimed (B "a") (B "b") (small_client 1) (small_client 1) no_blocked [] [B "x"] none_blocked ltac:(discriminate) eq_refl eq_refl). Defined.
