(* ===== verification/PubSub.v ===== *)
(** * Publish and subscribe

    Models [PubSubManager] of src/astra/server/worker.hpp: each worker has the
    subscriptions of its connections, by channel and by connection, delivers what
    is published to them, and passes it on to the other workers through their
    queues. *)
From S2P Require Import Prelude.
From S2P Require Import Simd.
From S2P Require Import Numbers.
From S2P Require Import Text.

Record PubSubManager := MkPubSub {
  channel_subscribers_ : gmap bytes (gset Z);
  pattern_subscribers_ : gmap bytes (gset Z);
  conn_channels_ : gmap Z (gset bytes);
  conn_patterns_ : gmap Z (gset bytes)
}.

Definition no_subscriptions : PubSubManager := MkPubSub ∅ ∅ ∅ ∅.

(** What is put in the response queue: connection and text. *)
Abbreviation responses := (list (Z * bytes)).

Section PubSub.
Implicit Types (m : PubSubManager) (conn : Z) (channel pattern : bytes).

(** [m[k]] of a hash map, which makes an empty entry. *)
Definition touch_set {K A} `{Countable K, Countable A} (k : K) (m : gmap K (gset A)) : gmap K (gset A) :=
  match m !! k with Some _ => m | None => <[k := ∅]> m end.
Definition set_of {K A} `{Countable K, Countable A} (k : K) (m : gmap K (gset A)) : gset A := default ∅ (m !! k).
Definition add_to_set {K A} `{Countable K, Countable A} (k : K) (a : A) (m : gmap K (gset A)) : gmap K (gset A) :=
  <[k := {[a]} ∪ set_of k m]> m.

(** [m[k].erase(a)], and the entry goes when it is empty. *)
Definition drop_from_set {K A} `{Countable K, Countable A} (k : K) (a : A) (m : gmap K (gset A)) : gmap K (gset A) :=
  let s := set_of k m ∖ {[a]} in if decide (s = ∅) then delete k m else <[k := s]> m.

Definition bulk_text (s : bytes) : bytes := B "$" ++ print_u64 (zlen s) ++ CRLF ++ s ++ CRLF.

Definition subscribe_reply channel (count : Z) : bytes :=
  B "*3" ++ CRLF ++ B "$9" ++ CRLF ++ B "subscribe" ++ CRLF ++ bulk_text channel ++ B ":" ++ print_u64 count ++ CRLF.
Definition unsubscribe_reply channel (count : Z) : bytes :=
  B "*3" ++ CRLF ++ B "$11" ++ CRLF ++ B "unsubscribe" ++ CRLF ++ bulk_text channel ++ B ":" ++ print_u64 count ++ CRLF.

Definition count_of conn m : Z := Z.of_nat (size (set_of conn (conn_channels_ m)) + size (set_of conn (conn_patterns_ m))).

(** Counting makes entries for the connection in both tables. *)
Definition touch_conn conn m : PubSubManager :=
  MkPubSub (channel_subscribers_ m) (pattern_subscribers_ m) (touch_set conn (conn_channels_ m)) (touch_set conn (conn_patterns_ m)).

Definition subscribe_one conn m channel : PubSubManager :=
  touch_conn conn (MkPubSub (add_to_set channel conn (channel_subscribers_ m)) (pattern_subscribers_ m)
    (add_to_set conn channel (conn_channels_ m)) (conn_patterns_ m)).
Definition psubscribe_one conn m pattern : PubSubManager :=
  touch_conn conn (MkPubSub (channel_subscribers_ m) (add_to_set pattern conn (pattern_subscribers_ m))
    (conn_channels_ m) (add_to_set conn pattern (conn_patterns_ m))).

(** A step for each channel, with a reply. *)
Definition each (f : PubSubManager → bytes → PubSubManager) (reply : bytes → Z → bytes) conn (channels : list bytes) m
    : PubSubManager * responses :=
  foldl (λ acc channel, let m := f acc.1 channel in (m, acc.2 ++ [(conn, reply channel (count_of conn m))])) (m, []) channels.

Definition Subscribe conn (channels : list bytes) m : PubSubManager * responses :=
  each (subscribe_one conn) subscribe_reply conn channels m.
Definition PSubscribe conn (patterns : list bytes) m : PubSubManager * responses :=
  each (psubscribe_one conn) subscribe_reply conn patterns m.

Definition unsubscribe_one conn m channel : PubSubManager :=
  touch_conn conn (MkPubSub (drop_from_set channel conn (channel_subscribers_ m)) (pattern_subscribers_ m)
    (<[conn := set_of conn (conn_channels_ m) ∖ {[channel]}]> (conn_channels_ m)) (conn_patterns_ m)).
Definition punsubscribe_one conn m pattern : PubSubManager :=
  touch_conn conn (MkPubSub (channel_subscribers_ m) (drop_from_set pattern conn (pattern_subscribers_ m))
    (conn_channels_ m) (<[conn := set_of conn (conn_patterns_ m) ∖ {[pattern]}]> (conn_patterns_ m))).

Definition Unsubscribe conn (channels : list bytes) m : PubSubManager * responses :=
  match conn_channels_ m !! conn with
  | None => (m, [])
  | Some s =>
      let to_unsub := match channels with [] => elements s | _ => channels end in
      let '(m, r) := each (unsubscribe_one conn) unsubscribe_reply conn to_unsub m in
      (if decide (set_of conn (conn_channels_ m) = ∅)
       then MkPubSub (channel_subscribers_ m) (pattern_subscribers_ m) (delete conn (conn_channels_ m)) (conn_patterns_ m)
       else m, r)
  end.
Definition PUnsubscribe conn (patterns : list bytes) m : PubSubManager * responses :=
  match conn_patterns_ m !! conn with
  | None => (m, [])
  | Some s =>
      let to_unsub := match patterns with [] => elements s | _ => patterns end in
      let '(m, r) := each (punsubscribe_one conn) unsubscribe_reply conn to_unsub m in
      (if decide (set_of conn (conn_patterns_ m) = ∅)
       then MkPubSub (channel_subscribers_ m) (pattern_subscribers_ m) (conn_channels_ m) (delete conn (conn_patterns_ m))
       else m, r)
  end.

(** ** Patterns *)

Fixpoint starts_with (p s : bytes) : bool :=
  match p, s with
  | [], _ => true
  | x :: p, y :: s => ascii_eqb x y && starts_with p s
  | _, [] => false
  end.
Fixpoint contains (p s : bytes) : bool :=
  starts_with p s || match s with [] => false | _ :: s => contains p s end.

(** [s.size() >= suffix.size() && s.substr(s.size() - suffix.size()) == suffix] *)
Definition ends_with (suffix s : bytes) : bool :=
  (length suffix <=? length s) && bool_decide (drop (length s - length suffix) s = suffix).

Definition PatternMatches pattern channel : bool :=
  if decide (pattern = B "*") then true
  else
    match find_char "*" pattern, find_char "?" pattern with
    | None, None => bool_decide (channel = pattern)
    | Some star_pos, _ =>
        match find_char "*" (drop (S star_pos) pattern) with
        | None =>
            let prefix := take star_pos pattern in
            let suffix := drop (S star_pos) pattern in
            if star_pos =? 0 then ends_with suffix channel
            else if star_pos =? length pattern - 1 then bool_decide (take (length prefix) channel = prefix)
            else (length prefix + length suffix <=? length channel) && bool_decide (take (length prefix) channel = prefix) &&
                 bool_decide (drop (length channel - length suffix) channel = suffix)
        | Some _ => contains (take (match find_char "?" pattern with Some q => min star_pos q | None => star_pos end) pattern) channel
        end
    | None, Some q => contains (take q pattern) channel
    end.

(** ** Publishing *)

Definition message_text channel (message : bytes) : bytes :=
  B "*3" ++ CRLF ++ B "$7" ++ CRLF ++ B "message" ++ CRLF ++ bulk_text channel ++ bulk_text message.
Definition pmessage_text pattern channel (message : bytes) : bytes :=
  B "*4" ++ CRLF ++ B "$8" ++ CRLF ++ B "pmessage" ++ CRLF ++ bulk_text pattern ++ bulk_text channel ++ bulk_text message.

(** What the connections of a worker get. *)
Definition deliver channel (message : bytes) m : responses :=
  match channel_subscribers_ m !! channel with
  | Some s => (λ conn, (conn, message_text channel message)) <$> elements s
  | None => []
  end ++
  concat ((λ ps : bytes * gset Z, if PatternMatches ps.1 channel
                    then (λ conn, (conn, pmessage_text ps.1 channel message)) <$> elements ps.2 else [])
          <$> map_to_list (pattern_subscribers_ m)).

(** [Publish], and the count it returns; [EnqueuePubSubMessage] on the other
    workers is the step of the system below. *)
Definition Publish channel (message : bytes) m : responses * Z :=
  let r := deliver channel message m in (r, zlen r).
Definition ProcessPubSubMessage (msg : bytes * bytes) m : responses := deliver msg.1 msg.2 m.

Definition GetSubscriptionCount conn m : Z := count_of conn m.
Definition IsSubscribed conn m : bool :=
  bool_decide (is_Some (conn_channels_ m !! conn)) || bool_decide (is_Some (conn_patterns_ m !! conn)).
Definition GetActiveChannels pattern m : list bytes :=
  filter (λ channel, bool_decide (pattern = []) || PatternMatches pattern channel = true) (fst <$> map_to_list (channel_subscribers_ m)).
Definition GetChannelSubscriberCount channel m : Z := Z.of_nat (size (set_of channel (channel_subscribers_ m))).
Definition GetPatternSubscriptionCount m : Z := Z.of_nat (size (pattern_subscribers_ m)).

(** ** The workers

    The queue of messages of a worker is a [moodycamel::ConcurrentQueue], which keeps
    the order of each producer and no order between producers: it is a list for each
    worker that puts messages in.  [Publish] puts a message in the queues of the others
    one after the other; [outbox_] has what its loop has still to put, during which the
    executor does nothing else. *)

Record PubSubWorker := MkPubSubWorker {
  pubsub_manager_ : PubSubManager;
  pubsub_msg_queue_ : gmap nat (list (bytes * bytes));
  outbox_ : list (nat * (bytes * bytes));
  resp_queue_ : responses
}.
Definition queue_from (i : nat) (w : PubSubWorker) : list (bytes * bytes) := default [] (pubsub_msg_queue_ w !! i).

Inductive pubsub_op :=
  | DoSubscribe conn (channels : list bytes) | DoUnsubscribe conn (channels : list bytes)
  | DoPSubscribe conn (patterns : list bytes) | DoPUnsubscribe conn (patterns : list bytes)
  | DoPublish channel (message : bytes) | DoPush | DoProcess (from : nat).

#[global] Instance pubsub_op_eq : EqDecision pubsub_op.
Proof. solve_decision. Defined.

Definition with_manager (mr : PubSubManager * responses) (w : PubSubWorker) : PubSubWorker :=
  MkPubSubWorker mr.1 (pubsub_msg_queue_ w) (outbox_ w) (resp_queue_ w ++ mr.2).
Definition with_outbox (l : list (nat * (bytes * bytes))) (w : PubSubWorker) : PubSubWorker :=
  MkPubSubWorker (pubsub_manager_ w) (pubsub_msg_queue_ w) l (resp_queue_ w).
Definition with_queue (i : nat) (q : list (bytes * bytes)) (w : PubSubWorker) : PubSubWorker :=
  MkPubSubWorker (pubsub_manager_ w) (<[i := q]> (pubsub_msg_queue_ w)) (outbox_ w) (resp_queue_ w).

(** What a step does to the worker [i] of [n] that makes it; [None]: it cannot be made. *)
Definition worker_step (n i : nat) (o : pubsub_op) (w : PubSubWorker) : option PubSubWorker :=
  let m := pubsub_manager_ w in
  match outbox_ w, o with
  | [], DoSubscribe conn l => Some (with_manager (Subscribe conn l m) w)
  | [], DoUnsubscribe conn l => Some (with_manager (Unsubscribe conn l m) w)
  | [], DoPSubscribe conn l => Some (with_manager (PSubscribe conn l m) w)
  | [], DoPUnsubscribe conn l => Some (with_manager (PUnsubscribe conn l m) w)
  | [], DoPublish channel message =>
      let others := filter (λ k, k ≠ i) (seq 0 n) in
      Some (with_outbox ((λ k, (k, (channel, message))) <$> others) (with_manager (m, (Publish channel message m).1) w))
  | [], DoProcess from =>
      match queue_from from w with
      | [] => None
      | msg :: q => Some (with_manager (m, ProcessPubSubMessage msg m) (with_queue from q w))
      end
  | _ :: l, DoPush => Some (with_outbox l w)
  | _, _ => None
  end.

(** [EnqueuePubSubMessage], called by worker [i]. *)
Definition EnqueuePubSubMessage (i : nat) (msg : bytes * bytes) (w : PubSubWorker) : PubSubWorker :=
  with_queue i (queue_from i w ++ [msg]) w.

Definition pubsub_step (i : nat) (o : pubsub_op) (ws : list PubSubWorker) : option (list PubSubWorker) :=
  w ← ws !! i;
  w' ← worker_step (length ws) i o w;
  let ws := <[i := w']> ws in
  Some (match o, outbox_ w with DoPush, (k, msg) :: _ => alter (EnqueuePubSubMessage i msg) k ws | _, _ => ws end).

(** The steps of the workers in some order. *)
Fixpoint pubsub_run (steps : list (nat * pubsub_op)) (ws : list PubSubWorker) : option (list PubSubWorker) :=
  match steps with
  | [] => Some ws
  | (i, o) :: steps => ws ← pubsub_step i o ws; pubsub_run steps ws
  end.
End PubSub.

(** ** Publish and subscribe: the contract

    The tables of a worker hold who is subscribed to what, and a message that is
    published reaches every subscription of every worker once, in the order of its
    publisher. *)

(** ** Who is subscribed *)

Implicit Types (names : gmap bytes (gset Z)) (conns : gmap Z (gset bytes)) (conn : Z) (l : list bytes) (s : gset bytes).

Abbreviation relation := (gset (Z * bytes)).

Definition pairs (conn : Z) (l : list bytes) : relation := list_to_set ((λ x, (conn, x)) <$> l).

(** Without a list, all of the connection. *)
Definition remove_pairs (conn : Z) (l : list bytes) (r : relation) : relation :=
  match l with [] => filter (λ x, x.1 ≠ conn) r | _ => r ∖ pairs conn l end.

(** Channels and patterns. *)
Definition table_step (o : pubsub_op) (rs : relation * relation) : relation * relation :=
  match o with
  | DoSubscribe conn l => (rs.1 ∪ pairs conn l, rs.2)
  | DoUnsubscribe conn l => (remove_pairs conn l rs.1, rs.2)
  | DoPSubscribe conn l => (rs.1, rs.2 ∪ pairs conn l)
  | DoPUnsubscribe conn l => (rs.1, remove_pairs conn l rs.2)
  | DoPublish _ _ | DoPush | DoProcess _ => rs
  end.
Definition spec_run (os : list pubsub_op) (rs : relation * relation) : relation * relation := foldl (λ rs o, table_step o rs) rs os.

(** ** The two tables of one kind *)

(** By name and by connection; no name has nobody. *)
Record indexed (names : gmap bytes (gset Z)) (conns : gmap Z (gset bytes)) (r : relation) : Prop := {
  by_name x conn : conn ∈ set_of x names ↔ (conn, x) ∈ r;
  by_conn x conn : x ∈ set_of conn conns ↔ (conn, x) ∈ r;
  nonempty x : names !! x ≠ Some ∅
}.

Lemma set_of_insert {K A} `{Countable K, Countable A} (k k' : K) (s : gset A) m :
  set_of k' (<[k := s]> m) = if decide (k = k') then s else set_of k' m.
Proof. unfold set_of. case_decide; subst; [by rewrite lookup_insert_eq|by rewrite lookup_insert_ne]. Qed.

Lemma set_of_delete {K A} `{Countable K, Countable A} (k k' : K) (m : gmap K (gset A)) :
  set_of k' (delete k m) = if decide (k = k') then ∅ else set_of k' m.
Proof. unfold set_of. case_decide; subst; [by rewrite lookup_delete_eq|by rewrite lookup_delete_ne]. Qed.

Lemma set_of_touch {K A} `{Countable K, Countable A} (k k' : K) (m : gmap K (gset A)) : set_of k' (touch_set k m) = set_of k' m.
Proof.
  unfold touch_set. destruct (m !! k) eqn:E; [done|]. rewrite set_of_insert. case_decide; [|done]. subst. unfold set_of. by rewrite E.
Qed.

Lemma set_of_drop {K A} `{Countable K, Countable A} (k k' : K) (a : A) m :
  set_of k' (drop_from_set k a m) = if decide (k = k') then set_of k m ∖ {[a]} else set_of k' m.
Proof.
  unfold drop_from_set. destruct (decide (set_of k m ∖ {[a]} = ∅)) as [E|E].
  - rewrite set_of_delete. case_decide; [|done]. by rewrite E.
  - by rewrite set_of_insert.
Qed.

Lemma indexed_same names conns conns' r :
  indexed names conns r → (∀ conn, set_of conn conns' = set_of conn conns) → indexed names conns' r.
Proof. intros H E. split; [apply H| |apply H]. intros x conn. rewrite E. apply H. Qed.

Lemma indexed_touch conn names conns r : indexed names conns r → indexed names (touch_set conn conns) r.
Proof. intros H. eapply indexed_same; [done|]. intros. apply set_of_touch. Qed.

Lemma indexed_add conn x names conns r :
  indexed names conns r → indexed (add_to_set x conn names) (add_to_set conn x conns) (r ∪ {[(conn, x)]}).
Proof.
  intros H. split.
  - intros y c. unfold add_to_set. rewrite set_of_insert. case_decide; subst; rewrite ?elem_of_union, ?elem_of_singleton, (by_name _ _ _ H); naive_solver.
  - intros y c. unfold add_to_set. rewrite set_of_insert. case_decide; subst; rewrite ?elem_of_union, ?elem_of_singleton, (by_conn _ _ _ H); naive_solver.
  - intros y. unfold add_to_set. destruct (decide (x = y)) as [->|]; [rewrite lookup_insert_eq|rewrite lookup_insert_ne by done; apply H].
    intros [= E]. set_solver.
Qed.

Lemma indexed_drop conn x names conns r :
  indexed names conns r →
  indexed (drop_from_set x conn names) (<[conn := set_of conn conns ∖ {[x]}]> conns) (r ∖ {[(conn, x)]}).
Proof.
  intros H. split.
  - intros y c. rewrite set_of_drop. case_decide; subst; rewrite ?elem_of_difference, ?elem_of_singleton, (by_name _ _ _ H); naive_solver.
  - intros y c. rewrite set_of_insert. case_decide; subst; rewrite ?elem_of_difference, ?elem_of_singleton, (by_conn _ _ _ H); naive_solver.
  - intros y. unfold drop_from_set. destruct (decide (set_of x names ∖ {[conn]} = ∅)) as [E|E].
    + destruct (decide (x = y)) as [->|]; [by rewrite lookup_delete_eq|rewrite lookup_delete_ne by done; apply H].
    + destruct (decide (x = y)) as [->|]; [rewrite lookup_insert_eq|rewrite lookup_insert_ne by done; apply H]. intros [= E']. done.
Qed.

Lemma indexed_forget (conn : Z) names conns r : indexed names conns r → set_of conn conns = ∅ → indexed names (delete conn conns) r.
Proof.
  intros H E. eapply indexed_same; [done|]. intros c. rewrite set_of_delete. case_decide; [|done]. by subst.
Qed.

(** ** The manager *)

Definition tracks (m : PubSubManager) (rs : relation * relation) : Prop :=
  indexed (channel_subscribers_ m) (conn_channels_ m) rs.1 ∧ indexed (pattern_subscribers_ m) (conn_patterns_ m) rs.2.

(** A step of [each] that does [g] to what is tracked. *)
Lemma each_tracks (f : PubSubManager → bytes → PubSubManager) (reply : bytes → Z → bytes) (conn : Z)
    (g : bytes → relation * relation → relation * relation) (l : list bytes) :
  (∀ m rs x, tracks m rs → tracks (f m x) (g x rs)) →
  ∀ m rs, tracks m rs → tracks (each f reply conn l m).1 (foldl (λ rs x, g x rs) rs l).
Proof.
  intros Hf. unfold each. set (h := λ acc channel, _).
  assert (Hg : ∀ acc rs, tracks acc.1 rs → tracks (foldl h acc l).1 (foldl (λ rs x, g x rs) rs l)); [|intros m rs H; by apply Hg].
  induction l as [|x l IH]; intros acc rs H; [done|]. cbn [foldl]. apply IH. by apply Hf.
Qed.

Lemma foldl_union (conn : Z) (l : list bytes) (r1 r2 : relation) :
  foldl (λ rs x, (rs.1 ∪ {[(conn, x)]}, rs.2)) (r1, r2) l = (r1 ∪ pairs conn l, r2).
Proof.
  revert r1. induction l as [|x l IH]; intros r1; cbn [foldl]; [unfold pairs; f_equal; set_solver|]. cbn [fst snd]. rewrite IH.
  f_equal. unfold pairs. cbn. set_solver.
Qed.
Lemma foldl_union' (conn : Z) (l : list bytes) (r1 r2 : relation) :
  foldl (λ rs x, (rs.1, rs.2 ∪ {[(conn, x)]})) (r1, r2) l = (r1, r2 ∪ pairs conn l).
Proof.
  revert r2. induction l as [|x l IH]; intros r2; cbn [foldl]; [unfold pairs; f_equal; set_solver|]. cbn [fst snd]. rewrite IH.
  f_equal. unfold pairs. cbn. set_solver.
Qed.
Lemma foldl_difference (conn : Z) (l : list bytes) (r1 r2 : relation) :
  foldl (λ rs x, (rs.1 ∖ {[(conn, x)]}, rs.2)) (r1, r2) l = (r1 ∖ pairs conn l, r2).
Proof.
  revert r1. induction l as [|x l IH]; intros r1; cbn [foldl]; [unfold pairs; f_equal; set_solver|]. cbn [fst snd]. rewrite IH.
  f_equal. unfold pairs. cbn. set_solver.
Qed.
Lemma foldl_difference' (conn : Z) (l : list bytes) (r1 r2 : relation) :
  foldl (λ rs x, (rs.1, rs.2 ∖ {[(conn, x)]})) (r1, r2) l = (r1, r2 ∖ pairs conn l).
Proof.
  revert r2. induction l as [|x l IH]; intros r2; cbn [foldl]; [unfold pairs; f_equal; set_solver|]. cbn [fst snd]. rewrite IH.
  f_equal. unfold pairs. cbn. set_solver.
Qed.

(** What is taken away is what the specification takes away. *)
Lemma unsub_pairs names conns (r : relation) (conn : Z) s l :
  indexed names conns r → conns !! conn = Some s →
  r ∖ pairs conn (match l with [] => elements s | _ => l end) = remove_pairs conn l r.
Proof.
  intros H Hs. destruct l as [|x l]; [|done]. unfold remove_pairs, pairs. apply set_eq. intros [c y].
  rewrite elem_of_difference, elem_of_filter, elem_of_list_to_set, list_elem_of_fmap. cbn. split.
  - intros [Hr Hn]. split; [|done]. intros ->. apply Hn. exists y. split; [done|]. apply elem_of_elements.
    apply (by_conn _ _ _ H) in Hr. unfold set_of in Hr. by rewrite Hs in Hr.
  - intros [Hc Hr]. split; [done|]. intros (z & [= -> ->] & _). done.
Qed.

Lemma unsub_none names conns (r : relation) (conn : Z) l : indexed names conns r → conns !! conn = None → remove_pairs conn l r = r.
Proof.
  intros H Hs. assert (Hn : ∀ y, (conn, y) ∉ r) by (intros y Hy; apply (by_conn _ _ _ H) in Hy; unfold set_of in Hy; rewrite Hs in Hy; set_solver).
  unfold remove_pairs, pairs. apply set_eq. intros [c y]. destruct l as [|x l].
  - rewrite elem_of_filter. cbn. split; [tauto|]. intros Hy. split; [|done]. intros ->. by apply Hn in Hy.
  - rewrite elem_of_difference, elem_of_list_to_set, list_elem_of_fmap. split; [tauto|]. intros Hy. split; [done|]. intros (z & [= -> ->] & _). by apply Hn in Hy.
Qed.

(** ** Subscriptions *)

Definition manager_step (o : pubsub_op) (m : PubSubManager) : PubSubManager :=
  match o with
  | DoSubscribe conn l => (Subscribe conn l m).1
  | DoUnsubscribe conn l => (Unsubscribe conn l m).1
  | DoPSubscribe conn l => (PSubscribe conn l m).1
  | DoPUnsubscribe conn l => (PUnsubscribe conn l m).1
  | DoPublish _ _ | DoPush | DoProcess _ => m
  end.

Lemma step_tracks o m rs : tracks m rs → tracks (manager_step o m) (table_step o rs).
Proof.
  destruct rs as [r1 r2]. intros H. destruct o as [conn l|conn l|conn l|conn l|channel message| |from]; [| | | |exact H|exact H|exact H]; cbn [manager_step table_step fst snd].
  - rewrite <- foldl_union. apply (each_tracks _ _ _ (λ x rs, (rs.1 ∪ {[(conn, x)]}, rs.2))); [|done].
    intros m' [a b] x [H1 H2]. split; cbn; apply indexed_touch; [by apply indexed_add|done].
  - unfold Unsubscribe. destruct (conn_channels_ m !! conn) as [s|] eqn:E; [|destruct H as [H1 H2]; split; [by erewrite unsub_none|done]].
    set (to := match l with [] => elements s | _ => l end).
    assert (Ht : tracks (each (unsubscribe_one conn) unsubscribe_reply conn to m).1 (remove_pairs conn l r1, r2)).
    { rewrite <- (unsub_pairs _ _ r1 conn s l (proj1 H) E), <- foldl_difference. apply (each_tracks _ _ _ (λ x rs, (rs.1 ∖ {[(conn, x)]}, rs.2))); [|done].
      intros m' [a b] x [H1 H2]. split; cbn; apply indexed_touch; [by apply indexed_drop|done]. }
    destruct (each _ _ _ _ _) as [m' r]. cbn [fst] in *. destruct (decide _) as [Ee|]; [|done]. destruct Ht as [H1 H2]. split; [|done]. by apply indexed_forget.
  - rewrite <- foldl_union'. apply (each_tracks _ _ _ (λ x rs, (rs.1, rs.2 ∪ {[(conn, x)]}))); [|done].
    intros m' [a b] x [H1 H2]. split; cbn; apply indexed_touch; [done|by apply indexed_add].
  - unfold PUnsubscribe. destruct (conn_patterns_ m !! conn) as [s|] eqn:E; [|destruct H as [H1 H2]; split; [done|by erewrite unsub_none]].
    set (to := match l with [] => elements s | _ => l end).
    assert (Ht : tracks (each (punsubscribe_one conn) unsubscribe_reply conn to m).1 (r1, remove_pairs conn l r2)).
    { rewrite <- (unsub_pairs _ _ r2 conn s l (proj2 H) E), <- foldl_difference'. apply (each_tracks _ _ _ (λ x rs, (rs.1, rs.2 ∖ {[(conn, x)]}))); [|done].
      intros m' [a b] x [H1 H2]. split; cbn; apply indexed_touch; [done|by apply indexed_drop]. }
    destruct (each _ _ _ _ _) as [m' r]. cbn [fst] in *. destruct (decide _) as [Ee|]; [|done]. destruct Ht as [H1 H2]. split; [done|]. by apply indexed_forget.
Qed.

(** ** Delivery *)

(** The texts that a connection gets. *)
Definition texts_for conn (r : responses) : list bytes := snd <$> filter (λ x, x.1 = conn) r.

Definition patterns_of conn (r : relation) : gset bytes := set_map snd (filter (λ x, x.1 = conn) r).

Lemma texts_app conn a b : texts_for conn (a ++ b) = texts_for conn a ++ texts_for conn b.
Proof. unfold texts_for. by rewrite filter_app, fmap_app. Qed.

Lemma texts_concat conn (rs : list responses) : texts_for conn (concat rs) = concat (texts_for conn <$> rs).
Proof. induction rs as [|r rs IH]; [done|]. cbn [concat fmap list_fmap]. by rewrite texts_app, IH. Qed.

(** One text to each of a set. *)
Lemma texts_once conn (t : bytes) (s : gset Z) :
  texts_for conn ((λ c, (c, t)) <$> elements s) = if decide (conn ∈ s) then [t] else [].
Proof.
  assert (H : ∀ l : list Z, NoDup l → texts_for conn ((λ c, (c, t)) <$> l) = if decide (conn ∈ l) then [t] else []).
  { induction 1 as [|c l Hc _ IH]; [done|]. rewrite fmap_cons. unfold texts_for in *. rewrite filter_cons. cbn [fst].
    destruct (decide (c = conn)) as [->|Hne].
    - rewrite fmap_cons, IH, decide_False, decide_True by (done || apply elem_of_cons; auto). done.
    - rewrite IH. destruct (decide (conn ∈ l)); [rewrite decide_True by (apply elem_of_cons; auto)|rewrite decide_False by (rewrite elem_of_cons; naive_solver)]; done. }
  rewrite H by apply NoDup_elements. destruct (decide (conn ∈ s)); [rewrite decide_True by set_solver|rewrite decide_False by set_solver]; done.
Qed.

Lemma concat_singles {A} (p : A → bool) (g : A → bytes) (l : list A) :
  concat ((λ x, if p x then [g x] else []) <$> l) = g <$> filter (λ x, p x = true) l.
Proof.
  induction l as [|x l IH]; [done|]. cbn [fmap list_fmap concat]. rewrite filter_cons. rewrite IH. by destruct (p x).
Qed.

Lemma patterns_elem conn (r : relation) x : x ∈ patterns_of conn r ↔ (conn, x) ∈ r.
Proof.
  unfold patterns_of. rewrite elem_of_map. split.
  - intros ([c y] & -> & [E H]%elem_of_filter). cbn in *. by subst.
  - intros H. exists (conn, x). split; [done|]. by apply elem_of_filter.
Qed.

Lemma deliver_texts channel message m r1 r2 conn :
  tracks m (r1, r2) →
  texts_for conn (deliver channel message m) ≡ₚ
    (if decide ((conn, channel) ∈ r1) then [message_text channel message] else []) ++
    ((λ p, pmessage_text p channel message) <$> filter (λ p, PatternMatches p channel = true) (elements (patterns_of conn r2))).
Proof.
  intros [H1 H2]. cbn [fst snd] in *. unfold deliver. rewrite texts_app, texts_concat. f_equiv.
  - assert (E := by_name _ _ _ H1 channel conn). unfold set_of in E. destruct (channel_subscribers_ m !! channel) as [s|]; cbn in E.
    + rewrite texts_once. destruct (decide (conn ∈ s)); [rewrite decide_True by tauto|rewrite decide_False by tauto]; done.
    + rewrite decide_False by set_solver. done.
  - rewrite <- list_fmap_compose.
    rewrite (list_fmap_ext _ (λ ps : bytes * gset Z, if PatternMatches ps.1 channel && bool_decide (conn ∈ ps.2) then [pmessage_text ps.1 channel message] else [])).
    2: { intros i [p s] _. unfold compose. cbn [fst snd]. destruct (PatternMatches p channel); [|done]. cbn [andb]. rewrite texts_once. by destruct (decide _), (bool_decide_reflect (conn ∈ s)). }
    rewrite concat_singles. change (λ x : bytes * gset Z, pmessage_text x.1 channel message) with ((λ p, pmessage_text p channel message) ∘ (fst : bytes * gset Z → bytes)).
    rewrite list_fmap_compose. f_equiv.
    apply NoDup_Permutation.
    + apply NoDup_fmap_fst; [|apply NoDup_filter, NoDup_map_to_list]. intros x s s' [_ Hs]%list_elem_of_filter [_ Hs']%list_elem_of_filter.
      apply elem_of_map_to_list in Hs, Hs'. congruence.
    + apply NoDup_filter, NoDup_elements.
    + intros x. rewrite list_elem_of_fmap, list_elem_of_filter, elem_of_elements, patterns_elem, <- (by_name _ _ _ H2). unfold set_of. split.
      * intros ([p s] & -> & [E Hs]%list_elem_of_filter). cbn in *. apply andb_true_iff in E as [E1 E2%bool_decide_eq_true].
        apply elem_of_map_to_list in Hs. by rewrite Hs.
      * intros [E Hc]. destruct (pattern_subscribers_ m !! x) as [s|] eqn:Es; [|set_solver]. exists (x, s). split; [done|].
        apply list_elem_of_filter. cbn in *. rewrite E, bool_decide_eq_true_2 by done. split; [done|]. by apply elem_of_map_to_list.
Qed.

(** ** Histories of the workers *)

(** What happens at a worker: a change of its subscriptions, and the delivery of a
    message of its own or of another worker. *)
Inductive pubsub_event := Changed (o : pubsub_op) | Own (msg : bytes * bytes) | From (i : nat) (msg : bytes * bytes).

(** The answers of a change. *)
Definition change_replies (o : pubsub_op) (m : PubSubManager) : responses :=
  match o with
  | DoSubscribe conn l => (Subscribe conn l m).2
  | DoUnsubscribe conn l => (Unsubscribe conn l m).2
  | DoPSubscribe conn l => (PSubscribe conn l m).2
  | DoPUnsubscribe conn l => (PUnsubscribe conn l m).2
  | DoPublish _ _ | DoPush | DoProcess _ => []
  end.

(** What the events put in the queue of responses, each with the subscriptions of its
    moment. *)
Fixpoint outputs (evs : list pubsub_event) (m : PubSubManager) : responses :=
  match evs with
  | [] => []
  | Changed o :: evs => change_replies o m ++ outputs evs (manager_step o m)
  | Own msg :: evs | From _ msg :: evs => deliver msg.1 msg.2 m ++ outputs evs m
  end.
Definition changes (evs : list pubsub_event) : list pubsub_op := omap (λ e, match e with Changed o => Some o | _ => None end) evs.
Definition own_of (evs : list pubsub_event) : list (bytes * bytes) := omap (λ e, match e with Own msg => Some msg | _ => None end) evs.
Definition from_of (i : nat) (evs : list pubsub_event) : list (bytes * bytes) :=
  omap (λ e, match e with From k msg => if decide (k = i) then Some msg else None | _ => None end) evs.

Definition message_of (o : pubsub_op) : option (bytes * bytes) :=
  match o with DoPublish channel message => Some (channel, message) | _ => None end.
Definition change_of (o : pubsub_op) : option pubsub_op :=
  match o with DoPublish _ _ | DoPush | DoProcess _ => None | _ => Some o end.
(** The messages that worker [i] publishes in a run, and the changes at worker [j]. *)
Definition published (i : nat) (steps : list (nat * pubsub_op)) : list (bytes * bytes) :=
  omap (λ e, if decide (e.1 = i) then message_of e.2 else None) steps.
Definition changed (j : nat) (steps : list (nat * pubsub_op)) : list pubsub_op :=
  omap (λ e, if decide (e.1 = j) then change_of e.2 else None) steps.

(** What the loop of worker [i] has still to put in the queue of worker [j]. *)
Definition pending (ws : list PubSubWorker) (i j : nat) : list (bytes * bytes) :=
  match ws !! i with Some w => snd <$> filter (λ x, x.1 = j) (outbox_ w) | None => [] end.

(** The messages of worker [i] that are on their way to worker [j]. *)
Definition under_way (ws : list PubSubWorker) (i j : nat) : list (bytes * bytes) :=
  match ws !! j with Some w => queue_from i w | None => [] end ++ pending ws i j.

Lemma queue_from_with i k q w : queue_from k (with_queue i q w) = if decide (k = i) then q else queue_from k w.
Proof. unfold queue_from, with_queue. cbn. case_decide; [subst; by rewrite lookup_insert_eq|by rewrite lookup_insert_ne]. Qed.

Lemma outputs_app e evs : ∀ m, outputs (e ++ evs) m = outputs e m ++ outputs evs (foldl (λ m o, manager_step o m) m (changes e)).
Proof.
  induction e as [|[o|msg|k msg] e IH]; intros m; [done|..]; cbn [app outputs changes omap list_omap foldl]; rewrite IH; by rewrite <- app_assoc.
Qed.

Lemma filter_others (j i n : nat) (msg : bytes * bytes) : j < n →
  snd <$> filter (λ x, x.1 = j) ((λ k, (k, msg)) <$> filter (λ k, k ≠ i) (seq 0 n)) = if decide (i = j) then [] else [msg].
Proof.
  intros Hj. replace n with (j + S (n - j - 1)) by lia. rewrite seq_app, filter_app, fmap_app, filter_app, fmap_app. cbn [seq]. rewrite filter_cons.
  assert (Hn : ∀ a len, (∀ k, a ≤ k < a + len → k ≠ j) → snd <$> filter (λ x, x.1 = j) ((λ k, (k, msg)) <$> filter (λ k, k ≠ i) (seq a len)) = []).
  { intros a len. revert a. induction len as [|len IH]; intros a Ha; [done|]. cbn [seq]. rewrite filter_cons. case_decide; rewrite ?fmap_cons, ?filter_cons.
    - cbn [fst]. rewrite decide_False by (apply Ha; lia). apply IH. intros k Hk. apply Ha. lia.
    - apply IH. intros k Hk. apply Ha. lia. }
  rewrite Hn by (intros; lia). cbn [Nat.add app]. destruct (decide (i = j)) as [->|Hne].
  - rewrite decide_False by lia. apply Hn. intros; lia.
  - rewrite decide_True by lia. rewrite fmap_cons, filter_cons, decide_True by done. rewrite fmap_cons, Hn by (intros; lia). done.
Qed.

Lemma pending_insert ws i w k j : i < length ws → pending (<[i := w]> ws) k j = if decide (k = i) then snd <$> filter (λ x, x.1 = j) (outbox_ w) else pending ws k j.
Proof. intros Hi. unfold pending. case_decide; [subst; by rewrite list_lookup_insert_eq|by rewrite list_lookup_insert_ne]. Qed.
Lemma pending_alter ws f t k j : (∀ w, outbox_ (f w) = outbox_ w) → pending (alter f t ws) k j = pending ws k j.
Proof.
  intros Hf. unfold pending. destruct (decide (t = k)) as [->|Hne]; [|by rewrite list_lookup_alter_ne]. rewrite list_lookup_alter_eq. destruct (ws !! k); [|done]. cbn. by rewrite Hf.
Qed.

(** What a step means for worker [j]: at most one event, and where the messages on
    their way to it go. *)
Record progress (ws ws1 : list PubSubWorker) (steps : list (nat * pubsub_op)) (j : nat) (w w1 : PubSubWorker) (e : list pubsub_event) : Prop := {
  pr_at : ws1 !! j = Some w1;
  pr_resp : resp_queue_ w1 = resp_queue_ w ++ outputs e (pubsub_manager_ w);
  pr_manager : pubsub_manager_ w1 = foldl (λ m o, manager_step o m) (pubsub_manager_ w) (changes e);
  pr_changes : changes e = changed j steps;
  pr_own : own_of e = published j steps;
  pr_from k : from_of k e ++ under_way ws1 k j = under_way ws k j ++ (if decide (k = j) then [] else published k steps)
}.

Lemma progress_app ws ws1 ws2 (s1 s2 : list (nat * pubsub_op)) j w w1 w2 e1 e2 :
  progress ws ws1 s1 j w w1 e1 → progress ws1 ws2 s2 j w1 w2 e2 → progress ws ws2 (s1 ++ s2) j w w2 (e1 ++ e2).
Proof.
  intros [A1 A2 A3 A4 A5 A6] [B1 B2 B3 B4 B5 B6]. split; [done|..].
  - rewrite B2, A2, outputs_app, <- app_assoc, A3. done.
  - unfold changes in *. rewrite omap_app, foldl_app, B3, A3. done.
  - unfold changes, changed in *. by rewrite !omap_app, A4, B4.
  - unfold own_of, published in *. by rewrite !omap_app, A5, B5.
  - intros k. unfold from_of, published in *. rewrite omap_app, <- app_assoc, B6, app_assoc, A6, <- app_assoc. f_equal. case_decide; [done|]. by rewrite omap_app.
Qed.

(** A step of [j] itself that puts nothing for itself in its outbox. *)
Lemma progress_self ws o j w w' e :
  ws !! j = Some w → pending ws j j = [] → (snd <$> filter (λ x, x.1 = j) (outbox_ w')) = [] →
  resp_queue_ w' = resp_queue_ w ++ outputs e (pubsub_manager_ w) →
  pubsub_manager_ w' = foldl (λ m o, manager_step o m) (pubsub_manager_ w) (changes e) →
  changes e = changed j [(j, o)] → own_of e = published j [(j, o)] → (∀ k, from_of k e ++ queue_from k w' = queue_from k w) →
  progress ws (<[j := w']> ws) [(j, o)] j w w' e.
Proof.
  intros Hj Hp Ho H1 H2 H3 H4 H5. assert (Hl := lookup_lt_Some _ _ _ Hj). split; [by rewrite list_lookup_insert_eq|done..|].
  intros k. unfold under_way. rewrite pending_insert, list_lookup_insert_eq, Hj by done. rewrite app_assoc, H5, <- app_assoc. f_equal.
  destruct (decide (k = j)) as [->|Hk]; [by rewrite Ho, Hp|]. unfold published. cbn [omap list_omap fst snd]. by rewrite decide_False, app_nil_r by done.
Qed.

(** A step in which nothing arrives at the queue of another worker. *)
Lemma progress_own ws o w w' j :
  ws !! j = Some w → worker_step (length ws) j o w = Some w' → o ≠ DoPush → ∃ w1 e, progress ws (<[j := w']> ws) [(j, o)] j w w1 e.
Proof.
  intros Hj E Ho. assert (Hl := lookup_lt_Some _ _ _ Hj). exists w'. unfold worker_step in E. destruct (outbox_ w) eqn:Eo; [|by destruct o].
  assert (Hp : pending ws j j = []) by (unfold pending; by rewrite Hj, Eo).
  assert (Hc : changed j [(j, o)] = omap change_of [o] ∧ published j [(j, o)] = omap message_of [o]).
  { unfold changed, published. cbn [omap list_omap fst snd]. by rewrite !decide_True by done. }
  destruct Hc as [Hc Hm]. destruct o as [conn l|conn l|conn l|conn l|channel message| |from]; try done.
  1-4: injection E as <-.
  1: exists [Changed (DoSubscribe conn l)]. 2: exists [Changed (DoUnsubscribe conn l)]. 3: exists [Changed (DoPSubscribe conn l)]. 4: exists [Changed (DoPUnsubscribe conn l)].
  1-4: apply progress_self; [done|done|cbn [with_manager outbox_]; by rewrite Eo|cbn [with_manager resp_queue_ outputs change_replies]; by rewrite app_nil_r|done|by rewrite Hc|by rewrite Hm|done].
  - injection E as <-. exists [Own (channel, message)].
    apply progress_self; [done|done| |cbn [with_manager with_outbox resp_queue_ outputs Publish fst snd]; by rewrite app_nil_r|done|by rewrite Hc|by rewrite Hm|done].
    cbn [with_outbox outbox_]. rewrite filter_others by done. by rewrite decide_True.
  - destruct (queue_from from w) as [|msg q] eqn:Eq; [done|]. injection E as <-. exists [From from msg].
    apply progress_self; [done|done|cbn [with_manager with_queue outbox_]; by rewrite Eo|cbn [with_manager with_queue resp_queue_ outputs ProcessPubSubMessage snd]; by rewrite app_nil_r|done|by rewrite Hc|by rewrite Hm|].
    intros k. change (queue_from k (with_manager _ (with_queue from q w))) with (queue_from k (with_queue from q w)). rewrite queue_from_with.
    unfold from_of. cbn [omap list_omap]. destruct (decide (from = k)) as [->|]; [rewrite decide_True by done; by rewrite Eq|by rewrite decide_False by done].
Qed.

Lemma progress_local ws i o w0 w0' j w :
  ws !! i = Some w0 → ws !! j = Some w → worker_step (length ws) i o w0 = Some w0' → o ≠ DoPush →
  ∃ w1 e, progress ws (<[i := w0']> ws) [(i, o)] j w w1 e.
Proof.
  intros Hi Hj E Ho. assert (Hl := lookup_lt_Some _ _ _ Hi). assert (Hlj := lookup_lt_Some _ _ _ Hj).
  destruct (decide (i = j)) as [Eij|Hne]; [subst j; assert (w0 = w) as -> by congruence; by apply progress_own|].
  exists w, []. split; [by rewrite list_lookup_insert_ne|by rewrite app_nil_r|done|unfold changed; cbn [omap list_omap fst snd]; by rewrite decide_False|unfold published; cbn [omap list_omap fst snd]; by rewrite decide_False|].
  intros k. cbn [from_of omap list_omap app]. unfold under_way. rewrite list_lookup_insert_ne, Hj, pending_insert by done. unfold published. cbn [omap list_omap fst snd].
  rewrite <- app_assoc. f_equal. destruct (decide (k = i)) as [->|].
  - rewrite decide_False by done. rewrite decide_True by done. unfold pending. rewrite Hi. unfold worker_step in E. destruct (outbox_ w0) eqn:Eo; [|by destruct o].
    destruct o as [conn l|conn l|conn l|conn l|channel message| |from]; try done; cbn [message_of].
    1-4: injection E as <-; cbn; by rewrite Eo.
    + injection E as <-. cbn [with_outbox outbox_]. rewrite filter_others by done. by rewrite decide_False.
    + destruct (queue_from from w0); [done|]. injection E as <-. cbn. by rewrite Eo.
  - rewrite (decide_False (P := i = k)) by done. case_decide; by rewrite app_nil_r.
Qed.

(** A message leaves the loop of a worker for the queue of another. *)
Lemma progress_push ws i w0 w0' t msg (l : list (nat * (bytes * bytes))) j w :
  ws !! i = Some w0 → ws !! j = Some w → outbox_ w0 = (t, msg) :: l → w0' = with_outbox l w0 →
  ∃ w1 e, progress ws (alter (EnqueuePubSubMessage i msg) t (<[i := w0']> ws)) [(i, DoPush)] j w w1 e.
Proof.
  intros Hi Hj Eo ->. assert (Hl := lookup_lt_Some _ _ _ Hi). set (w1 := if decide (i = j) then with_outbox l w0 else w).
  assert (H1 : (<[i := with_outbox l w0]> ws) !! j = Some w1).
  { unfold w1. case_decide; [subst; by rewrite list_lookup_insert_eq|by rewrite list_lookup_insert_ne]. }
  assert (Hq : ∀ k, queue_from k w1 = queue_from k w ∧ pubsub_manager_ w1 = pubsub_manager_ w ∧ resp_queue_ w1 = resp_queue_ w).
  { unfold w1. case_decide; [subst; assert (w0 = w) as -> by congruence|]; done. }
  exists (if decide (t = j) then EnqueuePubSubMessage i msg w1 else w1), [].
  assert (H2 : alter (EnqueuePubSubMessage i msg) t (<[i := with_outbox l w0]> ws) !! j = Some (if decide (t = j) then EnqueuePubSubMessage i msg w1 else w1)).
  { case_decide; [subst; by rewrite list_lookup_alter_eq, H1|by rewrite list_lookup_alter_ne]. }
  split; [done|destruct (Hq 0) as (_ & _ & Hr); rewrite app_nil_r; by destruct (decide (t = j))|destruct (Hq 0) as (_ & Hr & _); by destruct (decide (t = j))|unfold changed; cbn [omap list_omap fst snd]; by destruct (decide (i = j))|unfold published; cbn [omap list_omap fst snd]; by destruct (decide (i = j))|].
  intros k. cbn [from_of omap list_omap app]. unfold under_way. rewrite H2, Hj, pending_alter, pending_insert by done. cbn [with_outbox outbox_].
  assert (Ep : (if decide (k = j) then [] else published k [(i, DoPush)]) = []) by (unfold published; cbn [omap list_omap fst snd message_of]; by repeat case_decide). rewrite Ep, app_nil_r.
  destruct (Hq k) as (Hk & _). destruct (decide (t = j)) as [->|Ht].
  - unfold EnqueuePubSubMessage. rewrite queue_from_with. destruct (decide (k = i)) as [->|Hk'].
    + rewrite (proj1 (Hq i)). unfold pending. rewrite Hi, Eo, filter_cons, decide_True by done. by rewrite <- app_assoc.
    + by rewrite Hk.
  - rewrite Hk. f_equal. destruct (decide (k = i)) as [->|]; [|done]. unfold pending. by rewrite Hi, Eo, filter_cons, decide_False by done.
Qed.

Lemma run_progress steps : ∀ ws ws' j w, pubsub_run steps ws = Some ws' → ws !! j = Some w → ∃ w' e, progress ws ws' steps j w w' e.
Proof.
  induction steps as [|[i o] steps IH]; intros ws ws' j w E Hj.
  { injection E as <-. exists w, []. split; [done|by rewrite app_nil_r|done..|]. intros k. cbn. case_decide; by rewrite app_nil_r. }
  cbn [pubsub_run] in E. destruct (pubsub_step i o ws) as [ws1|] eqn:E1; [|done]. cbn [mbind option_bind] in E.
  assert (H1 : ∃ w1 e, progress ws ws1 [(i, o)] j w w1 e).
  { unfold pubsub_step in E1. destruct (ws !! i) as [w0|] eqn:Hi; [|done]. cbn [mbind option_bind] in E1. destruct (worker_step (length ws) i o w0) as [w0'|] eqn:El; [|done].
    cbn [mbind option_bind] in E1. injection E1 as <-. destruct (decide (o = DoPush)) as [->|Ho].
    - cbn [worker_step] in El. unfold worker_step in El. destruct (outbox_ w0) as [|[t msg] l] eqn:Eo; [done|]. injection El as <-. by apply (progress_push ws i w0 _ t msg l j w).
    - assert (Em : match o, outbox_ w0 with DoPush, (k, msg) :: _ => alter (EnqueuePubSubMessage i msg) k (<[i := w0']> ws) | _, _ => <[i := w0']> ws end = <[i := w0']> ws).
      { by destruct o. }
      rewrite Em. by apply (progress_local ws i o w0 w0' j w). }
  destruct H1 as (w1 & e1 & H1). destruct (IH ws1 ws' j w1 E (pr_at _ _ _ _ _ _ _ H1)) as (w' & e2 & H2). exists w', (e1 ++ e2).
  by apply (progress_app ws ws1 ws' [(i, o)] steps j w w1 w').
Qed.

Lemma no_subscriptions_tracks : tracks no_subscriptions (∅, ∅).
Proof. split; split; cbn; intros; unfold set_of; rewrite ?lookup_empty; cbn; done || set_solver. Qed.

Lemma history_tracks history : ∀ m rs, tracks m rs → tracks (foldl (λ m o, manager_step o m) m history) (spec_run history rs).
Proof. induction history as [|o history IH]; intros m rs H; [done|]. by apply IH, step_tracks. Qed.

(** The texts of a message for a connection: one for the channel, one for each of
    its patterns that match. *)
Definition expected (rs : relation * relation) conn (msg : bytes * bytes) : list bytes :=
  (if decide ((conn, msg.1) ∈ rs.1) then [message_text msg.1 msg.2] else []) ++
  ((λ p, pmessage_text p msg.1 msg.2) <$> filter (λ p, PatternMatches p msg.1 = true) (elements (patterns_of conn rs.2))).

(** C18. Messages between workers, in any order of the steps of their executors,
    with subscriptions that change at any time. What a worker puts in its queue of
    responses is the answers to its subscription commands, its own messages in the
    order it publishes them, and the messages of every other worker, each once and
    in the order that worker publishes them, up to those still under way; the
    messages of different workers come in any order. A connection gets of a
    message one text for the channel and one for each matching pattern that it is
    subscribed to when the message is delivered. *)
Theorem published_delivered history steps ws ws' j w :
  ws !! j = Some w → pubsub_manager_ w = foldl (λ m o, manager_step o m) no_subscriptions history → pubsub_run steps ws = Some ws' →
  ∃ w' evs, ws' !! j = Some w' ∧ resp_queue_ w' = resp_queue_ w ++ outputs evs (pubsub_manager_ w) ∧
    changes evs = changed j steps ∧ own_of evs = published j steps ∧
    (∀ k, from_of k evs ++ under_way ws' k j = under_way ws k j ++ (if decide (k = j) then [] else published k steps)) ∧
    ∀ before conn msg, texts_for conn (deliver msg.1 msg.2 (foldl (λ m o, manager_step o m) (pubsub_manager_ w) (changes before))) ≡ₚ
      expected (spec_run (history ++ changes before) (∅, ∅)) conn msg.
Proof.
  intros Hj Hm E. destruct (run_progress steps ws ws' j w E Hj) as (w' & evs & [H1 H2 _ H4 H5 H6]). exists w', evs.
  split; [done|]. split; [done|]. split; [done|]. split; [done|]. split; [done|]. intros before conn [channel message]. cbn [fst snd].
  assert (Ht := history_tracks (history ++ changes before) no_subscriptions (∅, ∅) no_subscriptions_tracks). rewrite foldl_app, <- Hm in Ht.
  destruct (spec_run (history ++ changes before) (∅, ∅)) as [r1 r2]. by apply deliver_texts.
Qed.

(** Connection 7 of worker 1 follows a channel and a pattern; worker 0 publishes, and
    worker 1 cancels the pattern before it takes the message from its queue. *)
Definition small_history : list pubsub_op := [DoSubscribe 7%Z [B "news"; B "old"]; DoPSubscribe 7 [B "n*"]; DoUnsubscribe 7 [B "old"]].
Definition small_workers : list PubSubWorker :=
  [MkPubSubWorker no_subscriptions ∅ [] []; MkPubSubWorker (foldl (λ m o, manager_step o m) no_subscriptions small_history) ∅ [] []].
Definition small_steps : list (nat * pubsub_op) :=
  [(0, DoPublish (B "news") (B "hello")); (1, DoPUnsubscribe 7 [B "n*"]); (0, DoPush); (1, DoProcess 0)]%nat.

Lemma published_delivered_witness :
  ∃ ws' w' evs, pubsub_run small_steps small_workers = Some ws' ∧ ws' !! 1%nat = Some w' ∧ from_of 0 evs ++ under_way ws' 0 1 = [(B "news", B "hello")] ∧
    resp_queue_ w' = outputs evs (foldl (λ m o, manager_step o m) no_subscriptions small_history) ∧ changes evs = [DoPUnsubscribe 7 [B "n*"]].
Proof.
  destruct (pubsub_run small_steps small_workers) as [ws'|] eqn:E; [|vm_compute in E; discriminate].
  destruct (published_delivered small_history small_steps small_workers ws' 1 (MkPubSubWorker (foldl (λ m o, manager_step o m) no_subscriptions small_history) ∅ [] []) eq_refl eq_refl E)
    as (w' & evs & E1 & E2 & E3 & _ & E5 & _).
  exists ws', w', evs. split; [reflexivity|]. split; [exact E1|]. split; [exact (E5 0%nat)|]. split; [exact E2|exact E3].
Defined.

(** The connection gets the text for the channel only. *)
Example cancelled_before_delivery :
  option_map (map (λ w, texts_for 7 (resp_queue_ w))) (pubsub_run small_steps small_workers) =
    Some [[]; [unsubscribe_reply (B "n*") 1; message_text (B "news") (B "hello")]].
Proof. vm_compute. reflexivity. Qed.

(** A connection that cancelled its only pattern still counts as subscribed. *)
Example cancelled_subscriber :
  let m := foldl (λ m o, manager_step o m) no_subscriptions [DoPSubscribe 7 [B "n*"]; DoPUnsubscribe 7 [B "n*"]] in
  IsSubscribed 7 m = true.
Proof. vm_compute. reflexivity. Qed.
