(* ===== verification/Commands.v ===== *)
(** * Command handlers: the context

    Models what the handlers under src/astra/commands/redis share: the context of
    commands/command_handler.hpp with the database of the worker, the databases
    of the other workers, the cluster state, the append-only log and what the
    handlers of hashes and lists keep outside of the database, and the shape of a
    handler: guards that return an error, operations on the database,
    and a result.  A handler is a computation [M] over the context that ends with
    a value or early, with a result or an exception. *)
From S2P Require Import Prelude.
From S2P Require Import Simd.
From S2P Require Import Numbers.
From S2P Require Import Text.
From S2P Require Import RespTypes.
From S2P Require Import Executor.
From S2P Require Import Rocks.
From S2P Require Import Database.
From S2P Require Import ClusterConfig.
From S2P Require Import Blocking.

(** The expiry times of hash fields, a variable of hash_commands.cpp; the clients
    that block, whose callbacks see the time and the database, with the answers
    that were handed to [Send] for them; the connection of the command, with whether its
    pointer is set; and for each batch request this worker will send, the workers that
    answer within its five seconds, in the order of their answers, which the other
    threads decide. *)
Record Extras `{!Platform} := MkExtras {
  g_hash_field_expires : gmap bytes (gmap bytes Z);
  blocking_manager : option (BlockingManager (Z * Database));
  blocking_sent : list (Z * RespValue);
  connection_id : Z;
  has_connection : bool;
  batch_answers : list (list nat)
}.

(** [ctx_workers] is the number of workers the scheduler knows, zero without a
    scheduler; [ctx_remote] has the databases of the workers other than
    [ctx_self]. *)
Record Ctx `{!Platform} := MkCtx {
  ctx_db : Database;
  ctx_self : nat;
  ctx_workers : nat;
  ctx_remote : gmap nat Database;
  ctx_cluster : option ClusterState;
  ctx_log : list (bytes * list bytes);
  ctx_more : Extras
}.

(** What a step yields: a value, or the end of the handler. *)
Definition M `{!Platform} (A : Type) : Type := Ctx → Ctx * (A + outcome).

#[export] Instance M_ret `{!Platform} : MRet M := λ A x c, (c, inl x).
#[export] Instance M_bind `{!Platform} : MBind M := λ A B f m c,
  match m c with
  | (c, inl x) => f x c
  | (c, inr o) => (c, inr o)
  end.

Section Commands.
Context {P : Platform}.

Definition stop {A} (r : CommandResult) : M A := λ c, (c, inr (Returned r)).
Definition fail {A} (message : bytes) : M A := stop (Failure message).
Definition throw {A} (what : bytes) : M A := λ c, (c, inr (Threw what)).

(** [if (!b) return CommandResult(false, message);] *)
Definition require (b : bool) (message : bytes) : M () := if b then mret () else fail message.

Definition on_db {A} (f : Database → Database * A) : M A := λ c,
  let '(db, x) := f (ctx_db c) in
  (MkCtx _ db (ctx_self c) (ctx_workers c) (ctx_remote c) (ctx_cluster c) (ctx_log c) (ctx_more c), inl x).
Definition put_db (f : Database → Database) : M () := on_db (λ db, (f db, ())).
Definition read_db {A} (f : Database → A) : M A := on_db (λ db, (db, f db)).

(** [context->LogToAof] *)
Definition LogToAof (command : bytes) (args : list bytes) : M () := λ c,
  (MkCtx _ (ctx_db c) (ctx_self c) (ctx_workers c) (ctx_remote c) (ctx_cluster c) (ctx_log c ++ [(command, args)]) (ctx_more c), inl ()).

(** What the handlers keep outside of the database. *)
Definition on_more {A} (f : Extras → Extras * A) : M A := λ c,
  let '(x, r) := f (ctx_more c) in
  (MkCtx _ (ctx_db c) (ctx_self c) (ctx_workers c) (ctx_remote c) (ctx_cluster c) (ctx_log c) x, inl r).

(** The value of an optional; [message] when there is none. *)
Definition need {A} (x : option A) (message : bytes) : M A :=
  match x with Some x => mret x | None => fail message end.

(** A handler runs to a result or an exception. *)
Definition run (m : M CommandResult) (c : Ctx) : Ctx * outcome :=
  match m c with
  | (c, inl r) => (c, Returned r)
  | (c, inr o) => (c, o)
  end.

(** ** Arguments and results *)

Definition ArgCount (cmd : Command) : nat := length (cmd_args cmd).

(** [command[i]]; the handlers check the number of arguments before. *)
Definition arg (i : nat) (cmd : Command) : CommandArg := default (MkArg kNull []) (cmd_args cmd !! i).
Definition is_bulk (a : CommandArg) : bool := bool_decide (arg_type a = kBulkString).
Definition arg_text (i : nat) (cmd : Command) : bytes := arg_value (arg i cmd).

(** The arguments are bulk strings. *)
Definition all_bulk (l : list CommandArg) : bool := forallb is_bulk l.

Definition wrong_number (name : bytes) : bytes := B "ERR wrong number of arguments for '" ++ name ++ B "' command".
Definition not_integer : bytes := B "ERR value is not an integer or out of range".
Definition syntax_error : bytes := B "ERR syntax error".

Definition reply_int (n : Z) : CommandResult := Success (resp_int n).
Definition reply_bool (b : bool) : CommandResult := reply_int (if b then 1 else 0).
Definition reply_array (l : list RespValue) : CommandResult := Success (resp_array l).
Definition reply_strings (l : list bytes) : CommandResult := reply_array (resp_string <$> l).
Definition reply_bulk (s : bytes) : CommandResult := Success (resp_string s).
Definition reply_nil : CommandResult := Success (resp_of_type kNullBulkString).
Definition reply_opt (v : option bytes) : CommandResult := match v with Some s => reply_bulk s | None => reply_nil end.
Definition bulk_or_nil (v : option bytes) : RespValue :=
  match v with Some s => resp_string s | None => resp_of_type kNullBulkString end.

(** A loop that collects bulk strings; [message] when one is not. *)
Definition bulk_args (l : list CommandArg) (message : bytes) : M (list bytes) :=
  _ ← require (all_bulk l) message; mret (arg_value <$> l).

(** [absl::AsciiStrToUpper] *)
Definition upper (s : bytes) : bytes := to_upper <$> s.
End Commands.
