(* ===== verification/Acl.v ===== *)
(** * Access control

    The users of src/astra/security/acl_manager.hpp with their rules, the permission
    checks of src/astra/commands/command_handler.hpp that the registry makes, and the
    commands AUTH and ACL of src/astra/commands/redis/acl_commands.cpp.  Who is
    authenticated is part of the context of a worker, not of a connection.  Log lines
    and the mutex of the manager are left out. *)
From S2P Require Import Prelude.
From S2P Require Import Simd.
From S2P Require Import Numbers.
From S2P Require Import RespTypes.
From S2P Require Import Executor.
From S2P Require Import Text.
From S2P Require Import Commands.

(** ** Users *)

Record AclUser := MkAclUser {
  username : bytes;
  enabled : bool;
  all_keys : bool;
  all_channels : bool;
  no_password : bool;
  passwords : list bytes;
  categories : list bytes;
  commands : list bytes;
  key_patterns : list bytes;
  channel_patterns : list bytes
}.

Definition set_enabled (b : bool) (u : AclUser) : AclUser :=
  MkAclUser (username u) b (all_keys u) (all_channels u) (no_password u) (passwords u) (categories u) (commands u) (key_patterns u) (channel_patterns u).
Definition set_keys (b : bool) (patterns : list bytes) (u : AclUser) : AclUser :=
  MkAclUser (username u) (enabled u) b (all_channels u) (no_password u) (passwords u) (categories u) (commands u) patterns (channel_patterns u).
Definition set_channels (b : bool) (patterns : list bytes) (u : AclUser) : AclUser :=
  MkAclUser (username u) (enabled u) (all_keys u) b (no_password u) (passwords u) (categories u) (commands u) (key_patterns u) patterns.
Definition set_passwords (b : bool) (l : list bytes) (u : AclUser) : AclUser :=
  MkAclUser (username u) (enabled u) (all_keys u) (all_channels u) b l (categories u) (commands u) (key_patterns u) (channel_patterns u).
Definition set_commands (cats cmds : list bytes) (u : AclUser) : AclUser :=
  MkAclUser (username u) (enabled u) (all_keys u) (all_channels u) (no_password u) (passwords u) cats cmds (key_patterns u) (channel_patterns u).

Definition words (l : list bytes) : bytes := concat ((λ w, w ++ B " ") <$> l).

Definition ToAclListString (u : AclUser) : bytes :=
  B "user " ++ username u ++ B " " ++ (if enabled u then B "on " else B "off ") ++
  (if no_password u then B "nopass " else []) ++
  (if all_keys u then B "~* " else words (key_patterns u)) ++
  (if all_channels u then B "&* " else words (channel_patterns u)) ++
  words (categories u) ++ words (commands u).

Definition default_user : AclUser := MkAclUser (B "default") true true true true [] [B "+@all"] [B "+@all"] [] [].
Definition new_user (name : bytes) : AclUser := MkAclUser name false false false false [] [] [] [] [].

(** ** Rules *)

Definition first_removed (x : bytes) (l : list bytes) : list bytes :=
  match list_find (x =.) l with Some (i, _) => delete i l | None => l end.

(** The rules that start with a mark. *)
Definition marked_rule (prefix : ascii) (suffix rule : bytes) (u : AclUser) : AclUser :=
  if decide (prefix = "+"%char ∨ prefix = "-"%char) then
    set_commands (categories u ++ (if bool_decide (head suffix = Some "@"%char) then [rule] else [])) (commands u ++ [rule]) u
  else if decide (prefix = ">"%char ∨ prefix = "#"%char) then set_passwords false (passwords u ++ [suffix]) u
  else if decide (prefix = "<"%char) then set_passwords (no_password u) (first_removed suffix (passwords u)) u
  else if decide (prefix = "~"%char) then
    if decide (suffix = B "*") then set_keys true [] u else set_keys (all_keys u) (key_patterns u ++ [rule]) u
  else if decide (prefix = "&"%char) then
    if decide (suffix = B "*") then set_channels true [] u else set_channels (all_channels u) (channel_patterns u ++ [rule]) u
  else u.

Definition apply_rule (u : AclUser) (rule : bytes) : AclUser :=
  if decide (rule = B "on") then set_enabled true u
  else if decide (rule = B "off") then set_enabled false u
  else if decide (rule = B "nopass") then set_passwords true [] u
  else if decide (rule = B "allkeys") then set_keys true [] u
  else if decide (rule = B "allchannels") then set_channels true [] u
  else if decide (rule = B "reset") then new_user (username u)
  else if decide (rule = B "resetkeys") then set_keys false [] u
  else if decide (rule = B "resetchannels") then set_channels false [] u
  else if decide (rule = B "resetpass") then set_passwords false [] u
  else if decide (rule = B "allcommands" ∨ rule = B "+@all") then set_commands (categories u ++ [B "+@all"]) [B "+@all"] u
  else if decide (rule = B "nocommands" ∨ rule = B "-@all") then set_commands [] [B "-@all"] u
  else match rule with
       | prefix :: (_ :: _) as suffix => marked_rule prefix suffix rule u
       | _ => u
       end.

(** ** The manager *)

Abbreviation Users := (gmap bytes AclUser).
Implicit Types (users : Users) (u : AclUser) (name command key rule : bytes) (rules : list bytes).

Definition Init users : Users := <[B "default" := default_user]> users.

Definition Authenticate name (password : bytes) users : bool :=
  match users !! name with
  | None => false
  | Some u => enabled u && (no_password u || existsb (λ pwd, bool_decide (pwd = password)) (passwords u))
  end.

Definition SetUser name rules users : Users :=
  <[name := foldl apply_rule (default (new_user name) (users !! name)) rules]> users.

Definition CreateUser name (password : bytes) (permissions : Z) (enable : bool) users : Users :=
  SetUser name ([if enable then B "on" else B "off"; if bool_decide (password = []) then B "nopass" else B ">" ++ password] ++
    (if (permissions =? 0)%Z then [] else [B "+@all"])) users.

Definition DeleteUser name users : Users * bool :=
  match users !! name with
  | None => (users, false)
  | Some _ => if decide (name = B "default") then (users, false) else (delete name users, true)
  end.

Definition SetPassword name (password : bytes) users : Users :=
  SetUser name [if bool_decide (password = []) then B "nopass" else B ">" ++ password] users.

Definition GetUsers users : list bytes := (λ x, ToAclListString x.2) <$> map_to_list users.
Definition GetUserNames users : list bytes := fst <$> map_to_list users.

Definition CheckCommand name command users : bool :=
  match users !! name with
  | None => false
  | Some u =>
      if negb (enabled u) then false
      else if bool_decide (B "-@all" ∈ commands u) then false
      else bool_decide (B "+@all" ∈ commands u) || bool_decide (B "allcommands" ∈ commands u) ||
           bool_decide (B "+" ++ command ∈ commands u) ||
           bool_decide (B "+@all" ∈ categories u) || bool_decide (B "allcommands" ∈ categories u)
  end.

(** A pattern with its mark; what follows the first star is taken as it is. *)
Definition pattern_matches (pattern key : bytes) : bool :=
  match pattern with
  | c :: (_ :: _) as pattern_str =>
      if decide (c = "~"%char) then
        if decide (pattern_str = B "*") then true
        else match find_char "*" pattern_str with
             | Some pos =>
                 let prefix := take pos pattern_str in
                 let suffix := drop (pos + 1) pattern_str in
                 (length prefix + length suffix <=? length key) && bool_decide (take (length prefix) key = prefix) &&
                 bool_decide (drop (length key - length suffix) key = suffix)
             | None => bool_decide (key = pattern_str)
             end
      else false
  | _ => false
  end.

Definition CheckKey name key users : bool :=
  match users !! name with
  | None => false
  | Some u => enabled u && (all_keys u || existsb (λ p, pattern_matches p key) (key_patterns u))
  end.

(** ** The context of a worker *)

(** [acl_users] is [None] without a manager. *)
Record Access := MkAccess { acl_users : option Users; authenticated_ : bool; authenticated_user_ : bytes }.
Implicit Types (a : Access) (cmd : Command).

Definition privileged_commands : list bytes := map B ["AUTH"; "PING"; "QUIT"; "HELLO"; "CLIENT"; "INFO"]%string.

Definition CheckCommandPermission a command : bool :=
  match acl_users a with
  | None => true
  | Some users =>
      let upper_cmd := upper command in
      if bool_decide (upper_cmd ∈ privileged_commands) then true
      else if bool_decide (upper_cmd = B "ACL") && authenticated_ a then true
      else if bool_decide (authenticated_user_ a = []) || negb (authenticated_ a) then false
      else CheckCommand (authenticated_user_ a) command users
  end.

Definition CheckKeyPermission a key : bool :=
  match acl_users a with
  | None => true
  | Some users =>
      if bool_decide (authenticated_user_ a = []) || negb (authenticated_ a) then false
      else CheckKey (authenticated_user_ a) key users
  end.

(** ** The commands *)

Definition with_users users a : Access := MkAccess (Some users) (authenticated_ a) (authenticated_user_ a).

Definition HandleAuth cmd a : Access * CommandResult :=
  if (ArgCount cmd <? 1) || (2 <? ArgCount cmd) then (a, Failure (wrong_number (B "auth")))
  else
    let name := arg_text 0 cmd in
    let password := if ArgCount cmd =? 2 then arg_text 1 cmd else [] in
    match acl_users a with
    | None => (a, ok_response)
    | Some users =>
        if Authenticate name password users then (MkAccess (Some users) true name, ok_response)
        else (a, Failure (B "WRONGPASS invalid username-password pair"))
    end.

Definition not_configured : CommandResult := Failure (B "ERR ACL not configured").

Definition HandleAclSave cmd a : Access * CommandResult :=
  if negb (ArgCount cmd =? 0) then (a, Failure (wrong_number (B "acl save"))) else (a, ok_response).
Definition HandleAclLoad cmd a : Access * CommandResult :=
  if negb (ArgCount cmd =? 0) then (a, Failure (wrong_number (B "acl load"))) else (a, ok_response).

Definition HandleAclSetUser cmd a : Access * CommandResult :=
  if ArgCount cmd <? 1 then (a, Failure (wrong_number (B "acl setuser")))
  else match acl_users a with
       | None => (a, not_configured)
       | Some users =>
           let rules := arg_value <$> drop 1 (cmd_args cmd) in
           let rules := if bool_decide (rules = []) then [B "off"; B "nopass"; B "-@all"] else rules in
           (with_users (SetUser (arg_text 0 cmd) rules users) a, ok_response)
       end.

Definition HandleAclDelUser cmd a : Access * CommandResult :=
  if negb (ArgCount cmd =? 1) then (a, Failure (wrong_number (B "acl deluser")))
  else match acl_users a with
       | None => (a, not_configured)
       | Some users => let '(users, deleted) := DeleteUser (arg_text 0 cmd) users in (with_users users a, reply_bool deleted)
       end.

Definition no_user name : CommandResult := Failure (B "ERR User '" ++ name ++ B "' does not exist").

(** The first pattern only. *)
Definition patterns_text (all : bool) (text : bytes) (patterns : list bytes) : bytes := if all then text else default [] (head patterns).

Definition HandleAclGetUser cmd a : Access * CommandResult :=
  if negb (ArgCount cmd =? 1) then (a, Failure (wrong_number (B "acl getuser")))
  else match acl_users a with
       | None => (a, not_configured)
       | Some users =>
           match users !! arg_text 0 cmd with
           | None => (a, no_user (arg_text 0 cmd))
           | Some u =>
               let flags := [if enabled u then B "on" else B "off"] ++ (if all_keys u then [B "allkeys"] else []) ++
                 (if all_channels u then [B "allchannels"] else []) ++ (if no_password u then [B "nopass"] else []) in
               let commands_str := words (categories u) ++ words (commands u) in
               (a, reply_array
                 [resp_string (B "flags"); resp_array (resp_string <$> flags);
                  resp_string (B "passwords"); resp_array (resp_string <$> passwords u);
                  resp_string (B "commands"); resp_string (if bool_decide (commands_str = []) then B "-@all" else commands_str);
                  resp_string (B "keys"); resp_string (patterns_text (all_keys u) (B "~*") (key_patterns u));
                  resp_string (B "channels"); resp_string (patterns_text (all_channels u) (B "&*") (channel_patterns u))])
           end
       end.

Definition HandleAclList cmd a : Access * CommandResult :=
  if negb (ArgCount cmd =? 0) then (a, Failure (wrong_number (B "acl list")))
  else (a, reply_strings (match acl_users a with None => [] | Some users => GetUsers users end)).
Definition HandleAclUsers cmd a : Access * CommandResult :=
  if negb (ArgCount cmd =? 0) then (a, Failure (wrong_number (B "acl users")))
  else (a, reply_strings (match acl_users a with None => [] | Some users => GetUserNames users end)).

Definition acl_categories : list bytes :=
  map B ["@keyspace"; "@read"; "@write"; "@set"; "@sortedset"; "@list"; "@hash"; "@string"; "@bitmap"; "@hyperloglog";
         "@geo"; "@stream"; "@pubsub"; "@admin"; "@fast"; "@slow"; "@blocking"; "@dangerous"; "@connection"; "@transaction";
         "@scripting"]%string.
Definition HandleAclCat cmd a : Access * CommandResult :=
  match acl_users a with
  | None => (a, not_configured)
  | Some _ => (a, if ArgCount cmd =? 0 then reply_strings acl_categories else reply_array [])
  end.

(** [std::stoi] *)
Definition stoi (s : bytes) : option Z :=
  v ← stoll s; if (- 2 ^ 31 <=? v)%Z && (v <? 2 ^ 31)%Z then Some v else None.

Definition genpass_charset : bytes := B "abcdefghijklmnopqrstuvwxyzABCDEFGHIJKLMNOPQRSTUVWXYZ0123456789".
(** [rand i] is the number that the [i]-th call of [rand] gives. *)
Definition HandleAclGenpass (rand : nat → Z) cmd a : Access * CommandResult :=
  match (if 0 <? ArgCount cmd then stoi (arg_text 0 cmd) else Some 256%Z) with
  | None => (a, Failure (B "ERR Invalid bits value"))
  | Some bits =>
      if negb (bits =? 256)%Z && negb (bits =? 128)%Z then (a, Failure (B "ERR Bits value must be 128 or 256"))
      else (a, reply_bulk ((λ i, nth (Z.to_nat (rand i mod zlen genpass_charset)) genpass_charset "a"%char) <$> seq 0 (Z.to_nat (bits / 8))))
  end.

Definition HandleAclWhoami cmd a : Access * CommandResult :=
  (a, reply_bulk (if authenticated_ a then authenticated_user_ a else B "default")).

Definition HandleAclSetpass cmd a : Access * CommandResult :=
  if ArgCount cmd <? 1 then (a, Failure (wrong_number (B "acl setuser")))
  else match acl_users a with
       | None => (a, not_configured)
       | Some users =>
           let password := if 1 <? ArgCount cmd then arg_text 1 cmd else [] in
           (with_users (SetPassword (arg_text 0 cmd) password users) a, ok_response)
       end.

Definition HandleAclGetpass cmd a : Access * CommandResult :=
  if negb (ArgCount cmd =? 1) then (a, Failure (wrong_number (B "acl getuser")))
  else match acl_users a with
       | None => (a, not_configured)
       | Some users =>
           match users !! arg_text 0 cmd with
           | None => (a, no_user (arg_text 0 cmd))
           | Some u => (a, match passwords u with pwd :: _ => reply_bulk (replicate (length pwd) "*"%char) | [] => reply_int (-1) end)
           end
       end.

Definition empty_cmd : Command := MkCommand [] [].
Definition HandleAcl (rand : nat → Z) cmd a : Access * CommandResult :=
  if ArgCount cmd <? 1 then (a, Failure (wrong_number (B "acl")))
  else
    let subcommand := arg_text 0 cmd in
    let subcommand_cmd := MkCommand (cmd_name cmd) (drop 1 (cmd_args cmd)) in
    if decide (subcommand = B "SAVE") then HandleAclSave empty_cmd a
    else if decide (subcommand = B "LOAD") then HandleAclLoad empty_cmd a
    else if decide (subcommand = B "LIST") then HandleAclList empty_cmd a
    else if decide (subcommand = B "USERS") then HandleAclUsers empty_cmd a
    else if decide (subcommand = B "SETUSER") then HandleAclSetUser subcommand_cmd a
    else if decide (subcommand = B "DELUSER") then HandleAclDelUser subcommand_cmd a
    else if decide (subcommand = B "GETUSER") then HandleAclGetUser subcommand_cmd a
    else if decide (subcommand = B "CAT") then HandleAclCat subcommand_cmd a
    else if decide (subcommand = B "GENPASS") then HandleAclGenpass rand subcommand_cmd a
    else if decide (subcommand = B "WHOAMI") then HandleAclWhoami subcommand_cmd a
    else if decide (subcommand = B "SETPASS") then HandleAclSetpass subcommand_cmd a
    else if decide (subcommand = B "GETPASS") then HandleAclGetpass subcommand_cmd a
    else (a, Failure (B "ERR Unknown ACL subcommand '" ++ subcommand ++ B "'")).

(** ** The registry with access control *)

Section AclServer.
Context {HD : DoubleText} {X : Type} (rand : nat → Z).
Implicit Types (env : Env (X * Access)) (w : Worker (X * Access)) (id : Z).

(** The checks read the state of the moment. *)
Definition access_env env a : Env (X * Access) :=
  MkEnv _ (commands_ env) (db_version env)
    (match acl_users a with None => None | Some _ => Some (CheckCommandPermission a, CheckKeyPermission a) end)
    (CheckClusterSlot env) (worker_id_ env) (route env) (is_master env).

Definition on_access (h : Command → Access → Access * CommandResult) : Handler (X * Access) :=
  HData (λ _ cmd d, let '(a, r) := h cmd d.2 in ((d.1, a), Returned r)).
Definition auth_entry : CommandEntry (X * Access) := MkEntry (-2) RouteNone false (on_access HandleAuth).
Definition acl_entry : CommandEntry (X * Access) := MkEntry (-2) RouteNone false (on_access (HandleAcl rand)).

Definition acl_step env id cmd w : Worker (X * Access) * CommandResult := RegistryExecute (access_env env (db w).2) id cmd w.
Fixpoint acl_run env (trace : list (Z * Command)) w : Worker (X * Access) * list CommandResult :=
  match trace with
  | [] => (w, [])
  | (id, cmd) :: trace => let '(w, r) := acl_step env id cmd w in let '(w, rs) := acl_run env trace w in (w, r :: rs)
  end.

(** AUTH and ACL are registered as the source registers them. *)
Definition acl_registered env : Prop := commands_ env !! B "AUTH" = Some auth_entry ∧ commands_ env !! B "ACL" = Some acl_entry.

Lemma normalize_upper s : NormalizeUppercase s = upper s.
Proof.
  unfold NormalizeUppercase, upper. change (to_upper <$> s) with (map to_upper s). destruct (NeedsAsciiUppercase s) eqn:E; [done|].
  unfold NeedsAsciiUppercase in E. induction s as [|c s IH]; [done|]. cbn in *. apply orb_false_iff in E as [E1 E2]. unfold to_upper at 1. rewrite E1. f_equal. by apply IH.
Qed.

(** ** Before anybody is authenticated *)

Definition auth_password cmd : bytes := if ArgCount cmd =? 2 then arg_text 1 cmd else [].
Definition refused users cmd : Prop :=
  upper (cmd_name cmd) ∉ privileged_commands ∨ upper (cmd_name cmd) = B "AUTH" ∧ Authenticate (arg_text 0 cmd) (auth_password cmd) users = false.

Lemma locked_step env id cmd w users :
  acl_registered env → acl_users (db w).2 = Some users → authenticated_ (db w).2 = false → refused users cmd →
  ∃ e, acl_step env id cmd w = (w, Failure e).
Proof.
  intros [Ha _] Hu Hn Hr. unfold acl_step, RegistryExecute. case_bool_decide; [by eexists|]. cbn [commands_ access_env]. rewrite normalize_upper.
  destruct (commands_ env !! upper (cmd_name cmd)) as [e|] eqn:Ee; [|by eexists]. destruct (wrong_arity e cmd); [by eexists|].
  unfold no_permission. cbn [acl access_env]. rewrite Hu. destruct (CheckCommandPermission _ _) eqn:Ec; cbn [negb]; [|by eexists].
  unfold CheckCommandPermission in Ec. rewrite Hu, Hn in Ec. destruct Hr as [Hp|[Hauth Hf]].
  - rewrite bool_decide_eq_false_2, andb_false_r, orb_true_r in Ec by done. done.
  - rewrite Hauth in Ee. assert (e = auth_entry) as -> by congruence.
    rewrite Hauth. assert (bool_decide (B "AUTH" ∈ non_key_commands) = true) as -> by (by vm_compute). cbn [negb andb].
    assert (Hh : ∃ e, HandleAuth cmd (db w).2 = ((db w).2, Failure e)).
    { unfold HandleAuth. destruct ((ArgCount cmd <? 1) || _); [by eexists|]. rewrite Hu. unfold auth_password in Hf. rewrite Hf. by eexists. }
    destruct Hh as [err Hh]. exists err. assert (Hrun : run_handler (access_env env (db w).2) id cmd (handler auth_entry) w = (w, Failure err)).
    { cbn [run_handler handler auth_entry on_access]. rewrite Hh. destruct w as [[x a] st]. done. }
    by destruct (cmd_args cmd).
Qed.

(** C16. As long as nobody is authenticated at the worker, commands other than
    PING, QUIT, HELLO, CLIENT and INFO, and AUTH with a wrong password, change
    nothing and answer errors, whatever connections they come from. *)
Theorem locked_until_auth env trace w users :
  acl_registered env → acl_users (db w).2 = Some users → authenticated_ (db w).2 = false → Forall (λ ic, refused users ic.2) trace →
  let '(w', rs) := acl_run env trace w in w' = w ∧ Forall (λ r, ∃ e, r = Failure e) rs.
Proof.
  intros He Hu Hn Ht. induction Ht as [|[id cmd] trace Hr Ht IH]; [done|]. cbn [acl_run].
  destruct (locked_step env id cmd w users He Hu Hn Hr) as [e ->]. destruct (acl_run env trace w) as [w' rs]. destruct IH as [-> IH]. split; [done|]. constructor; [by exists e|done].
Qed.

(** ** After that *)

Definition as_user name w : Worker (X * Access) := MkWorker ((db w).1, MkAccess (acl_users (db w).2) true name) (store w).

(** The rights of a user for a command: the name, and the first argument when it is
    taken for a key. *)
Definition permitted users name cmd : Prop :=
  CheckCommand name (cmd_name cmd) users = true ∧
  match cmd_args cmd with x :: _ => is_text x = true → CheckKey name (arg_value x) users = true | [] => True end.

Lemma permitted_runs env id cmd w users e :
  acl_users (db w).2 = Some users → authenticated_ (db w).2 = true → authenticated_user_ (db w).2 ≠ [] → permitted users (authenticated_user_ (db w).2) cmd →
  cmd_name cmd ≠ [] → commands_ env !! upper (cmd_name cmd) = Some e → wrong_arity e cmd = false →
  acl_step env id cmd w = run_handler (access_env env (db w).2) id cmd (handler e) w.
Proof.
  intros Hu Ha Hn [Hc Hk] Hne He Har. unfold acl_step, RegistryExecute. rewrite bool_decide_eq_false_2 by done. cbn [commands_ access_env]. rewrite normalize_upper, He, Har.
  unfold no_permission. cbn [acl access_env]. rewrite Hu. assert (CheckCommandPermission (db w).2 (cmd_name cmd) = true) as ->.
  { unfold CheckCommandPermission. rewrite Hu. case_bool_decide; [done|]. destruct (_ && _); [done|]. by rewrite bool_decide_eq_false_2, Ha by done. }
  cbn [negb]. destruct (cmd_args cmd) as [|x args]; [done|]. destruct (is_text x) eqn:Ex; [|by rewrite andb_false_r].
  assert (CheckKeyPermission (db w).2 (arg_value x) = true) as ->; [|by rewrite andb_false_r].
  unfold CheckKeyPermission. rewrite Hu, bool_decide_eq_false_2, Ha by done. by apply Hk.
Qed.

Definition auth_command name (password : bytes) : Command := MkCommand (B "AUTH") [MkArg kBulkString name; MkArg kBulkString password].

(** Authentication belongs to the worker: once one connection has given a password,
    the commands of every connection run with the rights of its user. *)
Theorem auth_is_shared env id name password w users :
  acl_registered env → acl_users (db w).2 = Some users → Authenticate name password users = true → name ≠ [] →
  acl_step env id (auth_command name password) w = (as_user name w, ok_response) ∧
  ∀ id' cmd e, permitted users name cmd → cmd_name cmd ≠ [] → commands_ env !! upper (cmd_name cmd) = Some e → wrong_arity e cmd = false →
    acl_step env id' cmd (as_user name w) = run_handler (access_env env (db (as_user name w)).2) id' cmd (handler e) (as_user name w).
Proof.
  intros [He _] Hu Ha Hn. split.
  - unfold acl_step, RegistryExecute. rewrite bool_decide_eq_false_2 by done. cbn [commands_ access_env cmd_name auth_command].
    change (NormalizeUppercase (B "AUTH")) with (B "AUTH"). rewrite He. change (wrong_arity auth_entry _) with false. unfold no_permission. cbn [acl access_env]. rewrite Hu.
    assert (CheckCommandPermission (db w).2 (cmd_name (auth_command name password)) = true) as -> by (unfold CheckCommandPermission; by rewrite Hu).
    cbn [negb cmd_args auth_command]. assert (bool_decide (B "AUTH" ∈ non_key_commands) = true) as -> by (by vm_compute). cbn [negb andb].
    cbn [run_handler handler auth_entry on_access]. unfold HandleAuth. change (ArgCount (auth_command name password)) with 2. cbn [Nat.ltb Nat.leb orb Nat.eqb]. rewrite Hu.
    change (arg_text 0 _) with name. change (arg_text 1 _) with password. rewrite Ha. unfold as_user. by rewrite Hu.
  - intros id' cmd e Hp Hne Hc Har. by apply (permitted_runs env id' cmd (as_user name w) users).
Qed.

Definition setuser_command name rules : Command :=
  MkCommand (B "ACL") (MkArg kBulkString <$> B "SETUSER" :: name :: rules).

(** C36. Whoever is authenticated may change all users: with one ACL SETUSER a
    user takes every right, whatever rights it had and even after it was deleted. *)
Theorem acl_escalates env id w users :
  acl_registered env → acl_users (db w).2 = Some users → authenticated_ (db w).2 = true → authenticated_user_ (db w).2 ≠ [] →
  let name := authenticated_user_ (db w).2 in
  let '(w', r) := acl_step env id (setuser_command name [B "on"; B "allkeys"; B "+@all"]) w in
  r = ok_response ∧ (db w').1 = (db w).1 ∧ ∀ command key, CheckCommandPermission (db w').2 command = true ∧ CheckKeyPermission (db w').2 key = true.
Proof.
  intros [_ He] Hu Ha Hn name. unfold acl_step, RegistryExecute. rewrite bool_decide_eq_false_2 by done. cbn [commands_ access_env cmd_name setuser_command].
  change (NormalizeUppercase (B "ACL")) with (B "ACL"). rewrite He. change (wrong_arity acl_entry _) with false. unfold no_permission. cbn [acl access_env]. rewrite Hu.
  set (cmd := setuser_command _ _). change (cmd_name cmd) with (B "ACL"). assert (CheckCommandPermission (db w).2 (B "ACL") = true) as -> by (unfold CheckCommandPermission; by rewrite Hu, Ha).
  change (cmd_args cmd) with (MkArg kBulkString <$> [B "SETUSER"; name; B "on"; B "allkeys"; B "+@all"]). cbn [negb fmap list_fmap]. assert (bool_decide (B "ACL" ∈ non_key_commands) = true) as -> by (by vm_compute). cbn [negb andb].
  cbn [run_handler handler acl_entry on_access]. unfold HandleAcl. change (ArgCount _ <? 1) with false. cbv iota. change (arg_text 0 _) with (B "SETUSER").
  repeat (rewrite decide_False by done). rewrite decide_True by done. cbn [cmd_args drop cmd_name]. unfold HandleAclSetUser. change (ArgCount _ <? 1) with false. cbv iota. rewrite Hu.
  change (arg_text 0 _) with name. cbn [cmd_args drop fmap list_fmap arg_value]. rewrite bool_decide_eq_false_2 by done.
  set (users' := SetUser name _ users). split; [done|]. split; [done|]. unfold with_users. cbn [db snd]. intros command key.
  assert (Hl : ∃ u, users' !! name = Some u ∧ enabled u = true ∧ all_keys u = true ∧ commands u = [B "+@all"]).
  { eexists. split; [apply lookup_insert_eq|]. by destruct (users !! name) as [[]|]. }
  destruct Hl as (u & Hl & H1 & H2 & H3). split.
  - unfold CheckCommandPermission. cbn [acl_users]. case_bool_decide; [done|]. destruct (_ && _); [done|]. cbn [authenticated_user_ authenticated_].
    rewrite bool_decide_eq_false_2, Ha by done. cbn [negb orb]. unfold CheckCommand. fold name. rewrite Hl, H1, H3. done.
  - unfold CheckKeyPermission. cbn [acl_users authenticated_user_ authenticated_]. rewrite bool_decide_eq_false_2, Ha by done. unfold CheckKey. fold name. by rewrite Hl, H1, H2.
Qed.
End AclServer.

(** ** Rules *)

(** A rule that takes a command or a category away, other than all of them. *)
Definition keeps_rights rule : Prop := ¬ (head rule = Some "-"%char ∧ rule ≠ B "-@all").
#[local] Instance keeps_rights_dec rule : Decision (keeps_rights rule).
Proof. unfold keeps_rights. apply _. Defined.

Definition similar (u v : AclUser) : Prop :=
  username u = username v ∧ enabled u = enabled v ∧ filter keeps_rights (commands u) = filter keeps_rights (commands v) ∧
  filter keeps_rights (categories u) = filter keeps_rights (categories v).

Lemma similar_elem (l k : list bytes) x : keeps_rights x → filter keeps_rights l = filter keeps_rights k → bool_decide (x ∈ l) = bool_decide (x ∈ k).
Proof.
  intros Hx E. apply bool_decide_ext. split; intros H.
  - assert (H' : x ∈ filter keeps_rights l) by (by apply list_elem_of_filter). rewrite E in H'. by apply list_elem_of_filter in H' as [_ ?].
  - assert (H' : x ∈ filter keeps_rights k) by (by apply list_elem_of_filter). rewrite <- E in H'. by apply list_elem_of_filter in H' as [_ ?].
Qed.

Lemma similar_check u v name command users : similar u v → CheckCommand name command (<[name := u]> users) = CheckCommand name command (<[name := v]> users).
Proof.
  intros (_ & He & Hc & Hg). unfold CheckCommand. rewrite !lookup_insert_eq, He.
  rewrite (similar_elem _ _ (B "-@all") ltac:(by intros [_ ?]) Hc), (similar_elem _ _ (B "+@all") ltac:(by intros [? _]) Hc),
    (similar_elem _ _ (B "allcommands") ltac:(by intros [? _]) Hc), (similar_elem _ _ (B "+" ++ command) ltac:(by intros [? _]) Hc),
    (similar_elem _ _ (B "+@all") ltac:(by intros [? _]) Hg), (similar_elem _ _ (B "allcommands") ltac:(by intros [? _]) Hg). done.
Qed.

Lemma apply_rule_similar u v rule : similar u v → similar (apply_rule u rule) (apply_rule v rule).
Proof.
  intros (H1 & H2 & H3 & H4). unfold apply_rule, similar.
  repeat (case_decide; [cbn; rewrite ?filter_app, ?H1, ?H2, ?H3, ?H4; done|]).
  destruct rule as [|c [|d rule]]; [done..|]. unfold marked_rule. repeat case_decide; cbn; rewrite ?filter_app, ?H1, ?H2, ?H3, ?H4; done.
Qed.
Lemma apply_minus_similar u rule : ¬ keeps_rights rule → similar (apply_rule u rule) u.
Proof.
  intros Hk. assert (Hr : head rule = Some "-"%char ∧ rule ≠ B "-@all") by (unfold keeps_rights in Hk; destruct (decide (head rule = Some "-"%char ∧ rule ≠ B "-@all")); [done|by destruct Hk]).
  destruct Hr as [Hh Hall]. destruct rule as [|c rule]; [done|]. injection Hh as ->. unfold apply_rule.
  do 9 (rewrite decide_False by done). rewrite decide_False by (by intros [?|?]). rewrite decide_False by (by intros [?|?]).
  destruct rule as [|d rule]; [done|]. unfold marked_rule. rewrite decide_True by (by right).
  assert (Hf : filter keeps_rights ["-"%char :: d :: rule] = []) by (rewrite filter_cons_False; [done|by intros H]).
  unfold similar. cbn [username enabled commands categories set_commands]. split; [done|]. split; [done|]. rewrite !filter_app, Hf, app_nil_r. split; [done|].
  case_bool_decide; [by rewrite Hf, app_nil_r|by rewrite app_nil_r].
Qed.

Lemma similar_refl u : similar u u.
Proof. done. Qed.
Lemma similar_trans u v t : similar u v → similar v t → similar u t.
Proof. unfold similar. intros (H1 & H2 & H3 & H4) (H5 & H6 & H7 & H8). by rewrite H1, H2, H3, H4. Qed.

(** Rules that take a single command or category away have no effect on what a user
    may run: with +@all and -FLUSHALL a user may run FLUSHALL. *)
Theorem minus_rules_ignored name rules users command :
  CheckCommand name command (SetUser name rules users) = CheckCommand name command (SetUser name (filter keeps_rights rules) users).
Proof.
  unfold SetUser. apply similar_check. generalize (default (new_user name) (users !! name)) at 1 2. intros u. assert (H := similar_refl u).
  revert H. generalize u at 2 4. revert u. induction rules as [|rule rules IH]; intros u v H; [done|]. rewrite filter_cons. destruct (decide (keeps_rights rule)).
  - apply IH. by apply apply_rule_similar.
  - cbn [foldl]. apply IH. eapply similar_trans; [by apply apply_minus_similar|done].
Qed.

(** After -@all single commands cannot be given back: as long as no rule resets the
    user or allows everything, it may run nothing. *)
Theorem minus_all_sticks name command before after users :
  Forall (λ rule, rule ∉ [B "reset"; B "allcommands"; B "+@all"]) after →
  CheckCommand name command (SetUser name (before ++ B "-@all" :: after) users) = false.
Proof.
  intros Ha. unfold SetUser. rewrite foldl_app. cbn [foldl]. generalize (foldl apply_rule (default (new_user name) (users !! name)) before). intros u.
  assert (Hin : B "-@all" ∈ commands (apply_rule u (B "-@all"))) by (by constructor). revert Hin. generalize (apply_rule u (B "-@all")). clear u. intros u Hin.
  unfold CheckCommand. rewrite lookup_insert_eq. enough (H : B "-@all" ∈ commands (foldl apply_rule u after)).
  { rewrite (bool_decide_eq_true_2 _ H). by destruct (enabled _). }
  revert u Hin. induction Ha as [|rule after Hr Ha IH]; intros u Hin; [done|]. cbn [foldl]. apply IH. unfold apply_rule.
  do 5 (case_decide; [done|]). case_decide; [subst; set_solver|]. do 3 (case_decide; [done|]). case_decide; [naive_solver set_solver|].
  case_decide; [by constructor|]. destruct rule as [|c [|d rule]]; [done..|]. unfold marked_rule. repeat case_decide; cbn; rewrite ?elem_of_app; auto.
Qed.

(** ** Key patterns *)

(** A pattern with one star stands for the keys that start and end as it does; one
    without a star for itself.  A second star is an ordinary character. *)
Theorem pattern_meaning (prefix suffix key : bytes) :
  "*"%char ∉ prefix →
  (pattern_matches ("~"%char :: prefix ++ "*"%char :: suffix) key = true ↔ ∃ x, key = prefix ++ x ++ suffix) ∧
  (prefix ≠ [] → pattern_matches ("~"%char :: prefix) key = true ↔ key = prefix).
Proof.
  intros Hp. split.
  - unfold pattern_matches. destruct (prefix ++ "*"%char :: suffix) as [|c rest] eqn:E; [by destruct prefix|]. rewrite <- E. clear c rest E. rewrite decide_True by done.
    case_decide as E.
    { assert (prefix = [] ∧ suffix = []) as [-> ->]; [|split; [by exists key; rewrite app_nil_r|done]].
      destruct prefix as [|c [|d prefix]]; cbn in E; [by injection E as ->|..]; [|by destruct prefix]. done. }
    rewrite find_char_Some by done. rewrite take_app_length. rewrite (drop_app_ge _ _ (length prefix + 1)) by lia.
    replace (length prefix + 1 - length prefix) with 1 by lia. cbn [drop]. rewrite drop_0, !andb_true_iff, Nat.leb_le, !bool_decide_eq_true. split.
    + intros [[H1 H2] H3]. exists (take (length key - length suffix - length prefix) (drop (length prefix) key)).
      rewrite <- (take_drop (length prefix) key) at 1. rewrite H2. f_equal.
      rewrite <- (take_drop (length key - length suffix - length prefix) (drop (length prefix) key)) at 1. f_equal.
      rewrite drop_drop. transitivity (drop (length key - length suffix) key); [f_equal; lia|done].
    + intros [x ->]. rewrite !length_app. split; [split; [lia|by rewrite take_app_length]|].
      rewrite app_assoc. apply drop_app_length'. rewrite length_app. lia.
  - intros Hne. unfold pattern_matches. destruct prefix as [|c prefix]; [done|]. rewrite decide_True by done.
    rewrite decide_False by (intros E; rewrite E in Hp; apply Hp; by constructor). rewrite (proj2 (find_char_None _ _)) by done. apply bool_decide_eq_true.
Qed.

(** ** The users stay well formed *)

Definition users_ok a : Prop :=
  match acl_users a with
  | None => True
  | Some users => is_Some (users !! B "default") ∧ ∀ name u, users !! name = Some u → username u = name
  end.

Lemma apply_rule_name u rule : username (apply_rule u rule) = username u.
Proof.
  unfold apply_rule. repeat (case_decide; [done|]). destruct rule as [|c [|d rule]]; [done..|]. unfold marked_rule. by repeat case_decide.
Qed.
Lemma apply_rules_name rules : ∀ u, username (foldl apply_rule u rules) = username u.
Proof. induction rules as [|rule rules IH]; intros u; [done|]. cbn [foldl]. by rewrite IH, apply_rule_name. Qed.

Lemma SetUser_ok name rules users a : users_ok (with_users users a) → users_ok (with_users (SetUser name rules users) a).
Proof.
  intros [Hd Hn]. unfold SetUser. split.
  - cbn. destruct (decide (name = B "default")) as [->|Hne]; [rewrite lookup_insert_eq; by eexists|by rewrite lookup_insert_ne].
  - intros k u Hu. apply lookup_insert_Some in Hu as [[<- <-]|[_ Hu]]; [|by apply Hn]. rewrite apply_rules_name.
    destruct (users !! name) as [u|] eqn:E; [|done]. by apply Hn.
Qed.
Lemma DeleteUser_ok name users a : users_ok (with_users users a) → users_ok (with_users (DeleteUser name users).1 a).
Proof.
  intros [Hd Hn]. unfold DeleteUser. destruct (users !! name); [|done]. case_decide; [done|]. split; cbn.
  - by rewrite lookup_delete_ne.
  - intros k u' Hu. apply lookup_delete_Some in Hu as [_ Hu]. by apply Hn.
Qed.
Lemma users_ok_with users a : acl_users a = Some users → users_ok a → users_ok (with_users users a).
Proof. unfold users_ok. by intros ->. Qed.

Lemma HandleAclSetUser_ok cmd a : users_ok a → users_ok (HandleAclSetUser cmd a).1.
Proof.
  intros H. unfold HandleAclSetUser. destruct (_ <? 1); [done|]. destruct (acl_users a) as [users|] eqn:E; [|done]. by apply SetUser_ok, users_ok_with.
Qed.
Lemma HandleAclSetpass_ok cmd a : users_ok a → users_ok (HandleAclSetpass cmd a).1.
Proof.
  intros H. unfold HandleAclSetpass. destruct (_ <? 1); [done|]. destruct (acl_users a) as [users|] eqn:E; [|done]. by apply SetUser_ok, users_ok_with.
Qed.
Lemma HandleAclDelUser_ok cmd a : users_ok a → users_ok (HandleAclDelUser cmd a).1.
Proof.
  intros H. unfold HandleAclDelUser. destruct (negb _); [done|]. destruct (acl_users a) as [users|] eqn:E; [|done].
  assert (Hd := DeleteUser_ok (arg_text 0 cmd) users a (users_ok_with _ _ E H)). by destruct (DeleteUser _ users).
Qed.
Lemma HandleAcl_ok rand cmd a : users_ok a → users_ok (HandleAcl rand cmd a).1.
Proof.
  intros H. unfold HandleAcl. destruct (_ <? 1); [done|]. cbv zeta. do 4 (case_decide; [done|]). case_decide; [by apply HandleAclSetUser_ok|].
  case_decide; [by apply HandleAclDelUser_ok|]. case_decide; [unfold HandleAclGetUser; by repeat case_match|]. case_decide; [unfold HandleAclCat; by case_match|].
  case_decide; [unfold HandleAclGenpass; by repeat case_match|]. case_decide; [done|]. case_decide; [by apply HandleAclSetpass_ok|].
  case_decide; [unfold HandleAclGetpass; by repeat case_match|done].
Qed.
Lemma HandleAuth_ok cmd a : users_ok a → users_ok (HandleAuth cmd a).1.
Proof.
  intros H. unfold HandleAuth. destruct (_ || _); [done|]. destruct (acl_users a) as [users|] eqn:E; [|done].
  destruct (Authenticate _ _ _); [|done]. unfold users_ok in *. by rewrite E in H.
Qed.

(** Whatever commands run, the default user is there and every user has its own
    name. *)
Theorem users_stay_ok {HD : DoubleText} {X : Type} (rand : nat → Z) (env : Env (X * Access)) trace :
  acl_registered rand env →
  (∀ n e, commands_ env !! n = Some e → n ≠ B "AUTH" → n ≠ B "ACL" → ∀ env' id cmd w, (db (run_handler env' id cmd (handler e) w).1).2 = (db w).2) →
  ∀ w, users_ok (db w).2 → users_ok (db (acl_run env trace w).1).2.
Proof.
  intros [Ha Hc] Ho. induction trace as [|[id cmd] trace IH]; intros w Hw; [done|]. cbn [acl_run].
  enough (Hs : users_ok (db (acl_step env id cmd w).1).2).
  { destruct (acl_step env id cmd w) as [w1 r]. specialize (IH w1 Hs). by destruct (acl_run env trace w1). }
  unfold acl_step, RegistryExecute. case_bool_decide; [done|]. cbn [commands_ access_env].
  destruct (commands_ env !! NormalizeUppercase (cmd_name cmd)) as [e|] eqn:E; [|done]. destruct (wrong_arity e cmd); [done|]. destruct (no_permission _ _ _); [done|].
  destruct (decide (NormalizeUppercase (cmd_name cmd) = B "AUTH")) as [En|Hn1].
  { rewrite En in E. assert (e = auth_entry) as -> by congruence. cbn [run_handler handler auth_entry on_access]. assert (Ha' := HandleAuth_ok cmd _ Hw). by destruct (HandleAuth cmd (db w).2). }
  destruct (decide (NormalizeUppercase (cmd_name cmd) = B "ACL")) as [En|Hn2].
  { rewrite En in E. assert (e = acl_entry rand) as -> by congruence. cbn [run_handler handler acl_entry on_access]. assert (Hc' := HandleAcl_ok rand cmd _ Hw). by destruct (HandleAcl rand cmd (db w).2). }
  by rewrite (Ho _ _ E Hn1 Hn2).
Qed.

(** ** Witnesses *)

#[local] Instance small_acl_doubles : DoubleText := {| dtoa _ := []; atod _ := None |}.

(** A store with one data command, and a user who may use it on some keys. *)
Definition small_put (_ : Z) (cmd : Command) (d : gmap bytes bytes * Access) : (gmap bytes bytes * Access) * outcome :=
  ((<[arg_text 0 cmd := arg_text 1 cmd]> d.1, d.2), Returned ok_response).
Definition no_rand (_ : nat) : Z := 0.
Definition small_acl_env : Env (gmap bytes bytes * Access) :=
  MkEnv _ (list_to_map [(B "AUTH", auth_entry); (B "ACL", acl_entry no_rand); (B "SET", MkEntry 3 ByFirstKey true (HData small_put))])
    (λ _ _, 0%Z) None (λ _, []) 0 (λ _, 0%Z) false.
Definition small_users : Users := SetUser (B "bob") [B "on"; B ">pw"; B "~b:*"; B "+SET"] (Init ∅).
Definition small_guarded : Worker (gmap bytes bytes * Access) := MkWorker (∅, MkAccess (Some small_users) false []) ∅.
Definition small_cmd (name : string) (args : list string) : Command := MkCommand (B name) ((λ x, MkArg kBulkString (B x)) <$> args).

Lemma small_registered : acl_registered no_rand small_acl_env.
Proof. done. Qed.

(** What a user may do, what it may not, and what it does then. *)
Example small_session :
  (acl_run small_acl_env
    [(1%Z, small_cmd "SET" ["b:1"; "x"]); (1%Z, small_cmd "AUTH" ["bob"; "pw"]); (2%Z, small_cmd "SET" ["b:1"; "x"]);
     (2%Z, small_cmd "SET" ["c"; "y"]); (2%Z, small_cmd "ACL" ["SETUSER"; "bob"; "allkeys"]); (2%Z, small_cmd "SET" ["c"; "y"])] small_guarded).2 =
  [Failure (B "NOPERM No permissions to execute command 'SET'"); ok_response; ok_response;
   Failure (B "NOPERM No permissions to access key 'c'"); ok_response; ok_response].
Proof. vm_compute. reflexivity. Qed.

Lemma locked_until_auth_witness :
  let '(w', rs) := acl_run small_acl_env [(1%Z, small_cmd "SET" ["b:1"; "x"]); (2%Z, small_cmd "AUTH" ["bob"; "no"])] small_guarded in
  w' = small_guarded ∧ Forall (λ r, ∃ e, r = Failure e) rs.
Proof.
  apply (locked_until_auth no_rand small_acl_env _ small_guarded small_users); [exact small_registered|done|done|].
  constructor; [left; refine (bool_decide_eq_false_1 (_ ∈ privileged_commands) _); vm_compute; reflexivity|]. constructor; [right; split; vm_compute; reflexivity|constructor].
Defined.

Lemma auth_is_shared_witness :
  acl_step small_acl_env 1 (auth_command (B "bob") (B "pw")) small_guarded = (as_user (B "bob") small_guarded, ok_response) ∧
  (acl_step small_acl_env 2 (small_cmd "SET" ["b:1"; "x"]) (as_user (B "bob") small_guarded)).2 = ok_response.
Proof.
  destruct (auth_is_shared no_rand small_acl_env 1 (B "bob") (B "pw") small_guarded small_users small_registered eq_refl) as [H1 H2]; [by vm_compute|done|].
  split; [exact H1|]. rewrite (H2 2%Z (small_cmd "SET" ["b:1"; "x"]) (MkEntry 3 ByFirstKey true (HData small_put))); [done| |done|by vm_compute|by vm_compute].
  split; [by vm_compute|]. intros _. by vm_compute.
Defined.

Lemma acl_escalates_witness :
  let '(w', r) := acl_step small_acl_env 2 (setuser_command (B "bob") [B "on"; B "allkeys"; B "+@all"]) (as_user (B "bob") small_guarded) in
  r = ok_response ∧ (db w').1 = ∅ ∧ ∀ command key, CheckCommandPermission (db w').2 command = true ∧ CheckKeyPermission (db w').2 key = true.
Proof. apply (acl_escalates no_rand small_acl_env 2 (as_user (B "bob") small_guarded) small_users small_registered); done. Defined.

Lemma minus_all_sticks_witness : CheckCommand (B "bob") (B "GET") (SetUser (B "bob") ([B "on"] ++ B "-@all" :: [B "+GET"]) small_users) = false.
Proof. apply minus_all_sticks. repeat constructor; set_solver. Defined.

Lemma pattern_meaning_witness : pattern_matches (B "~b:*x") (B "b:12x") = true ∧ pattern_matches (B "~b:*x") (B "b:12") = false.
Proof.
  assert (H := pattern_meaning (B "b:") (B "x") (B "b:12x") ltac:(set_solver)). split; [apply H; by exists (B "12")|by vm_compute].
Defined.

Lemma users_stay_ok_witness : users_ok (db (acl_run small_acl_env [(1%Z, small_cmd "AUTH" ["bob"; "pw"]); (1%Z, small_cmd "ACL" ["DELUSER"; "default"])] small_guarded).1).2.
Proof.
  apply (users_stay_ok no_rand small_acl_env _ small_registered).
  - intros n e He H1 H2 env' id cmd w. apply elem_of_list_to_map_2 in He. rewrite !elem_of_cons in He. destruct He as [E|[E|[E|E]]]; [..|by apply elem_of_nil in E]; by simplify_eq.
  - split; [by eexists; vm_compute|]. intros name u Hu. unfold small_users, SetUser, Init in Hu. apply lookup_insert_Some in Hu as [[<- <-]|[_ Hu]]; [by vm_compute|].
    apply lookup_insert_Some in Hu as [[<- <-]|[_ Hu]]; [done|by rewrite lookup_empty in Hu].
Defined.
