(* ===== verification/StringCommands.v ===== *)
(** * String and expiry commands

    The handlers of src/astra/commands/redis/string_commands.cpp and ttl_commands.cpp.  Every database
    operation of a handler sees the same time [now]. *)
From Stdlib Require Import SpecFloat.
From S2P Require Import Prelude.
From S2P Require Import Simd.
From S2P Require Import Numbers.
From S2P Require Import RespTypes.
From S2P Require Import KeyMetadata.
From S2P Require Import Sharding.
From S2P Require Import Executor.
From S2P Require Import Text.
From S2P Require Import Rocks.
From S2P Require Import Database.
From S2P Require Import DatabaseTypes.
From S2P Require Import ClusterConfig.
From S2P Require Import Commands.

(** ** The longest common subsequence *)

(** A row of the table [dp] from the one above it: [left] is the cell on the left,
    [prev] the row above from the diagonal cell on. *)
Fixpoint next_row (c : ascii) (s2 : bytes) (left : nat) (prev : list nat) : list nat :=
  match s2, prev with
  | d :: s2, diagonal :: ((above :: _) as prev) =>
      let cell := if ascii_eqb c d then S diagonal else max above left in
      cell :: next_row c s2 cell prev
  | _, _ => []
  end.

(** The rows after a row, one for each character of the first string. *)
Fixpoint dp_rows (s1 s2 : bytes) (row : list nat) : list (list nat) :=
  row :: match s1 with
         | [] => []
         | c :: s1 => dp_rows s1 s2 (0 :: next_row c s2 0 row)
         end.

Definition dp_table (s1 s2 : bytes) : list (list nat) := dp_rows s1 s2 (replicate (S (length s2)) 0).

Definition dp_cell (dp : list (list nat)) (i j : nat) : nat := default 0 (default [] (dp !! i) !! j).

(** The walk back; every turn makes one of the indices smaller. *)
Fixpoint backtrack (fuel : nat) (dp : list (list nat)) (s1 s2 : bytes) (i j : nat) (lcs : bytes) : bytes :=
  match fuel with
  | O => lcs
  | S fuel =>
      match i, j with
      | S i', S j' =>
          match s1 !! i', s2 !! j' with
          | Some c, Some d =>
              if ascii_eqb c d then backtrack fuel dp s1 s2 i' j' (c :: lcs)
              else if dp_cell dp i j' <? dp_cell dp i' j then backtrack fuel dp s1 s2 i' j lcs
              else backtrack fuel dp s1 s2 i j' lcs
          | _, _ => lcs
          end
      | _, _ => lcs
      end
  end.

Definition lcs_string (s1 s2 : bytes) : bytes :=
  backtrack (length s1 + length s2) (dp_table s1 s2) s1 s2 (length s1) (length s2) [].
Definition lcs_length (s1 s2 : bytes) : nat := dp_cell (dp_table s1 s2) (length s1) (length s2).

Section StringCommands.
Context {P : Platform} {HD : DoubleText}.
Implicit Types (cmd : Command) (now : Z).

(** The databases of the workers. *)
Definition on_worker {A} (w : nat) (f : Database → Database * A) : M A := λ c,
  if decide (w = ctx_self c) then on_db f c
  else match ctx_remote c !! w with
       | Some db =>
           let '(db, x) := f db in
           (MkCtx _ (ctx_db c) (ctx_self c) (ctx_workers c) (<[w := db]> (ctx_remote c)) (ctx_cluster c) (ctx_log c) (ctx_more c), inl x)
       | None => (c, inr ThrewUnknown)
       end.

(** A loop that carries a value. *)
Fixpoint mfold {A B} (f : B → A → M B) (b : B) (l : list A) : M B :=
  match l with [] => mret b | x :: l => b ← f b x; mfold f b l end.

Definition owner_of (workers : nat) (key : bytes) : nat := Z.to_nat (CalculateWithTag key mod Z.of_nat workers).

(** The indices whose keys a worker owns. *)
Definition indices_of (workers w : nat) (keys : list bytes) : list nat :=
  filter (λ i, owner_of workers (default [] (keys !! i)) = w) (seq 0 (length keys)).

Definition workers_of : M nat := λ c, (c, inl (ctx_workers c)).
Definition cluster_of : M (option ClusterState) := λ c, (c, inl (ctx_cluster c)).

(** ** GET and SET *)

Definition HandleGet now cmd : M CommandResult :=
  _ ← require (ArgCount cmd =? 1) (wrong_number (B "GET"));
  _ ← require (is_bulk (arg 0 cmd)) (B "ERR wrong type of key argument");
  let key := arg_text 0 cmd in
  cluster ← cluster_of;
  _ ← match CheckKeyRedirect cluster key with
      | Some target => fail (B "-MOVED " ++ print_u64 (CalculateWithTag key) ++ B " " ++ target)
      | None => mret ()
      end;
  value ← on_db (DbGet now key);
  mret (reply_opt value).

(** The options of SET: NX, XX and the expiry time, or the error. *)
Fixpoint set_options now (opts : list CommandArg) (nx xx : bool) (expire : option Z) : (bool * bool * option Z) + bytes :=
  match opts with
  | [] => inl (nx, xx, expire)
  | a :: opts =>
      if negb (is_bulk a) then inr (B "ERR wrong type of option argument")
      else if decide (arg_value a = B "NX") then set_options now opts true xx expire
      else if decide (arg_value a = B "XX") then set_options now opts nx true expire
      else if decide (arg_value a = B "EX") then
        match opts with
        | [] => inr syntax_error
        | n :: opts =>
            if negb (is_bulk n) then inr (B "ERR wrong type of seconds argument")
            else match SimpleAtoi (arg_value n) with
                 | None => inr not_integer
                 | Some seconds =>
                     if (seconds <? 0)%Z then inr (B "ERR invalid expire time")
                     else set_options now opts nx xx (Some (i64 (now + i64 (seconds * 1000))))
                 end
        end
      else if decide (arg_value a = B "PX") then
        match opts with
        | [] => inr syntax_error
        | n :: opts =>
            if negb (is_bulk n) then inr (B "ERR wrong type of milliseconds argument")
            else match SimpleAtoi (arg_value n) with
                 | None => inr not_integer
                 | Some millis =>
                     if (millis <? 0)%Z then inr (B "ERR invalid expire time")
                     else set_options now opts nx xx (Some (i64 (now + millis)))
                 end
        end
      else inr syntax_error
  end.

(** The log gets the absolute expiry time after PX. *)
Definition HandleSet now cmd : M CommandResult :=
  _ ← require (2 <=? ArgCount cmd) (wrong_number (B "SET"));
  _ ← require (is_bulk (arg 0 cmd) && is_bulk (arg 1 cmd)) (B "ERR wrong type of key or value argument");
  let key := arg_text 0 cmd in
  let value := arg_text 1 cmd in
  '(nx, xx, expire) ← match set_options now (drop 2 (cmd_args cmd)) false false None with
                      | inl o => mret o
                      | inr message => fail message
                      end;
  _ ← require (negb (nx && xx)) (B "ERR NX and XX options at the same time are not compatible");
  old ← on_db (DbGet now key);
  let key_exists := bool_decide (is_Some old) in
  if nx && key_exists then mret reply_nil
  else if xx && negb key_exists then mret reply_nil
  else
    _ ← put_db (DbSet now key value);
    _ ← match expire with
        | Some ms => _ ← on_db (DbSetExpireMs key ms); LogToAof (B "SET") [key; value; B "PX"; print_int ms]
        | None => LogToAof (B "SET") [key; value]
        end;
    mret ok_response.

Definition HandleDel now cmd : M CommandResult :=
  _ ← require (negb (ArgCount cmd =? 0)) (wrong_number (B "DEL"));
  _ ← require (all_bulk (cmd_args cmd)) (B "ERR wrong type of key argument");
  let keys := arg_value <$> cmd_args cmd in
  count ← on_db (DbDelMany keys);
  _ ← LogToAof (B "DEL") keys;
  mret (reply_int count).

(** ** Several keys *)

(** With several workers each worker reads its own keys, and the answers are put
    in the order of the arguments. *)
Definition HandleMGet now cmd : M CommandResult :=
  _ ← require (negb (ArgCount cmd =? 0)) (wrong_number (B "MGET"));
  _ ← require (all_bulk (cmd_args cmd)) (B "ERR wrong type of key argument");
  let keys := arg_value <$> cmd_args cmd in
  workers ← workers_of;
  values ←
    (if 1 <? workers then
       mfold (λ acc w,
         mfold (λ (acc : list (option bytes)) (i : nat),
           value ← on_worker w (DbGet now (default [] (keys !! i)));
           mret (<[i := value]> acc)) acc (indices_of workers w keys))
         (replicate (length keys) None) (seq 0 workers)
     else on_db (DbMGet now keys));
  mret (Success (resp_array (bulk_or_nil <$> values))).

(** The pairs of MSET, one after the other, up to a wrong type. *)
Fixpoint mset_loop now (args : list CommandArg) : M () :=
  match args with
  | k :: v :: args =>
      _ ← require (is_bulk k && is_bulk v) (B "ERR wrong type of key or value argument");
      _ ← put_db (DbSet now (arg_value k) (arg_value v));
      mset_loop now args
  | _ => mret ()
  end.

(** The keys of the pairs, and a test of their types. *)
Fixpoint pairs_of (args : list CommandArg) : list (CommandArg * CommandArg) :=
  match args with k :: v :: args => (k, v) :: pairs_of args | _ => [] end.

Definition HandleMSet now cmd : M CommandResult :=
  _ ← require (negb (ArgCount cmd =? 0) && Nat.even (ArgCount cmd)) (wrong_number (B "MSET"));
  workers ← workers_of;
  _ ←
    (if 1 <? workers then
       let pairs := pairs_of (cmd_args cmd) in
       let keys := (λ kv, arg_value kv.1) <$> pairs in
       _ ← require (all_bulk (cmd_args cmd)) (B "ERR wrong type of key or value argument");
       mfold (λ _ w,
         mfold (λ (_ : ()) (i : nat),
           match pairs !! i with
           | Some (k, v) => on_worker w (λ db, (DbSet now (arg_value k) (arg_value v) db, ()))
           | None => mret ()
           end) () (indices_of workers w keys)) () (seq 0 workers)
     else mset_loop now (cmd_args cmd));
  _ ← LogToAof (B "MSET") (arg_value <$> cmd_args cmd);
  mret ok_response.

(** MSETNX: no key may have a value. *)
Fixpoint msetnx_check now (args : list CommandArg) : M bool :=
  match args with
  | k :: _ :: args =>
      _ ← require (is_bulk k) (B "ERR wrong type of key argument");
      existing ← on_db (DbGet now (arg_value k));
      match existing with Some _ => mret false | None => msetnx_check now args end
  | _ => mret true
  end.

Fixpoint msetnx_set now (args : list CommandArg) : M () :=
  match args with
  | k :: v :: args =>
      _ ← require (is_bulk v) (B "ERR wrong type of value argument");
      _ ← put_db (DbSet now (arg_value k) (arg_value v));
      msetnx_set now args
  | _ => mret ()
  end.

Definition HandleMSetNx now cmd : M CommandResult :=
  _ ← require (negb (ArgCount cmd =? 0) && Nat.even (ArgCount cmd)) (wrong_number (B "MSETNX"));
  free ← msetnx_check now (cmd_args cmd);
  if negb free then mret (reply_int 0)
  else
    _ ← msetnx_set now (cmd_args cmd);
    _ ← LogToAof (B "MSETNX") (arg_value <$> cmd_args cmd);
    mret (reply_int 1).

(** ** Numbers *)

(** The number of a key, zero when there is none. *)
Definition number_of (value : option bytes) : M Z :=
  match value with
  | None => mret 0%Z
  | Some s => need (SimpleAtoi s) not_integer
  end.

(** [int_value++] and its like wrap at 64 bits. *)
Definition add_to now (key : bytes) (delta : Z) : M Z :=
  value ← on_db (DbGet now key);
  n ← number_of value;
  let n := i64 (n + delta) in
  _ ← put_db (DbSet now key (print_int n));
  mret n.

Definition HandleIncr now cmd : M CommandResult :=
  _ ← require (ArgCount cmd =? 1) (wrong_number (B "INCR"));
  _ ← require (is_bulk (arg 0 cmd)) (B "ERR wrong type of key argument");
  let key := arg_text 0 cmd in
  n ← add_to now key 1;
  _ ← LogToAof (B "INCR") [key];
  mret (reply_int n).

Definition HandleDecr now cmd : M CommandResult :=
  _ ← require (ArgCount cmd =? 1) (wrong_number (B "DECR"));
  _ ← require (is_bulk (arg 0 cmd)) (B "ERR wrong type of key argument");
  let key := arg_text 0 cmd in
  n ← add_to now key (-1);
  _ ← LogToAof (B "DECR") [key];
  mret (reply_int n).

Definition HandleIncrBy now cmd : M CommandResult :=
  _ ← require (ArgCount cmd =? 2) (wrong_number (B "INCRBY"));
  _ ← require (is_bulk (arg 0 cmd) && is_bulk (arg 1 cmd)) (B "ERR wrong type of argument");
  let key := arg_text 0 cmd in
  increment ← need (SimpleAtoi (arg_text 1 cmd)) not_integer;
  n ← add_to now key increment;
  _ ← LogToAof (B "INCRBY") [key; arg_text 1 cmd];
  mret (reply_int n).

Definition HandleDecrBy now cmd : M CommandResult :=
  _ ← require (ArgCount cmd =? 2) (wrong_number (B "DECRBY"));
  _ ← require (is_bulk (arg 0 cmd) && is_bulk (arg 1 cmd)) (B "ERR wrong type of argument");
  let key := arg_text 0 cmd in
  decrement ← need (SimpleAtoi (arg_text 1 cmd)) not_integer;
  n ← add_to now key (- decrement);
  _ ← LogToAof (B "DECRBY") [key; arg_text 1 cmd];
  mret (reply_int n).

(** A whole number keeps the zeros after its point. *)
Definition HandleIncrByFloat now cmd : M CommandResult :=
  _ ← require (ArgCount cmd =? 2) (wrong_number (B "INCRBYFLOAT"));
  _ ← require (is_bulk (arg 0 cmd) && is_bulk (arg 1 cmd)) (B "ERR wrong type of argument");
  let key := arg_text 0 cmd in
  increment ← need (atod (arg_text 1 cmd)) (B "ERR value is not a valid float");
  value ← on_db (DbGet now key);
  current ← match value with
            | None => mret d0_0
            | Some s => need (atod s) (B "ERR value is not a valid float")
            end;
  let text := trim_fixed (print_fixed 17 (double_add current increment)) in
  _ ← put_db (DbSet now key text);
  mret (reply_bulk text).

(** ** Parts of strings *)

Definition HandleAppend now cmd : M CommandResult :=
  _ ← require (ArgCount cmd =? 2) (wrong_number (B "APPEND"));
  _ ← require (is_bulk (arg 0 cmd) && is_bulk (arg 1 cmd)) (B "ERR wrong type of argument");
  let key := arg_text 0 cmd in
  existing ← on_db (DbGet now key);
  let new_value := default [] existing ++ arg_text 1 cmd in
  _ ← put_db (DbSet now key new_value);
  _ ← LogToAof (B "APPEND") [key; arg_text 1 cmd];
  mret (reply_int (zlen new_value)).

Definition HandleStrlen now cmd : M CommandResult :=
  _ ← require (ArgCount cmd =? 1) (wrong_number (B "STRLEN"));
  _ ← require (is_bulk (arg 0 cmd)) (B "ERR wrong type of key argument");
  value ← on_db (DbGet now (arg_text 0 cmd));
  mret (reply_int (zlen (default [] value))).

Definition HandleGetSet now cmd : M CommandResult :=
  _ ← require (ArgCount cmd =? 2) (wrong_number (B "GETSET"));
  _ ← require (is_bulk (arg 0 cmd) && is_bulk (arg 1 cmd)) (B "ERR wrong type of argument");
  let key := arg_text 0 cmd in
  old ← on_db (DbGet now key);
  _ ← put_db (DbSet now key (arg_text 1 cmd));
  _ ← LogToAof (B "GETSET") [key; arg_text 1 cmd];
  mret (reply_opt old).

Definition HandleSetEx now cmd : M CommandResult :=
  _ ← require (ArgCount cmd =? 3) (wrong_number (B "SETEX"));
  _ ← require (is_bulk (arg 0 cmd) && is_bulk (arg 1 cmd) && is_bulk (arg 2 cmd)) (B "ERR wrong type of argument");
  let key := arg_text 0 cmd in
  seconds ← need (SimpleAtoi (arg_text 1 cmd)) not_integer;
  _ ← require (0 <=? seconds)%Z (B "ERR invalid expire time");
  _ ← put_db (DbSet now key (arg_text 2 cmd));
  _ ← on_db (DbSetExpireSeconds now key seconds);
  _ ← LogToAof (B "SETEX") [key; arg_text 1 cmd; arg_text 2 cmd];
  mret ok_response.

Definition HandleSetNx now cmd : M CommandResult :=
  _ ← require (ArgCount cmd =? 2) (wrong_number (B "SETNX"));
  _ ← require (is_bulk (arg 0 cmd) && is_bulk (arg 1 cmd)) (B "ERR wrong type of argument");
  let key := arg_text 0 cmd in
  old ← on_db (DbGet now key);
  match old with
  | Some _ => mret (reply_int 0)
  | None =>
      _ ← put_db (DbSet now key (arg_text 1 cmd));
      _ ← LogToAof (B "SETNX") [key; arg_text 1 cmd];
      mret (reply_int 1)
  end.

Definition HandleGetRange now cmd : M CommandResult :=
  _ ← require (ArgCount cmd =? 3) (wrong_number (B "GETRANGE"));
  _ ← require (is_bulk (arg 0 cmd) && is_bulk (arg 1 cmd) && is_bulk (arg 2 cmd)) (B "ERR wrong type of argument");
  start ← need (SimpleAtoi (arg_text 1 cmd)) not_integer;
  stop ← need (SimpleAtoi (arg_text 2 cmd)) not_integer;
  result ← on_db (DbGetRange now (arg_text 0 cmd) start stop);
  mret (reply_bulk result).

Definition HandleSubstr now cmd : M CommandResult := HandleGetRange now cmd.

Definition HandleSetRange now cmd : M CommandResult :=
  _ ← require (ArgCount cmd =? 3) (wrong_number (B "SETRANGE"));
  _ ← require (is_bulk (arg 0 cmd) && is_bulk (arg 1 cmd) && is_bulk (arg 2 cmd)) (B "ERR wrong type of argument");
  let key := arg_text 0 cmd in
  offset ← need (SimpleAtoi (arg_text 1 cmd)) not_integer;
  _ ← require (0 <=? offset)%Z (B "ERR offset is out of range");
  n ← on_db (DbSetRange now key offset (arg_text 2 cmd));
  match n with
  | None => throw alloc_what
  | Some n =>
      _ ← LogToAof (B "SETRANGE") [key; arg_text 1 cmd; arg_text 2 cmd];
      mret (reply_int n)
  end.
(** ** Subsequences *)

(** [RespValue("")] is the boolean constructor: a pointer converts to [true]. *)
Definition HandleStrAlgo now cmd : M CommandResult :=
  _ ← require (2 <=? ArgCount cmd) (wrong_number (B "STRALGO"));
  _ ← require (is_bulk (arg 0 cmd)) (B "ERR wrong type of algorithm argument");
  if negb (bool_decide (arg_text 0 cmd = B "LCS")) then fail (B "ERR unknown algorithm for STRALGO")
  else
    _ ← require (3 <=? ArgCount cmd) (B "ERR wrong number of arguments for 'STRALGO LCS'");
    _ ← require (is_bulk (arg 1 cmd) && is_bulk (arg 2 cmd)) (B "ERR wrong type of key argument");
    str1 ← on_db (DbGet now (arg_text 1 cmd));
    str2 ← on_db (DbGet now (arg_text 2 cmd));
    match str1, str2 with
    | Some str1, Some str2 =>
        let has_option := existsb (λ a, is_bulk a && bool_decide (arg_value a ∈ [B "LEN"; B "IDX"])) (drop 3 (cmd_args cmd)) in
        _ ← require (negb has_option) (B "ERR STRALGO LCS IDX/LEN not implemented yet");
        mret (reply_bulk (lcs_string str1 str2))
    | _, _ => mret (Success (resp_bool true))
    end.

Definition HandleLcs now cmd : M CommandResult :=
  _ ← require ((2 <=? ArgCount cmd) && (ArgCount cmd <=? 3)) (wrong_number (B "LCS"));
  _ ← require (is_bulk (arg 0 cmd) && is_bulk (arg 1 cmd)) (B "ERR wrong type of key argument");
  value1 ← on_db (DbGet now (arg_text 0 cmd));
  value2 ← on_db (DbGet now (arg_text 1 cmd));
  match value1, value2 with
  | Some str1, Some str2 =>
      len_only ←
        (if ArgCount cmd =? 3 then
           let option := upper (arg_text 2 cmd) in
           if decide (option = B "LEN") then mret true else fail (B "ERR unknown option '" ++ option ++ B "'")
         else mret false);
      if (len_only : bool) then mret (reply_int (Z.of_nat (lcs_length str1 str2)))
      else mret (reply_bulk (lcs_string str1 str2))
  | _, _ => mret reply_nil
  end.

(** ** Keys *)

Definition HandleExists now cmd : M CommandResult :=
  _ ← require (negb (ArgCount cmd =? 0)) (wrong_number (B "EXISTS"));
  count ← mfold (λ count a,
      _ ← require (is_bulk a) (B "ERR wrong type of key argument");
      t ← on_db (DbGetType now (arg_value a));
      mret (if bool_decide (is_Some t) then count + 1 else count)%Z) 0%Z (cmd_args cmd);
  mret (reply_int count).

(** Options: REPLACE; the argument after DB is skipped. *)
Fixpoint copy_replace (opts : list CommandArg) : bool :=
  match opts with
  | [] => false
  | a :: opts =>
      if is_bulk a && bool_decide (arg_value a = B "REPLACE") then true
      else if is_bulk a && bool_decide (arg_value a = B "DB")
      then match opts with [] => false | _ :: opts => copy_replace opts end
      else copy_replace opts
  end.

Definition HandleCopy now cmd : M CommandResult :=
  _ ← require (2 <=? ArgCount cmd) (wrong_number (B "COPY"));
  _ ← require (is_bulk (arg 0 cmd) && is_bulk (arg 1 cmd)) (B "ERR wrong type of key argument");
  source ← on_db (DbGet now (arg_text 0 cmd));
  match source with
  | None => mret (reply_int 0)
  | Some value =>
      taken ←
        (if copy_replace (drop 2 (cmd_args cmd)) then mret false
         else old ← on_db (DbGet now (arg_text 1 cmd)); mret (bool_decide (is_Some old)));
      if (taken : bool) then mret (reply_int 0)
      else _ ← put_db (DbSet now (arg_text 1 cmd) value); mret (reply_int 1)
  end.

Definition HandleDump now cmd : M CommandResult :=
  _ ← require (ArgCount cmd =? 1) (wrong_number (B "DUMP"));
  _ ← require (is_bulk (arg 0 cmd)) (B "ERR wrong type of key argument");
  value ← on_db (DbGet now (arg_text 0 cmd));
  mret (match value with Some v => reply_bulk (B "1:" ++ v) | None => reply_nil end).

(** [serialized.substr(2)] throws for a text of less than two bytes. *)
Definition HandleRestore now cmd : M CommandResult :=
  _ ← require (3 <=? ArgCount cmd) (wrong_number (B "RESTORE"));
  _ ← require (is_bulk (arg 0 cmd) && is_bulk (arg 1 cmd) && is_bulk (arg 2 cmd)) (B "ERR wrong type of argument");
  let key := arg_text 0 cmd in
  ttl ← need (SimpleAtoi (arg_text 1 cmd)) not_integer;
  _ ← require (0 <=? ttl)%Z not_integer;
  let serialized := arg_text 2 cmd in
  _ ← (if length serialized <? 2 then throw range_what else mret ());
  let replace := existsb (λ a, is_bulk a && bool_decide (arg_value a = B "REPLACE")) (drop 3 (cmd_args cmd)) in
  _ ← (if replace then mret ()
       else old ← on_db (DbGet now key); require (negb (bool_decide (is_Some old))) (B "BUSYKEY Target key name already exists."));
  _ ← put_db (DbSet now key (drop 2 serialized));
  _ ← (if (0 <? ttl)%Z then _ ← on_db (DbSetExpireSeconds now key (Z.quot ttl 1000)); mret () else mret ());
  mret ok_response.

Definition HandleUnlink now cmd : M CommandResult :=
  _ ← require (1 <=? ArgCount cmd) (wrong_number (B "UNLINK"));
  _ ← require (all_bulk (cmd_args cmd)) (B "ERR wrong type of key argument");
  count ← on_db (DbDelMany (arg_value <$> cmd_args cmd));
  mret (reply_int count).

Definition HandleGetDel now cmd : M CommandResult :=
  _ ← require (ArgCount cmd =? 1) (wrong_number (B "GETDEL"));
  _ ← require (is_bulk (arg 0 cmd)) (B "ERR wrong type of key argument");
  value ← on_db (DbGet now (arg_text 0 cmd));
  match value with
  | None => mret reply_nil
  | Some v => _ ← on_db (DbDel (arg_text 0 cmd)); mret (reply_bulk v)
  end.

(** The options of GETEX take effect one after the other. *)
Fixpoint getex_options now (key : bytes) (opts : list CommandArg) : M () :=
  match opts with
  | [] => mret ()
  | a :: opts =>
      let option := upper (arg_value a) in
      if decide (option = B "EX") then
        match opts with
        | [] => fail syntax_error
        | n :: opts =>
            x ← need (SimpleAtoi (arg_value n)) not_integer;
            _ ← require (0 <? x)%Z not_integer;
            _ ← on_db (DbSetExpireSeconds now key x); getex_options now key opts
        end
      else if decide (option = B "PX") then
        match opts with
        | [] => fail syntax_error
        | n :: opts =>
            x ← need (SimpleAtoi (arg_value n)) not_integer;
            _ ← require (0 <? x)%Z not_integer;
            _ ← on_db (DbSetExpireMs key (i64 (now + x))); getex_options now key opts
        end
      else if decide (option = B "EXAT") then
        match opts with
        | [] => fail syntax_error
        | n :: opts =>
            x ← need (SimpleAtoi (arg_value n)) not_integer;
            _ ← require (0 <? x)%Z not_integer;
            _ ← on_db (DbSetExpireMs key (i64 (x * 1000))); getex_options now key opts
        end
      else if decide (option = B "PXAT") then
        match opts with
        | [] => fail syntax_error
        | n :: opts =>
            x ← need (SimpleAtoi (arg_value n)) not_integer;
            _ ← require (0 <? x)%Z not_integer;
            _ ← on_db (DbSetExpireMs key x); getex_options now key opts
        end
      else if decide (option = B "PERSIST") then _ ← on_db (DbPersist key); getex_options now key opts
      else fail syntax_error
  end.

Definition HandleGetEx now cmd : M CommandResult :=
  _ ← require (1 <=? ArgCount cmd) (wrong_number (B "GETEX"));
  _ ← require (is_bulk (arg 0 cmd)) (B "ERR wrong type of key argument");
  let key := arg_text 0 cmd in
  value ← on_db (DbGet now key);
  match value with
  | None => mret reply_nil
  | Some v => _ ← getex_options now key (drop 1 (cmd_args cmd)); mret (reply_bulk v)
  end.

Definition HandleEcho now cmd : M CommandResult :=
  _ ← require (ArgCount cmd =? 1) (wrong_number (B "ECHO"));
  _ ← require (is_bulk (arg 0 cmd)) (B "ERR wrong type of message argument");
  mret (reply_bulk (arg_text 0 cmd)).

Definition HandlePSetEx now cmd : M CommandResult :=
  _ ← require (ArgCount cmd =? 3) (wrong_number (B "PSETEX"));
  _ ← require (is_bulk (arg 0 cmd) && is_bulk (arg 1 cmd) && is_bulk (arg 2 cmd)) (B "ERR wrong type of argument");
  let key := arg_text 0 cmd in
  milliseconds ← need (SimpleAtoi (arg_text 1 cmd)) not_integer;
  _ ← require (0 <? milliseconds)%Z not_integer;
  _ ← put_db (DbSet now key (arg_text 2 cmd));
  _ ← on_db (DbSetExpireMs key (i64 (now + milliseconds)));
  mret ok_response.

(** ** Registration *)

(** The handlers with their arities, their routes and whether they write. *)
Definition string_table : list (bytes * (Z * RoutingStrategy * bool * (Z → Command → M CommandResult))) :=
  [(B "GET", (2, ByFirstKey, false, HandleGet)); (B "SET", (-3, ByFirstKey, true, HandleSet));
   (B "DEL", (-2, ByFirstKey, true, HandleDel)); (B "MGET", (-2, RouteNone, false, HandleMGet));
   (B "MSET", (-3, RouteNone, true, HandleMSet)); (B "MSETNX", (-3, RouteNone, true, HandleMSetNx));
   (B "EXISTS", (-2, ByFirstKey, false, HandleExists)); (B "INCR", (2, ByFirstKey, true, HandleIncr));
   (B "DECR", (2, ByFirstKey, true, HandleDecr)); (B "INCRBY", (3, ByFirstKey, true, HandleIncrBy));
   (B "DECRBY", (3, ByFirstKey, true, HandleDecrBy)); (B "INCRBYFLOAT", (3, ByFirstKey, true, HandleIncrByFloat));
   (B "APPEND", (3, ByFirstKey, true, HandleAppend)); (B "STRLEN", (2, ByFirstKey, false, HandleStrlen));
   (B "GETSET", (3, ByFirstKey, true, HandleGetSet)); (B "SETEX", (4, ByFirstKey, true, HandleSetEx));
   (B "SETNX", (3, ByFirstKey, true, HandleSetNx)); (B "PSETEX", (4, ByFirstKey, true, HandlePSetEx));
   (B "GETRANGE", (4, ByFirstKey, false, HandleGetRange)); (B "SETRANGE", (4, ByFirstKey, true, HandleSetRange));
   (B "STRALGO", (-2, RouteNone, false, HandleStrAlgo)); (B "SUBSTR", (4, ByFirstKey, false, HandleSubstr));
   (B "ECHO", (2, RouteNone, false, HandleEcho)); (B "LCS", (-3, ByFirstKey, false, HandleLcs));
   (B "COPY", (-3, ByFirstKey, true, HandleCopy)); (B "DUMP", (2, ByFirstKey, false, HandleDump));
   (B "RESTORE", (-3, ByFirstKey, true, HandleRestore)); (B "UNLINK", (-2, ByFirstKey, true, HandleUnlink));
   (B "GETDEL", (2, ByFirstKey, true, HandleGetDel)); (B "GETEX", (-2, ByFirstKey, true, HandleGetEx))]%Z.

(** The commands of a worker: the string commands at a time, and the transaction
    commands. *)
Definition string_entries now : list (bytes * CommandEntry Ctx) :=
  (λ '(name, (arity, route, write, h)), (name, MkEntry arity route write (HData (λ _ cmd, run (h now cmd))))) <$> string_table.
Definition transaction_entries : list (bytes * CommandEntry Ctx) :=
  [(B "MULTI", MkEntry 1 RouteNone false HMulti); (B "EXEC", MkEntry 1 RouteNone false HExec);
   (B "DISCARD", MkEntry 1 RouteNone false HDiscard); (B "WATCH", MkEntry (-2) RouteNone false HWatch);
   (B "UNWATCH", MkEntry 1 RouteNone false HUnwatch)].
End StringCommands.

(** ** Expiry commands

    The handlers of src/astra/commands/redis/ttl_commands.cpp. *)

Section TtlCommands.
Context {P : Platform}.
Implicit Types (cmd : Command) (now : Z) (key : bytes).

(** A time that is not in the future deletes the key. *)
Definition expire_now now key : M CommandResult :=
  found ← on_db (DbExists now key);
  if negb found then mret (reply_int 0) else _ ← on_db (DbDel key); mret (reply_int 1).

(** EXPIRE, EXPIREAT, PEXPIRE and PEXPIREAT: [deadline] is the time of expiry for
    the number, [past] whether it has come. *)
Definition expire_with (name what : bytes) (past : Z → bool) (deadline : Z → Z) now cmd : M CommandResult :=
  _ ← require (ArgCount cmd =? 2) (wrong_number name);
  _ ← require (is_bulk (arg 0 cmd)) (B "ERR wrong type of key argument");
  _ ← require (is_bulk (arg 1 cmd)) (B "ERR wrong type of " ++ what ++ B " argument");
  n ← need (strtoll (arg_text 1 cmd)) not_integer;
  if past n then expire_now now (arg_text 0 cmd)
  else success ← on_db (DbSetExpireMs (arg_text 0 cmd) (deadline n)); mret (reply_bool success).

(** [SetExpireSeconds] adds the seconds to the time. *)
Definition HandleExpire now : Command → M CommandResult :=
  expire_with (B "EXPIRE") (B "seconds") (λ n, n <=? 0)%Z (λ n, i64 (now + n * 1000)) now.
Definition HandleExpireAt now : Command → M CommandResult :=
  expire_with (B "EXPIREAT") (B "timestamp") (λ n, i64 (n * 1000) <=? Z.quot now 1000 * 1000)%Z (λ n, i64 (n * 1000)) now.
Definition HandlePExpire now : Command → M CommandResult :=
  expire_with (B "PEXPIRE") (B "milliseconds") (λ n, n <=? 0)%Z (λ n, i64 (now + n)) now.
Definition HandlePExpireAt now : Command → M CommandResult :=
  expire_with (B "PEXPIREAT") (B "timestamp") (λ n, n <=? now)%Z (λ n, n) now.

(** A command that answers a number about a key. *)
Definition about_key (name : bytes) (f : bytes → Database → Database * Z) cmd : M CommandResult :=
  _ ← require (ArgCount cmd =? 1) (wrong_number name);
  _ ← require (is_bulk (arg 0 cmd)) (B "ERR wrong type of key argument");
  n ← on_db (f (arg_text 0 cmd));
  mret (reply_int n).

Definition HandleTTL now : Command → M CommandResult := about_key (B "TTL") (λ key db, (db, DbGetTtlSeconds now key db)).
Definition HandlePTTL now : Command → M CommandResult := about_key (B "PTTL") (λ key db, (db, DbGetTtlMs now key db)).
Definition HandlePersist now : Command → M CommandResult :=
  about_key (B "PERSIST") (λ key db, let '(db, success) := DbPersist key db in (db, if success then 1 else 0)%Z).

(** A key without an expiry time is answered as one that does not exist. *)
Definition HandleExpireTime now : Command → M CommandResult :=
  about_key (B "EXPIRETIME") (λ key db, (db, match DbGetExpireTimeMs now key db with Some t => Z.quot t 1000 | None => -2 end)%Z).
Definition HandlePExpireTime now : Command → M CommandResult :=
  about_key (B "PEXPIRETIME") (λ key db, (db, default (-2)%Z (DbGetExpireTimeMs now key db))).

Definition ttl_table : list (bytes * (Z * RoutingStrategy * bool * (Z → Command → M CommandResult))) :=
  [(B "EXPIRE", (3, ByFirstKey, true, HandleExpire)); (B "EXPIREAT", (3, ByFirstKey, true, HandleExpireAt));
   (B "PEXPIRE", (3, ByFirstKey, true, HandlePExpire)); (B "PEXPIREAT", (3, ByFirstKey, true, HandlePExpireAt));
   (B "EXPIRETIME", (2, ByFirstKey, false, HandleExpireTime)); (B "PEXPIRETIME", (2, ByFirstKey, false, HandlePExpireTime));
   (B "TTL", (2, ByFirstKey, false, HandleTTL)); (B "PTTL", (2, ByFirstKey, false, HandlePTTL));
   (B "PERSIST", (2, ByFirstKey, true, HandlePersist))]%Z.
End TtlCommands.
