(* ===== verification/HashCommands.v ===== *)
(** * Hash commands

    The handlers of src/astra/commands/redis/hash_commands.cpp.  Every database
    operation of a handler sees the same time [now].  HRANDFIELD takes the order
    that the shuffle gives the indices, and the generator it draws from. *)
From Stdlib Require Import SpecFloat.
From S2P Require Import Prelude.
From S2P Require Import Simd.
From S2P Require Import Numbers.
From S2P Require Import Text.
From S2P Require Import RespTypes.
From S2P Require Import Executor.
From S2P Require Import KeyMetadata.
From S2P Require Import Eviction.
From S2P Require Import Rocks.
From S2P Require Import Database.
From S2P Require Import DatabaseTypes.
From S2P Require Import PubSub.
From S2P Require Import Commands.
From S2P Require Import StringCommands.

(** ** Incremental iteration *)

(** The pattern of HSCAN and SSCAN.  [back] of an empty pattern does not decide
    anything, since the pattern must be longer than one character there. *)
Definition scan_matches (pattern text : bytes) : bool :=
  let star c := bool_decide (c = Some "*"%char) in
  if decide (pattern = B "*") then true
  else if star (head pattern) && star (last pattern) && (1 <? length pattern) then
    contains (take (length pattern - 2) (drop 1 pattern)) text
  else if star (head pattern) && (1 <? length pattern) then ends_with (drop 1 pattern) text
  else if star (last pattern) && (1 <? length pattern) then starts_with (take (length pattern - 1) pattern) text
  else bool_decide (text = pattern).

(** The options: the pattern and the count, or the error. *)
Fixpoint scan_options `{!AbslNumbers} (args : list CommandArg) (pattern : bytes) (count : Z) : (bytes * Z) + bytes :=
  match args with
  | [] => inl (pattern, count)
  | a :: args =>
      if negb (is_bulk a) then inr (B "ERR wrong type of option argument")
      else match args with
           | [] => inl (pattern, count)
           | x :: rest =>
               if decide (arg_value a = B "MATCH") then scan_options rest (arg_value x) count
               else if decide (arg_value a = B "COUNT") then
                 match SimpleAtou (arg_value x) with
                 | None => inr not_integer
                 | Some count => scan_options rest pattern count
                 end
               else scan_options args pattern count
           end
  end.

(** A page: the entries from the cursor on, and the next cursor. *)
Definition scan_page {A} (matched : list A) (cursor count : Z) : list A * Z :=
  let stop := Z.min (u64 (cursor + count)) (zlen matched) in
  (take (Z.to_nat (stop - cursor)) (drop (Z.to_nat cursor) matched),
   if (zlen matched <=? stop)%Z then 0%Z else stop).

Definition scan_reply (cursor : Z) (entries : list RespValue) : CommandResult :=
  reply_array [resp_string (print_u64 cursor); resp_array entries].

Section HashCommands.
Context {P : Platform} {HD : DoubleText}.
Implicit Types (cmd : Command) (now : Z) (key field : bytes).

(** A loop of the handler with a counter. *)
Definition count_if (b : bool) (n : Z) : Z := if b then (n + 1)%Z else n.

(** ** Fields and values *)

Fixpoint hset_loop now key (message : bytes) (args : list CommandArg) (added : Z) : M Z :=
  match args with
  | f :: v :: args =>
      _ ← require (is_bulk f && is_bulk v) message;
      result ← on_db (DbHSet now key (arg_value f) (arg_value v));
      hset_loop now key message args (count_if result added)
  | _ => mret added
  end.

Definition HandleHSet now cmd : M CommandResult :=
  _ ← require (negb ((ArgCount cmd <? 3) || negb ((ArgCount cmd - 1) mod 2 =? 0))) (wrong_number (B "HSET"));
  _ ← require (is_bulk (arg 0 cmd)) (B "ERR wrong type of key argument");
  added ← hset_loop now (arg_text 0 cmd) (B "ERR wrong type of argument") (drop 1 (cmd_args cmd)) 0;
  mret (reply_int added).

Definition HandleHGet now cmd : M CommandResult :=
  _ ← require (ArgCount cmd =? 2) (wrong_number (B "HGET"));
  _ ← require (is_bulk (arg 0 cmd) && is_bulk (arg 1 cmd)) (B "ERR wrong type of argument");
  value ← on_db (DbHGet now (arg_text 0 cmd) (arg_text 1 cmd));
  mret (reply_opt value).

Definition HandleHDel now cmd : M CommandResult :=
  _ ← require (negb (ArgCount cmd <? 2)) (wrong_number (B "HDEL"));
  _ ← require (is_bulk (arg 0 cmd)) (B "ERR wrong type of key argument");
  fields ← bulk_args (drop 1 (cmd_args cmd)) (B "ERR wrong type of field argument");
  count ← on_db (DbHDelMany now (arg_text 0 cmd) fields);
  mret (reply_int count).

Definition HandleHExists now cmd : M CommandResult :=
  _ ← require (ArgCount cmd =? 2) (wrong_number (B "HEXISTS"));
  _ ← require (is_bulk (arg 0 cmd) && is_bulk (arg 1 cmd)) (B "ERR wrong type of argument");
  found ← on_db (DbHExists now (arg_text 0 cmd) (arg_text 1 cmd));
  mret (reply_bool found).

Definition HandleHIncrByFloat now cmd : M CommandResult :=
  _ ← require (ArgCount cmd =? 3) (wrong_number (B "HINCRBYFLOAT"));
  _ ← require (is_bulk (arg 0 cmd) && is_bulk (arg 1 cmd) && is_bulk (arg 2 cmd)) (B "ERR wrong type of argument");
  let key := arg_text 0 cmd in
  let field := arg_text 1 cmd in
  increment ← need (atod (arg_text 2 cmd)) (B "ERR value is not a valid float");
  new_value ← on_db (DbHIncrByFloat key field increment);
  _ ← LogToAof (B "HINCRBYFLOAT") [key; field; arg_text 2 cmd];
  mret (Success (resp_double new_value)).

(** HGETALL, HKEYS and HVALS differ in what they take of the pairs. *)
Definition all_pairs (name : bytes) (f : bytes * bytes → list RespValue) now cmd : M CommandResult :=
  _ ← require (ArgCount cmd =? 1) (wrong_number name);
  _ ← require (is_bulk (arg 0 cmd)) (B "ERR wrong type of key argument");
  hash ← on_db (DbHGetAll now (arg_text 0 cmd));
  mret (reply_array (concat (f <$> hash))).

Definition HandleHGetAll : Z → Command → M CommandResult := all_pairs (B "HGETALL") (λ fv, [resp_string fv.1; resp_string fv.2]).
Definition HandleHKeys : Z → Command → M CommandResult := all_pairs (B "HKEYS") (λ fv, [resp_string fv.1]).
Definition HandleHVals : Z → Command → M CommandResult := all_pairs (B "HVALS") (λ fv, [resp_string fv.2]).

Definition HandleHLen now cmd : M CommandResult :=
  _ ← require (ArgCount cmd =? 1) (wrong_number (B "HLEN"));
  _ ← require (is_bulk (arg 0 cmd)) (B "ERR wrong type of key argument");
  len ← on_db (DbHLen now (arg_text 0 cmd));
  mret (reply_int (i64 len)).

Definition HandleHIncrBy now cmd : M CommandResult :=
  _ ← require (ArgCount cmd =? 3) (wrong_number (B "HINCRBY"));
  _ ← require (is_bulk (arg 0 cmd) && is_bulk (arg 1 cmd) && is_bulk (arg 2 cmd)) (B "ERR wrong type of argument");
  increment ← need (SimpleAtoi (arg_text 2 cmd)) not_integer;
  result ← on_db (DbHIncrBy (arg_text 0 cmd) (arg_text 1 cmd) increment);
  mret (reply_int result).

Definition HandleHSetNx now cmd : M CommandResult :=
  _ ← require (ArgCount cmd =? 3) (wrong_number (B "HSETNX"));
  _ ← require (is_bulk (arg 0 cmd) && is_bulk (arg 1 cmd) && is_bulk (arg 2 cmd)) (B "ERR wrong type of argument");
  result ← on_db (DbHSetNx (arg_text 0 cmd) (arg_text 1 cmd) (arg_text 2 cmd));
  mret (reply_bool result).

(** A missing field is a default value, of type null. *)
Definition value_or_null (v : option bytes) : RespValue := match v with Some s => resp_string s | None => resp_of_type kNull end.

Definition HandleHMGet now cmd : M CommandResult :=
  _ ← require (negb (ArgCount cmd <? 2)) (wrong_number (B "HMGET"));
  _ ← require (is_bulk (arg 0 cmd)) (B "ERR wrong type of key argument");
  fields ← bulk_args (drop 1 (cmd_args cmd)) (B "ERR wrong type of field argument");
  results ← on_db (DbHMGet now (arg_text 0 cmd) fields);
  mret (reply_array (value_or_null <$> results)).

Definition HandleHStrLen now cmd : M CommandResult :=
  _ ← require (ArgCount cmd =? 2) (wrong_number (B "HSTRLEN"));
  _ ← require (is_bulk (arg 0 cmd) && is_bulk (arg 1 cmd)) (B "ERR wrong type of argument");
  value ← on_db (DbHGet now (arg_text 0 cmd) (arg_text 1 cmd));
  mret (reply_int (zlen (default [] value))).

(** Fields, each with its value. *)
Fixpoint with_values now key (fields : list bytes) : M (list RespValue) :=
  match fields with
  | [] => mret []
  | field :: fields =>
      value ← on_db (DbHGet now key field);
      rest ← with_values now key fields;
      mret (resp_string field :: bulk_or_nil value :: rest)
  end.

(** So many indices below [n]. *)
Fixpoint draw_indices (times : nat) (n : Z) (r : rng) : list nat :=
  match times with
  | 0 => []
  | S times => let '(idx, r) := uniform n r in Z.to_nat idx :: draw_indices times n r
  end.

(** [shuffled n] is the order of the indices below [n]. *)
Definition HandleHRandField (shuffled : nat → list nat) (r : rng) now cmd : M CommandResult :=
  _ ← require (negb ((ArgCount cmd <? 1) || (3 <? ArgCount cmd))) (wrong_number (B "HRANDFIELD"));
  _ ← require (is_bulk (arg 0 cmd)) (B "ERR wrong type of key argument");
  let key := arg_text 0 cmd in
  all_data ← on_db (DbHGetAll now key);
  match all_data with
  | [] => mret (Success (resp_of_type kNullArray))
  | _ =>
      let all_fields := fst <$> all_data in
      count ← (if 2 <=? ArgCount cmd then
                 _ ← require (is_bulk (arg 1 cmd)) (B "ERR wrong type of count argument");
                 need (SimpleAtoi (arg_text 1 cmd)) not_integer
               else mret 1%Z);
      with_vals ← (if 3 <=? ArgCount cmd then
                     _ ← require (is_bulk (arg 2 cmd)) (B "ERR wrong type of option argument");
                     mret (bool_decide (arg_text 2 cmd = B "WITHVALUES"))
                   else mret false);
      let indices :=
        if (0 <? count)%Z then take (Z.to_nat (Z.min count (zlen all_fields))) (shuffled (length all_fields))
        else draw_indices (Z.to_nat (u64 (- count))) (zlen all_fields) r in
      let random_fields := omap (λ i, all_fields !! i) indices in
      if (with_vals : bool) then result ← with_values now key random_fields; mret (reply_array result)
      else mret (reply_strings random_fields)
  end.

Definition HandleHMSet now cmd : M CommandResult :=
  _ ← require (negb ((ArgCount cmd <? 3) || (ArgCount cmd mod 2 =? 0))) (wrong_number (B "HMSET"));
  _ ← require (is_bulk (arg 0 cmd)) (B "ERR wrong type of key argument");
  _ ← hset_loop now (arg_text 0 cmd) (B "ERR wrong type of field or value argument") (drop 1 (cmd_args cmd)) 0;
  mret ok_response.

(** Whether the type of the key is a hash. *)
Definition is_hash now key : M bool :=
  t ← on_db (DbGetType now key); mret (bool_decide (t = Some KeyMetadata.kHash)).

Definition HandleHTTL now cmd : M CommandResult :=
  _ ← require (negb (ArgCount cmd <? 2)) (wrong_number (B "HTTL"));
  _ ← require (is_bulk (arg 0 cmd)) (B "ERR wrong type of key argument");
  found ← is_hash now (arg_text 0 cmd);
  if negb found then mret (reply_array (replicate (ArgCount cmd - 1) (resp_int (-2))))
  else
    fields ← bulk_args (drop 1 (cmd_args cmd)) (B "ERR wrong type of field argument");
    mret (reply_array ((λ _ : bytes, resp_int (-1)) <$> fields)).

Definition HandleHScan now cmd : M CommandResult :=
  _ ← require (negb (ArgCount cmd <? 2)) (wrong_number (B "HSCAN"));
  _ ← require (is_bulk (arg 0 cmd) && is_bulk (arg 1 cmd)) (B "ERR wrong type of argument");
  let key := arg_text 0 cmd in
  cursor ← need (SimpleAtou (arg_text 1 cmd)) (B "ERR invalid cursor");
  all_data ← on_db (DbHGetAll now key);
  match scan_options (drop 2 (cmd_args cmd)) (B "*") 10 with
  | inr message => fail message
  | inl (pattern, count) =>
      let matched_fields := filter (λ f, scan_matches pattern f = true) (fst <$> all_data) in
      let '(page, new_cursor) := scan_page matched_fields cursor count in
      result ← with_values now key page;
      mret (scan_reply new_cursor result)
  end.

(** ** Expiry times of fields

    The times are kept and shown by the commands below; the reads above do not
    look at them. *)

Definition field_expires : M (gmap bytes (gmap bytes Z)) := on_more (λ x, (x, g_hash_field_expires x)).
Definition put_field_expires (m : gmap bytes (gmap bytes Z)) : M () := on_more (λ x,
  (MkExtras _ m (blocking_manager x) (blocking_sent x) (connection_id x) (has_connection x) (batch_answers x), ())).

Definition field_deadline key field (m : gmap bytes (gmap bytes Z)) : option Z := fields ← m !! key; fields !! field.

Definition IsHashFieldExpired now key field (m : gmap bytes (gmap bytes Z)) : bool :=
  match field_deadline key field m with Some t => (t <=? now)%Z | None => false end.

Definition CleanupExpiredHashFields now key : M () :=
  m ← field_expires;
  match m !! key with
  | None => mret ()
  | Some fields =>
      let expired_fields := fst <$> filter (λ ft : bytes * Z, (ft.2 <= now)%Z) (map_to_list fields) in
      _ ← mfold (λ (_ : ()) field, _ ← on_db (DbHDel now key field); mret ()) () expired_fields;
      put_field_expires (<[key := foldl (λ fields field, delete field fields) fields expired_fields]> m)
  end.

Definition GetHashFieldTtlMs now key field (m : gmap bytes (gmap bytes Z)) : Z :=
  match field_deadline key field m with
  | None => -1
  | Some t => let ttl_ms := i64 (t - now) in if ttl_ms <=? 0 then -2 else ttl_ms
  end%Z.

(** The key is a hash and has the field; [missing] is the answer otherwise. *)
Definition need_field now key field (missing : Z) : M () :=
  found ← is_hash now key;
  if negb found then stop (reply_int missing)
  else
    found ← on_db (DbHExists now key field);
    if negb found then stop (reply_int missing) else mret ().

(** NX, XX, GT and LT. *)
Fixpoint expire_options (opts : list CommandArg) (nx xx gt lt : bool) : option (bool * bool * bool * bool) :=
  match opts with
  | [] => Some (nx, xx, gt, lt)
  | a :: opts =>
      let option := upper (arg_value a) in
      if decide (option = B "NX") then expire_options opts true xx gt lt
      else if decide (option = B "XX") then expire_options opts nx true gt lt
      else if decide (option = B "GT") then expire_options opts nx xx true lt
      else if decide (option = B "LT") then expire_options opts nx xx gt true
      else None
  end.

(** HEXPIRE, HEXPIREAT, HPEXPIRE and HPEXPIREAT: the number is in units of [unit]
    milliseconds, and counts from now or from 1970. *)
Definition hash_expire (name : bytes) (absolute : bool) (unit : Z) now cmd : M CommandResult :=
  _ ← require (negb (ArgCount cmd <? 3)) (wrong_number name);
  _ ← require (is_bulk (arg 0 cmd) && is_bulk (arg 1 cmd) && is_bulk (arg 2 cmd)) (B "ERR wrong type of argument");
  let key := arg_text 0 cmd in
  let field := arg_text 1 cmd in
  _ ← need_field now key field 0;
  n ← need (SimpleAtoi (arg_text 2 cmd)) not_integer;
  _ ← require (negb (n <=? 0)%Z) not_integer;
  options ← need (expire_options (drop 3 (cmd_args cmd)) false false false false) syntax_error;
  let '(nx, xx, gt, lt) := options in
  m ← field_expires;
  let current_ttl := GetHashFieldTtlMs now key field m in
  let none := (current_ttl =? -1)%Z in
  let amount := i64 (n * unit) in
  let current := if absolute then i64 (now + current_ttl) else current_ttl in
  if nx && negb none || xx && none || gt && (none || (amount <=? current)%Z) || lt && (none || (current <=? amount)%Z)
  then mret (reply_int 0)
  else
    _ ← put_field_expires (<[key := <[field := if absolute then amount else i64 (now + amount)]> (default ∅ (m !! key))]> m);
    mret (reply_int 1).

Definition HandleHExpire : Z → Command → M CommandResult := hash_expire (B "HEXPIRE") false 1000.
Definition HandleHExpireAt : Z → Command → M CommandResult := hash_expire (B "HEXPIREAT") true 1000.
Definition HandleHPExpire : Z → Command → M CommandResult := hash_expire (B "HPEXPIRE") false 1.
Definition HandleHPExpireAt : Z → Command → M CommandResult := hash_expire (B "HPEXPIREAT") true 1.

(** HEXPIRETIME and HPEXPIRETIME *)
Definition hash_expire_time (name : bytes) (unit : Z) now cmd : M CommandResult :=
  _ ← require (ArgCount cmd =? 2) (wrong_number name);
  _ ← require (is_bulk (arg 0 cmd) && is_bulk (arg 1 cmd)) (B "ERR wrong type of argument");
  _ ← need_field now (arg_text 0 cmd) (arg_text 1 cmd) (-2);
  m ← field_expires;
  mret (reply_int (match field_deadline (arg_text 0 cmd) (arg_text 1 cmd) m with
                   | None => -1
                   | Some t => if t <=? now then -1 else Z.quot t unit
                   end%Z)).

Definition HandleHExpireTime : Z → Command → M CommandResult := hash_expire_time (B "HEXPIRETIME") 1000.
Definition HandleHPExpireTime : Z → Command → M CommandResult := hash_expire_time (B "HPEXPIRETIME") 1.

Definition HandleHPersist now cmd : M CommandResult :=
  _ ← require (ArgCount cmd =? 2) (wrong_number (B "HPERSIST"));
  _ ← require (is_bulk (arg 0 cmd) && is_bulk (arg 1 cmd)) (B "ERR wrong type of argument");
  let key := arg_text 0 cmd in
  _ ← need_field now key (arg_text 1 cmd) 0;
  m ← field_expires;
  match m !! key with
  | None => mret (reply_int 0)
  | Some fields =>
      let fields := delete (arg_text 1 cmd) fields in
      _ ← put_field_expires (if decide (fields = ∅) then delete key m else <[key := fields]> m);
      mret (reply_int 1)
  end.

Definition HandleHPTTL now cmd : M CommandResult :=
  _ ← require (ArgCount cmd =? 2) (wrong_number (B "HPTTL"));
  _ ← require (is_bulk (arg 0 cmd) && is_bulk (arg 1 cmd)) (B "ERR wrong type of argument");
  _ ← need_field now (arg_text 0 cmd) (arg_text 1 cmd) (-2);
  m ← field_expires;
  mret (reply_int (GetHashFieldTtlMs now (arg_text 0 cmd) (arg_text 1 cmd) m)).

(** ** Registration *)

Definition hash_table (shuffled : nat → list nat) (r : rng)
    : list (bytes * (Z * RoutingStrategy * bool * (Z → Command → M CommandResult))) :=
  [(B "HSET", (-4, ByFirstKey, true, HandleHSet)); (B "HGET", (3, ByFirstKey, false, HandleHGet));
   (B "HDEL", (-3, ByFirstKey, true, HandleHDel)); (B "HEXISTS", (3, ByFirstKey, false, HandleHExists));
   (B "HGETALL", (2, ByFirstKey, false, HandleHGetAll)); (B "HLEN", (2, ByFirstKey, false, HandleHLen));
   (B "HKEYS", (2, ByFirstKey, false, HandleHKeys)); (B "HVALS", (2, ByFirstKey, false, HandleHVals));
   (B "HINCRBY", (4, ByFirstKey, true, HandleHIncrBy)); (B "HINCRBYFLOAT", (4, ByFirstKey, true, HandleHIncrByFloat));
   (B "HSETNX", (4, ByFirstKey, true, HandleHSetNx)); (B "HMGET", (-3, ByFirstKey, false, HandleHMGet));
   (B "HSTRLEN", (3, ByFirstKey, false, HandleHStrLen)); (B "HRANDFIELD", (-2, ByFirstKey, false, HandleHRandField shuffled r));
   (B "HMSET", (-4, ByFirstKey, true, HandleHMSet)); (B "HTTL", (-2, ByFirstKey, false, HandleHTTL));
   (B "HSCAN", (-3, ByFirstKey, false, HandleHScan)); (B "HEXPIRE", (-3, ByFirstKey, true, HandleHExpire));
   (B "HEXPIREAT", (-3, ByFirstKey, true, HandleHExpireAt)); (B "HEXPIRETIME", (3, ByFirstKey, false, HandleHExpireTime));
   (B "HPERSIST", (3, ByFirstKey, true, HandleHPersist)); (B "HPEXPIRE", (-3, ByFirstKey, true, HandleHPExpire));
   (B "HPEXPIREAT", (-3, ByFirstKey, true, HandleHPExpireAt)); (B "HPEXPIRETIME", (3, ByFirstKey, false, HandleHPExpireTime));
   (B "HPTTL", (3, ByFirstKey, false, HandleHPTTL))]%Z.
End HashCommands.
