(* ===== verification/SetCommands.v ===== *)
(** * Set commands

    The handlers of src/astra/commands/redis/set_commands.cpp except the shard
    channels, and the requests to other workers of src/astra/server/worker.hpp
    that SINTERSTORE makes.  Work sent to other workers is done in the order of
    the workers, without the timeout. *)
From Stdlib Require Import SpecFloat.
From stdpp Require Import sorting.
From S2P Require Import Prelude.
From S2P Require Import Simd.
From S2P Require Import Numbers.
From S2P Require Import Text.
From S2P Require Import RespTypes.
From S2P Require Import Sharding.
From S2P Require Import Executor.
From S2P Require Import KeyMetadata.
From S2P Require Import Eviction.
From S2P Require Import Rocks.
From S2P Require Import Database.
From S2P Require Import DatabaseTypes.
From S2P Require Import DatabaseZSets.
From S2P Require Import Commands.
From S2P Require Import StringCommands.
From S2P Require Import HashCommands.

(** ** Sorting *)

(** [operator<=] of strings: the bytes as unsigned numbers, from the left. *)
Fixpoint bytes_leb (a b : bytes) : bool :=
  match a, b with
  | [], _ => true
  | _ :: _, [] => false
  | x :: a, y :: b => if (code x <? code y)%Z then true else if (code y <? code x)%Z then false else bytes_leb a b
  end.
Definition bytes_le (a b : bytes) : Prop := bytes_leb a b = true.
Definition bytes_ge (a b : bytes) : Prop := bytes_le b a.

#[global] Instance bytes_le_dec : RelDecision bytes_le.
Proof. intros a b. unfold bytes_le. apply _. Defined.
#[global] Instance bytes_ge_dec : RelDecision bytes_ge.
Proof. intros a b. unfold bytes_ge. apply _. Defined.

(** [std::sort] with [std::less] or [std::greater]; strings that compare equal are
    equal. *)
Definition std_sort (descending : bool) (l : list bytes) : list bytes :=
  if descending then merge_sort bytes_ge l else merge_sort bytes_le l.

Record SortOptions := MkSort { sort_reverse : bool; store_destination : bytes; limit_offset : Z; limit_count : Z }.

(** The options of SORT; BY and GET skip a pattern, ALPHA changes nothing, and
    what is not known is skipped. *)
Fixpoint sort_options `{!AbslNumbers} (args : list CommandArg) (o : SortOptions) : SortOptions + bytes :=
  match args with
  | [] => inl o
  | a :: args =>
      if negb (is_bulk a) then inr (B "ERR wrong type of option argument")
      else if decide (arg_value a = B "ASC") then
        sort_options args (MkSort false (store_destination o) (limit_offset o) (limit_count o))
      else if decide (arg_value a = B "DESC") then
        sort_options args (MkSort true (store_destination o) (limit_offset o) (limit_count o))
      else if decide (arg_value a = B "LIMIT") then
        match args with
        | x :: y :: rest =>
            match SimpleAtoi (arg_value x) with
            | None => inr (B "ERR offset is not a valid integer")
            | Some offset =>
                if (offset <? 0)%Z then inr (B "ERR offset is not a valid integer")
                else match SimpleAtoi (arg_value y) with
                     | None => inr (B "ERR count is not a valid integer")
                     | Some count =>
                         if (count <? 0)%Z then inr (B "ERR count is not a valid integer")
                         else sort_options rest (MkSort (sort_reverse o) (store_destination o) offset count)
                     end
            end
        | _ => sort_options args o
        end
      else if decide (arg_value a = B "STORE") then
        match args with
        | x :: rest => sort_options rest (MkSort (sort_reverse o) (arg_value x) (limit_offset o) (limit_count o))
        | [] => inl o
        end
      else if bool_decide (arg_value a = B "BY") || bool_decide (arg_value a = B "GET") then
        match args with _ :: rest => sort_options rest o | [] => inl o end
      else sort_options args o
  end.

(** The slice that LIMIT selects. *)
Definition sort_slice (o : SortOptions) (elements : list bytes) : list bytes :=
  let start := Z.min (limit_offset o) (zlen elements) in
  let stop := Z.min (u64 (start + limit_count o)) (zlen elements) in
  take (Z.to_nat (stop - start)) (drop (Z.to_nat start) elements).

Section SetCommands.
Context {P : Platform} {HD : DoubleText}.
Implicit Types (cmd : Command) (now : Z) (key member : bytes).

(** ** Members *)

(** SADD and SREM: one operation for each member, and how many were done. *)
Fixpoint member_loop (f : bytes → Database → Database * bool) (args : list CommandArg) (count : Z) : M Z :=
  match args with
  | [] => mret count
  | a :: args =>
      _ ← require (is_bulk a) (B "ERR wrong type of member argument");
      done ← on_db (f (arg_value a));
      member_loop f args (count_if done count)
  end.

Definition HandleSAdd now cmd : M CommandResult :=
  _ ← require (negb (ArgCount cmd <? 2)) (wrong_number (B "SADD"));
  _ ← require (is_bulk (arg 0 cmd)) (B "ERR wrong type of key argument");
  count ← member_loop (DbSAdd now (arg_text 0 cmd)) (drop 1 (cmd_args cmd)) 0;
  mret (reply_int count).

Definition HandleSRem now cmd : M CommandResult :=
  _ ← require (negb (ArgCount cmd <? 2)) (wrong_number (B "SREM"));
  _ ← require (is_bulk (arg 0 cmd)) (B "ERR wrong type of key argument");
  count ← member_loop (DbSRem now (arg_text 0 cmd)) (drop 1 (cmd_args cmd)) 0;
  mret (reply_int count).

Definition HandleSMembers now cmd : M CommandResult :=
  _ ← require (ArgCount cmd =? 1) (wrong_number (B "SMEMBERS"));
  _ ← require (is_bulk (arg 0 cmd)) (B "ERR wrong type of key argument");
  members ← on_db (DbSMembers now (arg_text 0 cmd));
  mret (reply_strings members).

Definition HandleSIsMember now cmd : M CommandResult :=
  _ ← require (ArgCount cmd =? 2) (wrong_number (B "SISMEMBER"));
  _ ← require (is_bulk (arg 0 cmd) && is_bulk (arg 1 cmd)) (B "ERR wrong type of argument");
  found ← on_db (DbSIsMember now (arg_text 0 cmd) (arg_text 1 cmd));
  mret (reply_bool found).

Definition HandleSCard now cmd : M CommandResult :=
  _ ← require (ArgCount cmd =? 1) (wrong_number (B "SCARD"));
  _ ← require (is_bulk (arg 0 cmd)) (B "ERR wrong type of key argument");
  count ← on_db (DbSCard now (arg_text 0 cmd));
  mret (reply_int (i64 count)).

(** A count is ignored; the generator of the database is an argument. *)
Definition HandleSPop (r : rng) now cmd : M CommandResult :=
  _ ← require (negb (ArgCount cmd <? 1)) (wrong_number (B "SPOP"));
  _ ← require (is_bulk (arg 0 cmd)) (B "ERR wrong type of key argument");
  let key := arg_text 0 cmd in
  popped ← on_db (DbSPop now key r);
  match popped.1 with
  | None => mret (Success (resp_of_type kNull))
  | Some member => _ ← LogToAof (B "SPOP") [key]; mret (reply_bulk member)
  end.

Definition HandleSRandMember (r : rng) now cmd : M CommandResult :=
  _ ← require (negb (ArgCount cmd <? 1)) (wrong_number (B "SRANDMEMBER"));
  _ ← require (is_bulk (arg 0 cmd)) (B "ERR wrong type of key argument");
  picked ← on_db (DbSRandMember now (arg_text 0 cmd) r);
  match picked.1 with
  | None => mret (Success (resp_of_type kNull))
  | Some member => mret (reply_bulk member)
  end.

Definition HandleSMove now cmd : M CommandResult :=
  _ ← require (ArgCount cmd =? 3) (wrong_number (B "SMOVE"));
  _ ← require (is_bulk (arg 0 cmd) && is_bulk (arg 1 cmd) && is_bulk (arg 2 cmd))
              (B "ERR wrong type of arguments for 'SMOVE' command");
  moved ← on_db (DbSMove now (arg_text 0 cmd) (arg_text 1 cmd) (arg_text 2 cmd));
  mret (reply_bool moved).

Fixpoint is_member_loop now key (args : list CommandArg) (result : list RespValue) : M (list RespValue) :=
  match args with
  | [] => mret result
  | a :: args =>
      _ ← require (is_bulk a) (B "ERR wrong type of member argument");
      found ← on_db (DbSIsMember now key (arg_value a));
      is_member_loop now key args (result ++ [resp_int (if (found : bool) then 1 else 0)])
  end.

Definition HandleSMIsMember now cmd : M CommandResult :=
  _ ← require (negb (ArgCount cmd <? 2)) (wrong_number (B "SMISMEMBER"));
  _ ← require (is_bulk (arg 0 cmd)) (B "ERR wrong type of key argument");
  result ← is_member_loop now (arg_text 0 cmd) (drop 1 (cmd_args cmd)) [];
  mret (reply_array result).

(** ** Several sets *)

(** The members of each key, over all workers. *)
Definition collect_sets now (keys : list bytes) : M (gmap bytes (gset bytes)) :=
  n ← workers_of;
  mfold (λ sets w,
    mfold (λ sets key,
      members ← on_worker w (DbSMembers now key);
      mret (<[key := list_to_set members ∪ default ∅ (sets !! key)]> sets)) sets keys) ∅ (seq 0 n).

(** The intersection of the results of a batch request. *)
Definition inter_results (results : list (list bytes)) : list bytes :=
  match results with
  | [] => []
  | first :: results => foldl (λ acc current, filter (λ m, m ∈ current) acc) first results
  end.

Definition self_of : M nat := λ c, (c, inl (ctx_self c)).

(** The answers of the next batch request. *)
Definition next_answers : M (list nat) := on_more (λ x,
  (MkExtras _ (g_hash_field_expires x) (blocking_manager x) (blocking_sent x) (connection_id x) (has_connection x) (tail (batch_answers x)),
   default [] (head (batch_answers x)))).

(** [SendBatchRequest] for SINTER: each worker intersects its sets. The results are
    the own one, those of the workers that answer within five seconds, in the order
    of the answers, and an empty one for each other worker. Such a worker handles the
    request later, and nobody reads its answer. *)
Definition SendBatchRequest now (keys : list bytes) : M (list bytes) :=
  n ← workers_of;
  self ← self_of;
  let sub_keys w := filter (λ key, owner_of n key = w) keys in
  let targets := filter (λ w, sub_keys w ≠ []) (seq 0 n) in
  if decide (n ≤ 1 ∨ targets = [self]) then on_db (DbSInterLocal now keys)
  else
    answers ← next_answers;
    let others := filter (λ w, w ≠ self) targets in
    let ready := filter (λ w, w ∈ others) (remove_dups answers) in
    let late := filter (λ w, w ∉ answers) others in
    results ← mfold (λ results w, result ← on_worker w (DbSInterLocal now (sub_keys w)); mret (results ++ [result])) []
      (filter (λ w, w = self) targets ++ ready);
    mret (inter_results (results ++ ((λ _, []) <$> late))).

(** [Database::SInter], with the callback of the worker. *)
Definition SInter now (keys : list bytes) : M (list bytes) :=
  match keys with [] => mret [] | _ => SendBatchRequest now keys end.

(** SINTER, SUNION and SDIFF: over all workers when there are several. *)
Definition several (name : bytes) (combine : list (gset bytes) → gset bytes) (local : list bytes → M (list bytes)) now cmd : M CommandResult :=
  _ ← require (negb (ArgCount cmd <? 1)) (wrong_number name);
  keys ← bulk_args (cmd_args cmd) (B "ERR wrong type of key argument");
  n ← workers_of;
  if 1 <? n then
    sets ← collect_sets now keys;
    mret (reply_strings (elements (combine ((λ key, default ∅ (sets !! key)) <$> keys))))
  else
    members ← local keys;
    mret (reply_strings members).

(** The first set cut down by the others. *)
Definition inter_all (sets : list (gset bytes)) : gset bytes :=
  match sets with [] => ∅ | s :: sets => foldl (λ acc s, acc ∩ s) s sets end.
Definition diff_all (sets : list (gset bytes)) : gset bytes :=
  match sets with [] => ∅ | s :: sets => foldl (λ acc s, acc ∖ s) s sets end.
Definition union_all (sets : list (gset bytes)) : gset bytes := foldl (λ acc s, acc ∪ s) ∅ sets.

Definition HandleSInter now : Command → M CommandResult := several (B "SINTER") inter_all (SInter now) now.
Definition HandleSUnion now : Command → M CommandResult := several (B "SUNION") union_all (λ keys, on_db (DbSUnion now keys)) now.
Definition HandleSDiff now : Command → M CommandResult := several (B "SDIFF") diff_all (λ keys, on_db (DbSDiff now keys)) now.

Definition store_with (name : bytes) (local : list bytes → M (list bytes)) cmd : M CommandResult :=
  _ ← require (negb (ArgCount cmd <? 2)) (wrong_number name);
  _ ← require (is_bulk (arg 0 cmd)) (B "ERR wrong type of destination argument");
  keys ← bulk_args (drop 1 (cmd_args cmd)) (B "ERR wrong type of key argument");
  members ← local keys;
  count ← on_db (store_set (arg_text 0 cmd) members);
  mret (reply_int count).

Definition HandleSInterStore now : Command → M CommandResult := store_with (B "SINTERSTORE") (SInter now).
Definition HandleSUnionStore now : Command → M CommandResult := store_with (B "SUNIONSTORE") (λ keys, on_db (DbSUnion now keys)).
Definition HandleSDiffStore now : Command → M CommandResult := store_with (B "SDIFFSTORE") (λ keys, on_db (DbSDiff now keys)).

(** LIMIT of SINTERCARD; other options are skipped. *)
Fixpoint card_options (args : list CommandArg) (limit : Z) : Z + bytes :=
  match args with
  | [] => inl limit
  | a :: args =>
      if negb (is_bulk a) then inr (B "ERR wrong type of option argument")
      else match args with
           | [] => inl limit
           | x :: rest =>
               if decide (arg_value a = B "LIMIT") then
                 match SimpleAtoi (arg_value x) with
                 | None => inr (B "ERR limit is not a valid integer")
                 | Some limit => if (limit <? 0)%Z then inr (B "ERR limit is not a valid integer") else card_options rest limit
                 end
               else card_options args limit
           end
  end.

Definition HandleSInterCard now cmd : M CommandResult :=
  _ ← require (negb (ArgCount cmd <? 2)) (wrong_number (B "SINTERCARD"));
  _ ← require (is_bulk (arg 0 cmd)) (B "ERR wrong type of numkeys argument");
  numkeys ← need (SimpleAtoi (arg_text 0 cmd)) not_integer;
  _ ← require (negb (numkeys <=? 0)%Z) not_integer;
  _ ← require (negb (Z.of_nat (ArgCount cmd) <? u64 (i64 (numkeys + 1)))%Z) (wrong_number (B "SINTERCARD"));
  keys ← bulk_args (take (Z.to_nat numkeys) (drop 1 (cmd_args cmd))) (B "ERR wrong type of key argument");
  match card_options (drop (S (Z.to_nat numkeys)) (cmd_args cmd)) 0 with
  | inr message => fail message
  | inl limit =>
      let limited n := if (0 <? limit)%Z && (limit <? n)%Z then limit else n in
      n ← workers_of;
      if 1 <? n then
        sets ← collect_sets now keys;
        mret (reply_int (limited (Z.of_nat (size (inter_all ((λ key, default ∅ (sets !! key)) <$> keys))))))
      else
        members ← SInter now keys;
        mret (reply_int (limited (zlen members)))
  end.

(** ** SORT and SSCAN *)

(** The elements of a set, a list or a sorted set. *)
Definition sort_elements now key (t : KeyType) : M (list bytes) :=
  match t with
  | KeyMetadata.kSet => on_db (DbSMembers now key)
  | kList => on_db (DbLRange now key 0 (-1))
  | kZSet => elements ← on_db (DbZRangeByRank now key 0 (-1) false false); mret (fst <$> elements)
  | _ => fail (B "WRONGTYPE Operation against a key holding the wrong kind of value")
  end.

Definition HandleSort now cmd : M CommandResult :=
  _ ← require (negb (ArgCount cmd <? 1)) (wrong_number (B "SORT"));
  _ ← require (is_bulk (arg 0 cmd)) (B "ERR wrong type of key argument");
  let key := arg_text 0 cmd in
  key_type ← on_db (DbGetType now key);
  match key_type with
  | None => mret (reply_array [])
  | Some t =>
      match sort_options (drop 1 (cmd_args cmd)) (MkSort false [] 0 (2 ^ 64 - 1)) with
      | inr message => fail message
      | inl o =>
          elements ← sort_elements now key t;
          let result_elements := sort_slice o (std_sort (sort_reverse o) elements) in
          match store_destination o with
          | [] => mret (reply_strings result_elements)
          | destination =>
              _ ← on_db (DbDel destination);
              _ ← mfold (λ (_ : bool) elem, on_db (DbSAdd now destination elem)) false result_elements;
              mret (reply_int (zlen result_elements))
          end
      end
  end.

Definition HandleSortRo : Z → Command → M CommandResult := HandleSort.

Definition HandleSScan now cmd : M CommandResult :=
  _ ← require (negb (ArgCount cmd <? 2)) (wrong_number (B "SSCAN"));
  _ ← require (is_bulk (arg 0 cmd) && is_bulk (arg 1 cmd)) (B "ERR wrong type of argument");
  cursor ← need (SimpleAtou (arg_text 1 cmd)) (B "ERR invalid cursor");
  all_members ← on_db (DbSMembers now (arg_text 0 cmd));
  match scan_options (drop 2 (cmd_args cmd)) (B "*") 10 with
  | inr message => fail message
  | inl (pattern, count) =>
      let matched_members := filter (λ m, scan_matches pattern m = true) all_members in
      let '(page, new_cursor) := scan_page matched_members cursor count in
      mret (scan_reply new_cursor (resp_string <$> page))
  end.

(** SMOVE is registered for two arguments, and takes three. *)
Definition set_table (r : rng) : list (bytes * (Z * RoutingStrategy * bool * (Z → Command → M CommandResult))) :=
  [(B "SADD", (-3, ByFirstKey, true, HandleSAdd)); (B "SREM", (-3, ByFirstKey, true, HandleSRem));
   (B "SMEMBERS", (2, ByFirstKey, false, HandleSMembers)); (B "SISMEMBER", (3, ByFirstKey, false, HandleSIsMember));
   (B "SCARD", (2, ByFirstKey, false, HandleSCard)); (B "SMOVE", (3, ByFirstKey, true, HandleSMove));
   (B "SINTER", (-2, RouteNone, false, HandleSInter)); (B "SUNION", (-2, RouteNone, false, HandleSUnion));
   (B "SDIFF", (-2, RouteNone, false, HandleSDiff)); (B "SINTERSTORE", (-3, ByFirstKey, true, HandleSInterStore));
   (B "SUNIONSTORE", (-3, ByFirstKey, true, HandleSUnionStore)); (B "SDIFFSTORE", (-3, ByFirstKey, true, HandleSDiffStore));
   (B "SPOP", (2, ByFirstKey, true, HandleSPop r)); (B "SRANDMEMBER", (2, ByFirstKey, false, HandleSRandMember r));
   (B "SINTERCARD", (-2, RouteNone, false, HandleSInterCard)); (B "SMISMEMBER", (-2, ByFirstKey, false, HandleSMIsMember));
   (B "SORT", (-2, ByFirstKey, true, HandleSort)); (B "SORT_RO", (-2, ByFirstKey, false, HandleSortRo));
   (B "SSCAN", (-3, ByFirstKey, false, HandleSScan))]%Z.
End SetCommands.
