(* ===== verification/ListCommands.v ===== *)
(** * List commands

    The handlers of src/astra/commands/redis/list_commands.cpp, with the clients
    that block.  [clock] is the steady clock in nanoseconds. *)
From Stdlib Require Import SpecFloat.
From S2P Require Import Prelude.
From S2P Require Import Simd.
From S2P Require Import Numbers.
From S2P Require Import Text.
From S2P Require Import RespTypes.
From S2P Require Import Executor.
From S2P Require Import KeyMetadata.
From S2P Require Import LinkedList.
From S2P Require Import Eviction.
From S2P Require Import Rocks.
From S2P Require Import Database.
From S2P Require Import DatabaseTypes.
From S2P Require Import Blocking.
From S2P Require Import Commands.
From S2P Require Import StringCommands.

(** ** Floating-point text *)

(** [m * base ^ e], correctly rounded. *)
Definition scaled_float (negative : bool) (m : Z) (base e : Z) : spec_float :=
  match m with
  | Zpos p =>
      if (0 <=? e)%Z then binary_normalize double_prec double_emax ((if negative then -1 else 1) * m * base ^ e) 0 negative
      else SFdiv double_prec double_emax (S754_finite negative p 0) (S754_finite false (Z.to_pos (base ^ (- e))) 0)
  | _ => S754_zero negative
  end.

(** The result is exactly [m * base ^ e]. *)
Definition is_exact (x : spec_float) (m : Z) (base e : Z) : bool :=
  match x with
  | S754_zero _ => (m =? 0)%Z
  | S754_finite _ p k =>
      (Zpos p * 2 ^ Z.max k 0 * base ^ Z.max (- e) 0 =? m * base ^ Z.max e 0 * 2 ^ Z.max (- k) 0)%Z
  | _ => false
  end.

(** The range errors of [strtod]: overflow, and an inexact result without the full
    precision. *)
Definition in_range (x : spec_float) (m : Z) (base e : Z) : bool :=
  match x with
  | S754_infinity _ | S754_nan => false
  | S754_zero _ => is_exact x m base e
  | S754_finite _ p _ => (2 ^ 52 <=? Zpos p)%Z || is_exact x m base e
  end.

(** Digits with a point: their value, and how many follow the point. *)
Definition point_digits (span : bytes → bytes * bytes) (s : bytes) : option (bytes * nat * bytes) :=
  let '(whole, s) := span s in
  let '(frac, rest) := match s with c :: s' => if ascii_eqb c "." then span s' else ([], s) | [] => ([], []) end in
  match whole ++ frac with [] => None | ds => Some (ds, length frac, rest) end.

(** The exponent after one of two letters; the letter without digits is not part
    of the number. *)
Definition exponent (lower : ascii) (s : bytes) : Z :=
  match s with
  | c :: s =>
      if ascii_eqb (to_upper c) (to_upper lower) then
        let '(negative, ds) := take_sign s in
        let v := digits_value 0 (span_digits ds).1 in if negative then (- v)%Z else v
      else 0%Z
  | [] => 0%Z
  end.

Definition hex_value (c : ascii) : option Z :=
  if is_digit c then Some (digit_value c)
  else let u := code (to_upper c) in if (65 <=? u)%Z && (u <=? 70)%Z then Some (u - 55)%Z else None.
Fixpoint span_hex (s : bytes) : bytes * bytes :=
  match s with
  | c :: s' => match hex_value c with Some _ => let '(ds, rest) := span_hex s' in (c :: ds, rest) | None => ([], s) end
  | [] => ([], [])
  end.
Definition hex_digits_value (ds : bytes) : Z := foldl (λ v c, (v * 16 + default 0 (hex_value c))%Z) 0%Z ds.

(** [std::stod]; [None] when it throws.  What follows the number does not
    matter. *)
Definition stod (s : bytes) : option spec_float :=
  let '(negative, s) := take_sign (skip_spaces s) in
  let finite m base e := let x := scaled_float negative m base e in if in_range x m base e then Some x else None in
  let hex :=
    match s with
    | z :: x :: s' => if ascii_eqb z "0" && ascii_eqb (to_upper x) "X" then point_digits span_hex s' else None
    | _ => None
    end in
  if decide (take 3 (upper s) = B "INF") then Some (S754_infinity negative)
  else if decide (take 3 (upper s) = B "NAN") then Some S754_nan
  else match hex with
       | Some (ds, frac, rest) => finite (hex_digits_value ds) 2%Z (exponent "p" rest - 4 * Z.of_nat frac)%Z
       | None =>
           match point_digits span_digits s with
           | Some (ds, frac, rest) => finite (digits_value 0 ds) 10%Z (exponent "e" rest - Z.of_nat frac)%Z
           | None => None
           end
       end.

Section ListCommands.
Context {P : Platform} {HD : DoubleText}.
Implicit Types (cmd : Command) (now : Z) (key value : bytes) (left : bool).

(** ** The ends of a list *)

Definition pop left now key : Database → Database * option bytes := if left then DbLPop now key else DbRPop now key.
Definition push left now key value : Database → Database * bool := if left then DbLPush now key value else DbRPush now key value.

(** [blocking_manager->WakeUpBlockedClients(key)] *)
Definition wake_up now key : M () := λ c,
  match blocking_manager (ctx_more c) with
  | None => (c, inl ())
  | Some m =>
      let '(m, s, sent) := WakeUpBlockedClients key m (now, ctx_db c) in
      let x := ctx_more c in
      (MkCtx _ s.2 (ctx_self c) (ctx_workers c) (ctx_remote c) (ctx_cluster c) (ctx_log c)
         (MkExtras _ (g_hash_field_expires x) (Some m) (blocking_sent x ++ sent) (connection_id x) (has_connection x) (batch_answers x)), inl ())
  end.

Fixpoint push_loop left now key (args : list CommandArg) : M () :=
  match args with
  | [] => mret ()
  | a :: args =>
      _ ← require (is_bulk a) (B "ERR wrong type of value argument");
      _ ← on_db (push left now key (arg_value a));
      push_loop left now key args
  end.

(** LPUSH goes from the last value to the first. *)
Definition push_all (name : bytes) left now cmd : M CommandResult :=
  _ ← require (negb (ArgCount cmd <? 1)) (wrong_number name);
  _ ← require (is_bulk (arg 0 cmd)) (B "ERR wrong type of key argument");
  let key := arg_text 0 cmd in
  let values := drop 1 (cmd_args cmd) in
  _ ← push_loop left now key (if left then reverse values else values);
  _ ← wake_up now key;
  mret (reply_int (Z.of_nat (ArgCount cmd - 1))).

Definition HandleLPush : Z → Command → M CommandResult := push_all (B "LPUSH") true.
Definition HandleRPush : Z → Command → M CommandResult := push_all (B "RPUSH") false.

Definition pop_one (name : bytes) left now cmd : M CommandResult :=
  _ ← require (ArgCount cmd =? 1) (wrong_number name);
  _ ← require (is_bulk (arg 0 cmd)) (B "ERR wrong type of key argument");
  value ← on_db (pop left now (arg_text 0 cmd));
  mret (reply_opt value).

Definition HandleLPop : Z → Command → M CommandResult := pop_one (B "LPOP") true.
Definition HandleRPop : Z → Command → M CommandResult := pop_one (B "RPOP") false.

(** LPUSHX and RPUSHX *)
Definition push_existing (name : bytes) left now cmd : M CommandResult :=
  _ ← require (ArgCount cmd =? 2) (wrong_number name);
  _ ← require (is_bulk (arg 0 cmd) && is_bulk (arg 1 cmd)) (B "ERR wrong type of argument");
  let key := arg_text 0 cmd in
  t ← on_db (DbGetType now key);
  if decide (t = Some kList) then
    _ ← on_db (push left now key (arg_text 1 cmd));
    len ← on_db (DbLLen now key);
    mret (reply_int (i64 len))
  else mret (reply_int 0).

Definition HandleLPushX : Z → Command → M CommandResult := push_existing (B "LPUSHX") true.
Definition HandleRPushX : Z → Command → M CommandResult := push_existing (B "RPUSHX") false.

(** ** Positions *)

Definition HandleLLen now cmd : M CommandResult :=
  _ ← require (ArgCount cmd =? 1) (wrong_number (B "LLEN"));
  _ ← require (is_bulk (arg 0 cmd)) (B "ERR wrong type of key argument");
  len ← on_db (DbLLen now (arg_text 0 cmd));
  mret (reply_int (i64 len)).

Definition HandleLIndex now cmd : M CommandResult :=
  _ ← require (ArgCount cmd =? 2) (wrong_number (B "LINDEX"));
  _ ← require (is_bulk (arg 0 cmd)) (B "ERR wrong type of key argument");
  _ ← require (is_bulk (arg 1 cmd)) (B "ERR wrong type of index argument");
  index ← need (strtoll (arg_text 1 cmd)) not_integer;
  value ← on_db (DbLIndex now (arg_text 0 cmd) index);
  mret (reply_opt value).

Definition HandleLSet now cmd : M CommandResult :=
  _ ← require (ArgCount cmd =? 3) (wrong_number (B "LSET"));
  _ ← require (is_bulk (arg 0 cmd)) (B "ERR wrong type of key argument");
  _ ← require (is_bulk (arg 1 cmd)) (B "ERR wrong type of index argument");
  _ ← require (is_bulk (arg 2 cmd)) (B "ERR wrong type of value argument");
  index ← need (strtoll (arg_text 1 cmd)) not_integer;
  success ← on_db (DbLSet now (arg_text 0 cmd) index (arg_text 2 cmd));
  _ ← require success (B "ERR no such key or index out of range");
  mret ok_response.

(** The two bounds of LRANGE and LTRIM. *)
Definition range_args (name : bytes) cmd : M (Z * Z) :=
  _ ← require (ArgCount cmd =? 3) (wrong_number name);
  _ ← require (is_bulk (arg 0 cmd)) (B "ERR wrong type of key argument");
  _ ← require (is_bulk (arg 1 cmd)) (B "ERR wrong type of start argument");
  _ ← require (is_bulk (arg 2 cmd)) (B "ERR wrong type of stop argument");
  start ← need (strtoll (arg_text 1 cmd)) not_integer;
  stop ← need (strtoll (arg_text 2 cmd)) not_integer;
  mret (start, stop).

Definition HandleLRange now cmd : M CommandResult :=
  range ← range_args (B "LRANGE") cmd;
  values ← on_db (DbLRange now (arg_text 0 cmd) range.1 range.2);
  mret (reply_strings values).

Definition HandleLTrim now cmd : M CommandResult :=
  range ← range_args (B "LTRIM") cmd;
  success ← on_db (DbLTrim now (arg_text 0 cmd) range.1 range.2);
  _ ← require success (B "ERR no such key");
  mret ok_response.

Definition HandleLRem now cmd : M CommandResult :=
  _ ← require (ArgCount cmd =? 3) (wrong_number (B "LREM"));
  _ ← require (is_bulk (arg 0 cmd)) (B "ERR wrong type of key argument");
  _ ← require (is_bulk (arg 1 cmd)) (B "ERR wrong type of count argument");
  _ ← require (is_bulk (arg 2 cmd)) (B "ERR wrong type of value argument");
  count ← need (strtoll (arg_text 1 cmd)) not_integer;
  removed ← on_db (DbLRem now (arg_text 0 cmd) (arg_text 2 cmd) count);
  mret (reply_int (i64 removed)).

(** The positions of an element. *)
Fixpoint positions (i : Z) (element : bytes) (l : list bytes) : list Z :=
  match l with
  | [] => []
  | x :: l => if decide (x = element) then i :: positions (i + 1) element l else positions (i + 1) element l
  end.

Definition HandleLInsert now cmd : M CommandResult :=
  _ ← require (ArgCount cmd =? 4) (wrong_number (B "LINSERT"));
  _ ← require (is_bulk (arg 0 cmd)) (B "ERR wrong type of key argument");
  _ ← require (is_bulk (arg 1 cmd)) (B "ERR wrong type of where argument");
  _ ← require (is_bulk (arg 2 cmd)) (B "ERR wrong type of pivot argument");
  _ ← require (is_bulk (arg 3 cmd)) (B "ERR wrong type of value argument");
  let key := arg_text 0 cmd in
  let before := bool_decide (arg_text 1 cmd = B "BEFORE") in
  _ ← require (before || bool_decide (arg_text 1 cmd = B "AFTER")) syntax_error;
  values ← on_db (DbLRange now key 0 (-1));
  match positions 0 (arg_text 2 cmd) values with
  | [] => mret (reply_int (-1))
  | pivot_index :: _ =>
      success ← on_db (DbLInsert now key pivot_index (arg_text 3 cmd) before);
      if negb success then mret (reply_int (-1))
      else len ← on_db (DbLLen now key); mret (reply_int (i64 len))
  end.

(** RANK and COUNT of LPOS, or the error. *)
Fixpoint pos_options (args : list CommandArg) (rank count : Z) : (Z * Z) + bytes :=
  match args with
  | [] => inl (rank, count)
  | a :: args =>
      if negb (is_bulk a) then inr (B "ERR wrong type of option argument")
      else match args with
           | [] => inl (rank, count)
           | x :: rest =>
               if decide (arg_value a = B "RANK") then
                 match SimpleAtoi (arg_value x) with
                 | None => inr not_integer
                 | Some rank => pos_options rest rank count
                 end
               else if decide (arg_value a = B "COUNT") then
                 match SimpleAtoi (arg_value x) with
                 | None => inr (B "ERR count is not a valid positive integer")
                 | Some count =>
                     if (count <? 0)%Z then inr (B "ERR count is not a valid positive integer")
                     else pos_options rest rank count
                 end
               else pos_options args rank count
           end
  end.

Definition HandleLPos now cmd : M CommandResult :=
  _ ← require (negb (ArgCount cmd <? 2)) (wrong_number (B "LPOS"));
  _ ← require (is_bulk (arg 0 cmd) && is_bulk (arg 1 cmd)) (B "ERR wrong type of argument");
  match pos_options (drop 2 (cmd_args cmd)) 0 1 with
  | inr message => fail message
  | inl (rank, count) =>
      elements ← on_db (DbLRange now (arg_text 0 cmd) 0 (-1));
      let indices := positions 0 (arg_text 1 cmd) elements in
      let rank := if (rank <? 0)%Z then Z.max 0 (zlen indices + rank) else rank in
      if (zlen indices <=? rank)%Z then mret (reply_int (-1))
      else if (count =? 1)%Z then mret (reply_int (default 0%Z (indices !! Z.to_nat rank)))
      else
        let stop := Z.min (u64 (rank + count)) (zlen indices) in
        mret (reply_array (resp_int <$> take (Z.to_nat (stop - rank)) (drop (Z.to_nat rank) indices)))
  end.

(** ** From one list to another *)

Definition HandleRPopLPush now cmd : M CommandResult :=
  _ ← require (ArgCount cmd =? 2) (wrong_number (B "RPOPLPUSH"));
  _ ← require (is_bulk (arg 0 cmd)) (B "ERR wrong type of source argument");
  _ ← require (is_bulk (arg 1 cmd)) (B "ERR wrong type of destination argument");
  value ← on_db (DbRPopLPush now (arg_text 0 cmd) (arg_text 1 cmd));
  mret (reply_opt value).

(** LEFT and RIGHT *)
Definition direction (s : bytes) : option bool :=
  if decide (s = B "LEFT") then Some true else if decide (s = B "RIGHT") then Some false else None.

Definition move (from to : bool) now (source destination : bytes) (db : Database) : Database * option bytes :=
  let '(db, value) := pop from now source db in
  match value with
  | None => (db, None)
  | Some v => ((push to now destination v db).1, Some v)
  end.

Definition HandleLMove now cmd : M CommandResult :=
  _ ← require (ArgCount cmd =? 4) (wrong_number (B "LMOVE"));
  _ ← require (is_bulk (arg 0 cmd) && is_bulk (arg 1 cmd) && is_bulk (arg 2 cmd) && is_bulk (arg 3 cmd))
              (B "ERR wrong type of argument");
  from ← need (direction (arg_text 2 cmd)) syntax_error;
  to ← need (direction (arg_text 3 cmd)) syntax_error;
  value ← on_db (move from to now (arg_text 0 cmd) (arg_text 1 cmd));
  mret (reply_opt value).

(** So many elements, until the list has no more. *)
Fixpoint pop_many left now key (times : nat) (db : Database) : Database * list bytes :=
  match times with
  | 0 => (db, [])
  | S times =>
      let '(db, value) := pop left now key db in
      match value with
      | None => (db, [])
      | Some v => let '(db, values) := pop_many left now key times db in (db, v :: values)
      end
  end.

(** A key with its elements. *)
Definition reply_key key (values : list bytes) : RespValue := resp_array [resp_string key; resp_array (resp_string <$> values)].

(** LMPOP pops so many times, and skips what is not there. *)
Fixpoint pop_times left now key (times : nat) (db : Database) : Database * list bytes :=
  match times with
  | 0 => (db, [])
  | S times =>
      let '(db, value) := pop left now key db in
      let '(db, values) := pop_times left now key times db in
      (db, option_list value ++ values)
  end.

Fixpoint lmpop_keys left now (count : Z) (keys : list bytes) : M CommandResult :=
  match keys with
  | [] => mret (Success (resp_of_type kNullArray))
  | key :: keys =>
      list_len ← on_db (DbLLen now key);
      if (0 <? list_len)%Z then
        popped ← on_db (pop_times left now key (Z.to_nat (Z.min count list_len)));
        mret (Success (reply_key key popped))
      else lmpop_keys left now count keys
  end.

(** COUNT of LMPOP; other options are skipped. *)
Fixpoint count_option (args : list CommandArg) (count : Z) : Z + bytes :=
  match args with
  | [] => inl count
  | a :: args =>
      if negb (is_bulk a) then inr (B "ERR wrong type of option argument")
      else match args with
           | [] => inl count
           | x :: rest =>
               if decide (arg_value a = B "COUNT") then
                 match SimpleAtoi (arg_value x) with
                 | None => inr (B "ERR count is not a valid positive integer")
                 | Some count =>
                     if (count <=? 0)%Z then inr (B "ERR count is not a valid positive integer") else count_option rest count
                 end
               else count_option args count
           end
  end.

Definition HandleLMPop now cmd : M CommandResult :=
  _ ← require (negb (ArgCount cmd <? 3)) (wrong_number (B "LMPOP"));
  _ ← require (is_bulk (arg 0 cmd)) (B "ERR wrong type of numkeys argument");
  numkeys ← need (SimpleAtoi (arg_text 0 cmd)) not_integer;
  _ ← require (negb (numkeys <=? 0)%Z) not_integer;
  _ ← require (negb (Z.of_nat (ArgCount cmd) <? u64 (i64 (numkeys + 2)))%Z) (wrong_number (B "LMPOP"));
  keys ← bulk_args (take (Z.to_nat numkeys) (drop 1 (cmd_args cmd))) (B "ERR wrong type of key argument");
  let at_direction := S (Z.to_nat numkeys) in
  _ ← require (is_bulk (arg at_direction cmd)) (B "ERR wrong type of direction argument");
  left ← need (direction (arg_text at_direction cmd)) syntax_error;
  match count_option (drop (S at_direction) (cmd_args cmd)) 1 with
  | inr message => fail message
  | inl count => lmpop_keys left now count keys
  end.

(** ** Blocking *)

(** The timeout: an integer, or a text that [std::stod] reads. *)
Definition timeout_error : bytes := B "ERR timeout is not a float or out of range".
Definition timeout_of (a : CommandArg) : option spec_float :=
  if ArgIsInteger a then Some (double_of_Z (ArgAsInteger a))
  else if is_bulk a then stod (arg_value a) else None.

(** [CommandResult::Blocking()]: nothing looks at its flag, and its response is a
    default value, of type null. *)
Definition Blocking : CommandResult := Success (resp_of_type kNull).

(** The client waits in the queue of [key], when there is a manager. *)
Definition block (clock : Z) key (first_key : bytes) cmd (timeout : spec_float)
    (callback : Z * Database → (Z * Database) * RespValue) : M CommandResult := λ c,
  let x := ctx_more c in
  match blocking_manager x with
  | None => (c, inl reply_nil)
  | Some m =>
      let client := MkBlocked (connection_id x) first_key cmd timeout clock callback (has_connection x) in
      (MkCtx _ (ctx_db c) (ctx_self c) (ctx_workers c) (ctx_remote c) (ctx_cluster c) (ctx_log c)
         (MkExtras _ (g_hash_field_expires x) (Some (AddBlockedClient key client m)) (blocking_sent x) (connection_id x) (has_connection x) (batch_answers x)),
       inl Blocking)
  end.

(** The callback of a database operation. *)
Definition on_wake {A} (f : Z → Database → Database * A) (reply : A → RespValue) (s : Z * Database) : (Z * Database) * RespValue :=
  let '(db, r) := f s.1 s.2 in ((s.1, db), reply r).

(** The first key with an element. *)
Fixpoint first_pop left now (args : list CommandArg) : M (option (bytes * bytes)) :=
  match args with
  | [] => mret None
  | a :: args =>
      _ ← require (is_bulk a) (B "ERR wrong type of key argument");
      value ← on_db (pop left now (arg_value a));
      match value with
      | Some v => mret (Some (arg_value a, v))
      | None => first_pop left now args
      end
  end.

Definition reply_pair (kv : bytes * bytes) : RespValue := resp_array [resp_string kv.1; resp_string kv.2].

(** BLPOP and BRPOP wait on the first key. [queue_key] is the queue they enter. *)
Definition blocking_pop (name : bytes) left (queue_key : bytes → bytes) (clock : Z) now cmd : M CommandResult :=
  _ ← require (negb (ArgCount cmd <? 2)) (wrong_number name);
  timeout ← need (timeout_of (arg (ArgCount cmd - 1) cmd)) timeout_error;
  found ← first_pop left now (take (ArgCount cmd - 1) (cmd_args cmd));
  match found with
  | Some kv => mret (Success (reply_pair kv))
  | None =>
      let key := arg_text 0 cmd in
      if double_lt d0_0 timeout then
        block clock (queue_key key) key cmd timeout
          (on_wake (λ now, pop left now key) (λ v, match v with Some v => reply_pair (key, v) | None => resp_of_type kNullBulkString end))
      else mret reply_nil
  end.

Definition HandleBLPop : Z → Z → Command → M CommandResult := blocking_pop (B "BLPOP") true (λ key, key).

(** The key is passed by reference to the record that is moved from in the same
    call: the queue is that of the empty key. *)
Definition HandleBRPop : Z → Z → Command → M CommandResult := blocking_pop (B "BRPOP") false (λ _, []).

Definition HandleBRPopLPush now cmd : M CommandResult :=
  _ ← require (ArgCount cmd =? 3) (wrong_number (B "BRPOPLPUSH"));
  _ ← require (is_bulk (arg 0 cmd)) (B "ERR wrong type of source argument");
  _ ← require (is_bulk (arg 1 cmd)) (B "ERR wrong type of destination argument");
  _ ← need (timeout_of (arg 2 cmd)) timeout_error;
  value ← on_db (DbRPopLPush now (arg_text 0 cmd) (arg_text 1 cmd));
  mret (reply_opt value).

Definition HandleBLMove (clock : Z) now cmd : M CommandResult :=
  _ ← require (negb (ArgCount cmd <? 5)) (wrong_number (B "BLMOVE"));
  _ ← require (is_bulk (arg 0 cmd) && is_bulk (arg 1 cmd) && is_bulk (arg 2 cmd) && is_bulk (arg 3 cmd))
              (B "ERR wrong type of arguments for 'BLMOVE' command");
  from ← need (direction (arg_text 2 cmd)) syntax_error;
  to ← need (direction (arg_text 3 cmd)) syntax_error;
  timeout ← need (timeout_of (arg 4 cmd)) timeout_error;
  let source := arg_text 0 cmd in
  let dest := arg_text 1 cmd in
  value ← on_db (move from to now source dest);
  match value with
  | Some v => mret (reply_bulk v)
  | None =>
      if double_lt d0_0 timeout then
        block clock source source cmd timeout (on_wake (λ now, move from to now source dest) bulk_or_nil)
      else mret reply_nil
  end.

(** The first key that has elements, with so many of them. *)
Fixpoint first_pop_many left now (times : nat) (keys : list bytes) (db : Database) : Database * option (bytes * list bytes) :=
  match keys with
  | [] => (db, None)
  | key :: keys =>
      let '(db, values) := pop_many left now key times db in
      match values with
      | [] => first_pop_many left now times keys db
      | _ => (db, Some (key, values))
      end
  end.

(** The keys before one that is no bulk string are tried before the error. *)
Fixpoint blmpop_loop left now (times : nat) (args : list CommandArg) : M (option (bytes * list bytes)) :=
  match args with
  | [] => mret None
  | a :: args =>
      _ ← require (is_bulk a) (B "ERR wrong type of key argument");
      values ← on_db (pop_many left now (arg_value a) times);
      match values with
      | [] => blmpop_loop left now times args
      | _ => mret (Some (arg_value a, values))
      end
  end.

(** The count of BLMPOP: one for an argument of another type. *)
Definition blmpop_count (a : CommandArg) : M Z :=
  if ArgIsInteger a then mret (ArgAsInteger a)
  else if is_bulk a then need (stoll (arg_value a)) (B "ERR count is not an integer or out of range")
  else mret 1%Z.

Definition HandleBLMPop (clock : Z) now cmd : M CommandResult :=
  _ ← require (negb (ArgCount cmd <? 3)) (wrong_number (B "BLMPOP"));
  timeout ← need (timeout_of (arg 0 cmd)) timeout_error;
  let count_idx := ArgCount cmd - 2 in
  count ← blmpop_count (arg count_idx cmd);
  _ ← require (negb (count <? 1)%Z) (B "ERR count must be positive");
  let dir_arg := arg (ArgCount cmd - 1) cmd in
  let left := if is_bulk dir_arg then default true (direction (arg_value dir_arg)) else true in
  let key_args := take (count_idx - 1) (drop 1 (cmd_args cmd)) in
  let times := Z.to_nat count in
  let reply (found : option (bytes * list bytes)) :=
    match found with Some kv => reply_key kv.1 kv.2 | None => resp_of_type kNullBulkString end in
  found ← blmpop_loop left now times key_args;
  match found with
  | Some kv => mret (Success (reply (Some kv)))
  | None =>
      match arg_value <$> key_args with
      | first :: _ as keys =>
          if double_lt d0_0 timeout then
            block clock first first cmd timeout (on_wake (λ now, first_pop_many left now times keys) reply)
          else mret reply_nil
      | [] => mret reply_nil
      end
  end.

Definition list_table (clock : Z) : list (bytes * (Z * RoutingStrategy * bool * (Z → Command → M CommandResult))) :=
  [(B "LPUSH", (-3, ByFirstKey, true, HandleLPush)); (B "RPUSH", (-3, ByFirstKey, true, HandleRPush));
   (B "LPOP", (2, ByFirstKey, true, HandleLPop)); (B "RPOP", (2, ByFirstKey, true, HandleRPop));
   (B "LLEN", (2, ByFirstKey, false, HandleLLen)); (B "LINDEX", (3, ByFirstKey, false, HandleLIndex));
   (B "LSET", (4, ByFirstKey, true, HandleLSet)); (B "LRANGE", (4, ByFirstKey, false, HandleLRange));
   (B "LTRIM", (4, ByFirstKey, true, HandleLTrim)); (B "LREM", (4, ByFirstKey, true, HandleLRem));
   (B "LINSERT", (5, ByFirstKey, true, HandleLInsert)); (B "RPOPLPUSH", (3, ByFirstKey, true, HandleRPopLPush));
   (B "BLPOP", (-2, ByFirstKey, true, HandleBLPop clock)); (B "BRPOP", (-2, ByFirstKey, true, HandleBRPop clock));
   (B "BRPOPLPUSH", (-3, ByFirstKey, true, HandleBRPopLPush)); (B "BLMOVE", (-5, ByFirstKey, true, HandleBLMove clock));
   (B "BLMPOP", (-4, ByFirstKey, true, HandleBLMPop clock)); (B "LMOVE", (-5, ByFirstKey, true, HandleLMove));
   (B "LMPOP", (-4, RouteNone, true, HandleLMPop)); (B "LPOS", (-3, ByFirstKey, false, HandleLPos));
   (B "LPUSHX", (3, ByFirstKey, true, HandleLPushX)); (B "RPUSHX", (3, ByFirstKey, true, HandleRPushX))]%Z.
End ListCommands.
