(* ===== verification/ZSetCommands.v ===== *)
(** * Sorted-set commands

    The handlers of src/astra/commands/redis/zset_commands.cpp.  [undefined] stands
    for what follows where C++ leaves the program undefined (a read behind the
    arguments, a sort whose comparison is no order) and where a score that is not a number would enter a sorted set,
    which the model of the set leaves out; every other step is that of the source.
    Members with equal scores are in an order that std::sort and the hash maps
    leave open; here it is that of the maps.  ZRANDMEMBER takes the order that the
    shuffle gives the indices, and the generator it draws from. *)
From Stdlib Require Import SpecFloat.
From stdpp Require Import sorting.
From S2P Require Import Prelude.
From S2P Require Import OrderedSet.
From S2P Require Import ZSet.
From S2P Require Import Simd.
From S2P Require Import Numbers.
From S2P Require Import Text.
From S2P Require Import RespTypes.
From S2P Require Import Executor.
From S2P Require Import KeyMetadata.
From S2P Require Import Eviction.
From S2P Require Import Rocks.
From S2P Require Import Database.
From S2P Require Import DatabaseTypes.
From S2P Require Import DatabaseZSets.
From S2P Require Import Blocking.
From S2P Require Import Commands.
From S2P Require Import StringCommands.
From S2P Require Import HashCommands.
From S2P Require Import SetCommands.
From S2P Require Import ListCommands.

(** ** Ranges of members and scores *)

(** [parse_lex]: whether the bound is exclusive, and its text. *)
Definition parse_lex (range : bytes) : bool * bytes :=
  match range with
  | c :: rest => if ascii_eqb c "(" then (true, rest) else if ascii_eqb c "[" then (false, rest) else (false, range)
  | [] => (false, [])
  end.

Definition bytes_ltb (a b : bytes) : bool := negb (bytes_leb b a).

(** [in_min && in_max] of the ranges of members. *)
Definition in_lex (lo hi : bool * bytes) (member : bytes) : bool :=
  (if lo.1 then bytes_ltb lo.2 member else bytes_leb lo.2 member) &&
  (if hi.1 then bytes_ltb member hi.2 else bytes_leb member hi.2).

(** [parse_score] of ZREMRANGEBYSCORE: an exclusive bound that is no number is minus
    infinity, an inclusive one zero. *)
Definition parse_bound `{!DoubleText} (range : bytes) : bool * spec_float :=
  if bool_decide (head range = Some "("%char) then (true, default (S754_infinity true) (atod (drop 1 range)))
  else if decide (range = B "-inf") then (false, S754_infinity true)
  else if decide (range = B "+inf") then (false, S754_infinity false)
  else (false, default d0_0 (atod range)).

Definition in_scores (lo hi : bool * spec_float) (s : spec_float) : bool :=
  (if lo.1 then double_lt lo.2 s else double_le lo.2 s) && (if hi.1 then double_lt s hi.2 else double_le s hi.2).

(** ** Scores of several sets *)

Abbreviation Scores := (gmap bytes spec_float).

(** The order of scores, and the lists for which [<] is one: a score that is not a
    number compares with none, which two different scores beside it rule out. *)
Definition by_score (a b : bytes * spec_float) : Prop := double_lt b.2 a.2 = false.
#[global] Instance by_score_dec : RelDecision by_score.
Proof. intros a b. unfold by_score. apply _. Defined.
Definition sortable (l : list (bytes * spec_float)) : Prop :=
  Forall (λ a, is_nan a.2 = false) l ∨ Forall (λ a, Forall (λ b, double_lt a.2 b.2 = false) l) l.
#[global] Instance sortable_dec l : Decision (sortable l).
Proof. unfold sortable. apply _. Defined.

(** ZINTER: the score of one more set; the first one starts MIN and MAX. *)
Definition inter_score (aggregate : bytes) (first : bool) (aggregated weighted : spec_float) : spec_float :=
  if decide (aggregate = B "SUM") then double_add aggregated weighted
  else if decide (aggregate = B "MIN") then if first || double_lt weighted aggregated then weighted else aggregated
  else if decide (aggregate = B "MAX") then if first || double_lt aggregated weighted then weighted else aggregated
  else aggregated.

(** ZUNION: the scores of a member in the sets that have it, in one; [min_element]
    and [max_element] of a list that is not empty. *)
Definition union_score (aggregate : bytes) (scores : list spec_float) : spec_float :=
  if decide (aggregate = B "SUM") then foldl double_add d0_0 scores
  else match scores with
       | [] => d0_0
       | s :: scores =>
           if decide (aggregate = B "MIN") then foldl (λ least x, if double_lt x least then x else least) s scores
           else if decide (aggregate = B "MAX") then foldl (λ largest x, if double_lt largest x then x else largest) s scores
           else d0_0
       end.

Definition is_aggregate (s : bytes) : bool := bool_decide (s ∈ [B "SUM"; B "MIN"; B "MAX"]).

(** WEIGHTS and AGGREGATE of the commands that store.  [pending] weights of [numkeys]
    are still to be read. *)
Fixpoint store_options (numkeys : Z) (args : list CommandArg) (pending : Z) (weights : list spec_float) (aggregate : bytes)
    : (list spec_float * bytes) + bytes :=
  match args with
  | [] => inl (weights, aggregate)
  | a :: args =>
      if (0 <? pending)%Z then
        if negb (is_bulk a) then inr (B "ERR wrong type of weight argument")
        else match stod (arg_value a) with
             | None => inr (B "ERR invalid weight value")
             | Some w => store_options numkeys args (pending - 1) (weights ++ [w]) aggregate
             end
      else if negb (is_bulk a) then inr (B "ERR wrong type of argument")
      else if decide (arg_value a = B "WEIGHTS") then store_options numkeys args numkeys weights aggregate
      else if decide (arg_value a = B "AGGREGATE") then
        match args with
        | [] => inr (B "ERR wrong number of arguments for 'AGGREGATE'")
        | x :: args =>
            if negb (is_bulk x) then inr (B "ERR wrong type of aggregate argument")
            else if is_aggregate (arg_value x) then store_options numkeys args 0 weights (arg_value x)
            else inr (B "ERR invalid aggregate function")
        end
      else inr (B "ERR unknown argument")
  end.

Record ScoreOptions := MkScoreOptions { with_scores : bool; set_weights : list spec_float; aggregate : bytes }.

(** The options of ZINTER and ZUNION; what is not known or has no arguments is
    skipped. *)
Fixpoint combine_options `{!DoubleText} (numkeys : nat) (args : list CommandArg) (pending : nat) (o : ScoreOptions) : ScoreOptions + bytes :=
  match args with
  | [] => inl o
  | a :: args =>
      match pending with
      | S more =>
          match atod (arg_value a) with
          | None => inr (B "ERR weight is not a valid float")
          | Some w => combine_options numkeys args more (MkScoreOptions (with_scores o) (<[numkeys - pending := w]> (set_weights o)) (aggregate o))
          end
      | 0 =>
          if negb (is_bulk a) then inr (B "ERR wrong type of option argument")
          else if decide (arg_value a = B "WITHSCORES") then combine_options numkeys args 0 (MkScoreOptions true (set_weights o) (aggregate o))
          else if bool_decide (arg_value a = B "WEIGHTS") && (numkeys <=? length args) then combine_options numkeys args numkeys o
          else match args with
               | [] => inl o
               | x :: rest =>
                   if decide (arg_value a = B "AGGREGATE") then
                     if is_aggregate (arg_value x) then combine_options numkeys rest 0 (MkScoreOptions (with_scores o) (set_weights o) (arg_value x))
                     else inr (B "ERR unknown aggregate type")
                   else combine_options numkeys args 0 o
               end
      end
  end.

(** WITHSCORES and LIMIT of the ranges by score; a LIMIT without two arguments has
    the values so far. *)
Fixpoint range_options (args : list CommandArg) (scores has_limit : bool) (offset count : Z) : (bool * option (Z * Z)) + bytes :=
  match args with
  | [] => inl (scores, if has_limit then Some (offset, count) else None)
  | a :: args =>
      if negb (is_bulk a) then range_options args scores has_limit offset count
      else let arg_lower := to_lower <$> arg_value a in
      if decide (arg_lower = B "withscores") then range_options args true has_limit offset count
      else if decide (arg_lower = B "limit") then
        match args with
        | x :: y :: rest =>
            match stoll (arg_value x), stoll (arg_value y) with
            | Some offset, Some count => range_options rest scores true offset count
            | _, _ => inr syntax_error
            end
        | _ => range_options args scores true offset count
        end
      else range_options args scores has_limit offset count
  end.

(** LIMIT of ZRANGEBYLEX. *)
Fixpoint lex_options `{!AbslNumbers} (args : list CommandArg) (offset count : Z) : (Z * Z) + bytes :=
  match args with
  | [] => inl (offset, count)
  | a :: args =>
      if negb (is_bulk a) then inr (B "ERR wrong type of option argument")
      else match args with
           | x :: y :: rest =>
               if decide (arg_value a = B "LIMIT") then
                 match SimpleAtoi (arg_value x) with
                 | None => inr (B "ERR offset is not a valid integer")
                 | Some offset =>
                     if (offset <? 0)%Z then inr (B "ERR offset is not a valid integer")
                     else match SimpleAtoi (arg_value y) with
                          | None => inr (B "ERR count is not a valid integer")
                          | Some count =>
                              if (count <? 0)%Z then inr (B "ERR count is not a valid integer") else lex_options rest offset count
                          end
                 end
               else lex_options args offset count
           | _ => lex_options args offset count
           end
  end.

Section ZSetCommands.
Context {P : Platform} {HD : DoubleText} (undefined : Ctx → Ctx * outcome).
Implicit Types (cmd : Command) (now : Z) (key member : bytes).

Definition lost {A} : M A := λ c, let '(c, o) := undefined c in (c, inr o).
Definition as_score (d : spec_float) : M Score := match score_of d with Some s => mret s | None => lost end.

(** [std::sort] by score *)
Definition sort_scores (l : list (bytes * spec_float)) : M (list (bytes * spec_float)) :=
  if decide (sortable l) then mret (merge_sort by_score l) else lost.

(** An operation of the database that has no result in the model when a score
    becomes NaN. *)
Definition on_scores {A} (f : Database → option (Database * A)) : M A := λ c,
  match f (ctx_db c) with Some r => on_db (λ _, r) c | None => lost c end.

Definition not_float : bytes := B "ERR value is not a valid float".
Definition doubles (l : list (bytes * Score)) : list (bytes * spec_float) := (λ m, (m.1, dval m.2)) <$> l.

(** Members, each followed by its score when scores are asked for. *)
Definition flat (scores : bool) (l : list (bytes * spec_float)) : list RespValue :=
  l ≫= λ m, resp_string m.1 :: if scores then [resp_double m.2] else [].
Definition reply_members (scores : bool) (l : list (bytes * spec_float)) : CommandResult := reply_array (flat scores l).
Definition pair_of (m : bytes * Score) : RespValue := resp_array [resp_string m.1; resp_double (dval m.2)].

(** ** Members and ranks *)

Fixpoint zadd_loop now key (args : list CommandArg) (count : Z) : M Z :=
  match args with
  | s :: m :: args =>
      _ ← require (is_bulk s && is_bulk m) (B "ERR wrong type of score or member argument");
      d ← need (atod (arg_value s)) not_float;
      score ← as_score d;
      added ← on_db (DbZAdd now key score (arg_value m));
      zadd_loop now key args (count_if added count)
  | _ => mret count
  end.

Definition HandleZAdd now cmd : M CommandResult :=
  _ ← require (negb ((ArgCount cmd <? 3) || negb (ArgCount cmd mod 2 =? 1))) (wrong_number (B "ZADD"));
  _ ← require (is_bulk (arg 0 cmd)) (B "ERR wrong type of key argument");
  count ← zadd_loop now (arg_text 0 cmd) (drop 1 (cmd_args cmd)) 0;
  mret (reply_int count).

Definition HandleZRange now cmd : M CommandResult :=
  _ ← require (negb ((ArgCount cmd <? 3) || (4 <? ArgCount cmd))) (wrong_number (B "ZRANGE"));
  _ ← require (is_bulk (arg 0 cmd) && is_bulk (arg 1 cmd) && is_bulk (arg 2 cmd)) (B "ERR wrong type of argument");
  start ← need (SimpleAtoi (arg_text 1 cmd)) not_integer;
  stop ← need (SimpleAtoi (arg_text 2 cmd)) not_integer;
  scores ← (if (ArgCount cmd =? 4) && is_bulk (arg 3 cmd) then
              _ ← require (bool_decide (upper (arg_text 3 cmd) = B "WITHSCORES")) syntax_error; mret true
            else mret false);
  results ← on_db (DbZRangeByRank now (arg_text 0 cmd) start stop false scores);
  mret (reply_members scores (doubles results)).

(** One operation for each member, and how many were done. *)
Definition count_members (f : bytes → Database → Database * bool) (members : list bytes) : M Z :=
  mfold (λ count member, done ← on_db (f member); mret (count_if done count)) 0%Z members.

Definition HandleZRem now cmd : M CommandResult :=
  _ ← require (negb (ArgCount cmd <? 2)) (wrong_number (B "ZREM"));
  _ ← require (is_bulk (arg 0 cmd)) (B "ERR wrong type of key argument");
  members ← bulk_args (drop 1 (cmd_args cmd)) (B "ERR wrong type of member argument");
  count ← count_members (DbZRem now (arg_text 0 cmd)) members;
  mret (reply_int count).

Definition score_or_nil (s : option Score) : RespValue :=
  match s with Some s => resp_double (dval s) | None => resp_of_type kNullBulkString end.

Definition HandleZScore now cmd : M CommandResult :=
  _ ← require (ArgCount cmd =? 2) (wrong_number (B "ZSCORE"));
  _ ← require (is_bulk (arg 0 cmd) && is_bulk (arg 1 cmd)) (B "ERR wrong type of argument");
  score ← on_db (DbZScore now (arg_text 0 cmd) (arg_text 1 cmd));
  mret (Success (score_or_nil score)).

Fixpoint mscore_loop now key (args : list CommandArg) (result : list RespValue) : M (list RespValue) :=
  match args with
  | [] => mret result
  | a :: args =>
      _ ← require (is_bulk a) (B "ERR wrong type of member argument");
      score ← on_db (DbZScore now key (arg_value a));
      mscore_loop now key args (result ++ [score_or_nil score])
  end.

Definition HandleZMScore now cmd : M CommandResult :=
  _ ← require (negb (ArgCount cmd <? 2)) (wrong_number (B "ZMSCORE"));
  _ ← require (is_bulk (arg 0 cmd)) (B "ERR wrong type of key argument");
  result ← mscore_loop now (arg_text 0 cmd) (drop 1 (cmd_args cmd)) [];
  mret (reply_array result).

Definition HandleZCard now cmd : M CommandResult :=
  _ ← require (ArgCount cmd =? 1) (wrong_number (B "ZCARD"));
  _ ← require (is_bulk (arg 0 cmd)) (B "ERR wrong type of key argument");
  count ← on_db (DbZCard now (arg_text 0 cmd));
  mret (reply_int (i64 count)).

Definition HandleZCount now cmd : M CommandResult :=
  _ ← require (ArgCount cmd =? 3) (wrong_number (B "ZCOUNT"));
  _ ← require (is_bulk (arg 0 cmd) && is_bulk (arg 1 cmd) && is_bulk (arg 2 cmd)) (B "ERR wrong type of argument");
  min ← need (atod (arg_text 1 cmd)) not_float;
  max ← need (atod (arg_text 2 cmd)) not_float;
  lo ← as_score min;
  hi ← as_score max;
  count ← on_db (DbZCount now (arg_text 0 cmd) lo hi);
  mret (reply_int (i64 count)).

Definition HandleZIncrBy now cmd : M CommandResult :=
  _ ← require (ArgCount cmd =? 3) (wrong_number (B "ZINCRBY"));
  _ ← require (is_bulk (arg 0 cmd) && is_bulk (arg 1 cmd) && is_bulk (arg 2 cmd)) (B "ERR wrong type of argument");
  increment ← need (atod (arg_text 1 cmd)) not_float;
  new_score ← on_scores (DbZIncrBy (arg_text 0 cmd) increment (arg_text 2 cmd));
  _ ← LogToAof (B "ZINCRBY") [arg_text 0 cmd; arg_text 1 cmd; arg_text 2 cmd];
  mret (Success (resp_double new_score)).

(** ZRANK and ZREVRANK *)
Definition rank_with (name : bytes) (reverse : bool) now cmd : M CommandResult :=
  _ ← require (ArgCount cmd =? 2) (wrong_number name);
  _ ← require (is_bulk (arg 0 cmd) && is_bulk (arg 1 cmd)) (B "ERR wrong type of argument");
  rank ← on_db (DbZRank now (arg_text 0 cmd) (arg_text 1 cmd) reverse);
  mret (match rank with Some r => reply_int (i64 r) | None => Success (resp_of_type kNull) end).
Definition HandleZRank : Z → Command → M CommandResult := rank_with (B "ZRANK") false.
Definition HandleZRevRank : Z → Command → M CommandResult := rank_with (B "ZREVRANK") true.

(** ** Ranges *)

Definition HandleZRevRange now cmd : M CommandResult :=
  _ ← require (negb (ArgCount cmd <? 3)) (wrong_number (B "ZREVRANGE"));
  _ ← require (is_bulk (arg 0 cmd) && is_bulk (arg 1 cmd) && is_bulk (arg 2 cmd)) (B "ERR wrong type of argument");
  start ← need (stoll (arg_text 1 cmd)) not_integer;
  stop ← need (stoll (arg_text 2 cmd)) not_integer;
  let scores := (3 <? ArgCount cmd) && is_bulk (arg 3 cmd) && bool_decide (to_lower <$> arg_text 3 cmd = B "withscores") in
  results ← on_db (DbZRange now (arg_text 0 cmd) start stop true scores);
  mret (reply_members scores (doubles results)).

(** ZRANGEBYSCORE and ZREVRANGEBYSCORE, which has the bounds the other way round. *)
Definition range_by_score (name : bytes) (reverse : bool) now cmd : M CommandResult :=
  _ ← require (negb (ArgCount cmd <? 3)) (wrong_number name);
  _ ← require (is_bulk (arg 0 cmd) && is_bulk (arg 1 cmd) && is_bulk (arg 2 cmd)) (B "ERR wrong type of argument");
  let min_str := arg_text (if reverse then 2 else 1) cmd in
  let max_str := arg_text (if reverse then 1 else 2) cmd in
  match range_options (drop 3 (cmd_args cmd)) false false 0 (-1) with
  | inr message => fail message
  | inl (scores, limit) =>
      results ← on_db (DbZRangeByScore now (arg_text 0 cmd) min_str max_str reverse scores limit);
      match results with
      | Some results => mret (reply_members scores (doubles results))
      | None => lost
      end
  end.
Definition HandleZRangeByScore : Z → Command → M CommandResult := range_by_score (B "ZRANGEBYSCORE") false.
Definition HandleZRevRangeByScore : Z → Command → M CommandResult := range_by_score (B "ZREVRANGEBYSCORE") true.

(** All members in the order of their scores. *)
Definition every_member now key (scores : bool) : M (list (bytes * Score)) := on_db (DbZRangeByRank now key 0 (-1) false scores).
Definition lex_members (min max : bytes) (l : list (bytes * Score)) : list (bytes * Score) :=
  filter (λ m : bytes * Score, in_lex (parse_lex min) (parse_lex max) m.1 = true) l.

Definition HandleZLexCount now cmd : M CommandResult :=
  _ ← require (ArgCount cmd =? 3) (wrong_number (B "ZLEXCOUNT"));
  _ ← require (is_bulk (arg 0 cmd) && is_bulk (arg 1 cmd) && is_bulk (arg 2 cmd)) (B "ERR wrong type of argument");
  members ← every_member now (arg_text 0 cmd) false;
  mret (reply_int (zlen (lex_members (arg_text 1 cmd) (arg_text 2 cmd) members))).

Definition HandleZRangeByLex now cmd : M CommandResult :=
  _ ← require (negb (ArgCount cmd <? 3)) (wrong_number (B "ZRANGEBYLEX"));
  _ ← require (is_bulk (arg 0 cmd) && is_bulk (arg 1 cmd) && is_bulk (arg 2 cmd)) (B "ERR wrong type of argument");
  match lex_options (drop 3 (cmd_args cmd)) 0 (2 ^ 64 - 1) with
  | inr message => fail message
  | inl (offset, count) =>
      members ← every_member now (arg_text 0 cmd) false;
      match members with
      | [] => mret (Success (resp_of_type kNullArray))
      | _ =>
          let filtered := fst <$> lex_members (arg_text 1 cmd) (arg_text 2 cmd) members in
          let start := Z.min offset (zlen filtered) in
          let stop := Z.min (u64 (start + count)) (zlen filtered) in
          mret (reply_strings (take (Z.to_nat (stop - start)) (drop (Z.to_nat start) filtered)))
      end
  end.

(** The members are not reversed, and a LIMIT is ignored. *)
Definition HandleZRevRangeByLex now cmd : M CommandResult :=
  _ ← require (negb (ArgCount cmd <? 3)) (wrong_number (B "ZREVRANGEBYLEX"));
  _ ← require (is_bulk (arg 0 cmd) && is_bulk (arg 1 cmd) && is_bulk (arg 2 cmd)) (B "ERR wrong type of argument");
  members ← on_db (DbZRangeByRank now (arg_text 0 cmd) 0 (-1) true false);
  match members with
  | [] => mret (Success (resp_of_type kNullArray))
  | _ => mret (reply_strings (fst <$> lex_members (arg_text 2 cmd) (arg_text 1 cmd) members))
  end.

(** The members are put into the destination one by one. *)
Fixpoint zadd_all now key (l : list (bytes * Score)) : M () :=
  match l with
  | [] => mret ()
  | (member, s) :: l => _ ← on_db (DbZAdd now key s member); zadd_all now key l
  end.

(** A LIMIT is ignored. *)
Definition HandleZRangeStore now cmd : M CommandResult :=
  _ ← require (negb (ArgCount cmd <? 4)) (wrong_number (B "ZRANGESTORE"));
  _ ← require (is_bulk (arg 0 cmd) && is_bulk (arg 1 cmd) && is_bulk (arg 2 cmd) && is_bulk (arg 3 cmd)) (B "ERR wrong type of argument");
  let dest := arg_text 0 cmd in
  members ← every_member now (arg_text 1 cmd) true;
  let filtered := lex_members (arg_text 2 cmd) (arg_text 3 cmd) members in
  _ ← on_db (DbDel dest);
  _ ← zadd_all now dest filtered;
  mret (reply_int (zlen filtered)).

(** ** Removal of ranges *)

Definition remove_all now key (members : list bytes) : M () := _ ← count_members (DbZRem now key) members; mret ().

Definition HandleZRemRangeByLex now cmd : M CommandResult :=
  _ ← require (ArgCount cmd =? 3) (wrong_number (B "ZREMRANGEBYLEX"));
  _ ← require (is_bulk (arg 0 cmd) && is_bulk (arg 1 cmd) && is_bulk (arg 2 cmd)) (B "ERR wrong type of argument");
  members ← every_member now (arg_text 0 cmd) true;
  let to_remove := fst <$> lex_members (arg_text 1 cmd) (arg_text 2 cmd) members in
  _ ← remove_all now (arg_text 0 cmd) to_remove;
  mret (reply_int (zlen to_remove)).

Definition rank_members (start stop : Z) (l : list (bytes * Score)) : list (bytes * Score) :=
  let size := zlen l in
  let start := if (start <? 0)%Z then (size + start)%Z else start in
  let stop := if (stop <? 0)%Z then (size + stop)%Z else stop in
  let start := if (start <? 0)%Z then 0%Z else start in
  let stop := if (size <=? stop)%Z then (size - 1)%Z else stop in
  if (stop <? start)%Z then [] else take (Z.to_nat (stop - start + 1)) (drop (Z.to_nat start) l).

Definition HandleZRemRangeByRank now cmd : M CommandResult :=
  _ ← require (ArgCount cmd =? 3) (wrong_number (B "ZREMRANGEBYRANK"));
  _ ← require (is_bulk (arg 0 cmd) && is_bulk (arg 1 cmd) && is_bulk (arg 2 cmd)) (B "ERR wrong type of argument");
  start ← need (SimpleAtoi (arg_text 1 cmd)) not_integer;
  stop ← need (SimpleAtoi (arg_text 2 cmd)) not_integer;
  members ← every_member now (arg_text 0 cmd) false;
  let to_remove := fst <$> rank_members start stop members in
  _ ← remove_all now (arg_text 0 cmd) to_remove;
  mret (reply_int (zlen to_remove)).

Definition HandleZRemRangeByScore now cmd : M CommandResult :=
  _ ← require (ArgCount cmd =? 3) (wrong_number (B "ZREMRANGEBYSCORE"));
  _ ← require (is_bulk (arg 0 cmd) && is_bulk (arg 1 cmd) && is_bulk (arg 2 cmd)) (B "ERR wrong type of argument");
  members ← every_member now (arg_text 0 cmd) true;
  let in_range (m : bytes * Score) := in_scores (parse_bound (arg_text 1 cmd)) (parse_bound (arg_text 2 cmd)) (dval m.2) = true in
  let to_remove := fst <$> filter in_range members in
  _ ← remove_all now (arg_text 0 cmd) to_remove;
  mret (reply_int (zlen to_remove)).

(** ** The ends of a sorted set *)

Definition zpop (pop_max : bool) now key : Database → Database * option (bytes * Score) :=
  if pop_max then DbZPopMax now key else DbZPopMin now key.

(** So many members, until the set has no more. *)
Fixpoint zpop_many (pop_max : bool) now key (times : nat) (db : Database) : Database * list (bytes * Score) :=
  match times with
  | 0 => (db, [])
  | S times =>
      let '(db, result) := zpop pop_max now key db in
      match result with
      | None => (db, [])
      | Some m => let '(db, results) := zpop_many pop_max now key times db in (db, m :: results)
      end
  end.

(** ZPOPMIN and ZPOPMAX *)
Definition pop_members (name : bytes) (pop_max : bool) now cmd : M CommandResult :=
  _ ← require (negb (ArgCount cmd <? 1)) (wrong_number name);
  _ ← require (is_bulk (arg 0 cmd)) (B "ERR wrong type of key argument");
  count ← (if 1 <? ArgCount cmd then blmpop_count (arg 1 cmd) else mret 1%Z);
  _ ← require (negb (count <? 1)%Z) (B "ERR count must be positive");
  results ← on_db (zpop_many pop_max now (arg_text 0 cmd) (Z.to_nat count));
  mret (match results with [] => reply_nil | _ => reply_array (pair_of <$> results) end).
Definition HandleZPopMin : Z → Command → M CommandResult := pop_members (B "ZPOPMIN") false.
Definition HandleZPopMax : Z → Command → M CommandResult := pop_members (B "ZPOPMAX") true.

(** ZMPOP pops so many times, and skips what is not there. *)
Fixpoint zpop_times (pop_max : bool) now key (times : nat) (db : Database) : Database * list (bytes * Score) :=
  match times with
  | 0 => (db, [])
  | S times =>
      let '(db, result) := zpop pop_max now key db in
      let '(db, results) := zpop_times pop_max now key times db in
      (db, option_list result ++ results)
  end.

Fixpoint zmpop_keys (pop_max : bool) now (count : Z) (keys : list bytes) : M CommandResult :=
  match keys with
  | [] => mret (Success (resp_of_type kNullArray))
  | key :: keys =>
      zcard ← on_db (DbZCard now key);
      if (0 <? zcard)%Z then
        popped ← on_db (zpop_times pop_max now key (Z.to_nat (Z.min count zcard)));
        mret (reply_array [resp_string key; resp_array (flat true (doubles popped))])
      else zmpop_keys pop_max now count keys
  end.

(** The number of keys in a bulk string, and the keys; [more] arguments must follow
    the number besides the keys. *)
Definition counted_keys (name : bytes) (more : Z) cmd : M (list bytes) :=
  _ ← require (is_bulk (arg 0 cmd)) (B "ERR wrong type of numkeys argument");
  numkeys ← need (SimpleAtoi (arg_text 0 cmd)) not_integer;
  _ ← require (negb (numkeys <=? 0)%Z) not_integer;
  _ ← require (negb (Z.of_nat (ArgCount cmd) <? u64 (i64 (numkeys + more)))%Z) (wrong_number name);
  bulk_args (take (Z.to_nat numkeys) (drop 1 (cmd_args cmd))) (B "ERR wrong type of key argument").

Definition end_of (s : bytes) : option bool :=
  if decide (s = B "MIN") then Some false else if decide (s = B "MAX") then Some true else None.

Definition HandleZMPop now cmd : M CommandResult :=
  _ ← require (negb (ArgCount cmd <? 3)) (wrong_number (B "ZMPOP"));
  keys ← counted_keys (B "ZMPOP") 2 cmd;
  let at_minmax := S (length keys) in
  _ ← require (is_bulk (arg at_minmax cmd)) (B "ERR wrong type of MIN|MAX argument");
  pop_max ← need (end_of (arg_text at_minmax cmd)) syntax_error;
  match count_option (drop (S at_minmax) (cmd_args cmd)) 1 with
  | inr message => fail message
  | inl count => zmpop_keys pop_max now count keys
  end.

(** ** Waiting *)

(** The keys before one that is no bulk string are tried before the error. *)
Fixpoint zpop_loop (pop_max : bool) now (times : nat) (args : list CommandArg) : M (option (bytes * list (bytes * Score))) :=
  match args with
  | [] => mret None
  | a :: args =>
      _ ← require (is_bulk a) (B "ERR wrong type of key argument");
      results ← on_db (zpop_many pop_max now (arg_value a) times);
      match results with
      | [] => zpop_loop pop_max now times args
      | _ => mret (Some (arg_value a, results))
      end
  end.

(** The same when the client is woken up. *)
Fixpoint zpop_first (pop_max : bool) now (times : nat) (keys : list bytes) (db : Database) : Database * option (bytes * list (bytes * Score)) :=
  match keys with
  | [] => (db, None)
  | key :: keys =>
      let '(db, results) := zpop_many pop_max now key times db in
      match results with
      | [] => zpop_first pop_max now times keys db
      | _ => (db, Some (key, results))
      end
  end.

(** Members at once, or the client waits in the queue of the first key. *)
Definition zpop_or_wait (pop_max : bool) (times : nat) (key_args : list CommandArg) (timeout : spec_float)
    (reply : bytes → list (bytes * Score) → RespValue) (clock : Z) now cmd : M CommandResult :=
  let answer (found : option (bytes * list (bytes * Score))) :=
    match found with Some kv => reply kv.1 kv.2 | None => resp_of_type kNullBulkString end in
  found ← zpop_loop pop_max now times key_args;
  match found with
  | Some kv => mret (Success (answer (Some kv)))
  | None =>
      match arg_value <$> key_args with
      | first :: _ as keys =>
          if double_lt d0_0 timeout then block clock first first cmd timeout (on_wake (λ now, zpop_first pop_max now times keys) answer)
          else mret reply_nil
      | [] => mret reply_nil
      end
  end.

(** BZPOPMIN and BZPOPMAX pop once. *)
Definition blocking_zpop (name : bytes) (pop_max : bool) (clock : Z) now cmd : M CommandResult :=
  _ ← require (negb (ArgCount cmd <? 2)) (wrong_number name);
  timeout ← need (timeout_of (arg (ArgCount cmd - 1) cmd)) timeout_error;
  zpop_or_wait pop_max 1 (take (ArgCount cmd - 1) (cmd_args cmd)) timeout
    (λ key popped, resp_array (resp_string key :: flat true (doubles popped))) clock now cmd.
Definition HandleBZPopMin : Z → Z → Command → M CommandResult := blocking_zpop (B "BZPOPMIN") false.
Definition HandleBZPopMax : Z → Z → Command → M CommandResult := blocking_zpop (B "BZPOPMAX") true.

(** MIN, MAX and COUNT of BZMPOP; other arguments are skipped. *)
Fixpoint bzmpop_options (args : list CommandArg) (count : Z) (pop_max : bool) : (Z * bool) + bytes :=
  match args with
  | [] => inl (count, pop_max)
  | a :: args =>
      if negb (is_bulk a) then bzmpop_options args count pop_max
      else let arg_lower := to_lower <$> arg_value a in
      if decide (arg_lower = B "min") then bzmpop_options args count false
      else if decide (arg_lower = B "max") then bzmpop_options args count true
      else if decide (arg_lower = B "count") then
        match args with
        | [] => inl (count, pop_max)
        | x :: rest =>
            if ArgIsInteger x then bzmpop_options rest (ArgAsInteger x) pop_max
            else if is_bulk x then
              match stoll (arg_value x) with
              | None => inr (B "ERR count is not an integer or out of range")
              | Some count => bzmpop_options rest count pop_max
              end
            else bzmpop_options rest count pop_max
        end
      else bzmpop_options args count pop_max
  end.

Definition HandleBZMPop (clock : Z) now cmd : M CommandResult :=
  _ ← require (negb (ArgCount cmd <? 4)) (wrong_number (B "BZMPOP"));
  let numkeys_arg := arg 0 cmd in
  numkeys ← (if ArgIsInteger numkeys_arg then mret (ArgAsInteger numkeys_arg)
             else need (if is_bulk numkeys_arg then stoll (arg_value numkeys_arg) else None) (B "ERR numkeys must be an integer"));
  _ ← require (negb (numkeys <? 1)%Z) (B "ERR numkeys must be positive");
  let timeout_idx := u64 (i64 (1 + numkeys)) in
  _ ← require (timeout_idx <? Z.of_nat (ArgCount cmd))%Z (wrong_number (B "BZMPOP"));
  timeout ← need (timeout_of (arg (Z.to_nat timeout_idx) cmd)) timeout_error;
  match bzmpop_options (drop (S (Z.to_nat timeout_idx)) (cmd_args cmd)) 1 false with
  | inr message => fail message
  | inl (count, pop_max) =>
      _ ← require (negb (count <? 1)%Z) (B "ERR count must be positive");
      zpop_or_wait pop_max (Z.to_nat count) (take (Z.to_nat numkeys) (drop 1 (cmd_args cmd))) timeout
        (λ key popped, resp_array [resp_string key; resp_array (pair_of <$> popped)]) clock now cmd
  end.

(** ** Several sorted sets *)

(** So many keys from an argument on; behind the last argument the loop is
    undefined. *)
Definition numbered_keys (first : nat) (numkeys : Z) cmd : M (list bytes) :=
  let args := drop first (cmd_args cmd) in
  keys ← bulk_args (take (Z.to_nat (Z.min numkeys (zlen args))) args) (B "ERR wrong type of key argument");
  if (zlen args <? numkeys)%Z then lost else mret keys.

(** The number of keys of the commands that take an integer, as [size_t]. *)
Definition size_arg (name : bytes) (i : nat) cmd : M Z :=
  _ ← require (ArgIsInteger (arg i cmd)) (B "ERR numkeys must be an integer");
  let numkeys := u64 (ArgAsInteger (arg i cmd)) in
  _ ← require (negb ((numkeys =? 0)%Z || (Z.of_nat (ArgCount cmd) <? u64 (Z.of_nat (S i) + numkeys))%Z)) (wrong_number name);
  mret numkeys.

(** ZUNIONSTORE and ZINTERSTORE *)
Definition store_combined (name : bytes)
    (f : Z → bytes → Z → list bytes → list spec_float → bytes → Database → option (Database * Z)) now cmd : M CommandResult :=
  _ ← require (negb (ArgCount cmd <? 3)) (wrong_number name);
  _ ← require (is_bulk (arg 0 cmd)) (B "ERR wrong type of destination argument");
  numkeys ← size_arg name 1 cmd;
  keys ← numbered_keys 2 numkeys cmd;
  match store_options numkeys (drop (2 + length keys) (cmd_args cmd)) 0 [] (B "SUM") with
  | inr message => fail message
  | inl (weights, aggregate) =>
      count ← on_scores (f now (arg_text 0 cmd) numkeys keys weights aggregate);
      mret (reply_int (i64 count))
  end.
Definition HandleZUnionStore : Z → Command → M CommandResult := store_combined (B "ZUNIONSTORE") DbZUnionStore.
Definition HandleZInterStore : Z → Command → M CommandResult := store_combined (B "ZINTERSTORE") DbZInterStore.

Definition HandleZDiffStore now cmd : M CommandResult :=
  _ ← require (negb (ArgCount cmd <? 3)) (wrong_number (B "ZDIFFSTORE"));
  _ ← require (is_bulk (arg 0 cmd)) (B "ERR wrong type of destination argument");
  numkeys ← size_arg (B "ZDIFFSTORE") 1 cmd;
  keys ← numbered_keys 2 numkeys cmd;
  count ← on_scores (DbZDiffStore now (arg_text 0 cmd) numkeys keys);
  mret (reply_int (i64 count)).

(** The sets of the keys at a worker: the members without their scores, which are
    zero then. *)
Definition worker_zsets now (reverse : bool) (w : nat) (keys : list bytes) : M (list (bytes * Scores)) :=
  mfold (λ l key,
    members ← on_worker w (DbZRangeByRank now key 0 (-1) reverse false);
    mret (l ++ [(key, list_to_map (doubles members))])) [] keys.

(** [insert] of a range keeps the members that are there. *)
Definition collect_zsets now (reverse : bool) (n : nat) (keys : list bytes) : M (gmap bytes Scores) :=
  mfold (λ (all_zsets : gmap bytes Scores) w,
    zsets ← worker_zsets now reverse w keys;
    mret (foldl (λ (all_zsets : gmap bytes Scores) kz, <[kz.1 := default ∅ (all_zsets !! kz.1) ∪ kz.2]> all_zsets) all_zsets zsets)) ∅ (seq 0 n).

Definition set_of (all_zsets : gmap bytes Scores) key : Scores := default ∅ (all_zsets !! key).

Definition HandleZDiff now cmd : M CommandResult :=
  _ ← require (negb (ArgCount cmd <? 2)) (wrong_number (B "ZDIFF"));
  numkeys ← size_arg (B "ZDIFF") 0 cmd;
  keys ← numbered_keys 1 numkeys cmd;
  let last_arg := arg (ArgCount cmd - 1) cmd in
  let scores := (1 + length keys <? ArgCount cmd) && is_bulk last_arg && bool_decide (arg_value last_arg = B "WITHSCORES") in
  n ← workers_of;
  if 1 <? n then
    all_zsets ← collect_zsets now true n keys;
    let in_others member := existsb (λ key, bool_decide (is_Some (set_of all_zsets key !! member))) (drop 1 keys) in
    let diff_result := filter (λ m : bytes * spec_float, in_others m.1 = false) (map_to_list (set_of all_zsets (default [] (head keys)))) in
    sorted ← sort_scores diff_result;
    mret (reply_members scores sorted)
  else
    members ← on_db (DbZDiff now numkeys keys);
    mret (reply_members scores (doubles members)).

(** The score of a member in the intersection, if it is in all sets; [score] finds it
    in one of them. *)
Fixpoint inter_member (score : bytes → bytes → M (option spec_float)) (aggregate member : bytes) (first : bool)
    (weights : list spec_float) (keys : list bytes) (aggregated : spec_float) : M (option spec_float) :=
  match keys, weights with
  | key :: keys, w :: weights =>
      s ← score key member;
      match s with
      | None => mret None
      | Some s => inter_member score aggregate member false weights keys (inter_score aggregate first aggregated (double_mul s w))
      end
  | _, _ => mret (Some aggregated)
  end.

Definition inter_result (score : bytes → bytes → M (option spec_float)) (o : ScoreOptions) (keys members : list bytes) : M CommandResult :=
  result ← mfold (λ result member,
    s ← inter_member score (aggregate o) member true (set_weights o) keys d0_0;
    mret (result ++ match s with Some s => [(member, s)] | None => [] end)) [] members;
  sorted ← sort_scores result;
  mret (reply_members (with_scores o) sorted).

Definition score_in (all_zsets : gmap bytes Scores) key member : M (option spec_float) := mret (set_of all_zsets key !! member).
Definition score_at now key member : M (option spec_float) :=
  s ← on_db (DbZScore now key member); mret (dval <$> s).

Definition options_of (keys : list bytes) cmd : ScoreOptions + bytes :=
  combine_options (length keys) (drop (S (length keys)) (cmd_args cmd)) 0 (MkScoreOptions false (replicate (length keys) d1_0) (B "SUM")).

Definition HandleZInter now cmd : M CommandResult :=
  _ ← require (negb (ArgCount cmd <? 2)) (wrong_number (B "ZINTER"));
  keys ← counted_keys (B "ZINTER") 1 cmd;
  match options_of keys cmd with
  | inr message => fail message
  | inl o =>
      let first_key := default [] (head keys) in
      n ← workers_of;
      if 1 <? n then
        all_zsets ← collect_zsets now true n keys;
        match map_to_list (set_of all_zsets first_key) with
        | [] => mret (Success (resp_of_type kNullArray))
        | members => inter_result (score_in all_zsets) o keys (fst <$> members)
        end
      else
        first_members ← every_member now first_key false;
        match first_members with
        | [] => mret (Success (resp_of_type kNullArray))
        | _ => inter_result (score_at now) o keys (fst <$> first_members)
        end
  end.

(** The members that are in all sets, counted up to the limit; [found] looks for one
    in a set. *)
Fixpoint in_all (found : bytes → bytes → M bool) (member : bytes) (keys : list bytes) : M bool :=
  match keys with
  | [] => mret true
  | key :: keys => b ← found key member; if (b : bool) then in_all found member keys else mret false
  end.
Fixpoint card_loop (found : bytes → bytes → M bool) (limit : Z) (keys members : list bytes) (count : Z) : M Z :=
  match members with
  | [] => mret count
  | member :: members =>
      b ← in_all found member keys;
      if (b : bool) then
        if (0 <? limit)%Z && (limit <=? count + 1)%Z then mret (count + 1)%Z else card_loop found limit keys members (count + 1)
      else card_loop found limit keys members count
  end.

Definition HandleZInterCard now cmd : M CommandResult :=
  _ ← require (negb (ArgCount cmd <? 2)) (wrong_number (B "ZINTERCARD"));
  keys ← counted_keys (B "ZINTERCARD") 1 cmd;
  match card_options (drop (S (length keys)) (cmd_args cmd)) 0 with
  | inr message => fail message
  | inl limit =>
      let first_key := default [] (head keys) in
      n ← workers_of;
      count ← (if 1 <? n then
                 all_zsets ← collect_zsets now false n keys;
                 card_loop (λ key member, mret (bool_decide (is_Some (set_of all_zsets key !! member)))) limit (drop 1 keys)
                   (fst <$> map_to_list (set_of all_zsets first_key)) 0
               else
                 first_members ← every_member now first_key false;
                 card_loop (λ key member, s ← on_db (DbZScore now key member); mret (bool_decide (is_Some s))) limit (drop 1 keys)
                   (fst <$> first_members) 0);
      mret (reply_int count)
  end.

(** [member_scores[member].push_back(score * weights[i])] for the members of a set. *)
Definition add_scores (w : spec_float) (members : list (bytes * spec_float)) (acc : gmap bytes (list spec_float)) : gmap bytes (list spec_float) :=
  foldl (λ (acc : gmap bytes (list spec_float)) m, <[m.1 := default [] (acc !! m.1) ++ [double_mul m.2 w]]> acc) acc members.

Definition union_result (o : ScoreOptions) (member_scores : gmap bytes (list spec_float)) : M CommandResult :=
  sorted ← sort_scores (map_to_list (union_score (aggregate o) <$> member_scores));
  mret (reply_members (with_scores o) sorted).

Definition HandleZUnion now cmd : M CommandResult :=
  _ ← require (negb (ArgCount cmd <? 2)) (wrong_number (B "ZUNION"));
  keys ← counted_keys (B "ZUNION") 1 cmd;
  match options_of keys cmd with
  | inr message => fail message
  | inl o =>
      let weighted := zip keys (set_weights o) in
      n ← workers_of;
      if 1 <? n then
        all_zsets ← collect_zsets now true n keys;
        union_result o (foldl (λ acc kw, add_scores kw.2 (map_to_list (set_of all_zsets kw.1)) acc) ∅ weighted)
      else
        member_scores ← mfold (λ acc kw, members ← every_member now kw.1 true; mret (add_scores kw.2 (doubles members) acc)) ∅ weighted;
        union_result o member_scores
  end.

(** ** Random members and iteration *)

Definition HandleZRandMember (shuffled : nat → list nat) (r : rng) now cmd : M CommandResult :=
  _ ← require (negb (ArgCount cmd <? 1)) (wrong_number (B "ZRANDMEMBER"));
  _ ← require (is_bulk (arg 0 cmd)) (B "ERR wrong type of key argument");
  all_members ← every_member now (arg_text 0 cmd) false;
  match all_members with
  | [] => mret reply_nil
  | _ =>
      count ← (if 2 <=? ArgCount cmd then
                 _ ← require (is_bulk (arg 1 cmd)) (B "ERR wrong type of count argument");
                 need (SimpleAtoi (arg_text 1 cmd)) not_integer
               else mret 1%Z);
      scores ← (if 3 <=? ArgCount cmd then
                  _ ← require (is_bulk (arg 2 cmd)) (B "ERR wrong type of option argument");
                  mret (bool_decide (arg_text 2 cmd = B "WITHSCORES"))
                else mret false);
      let indices :=
        if (0 <? count)%Z then take (Z.to_nat (Z.min count (zlen all_members))) (shuffled (length all_members))
        else draw_indices (Z.to_nat (u64 (- count))) (zlen all_members) r in
      let random_members := omap (λ i, all_members !! i) indices in
      if ArgCount cmd =? 1 then
        match random_members with m :: _ => mret (reply_bulk m.1) | [] => lost end
      else mret (reply_members scores (doubles random_members))
  end.

Definition HandleZScan now cmd : M CommandResult :=
  _ ← require (negb (ArgCount cmd <? 2)) (wrong_number (B "ZSCAN"));
  _ ← require (is_bulk (arg 0 cmd) && is_bulk (arg 1 cmd)) (B "ERR wrong type of argument");
  cursor ← need (SimpleAtou (arg_text 1 cmd)) (B "ERR invalid cursor");
  all_members ← every_member now (arg_text 0 cmd) true;
  match scan_options (drop 2 (cmd_args cmd)) (B "*") 10 with
  | inr message => fail message
  | inl (pattern, count) =>
      let matched_members := filter (λ m : bytes * Score, scan_matches pattern m.1 = true) all_members in
      let '(page, new_cursor) := scan_page matched_members cursor count in
      mret (scan_reply new_cursor (flat true (doubles page)))
  end.

Definition zset_table (clock : Z) (shuffled : nat → list nat) (r : rng) : list (bytes * (Z * RoutingStrategy * bool * (Z → Command → M CommandResult))) :=
  [(B "ZADD", (-4, ByFirstKey, true, HandleZAdd)); (B "ZRANGE", (-4, ByFirstKey, false, HandleZRange));
   (B "ZREM", (-3, ByFirstKey, true, HandleZRem)); (B "ZSCORE", (3, ByFirstKey, false, HandleZScore));
   (B "ZCARD", (2, ByFirstKey, false, HandleZCard)); (B "ZCOUNT", (4, ByFirstKey, false, HandleZCount));
   (B "ZINCRBY", (4, ByFirstKey, true, HandleZIncrBy)); (B "ZRANK", (3, ByFirstKey, false, HandleZRank));
   (B "ZREVRANK", (3, ByFirstKey, false, HandleZRevRank)); (B "ZREVRANGE", (-4, ByFirstKey, false, HandleZRevRange));
   (B "ZRANGEBYSCORE", (-4, ByFirstKey, false, HandleZRangeByScore)); (B "ZREVRANGEBYSCORE", (-4, ByFirstKey, false, HandleZRevRangeByScore));
   (B "ZPOPMIN", (-1, ByFirstKey, true, HandleZPopMin)); (B "ZPOPMAX", (-1, ByFirstKey, true, HandleZPopMax));
   (B "ZUNIONSTORE", (-4, ByFirstKey, true, HandleZUnionStore)); (B "ZINTERSTORE", (-4, ByFirstKey, true, HandleZInterStore));
   (B "ZDIFF", (-2, RouteNone, false, HandleZDiff)); (B "ZDIFFSTORE", (-3, ByFirstKey, true, HandleZDiffStore));
   (B "BZPOPMIN", (-2, ByFirstKey, true, HandleBZPopMin clock)); (B "BZPOPMAX", (-2, ByFirstKey, true, HandleBZPopMax clock));
   (B "BZMPOP", (-4, ByFirstKey, true, HandleBZMPop clock)); (B "ZINTER", (-3, RouteNone, false, HandleZInter));
   (B "ZINTERCARD", (-2, RouteNone, false, HandleZInterCard)); (B "ZUNION", (-3, RouteNone, false, HandleZUnion));
   (B "ZLEXCOUNT", (4, ByFirstKey, false, HandleZLexCount)); (B "ZMPOP", (-4, RouteNone, true, HandleZMPop));
   (B "ZMSCORE", (-2, ByFirstKey, false, HandleZMScore)); (B "ZRANDMEMBER", (-2, ByFirstKey, false, HandleZRandMember shuffled r));
   (B "ZRANGEBYLEX", (-4, ByFirstKey, false, HandleZRangeByLex)); (B "ZRANGESTORE", (-4, ByFirstKey, true, HandleZRangeStore));
   (B "ZREMRANGEBYLEX", (4, ByFirstKey, true, HandleZRemRangeByLex)); (B "ZREMRANGEBYRANK", (4, ByFirstKey, true, HandleZRemRangeByRank));
   (B "ZREMRANGEBYSCORE", (4, ByFirstKey, true, HandleZRemRangeByScore)); (B "ZREVRANGEBYLEX", (-4, ByFirstKey, false, HandleZRevRangeByLex));
   (B "ZSCAN", (-3, ByFirstKey, false, HandleZScan))]%Z.
End ZSetCommands.
