(* ===== verification/BitmapCommands.v ===== *)
(** * Bitmap commands

    The handlers of src/astra/commands/redis/bitmap_commands.cpp.  A string is read
    as its bits, the highest bit of the first byte first.  A shift by 64 places is
    undefined in C++; here it is the shift of x86-64, which takes the number of
    places modulo 64.  What a read behind the end of a string finds is the argument
    [beyond] of BITOP. *)
From Stdlib Require Import SpecFloat.
From S2P Require Import Prelude.
From S2P Require Import Simd.
From S2P Require Import Numbers.
From S2P Require Import Text.
From S2P Require Import RespTypes.
From S2P Require Import Sharding.
From S2P Require Import Executor.
From S2P Require Import Rocks.
From S2P Require Import Database.
From S2P Require Import Commands.
From S2P Require Import StringCommands.

(** ** Bits of a string *)

(** The loop ends when no bit is left, after at most eight turns. *)
Fixpoint popcount_loop (fuel : nat) (byte count : Z) : Z :=
  match fuel with
  | O => count
  | S fuel => if (byte =? 0)%Z then count else popcount_loop fuel (Z.shiftr byte 1) (u8 (count + Z.land byte 1))
  end.
Definition PopCount (byte : Z) : Z := popcount_loop 8 byte 0.

Definition zero_char : ascii := "000"%char.

(** [bitmap.resize(size, '\0')] to more bytes; nothing when there is no memory. *)
Definition grow `{!Platform} (size : Z) (bitmap : bytes) : option bytes :=
  if can_allocate size then Some (bitmap ++ replicate (Z.to_nat size - length bitmap) zero_char) else None.

Definition EnsureBitmapSize `{!Platform} (bitmap : bytes) (bit_offset : Z) : option bytes :=
  let required_bytes := (Z.quot bit_offset 8 + 1)%Z in
  if (zlen bitmap <? required_bytes)%Z then grow required_bytes bitmap else Some bitmap.

Definition GetBit (bitmap : bytes) (offset : Z) : bool :=
  if (offset <? 0)%Z then false
  else
    let byte_offset := Z.quot offset 8 in
    let bit_in_byte := (7 - Z.rem offset 8)%Z in
    match bitmap !! Z.to_nat byte_offset with
    | Some c => Z.testbit (code c) bit_in_byte
    | None => false
    end.

Definition put_bit (value : bool) (bit_in_byte : Z) (c : ascii) : ascii :=
  of_code (if value then Z.lor (code c) (Z.shiftl 1 bit_in_byte) else Z.land (code c) (Z.lnot (Z.shiftl 1 bit_in_byte))).

Definition SetBit `{!Platform} (bitmap : bytes) (offset : Z) (value : bool) : option bytes :=
  if (offset <? 0)%Z then Some bitmap
  else
    bitmap ← EnsureBitmapSize bitmap offset;
    Some (alter (put_bit value (7 - Z.rem offset 8)) (Z.to_nat (Z.quot offset 8)) bitmap).

(** Indices from the end, and the clamping of BITCOUNT and BITPOS. *)
Definition clamp_bytes (len start stop : Z) : Z * Z :=
  let start := if (start <? 0)%Z then (len + start)%Z else start in
  let stop := if (stop <? 0)%Z then (len + stop)%Z else stop in
  (if (start <? 0)%Z then 0%Z else start, if (len <=? stop)%Z then (len - 1)%Z else stop).

(** The loops over the bytes from index [i] on, which are the list. *)
Fixpoint count_loop (i stop : Z) (s : bytes) (count : Z) : Z :=
  match s with
  | [] => count
  | c :: s => if (i <=? stop)%Z then count_loop (i + 1) stop s (u64 (count + PopCount (code c))) else count
  end.

Fixpoint bit_loop (n : nat) (bit_idx byte : Z) (target_bit : bool) : option Z :=
  match n with
  | O => None
  | S n => if Bool.eqb (Z.testbit byte (7 - bit_idx)) target_bit then Some bit_idx else bit_loop n (bit_idx + 1) byte target_bit
  end.
Fixpoint pos_loop (i stop : Z) (s : bytes) (target_bit : bool) : Z :=
  match s with
  | [] => -1
  | c :: s =>
      if (i <=? stop)%Z then
        match bit_loop 8 0 (code c) target_bit with
        | Some bit_idx => (i * 8 + bit_idx)%Z
        | None => pos_loop (i + 1) stop s target_bit
        end
      else -1
  end.

(** ** Fields of bits *)

(** [1ULL << bits] *)
Definition shl1 (bits : Z) : Z := u64 (Z.shiftl 1 (bits mod 64)).

(** The bits from [start] on, the lowest of the value first.  GET tests once more
    that a bit is before the end, behind which [GetBit] is false. *)
Definition read_field (bitmap : bytes) (start bits : Z) : Z :=
  foldl (λ v j, if GetBit bitmap (start + Z.of_nat j) then Z.lor v (Z.shiftl 1 (Z.of_nat j)) else v) 0%Z (seq 0 (Z.to_nat bits)).
Definition write_field `{!Platform} (bitmap : bytes) (start bits value : Z) : option bytes :=
  foldl (λ b j, bitmap ← b; SetBit bitmap (start + Z.of_nat j) (Z.testbit value (Z.of_nat j))) (Some bitmap) (seq 0 (Z.to_nat bits)).

(** The value with its sign bit in all places above. *)
Definition sign_extend (signed_type : bool) (bits v : Z) : Z :=
  if signed_type && (bits <? 64)%Z && negb (Z.land v (shl1 (bits - 1)) =? 0)%Z then Z.lor v (u64 (Z.lnot (shl1 bits - 1))) else v.

Inductive Overflow := WRAP | SAT | FAIL.
Definition overflow_of (s : bytes) : option Overflow :=
  if decide (s = B "WRAP") then Some WRAP else if decide (s = B "SAT") then Some SAT
  else if decide (s = B "FAIL") then Some FAIL else None.

Definition min_value (bits : Z) : Z := i64 (- i64 (Z.shiftl 1 (bits - 1))).
Definition max_signed_value (bits : Z) : Z := i64 (i64 (Z.shiftl 1 (bits - 1)) - 1).
Definition max_value (bits : Z) : Z := u64 (shl1 bits - 1).

Definition out_of_field (signed_type : bool) (bits v : Z) : bool :=
  if signed_type then (v <? min_value bits)%Z || (max_signed_value bits <? v)%Z
  else (v <? 0)%Z || (max_value bits <? u64 v)%Z.
Definition saturate (signed_type : bool) (bits v : Z) : Z :=
  if signed_type then
    let v := if (v <? min_value bits)%Z then min_value bits else v in
    if (max_signed_value bits <? v)%Z then max_signed_value bits else v
  else
    let v := if (v <? 0)%Z then 0%Z else v in
    if (max_value bits <? u64 v)%Z then i64 (max_value bits) else v.
Definition wrap_field (signed_type : bool) (bits v : Z) : Z :=
  let v := Z.land (u64 v) (max_value bits) in i64 (sign_extend signed_type bits v).

(** ** Byte-wise operations *)

Inductive BitOperation := OpAnd | OpOr | OpXor | OpNot.
#[export] Instance BitOperation_eq_dec : EqDecision BitOperation.
Proof. solve_decision. Defined.
Definition operation_of (s : bytes) : option BitOperation :=
  if decide (s = B "AND") then Some OpAnd else if decide (s = B "OR") then Some OpOr
  else if decide (s = B "XOR") then Some OpXor else if decide (s = B "NOT") then Some OpNot else None.

(** The byte of a source, zero behind its end. *)
Definition source_byte (i : nat) (source : bytes) : Z := match source !! i with Some c => code c | None => 0%Z end.

(** [source[i]], which is defined up to the terminating zero. *)
Definition char_at (beyond : bytes → nat → ascii) (source : bytes) (i : nat) : ascii :=
  match source !! i with Some c => c | None => if i =? length source then zero_char else beyond source i end.

Definition bitop (beyond : bytes → nat → ascii) (op : BitOperation) (sources : list bytes) (max_len : nat) : bytes :=
  (λ i, of_code
    match op with
    | OpAnd => foldl (λ byte s, Z.land byte (source_byte i s)) 255%Z sources
    | OpOr => foldl (λ byte s, Z.lor byte (source_byte i s)) 0%Z sources
    | OpXor => foldl (λ byte s, Z.lxor byte (source_byte i s)) 0%Z sources
    | OpNot => u8 (Z.lnot (code (char_at beyond (default [] (head sources)) i)))
    end) <$> seq 0 max_len.

Section BitmapCommands.
Context {P : Platform} {HD : DoubleText}.
Implicit Types (cmd : Command) (now : Z) (key : bytes).

(** The names of the commands are in lower case here. *)
Definition HandleGetBit now cmd : M CommandResult :=
  _ ← require (ArgCount cmd =? 2) (wrong_number (B "getbit"));
  offset ← need (SimpleAtoi (arg_text 1 cmd)) (B "ERR offset is not an integer or out of range");
  _ ← require (negb (offset <? 0)%Z) (B "ERR offset is out of range");
  value ← on_db (DbGet now (arg_text 0 cmd));
  mret (match value with Some bitmap => reply_bool (GetBit bitmap offset) | None => reply_int 0 end).

(** The bitmap, or an exception when there was no memory for it. *)
Definition allocated (x : option bytes) : M bytes := match x with Some s => mret s | None => throw alloc_what end.

Definition HandleSetBit now cmd : M CommandResult :=
  _ ← require (ArgCount cmd =? 3) (wrong_number (B "setbit"));
  offset ← need (SimpleAtoi (arg_text 1 cmd)) (B "ERR offset is not an integer or out of range");
  bit_value ← need (SimpleAtoi (arg_text 2 cmd)) not_integer;
  _ ← require (negb ((offset <? 0)%Z || negb (bit_value =? 0)%Z && negb (bit_value =? 1)%Z)) (B "ERR offset or value is out of range");
  value ← on_db (DbGet now (arg_text 0 cmd));
  bitmap ← allocated (SetBit (default [] value) offset (bit_value =? 1)%Z);
  _ ← put_db (DbSet now (arg_text 0 cmd) bitmap);
  mret (reply_int bit_value).

(** An optional index. *)
Definition index_arg (i : nat) (otherwise : Z) cmd : M Z :=
  if i <? ArgCount cmd then need (SimpleAtoi (arg_text i cmd)) not_integer else mret otherwise.

Definition HandleBitCount now cmd : M CommandResult :=
  _ ← require (negb ((ArgCount cmd <? 1) || (3 <? ArgCount cmd))) (wrong_number (B "bitcount"));
  value ← on_db (DbGet now (arg_text 0 cmd));
  match value with
  | None => mret (reply_int 0)
  | Some bitmap =>
      let len := zlen bitmap in
      start ← index_arg 1 0 cmd;
      stop ← index_arg 2 (len - 1) cmd;
      let '(start, stop) := clamp_bytes len start stop in
      mret (reply_int (i64 (count_loop start stop (drop (Z.to_nat start) bitmap) 0)))
  end.

Definition HandleBitPos now cmd : M CommandResult :=
  _ ← require (negb ((ArgCount cmd <? 2) || (4 <? ArgCount cmd))) (wrong_number (B "bitpos"));
  bit_value ← need (SimpleAtoi (arg_text 1 cmd)) not_integer;
  _ ← require (negb (negb (bit_value =? 0)%Z && negb (bit_value =? 1)%Z)) (B "ERR bit value must be 0 or 1");
  value ← on_db (DbGet now (arg_text 0 cmd));
  match value with
  | None => mret (reply_int (if (bit_value =? 1)%Z then -1 else 0))
  | Some bitmap =>
      let len := zlen bitmap in
      start ← index_arg 2 0 cmd;
      stop ← index_arg 3 (len - 1) cmd;
      let '(start, stop) := clamp_bytes len start stop in
      mret (reply_int (pos_loop start stop (drop (Z.to_nat start) bitmap) (bit_value =? 1)%Z))
  end.

(** ** BITOP *)

(** The values of the keys at a worker, empty where there is none. *)
Definition worker_values now (w : nat) (keys : list bytes) : M (list (bytes * bytes)) :=
  mfold (λ l key, value ← on_worker w (DbGet now key); mret (l ++ [(key, default [] value)])) [] keys.

(** The value of a key at each worker replaces that of the workers before it. *)
Definition merge_values (keys : list bytes) (values : list (bytes * bytes)) (acc : list bytes * nat) : list bytes * nat :=
  foldl (λ '(sources, max_len) '(i, key),
    match list_find (λ kv, kv.1 = key) values with
    | Some (_, kv) => (<[i := kv.2]> sources, max max_len (length kv.2))
    | None => (sources, max_len)
    end) acc (imap pair keys).

Definition collect_values now (n : nat) (keys : list bytes) : M (list bytes * nat) :=
  mfold (λ acc w, values ← worker_values now w keys; mret (merge_values keys values acc)) (replicate (length keys) [], 0) (seq 0 n).

Definition combine (beyond : bytes → nat → ascii) (operation : bytes) (sources : list bytes) (max_len : nat) : M bytes :=
  match operation_of operation with
  | None => fail (B "ERR syntax error, unknown BITOP operation")
  | Some op =>
      _ ← require (negb (bool_decide (op = OpNot) && negb (length sources =? 1))) (B "ERR BITOP NOT must be called with a single source key");
      mret (bitop beyond op sources max_len)
  end.

Definition HandleBitOp (beyond : bytes → nat → ascii) now cmd : M CommandResult :=
  _ ← require (negb (ArgCount cmd <? 3)) (wrong_number (B "bitop"));
  let destkey := arg_text 1 cmd in
  let source_keys := arg_value <$> drop 2 (cmd_args cmd) in
  n ← workers_of;
  if 1 <? n then
    collected ← collect_values now n source_keys;
    result ← combine beyond (arg_text 0 cmd) collected.1 collected.2;
    _ ← on_worker (owner_of n destkey) (λ db, (DbSet now destkey result db, ()));
    mret (reply_int (zlen result))
  else
    sources ← mfold (λ l key, value ← on_db (DbGet now key); mret (l ++ [default [] value])) [] source_keys;
    result ← combine beyond (arg_text 0 cmd) sources (foldl (λ m s, max m (length s)) 0 sources);
    _ ← put_db (DbSet now destkey result);
    mret (reply_int (zlen result)).

(** ** BITFIELD *)

(** [absl::SimpleAtoi] into an [int] *)
Definition SimpleAtoi_int (s : bytes) : option Z :=
  n ← SimpleAtoi s; if bool_decide (in_i32 n) then Some n else None.

(** The type of a field: whether it is signed, and its bits.  The number follows
    the first character, and [substr] throws when there is none. *)
Definition field_type (encoding message : bytes) : bool * Z + outcome :=
  match encoding with
  | [] => inr (Threw range_what)
  | c :: digits =>
      match SimpleAtoi_int digits with
      | None => inr (Returned (Failure message))
      | Some bits =>
          if (bits <=? 0)%Z || (64 <? bits)%Z then inr (Returned (Failure (B "ERR invalid bitfield type")))
          else inl (ascii_eqb c "i", bits)
      end
  end.

(** GET: zero when the field does not end in the bitmap, as the bytes are counted
    from the byte of its first bit. *)
Definition field_get (bitmap : bytes) (signed_type : bool) (bits offset : Z) : Z :=
  let start := i64 (offset * bits) in
  let required_bytes := (Z.quot start 8 + Z.quot (bits + 7) 8)%Z in
  if (zlen bitmap <? required_bytes)%Z then 0%Z else i64 (sign_extend signed_type bits (read_field bitmap start bits)).

(** SET: the answer, the new bitmap. *)
Definition field_set (mode : Overflow) (bitmap : bytes) (signed_type : bool) (bits offset v : Z) : option (RespValue * bytes) :=
  if match mode with FAIL => out_of_field signed_type bits v | _ => false end then Some (resp_of_type kNullBulkString, bitmap)
  else
    let v := match mode with SAT => saturate signed_type bits v | _ => v end in
    bitmap ← write_field bitmap (i64 (offset * bits)) bits (u64 v);
    Some (resp_int v, bitmap).

Definition field_incr (mode : Overflow) (bitmap : bytes) (signed_type : bool) (bits offset increment : Z) : option (RespValue * bytes) :=
  let start := i64 (offset * bits) in
  let required_bytes := (Z.quot start 8 + Z.quot (bits + 7) 8)%Z in
  bitmap ← (if (zlen bitmap <? required_bytes)%Z then grow required_bytes bitmap else Some bitmap);
  let current := i64 (sign_extend signed_type bits (read_field bitmap start bits)) in
  let v := i64 (current + increment) in
  if match mode with FAIL => out_of_field signed_type bits v | _ => false end then Some (resp_of_type kNullBulkString, bitmap)
  else
    let v := match mode with FAIL => v | SAT => saturate signed_type bits v | WRAP => wrap_field signed_type bits v end in
    bitmap ← write_field bitmap start bits (u64 v);
    Some (resp_int v, bitmap).

(** The loop over the subcommands. *)
Fixpoint bitfield_loop (args : list CommandArg) (bitmap : bytes) (mode : Overflow) (results : list RespValue) : bytes * list RespValue + outcome :=
  let error message := inr (Returned (Failure message)) in
  match args with
  | [] => inl (bitmap, results)
  | sub :: args =>
      if decide (arg_value sub = B "OVERFLOW") then
        match args with
        | [] => error (B "ERR wrong number of arguments for 'BITFIELD ... OVERFLOW'")
        | m :: args =>
            match overflow_of (arg_value m) with
            | None => error (B "ERR OVERFLOW only supports WRAP, SAT, FAIL")
            | Some mode => bitfield_loop args bitmap mode results
            end
        end
      else if decide (arg_value sub = B "GET") then
        match args with
        | e :: o :: args =>
            match SimpleAtoi (arg_value o) with
            | None => error not_integer
            | Some offset =>
                match field_type (arg_value e) not_integer with
                | inr o => inr o
                | inl (signed_type, bits) => bitfield_loop args bitmap mode (results ++ [resp_int (field_get bitmap signed_type bits offset)])
                end
            end
        | _ => error (B "ERR wrong number of arguments for 'BITFIELD GET'")
        end
      else if decide (arg_value sub = B "SET" ∨ arg_value sub = B "INCRBY") then
        match args with
        | e :: o :: x :: args =>
            match SimpleAtoi (arg_value o), SimpleAtoi (arg_value x) with
            | Some offset, Some v =>
                match field_type (arg_value e) (B "ERR invalid bitfield type") with
                | inr o => inr o
                | inl (signed_type, bits) =>
                    match (if decide (arg_value sub = B "SET") then field_set else field_incr) mode bitmap signed_type bits offset v with
                    | None => inr (Threw alloc_what)
                    | Some (answer, bitmap) => bitfield_loop args bitmap mode (results ++ [answer])
                    end
                end
            | _, _ => error not_integer
            end
        | _ => error (B "ERR wrong number of arguments for 'BITFIELD " ++ arg_value sub ++ B "'")
        end
      else error (B "ERR unknown BITFIELD subcommand")
  end.

(** The bitmap is stored even when nothing was set. *)
Definition HandleBitField now cmd : M CommandResult :=
  _ ← require (negb (ArgCount cmd <? 1)) (wrong_number (B "bitfield"));
  value ← on_db (DbGet now (arg_text 0 cmd));
  match bitfield_loop (drop 1 (cmd_args cmd)) (default [] value) WRAP [] with
  | inr o => λ c, (c, inr o)
  | inl (bitmap, results) => _ ← put_db (DbSet now (arg_text 0 cmd) bitmap); mret (reply_array results)
  end.

Definition bitmap_table (beyond : bytes → nat → ascii) : list (bytes * (Z * RoutingStrategy * bool * (Z → Command → M CommandResult))) :=
  [(B "BITCOUNT", (-2, ByFirstKey, false, HandleBitCount)); (B "BITOP", (-4, RouteNone, true, HandleBitOp beyond));
   (B "BITPOS", (-3, ByFirstKey, false, HandleBitPos)); (B "BITFIELD", (-2, ByFirstKey, true, HandleBitField));
   (B "GETBIT", (3, ByFirstKey, false, HandleGetBit)); (B "SETBIT", (4, ByFirstKey, true, HandleSetBit))]%Z.
End BitmapCommands.
