(* ===== verification/HyperLogLog.v ===== *)
(** * HyperLogLog

    The handlers of src/astra/commands/redis/hyperloglog_commands.cpp: 16384 registers
    of six bits in a string of 12288 bytes.  The characters of the string are signed,
    as on x86-64.  The logarithm of the C library and the cast of a double that does
    not fit are arguments; so is what stands for a handler that never returns. *)
From Stdlib Require Import SpecFloat.
From S2P Require Import Prelude.
From S2P Require Import Simd.
From S2P Require Import Numbers.
From S2P Require Import Text.
From S2P Require Import RespTypes.
From S2P Require Import Executor.
From S2P Require Import Rocks.
From S2P Require Import Database.
From S2P Require Import Commands.
From S2P Require Import StringCommands.
From S2P Require Import BitmapCommands.
From S2P Require Import SmallPlatform.

Definition kHllRegisters : nat := 16384.
Definition kHllBitsPerRegister : nat := 6.
Definition kHllBytes : nat := kHllRegisters * kHllBitsPerRegister / 8.

(** ** The hash *)

Definition murmur_m : Z := 0xc6a4a7935bd1e995.
Definition xorshift (k : Z) : Z := Z.lxor k (Z.shiftr k 47).

(** The bytes of a number, the lowest first. *)
Definition little_endian (s : bytes) : Z := foldr (λ c n, (code c + 256 * n)%Z) 0%Z s.

Definition mix_block (k : Z) : Z := u64 (xorshift (u64 (k * murmur_m)) * murmur_m).

Fixpoint murmur_blocks (blocks : nat) (key : bytes) (h : Z) : Z * bytes :=
  match blocks with
  | 0 => (h, key)
  | S blocks => murmur_blocks blocks (drop 8 key) (u64 (Z.lxor h (mix_block (little_endian (take 8 key))) * murmur_m))
  end.

Definition MurmurHash64 (key : bytes) : Z :=
  let h := Z.lxor 0x9747b28c (u64 (zlen key * murmur_m)) in
  let '(h, tail) := murmur_blocks (length key / 8) key h in
  let h := match tail with [] => h | _ => Z.lxor h (mix_block (little_endian tail)) end in
  xorshift (u64 (xorshift h * murmur_m)).

(** ** Counting zeros *)

(** The loop shifts a 64-bit number until its bit 49 is set. *)
Fixpoint clz_loop (fuel : nat) (value count : Z) : option Z :=
  match fuel with
  | O => None
  | S fuel => if Z.testbit value 49 then Some count else clz_loop fuel (u64 (Z.shiftl value 1)) (u8 (count + 1))
  end.

(** [None]: the loop has not ended after so many turns.  [clz_exact] shows that fifty
    turns are enough or no number is, so with fifty or more it means that the loop does
    not end. *)
Definition CountLeadingZeros (fuel : nat) (value : Z) : option Z :=
  let value := Z.land value 0x00FFFFFFFFFFFFFF in
  if (value =? 0)%Z then Some 50%Z else clz_loop fuel value 0.

(** ** Registers *)

(** [s[i]] as an unsigned and as a signed character; at the end there is a zero. *)
Definition byte_at (s : bytes) (i : nat) : Z := code (nth i s zero_char).
Definition schar_at (s : bytes) (i : nat) : Z := swrap 8 (byte_at s i).

Definition GetRegister (hll_data : bytes) (idx : nat) : Z :=
  let bit_pos := idx * kHllBitsPerRegister in
  let byte_pos := bit_pos / 8 in
  let bit_offset := Z.of_nat (bit_pos mod 8) in
  let value := u16 (Z.lor (byte_at hll_data byte_pos) (Z.shiftl (byte_at hll_data (byte_pos + 1)) 8)) in
  Z.land (Z.shiftr value bit_offset) 0x3F.

(** The casts of the characters to [uint16_t] extend their sign.  For the last register
    the second byte is the terminator behind the string, which is not part of its
    value; no register has bits in it. *)
Definition SetRegister (idx : nat) (value : Z) (hll_data : bytes) : bytes :=
  let bit_pos := idx * kHllBitsPerRegister in
  let byte_pos := bit_pos / 8 in
  let bit_offset := Z.of_nat (bit_pos mod 8) in
  let mask := u16 (Z.shiftl 0x3F bit_offset) in
  let new_value := u16 (Z.lor (u16 (schar_at hll_data byte_pos)) (Z.shiftl (u16 (schar_at hll_data (byte_pos + 1))) 8)) in
  let new_value := u16 (Z.lor (Z.land new_value (Z.lnot mask)) (Z.shiftl (Z.land value 0x3F) bit_offset)) in
  <[byte_pos + 1 := of_code (Z.land (Z.shiftr new_value 8) 0xFF)]> (<[byte_pos := of_code (Z.land new_value 0xFF)]> hll_data).

(** [hll_data.resize(kHllBytes, '\0')] when the size is another. *)
Definition EnsureHllData (hll_data : bytes) : bytes :=
  if length hll_data =? kHllBytes then hll_data else take kHllBytes hll_data ++ replicate (kHllBytes - length hll_data) zero_char.
Definition empty_hll : bytes := replicate kHllBytes zero_char.

(** One element. *)
Definition hll_add (fuel : nat) (hll_data element : bytes) : option bytes :=
  let hash := MurmurHash64 element in
  let reg_idx := Z.to_nat (Z.shiftr hash 50) in
  count ← CountLeadingZeros fuel hash;
  Some (if (GetRegister hll_data reg_idx <? count)%Z then SetRegister reg_idx count hll_data else hll_data).

(** The elements in turn; [None] when the loop of one of them has turns left to make,
    for fifty turns and more: when it does not end. *)
Fixpoint hll_add_all (fuel : nat) (hll_data : bytes) (elements : list bytes) : option bytes :=
  match elements with
  | [] => Some hll_data
  | x :: elements => hll_data ← hll_add fuel hll_data x; hll_add_all fuel hll_data elements
  end.

(** The larger one of each pair of registers. *)
Definition hll_merge (merged_hll value : bytes) : bytes :=
  foldl (λ merged j, let reg := GetRegister value j in if (GetRegister merged j <? reg)%Z then SetRegister j reg merged else merged)
    merged_hll (seq 0 kHllRegisters).

(** ** The estimate *)

Definition double_sub (x y : spec_float) : spec_float := SFsub double_prec double_emax x y.
(** The literals [0.7213], [1.079] and [2.5]. *)
Definition d0_7213 : spec_float := S754_finite false 6496892822444678 (-53).
Definition d1_079 : spec_float := S754_finite false 4859383997932765 (-52).
Definition d2_5 : spec_float := S754_finite false 5629499534213120 (-51).

Section HyperLogLog.
Context {P : Platform} {HD : DoubleText} (log : spec_float → spec_float) (cast_undefined : spec_float → Z) (never : Ctx → Ctx * outcome) (fuel : nat).
Implicit Types (now : Z) (cmd : Command).

(** [static_cast<uint64_t>] *)
Definition to_u64 (d : spec_float) : Z :=
  match double_trunc d with
  | Some z => if (0 <=? z)%Z && (z <? 2 ^ 64)%Z then z else cast_undefined d
  | None => cast_undefined d
  end.

(** The sum of the reciprocals and the number of registers that are zero. *)
Definition register_sum (hll_data : bytes) : spec_float * Z :=
  foldl (λ acc i, let reg := GetRegister hll_data i in
    (double_add acc.1 (double_div d1_0 (double_of_Z (Z.shiftl 1 reg))), if (reg =? 0)%Z then acc.2 + 1 else acc.2)%Z)
    (d0_0, 0%Z) (seq 0 kHllRegisters).

Definition EstimateCardinality (hll_data : bytes) : Z :=
  if negb (length hll_data =? kHllBytes) then 0%Z
  else
    let '(sum, zero_count) := register_sum hll_data in
    let registers := double_of_Z (Z.of_nat kHllRegisters) in
    let alpha := double_div d0_7213 (double_add d1_0 (double_div d1_079 registers)) in
    let estimate := double_div (double_mul (double_mul alpha registers) registers) sum in
    to_u64 (if double_le estimate (double_mul d2_5 registers) && (0 <? zero_count)%Z then
              double_mul registers (log (double_div registers (double_of_Z zero_count)))
            else if double_lt (double_of_Z (2 ^ 32 * 30)) estimate then
              double_mul (double_of_Z (u64 (- 2 ^ 32))) (log (double_sub d1_0 (double_div estimate (double_of_Z (2 ^ 32)))))
            else estimate).

(** ** The commands *)

Definition hangs {A} : M A := λ c, let '(c, o) := never c in (c, inr o).

Definition HandlePfAdd now cmd : M CommandResult :=
  _ ← require (negb (ArgCount cmd <? 1)) (wrong_number (B "pfadd"));
  value ← on_db (DbGet now (arg_text 0 cmd));
  match hll_add_all fuel (EnsureHllData (default [] value)) (arg_value <$> drop 1 (cmd_args cmd)) with
  | None => hangs
  | Some hll_data => _ ← put_db (DbSet now (arg_text 0 cmd) hll_data); mret (reply_int 1)
  end.

(** The values of the right size, merged. *)
Definition merge_keys now (keys : list bytes) : M bytes :=
  mfold (λ merged_hll key,
    value ← on_db (DbGet now key);
    mret (match value with Some v => if length v =? kHllBytes then hll_merge merged_hll v else merged_hll | None => merged_hll end)) empty_hll keys.

Definition HandlePfCount now cmd : M CommandResult :=
  _ ← require (negb (ArgCount cmd <? 1)) (wrong_number (B "pfcount"));
  if ArgCount cmd =? 1 then
    value ← on_db (DbGet now (arg_text 0 cmd));
    mret (reply_int (match value with
                     | Some v => if length v =? kHllBytes then i64 (EstimateCardinality v) else 0%Z
                     | None => 0%Z
                     end))
  else
    merged_hll ← merge_keys now (arg_value <$> cmd_args cmd);
    mret (reply_int (i64 (EstimateCardinality merged_hll))).

Definition HandlePfMerge now cmd : M CommandResult :=
  _ ← require (negb (ArgCount cmd <? 2)) (wrong_number (B "pfmerge"));
  merged_hll ← merge_keys now (arg_value <$> drop 1 (cmd_args cmd));
  _ ← put_db (DbSet now (arg_text 0 cmd) merged_hll);
  mret ok_response.

Definition HandlePfDebug now cmd : M CommandResult :=
  _ ← require (negb (ArgCount cmd <? 2)) (wrong_number (B "PFDEBUG"));
  let subcommand := upper (arg_text 0 cmd) in
  value ← on_db (DbGet now (arg_text 1 cmd));
  let not_valid := B "ERR key does not contain a valid HyperLogLog structure" in
  hll_data ← need value not_valid;
  _ ← require (length hll_data =? kHllBytes) not_valid;
  if decide (subcommand = B "GETREG") then
    _ ← require (ArgCount cmd =? 3) (wrong_number (B "PFDEBUG GETREG"));
    idx ← need (SimpleAtoi (arg_text 2 cmd)) (B "ERR invalid register index");
    _ ← require (negb ((idx <? 0)%Z || (Z.of_nat kHllRegisters <=? idx)%Z)) (B "ERR invalid register index");
    mret (reply_int (GetRegister hll_data (Z.to_nat idx)))
  else if decide (subcommand = B "DENSE") then
    mret (reply_array ((λ i, resp_int (GetRegister hll_data i)) <$> seq 0 kHllRegisters))
  else if decide (subcommand = B "ENCODING") then
    (* the literal "dense" is converted to a boolean *)
    mret (reply_array [resp_bool true; resp_int (Z.of_nat kHllBytes); resp_int (Z.of_nat kHllRegisters)])
  else fail (B "ERR unknown PFDEBUG subcommand '" ++ subcommand ++ B "'").

Definition HandlePfSelfTest (now : Z) (cmd : Command) : M CommandResult :=
  _ ← require (EstimateCardinality empty_hll =? 0)%Z (B "ERR PFSELFTEST failed: empty HLL should estimate 0");
  match hll_add_all fuel empty_hll ((λ i, B "element_" ++ print_int (Z.of_nat i)) <$> seq 0 1000) with
  | None => hangs
  | Some test_hll =>
      let test_estimate := EstimateCardinality test_hll in
      _ ← require (negb ((test_estimate <? 800)%Z || (1200 <? test_estimate)%Z)) (B "ERR PFSELFTEST failed: estimate out of range");
      mret (Success (MkResp kSimpleString (VString (B "PASSED"))))
  end.

Definition hll_table : list (bytes * (Z * RoutingStrategy * bool * (Z → Command → M CommandResult))) :=
  [(B "PFADD", (-2, ByFirstKey, true, HandlePfAdd)); (B "PFCOUNT", (-2, ByFirstKey, false, HandlePfCount));
   (B "PFMERGE", (-2, ByFirstKey, true, HandlePfMerge)); (B "PFDEBUG", (-3, ByFirstKey, false, HandlePfDebug));
   (B "PFSELFTEST", (1, RouteNone, false, HandlePfSelfTest))]%Z.
End HyperLogLog.

(** ** The count of zeros *)

Lemma clz_ends L : ∀ fuel value count,
  (0 ≤ value)%Z → (0 < value mod 2 ^ 50)%Z → Z.of_nat L = (49 - Z.log2 (value mod 2 ^ 50))%Z → (0 ≤ count)%Z → (count + Z.of_nat L < 256)%Z → L < fuel →
  clz_loop fuel value count = Some (count + Z.of_nat L)%Z.
Proof.
  induction L as [|L IH]; intros fuel value count Hv Hlow HL Hc Hc' Hf; (destruct fuel as [|fuel]; [lia|]); cbn [clz_loop].
  - assert (Hb : Z.testbit value 49 = true).
    { rewrite <- (Z.mod_pow2_bits_low value 50 49) by lia. replace 49%Z with (Z.log2 (value mod 2 ^ 50)) by lia. by apply Z.bit_log2. }
    rewrite Hb. f_equal. lia.
  - set (low := (value mod 2 ^ 50)%Z) in *. assert (Hb : Z.testbit value 49 = false).
    { rewrite <- (Z.mod_pow2_bits_low value 50 49) by lia. apply Z.bits_above_log2; [fold low; lia|]. fold low. lia. }
    rewrite Hb. assert (Hl2 : (low < 2 ^ 49)%Z).
    { assert (H := Z.log2_spec low Hlow). assert (Hp := Z.pow_le_mono_r 2 (Z.succ (Z.log2 low)) 49 ltac:(lia) ltac:(lia)). lia. }
    assert (El : (u64 (Z.shiftl value 1) mod 2 ^ 50 = 2 * low)%Z).
    { unfold u64, wrap. rewrite Z.shiftl_mul_pow2 by lia. replace (2 ^ 64)%Z with (2 ^ 50 * 2 ^ 14)%Z by lia.
      rewrite Z.rem_mul_r by lia. rewrite Z.mul_comm with (n := (2 ^ 50)%Z), Z.mod_add, Z.mod_mod by lia.
      rewrite Z.mul_comm, <- Zmult_mod_idemp_r. fold low. apply Z.mod_small. lia. }
    rewrite (IH fuel); [..|lia]; [unfold u8, wrap; rewrite Z.mod_small by lia; f_equal; lia|apply Z.mod_pos_bound; lia|rewrite El; lia| | |].
    + rewrite El, Z.log2_double by done. lia.
    + apply Z.mod_pos_bound. lia.
    + unfold u8, wrap. rewrite Z.mod_small by lia. lia.
Qed.

Lemma clz_stuck fuel : ∀ value count, (value mod 2 ^ 50 = 0)%Z → clz_loop fuel value count = None.
Proof.
  induction fuel as [|fuel IH]; intros value count H; [done|]. cbn [clz_loop].
  rewrite <- (Z.mod_pow2_bits_low value 50 49) by lia. rewrite H, Z.bits_0. apply IH. unfold u64, wrap. rewrite Z.shiftl_mul_pow2 by lia.
  replace (2 ^ 64)%Z with (2 ^ 50 * 2 ^ 14)%Z by lia. rewrite Z.rem_mul_r by lia. rewrite Z.mul_comm with (n := (2 ^ 50)%Z), Z.mod_add, Z.mod_mod by lia.
  rewrite Z.mul_comm, <- Zmult_mod_idemp_r, H. done.
Qed.

Lemma low_bits h : Z.land h 0x00FFFFFFFFFFFFFF = (h mod 2 ^ 56)%Z.
Proof. change 0x00FFFFFFFFFFFFFF%Z with (Z.ones 56). apply Z.land_ones. lia. Qed.
Lemma low_low h : ((h mod 2 ^ 56) mod 2 ^ 50 = h mod 2 ^ 50)%Z.
Proof. replace (2 ^ 56)%Z with (2 ^ 50 * 2 ^ 6)%Z by lia. rewrite Z.rem_mul_r by lia. rewrite Z.mul_comm with (n := (2 ^ 50)%Z), Z.mod_add, Z.mod_mod by lia. done. Qed.

(** The count for a hash: the zeros above the highest bit that is set among the low
    fifty, without the one that HyperLogLog adds; fifty when the low 56 bits are zero.
    When only bits 50 to 55 of these are set, which also belong to the number of the
    register, the loop never ends. *)
Theorem clz_exact h :
  (0 ≤ h)%Z →
  ((h mod 2 ^ 50 ≠ 0)%Z → CountLeadingZeros 50 h = Some (49 - Z.log2 (h mod 2 ^ 50))%Z) ∧
  ((h mod 2 ^ 56 = 0)%Z → ∀ fuel, CountLeadingZeros fuel h = Some 50%Z) ∧
  ((h mod 2 ^ 50 = 0)%Z → (h mod 2 ^ 56 ≠ 0)%Z → ∀ fuel, CountLeadingZeros fuel h = None).
Proof.
  intros Hh. unfold CountLeadingZeros. rewrite low_bits. assert (H50 := Z.mod_pos_bound h (2 ^ 50) ltac:(lia)). assert (H56 := Z.mod_pos_bound h (2 ^ 56) ltac:(lia)).
  split; [|split].
  - intros Hn. assert (H56n : (h mod 2 ^ 56 ≠ 0)%Z) by (intros E; rewrite <- low_low, E in Hn; done). rewrite (proj2 (Z.eqb_neq _ _) H56n).
    assert (HL : (Z.log2 (h mod 2 ^ 50) ≤ 49)%Z) by (assert (H := proj1 (Z.log2_lt_pow2 (h mod 2 ^ 50) 50 ltac:(lia)) ltac:(lia)); lia).
    assert (H0 := Z.log2_nonneg (h mod 2 ^ 50)). rewrite (clz_ends (Z.to_nat (49 - Z.log2 (h mod 2 ^ 50)))); rewrite ?low_low; try lia. f_equal. lia.
  - intros -> fuel. done.
  - intros E Hn fuel. rewrite (proj2 (Z.eqb_neq _ _) Hn). apply clz_stuck. by rewrite low_low.
Qed.

(** ** Registers as bits *)

Definition hll_bit (s : bytes) (n : nat) : bool := Z.testbit (byte_at s (n / 8)) (Z.of_nat (n mod 8)).

Lemma byte_at_range s i : (0 ≤ byte_at s i < 256)%Z.
Proof. apply code_bound. Qed.
Lemma byte_at_insert s i j c : byte_at (<[j := c]> s) i = if decide (i = j ∧ j < length s) then code c else byte_at s i.
Proof.
  unfold byte_at. rewrite !nth_lookup. case_decide as E.
  - destruct E as [-> Hj]. by rewrite list_lookup_insert_eq.
  - destruct (decide (i = j)) as [->|Hne]; [|by rewrite list_lookup_insert_ne]. rewrite list_insert_ge by lia. done.
Qed.

Lemma high_bit x n k : (0 ≤ x < 2 ^ n)%Z → (n ≤ k)%Z → Z.testbit x k = false.
Proof.
  intros Hx Hk. destruct (decide (x = 0%Z)) as [->|Hne]; [apply Z.bits_0|]. apply Z.bits_above_log2; [lia|].
  assert (Hn : (0 ≤ n)%Z) by (destruct (Z.lt_ge_cases n 0); [rewrite Z.pow_neg_r in Hx by lia; lia|done]). assert (H := proj1 (Z.log2_lt_pow2 x n ltac:(lia)) ltac:(lia)). lia.
Qed.
Lemma u16_bit x t : (0 ≤ t < 16)%Z → Z.testbit (u16 x) t = Z.testbit x t.
Proof. intros Ht. unfold u16, wrap. apply Z.mod_pow2_bits_low. lia. Qed.

Lemma reg_pos i k : k < 6 →
  let n := i * 6 + k in let b := i * 6 / 8 in let off := (i * 6) mod 8 in
  (off + k < 8 ∧ n / 8 = b ∧ n mod 8 = off + k) ∨ (8 ≤ off + k < 14 ∧ n / 8 = b + 1 ∧ n mod 8 = off + k - 8).
Proof.
  intros Hk n b off. assert (H := Nat.div_mod_eq (i * 6) 8). assert (H' := Nat.mod_upper_bound (i * 6) 8 ltac:(lia)). fold b off in H, H'.
  destruct (decide (off + k < 8)) as [Hl|Hl].
  - left. split; [done|]. split; symmetry; [apply (Nat.div_unique _ _ _ (off + k)); lia|apply (Nat.mod_unique _ _ b); lia].
  - right. split; [|split; symmetry; [apply (Nat.div_unique _ _ _ (off + k - 8)); lia|apply (Nat.mod_unique _ _ (b + 1)); lia]].
    lia.
Qed.

(** A register has the six bits from its position on. *)
Lemma get_bit s i k : k < 6 → Z.testbit (GetRegister s i) (Z.of_nat k) = hll_bit s (i * 6 + k).
Proof.
  intros Hk. unfold GetRegister, kHllBitsPerRegister, hll_bit. change 0x3F%Z with (Z.ones 6). rewrite Z.land_spec, Z.testbit_ones_nonneg by lia.
  rewrite (proj2 (Z.ltb_lt _ _)), andb_true_r by lia. rewrite Z.shiftr_spec, u16_bit, Z.lor_spec by (assert (H := Nat.mod_upper_bound (i * 6) 8 ltac:(lia)); lia).
  rewrite Z.shiftl_spec by lia. destruct (reg_pos i k Hk) as [(H1 & -> & ->)|(H1 & -> & ->)].
  - rewrite (Z.testbit_neg_r _ (_ - 8)) by lia. rewrite orb_false_r. f_equal. lia.
  - rewrite (high_bit (byte_at s (i * 6 / 8)) 8); [|apply byte_at_range|lia]. cbn [orb]. f_equal. lia.
Qed.
Lemma get_range s i : (0 ≤ GetRegister s i < 64)%Z.
Proof. unfold GetRegister. change 0x3F%Z with (Z.ones 6). rewrite Z.land_ones by lia. apply Z.mod_pos_bound. lia. Qed.

Lemma six_bits x y : (0 ≤ x < 64)%Z → (0 ≤ y < 64)%Z → (∀ k, k < 6 → Z.testbit x (Z.of_nat k) = Z.testbit y (Z.of_nat k)) → x = y.
Proof.
  intros Hx Hy H. apply Z.bits_inj'. intros n Hn. destruct (decide (n < 6)%Z); [|by rewrite !(high_bit _ 6) by lia].
  specialize (H (Z.to_nat n) ltac:(lia)). by rewrite Z2Nat.id in H by lia.
Qed.

(** ** Setting a register *)

Lemma signed_bits b t : (0 ≤ b < 256)%Z → (0 ≤ t < 16)%Z → Z.testbit (u16 (swrap 8 b)) t = if (t <? 8)%Z then Z.testbit b t else (128 <=? b)%Z.
Proof.
  intros Hb Ht.
  assert (H : forallb (λ b, forallb (λ t, bool_decide (Z.testbit (u16 (swrap 8 (Z.of_nat b))) (Z.of_nat t) =
    if (Z.of_nat t <? 8)%Z then Z.testbit (Z.of_nat b) (Z.of_nat t) else (128 <=? Z.of_nat b)%Z)) (seq 0 16)) (seq 0 256) = true) by (by vm_compute).
  rewrite forallb_forall in H. specialize (H (Z.to_nat b)). rewrite forallb_forall in H. specialize (H ltac:(apply in_seq; lia) (Z.to_nat t) ltac:(apply in_seq; lia)).
  apply bool_decide_eq_true in H. by rewrite !Z2Nat.id in H by lia.
Qed.

(** The bits of the two bytes after the change. *)
Definition new_word (s : bytes) (i : nat) (v : Z) : Z :=
  let b := i * 6 / 8 in let off := Z.of_nat ((i * 6) mod 8) in
  u16 (Z.lor (Z.land (u16 (Z.lor (u16 (schar_at s b)) (Z.shiftl (u16 (schar_at s (b + 1))) 8))) (Z.lnot (u16 (Z.shiftl 0x3F off)))) (Z.shiftl (Z.land v 0x3F) off)).

Lemma new_word_bit s i v t : t < 16 →
  let b := i * 6 / 8 in let off := (i * 6) mod 8 in
  Z.testbit (new_word s i v) (Z.of_nat t) =
    if decide (off ≤ t < off + 6) then Z.testbit v (Z.of_nat (t - off))
    else if decide (t < 8) then Z.testbit (byte_at s b) (Z.of_nat t) else (128 <=? byte_at s b)%Z || Z.testbit (byte_at s (b + 1)) (Z.of_nat t - 8).
Proof.
  intros Ht b off. assert (Hoff := Nat.mod_upper_bound (i * 6) 8 ltac:(lia)). fold off in Hoff. unfold new_word. fold b off. change 0x3F%Z with (Z.ones 6).
  rewrite u16_bit by lia. rewrite Z.lor_spec, Z.land_spec, Z.lnot_spec, !u16_bit, Z.lor_spec, Z.shiftl_spec by lia. rewrite !Z.shiftl_spec, Z.land_spec by lia.
  assert (Hw := signed_bits (byte_at s b) (Z.of_nat t) (byte_at_range s b) ltac:(lia)). unfold schar_at at 1. rewrite Hw. clear Hw.
  case_decide as Ed.
  - rewrite !Z.testbit_ones_nonneg by lia. rewrite (proj2 (Z.ltb_lt _ 6)) by lia. cbn [negb]. rewrite andb_false_r, andb_true_r. cbn [orb]. f_equal. lia.
  - assert (Ho : Z.testbit (Z.ones 6) (Z.of_nat t - Z.of_nat off) = false).
    { destruct (decide (t < off)); [apply Z.testbit_neg_r; lia|]. rewrite Z.testbit_ones_nonneg by lia. apply Z.ltb_ge. lia. }
    rewrite Ho. cbn [negb]. rewrite andb_true_r, andb_false_r, orb_false_r. destruct (decide (t < 8)) as [H8|H8].
    + rewrite (proj2 (Z.ltb_lt _ 8)) by lia. rewrite (Z.testbit_neg_r _ (_ - 8)) by lia. apply orb_false_r.
    + rewrite (proj2 (Z.ltb_ge _ 8)) by lia. f_equal. unfold schar_at. rewrite signed_bits; [|apply byte_at_range|lia]. rewrite (proj2 (Z.ltb_lt _ 8)) by lia. done.
Qed.

Lemma set_bytes s i v : SetRegister i v s =
  <[i * 6 / 8 + 1 := of_code (Z.land (Z.shiftr (new_word s i v) 8) 0xFF)]> (<[i * 6 / 8 := of_code (Z.land (new_word s i v) 0xFF)]> s).
Proof. done. Qed.

Lemma byte_bit x t : (0 ≤ t < 8)%Z → Z.testbit (code (of_code (Z.land x 0xFF))) t = Z.testbit x t.
Proof.
  intros Ht. change 0xFF%Z with (Z.ones 8). rewrite Z.land_ones, code_of_code by (lia || apply Z.mod_pos_bound; lia). apply Z.mod_pow2_bits_low. lia.
Qed.

(** Which bits there are after a register is set: its own are those of the value, the
    others of the second byte are all ones when the first byte is a negative character. *)
Lemma set_bit s i v n :
  n < 8 * length s →
  hll_bit (SetRegister i v s) n =
    if decide (i * 6 ≤ n < i * 6 + 6) then Z.testbit v (Z.of_nat (n - i * 6))
    else if decide (n / 8 = i * 6 / 8 + 1) then (128 <=? byte_at s (i * 6 / 8))%Z || hll_bit s n else hll_bit s n.
Proof.
  intros Hn. assert (Hd := Nat.div_mod_eq n 8). assert (Hm := Nat.mod_upper_bound n 8 ltac:(lia)).
  assert (Hd' := Nat.div_mod_eq (i * 6) 8). assert (Hm' := Nat.mod_upper_bound (i * 6) 8 ltac:(lia)).
  unfold hll_bit. rewrite set_bytes, !byte_at_insert, length_insert. set (b := i * 6 / 8) in *. set (off := (i * 6) mod 8) in *.
  destruct (decide (n / 8 = b + 1)) as [E1|E1].
  - rewrite (decide_True (P := n / 8 = b + 1 ∧ _)) by (split; [done|lia]). rewrite byte_bit, Z.shiftr_spec by lia.
    replace (Z.of_nat (n mod 8) + 8)%Z with (Z.of_nat (n mod 8 + 8)) by lia. rewrite new_word_bit by lia. fold b off. cbv zeta.
    rewrite (decide_False (P := n mod 8 + 8 < 8)) by lia. destruct (decide (i * 6 ≤ n < i * 6 + 6)) as [Ei|Ei].
    + rewrite decide_True by lia. f_equal. lia.
    + rewrite decide_False by lia. rewrite E1. do 2 f_equal. lia.
  - rewrite (decide_False (P := n / 8 = b + 1 ∧ _)) by (intros [? _]; done). destruct (decide (n / 8 = b)) as [E0|E0].
    + rewrite (decide_True (P := n / 8 = b ∧ _)) by (split; [done|lia]). rewrite byte_bit, new_word_bit by lia. fold b off. cbv zeta.
      rewrite (decide_True (P := n mod 8 < 8)) by lia. destruct (decide (i * 6 ≤ n < i * 6 + 6)) as [Ei|Ei].
      * rewrite decide_True by lia. f_equal. lia.
      * rewrite decide_False by lia. by rewrite E0.
    + rewrite (decide_False (P := n / 8 = b ∧ _)) by (intros [? _]; done). rewrite decide_False; [done|]. intros Ei.
      destruct (reg_pos i (n - i * 6) ltac:(lia)) as [(_ & H & _)|(_ & H & _)]; replace (i * 6 + (n - i * 6)) with n in H by lia; fold b in H; lia.
Qed.

Lemma hll_bits : 8 * kHllBytes = kHllRegisters * 6.
Proof. apply Nat2Z.inj. vm_compute. reflexivity. Qed.
Lemma hll_registers : Z.of_nat kHllRegisters = (2 ^ 14)%Z.
Proof. vm_compute. reflexivity. Qed.
#[local] Opaque kHllRegisters kHllBytes.

Lemma length_set i v s : length (SetRegister i v s) = length s.
Proof. rewrite set_bytes. by rewrite !length_insert. Qed.

(** The register is inside of the string. *)
Definition inside (s : bytes) i : Prop := i * 6 + 6 ≤ 8 * length s.
Lemma hll_inside (s : bytes) i : length s = kHllBytes → i < kHllRegisters → inside s i.
Proof. unfold inside. intros -> Hi. rewrite hll_bits. lia. Qed.

Lemma set_self (s : bytes) i v : inside s i → (0 ≤ v < 64)%Z → GetRegister (SetRegister i v s) i = v.
Proof.
  unfold inside. intros Hi Hv. apply six_bits; [apply get_range|done|]. intros k Hk. rewrite get_bit, set_bit, decide_True by lia. do 2 f_equal. lia.
Qed.
Lemma set_bits (s : bytes) i v j k : inside s j → j ≠ i → k < 6 →
  hll_bit (SetRegister i v s) (j * 6 + k) =
  if decide ((j * 6 + k) / 8 = i * 6 / 8 + 1) then (128 <=? byte_at s (i * 6 / 8))%Z || hll_bit s (j * 6 + k) else hll_bit s (j * 6 + k).
Proof. unfold inside. intros Hj Hne Hk. by rewrite set_bit, decide_False by lia. Qed.
Lemma set_other (s : bytes) i v j : inside s j → j ≠ i → (byte_at s (i * 6 / 8) < 128)%Z → GetRegister (SetRegister i v s) j = GetRegister s j.
Proof.
  intros Hj Hne Hb. apply six_bits; [apply get_range..|]. intros k Hk. rewrite !get_bit, set_bits by done. rewrite (proj2 (Z.leb_gt _ _)) by done. by case_decide.
Qed.

(** Registers are an array as long as the first byte of the register that is set is
    not negative: the register has the value, and every other one stays. *)
Theorem registers_update (s : bytes) i v :
  length s = kHllBytes → i < kHllRegisters → (0 ≤ v < 64)%Z →
  GetRegister (SetRegister i v s) i = v ∧
  ((byte_at s (i * 6 / 8) < 128)%Z → ∀ j, j < kHllRegisters → j ≠ i → GetRegister (SetRegister i v s) j = GetRegister s j).
Proof.
  intros Hs Hi Hv. split; [by apply set_self; [apply hll_inside|]|]. intros Hb j Hj Hne. by apply set_other; [apply hll_inside|..].
Qed.

Lemma high_bits_15 x : (0 ≤ x < 64)%Z →
  (∀ k, k < 4 → Z.testbit x (Z.of_nat k) = true) ∨ (∀ k, 2 ≤ k < 6 → Z.testbit x (Z.of_nat k) = true) → (15 ≤ x)%Z.
Proof.
  intros Hx H. destruct (decide (15 ≤ x)%Z) as [|Hl]; [done|]. exfalso.
  assert (Hb : forallb (λ x, negb (forallb (λ k, Z.testbit (Z.of_nat x) (Z.of_nat k)) (seq 0 4)) && negb (forallb (λ k, Z.testbit (Z.of_nat x) (Z.of_nat k)) (seq 2 4))) (seq 0 15) = true) by (by vm_compute).
  rewrite forallb_forall in Hb. specialize (Hb (Z.to_nat x) ltac:(apply in_seq; lia)). rewrite Z2Nat.id in Hb by lia. apply andb_true_iff in Hb as [H1 H2].
  apply negb_true_iff, not_true_iff_false in H1, H2. destruct H as [H|H]; [apply H1|apply H2]; apply forallb_forall; intros k Hk%in_seq; apply H; lia.
Qed.

Lemma next_bits (s : bytes) i v : inside s (i + 1) → (128 ≤ byte_at s (i * 6 / 8))%Z → (15 ≤ GetRegister (SetRegister i v s) (i + 1))%Z.
Proof.
  intros Hi Hb. apply high_bits_15; [apply get_range|].
  assert (Hbit : ∀ k, k < 6 → ((i + 1) * 6 + k) / 8 = i * 6 / 8 + 1 → Z.testbit (GetRegister (SetRegister i v s) (i + 1)) (Z.of_nat k) = true).
  { intros k Hk E. rewrite get_bit, set_bits by (done || lia). rewrite decide_True by done. by rewrite (proj2 (Z.leb_le _ _) Hb). }
  assert (Hd := Nat.div_mod_eq (i * 6) 8). assert (Hm := Nat.mod_upper_bound (i * 6) 8 ltac:(lia)). set (b := i * 6 / 8) in *. set (off := (i * 6) mod 8) in *.
  destruct (decide (off = 0)) as [H0|H0]; [right|left]; intros k Hk; apply Hbit; lia.
Qed.

(** When that byte is negative, the register after it is overwritten: whatever it was,
    it is at least 15 then. *)
Theorem next_register_overwritten (s : bytes) i v :
  length s = kHllBytes → i + 1 < kHllRegisters → (128 ≤ byte_at s (i * 6 / 8))%Z → (15 ≤ GetRegister (SetRegister i v s) (i + 1))%Z.
Proof. intros Hs Hi Hb. by apply next_bits; [apply hll_inside|]. Qed.

Lemma bits_le x y : (0 ≤ x)%Z → (0 ≤ y < 64)%Z → (x < 64)%Z → (∀ k, k < 6 → Z.testbit x (Z.of_nat k) = true → Z.testbit y (Z.of_nat k) = true) → (x ≤ y)%Z.
Proof.
  intros Hx Hy Hx' H. assert (E : Z.land x y = x).
  { apply six_bits; [|lia|]; [split; [apply Z.land_nonneg; lia|]|].
    - assert (Hl := Z.land_ones x 6 ltac:(lia)). destruct (Z.lt_ge_cases (Z.land x y) 64) as [|Hge]; [done|]. exfalso.
      assert (Hb : Z.testbit (Z.land x y) (Z.log2 (Z.land x y)) = true) by (apply Z.bit_log2; lia). rewrite Z.land_spec in Hb. apply andb_true_iff in Hb as [Hb _].
      assert (6 ≤ Z.log2 (Z.land x y))%Z by (apply Z.log2_le_pow2; lia). by rewrite (high_bit x 6) in Hb by lia.
    - intros k Hk. rewrite Z.land_spec. specialize (H k Hk). destruct (Z.testbit x (Z.of_nat k)); [by rewrite H|done]. }
  assert (E0 : Z.ldiff x y = 0%Z) by (rewrite <- E; apply Z.bits_inj'; intros n Hn; rewrite Z.ldiff_spec, Z.land_spec, Z.bits_0; by destruct (Z.testbit x n), (Z.testbit y n)).
  assert (Hd := Z.sub_nocarry_ldiff y x E0). assert (Hn : (0 ≤ Z.ldiff y x)%Z) by (apply Z.ldiff_nonneg; lia). lia.
Qed.

(** ** Adding elements *)

Lemma below_pow x n : (0 ≤ n)%Z → (0 ≤ x)%Z → (∀ k, (n ≤ k)%Z → Z.testbit x k = false) → (0 ≤ x < 2 ^ n)%Z.
Proof.
  intros Hn Hx H. assert (E : x = (x mod 2 ^ n)%Z).
  { apply Z.bits_inj'. intros k Hk. destruct (decide (k < n)%Z); [by rewrite Z.mod_pow2_bits_low|]. rewrite H, Z.mod_pow2_bits_high by lia. done. }
  rewrite E. apply Z.mod_pos_bound. apply Z.pow_pos_nonneg; lia.
Qed.
Lemma hash_range x : (0 ≤ MurmurHash64 x < 2 ^ 64)%Z.
Proof.
  assert (Hx : ∀ k, (0 ≤ k < 2 ^ 64)%Z → (0 ≤ xorshift k < 2 ^ 64)%Z).
  { intros k Hk. assert (Hs : (0 ≤ Z.shiftr k 47)%Z) by (apply Z.shiftr_nonneg; lia). apply below_pow; [lia|apply Z.lxor_nonneg; lia|].
    intros j Hj. unfold xorshift. rewrite Z.lxor_spec, Z.shiftr_spec by lia. by rewrite !(high_bit k 64) by lia. }
  unfold MurmurHash64. destruct (murmur_blocks _ _ _) as [h tail]. cbv zeta. apply Hx. apply Z.mod_pos_bound. lia.
Qed.
Lemma index_range x : Z.to_nat (Z.shiftr (MurmurHash64 x) 50) < kHllRegisters.
Proof.
  assert (H := hash_range x). rewrite Z.shiftr_div_pow2 by lia. assert (Hd : (MurmurHash64 x / 2 ^ 50 < 2 ^ 14)%Z) by (apply Z.div_lt_upper_bound; lia).
  assert (Hp := Z.div_pos (MurmurHash64 x) (2 ^ 50) ltac:(lia) ltac:(lia)). apply Nat2Z.inj_lt. rewrite (Z2Nat.id _ Hp), hll_registers. exact Hd.
Qed.

Lemma clz_more fuel k : ∀ value count v, clz_loop fuel value count = Some v → clz_loop (fuel + k) value count = Some v.
Proof. induction fuel as [|fuel IH]; intros value count v E; [done|]. cbn [clz_loop Nat.add] in *. destruct (Z.testbit value 49); [exact E|]. by apply IH. Qed.
Lemma clz_range fuel h v : (0 ≤ h)%Z → CountLeadingZeros fuel h = Some v → (0 ≤ v ≤ 50)%Z.
Proof.
  intros Hh E. destruct (clz_exact h Hh) as (H1 & H2 & H3). destruct (decide (h mod 2 ^ 50 = 0)%Z) as [E0|E0].
  - destruct (decide (h mod 2 ^ 56 = 0)%Z) as [E1|E1]; [rewrite H2 in E by done; injection E as <-; lia|by rewrite H3 in E].
  - assert (E50 : CountLeadingZeros (fuel + 50) h = Some v ∧ CountLeadingZeros (50 + fuel) h = Some (49 - Z.log2 (h mod 2 ^ 50))%Z).
    { specialize (H1 E0). unfold CountLeadingZeros in *. destruct (_ =? 0)%Z; [done|]. by split; apply clz_more. }
    destruct E50 as [Ea Eb]. rewrite Nat.add_comm, Eb in Ea. injection Ea as <-. assert (H0 := Z.log2_nonneg (h mod 2 ^ 50)).
    assert (Hm := Z.mod_pos_bound h (2 ^ 50) ltac:(lia)). assert (Hl := proj1 (Z.log2_lt_pow2 (h mod 2 ^ 50) 50 ltac:(lia)) ltac:(lia)). lia.
Qed.

Lemma set_monotone (s : bytes) i v j : inside s j → j ≠ i → (GetRegister s j ≤ GetRegister (SetRegister i v s) j)%Z.
Proof.
  intros Hj Hne. assert (Hr := get_range s j). apply bits_le; [lia|apply get_range|lia|]. intros k Hk. rewrite !get_bit, set_bits by done. case_decide; [|done]. intros ->. apply orb_true_r.
Qed.
Lemma add_range (s : bytes) i v j : inside s i → inside s j → (GetRegister s i < v ≤ 50)%Z → (GetRegister s j ≤ GetRegister (SetRegister i v s) j)%Z.
Proof.
  intros Hi Hj Hv. destruct (decide (j = i)) as [->|Hne]; [|by apply set_monotone]. assert (Hr := get_range s i). rewrite set_self by (done || lia). lia.
Qed.

(** Adding elements keeps the size and never lowers a register. *)
Lemma pfadd_step fuel (s x s' : bytes) :
  length s = kHllBytes → hll_add fuel s x = Some s' → length s' = kHllBytes ∧ ∀ j, j < kHllRegisters → (GetRegister s j ≤ GetRegister s' j)%Z.
Proof.
  intros Hs E. unfold hll_add in E. assert (Hi := index_range x). set (i := Z.to_nat (Z.shiftr (MurmurHash64 x) 50)) in *.
  destruct (CountLeadingZeros fuel (MurmurHash64 x)) as [v|] eqn:Ev; [|done]. cbn [mbind option_bind] in E. apply (inj Some) in E as <-.
  destruct (_ <? v)%Z eqn:Elt; [|split; [exact Hs|intros j _; apply Z.le_refl]]. apply Z.ltb_lt in Elt.
  assert (Hv := clz_range fuel _ v (proj1 (hash_range x)) Ev). split; [by rewrite length_set|]. intros j Hj.
  apply add_range; [by apply hll_inside..|]. split; [exact Elt|apply Hv].
Qed.
Lemma add_covers fuel (s x s' : bytes) : length s = kHllBytes → hll_add fuel s x = Some s' →
  ∃ count, CountLeadingZeros fuel (MurmurHash64 x) = Some count ∧ (count ≤ GetRegister s' (Z.to_nat (Z.shiftr (MurmurHash64 x) 50)))%Z.
Proof.
  intros Hs E. unfold hll_add in E. assert (Hi := hll_inside s _ Hs (index_range x)). set (i := Z.to_nat (Z.shiftr (MurmurHash64 x) 50)) in *.
  destruct (CountLeadingZeros fuel (MurmurHash64 x)) as [v|] eqn:Ev; [|done]. exists v. split; [reflexivity|]. cbn [mbind option_bind] in E. apply (inj Some) in E as <-.
  assert (Hv := clz_range fuel _ v (proj1 (hash_range x)) Ev). clear Hs. destruct (_ <? v)%Z eqn:Elt; [rewrite set_self by (done || lia); lia|by apply Z.ltb_ge in Elt].
Qed.

(** A hash whose lower 50 bits are zero while the six above them are not. *)
Definition endless (x : bytes) : Prop := (MurmurHash64 x mod 2 ^ 50 = 0 ∧ MurmurHash64 x mod 2 ^ 56 ≠ 0)%Z.
Lemma add_all_endless fuel x elements : endless x → x ∈ elements → ∀ s, hll_add_all fuel s elements = None.
Proof.
  intros [H0 H1] Hin. assert (Hn : ∀ s, hll_add fuel s x = None).
  { intros s. unfold hll_add. destruct (clz_exact (MurmurHash64 x) (proj1 (hash_range x))) as (_ & _ & H). by rewrite H. }
  induction elements as [|y elements IH]; [inversion Hin|]. intros s. cbn [hll_add_all]. apply elem_of_cons in Hin as [->|Hin]; [by rewrite Hn|].
  destruct (hll_add fuel s y); [by apply IH|done].
Qed.

(** Otherwise fifty turns are enough. *)
Lemma count_ends x fuel : ¬ endless x → 50 ≤ fuel → ∃ count, CountLeadingZeros fuel (MurmurHash64 x) = Some count.
Proof.
  intros Hn Hf. destruct (clz_exact (MurmurHash64 x) (proj1 (hash_range x))) as (H1 & H2 & _). destruct (decide (MurmurHash64 x mod 2 ^ 50 = 0)%Z) as [E0|E0].
  - destruct (decide (MurmurHash64 x mod 2 ^ 56 = 0)%Z) as [E1|E1]; [by eexists; apply H2|by destruct Hn].
  - specialize (H1 E0). eexists. replace fuel with (50 + (fuel - 50)) by lia. unfold CountLeadingZeros in *. destruct (_ =? 0)%Z; [exact H1|]. by apply clz_more.
Qed.
Lemma add_all_ends fuel elements : Forall (λ x, ¬ endless x) elements → 50 ≤ fuel → ∀ s, ∃ s', hll_add_all fuel s elements = Some s'.
Proof.
  intros He Hf. induction He as [|x elements Hx _ IH]; intros s; [by exists s|]. cbn [hll_add_all]. destruct (count_ends x fuel Hx Hf) as [v Hv]. unfold hll_add at 1.
  rewrite Hv. cbn [mbind option_bind]. apply IH.
Qed.
Lemma add_all_registers fuel elements : ∀ s s' : bytes,
  length s = kHllBytes → hll_add_all fuel s elements = Some s' →
  length s' = kHllBytes ∧ (∀ j, j < kHllRegisters → (GetRegister s j ≤ GetRegister s' j)%Z) ∧
  ∀ x, x ∈ elements → ∃ count, CountLeadingZeros fuel (MurmurHash64 x) = Some count ∧ (count ≤ GetRegister s' (Z.to_nat (Z.shiftr (MurmurHash64 x) 50)))%Z.
Proof.
  induction elements as [|x elements IH]; intros s s' Hs E.
  { apply (inj Some) in E as <-. split; [exact Hs|]. split; [intros j _; apply Z.le_refl|]. intros x Hx. inversion Hx. }
  cbn [hll_add_all] in E. destruct (hll_add fuel s x) as [s1|] eqn:E1; [|done]. destruct (pfadd_step fuel s x s1 Hs E1) as [H1 H2].
  destruct (IH s1 s' H1 E) as (H3 & H4 & H5). split; [exact H3|]. split; [intros j Hj; etrans; [by apply H2|by apply H4]|].
  intros y [->|Hy]%elem_of_cons; [|by apply H5]. destruct (add_covers fuel s x s1 Hs E1) as (v & Hv & Hle). exists v. split; [exact Hv|].
  etrans; [exact Hle|]. apply H4, index_range.
Qed.

(** C25. What PFADD does to a counter, given fifty or more turns for each of its
    loops. When no element has a hash whose lower 50 bits are zero while the six
    above them are not, adding them ends: it keeps the size, lowers no register,
    and leaves the register of each element at least at the number of zeros of its
    hash. When one of them has such a hash, adding them does not end. *)
Theorem pfadd_registers fuel (s : bytes) elements :
  length s = kHllBytes → 50 ≤ fuel →
  (Forall (λ x, ¬ endless x) elements →
    ∃ s', hll_add_all fuel s elements = Some s' ∧ length s' = kHllBytes ∧ (∀ j, j < kHllRegisters → (GetRegister s j ≤ GetRegister s' j)%Z) ∧
    ∀ x, x ∈ elements → ∃ count, CountLeadingZeros fuel (MurmurHash64 x) = Some count ∧ (count ≤ GetRegister s' (Z.to_nat (Z.shiftr (MurmurHash64 x) 50)))%Z) ∧
  (Exists endless elements → ∀ fuel', hll_add_all fuel' s elements = None).
Proof.
  intros Hs Hf. split.
  - intros He. destruct (add_all_ends fuel elements He Hf s) as [s' E]. exists s'. split; [exact E|]. by apply (add_all_registers fuel elements s s').
  - intros (x & Hin & Hx)%Exists_exists fuel'. by apply (add_all_endless fuel' x).
Qed.

(** ** What is lost, and what never ends *)

Lemma count_none h fuel : Z.testbit h 49 = true → CountLeadingZeros (S fuel) h = Some 0%Z.
Proof.
  intros Hb. unfold CountLeadingZeros. rewrite low_bits. assert (Hb' : Z.testbit (h mod 2 ^ 56) 49 = true) by (by rewrite Z.mod_pow2_bits_low by lia).
  rewrite (proj2 (Z.eqb_neq _ 0)) by (intros E; by rewrite E, Z.bits_0 in Hb'). cbn [clz_loop]. by rewrite Hb'.
Qed.

(** Elements whose hash has bit 49 set leave no trace: their count is zero, which no
    register is below.  These are half of all hashes. *)
Theorem pfadd_misses fuel (s : bytes) elements :
  Forall (λ x, Z.testbit (MurmurHash64 x) 49 = true) elements → hll_add_all (S fuel) s elements = Some s.
Proof.
  induction 1 as [|x elements Hx _ IH]; [done|]. cbn [hll_add_all]. unfold hll_add. rewrite (count_none _ _ Hx). cbn [mbind option_bind].
  rewrite (proj2 (Z.ltb_ge _ _)); [exact IH|]. apply get_range.
Qed.

Definition endless_text : bytes := B "E^hs:`Rm".
Lemma endless_example : endless endless_text.
Proof. split; by vm_compute. Qed.

(** C34. There is a printable text of eight characters that no PFADD returns from:
    whatever the key holds and whatever is added with it, the count of its zeros
    does not end. *)
Theorem pfadd_hangs `{!Platform} never fuel now key elements (c : Ctx) :
  endless_text ∈ elements →
  HandlePfAdd never fuel now (MkCommand (B "PFADD") (MkArg kBulkString <$> key :: elements)) c =
  (_ ← on_db (DbGet now key); hangs never) c.
Proof.
  intros Hin. set (cmd := MkCommand _ _). assert (Ea : arg_value <$> drop 1 (cmd_args cmd) = elements).
  { cbn. rewrite drop_0. clear. induction elements as [|x elements IH]; [done|]. cbn. by f_equal. }
  unfold HandlePfAdd. rewrite Ea. cbn -[hll_add_all EnsureHllData]. unfold mbind, mret, M_bind, M_ret, on_db. destruct (DbGet now key (ctx_db c)) as [db v].
  by rewrite (add_all_endless fuel endless_text _ endless_example Hin).
Qed.

(** ** Witnesses *)

Lemma empty_size : length empty_hll = kHllBytes.
Proof. apply length_replicate. Qed.
Lemma register_exists i : (i <? kHllRegisters) = true → i < kHllRegisters.
Proof. apply Nat.ltb_lt. Qed.

Lemma clz_exact_witness : CountLeadingZeros 50 1 = Some 49%Z ∧ CountLeadingZeros 1000 (2 ^ 50) = None.
Proof.
  destruct (clz_exact 1 ltac:(lia)) as [H1 _]. destruct (clz_exact (2 ^ 50) ltac:(lia)) as (_ & _ & H2). split; [apply H1; by vm_compute|apply H2; by vm_compute].
Defined.
Lemma registers_update_witness : GetRegister (SetRegister 5 7 empty_hll) 5 = 7%Z ∧ GetRegister (SetRegister 5 7 empty_hll) 6 = GetRegister empty_hll 6.
Proof.
  destruct (registers_update empty_hll 5 7 empty_size (register_exists 5 ltac:(vm_compute; reflexivity)) ltac:(lia)) as [H1 H2].
  split; [exact H1|]. apply H2; [vm_compute; reflexivity|apply register_exists; vm_compute; reflexivity|discriminate].
Defined.
Lemma next_register_overwritten_witness :
  GetRegister (SetRegister 1 2 empty_hll) 1 = 2%Z ∧ (15 ≤ GetRegister (SetRegister 0 1 (SetRegister 1 2 empty_hll)) 1)%Z.
Proof.
  split; [vm_compute; reflexivity|]. apply (next_register_overwritten (SetRegister 1 2 empty_hll) 0 1).
  - rewrite length_set. exact empty_size.
  - apply register_exists. vm_compute. reflexivity.
  - vm_compute. discriminate.
Defined.
Lemma pfadd_registers_witness :
  ∃ s' count, hll_add_all 50 empty_hll [B "hello"] = Some s' ∧ CountLeadingZeros 50 (MurmurHash64 (B "hello")) = Some count ∧ (count ≤ GetRegister s' 8228)%Z.
Proof.
  destruct (pfadd_registers 50 empty_hll [B "hello"] empty_size ltac:(lia)) as [H _].
  destruct H as (s' & E & _ & _ & Hc); [constructor; [vm_compute; intros [Hx _]; discriminate Hx|constructor]|].
  destruct (Hc (B "hello") (list_elem_of_here _ _)) as (v & Hv & Hle). exists s', v. split; [exact E|]. split; [exact Hv|exact Hle].
Defined.
Lemma pfadd_misses_witness : hll_add_all 1 empty_hll [B "b"; B "x"] = Some empty_hll.
Proof. apply (pfadd_misses 0 empty_hll). repeat constructor; vm_compute; reflexivity. Defined.

#[local] Existing Instance small_platform.
Lemma pfadd_hangs_witness :
  let c := MkCtx _ (fresh None None None kRedis None) 0 1 ∅ None [] (MkExtras _ ∅ None [] 0 false []) in
  (HandlePfAdd (λ c, (c, ThrewUnknown)) 1000 0 (MkCommand (B "PFADD") (MkArg kBulkString <$> [B "visitors"; B "E^hs:`Rm"])) c).2 = inr ThrewUnknown.
Proof.
  intros c. rewrite (pfadd_hangs (λ c, (c, ThrewUnknown)) 1000 0 (B "visitors") [B "E^hs:`Rm"] c (list_elem_of_here _ _)). vm_compute. reflexivity.
Defined.
