(* ===== verification/Lcs.v ===== *)
(** * The longest common subsequence

    The table and the walk of the LCS and STRALGO commands compute a common
    subsequence of the largest length. *)
From S2P Require Import Prelude.
From S2P Require Import Simd.
From S2P Require Import StringCommands.

Section Lcs.
Context (s1 s2 : bytes).

(** The length for prefixes, by the recursion the table unrolls. *)
Fixpoint ell (i j : nat) : nat :=
  match i with
  | O => 0
  | S i' =>
      (fix row (j : nat) : nat :=
         match j with
         | O => 0
         | S j' =>
             match s1 !! i', s2 !! j' with
             | Some c, Some d => if ascii_eqb c d then S (ell i' j') else max (ell i' j) (row j')
             | _, _ => 0
             end
         end) j
  end.

Lemma ell_0_r i : ell i 0 = 0.
Proof. by destruct i. Qed.

Lemma ell_S i j :
  ell (S i) (S j) = match s1 !! i, s2 !! j with
                    | Some c, Some d => if ascii_eqb c d then S (ell i j) else max (ell i (S j)) (ell (S i) j)
                    | _, _ => 0
                    end.
Proof. done. Qed.
#[local] Arguments ell : simpl never.

(** ** The table *)

Lemma next_row_ell i c j n :
  s1 !! i = Some c → j + n = length s2 →
  next_row c (drop j s2) (ell (S i) j) (ell i <$> seq j (S n)) = ell (S i) <$> seq (S j) n.
Proof.
  intros Hc. revert j. induction n as [|n IH]; intros j Hn.
  { rewrite drop_ge by lia. done. }
  destruct (lookup_lt_is_Some_2 s2 j ltac:(lia)) as [d Hd]. rewrite (drop_S s2 d j) by done.
  change (seq j (S (S n))) with (j :: S j :: seq (S (S j)) n).
  change (seq (S j) (S n)) with (S j :: seq (S (S j)) n). rewrite !fmap_cons. cbn [next_row].
  assert (He : ell (S i) (S j) = (if ascii_eqb c d then S (ell i j) else max (ell i (S j)) (ell (S i) j))).
  { by rewrite ell_S, Hc, Hd. }
  rewrite <- He. f_equal. apply (IH (S j)). lia.
Qed.

Lemma dp_rows_ell k i :
  i + k = length s1 →
  dp_rows (drop i s1) s2 (ell i <$> seq 0 (S (length s2))) = (λ i, ell i <$> seq 0 (S (length s2))) <$> seq i (S k).
Proof.
  revert i. induction k as [|k IH]; intros i Hk.
  { rewrite drop_ge by lia. done. }
  destruct (lookup_lt_is_Some_2 s1 i ltac:(lia)) as [c Hc]. rewrite (drop_S s1 c i) by done. cbn [dp_rows].
  change (seq i (S (S k))) with (i :: seq (S i) (S k)). rewrite fmap_cons. f_equal.
  rewrite <- (IH (S i)) by lia. f_equal. change (seq 0 (S (length s2))) with (0 :: seq 1 (length s2)) at 2.
  rewrite fmap_cons. rewrite (ell_0_r (S i)). f_equal.
  rewrite <- (next_row_ell i c 0 (length s2) Hc) by lia. rewrite drop_0. by rewrite ell_0_r.
Qed.

Lemma dp_cell_ell i j : i ≤ length s1 → j ≤ length s2 → dp_cell (dp_table s1 s2) i j = ell i j.
Proof.
  intros Hi Hj. unfold dp_cell, dp_table.
  assert (Hz : replicate (S (length s2)) 0 = ell 0 <$> seq 0 (S (length s2))).
  { apply list_eq. intros k. rewrite list_lookup_fmap. destruct (decide (k < S (length s2))).
    - rewrite lookup_replicate_2, lookup_seq_lt by done. done.
    - rewrite (lookup_ge_None_2 (replicate _ _)) by (rewrite length_replicate; lia).
      rewrite lookup_ge_None_2 by (rewrite length_seq; lia). done. }
  rewrite Hz. assert (H := dp_rows_ell (length s1) 0 ltac:(lia)). rewrite drop_0 in H. rewrite H.
  rewrite list_lookup_fmap, lookup_seq_lt by lia. cbn [fmap option_fmap option_map default].
  unfold default, id. rewrite list_lookup_fmap, lookup_seq_lt by lia. done.
Qed.

(** ** The largest length *)

Lemma sublist_snoc_inv (s l : bytes) x c :
  s ++ [x] `sublist_of` l ++ [c] → s ++ [x] `sublist_of` l ∨ x = c ∧ s `sublist_of` l.
Proof.
  intros (k1 & k2 & E & H1 & H2)%sublist_app_r. destruct k2 as [|y k2].
  - rewrite app_nil_r in E. subst. by left.
  - assert (k2 = [] ∧ y = c) as [-> ->].
    { apply sublist_cons_r in H2. destruct H2 as [H2|(k & Hk & H2)].
      - apply sublist_nil_r in H2. done.
      - simplify_eq. by apply sublist_nil_r in H2. }
    apply app_inj_tail in E as [-> ->]. by right.
Qed.

Lemma take_S_last (l : bytes) i c : l !! i = Some c → take (S i) l = take i l ++ [c].
Proof. intros H. by apply take_S_r. Qed.

Lemma ell_bounds i j s :
  i ≤ length s1 → j ≤ length s2 → s `sublist_of` take i s1 → s `sublist_of` take j s2 → length s ≤ ell i j.
Proof.
  revert j s. induction i as [|i IHi]; intros j s Hi Hj H1 H2.
  { rewrite take_0 in H1. apply sublist_nil_r in H1. subst. cbn. lia. }
  revert s H1 H2. induction j as [|j IHj]; intros s H1 H2.
  { rewrite take_0 in H2. apply sublist_nil_r in H2. subst. cbn. lia. }
  destruct (lookup_lt_is_Some_2 s1 i ltac:(lia)) as [c Hc]. destruct (lookup_lt_is_Some_2 s2 j ltac:(lia)) as [d Hd].
  rewrite ell_S, Hc, Hd. destruct s as [|x s _] using rev_ind; [cbn; lia|].
  rewrite (take_S_last s1 i c Hc) in H1. rewrite (take_S_last s2 j d Hd) in H2. rewrite length_app. cbn [length].
  apply sublist_snoc_inv in H1. apply sublist_snoc_inv in H2.
  assert (Hs : ∀ l, s ++ [x] `sublist_of` l → s `sublist_of` l).
  { intros l Hl. etrans; [|exact Hl]. by apply sublist_inserts_r. }
  unfold ascii_eqb. case_bool_decide as Hcd.
  - enough (length s ≤ ell i j) by lia. apply IHi; [lia|lia| |].
    + destruct H1 as [H1|[_ H1]]; [by apply Hs|done].
    + destruct H2 as [H2|[_ H2]]; [by apply Hs|done].
  - destruct H1 as [H1|[-> H1]].
    + assert (Hl := IHi (S j) (s ++ [x]) ltac:(lia) ltac:(lia) H1). rewrite length_app in Hl. cbn [length] in Hl.
      enough (s ++ [x] `sublist_of` take (S j) s2) as Hx by (specialize (Hl Hx); lia).
      rewrite (take_S_last s2 j d Hd). destruct H2 as [H2|[-> H2]]; [by apply sublist_inserts_r|by apply sublist_app].
    + destruct H2 as [H2|[-> _]]; [|done]. assert (Hl := IHj ltac:(lia) (s ++ [c])). rewrite length_app in Hl. cbn [length] in Hl.
      enough (length s + 1 ≤ ell (S i) j) by lia. apply Hl; [|done].
      rewrite (take_S_last s1 i c Hc). by apply sublist_app.
Qed.

(** ** The walk back *)

Lemma backtrack_ell fuel i j lcs :
  i ≤ length s1 → j ≤ length s2 → i + j ≤ fuel →
  ∃ pre, backtrack fuel (dp_table s1 s2) s1 s2 i j lcs = pre ++ lcs ∧
    pre `sublist_of` take i s1 ∧ pre `sublist_of` take j s2 ∧ length pre = ell i j.
Proof.
  revert i j lcs. induction fuel as [|fuel IH]; intros i j lcs Hi Hj Hf.
  { assert (i = 0) as -> by lia. exists []. split_and!; [done|apply sublist_nil_l..|done]. }
  cbn [backtrack]. destruct i as [|i]; [exists []; split_and!; [done|apply sublist_nil_l..|done]|].
  destruct j as [|j]; [exists []; split_and!; [done|apply sublist_nil_l..|by rewrite ell_0_r]|].
  destruct (lookup_lt_is_Some_2 s1 i ltac:(lia)) as [c Hc]. destruct (lookup_lt_is_Some_2 s2 j ltac:(lia)) as [d Hd].
  rewrite Hc, Hd, ell_S, Hc, Hd. unfold ascii_eqb. case_bool_decide as Hcd.
  - subst d. destruct (IH i j (c :: lcs)) as (pre & -> & H1 & H2 & H3); [lia..|]. exists (pre ++ [c]).
    rewrite (take_S_last s1 i c Hc), (take_S_last s2 j c Hd).
    split_and!; [by rewrite <- app_assoc|by apply sublist_app|by apply sublist_app|rewrite length_app; cbn; lia].
  - rewrite !dp_cell_ell by lia. destruct (ell (S i) j <? ell i (S j)) eqn:E; b2p.
    + destruct (IH i (S j) lcs) as (pre & -> & H1 & H2 & H3); [lia..|]. exists pre.
      split_and!; [done| |done|lia]. rewrite (take_S_last s1 i c Hc). by apply sublist_inserts_r.
    + destruct (IH (S i) j lcs) as (pre & -> & H1 & H2 & H3); [lia..|]. exists pre.
      split_and!; [done|done| |lia]. rewrite (take_S_last s2 j d Hd). by apply sublist_inserts_r.
Qed.
End Lcs.

(** C27. What LCS and STRALGO LCS answer is a subsequence of both strings, no
    common subsequence is longer, and the length LCS ... LEN answers is its
    length. *)
Theorem lcs_longest s1 s2 :
  lcs_string s1 s2 `sublist_of` s1 ∧ lcs_string s1 s2 `sublist_of` s2 ∧
  length (lcs_string s1 s2) = lcs_length s1 s2 ∧
  ∀ s, s `sublist_of` s1 → s `sublist_of` s2 → length s ≤ length (lcs_string s1 s2).
Proof.
  unfold lcs_string, lcs_length.
  destruct (backtrack_ell s1 s2 (length s1 + length s2) (length s1) (length s2) []) as (pre & -> & H1 & H2 & H3); [lia..|].
  rewrite app_nil_r, !take_ge in * by lia. rewrite dp_cell_ell by lia. split_and!; [done..|].
  intros s Hs1 Hs2. rewrite H3. apply ell_bounds; [lia|lia|by rewrite take_ge|by rewrite take_ge].
Qed.
