(* ===== verification/StringLog.v ===== *)
(** * String commands and the log

    What the log of the string commands is worth: running the logged commands
    again, one after the other, rebuilds the strings.  The contexts are plain: no
    eviction, no RocksDB, one worker. *)
From Stdlib Require Import SpecFloat.
From S2P Require Import Prelude.
From S2P Require Import Simd.
From S2P Require Import Numbers.
From S2P Require Import Text.
From S2P Require Import RespTypes.
From S2P Require Import Executor.
From S2P Require Import KeyMetadata.
From S2P Require Import Eviction.
From S2P Require Import Rocks.
From S2P Require Import Database.
From S2P Require Import DatabaseTypes.
From S2P Require Import DatabaseStrings.
From S2P Require Import Commands.
From S2P Require Import StringCommands.

#[local] Arguments DRemove : simpl never.
#[local] Arguments DInsert : simpl never.

Section StringLog.
Context {P : Platform} {HD : DoubleText}.
Implicit Types (db : Database) (c : Ctx) (key : bytes) (now : Z).

(** ** The database without eviction and RocksDB *)

Definition plain_db db : Prop := eviction_manager_ db = None ∧ rocksdb_adapter_ db = None.
Definition strs db : gmap bytes bytes := map_ (strings_ db).

Definition same_strs db db' : Prop := plain_db db' ∧ strs db' = strs db.

Lemma plain_track_access now key db : plain_db db → same_strs db (track_access now key db).
Proof. intros H. unfold track_access, touch. destruct (ShouldTrackAccessInfo db); [|done]. by destruct db. Qed.

Lemma plain_track_memory f db : plain_db db → same_strs db (track_memory f db).
Proof. intros H. unfold track_memory. destruct (memory_tracker_ db); [|done]. destruct (f _). by destruct db. Qed.

Lemma plain_persist key t db : plain_db db → persist_all_in key t db = db.
Proof. intros [_ H]. unfold persist_all_in, PersistKey. rewrite H. by destruct (decide _). Qed.

Lemma plain_check now db : plain_db db → check_eviction now db = db.
Proof. intros [H _]. unfold check_eviction. by rewrite H. Qed.

Lemma DbGet_plain now key db :
  plain_db db → same_strs db (DbGet now key db).1 ∧ (DbGet now key db).2 = strs db !! key.
Proof.
  intros H. unfold DbGet. cbv zeta. unfold strs, DGet. destruct (map_ (strings_ db) !! key) eqn:E.
  - split; [by apply plain_track_access|done].
  - destruct H as [H1 H2]. rewrite H2. done.
Qed.

Lemma DbSet_plain now key value db :
  plain_db db → plain_db (DbSet now key value db) ∧ strs (DbSet now key value db) = <[key := value]> (strs db).
Proof.
  intros H. unfold DbSet. cbv zeta. fold (put_string key value db).
  assert (H0 : plain_db (put_string key value db) ∧ strs (put_string key value db) = <[key := value]> (strs db)).
  { unfold put_string. destruct db. cbn in *. by destruct (DGet key _). }
  destruct H0 as [H0 E0]. destruct (plain_track_access now key _ H0) as [H1 E1].
  destruct (plain_track_memory (UpdateString key (default [] (DGet key (strings_ db))) value) _ H1) as [H2 E2].
  rewrite plain_check by done. rewrite plain_persist by done. split; [done|]. by rewrite E2, E1.
Qed.

Lemma plain_metadata {R} (f : Manager → Manager * R) db : plain_db db → same_strs db (on_metadata f db).1.
Proof. intros H. unfold on_metadata. destruct (f _). by destruct db. Qed.

Lemma DbDel_plain key db : plain_db db → plain_db (DbDel key db).1 ∧ strs (DbDel key db).1 = delete key (strs db).
Proof.
  intros H. unfold DbDel. cbv zeta.
  assert (Hr : plain_db (remove_data key db).1 ∧ strs (remove_data key db).1 = delete key (strs db)).
  { unfold remove_data, strs. destruct (DContains key (strings_ db)) eqn:E.
    - destruct db. cbn. split; [done|]. apply DRemove_map.
    - rewrite delete_id by (by apply bool_decide_eq_false, eq_None_not_Some in E). destruct db. cbn. repeat match goal with |- context [if ?b then _ else _] => destruct b end; done. }
  destruct (remove_data key db) as [db1 removed]. cbn [fst] in *. destruct Hr as [[He Ha] Hs].
  set (db2 := unregister key _). assert (H2 : plain_db db2 ∧ strs db2 = strs db1).
  { unfold db2, unregister, release_memory. destruct removed; by destruct db1. }
  clearbody db2. destruct H2 as [[He2 Ha2] Hs2]. rewrite Ha2. destruct (removed && _); by rewrite Hs2.
Qed.

Lemma DbDelMany_plain keys db :
  plain_db db → plain_db (DbDelMany keys db).1 ∧ strs (DbDelMany keys db).1 = foldl (λ m k, delete k m) (strs db) keys.
Proof.
  unfold DbDelMany. generalize 0%Z. revert db. induction keys as [|key keys IH]; intros db n H; [done|].
  cbn [foldl fst snd]. destruct (DbDel_plain key db H) as [H1 E1]. destruct (DbDel key db) as [db1 removed]. cbn [fst] in *.
  rewrite <- E1. by apply IH.
Qed.

Lemma DbSetRange_plain now key offset value db :
  plain_db db → (0 ≤ offset)%Z →
  let old := default [] (strs db !! key) in
  match (DbSetRange now key offset value db).2 with
  | None => same_strs db (DbSetRange now key offset value db).1 ∧
      (zlen old <? offset + zlen value)%Z && negb (can_allocate (offset + zlen value)) = true
  | Some n => plain_db (DbSetRange now key offset value db).1 ∧
      strs (DbSetRange now key offset value db).1 = <[key := overwrite (Z.to_nat offset) value old]> (strs db) ∧
      (zlen old <? offset + zlen value)%Z && negb (can_allocate (offset + zlen value)) = false
  end.
Proof.
  intros H Ho. cbv zeta. unfold DbSetRange. destruct (DbGet_plain now key db H) as [[H1 E1] Ev].
  destruct (DbGet now key db) as [db1 v]. cbn [fst snd] in *. subst v. rewrite (proj2 (Z.ltb_ge offset 0)) by lia.
  destruct (_ && _) eqn:E; cbn [fst snd]; [done|].
  destruct (DbSet_plain now key (overwrite (Z.to_nat offset) value (default [] (strs db !! key))) db1 H1) as [H2 E2].
  split; [done|]. by rewrite E2, E1.
Qed.
(** ** Handlers *)

Definition plain c : Prop := plain_db (ctx_db c) ∧ ctx_workers c ≤ 1.

(** What a step yields satisfies a postcondition. *)
Definition wp {A} (m : M A) (Q : A + outcome → Ctx → Prop) c : Prop := Q (m c).2 (m c).1.

Lemma wp_bind {A B} (m : M A) (f : A → M B) Q c :
  wp m (λ r c', match r with inl x => wp (f x) Q c' | inr o => Q (inr o) c' end) c → wp (m ≫= f) Q c.
Proof. unfold wp, mbind, M_bind. by destruct (m c) as [c' [x|o]]. Qed.

Lemma wp_ret {A} (x : A) Q c : Q (inl x) c → wp (mret x) Q c.
Proof. done. Qed.

Lemma wp_require b message Q c :
  (b = true → Q (inl ()) c) → (b = false → Q (inr (Returned (Failure message))) c) → wp (require b message) Q c.
Proof. unfold wp, require. intros H1 H2. destruct b; [by apply H1|by apply H2]. Qed.

Lemma wp_need {A} (x : option A) message Q c :
  (∀ y, x = Some y → Q (inl y) c) → (x = None → Q (inr (Returned (Failure message))) c) → wp (need x message) Q c.
Proof. unfold wp, need. intros H1 H2. destruct x; [by apply H1|by apply H2]. Qed.

(** The database of the context changes, the rest stays. *)
Definition with_db db c : Ctx := MkCtx _ db (ctx_self c) (ctx_workers c) (ctx_remote c) (ctx_cluster c) (ctx_log c) (ctx_more c).

Definition cstrs c : gmap bytes bytes := strs (ctx_db c).

(** From one context to another: the strings and the new log entries. *)
Definition moves c (m : gmap bytes bytes) (log : list (bytes * list bytes)) c' : Prop :=
  plain c' ∧ cstrs c' = m ∧ ctx_log c' = ctx_log c ++ log.

Lemma moves_refl c : plain c → moves c (cstrs c) [] c.
Proof. intros H. split; [done|]. split; [done|]. by rewrite app_nil_r. Qed.

Section Rules.
Context (c0 : Ctx) (m : gmap bytes bytes) (log : list (bytes * list bytes)) (c : Ctx).
Hypothesis Hc : moves c0 m log c.

(** A new database, with the strings [m']. *)
Lemma moves_db m' db : plain_db db → strs db = m' → moves c0 m' log (with_db db c).
Proof. destruct Hc as ((_ & Hw) & _ & Hl). intros H1 H2. by split. Qed.

Lemma wp_get now key Q :
  (∀ c', moves c0 m log c' → Q (inl (m !! key)) c') → wp (on_db (DbGet now key)) Q c.
Proof.
  destruct Hc as ((H & _) & Hm & _). intros HQ. unfold wp, on_db. destruct (DbGet_plain now key (ctx_db c) H) as [[H1 E1] Ev].
  destruct (DbGet now key (ctx_db c)) as [db v]. cbn [fst snd] in *. subst v. fold (cstrs c). rewrite Hm.
  apply HQ, moves_db; [done|by rewrite E1].
Qed.

Lemma wp_set now key value Q :
  (∀ c', moves c0 (<[key := value]> m) log c' → Q (inl ()) c') → wp (put_db (DbSet now key value)) Q c.
Proof.
  destruct Hc as ((H & _) & Hm & _). intros HQ. unfold wp, put_db, on_db. destruct (DbSet_plain now key value (ctx_db c) H).
  apply HQ, moves_db; [done|]. by rewrite <- Hm.
Qed.

Lemma wp_expire {R} (f : Manager → Manager * R) Q :
  (∀ r c', moves c0 m log c' → Q (inl r) c') → wp (on_db (on_metadata f)) Q c.
Proof.
  destruct Hc as ((H & _) & Hm & _). intros HQ. unfold wp, on_db. destruct (plain_metadata f (ctx_db c) H) as [H1 E1].
  destruct (on_metadata f (ctx_db c)) as [db r]. apply HQ, moves_db; [done|]. by rewrite <- Hm.
Qed.

Lemma wp_del keys Q :
  (∀ n c', moves c0 (foldl (λ m k, delete k m) m keys) log c' → Q (inl n) c') → wp (on_db (DbDelMany keys)) Q c.
Proof.
  destruct Hc as ((H & _) & Hm & _). intros HQ. unfold wp, on_db. destruct (DbDelMany_plain keys (ctx_db c) H) as [H1 E1].
  destruct (DbDelMany keys (ctx_db c)) as [db n]. apply HQ, moves_db; [done|]. by rewrite <- Hm.
Qed.

Lemma wp_log name args Q :
  (∀ c', moves c0 m (log ++ [(name, args)]) c' → Q (inl ()) c') → wp (LogToAof name args) Q c.
Proof. destruct Hc as (H & Hm & Hl). intros HQ. apply HQ. split; [done|]. split; [done|]. cbn. by rewrite Hl, app_assoc. Qed.

Lemma wp_workers Q : (∀ w, w ≤ 1 → Q (inl w) c) → wp workers_of Q c.
Proof. destruct Hc as ((_ & Hw) & _). intros HQ. by apply HQ. Qed.

(** Whether SETRANGE can make its string. *)
Definition fits (offset : Z) (value old : bytes) : bool :=
  negb ((zlen old <? offset + zlen value)%Z && negb (can_allocate (offset + zlen value))).

Lemma wp_setrange now key offset value Q :
  (0 ≤ offset)%Z →
  (∀ n c', fits offset value (default [] (m !! key)) = true →
     moves c0 (<[key := overwrite (Z.to_nat offset) value (default [] (m !! key))]> m) log c' → Q (inl (Some n)) c') →
  (∀ c', fits offset value (default [] (m !! key)) = false → moves c0 m log c' → Q (inl None) c') →
  wp (on_db (DbSetRange now key offset value)) Q c.
Proof.
  destruct Hc as ((H & _) & Hm & _). intros Ho HQ1 HQ2. unfold wp, on_db, fits in *.
  assert (Hs := DbSetRange_plain now key offset value (ctx_db c) H Ho). cbv zeta in Hs. fold (cstrs c) in Hs. rewrite Hm in Hs.
  destruct (DbSetRange now key offset value (ctx_db c)) as [db [n|]]; cbn [fst snd] in *.
  - destruct Hs as (H1 & H2 & H3). apply HQ1; [by rewrite H3|]. by apply moves_db.
  - destruct Hs as ((H1 & H2) & H3). apply HQ2; [by rewrite H3|]. apply moves_db; [done|]. by rewrite <- Hm.
Qed.
End Rules.

(** Operations that leave the strings. *)
Definition quiet {A} (f : Database → Database * A) : Prop := ∀ db, plain_db db → same_strs db (f db).1.

Lemma wp_quiet {A} (f : Database → Database * A) c0 m log c Q :
  quiet f → moves c0 m log c → (∀ r c', moves c0 m log c' → Q (inl r) c') → wp (on_db f) Q c.
Proof.
  intros Hf Hc HQ. destruct Hc as ((H & Hw) & Hm & Hl). unfold wp, on_db. destruct (Hf _ H) as [H1 E1].
  destruct (f (ctx_db c)) as [db r]. apply HQ. split; [done|]. split; [|done]. by rewrite <- Hm.
Qed.

Lemma quiet_metadata {R} (f : Manager → Manager * R) : quiet (on_metadata f).
Proof. intros db. apply plain_metadata. Qed.

Lemma quiet_get now key : quiet (DbGet now key).
Proof. intros db H. by apply DbGet_plain. Qed.

Lemma quiet_getrange now key a b : quiet (DbGetRange now key a b).
Proof.
  intros db H. unfold DbGetRange. assert (Hg := quiet_get now key db H). destruct (DbGet now key db) as [db1 [v|]]; done.
Qed.

Lemma quiet_mget now keys : quiet (DbMGet now keys).
Proof.
  intros db H. unfold DbMGet. set (f := λ _ _, _). revert H.
  assert (Hf : ∀ acc k, plain_db acc.1 → same_strs acc.1 (f acc k).1).
  { intros [db' vs] k H. unfold f. cbn [fst snd]. assert (Hg := quiet_get now k db' H). by destruct (DbGet now k db'). }
  change db with (fst (db, @nil (option bytes))) at 1 2. generalize (db, @nil (option bytes)). clearbody f.
  induction keys as [|k keys IH]; intros acc H; [done|]. cbn [foldl]. destruct (Hf acc k H) as [H1 E1].
  destruct (IH (f acc k) H1) as [H2 E2]. split; [done|]. by rewrite E2, E1.
Qed.

(** ** What the commands do to the strings *)

Abbreviation smap := (gmap bytes bytes).
Abbreviation entry := (bytes * list bytes)%type.

(** What a command with its arguments does to the strings: nothing, or a change
    with an entry of the log. *)
Definition spec : Type := list bytes → smap → option (entry * smap).

Definition spec_read : spec := λ _ _, None.

(** The options of SET without an expiry time. *)
Fixpoint set_flags (opts : list bytes) (nx xx : bool) : option (bool * bool) :=
  match opts with
  | [] => Some (nx, xx)
  | o :: opts =>
      if decide (o = B "NX") then set_flags opts true xx
      else if decide (o = B "XX") then set_flags opts nx true
      else None
  end.

Definition spec_set : spec := λ args m,
  match args with
  | k :: v :: opts =>
      match set_flags opts false false with
      | Some (nx, xx) =>
          let present := bool_decide (is_Some (m !! k)) in
          if nx && xx || nx && present || xx && negb present then None
          else Some ((B "SET", [k; v]), <[k := v]> m)
      | None => None
      end
  | _ => None
  end.

Definition spec_del : spec := λ args m,
  match args with [] => None | _ => Some ((B "DEL", args), foldl (λ m k, delete k m) m args) end.

(** The pairs of MSET, in their order. *)
Fixpoint set_pairs (args : list bytes) (m : smap) : smap :=
  match args with k :: v :: args => set_pairs args (<[k := v]> m) | _ => m end.

Definition paired (args : list bytes) : bool := negb (length args =? 0) && Nat.even (length args).

Definition spec_mset : spec := λ args m, if paired args then Some ((B "MSET", args), set_pairs args m) else None.

Fixpoint unset_pairs (args : list bytes) (m : smap) : bool :=
  match args with k :: _ :: args => bool_decide (m !! k = None) && unset_pairs args m | _ => true end.

Definition spec_msetnx : spec := λ args m,
  if paired args && unset_pairs args m then Some ((B "MSETNX", args), set_pairs args m) else None.

(** The sum of the number of a key and a number. *)
Definition add_number (k : bytes) (delta : Z) (m : smap) : option smap :=
  n ← match m !! k with None => Some 0%Z | Some s => SimpleAtoi s end;
  Some (<[k := print_int (i64 (n + delta))]> m).

Definition spec_incr (name : bytes) (delta : Z) : spec := λ args m,
  match args with [k] => m' ← add_number k delta m; Some ((name, args), m') | _ => None end.
Definition spec_incrby (name : bytes) (sign : Z) : spec := λ args m,
  match args with
  | [k; x] => d ← SimpleAtoi x; m' ← add_number k (sign * d) m; Some ((name, args), m')
  | _ => None
  end.

Definition spec_append : spec := λ args m,
  match args with [k; v] => Some ((B "APPEND", args), <[k := default [] (m !! k) ++ v]> m) | _ => None end.
Definition spec_getset : spec := λ args m,
  match args with [k; v] => Some ((B "GETSET", args), <[k := v]> m) | _ => None end.
Definition spec_setnx : spec := λ args m,
  match args with
  | [k; v] => if decide (m !! k = None) then Some ((B "SETNX", args), <[k := v]> m) else None
  | _ => None
  end.
Definition spec_setex : spec := λ args m,
  match args with
  | [k; n; v] => n ← SimpleAtoi n; if (0 <=? n)%Z then Some ((B "SETEX", args), <[k := v]> m) else None
  | _ => None
  end.
Definition spec_setrange : spec := λ args m,
  match args with
  | [k; n; v] =>
      n ← SimpleAtoi n;
      if (0 <=? n)%Z && fits n v (default [] (m !! k))
      then Some ((B "SETRANGE", args), <[k := overwrite (Z.to_nat n) v (default [] (m !! k))]> m) else None
  | _ => None
  end.

Definition bulk (s : bytes) : CommandArg := MkArg kBulkString s.

(** What a handler leaves, by the specification. *)
Definition leaves (s : spec) (args : list bytes) c c' : Prop :=
  match s args (cstrs c) with
  | None => moves c (cstrs c) [] c'
  | Some (e, m) => moves c m [e] c'
  end.

Definition implements (ok : list bytes → Prop) (h : Z → Command → M CommandResult) (s : spec) : Prop :=
  ∀ now name args c, ok args → plain c →
    wp (h now (MkCommand name (bulk <$> args))) (λ _ c', leaves s args c c') c.

Definition always (_ : list bytes) : Prop := True.

(** SET without an expiry time. *)
Definition no_expiry (args : list bytes) : Prop := Forall (λ o, o ≠ B "EX" ∧ o ≠ B "PX") (drop 2 args).
End StringLog.

(** Steps of a handler in a plain context. *)
Ltac wp_step :=
  lazymatch goal with
  | |- wp (mbind _ _) _ _ => apply wp_bind
  | |- wp (mret _) _ _ => apply wp_ret
  | |- wp (require true _) _ _ => apply wp_require; [intros _|discriminate]
  | |- wp (require false _) _ _ => apply wp_require; [discriminate|intros _]
  | |- wp (require _ _) _ _ => apply wp_require; intros ?
  | |- wp (need _ _) _ _ => apply wp_need; [intros ? ?|intros ?]
  | H : moves ?c0 ?m ?l ?c |- wp (on_db (DbGet _ _)) _ ?c => apply (wp_get c0 m l c H); clear H; intros ? H
  | H : moves ?c0 ?m ?l ?c |- wp (put_db (DbSet _ _ _)) _ ?c => apply (wp_set c0 m l c H); clear H; intros ? H
  | H : moves ?c0 ?m ?l ?c |- wp (on_db (DbDelMany _)) _ ?c => apply (wp_del c0 m l c H); clear H; intros ? ? H
  | H : moves ?c0 ?m ?l ?c |- wp (LogToAof _ _) _ ?c => apply (wp_log c0 m l c H); clear H; intros ? H
  | H : moves ?c0 ?m ?l ?c |- wp workers_of _ ?c => apply (wp_workers c0 m l c H); intros ? ?
  | H : moves ?c0 ?m ?l ?c |- wp (on_db _) _ ?c =>
      apply (wp_quiet _ c0 m l c); [first [apply quiet_metadata|apply quiet_getrange|apply quiet_mget]|exact H|]; clear H; intros ? ? H
  end; cbv beta iota zeta.

Ltac wp_start :=
  intros now name args c Hok Hp; assert (Hm := moves_refl c Hp).

(** The goal is in the context, or a guard is absurd. *)
Ltac wp_end := solve [match goal with
  | H : moves _ _ _ _ |- _ => exact H
  | H : _ = _ |- _ => discriminate H
  end].

(** Handlers without loops, for arguments of at most three. *)
Ltac wp_auto :=
  wp_start; unfold leaves; lazymatch goal with H : always ?args |- _ => destruct args as [|k [|v [|x [|y args]]]] end; cbn [fmap list_fmap length ArgCount cmd_args Nat.eqb];
  repeat wp_step; try wp_end.

(** Guards on numbers decide what the specification says. *)
Ltac wp_numbers := repeat (match goal with
  | H : SimpleAtoi _ = _ |- _ => cbn in H; rewrite H; clear H
  | H : (_ <=? _)%Z = _ |- _ => rewrite H; clear H
  | H : fits _ _ _ = _ |- _ => rewrite H; clear H
  end; cbn [mbind option_bind andb]); wp_end.

Section Implementations.
Context {P : Platform} {HD : DoubleText}.
Implicit Types (c : Ctx) (key : bytes) (now : Z).

Lemma append_implements : implements always HandleAppend spec_append.
Proof. unfold HandleAppend, spec_append. wp_auto. Qed.

Lemma getset_implements : implements always HandleGetSet spec_getset.
Proof. unfold HandleGetSet, spec_getset. wp_auto. Qed.

Lemma setnx_implements : implements always HandleSetNx spec_setnx.
Proof. 
  unfold HandleSetNx, spec_setnx. wp_auto. change (arg_text 0 _) with k in *. destruct (cstrs c !! k).
  - wp_step. by rewrite decide_False.
  - repeat wp_step. rewrite decide_True by done. wp_end.
Qed.

Lemma setex_implements : implements always HandleSetEx spec_setex.
Proof. unfold HandleSetEx, spec_setex. wp_auto; wp_numbers. Qed.

Lemma setrange_implements : implements always HandleSetRange spec_setrange.
Proof.
  unfold HandleSetRange, spec_setrange. wp_auto; [|wp_numbers..].
  eapply (wp_setrange _ _ _ _ Hm); [by apply Z.leb_le|clear Hm; intros n c1 Hf Hm|clear Hm; intros c1 Hf Hm].
  - repeat wp_step; cbn in Hf; wp_numbers.
  - cbn in Hf. unfold wp, throw. cbn [fst snd]. wp_numbers.
Qed.

Lemma wp_add_to now key delta c0 c log Q :
  moves c0 (cstrs c0) log c →
  (∀ n m c', add_number key delta (cstrs c0) = Some m → moves c0 m log c' → Q (inl n) c') →
  (∀ c', add_number key delta (cstrs c0) = None → moves c0 (cstrs c0) log c' → Q (inr (Returned (Failure not_integer))) c') →
  wp (add_to now key delta) Q c.
Proof.
  intros Hm H1 H2. unfold add_to, number_of, add_number in *. repeat wp_step.
  destruct (cstrs c0 !! key); repeat wp_step.
  - by eapply H1; [rewrite H; reflexivity|].
  - apply H2; [by rewrite H|done].
  - by eapply H1.
Qed.

(** The increments differ in their numbers. *)
Ltac wp_add Hm :=
  eapply (wp_add_to _ _ _ _ _ _ _ Hm); clear Hm;
  [intros n m c1 E Hm; repeat wp_step|intros c1 E Hm]; cbn in *.

Lemma incr_implements : implements always HandleIncr (spec_incr (B "INCR") 1).
Proof. unfold HandleIncr, spec_incr. wp_auto. wp_add Hm; by rewrite E. Qed.

Lemma decr_implements : implements always HandleDecr (spec_incr (B "DECR") (-1)).
Proof. unfold HandleDecr, spec_incr. wp_auto. wp_add Hm; by rewrite E. Qed.

Lemma incrby_implements : implements always HandleIncrBy (spec_incrby (B "INCRBY") 1).
Proof.
  unfold HandleIncrBy, spec_incrby. wp_auto; [|wp_numbers]. cbn in H0. rewrite H0. cbn [mbind option_bind].
  rewrite Z.mul_1_l. wp_add Hm; by rewrite E.
Qed.

Lemma decrby_implements : implements always HandleDecrBy (spec_incrby (B "DECRBY") (-1)).
Proof.
  unfold HandleDecrBy, spec_incrby. wp_auto; [|wp_numbers]. cbn in H0. rewrite H0. cbn [mbind option_bind].
  replace (-1 * y)%Z with (- y)%Z by lia. wp_add Hm; by rewrite E.
Qed.

Lemma values_bulk (args : list bytes) : arg_value <$> (bulk <$> args) = args.
Proof. induction args; [done|]. by f_equal/=. Qed.

Lemma all_bulk_bulk (args : list bytes) : all_bulk (bulk <$> args) = true.
Proof. by induction args. Qed.

Lemma del_implements : implements always HandleDel spec_del.
Proof.
  wp_start. unfold HandleDel, leaves, spec_del. unfold ArgCount. cbn [cmd_args]. rewrite values_bulk, all_bulk_bulk, length_fmap.
  destruct args as [|k args]; cbn [length Nat.eqb negb]; repeat wp_step; wp_end.
Qed.

Lemma set_options_flags now opts : ∀ nx xx,
  Forall (λ o, o ≠ B "EX" ∧ o ≠ B "PX") opts →
  match set_flags opts nx xx with
  | Some (nx', xx') => set_options now (bulk <$> opts) nx xx None = inl (nx', xx', None)
  | None => ∃ message, set_options now (bulk <$> opts) nx xx None = inr message
  end.
Proof.
  induction opts as [|o opts IH]; intros nx xx Ho; [done|]. inversion Ho as [|? ? [H1 H2] Ho']; subst.
  cbn [set_flags fmap list_fmap set_options]. change (is_bulk (bulk o)) with true. change (arg_value (bulk o)) with o. cbn [negb].
  destruct (decide (o = B "NX")); [by apply IH|]. destruct (decide (o = B "XX")); [by apply IH|].
  rewrite decide_False by done. rewrite decide_False by done. by eexists.
Qed.

Lemma set_implements : implements no_expiry HandleSet spec_set.
Proof.
  wp_start. unfold HandleSet, leaves, spec_set. destruct args as [|k [|v opts]]; [repeat wp_step; wp_end..|].
  cbn [fmap list_fmap length ArgCount cmd_args Nat.leb drop]. repeat wp_step; [|wp_end].
  assert (Ho := set_options_flags now opts false false Hok). rewrite drop_0.
  destruct (set_flags opts false false) as [[nx xx]|]; [rewrite Ho|by destruct Ho as [message ->]].
  change (arg_text 0 _) with k. change (arg_text 1 _) with v. repeat wp_step.
  2: destruct nx, xx; try discriminate; wp_end.
  destruct nx, xx, (bool_decide (is_Some (cstrs c !! k))); try discriminate; cbn [andb negb orb]; repeat wp_step; wp_end.
Qed.

Lemma wp_mset_loop now c0 log args Q : ∀ m c,
  moves c0 m log c → Nat.even (length args) = true → (∀ c', moves c0 (set_pairs args m) log c' → Q (inl ()) c') →
  wp (mset_loop now (bulk <$> args)) Q c.
Proof.
  induction args as [args IH] using (induction_ltof1 _ length). unfold ltof in IH. intros m c Hm He HQ.
  destruct args as [|k [|v args]]; [by apply HQ|discriminate|]. cbn [fmap list_fmap mset_loop]. repeat wp_step.
  - apply (IH args ltac:(cbn; lia) _ _ Hm He HQ).
  - discriminate.
Qed.

Lemma wp_msetnx_set now c0 log args Q : ∀ m c,
  moves c0 m log c → Nat.even (length args) = true → (∀ c', moves c0 (set_pairs args m) log c' → Q (inl ()) c') →
  wp (msetnx_set now (bulk <$> args)) Q c.
Proof.
  induction args as [args IH] using (induction_ltof1 _ length). unfold ltof in IH. intros m c Hm He HQ.
  destruct args as [|k [|v args]]; [by apply HQ|discriminate|]. cbn [fmap list_fmap msetnx_set]. repeat wp_step.
  - apply (IH args ltac:(cbn; lia) _ _ Hm He HQ).
  - discriminate.
Qed.

Lemma wp_msetnx_check now c0 log m args Q : ∀ c,
  moves c0 m log c → (∀ c', moves c0 m log c' → Q (inl (unset_pairs args m)) c') →
  wp (msetnx_check now (bulk <$> args)) Q c.
Proof.
  induction args as [args IH] using (induction_ltof1 _ length). unfold ltof in IH. intros c Hm HQ.
  destruct args as [|k [|v args]]; [by apply HQ..|]. cbn [fmap list_fmap msetnx_check unset_pairs] in *. repeat wp_step.
  - change (arg_value (bulk k)) with k. destruct (m !! k); [repeat wp_step; by apply HQ|].
    apply (IH args ltac:(cbn; lia) _ Hm HQ).
  - discriminate.
Qed.

Lemma mset_implements : implements always HandleMSet spec_mset.
Proof.
  wp_start. unfold HandleMSet, leaves, spec_mset, paired, ArgCount. cbn [cmd_args]. rewrite values_bulk, length_fmap.
  destruct (negb _ && _) eqn:E; repeat wp_step; [|wp_end]. rewrite (proj2 (Nat.ltb_ge _ _)) by done.
  apply andb_true_iff in E as [_ E]. apply (wp_mset_loop now c [] args _ _ _ Hm E). clear Hm. intros c' Hm. repeat wp_step. wp_end.
Qed.

Lemma msetnx_implements : implements always HandleMSetNx spec_msetnx.
Proof.
  wp_start. unfold HandleMSetNx, leaves, spec_msetnx, paired, ArgCount. cbn [cmd_args]. rewrite values_bulk, length_fmap.
  destruct (negb _ && _) eqn:E; repeat wp_step; [|wp_end]. apply (wp_msetnx_check now c [] _ args _ _ Hm). clear Hm. intros c' Hm.
  destruct (unset_pairs args (cstrs c)); cbn [negb andb]; repeat wp_step; [|wp_end].
  apply andb_true_iff in E as [_ E]. apply (wp_msetnx_set now c [] args _ _ _ Hm E). clear Hm. intros c1 Hm. repeat wp_step. wp_end.
Qed.

(** ** The commands that read *)

Lemma read_implements (h : Z → Command → M CommandResult) :
  (∀ now cmd c0 c, moves c0 (cstrs c0) [] c → wp (h now cmd) (λ _ c', moves c0 (cstrs c0) [] c') c) →
  implements always h spec_read.
Proof. intros H now name args c _ Hp. apply H. by apply moves_refl. Qed.

(** Loops over values that the loop carries. *)
Lemma wp_mfold {A B} (f : B → A → M B) c0 l : ∀ b c,
  (∀ b x c, moves c0 (cstrs c0) [] c → wp (f b x) (λ _ c', moves c0 (cstrs c0) [] c') c) →
  moves c0 (cstrs c0) [] c → wp (mfold f b l) (λ _ c', moves c0 (cstrs c0) [] c') c.
Proof.
  intros b c Hf. revert b c. induction l as [|x l IH]; intros b c Hm; [done|]. cbn [mfold]. apply wp_bind.
  assert (H := Hf b x c Hm). unfold wp in *. destruct (f b x c) as [c' [y|o]]; cbn [fst snd] in *; [by apply IH|done].
Qed.

Lemma wp_weaken {A} (m : M A) (Q Q' : A + outcome → Ctx → Prop) c : wp m Q c → (∀ r c', Q r c' → Q' r c') → wp m Q' c.
Proof. unfold wp. auto. Qed.

(** A step that keeps the strings, whatever it yields. *)
Lemma wp_then {A B} (m : M A) (f : A → M B) c0 c :
  wp m (λ _ c', moves c0 (cstrs c0) [] c') c →
  (∀ x c', moves c0 (cstrs c0) [] c' → wp (f x) (λ _ c', moves c0 (cstrs c0) [] c') c') →
  wp (m ≫= f) (λ _ c', moves c0 (cstrs c0) [] c') c.
Proof. intros H Hf. apply wp_bind. apply (wp_weaken _ _ _ _ H). intros [x|o] c' Hc; [by apply Hf|done]. Qed.

Ltac wp_read :=
  repeat first
    [ lazymatch goal with
      | |- moves _ _ _ _ => assumption
      | |- wp (mbind _ _) _ _ => apply wp_then; [|intros]
      | |- wp (fail _) _ _ => unfold wp, fail, stop; cbn [fst snd]
      | |- wp cluster_of _ _ => unfold wp, cluster_of; cbn [fst snd]
      | |- wp (let _ := _ in _) _ _ => cbv zeta
      | |- wp (if decide ?x then _ else _) _ _ => destruct (decide x)
      | |- wp (match ?x with _ => _ end) _ _ => destruct x
      end
    | wp_step ].

Lemma get_implements : implements always HandleGet spec_read.
Proof. apply read_implements. intros now cmd c0 c Hm. unfold HandleGet. wp_read. Qed.

Lemma strlen_implements : implements always HandleStrlen spec_read.
Proof. apply read_implements. intros now cmd c0 c Hm. unfold HandleStrlen. wp_read. Qed.

Lemma getrange_implements : implements always HandleGetRange spec_read.
Proof. apply read_implements. intros now cmd c0 c Hm. unfold HandleGetRange. wp_read. Qed.

Lemma substr_implements : implements always HandleSubstr spec_read.
Proof. exact getrange_implements. Qed.

Lemma stralgo_implements : implements always HandleStrAlgo spec_read.
Proof. apply read_implements. intros now cmd c0 c Hm. unfold HandleStrAlgo. wp_read. Qed.

Lemma lcs_implements : implements always HandleLcs spec_read.
Proof. apply read_implements. intros now cmd c0 c Hm. unfold HandleLcs. wp_read. Qed.

Lemma echo_implements : implements always HandleEcho spec_read.
Proof. apply read_implements. intros now cmd c0 c Hm. unfold HandleEcho. wp_read. Qed.

Lemma dump_implements : implements always HandleDump spec_read.
Proof. apply read_implements. intros now cmd c0 c Hm. unfold HandleDump. wp_read. Qed.

Lemma exists_implements : implements always HandleExists spec_read.
Proof. 
  apply read_implements. intros now cmd c0 c Hm. unfold HandleExists. wp_read. apply wp_mfold; [|done]. intros. wp_read.
Qed.

Lemma mget_implements : implements always HandleMGet spec_read.
Proof.
  apply read_implements. intros now cmd c0 c Hm. unfold HandleMGet. repeat (wp_step; try done).
  rewrite (proj2 (Nat.ltb_ge _ _)) by done. repeat wp_step. done.
Qed.

Lemma wp_getex_options now key c0 opts : ∀ c,
  moves c0 (cstrs c0) [] c → wp (getex_options now key opts) (λ _ c', moves c0 (cstrs c0) [] c') c.
Proof.
  induction opts as [opts IH] using (induction_ltof1 _ length). unfold ltof in IH. intros c Hm.
  destruct opts as [|a [|n opts]]; cbn [getex_options]; cbv zeta; wp_read.
  all: apply IH; [cbn; lia|done].
Qed.

Lemma getex_implements : implements always HandleGetEx spec_read.
Proof.
  apply read_implements. intros now cmd c0 c Hm. unfold HandleGetEx. wp_read. by apply wp_getex_options.
Qed.
End Implementations.
