(* ===== verification/TypedStore.v ===== *)
(** * The database as a typed store

    Without eviction and RocksDB, and while no expiry time has come, the database
    is a map from keys to values of one type each, with their expiry times.  The
    operations of strings, hashes, sets, lists and sorted sets do to it what they
    say, for keys that are used at one type. *)
From Stdlib Require Import SpecFloat.
From S2P Require Import Prelude.
From S2P Require Import BPTreeNode.
From S2P Require Import BPTree.
From S2P Require Import OrderedSet.
From S2P Require Import ZSet.
From S2P Require Import Simd.
From S2P Require Import Numbers.
From S2P Require Import Text.
From S2P Require Import RespTypes.
From S2P Require Import KeyMetadata.
From S2P Require Import LinkedList.
From S2P Require Import Streams.
From S2P Require Import Eviction.
From S2P Require Import Rocks.
From S2P Require Import Database.
From S2P Require Import DatabaseTypes.
From S2P Require Import DatabaseStrings.
From S2P Require Import StringLog.

#[local] Arguments DInsert : simpl never.
#[local] Arguments DRemove : simpl never.
#[local] Arguments DGet : simpl never.

Inductive value :=
  | VStr (s : bytes) | VHash (h : gmap bytes bytes) | VSet (s : gset bytes) | VList (l : list bytes) | VZSet (z : gmap bytes Score).

(** Values with their expiry times. *)
Abbreviation store := (gmap bytes (value * option Z)).

Definition type_of (v : value) : KeyType :=
  match v with VStr _ => kString | VHash _ => kHash | VSet _ => kSet | VList _ => kList | VZSet _ => kZSet end.

(** The time until which the commands run, and the members that sorted sets may
    have: fewer than [2 ^ 32], with hashes of their own. *)
Class Horizon `{!Platform} := {
  horizon : Z;
  universe : gset bytes;
  universe_size : (Z.of_nat (size universe) < 2 ^ 32)%Z;
  universe_hash x y : x ∈ universe → y ∈ universe → hash x = hash y → x = y
}.

(** A time alone, for histories without sorted sets. *)
Definition until `{!Platform} (t : Z) : Horizon.
Proof. refine {| horizon := t; universe := ∅ |}; [done|set_solver]. Defined.

Section TypedStore.
Context {P : Platform} {HD : DoubleText}.
Implicit Types (db : Database) (m : store) (key k : bytes) (now : Z) (v : value) (e : option Z).

(** ** The relation *)

(** What the database has under a key: in each of the five maps, and the type and
    expiry time. *)
Record shape := MkShape {
  sh_string : option bytes;
  sh_hash : option (gmap bytes bytes);
  sh_set : option (gset bytes);
  sh_list : option (list bytes);
  sh_zset : option (gmap bytes Score);
  sh_meta : option (KeyType * option Z)
}.

Definition set_view (d : SetType) : gset bytes := dom (map_ d).

Definition look db k : shape :=
  MkShape (DGet k (strings_ db)) (map_ <$> DGet k (hashes_ db)) (set_view <$> DGet k (sets_ db)) (storage <$> DGet k (lists_ db))
    (member_to_score_ <$> DGet k (zsets_ db)) ((λ md, (key_type md, expire_time_ms md)) <$> DGet k (metadata_manager_ db)).

Definition shape_of (x : option (value * option Z)) : shape :=
  match x with
  | None => MkShape None None None None None None
  | Some (VStr s, e) => MkShape (Some s) None None None None (Some (kString, e))
  | Some (VHash h, e) => MkShape None (Some h) None None None (Some (kHash, e))
  | Some (VSet s, e) => MkShape None None (Some s) None None (Some (kSet, e))
  | Some (VList l, e) => MkShape None None None (Some l) None (Some (kList, e))
  | Some (VZSet z, e) => MkShape None None None None (Some z) (Some (kZSet, e))
  end.

Context {HZ : Horizon}.

(** The three structures of a sorted set agree, and its members are known. *)
Definition zset_ok (z : ZSetType) : Prop := zset_inv hash z ∧ dom (member_to_score_ z) ⊆ universe.

(** The containers are right, and there are no values of other types. *)
Record sound db : Prop := {
  sound_plain : plain_db db;
  sound_hashes k d : DGet k (hashes_ db) = Some d → dash_ok d;
  sound_sets k d : DGet k (sets_ db) = Some d → dash_ok d;
  sound_lists k d : DGet k (lists_ db) = Some d → list_ok d;
  sound_zsets k d : DGet k (zsets_ db) = Some d → zset_ok d;
  sound_streams k : DGet k (streams_ db) = None;
  sound_vectors k : DGet k (vectors_ db) = None;
  sound_jsons k : DGet k (jsons_ db) = None
}.

(** No expiry time before the [horizon]. *)
Definition later (x : value * option Z) : Prop := match x.2 with Some t => (horizon < t)%Z | None => True end.

Record models db m : Prop := {
  mod_sound : sound db;
  mod_look k : look db k = shape_of (m !! k);
  mod_later k x : m !! k = Some x → later x
}.

(** The expiry time stays when the value changes. *)
Definition deadline_of key m : option Z := match m !! key with Some (_, e) => e | None => None end.
Definition put key v m : store := <[key := (v, deadline_of key m)]> m.

(** A key of a type, or no key; reads take a key of another type for none. *)
Definition str_at key m : option bytes := match m !! key with Some (VStr s, _) => Some s | _ => None end.
Definition hash_at key m : gmap bytes bytes := match m !! key with Some (VHash h, _) => h | _ => ∅ end.
Definition set_at key m : gset bytes := match m !! key with Some (VSet s, _) => s | _ => ∅ end.
Definition list_at key m : list bytes := match m !! key with Some (VList l, _) => l | _ => [] end.
Definition zset_at key m : gmap bytes Score := match m !! key with Some (VZSet z, _) => z | _ => ∅ end.
Definition has_type (t : KeyType) key m : Prop := match m !! key with Some (v, _) => type_of v = t | None => True end.

(** An operation takes one store to another and answers [x]. *)
Definition does {A} (f : Database → Database * A) m (x : A) m' : Prop :=
  ∀ db, models db m → models (f db).1 m' ∧ (f db).2 = x.

(** As [does], for answers and stores that are not determined. *)
Definition may {A} (f : Database → Database * A) m (Q : A → store → Prop) : Prop :=
  ∀ db, models db m → ∃ m', models (f db).1 m' ∧ Q (f db).2 m'.

Lemma may_does {A} (f : Database → Database * A) m x m' : may f m (λ y m2, y = x ∧ m2 = m') → does f m x m'.
Proof. intros Hf db H. by destruct (Hf db H) as (? & ? & ? & ->). Qed.

Lemma look_string db m k : models db m → DGet k (strings_ db) = sh_string (shape_of (m !! k)).
Proof. intros H. by rewrite <- (mod_look _ _ H). Qed.
Lemma look_hash db m k : models db m → map_ <$> DGet k (hashes_ db) = sh_hash (shape_of (m !! k)).
Proof. intros H. by rewrite <- (mod_look _ _ H). Qed.
Lemma look_set db m k : models db m → set_view <$> DGet k (sets_ db) = sh_set (shape_of (m !! k)).
Proof. intros H. by rewrite <- (mod_look _ _ H). Qed.
Lemma look_list db m k : models db m → storage <$> DGet k (lists_ db) = sh_list (shape_of (m !! k)).
Proof. intros H. by rewrite <- (mod_look _ _ H). Qed.
Lemma look_zset db m k : models db m → member_to_score_ <$> DGet k (zsets_ db) = sh_zset (shape_of (m !! k)).
Proof. intros H. by rewrite <- (mod_look _ _ H). Qed.
Lemma look_meta db m k :
  models db m → (λ md, (key_type md, expire_time_ms md)) <$> DGet k (metadata_manager_ db) = sh_meta (shape_of (m !! k)).
Proof. intros H. by rewrite <- (mod_look _ _ H). Qed.

(** A database that differs at one key. *)
Lemma models_at db db' m key x :
  models db m → sound db' → (∀ k, k ≠ key → look db' k = look db k) → look db' key = shape_of x →
  match x with Some x => later x | None => True end → models db' (match x with Some x => <[key := x]> m | None => delete key m end).
Proof.
  intros H Hs Ho Hk Hl. split; [done| |].
  - intros k. destruct (decide (k = key)) as [->|Hne].
    + rewrite Hk. destruct x; [by rewrite lookup_insert_eq|by rewrite lookup_delete_eq].
    + rewrite Ho, (mod_look _ _ H) by done. destruct x; [by rewrite lookup_insert_ne|by rewrite lookup_delete_ne].
  - intros k y. destruct (decide (k = key)) as [->|Hne].
    + destruct x; [rewrite lookup_insert_eq; naive_solver|by rewrite lookup_delete_eq].
    + destruct x; [rewrite lookup_insert_ne by done|rewrite lookup_delete_ne by done]; apply (mod_later _ _ H).
Qed.

(** A database that looks the same. *)
Lemma models_same db db' m : models db m → sound db' → (∀ k, look db' k = look db k) → models db' m.
Proof. intros H Hs Ho. split; [done|intros k; rewrite Ho; apply H|apply H]. Qed.

(** ** Metadata and memory *)

(** The type and expiry time of a key. *)
Definition meta_view (x : Manager) k : option (KeyType * option Z) := (λ md, (key_type md, expire_time_ms md)) <$> DGet k x.

Lemma update_entry_view f key x k :
  (∀ md, key_type (f md) = key_type md ∧ expire_time_ms (f md) = expire_time_ms md) →
  meta_view (update_entry f key x).1 k = meta_view x k.
Proof.
  intros Hf. unfold meta_view, update_entry, DGet. destruct (map_ x !! key) as [md|] eqn:E; [|done]. cbn [fst]. rewrite DInsert_map.
  destruct (decide (k = key)) as [->|Hne]; [|by rewrite lookup_insert_ne]. rewrite lookup_insert_eq, E. cbn.
  by rewrite (proj1 (Hf md)), (proj2 (Hf md)).
Qed.

Lemma register_view key t x k : meta_view (RegisterKey key t x) k = if decide (k = key) then Some (t, None) else meta_view x k.
Proof.
  unfold meta_view, RegisterKey, DGet. rewrite DInsert_map. case_decide; subst; [by rewrite lookup_insert_eq|by rewrite lookup_insert_ne].
Qed.

Lemma unregister_view key x k : meta_view (UnregisterKey key x) k = if decide (k = key) then None else meta_view x k.
Proof.
  unfold meta_view, UnregisterKey, DGet. rewrite DRemove_map. case_decide; subst; [by rewrite lookup_delete_eq|by rewrite lookup_delete_ne].
Qed.

Lemma track_sizes_view key o n tm k : meta_view (track_sizes key o n tm).2 k = meta_view tm.2 k.
Proof. apply update_entry_view. done. Qed.

Lemma sound_with x db : sound db → sound (with_metadata x db).
Proof. destruct db. by intros []. Qed.
Lemma sound_tracker x db : sound db → sound (with_tracker x db).
Proof. destruct db. by intros []. Qed.

Lemma look_with x db k : look (with_metadata x db) k = MkShape (sh_string (look db k)) (sh_hash (look db k)) (sh_set (look db k)) (sh_list (look db k)) (sh_zset (look db k)) (meta_view x k).
Proof. by destruct db. Qed.

Lemma models_metadata x db m :
  models db m → (∀ k, meta_view x k = meta_view (metadata_manager_ db) k) → models (with_metadata x db) m.
Proof.
  intros H Hx. eapply models_same; [done|apply sound_with, H|]. intros k. rewrite look_with, Hx. done.
Qed.

Lemma models_tracker x db m : models db m → models (with_tracker x db) m.
Proof. intros H. eapply models_same; [done|apply sound_tracker, H|]. by destruct db. Qed.

Lemma models_track_access now key db m : models db m → models (track_access now key db) m.
Proof.
  intros H. unfold track_access, touch. destruct (ShouldTrackAccessInfo db); [|done]. apply models_metadata; [done|].
  intros k. by apply update_entry_view.
Qed.

(** The helpers of the tracker keep what they say nothing about. *)
Definition harmless (f : tracked → tracked) : Prop := ∀ tm k, meta_view (f tm).2 k = meta_view tm.2 k.

Lemma models_track_memory f db m : harmless f → models db m → models (track_memory f db) m.
Proof.
  intros Hf H. unfold track_memory. destruct (memory_tracker_ db) as [t|] eqn:E; [|done].
  assert (Hk := Hf (t, metadata_manager_ db)). destruct (f _) as [t' x]. apply models_tracker, models_metadata; [done|]. apply Hk.
Qed.

Lemma models_check now db m : models db m → check_eviction now db = db.
Proof. intros H. apply plain_check, H. Qed.
Lemma models_persist key t db m : models db m → persist_all_in key t db = db.
Proof. intros H. apply plain_persist, H. Qed.

Lemma harmless_string key o n : harmless (UpdateString key o n).
Proof. intros tm k. apply track_sizes_view. Qed.
Lemma harmless_hash key b o n : harmless (UpdateHashField key b o n).
Proof. intros tm k. apply track_sizes_view. Qed.
Lemma harmless_element n key b x : harmless (UpdateElement n key b x).
Proof. intros tm k. apply track_sizes_view. Qed.

(** No expiry time has come: validity is presence. *)
Lemma later_valid now md : (now ≤ horizon)%Z → match expire_time_ms md with Some t => (horizon < t)%Z | None => True end → IsExpired now md = false.
Proof. intros Hn. unfold IsExpired. destruct (expire_time_ms md) as [t|]; [|done]. intros Ht. rewrite (proj2 (Z.ltb_ge t now)) by lia. apply andb_false_r. Qed.

Lemma models_meta_at db m key :
  models db m → match DGet key (metadata_manager_ db) with
                | Some md => ∃ v e, m !! key = Some (v, e) ∧ key_type md = type_of v ∧ expire_time_ms md = e ∧ later (v, e)
                | None => m !! key = None
                end.
Proof.
  intros H. assert (E := look_meta db m key H). assert (Hl := mod_later _ _ H key).
  destruct (DGet key (metadata_manager_ db)) as [md|]; cbn in E; destruct (m !! key) as [[v e]|] eqn:Em; cbn in E.
  - exists v, e. specialize (Hl _ eq_refl). destruct v; cbn in *; by simplify_eq.
  - done.
  - by destruct v.
  - done.
Qed.

Lemma valid_models now key db m : (now ≤ horizon)%Z → models db m → valid now key db = (db, bool_decide (is_Some (m !! key))).
Proof.
  intros Hn H. unfold valid, IsValid. assert (Hm := models_meta_at db m key H). destruct (DGet key (metadata_manager_ db)) as [md|] eqn:E.
  - destruct Hm as (v & e & Em & Ht & He & Hl). rewrite (later_valid now md Hn) by (by rewrite He). rewrite Em. by destruct db.
  - rewrite Hm. by destruct db.
Qed.

Lemma type_models now key db m :
  (now ≤ horizon)%Z → models db m → DbGetType now key db = (db, (λ x, type_of x.1) <$> m !! key).
Proof.
  intros Hn H. unfold DbGetType, on_metadata, GetKeyType. assert (Hm := models_meta_at db m key H).
  destruct (DGet key (metadata_manager_ db)) as [md|] eqn:E.
  - destruct Hm as (v & e & Em & Ht & He & Hl). rewrite (later_valid now md Hn) by (by rewrite He). rewrite Em. cbn. rewrite Ht. by destruct db.
  - rewrite Hm. by destruct db.
Qed.

(** ** Operations on any key *)

Lemma does_read {A} (f : Database → Database * A) m x : (∀ db, models db m → f db = (db, x)) → does f m x m.
Proof. intros Hf db H. by rewrite (Hf db H). Qed.

Lemma does_exists now key m : (now ≤ horizon)%Z → does (DbExists now key) m (bool_decide (is_Some (m !! key))) m.
Proof. intros Hn. apply does_read. intros db. by apply valid_models. Qed.
Lemma does_type now key m : (now ≤ horizon)%Z → does (DbGetType now key) m ((λ x, type_of x.1) <$> m !! key) m.
Proof. intros Hn. apply does_read. intros db. by apply type_models. Qed.

Lemma dash_remove_get {V} key k (d : DashMap V) : DGet k (DRemove key d).1 = if decide (k = key) then None else DGet k d.
Proof. unfold DGet. rewrite DRemove_map. case_decide; subst; [by rewrite lookup_delete_eq|by rewrite lookup_delete_ne]. Qed.
Lemma dash_insert_get {V} key k (x : V) d : DGet k (DInsert key x d).1 = if decide (k = key) then Some x else DGet k d.
Proof. unfold DGet. rewrite DInsert_map. case_decide; subst; [by rewrite lookup_insert_eq|by rewrite lookup_insert_ne]. Qed.
Lemma dash_contains {V} key (d : DashMap V) : DContains key d = bool_decide (is_Some (DGet key d)).
Proof. done. Qed.
Lemma put_back_get {V} key k (x : V) d :
  is_Some (DGet key d) → DGet k (put_back key x d) = if decide (k = key) then Some x else DGet k d.
Proof. intros H. unfold put_back. rewrite dash_contains, bool_decide_eq_true_2 by done. apply dash_insert_get. Qed.

Lemma dash_insert_models {V} (d : DashMap V) f x : dash_ok d → dash_ok (DInsert f x d).1 ∧ map_ (DInsert f x d).1 = <[f := x]> (map_ d) ∧ (DInsert f x d).2 = bool_decide (map_ d !! f = None).
Proof. intros H. split; [by apply DInsert_dash|]. by split. Qed.

(** The key goes from the map that has it and from the metadata. *)
Lemma remove_data_models key db m :
  models db m → ∃ db1, remove_data key db = (db1, bool_decide (is_Some (m !! key))) ∧ sound db1 ∧
    metadata_manager_ db1 = metadata_manager_ db ∧ storage_mode_ db1 = storage_mode_ db ∧
    (∀ k, k ≠ key → look db1 k = look db k) ∧
    look db1 key = MkShape None None None None None (sh_meta (look db key)).
Proof.
  intros H. assert (Hs := mod_sound _ _ H). assert (E1 := look_string db m key H). assert (E2 := look_hash db m key H).
  assert (E3 := look_set db m key H). assert (E4 := look_list db m key H). assert (E5 := look_zset db m key H). unfold remove_data. rewrite !dash_contains.
  destruct (m !! key) as [[[s|h|s|l|z] e]|]; cbn in E1, E2, E3, E4, E5;
    try (apply fmap_None in E2); try (apply fmap_None in E3); try (apply fmap_None in E4); try (apply fmap_None in E5);
    try (apply fmap_Some in E2 as (d & E2 & ->)); try (apply fmap_Some in E3 as (d & E3 & ->));
    try (apply fmap_Some in E4 as (d & E4 & ->)); try (apply fmap_Some in E5 as (d & E5 & ->));
    rewrite ?E1, ?E2, ?E3, ?E4, ?E5, ?(sound_streams _ Hs), ?(sound_vectors _ Hs), ?(sound_jsons _ Hs);
    cbn; (eexists; split; [reflexivity|]); destruct db; cbn in *; destruct Hs; cbn in *;
    (split; [split; cbn; try done; intros ? ?; rewrite dash_remove_get; case_decide; naive_solver|]); (split; [done|]); (split; [done|]);
    (split; [intros k Hne; unfold look; cbn; rewrite ?dash_remove_get, ?decide_False by done; done|]);
    unfold look; cbn; rewrite ?dash_remove_get, ?decide_True by done; rewrite ?E1, ?E2, ?E3, ?E4, ?E5; done.
Qed.

Lemma does_del key m : does (DbDel key) m (bool_decide (is_Some (m !! key))) (delete key m).
Proof.
  intros db H. unfold DbDel. cbv zeta. destruct (remove_data_models key db m H) as (db1 & -> & Hs & Hm & _ & Ho & Hk).
  set (removed := bool_decide _). set (db2 := unregister key _).
  assert (H2 : models db2 (delete key m)).
  { unfold db2, unregister. set (db3 := if removed then _ else db1).
    assert (H3 : sound db3 ∧ (∀ k, look db3 k = look db1 k) ∧ metadata_manager_ db3 = metadata_manager_ db1).
    { unfold db3, release_memory. destruct removed; [|done]. split; [by apply sound_tracker|]. by destruct db1. }
    clearbody db3. destruct H3 as (Hs3 & Hl3 & Hm3). rewrite Hm3, Hm.
    apply (models_at db _ m key None); [done|by apply sound_with| | |done].
    - intros k Hne. rewrite look_with, unregister_view, decide_False by done. by rewrite Hl3, Ho.
    - rewrite look_with, unregister_view, decide_True by done. by rewrite Hl3, Hk. }
  clearbody db2. assert (Hr : rocksdb_adapter_ db2 = None) by apply H2. rewrite Hr. destruct (removed && _); done.
Qed.

(** ** Strings *)

Lemma models_get now key db m : models db m → models (DbGet now key db).1 m ∧ (DbGet now key db).2 = str_at key m.
Proof.
  intros H. unfold DbGet. cbv zeta. rewrite (look_string db m key H). unfold str_at.
  destruct (m !! key) as [[[s|h|s|l|z] e]|]; cbn; try (split; [by apply models_track_access|done]);
    (assert (Hr : rocksdb_adapter_ db = None) by apply H); by rewrite Hr.
Qed.

Lemma does_get now key m : does (DbGet now key) m (str_at key m) m.
Proof. intros db. apply models_get. Qed.

Lemma put_later key v m db : models db m → later (v, deadline_of key m).
Proof. intros H. unfold later, deadline_of. cbn. destruct (m !! key) as [[v' e]|] eqn:E; [|done]. apply (mod_later _ _ H _ _ E). Qed.

Lemma does_set now key s m : has_type kString key m → does (λ db, (DbSet now key s db, ())) m () (put key (VStr s) m).
Proof.
  intros Ht db H. cbn [fst snd]. split; [|done]. unfold DbSet. cbv zeta. fold (put_string key s db).
  assert (H1 : models (put_string key s db) (put key (VStr s) m)).
  { unfold put_string, put. unfold has_type in Ht. apply (models_at db _ m key (Some (VStr s, deadline_of key m))); [done| | | |by eapply put_later].
    - assert (Hs := mod_sound _ _ H). destruct db, Hs. cbn in *. by destruct (DGet key _).
    - intros k Hne. destruct db. cbn in *. destruct (DGet key _); unfold look; cbn; rewrite dash_insert_get, decide_False by done; f_equal;
        [by apply update_entry_view|]. etrans; [apply register_view|]. by rewrite decide_False.
    - assert (E1 := look_string db m key H). assert (E5 := mod_look _ _ H key). unfold deadline_of in *. rewrite E1.
      destruct (m !! key) as [[[s'|h|s'|l|z] e]|] eqn:Em; try done; cbn in *; destruct db; unfold look in *; cbn in *; injection E5 as E11 E12 E13 E14 E15 E16;
        rewrite dash_insert_get, decide_True, E12, E13, E14, E15 by done; f_equal; [etrans; [by apply update_entry_view|done]|].
      etrans; [apply register_view|]. by rewrite decide_True. }
  assert (H2 := models_track_memory _ _ _ (harmless_string key (default [] (DGet key (strings_ db))) s) (models_track_access now key _ _ H1)).
  rewrite (models_check now _ _ H2), (models_persist _ _ _ _ H2). done.
Qed.

(** ** The kinds of containers

    Hashes, sets and lists are handled in one way: a map of containers, what a
    container stands for, and the value of the store. *)

(** A value that is there is changed. *)
Definition change key (g : value → value) m : store := alter (λ x, (g x.1, x.2)) key m.

Lemma change_some key g m v e : m !! key = Some (v, e) → change key g m = <[key := (g v, e)]> m.
Proof.
  intros E. apply map_eq. intros k. unfold change. destruct (decide (k = key)) as [->|Hne].
  - by rewrite lookup_alter_eq, lookup_insert_eq, E.
  - by rewrite lookup_alter_ne, lookup_insert_ne.
Qed.
Lemma change_id key g m : (∀ v e, m !! key = Some (v, e) → g v = v) → change key g m = m.
Proof.
  intros Hg. apply map_eq. intros k. unfold change. destruct (decide (k = key)) as [->|Hne]; [|by rewrite lookup_alter_ne].
  rewrite lookup_alter_eq. destruct (m !! key) as [[v e]|]; [|done]. cbn. by rewrite (Hg v e eq_refl).
Qed.

Class Kind (C A : Type) := {
  kind_map : Database → DashMap C;
  kind_with : DashMap C → Database → Database;
  kind_view : C → A;
  kind_value : A → value;
  kind_of : value → option A;
  kind_wf : C → Prop;
  kind_type : KeyType;
  kind_new : C;
  kind_inv a v : kind_of v = Some a ↔ v = kind_value a;
  kind_type_of v : type_of v = kind_type ↔ is_Some (kind_of v);
  kind_new_wf : kind_wf kind_new;
  kind_sound db k c : sound db → DGet k (kind_map db) = Some c → kind_wf c;
  kind_sound_with x db : sound db → (∀ k c, DGet k x = Some c → kind_wf c) → sound (kind_with x db);
  kind_metadata x db : metadata_manager_ (kind_with x db) = metadata_manager_ db;
  kind_look db m k : models db m → kind_view <$> DGet k (kind_map db) = y ← m !! k; kind_of y.1;
  kind_look_same x db k : kind_view <$> DGet k x = kind_view <$> DGet k (kind_map db) → look (kind_with x db) k = look db k;
  kind_look_at x db k a e a' :
    look db k = shape_of (Some (kind_value a, e)) → kind_view <$> DGet k x = Some a' →
    look (kind_with x db) k = shape_of (Some (kind_value a', e));
  kind_look_new x db k a : look db k = shape_of None → kind_view <$> DGet k x = Some a →
    sh_meta (shape_of (Some (kind_value a, None))) = Some (kind_type, None) ∧
    ∀ mv, MkShape (sh_string (look (kind_with x db) k)) (sh_hash (look (kind_with x db) k)) (sh_set (look (kind_with x db) k))
      (sh_list (look (kind_with x db) k)) (sh_zset (look (kind_with x db) k)) mv =
    MkShape (sh_string (shape_of (Some (kind_value a, None)))) (sh_hash (shape_of (Some (kind_value a, None))))
      (sh_set (shape_of (Some (kind_value a, None)))) (sh_list (shape_of (Some (kind_value a, None))))
      (sh_zset (shape_of (Some (kind_value a, None)))) mv
}.

Section Kinds.
Context {C A : Type} {K : Kind C A}.
Implicit Types (c : C) (a : A).

(** The value of a key, that of a new container when it is not there or of another
    type. *)
Definition kind_at key m : A := default (kind_view kind_new) (y ← m !! key; kind_of y.1).

Definition kind_put key c db : Database := kind_with (put_back key c (kind_map db)) db.
Definition kind_or_new key db : Database * C :=
  match DGet key (kind_map db) with
  | Some c => (db, c)
  | None => (register key kind_type (kind_with (DInsert key kind_new (kind_map db)).1 db), kind_new)
  end.
Definition kind_on {R} now key (d : R) (f : C → C * R) db : Database * R :=
  let '(db, ok) := valid now key db in
  if negb ok then (db, d)
  else match DGet key (kind_map db) with
       | None => (db, d)
       | Some c => let '(c, r) := f c in (kind_put key c db, r)
       end.

Lemma kind_put_models key c db m a e :
  models db m → m !! key = Some (kind_value a, e) → kind_wf c → models (kind_put key c db) (<[key := (kind_value (kind_view c), e)]> m).
Proof.
  intros H Em Hc. assert (El := mod_look _ _ H key). rewrite Em in El.
  assert (Hx : is_Some (DGet key (kind_map db))).
  { assert (E := kind_look db m key H). rewrite Em in E. cbn in E. rewrite (proj2 (kind_inv a _) eq_refl) in E.
    apply fmap_Some in E as (c' & -> & _). by eexists. }
  apply (models_at db _ m key (Some (kind_value (kind_view c), e))); [done| | | |apply (mod_later _ _ H key _ Em)].
  - apply kind_sound_with; [apply H|]. intros k c'. rewrite put_back_get by done.
    case_decide; [by intros [= <-]|]. apply kind_sound, H.
  - intros k Hne. apply kind_look_same. by rewrite put_back_get, decide_False.
  - eapply kind_look_at; [done|]. by rewrite put_back_get, decide_True.
Qed.

Lemma kind_or_new_models key db m :
  models db m → has_type kind_type key m →
  ∃ db' c, kind_or_new key db = (db', c) ∧ kind_view c = kind_at key m ∧ kind_wf c ∧ models db' (put key (kind_value (kind_at key m)) m).
Proof.
  intros H Ht. assert (E := kind_look db m key H). assert (El := mod_look _ _ H key).
  unfold kind_or_new, kind_at, put, deadline_of, has_type in *. destruct (m !! key) as [[v e]|] eqn:Em; cbn in E.
  - apply kind_type_of in Ht as [a Ht]. rewrite Ht in E. cbn. rewrite Ht. apply kind_inv in Ht as ->. apply fmap_Some in E as (c & E & Ec). rewrite E.
    exists db, c. split; [done|]. split; [done|]. split; [eapply kind_sound; [apply H|done]|]. by rewrite insert_id.
  - apply fmap_None in E. rewrite E. eexists _, _. split; [reflexivity|]. split; [done|]. split; [apply kind_new_wf|]. cbn.
    apply (models_at db _ m key (Some (kind_value (kind_view kind_new), None))); [done| | | |done].
    + unfold register. apply sound_with, kind_sound_with; [apply H|]. intros k c. rewrite dash_insert_get.
      case_decide; [intros [= <-]; apply kind_new_wf|apply kind_sound, H].
    + intros k Hne. unfold register. rewrite look_with, register_view, kind_metadata, decide_False by done.
      rewrite kind_look_same; [done|]. by rewrite dash_insert_get, decide_False.
    + unfold register. rewrite look_with, register_view, decide_True by done.
      destruct (kind_look_new (DInsert key kind_new (kind_map db)).1 db key (kind_view kind_new)) as [Hm Hl]; [done|by rewrite dash_insert_get, decide_True|].
      rewrite Hl, <- Hm. clear. by destruct (shape_of (Some (kind_value (kind_view kind_new), None))).
Qed.

Lemma put_put key v v' m : put key v' (put key v m) = put key v' m.
Proof. unfold put at 1. unfold deadline_of at 1, put at 1. rewrite lookup_insert_eq. unfold put. by rewrite insert_insert_eq. Qed.

Lemma put_at key v m : put key v m !! key = Some (v, deadline_of key m).
Proof. apply lookup_insert_eq. Qed.

(** A write to the container. *)
Lemma kind_write key c db m a :
  models db (put key (kind_value a) m) → kind_wf c → models (kind_put key c db) (put key (kind_value (kind_view c)) m).
Proof.
  intros H Hc. assert (H1 := kind_put_models key c db _ a (deadline_of key m) H (put_at _ _ _) Hc).
  unfold put in *. by rewrite insert_insert_eq in H1.
Qed.

(** A change of a container that is there. *)
Definition on_kind (g : A → A) (v : value) : value := match kind_of v with Some a => kind_value (g a) | None => v end.

Definition kind_none key m : Prop := (y ← m !! key; kind_of y.1) = None.

Lemma kind_none_at key m : kind_none key m → kind_at key m = kind_view kind_new.
Proof. unfold kind_none, kind_at. by intros ->. Qed.
Lemma kind_none_change key m g : kind_none key m → change key (on_kind g) m = m.
Proof.
  intros Hm. apply change_id. intros v e Em. unfold kind_none in Hm. rewrite Em in Hm. cbn in Hm. unfold on_kind. by rewrite Hm.
Qed.

Lemma may_kind_on {R} now key (d : R) (f : C → C * R) m (Q : R → store → Prop) :
  (now ≤ horizon)%Z →
  (∀ c, kind_wf c → kind_view c = kind_at key m → ¬ kind_none key m → kind_wf (f c).1 ∧ Q (f c).2 (change key (on_kind (λ _, kind_view (f c).1)) m)) →
  (kind_none key m → Q d m) → may (kind_on now key d f) m Q.
Proof.
  intros Hn Hf Hd db H. unfold kind_on. rewrite (valid_models now key db m Hn H). assert (E := kind_look db m key H). unfold kind_at, kind_none in *.
  destruct (m !! key) as [[v e]|] eqn:Em; cbn in E.
  - rewrite bool_decide_eq_true_2 by (by eexists). cbn [negb]. cbn in *. destruct (kind_of v) as [a|] eqn:Ev; cbn in *.
    + apply fmap_Some in E as (c & E & Ec). rewrite E. destruct (Hf c) as (H1 & H2); [eapply kind_sound; [apply H|done]|done|done|].
      exists (change key (on_kind (λ _, kind_view (f c).1)) m). split; [|by destruct (f c)]. rewrite (change_some _ _ _ _ _ Em). unfold on_kind. rewrite Ev. apply kind_inv in Ev as ->.
      assert (Hp := kind_put_models key _ db m a e H Em H1). by destruct (f c).
    + apply fmap_None in E. rewrite E. exists m. split; [done|by apply Hd].
  - rewrite bool_decide_eq_false_2 by (by intros [? ?]). exists m. split; [done|]. by apply Hd.
Qed.

Lemma change_kind key g m a : g (kind_at key m) = a → change key (on_kind (λ _, a)) m = change key (on_kind g) m.
Proof.
  intros <-. destruct (m !! key) as [[v e]|] eqn:Em.
  - rewrite !(change_some _ _ _ _ _ Em). unfold on_kind, kind_at. rewrite Em. cbn. by destruct (kind_of v).
  - by rewrite !change_id by (intros v e Hx; by rewrite Em in Hx).
Qed.

Lemma does_kind_on {R} now key (d : R) (f : C → C * R) g m x :
  (now ≤ horizon)%Z →
  (∀ c, kind_wf c → kind_view c = kind_at key m → kind_wf (f c).1 ∧ kind_view (f c).1 = g (kind_view c) ∧ (f c).2 = x) →
  (kind_at key m = kind_view kind_new → d = x) → does (kind_on now key d f) m x (change key (on_kind g) m).
Proof.
  intros Hn Hf Hd. apply may_does, may_kind_on; [done| |].
  - intros c H1 H2 _. destruct (Hf c H1 H2) as (H3 & H4 & H5). split; [done|]. split; [done|]. apply change_kind. by rewrite H4, H2.
  - intros Hm. split; [by apply Hd, kind_none_at|]. by rewrite kind_none_change.
Qed.

Lemma does_kind_read {R} now key (d : R) (g : C → R) m x :
  (now ≤ horizon)%Z →
  (∀ c, kind_wf c → kind_view c = kind_at key m → g c = x) → (kind_at key m = kind_view kind_new → d = x) →
  does (kind_on now key d (λ c, (c, g c))) m x m.
Proof.
  intros Hn Hg Hd. assert (E : change key (on_kind (λ a, a)) m = m).
  { apply change_id. intros v e Em. unfold on_kind. destruct (kind_of v) as [a|] eqn:Ev; [|done]. by apply kind_inv in Ev as ->. }
  rewrite <- E at 2. apply does_kind_on; [done| |done]. intros c H1 H2. split; [done|]. split; [done|]. by apply Hg.
Qed.
End Kinds.

(** ** Hashes *)

#[export] Instance hash_kind : Kind HashType (gmap bytes bytes).
Proof.
  refine {| kind_map := hashes_; kind_with := with_hashes; kind_view := map_; kind_value := VHash;
            kind_of v := match v with VHash h => Some h | _ => None end; kind_wf := dash_ok; kind_type := kHash; kind_new := dash_empty |}.
  - intros a v. destruct v; naive_solver.
  - intros v. destruct v; (split; [done || (by eexists)|by intros [? ?]]).
  - apply dash_empty_ok.
  - intros db k c Hs. by apply sound_hashes.
  - intros x db [] Hx. by destruct db.
  - intros x db. by destruct db.
  - intros db m k H. rewrite (look_hash db m k H). by destruct (m !! k) as [[[]]|].
  - intros x db k E. destruct db. unfold look. cbn in *. by rewrite E.
  - intros x db k a e a' El E. destruct db. unfold look in *. cbn in *. injection El as -> _ -> -> -> ->. by rewrite E.
  - intros x db k a El E. split; [done|]. intros mv. destruct db. unfold look in *. cbn in *. injection El as -> _ -> -> -> _. by rewrite E.
Defined.

Lemma hash_at_kind key m : hash_at key m = kind_at key m.
Proof. unfold hash_at, kind_at. by destruct (m !! key) as [[[]]|]. Qed.

Definition on_fields (g : gmap bytes bytes → gmap bytes bytes) : value → value := on_kind g.

Lemma does_hset now key f x m :
  has_type kHash key m →
  does (DbHSet now key f x) m (bool_decide (hash_at key m !! f = None)) (put key (VHash (<[f := x]> (hash_at key m))) m).
Proof.
  intros Ht db H. unfold DbHSet. cbv zeta. set (old := (h ← GetHash key db; DGet f h)). change (hash_or_new key db) with (kind_or_new key db).
  rewrite hash_at_kind. destruct (kind_or_new_models (K := hash_kind) key db m H Ht) as (db1 & d & -> & Ed & Hd & H1).
  assert (H2 := models_track_memory _ _ _ (harmless_hash key (bool_decide (is_Some old)) (default [] old) x) H1).
  rewrite (models_check now _ _ H2). destruct (DInsert f x d) as [d' r] eqn:Ei.
  assert (Hd' : dash_ok d') by (assert (Hx := DInsert_dash f x d Hd); by rewrite Ei in Hx).
  assert (H3 := kind_write key d' _ m _ H2 Hd'). unfold DInsert in Ei. injection Ei as <- <-. cbn in Ed. cbn [kind_view hash_kind map_] in H3.
  rewrite Ed in *. change (kind_put key ?a ?b) with (put_hash key a b) in H3. split; [|done].
  destruct (bool_decide (kind_at key m !! f = None)); [by rewrite (models_persist _ _ _ _ H3)|done].
Qed.

Lemma does_hash_read {R} now key (d : R) g m x :
  (now ≤ horizon)%Z → (∀ h, dash_ok h → map_ h = hash_at key m → g h = x) → (hash_at key m = ∅ → d = x) →
  does (on_hash now key d (λ h, (h, g h))) m x m.
Proof. rewrite hash_at_kind. exact (does_kind_read (K := hash_kind) now key d g m x). Qed.

Lemma does_hget now key f m : (now ≤ horizon)%Z → does (DbHGet now key f) m (hash_at key m !! f) m.
Proof. intros Hn. apply does_hash_read; [done|by intros c _ <-|by intros ->]. Qed.
Lemma does_hexists now key f m : (now ≤ horizon)%Z → does (DbHExists now key f) m (bool_decide (is_Some (hash_at key m !! f))) m.
Proof. intros Hn. apply does_hash_read; [done|by intros c _ <-|by intros ->]. Qed.
Lemma does_hmget now key fs m : (now ≤ horizon)%Z → does (DbHMGet now key fs) m ((λ f, hash_at key m !! f) <$> fs) m.
Proof.
  intros Hn. apply does_hash_read; [done|by intros c _ <-|]. intros ->. induction fs as [|f fs IH]; [done|]. cbn. by rewrite IH.
Qed.
Lemma does_hlen now key m : (now ≤ horizon)%Z → does (DbHLen now key) m (u64 (Z.of_nat (size (hash_at key m)))) m.
Proof. intros Hn. apply does_hash_read; [done| |by intros ->]. intros c Hc <-. apply Hc. Qed.

(** Nothing is loaded without RocksDB. *)
Lemma plain_load {A} now key db m (b : bool) (f : Database → A) : models db m → f (if b then (LoadFromRocksDB now key db).1 else db) = f db.
Proof. intros H. unfold LoadFromRocksDB. assert (Hr : rocksdb_adapter_ db = None) by apply H. rewrite Hr. by destruct b. Qed.

Lemma does_hgetall now key m : (now ≤ horizon)%Z → does (DbHGetAll now key) m (map_to_list (hash_at key m)) m.
Proof.
  intros Hn db H. unfold DbHGetAll. rewrite (plain_load now key db m _ _ H).
  revert db H. apply does_hash_read; [done|by intros c _ <-|by intros ->].
Qed.

Lemma does_hash_change {R} now key (d : R) f g m x :
  (now ≤ horizon)%Z →
  (∀ h, dash_ok h → map_ h = hash_at key m → dash_ok (f h).1 ∧ map_ (f h).1 = g (map_ h) ∧ (f h).2 = x) →
  (hash_at key m = ∅ → d = x) →
  does (on_hash now key d f) m x (change key (on_fields g) m).
Proof.
  rewrite hash_at_kind. intros Hn Hf Hd. exact (does_kind_on (K := hash_kind) now key d f g m x Hn Hf Hd).
Qed.

(** Fields that go, and how many there were. *)
Definition drop_fields (fs : list bytes) (h : gmap bytes bytes) : gmap bytes bytes := foldl (λ h f, delete f h) h fs.

Lemma drop_fields_dash fs : ∀ (t : HashType) n,
  dash_ok t → let r := foldl (λ acc field, let '(h, removed) := DRemove field acc.1 in (h, if removed then (acc.2 + 1)%Z else acc.2)) (t, n) fs in
  dash_ok r.1 ∧ map_ r.1 = drop_fields fs (map_ t) ∧ r.2 = (n + (Z.of_nat (size (map_ t)) - Z.of_nat (size (drop_fields fs (map_ t)))))%Z.
Proof.
  induction fs as [|f fs IH]; intros t n Ht; [cbn; split; [done|]; split; [done|lia]|]. cbn [foldl fst snd].
  destruct (DRemove_ok f t Ht) as [H1 H2]. assert (Hm := DRemove_map f t). destruct (DRemove f t) as [t' r]. cbn [fst snd] in *. subst r.
  specialize (IH t' (if DContains f t then n + 1 else n)%Z H1). cbv zeta in IH. destruct IH as (I1 & I2 & I3).
  split; [done|]. rewrite I2, I3, Hm. split; [done|]. cbn [drop_fields foldl]. fold (drop_fields fs (delete f (map_ t))).
  rewrite dash_contains. unfold DGet. destruct (map_ t !! f) as [x|] eqn:E; cbn.
  - assert (Hs : size (map_ t) = S (size (delete f (map_ t)))).
    { rewrite <- (insert_delete_id _ _ _ E) at 1. rewrite map_size_insert_None; [done|apply lookup_delete_eq]. }
    rewrite Hs. lia.
  - by rewrite delete_id.
Qed.

Lemma does_hdel now key fs m :
  (now ≤ horizon)%Z →
  does (DbHDelMany now key fs) m (Z.of_nat (size (hash_at key m)) - Z.of_nat (size (drop_fields fs (hash_at key m))))%Z
    (change key (on_fields (drop_fields fs)) m).
Proof.
  intros Hn. apply does_hash_change; [done| |].
  - intros t Ht Et. destruct (drop_fields_dash fs t 0 Ht) as (H1 & H2 & H3). split; [done|]. split; [done|]. rewrite H3, Et. lia.
  - intros ->. assert (drop_fields fs ∅ = ∅) as ->; [|done]. induction fs as [|f fs IH]; [done|]. cbn. by rewrite delete_empty.
Qed.

Lemma does_hincrby key f n m :
  has_type kHash key m →
  let h := hash_at key m in
  match match h !! f with Some x => SimpleAtoi x | None => Some 0%Z end with
  | None => does (DbHIncrBy key f n) m 0%Z (put key (VHash h) m)
  | Some k => does (DbHIncrBy key f n) m (i64 (k + n)) (put key (VHash (<[f := print_int (i64 (k + n))]> h)) m)
  end.
Proof.
  intros Ht h. unfold does, DbHIncrBy.
  assert (Hgo : ∀ db, models db m → ∃ db' d, hash_or_new key db = (db', d) ∧ map_ d = h ∧ dash_ok d ∧ models db' (put key (VHash h) m))
    by (intros db H; unfold h; rewrite hash_at_kind; exact (kind_or_new_models (K := hash_kind) key db m H Ht)).
  destruct (match h !! f with Some x => SimpleAtoi x | None => Some 0%Z end) as [k|] eqn:E; intros db H;
    destruct (Hgo db H) as (db' & d & -> & Ed & Hd & H1); unfold DGet; rewrite Ed, E; [|done].
  cbn [fst snd]. split; [|done]. destruct (dash_insert_models d f (print_int (i64 (k + n))) Hd) as (Hd' & Em & _).
  assert (H2 := kind_write key _ _ m _ H1 Hd'). cbn [kind_view kind_value hash_kind] in H2. by rewrite Em, Ed in H2.
Qed.

Lemma does_hincrbyfloat key f x m :
  has_type kHash key m →
  let h := hash_at key m in
  match match h !! f with Some s => atod s | None => Some d0_0 end with
  | None => does (DbHIncrByFloat key f x) m d0_0 (put key (VHash h) m)
  | Some y => does (DbHIncrByFloat key f x) m (double_add y x) (put key (VHash (<[f := trim_fixed (print_fixed 17 (double_add y x))]> h)) m)
  end.
Proof.
  intros Ht h. unfold does, DbHIncrByFloat.
  assert (Hgo : ∀ db, models db m → ∃ db' d, hash_or_new key db = (db', d) ∧ map_ d = h ∧ dash_ok d ∧ models db' (put key (VHash h) m))
    by (intros db H; unfold h; rewrite hash_at_kind; exact (kind_or_new_models (K := hash_kind) key db m H Ht)).
  destruct (match h !! f with Some s => atod s | None => Some d0_0 end) as [y|] eqn:E; intros db H;
    destruct (Hgo db H) as (db' & d & -> & Ed & Hd & H1); unfold DGet; rewrite Ed, E; [|done].
  cbn [fst snd]. split; [|done]. destruct (dash_insert_models d f (trim_fixed (print_fixed 17 (double_add y x))) Hd) as (Hd' & Em & _).
  assert (H2 := kind_write key _ _ m _ H1 Hd'). cbn [kind_view kind_value hash_kind] in H2. by rewrite Em, Ed in H2.
Qed.

Lemma does_hsetnx key f x m :
  has_type kHash key m →
  does (DbHSetNx key f x) m (bool_decide (hash_at key m !! f = None))
    (if decide (hash_at key m !! f = None) then put key (VHash (<[f := x]> (hash_at key m))) m else m).
Proof.
  intros Ht db H. unfold DbHSetNx. destruct (kind_or_new_models (K := hash_kind) key db m H Ht) as (db1 & d & En & Ed & Hd & H1). rewrite <- hash_at_kind in *. cbn in Ed, H1.
  change (hash_or_new key db = (db1, d)) in En. assert (Ee := look_hash db m key H). unfold GetHash. destruct (DGet key (hashes_ db)) as [t|] eqn:E.
  - unfold hash_or_new, GetHash in En. rewrite E in En. injection En as <- <-. rewrite dash_contains. unfold DGet. rewrite Ed.
    destruct (hash_at key m !! f) as [y|] eqn:Ef; cbn [bool_decide].
    + rewrite bool_decide_eq_true_2 by (by eexists). by rewrite decide_False, bool_decide_eq_false_2.
    + rewrite bool_decide_eq_false_2 by (by intros [? ?]). rewrite decide_True, bool_decide_eq_true_2 by done. split; [|done].
      destruct (dash_insert_models t f x Hd) as (Hd' & Em & _). assert (H2 := kind_write key _ _ m _ H1 Hd'). cbn [kind_view kind_value hash_kind] in H2. by rewrite Em, Ed in H2.
  - cbn in Ee. rewrite En. cbn [fst snd]. assert (Hh : hash_at key m = ∅).
    { unfold hash_at. by destruct (m !! key) as [[[s|h|s|l|z] e]|]. }
    destruct (dash_insert_models d f x Hd) as (Hd' & Em & _). assert (H2 := kind_write (K := hash_kind) key _ _ m _ H1 Hd').
    cbn [kind_view kind_value hash_kind] in H2.
    rewrite Em, Ed, Hh in H2. rewrite Hh. rewrite decide_True, bool_decide_eq_true_2 by done. done.
Qed.
End TypedStore.
