(* ===== verification/TypedContainers.v ===== *)
(** * The sets, lists and expiry times of the typed store

    The operations of [DatabaseTypes] on sets, alone and several at a time, and on
    lists, and those of the database on expiry times, for the databases of
    [TypedStore]. *)
From S2P Require Import Prelude.
From S2P Require Import Simd.
From S2P Require Import Numbers.
From S2P Require Import RespTypes.
From S2P Require Import KeyMetadata.
From S2P Require Import LinkedList.
From S2P Require Import Text.
From S2P Require Import Streams.
From S2P Require Import Eviction.
From S2P Require Import Rocks.
From S2P Require Import Database.
From S2P Require Import DatabaseTypes.
From S2P Require Import DatabaseStrings.
From S2P Require Import StringLog.
From S2P Require Import TypedStore.

#[local] Arguments DInsert : simpl never.
#[local] Arguments DRemove : simpl never.
#[local] Arguments DGet : simpl never.

Section TypedSets.
Context {P : Platform} {HZ : Horizon}.
Implicit Types (db : Database) (m : store) (key k : bytes) (now : Z) (v : value) (e : option Z).

(** ** Sets *)

#[export] Instance set_kind : Kind SetType (gset bytes).
Proof.
  refine {| kind_map := sets_; kind_with := with_sets; kind_view := set_view; kind_value := VSet;
            kind_of v := match v with VSet s => Some s | _ => None end; kind_wf := dash_ok; kind_type := kSet; kind_new := dash_empty |}.
  - intros a v. destruct v; naive_solver.
  - intros v. destruct v; (split; [done || (by eexists)|by intros [? ?]]).
  - apply dash_empty_ok.
  - intros db k c Hs. by apply sound_sets.
  - intros x db [] Hx. by destruct db.
  - intros x db. by destruct db.
  - intros db m k H. rewrite (look_set db m k H). by destruct (m !! k) as [[[]]|].
  - intros x db k E. destruct db. unfold look. cbn in *. by rewrite E.
  - intros x db k a e a' El E. destruct db. unfold look in *. cbn in *. injection El as -> -> _ -> -> ->. by rewrite E.
  - intros x db k a El E. split; [done|]. intros mv. destruct db. unfold look in *. cbn in *. injection El as -> -> _ -> -> _. by rewrite E.
Defined.

Lemma set_at_kind key m : set_at key m = kind_at key m.
Proof. unfold set_at, kind_at. destruct (m !! key) as [[[]]|]; cbn; unfold set_view; by rewrite ?dom_empty_L. Qed.

Definition on_members (g : gset bytes → gset bytes) : value → value := on_kind g.

Lemma set_view_empty : set_view dash_empty = ∅.
Proof. apply dom_empty_L. Qed.
Lemma set_view_elem (d : SetType) x : x ∈ set_view d ↔ is_Some (DGet x d).
Proof. apply elem_of_dom. Qed.
Lemma set_view_contains (d : SetType) x : DContains x d = bool_decide (x ∈ set_view d).
Proof. rewrite dash_contains. apply bool_decide_ext. by rewrite set_view_elem. Qed.
Lemma set_view_keys (d : SetType) : DGetAllKeys d ≡ₚ elements (set_view d).
Proof.
  apply NoDup_Permutation; [apply NoDup_fst_map_to_list|apply NoDup_elements|]. intros x. rewrite elem_of_elements, set_view_elem.
  unfold DGetAllKeys. rewrite list_elem_of_fmap. split.
  - intros ([? y] & -> & Hx%elem_of_map_to_list). by exists y.
  - intros [y Hy]. exists (x, y). split; [done|]. by apply elem_of_map_to_list.
Qed.
Lemma set_view_insert (d : SetType) x : set_view (DInsert x tt d).1 = {[x]} ∪ set_view d.
Proof. unfold set_view. rewrite DInsert_map. by rewrite dom_insert_L. Qed.
Lemma set_view_remove (d : SetType) x : set_view (DRemove x d).1 = set_view d ∖ {[x]}.
Proof. unfold set_view. rewrite DRemove_map. by rewrite dom_delete_L. Qed.
Lemma set_view_size (d : SetType) : dash_ok d → DSize d = u64 (Z.of_nat (size (set_view d))).
Proof. intros Hd. unfold set_view. rewrite size_dom. apply Hd. Qed.

Lemma does_sadd now key x m :
  has_type kSet key m →
  does (DbSAdd now key x) m (bool_decide (x ∉ set_at key m)) (put key (VSet ({[x]} ∪ set_at key m)) m).
Proof.
  intros Ht db H. unfold DbSAdd. cbv zeta. set (old := match GetSet key db with Some s => _ | None => false end).
  change (set_or_new key db) with (kind_or_new (K := set_kind) key db).
  rewrite set_at_kind. destruct (kind_or_new_models (K := set_kind) key db m H Ht) as (db1 & d & -> & Ed & Hd & H1).
  assert (H2 := models_track_memory _ _ _ (harmless_element _ key old x : TypedStore.harmless (UpdateSetMember key old x)) H1).
  rewrite (models_check now _ _ H2). destruct (dash_insert_models d x tt Hd) as (Hd' & Em & Er).
  assert (H3 := kind_write (K := set_kind) key _ _ m _ H2 Hd'). assert (Ev := set_view_insert d x).
  destruct (DInsert x tt d) as [d' r]. cbn [fst snd kind_view kind_value set_kind] in *. rewrite Ev, Ed in H3. subst r.
  change (kind_put key ?a ?b) with (put_set key a b) in H3. split.
  - destruct (bool_decide _); [by rewrite (models_persist _ _ _ _ H3)|done].
  - apply bool_decide_ext. rewrite <- Ed, set_view_elem. unfold DGet. by rewrite eq_None_not_Some.
Qed.

Lemma does_set_read {R} now key (d : R) g m x :
  (now ≤ horizon)%Z → (∀ s, dash_ok s → set_view s = set_at key m → g s = x) → (set_at key m = ∅ → d = x) →
  does (on_set now key d (λ s, (s, g s))) m x m.
Proof.
  rewrite set_at_kind. intros Hn Hg Hd. apply (does_kind_read (K := set_kind) now key d g m x Hn Hg). intros Hx. apply Hd. rewrite Hx.
  apply dom_empty_L.
Qed.

Lemma does_set_change {R} now key (d : R) f g m x :
  (now ≤ horizon)%Z →
  (∀ s, dash_ok s → set_view s = set_at key m → dash_ok (f s).1 ∧ set_view (f s).1 = g (set_view s) ∧ (f s).2 = x) →
  (set_at key m = ∅ → d = x) →
  does (on_set now key d f) m x (change key (on_members g) m).
Proof.
  rewrite set_at_kind. intros Hn Hf Hd. apply (does_kind_on (K := set_kind) now key d f g m x Hn Hf). intros Hx. apply Hd. rewrite Hx.
  apply dom_empty_L.
Qed.

Lemma does_srem now key x m :
  (now ≤ horizon)%Z →
  does (DbSRem now key x) m (bool_decide (x ∈ set_at key m)) (change key (on_members (λ s, s ∖ {[x]})) m).
Proof.
  intros Hn. apply does_set_change; [done| |].
  - intros s Hs <-. split; [by apply DRemove_dash|]. split; [apply set_view_remove|]. rewrite <- set_view_contains. by apply DRemove_ok.
  - intros ->. by rewrite bool_decide_eq_false_2 by set_solver.
Qed.
Lemma does_sismember now key x m : (now ≤ horizon)%Z → does (DbSIsMember now key x) m (bool_decide (x ∈ set_at key m)) m.
Proof.
  intros Hn. apply does_set_read; [done| |].
  - intros s _ <-. apply set_view_contains.
  - intros ->. by rewrite bool_decide_eq_false_2 by set_solver.
Qed.
Lemma does_scard now key m : (now ≤ horizon)%Z → does (DbSCard now key) m (u64 (Z.of_nat (size (set_at key m)))) m.
Proof.
  intros Hn. apply does_set_read; [done| |].
  - intros s Hs <-. by apply set_view_size.
  - intros ->. by rewrite size_empty.
Qed.

Lemma may_set_on {R} now key (d : R) (f : SetType → SetType * R) m (Q : R → store → Prop) :
  (now ≤ horizon)%Z →
  (∀ s, dash_ok s → set_view s = set_at key m → dash_ok (f s).1 ∧ Q (f s).2 (change key (on_members (λ _, set_view (f s).1)) m)) →
  (set_at key m = ∅ → Q d m) → may (on_set now key d f) m Q.
Proof.
  rewrite set_at_kind. intros Hn Hf Hd. refine (may_kind_on (K := set_kind) now key d f m Q Hn (λ c H1 H2 _, Hf c H1 H2) _).
  intros Hx. apply Hd. rewrite (kind_none_at key m Hx). apply dom_empty_L.
Qed.

Lemma change_members key g m s : g (set_at key m) = s → change key (on_members (λ _, s)) m = change key (on_members g) m.
Proof. rewrite set_at_kind. apply (change_kind (K := set_kind)). Qed.
Lemma same_members key m : change key (on_members (λ s, s)) m = m.
Proof. apply change_id. by intros []. Qed.

Lemma may_smembers now key m :
  (now ≤ horizon)%Z → may (DbSMembers now key) m (λ l m', m' = m ∧ l ≡ₚ elements (set_at key m)).
Proof.
  intros Hn db H. unfold DbSMembers. rewrite (plain_load now key db m _ _ H).
  refine (may_set_on now key [] (λ s, (s, DGetAllKeys s)) m (λ l m', m' = m ∧ l ≡ₚ elements (set_at key m)) Hn _ _ db H).
  - intros s Hs Es. split; [done|]. cbn [fst snd]. split; [|by rewrite set_view_keys, <- Es].
    rewrite (change_members key (λ a, a)) by done. apply same_members.
  - intros ->. by rewrite elements_empty.
Qed.

(** What the set of a key is. *)
Lemma get_set_models key db m :
  models db m → match GetSet key db with Some s => dash_ok s ∧ set_view s = set_at key m | None => set_at key m = ∅ end.
Proof.
  intros H. assert (E := look_set db m key H). unfold GetSet, set_at. destruct (DGet key (sets_ db)) as [s|] eqn:Es; cbn in E.
  - split; [eapply sound_sets; [apply H|done]|]. by destruct (m !! key) as [[[]]|]; cbn in E; simplify_eq.
  - by destruct (m !! key) as [[[]]|].
Qed.

Lemma valid_set_none key m : m !! key = None → set_at key m = ∅.
Proof. unfold set_at. by intros ->. Qed.

(** A member at random. *)
Lemma pick_member_ok {RO : RandomOk} (s : SetType) r :
  dash_ok s → match (pick_member s r).1 with Some x => x ∈ set_view s | None => u64 (Z.of_nat (size (set_view s))) = 0%Z end.
Proof.
  intros Hs. unfold pick_member. change (DEmpty s) with (DSize s =? 0)%Z. rewrite (set_view_size s Hs). destruct (_ =? 0)%Z eqn:E0; b2p; [done|].
  assert (Hk := set_view_keys s). destruct (DGetAllKeys s) as [|x l] eqn:El; cbn [fst].
  - apply Permutation_nil, elements_empty_inv in Hk. by rewrite (leibniz_equiv _ _ Hk), size_empty.
  - assert (Hu := uniform_range (zlen (x :: l)) r). destruct (uniform _ r) as [i r']. cbn [fst] in *. unfold zlen in Hu.
    destruct (lookup_lt_is_Some_2 (x :: l) (Z.to_nat i)) as [y Hy]; [cbn [length] in *; lia|]. rewrite Hy.
    apply elem_of_elements. rewrite <- Hk. by eapply list_elem_of_lookup_2.
Qed.

Lemma may_spop {RO : RandomOk} now key r m :
  (now ≤ horizon)%Z →
  may (DbSPop now key r) m (λ y m', match y.1 with
    | Some x => x ∈ set_at key m ∧ m' = change key (on_members (λ s, s ∖ {[x]})) m
    | None => u64 (Z.of_nat (size (set_at key m))) = 0%Z ∧ m' = m
    end).
Proof.
  intros Hn. apply may_set_on; [done| |].
  - intros s Hs Es. assert (Hp := pick_member_ok s r Hs). rewrite Es in Hp. destruct (pick_member s r) as [[x|] r']; cbn [fst snd] in *.
    + split; [by apply DRemove_dash|]. split; [done|]. apply change_members. by rewrite set_view_remove, Es.
    + split; [done|]. split; [done|]. rewrite (change_members key (λ a, a)) by done. apply same_members.
  - intros ->. cbn. by rewrite size_empty.
Qed.

Lemma may_srandmember {RO : RandomOk} now key r m :
  (now ≤ horizon)%Z →
  may (DbSRandMember now key r) m (λ y m', m' = m ∧ match y.1 with
    | Some x => x ∈ set_at key m
    | None => u64 (Z.of_nat (size (set_at key m))) = 0%Z
    end).
Proof.
  intros Hn. apply may_set_on; [done| |].
  - intros s Hs Es. assert (Hp := pick_member_ok s r Hs). rewrite Es in Hp. split; [done|]. cbn [fst snd].
    rewrite (change_members key (λ a, a)), same_members by done. by destruct (pick_member s r) as [[x|] r'].
  - intros ->. cbn. by rewrite size_empty.
Qed.

Lemma does_smove now source destination x m :
  (now ≤ horizon)%Z → has_type kSet destination m →
  does (DbSMove now source destination x) m (bool_decide (x ∈ set_at source m))
    (if decide (x ∈ set_at source m) then
       let m := change source (on_members (λ s, s ∖ {[x]})) m in put destination (VSet ({[x]} ∪ set_at destination m)) m
     else m).
Proof.
  intros Hn Ht db H. unfold DbSMove. rewrite (valid_models now source db m Hn H). assert (Hg := get_set_models source db m H).
  destruct (m !! source) as [[v e]|] eqn:Em; cbn [bool_decide].
  2: { rewrite (valid_set_none source m Em). rewrite bool_decide_eq_false_2 by (by intros [? ?]). cbn. split; [done|].
       by rewrite bool_decide_eq_false_2 by set_solver. }
  rewrite bool_decide_eq_true_2 by (by eexists). cbn [negb]. destruct (GetSet source db) as [s|] eqn:Es.
  2: { rewrite Hg. cbn. split; [done|]. by rewrite bool_decide_eq_false_2 by set_solver. }
  destruct Hg as [Hs Ev]. rewrite set_view_contains, Ev. case_decide as Hx; [|by rewrite bool_decide_eq_false_2].
  rewrite bool_decide_eq_true_2 by done. cbn [negb].
  destruct v as [?|?|t|?|?]; try (exfalso; unfold set_at in Hx; rewrite Em in Hx; cbn in Hx; set_solver).
  assert (H1 := kind_put_models (K := set_kind) source (DRemove x s).1 db m t e H Em (DRemove_dash _ _ Hs)).
  cbn [kind_view kind_value set_kind] in H1. rewrite set_view_remove, Ev in H1. unfold set_at at 1 in H1. rewrite Em in H1.
  set (m1 := change source _ m). assert (E1 : m1 = <[source := (VSet (t ∖ {[x]}), e)]> m) by (unfold m1; by rewrite (change_some _ _ _ _ _ Em)).
  rewrite <- E1 in H1. assert (Ht1 : has_type kSet destination m1).
  { rewrite E1. unfold has_type. destruct (decide (source = destination)) as [->|]; [by rewrite lookup_insert_eq|by rewrite lookup_insert_ne]. }
  destruct (kind_or_new_models (K := set_kind) destination _ m1 H1 Ht1) as (db1 & d & En & Ed & Hd & H2).
  change (kind_or_new destination _) with (set_or_new destination (put_set source (DRemove x s).1 db)) in En. rewrite En.
  assert (H3 := kind_write (K := set_kind) destination _ _ m1 _ H2 (DInsert_dash x tt d Hd)). cbn [kind_view kind_value set_kind] in H3.
  rewrite set_view_insert in H3. cbn in Ed. rewrite Ed, <- set_at_kind in H3. by split.
Qed.

(** *** Several sets *)

Definition inter_sets (keys : list bytes) m : gset bytes :=
  match keys with [] => ∅ | key :: keys => foldl (λ s k, s ∩ set_at k m) (set_at key m) keys end.
Definition diff_sets (keys : list bytes) m : gset bytes :=
  match keys with [] => ∅ | key :: keys => foldl (λ s k, s ∖ set_at k m) (set_at key m) keys end.
Definition union_sets (keys : list bytes) m : gset bytes := foldl (λ s k, set_at k m ∪ s) ∅ keys.

(** The members of a set, once each, in any order. *)
Definition lists_members (l : list bytes) (s : gset bytes) : Prop := NoDup l ∧ ∀ x, x ∈ l ↔ x ∈ s.

Lemma lists_members_elements l s : lists_members l s ↔ l ≡ₚ elements s.
Proof.
  unfold lists_members. split.
  - intros [Hl Hx]. apply NoDup_Permutation; [done|apply NoDup_elements|]. intros x. by rewrite Hx, elem_of_elements.
  - intros E. rewrite E. split; [apply NoDup_elements|]. intros x. by rewrite E, elem_of_elements.
Qed.
Lemma lists_members_keys (d : SetType) : lists_members (DGetAllKeys d) (set_view d).
Proof. apply lists_members_elements, set_view_keys. Qed.
Lemma lists_members_filter (P' : bytes → Prop) `{!∀ x, Decision (P' x)} l s s' :
  lists_members l s → (∀ x, x ∈ s' ↔ x ∈ s ∧ P' x) → lists_members (filter P' l) s'.
Proof.
  intros [Hl Hx] Hs. split; [by apply NoDup_filter|]. intros x. rewrite list_elem_of_filter, Hs, Hx. tauto.
Qed.
Lemma lists_members_nil s : s = ∅ → lists_members [] s.
Proof. intros ->. split; [constructor|]. set_solver. Qed.
Lemma inter_from_empty keys m : foldl (λ s k, s ∩ set_at k m) ∅ keys = ∅.
Proof. induction keys as [|k keys IH]; [done|]. cbn. by rewrite intersection_empty_l_L. Qed.

Lemma inter_loop_models now keys : ∀ result s db m,
  (now ≤ horizon)%Z → models db m → lists_members result s →
  (inter_loop now keys result db).1 = db ∧ lists_members (inter_loop now keys result db).2 (foldl (λ s k, s ∩ set_at k m) s keys).
Proof.
  induction keys as [|k keys IH]; intros result s db m Hn H Hl; cbn [inter_loop foldl]; [done|].
  rewrite (valid_models now k db m Hn H). assert (Hg := get_set_models k db m H).
  assert (Hz : set_at k m = ∅ → lists_members [] (foldl (λ s k, s ∩ set_at k m) (s ∩ set_at k m) keys)).
  { intros ->. rewrite intersection_empty_r_L, inter_from_empty. by apply lists_members_nil. }
  destruct (decide (is_Some (m !! k))) as [Hk|Hk].
  - rewrite bool_decide_eq_true_2 by done. cbn [negb]. destruct (GetSet k db) as [d|]; [|by auto].
    destruct Hg as [Hd Ed]. assert (Hl' : lists_members (filter (λ x, DContains x d = true) result) (s ∩ set_at k m)).
    { apply (lists_members_filter _ _ s); [done|]. intros x. rewrite set_view_contains, Ed, bool_decide_eq_true. set_solver. }
    destruct (filter _ result) as [|y l] eqn:El; [|rewrite <- El in *; by apply IH].
    split; [done|]. assert (E : s ∩ set_at k m = ∅) by (destruct Hl' as [_ Hl']; set_solver).
    rewrite E, inter_from_empty. by apply lists_members_nil.
  - rewrite bool_decide_eq_false_2 by done. cbn [negb]. split; [done|]. apply Hz, valid_set_none. by apply eq_None_not_Some.
Qed.

Lemma may_sinter now keys m :
  (now ≤ horizon)%Z → may (DbSInterLocal now keys) m (λ l m', m' = m ∧ lists_members l (inter_sets keys m)).
Proof.
  intros Hn db H. exists m. unfold DbSInterLocal, inter_sets. destruct keys as [|key keys]; [split; [done|]; split; [done|]; by apply lists_members_nil|].
  assert (Hg := get_set_models key db m H). destruct (GetSet key db) as [d|].
  - destruct Hg as [Hd Ed]. destruct (inter_loop_models now keys (DGetAllKeys d) (set_at key m) db m Hn H) as [E1 E2]; [|by rewrite E1].
    rewrite <- Ed. apply lists_members_keys.
  - split; [done|]. split; [done|]. rewrite Hg, inter_from_empty. by apply lists_members_nil.
Qed.

Lemma may_sunion now keys m :
  (now ≤ horizon)%Z → may (DbSUnion now keys) m (λ l m', m' = m ∧ lists_members l (union_sets keys m)).
Proof.
  intros Hn db H. exists m. unfold DbSUnion, union_sets. generalize (∅ : gset bytes) as s. induction keys as [|k keys IH]; intros s; cbn [foldl].
  - split; [done|]. split; [done|]. by apply lists_members_elements.
  - cbn [fst snd]. rewrite (valid_models now k db m Hn H). assert (Hg := get_set_models k db m H).
    destruct (decide (is_Some (m !! k))) as [Hk|Hk].
    + rewrite bool_decide_eq_true_2 by done. cbn [negb]. destruct (GetSet k db) as [d|].
      * destruct Hg as [Hd Ed]. assert (E : list_to_set (DGetAllKeys d) = set_at k m).
        { rewrite <- Ed. apply set_eq. intros x. rewrite elem_of_list_to_set. apply lists_members_keys. }
        rewrite E. apply IH.
      * rewrite Hg, union_empty_l_L. apply IH.
    + rewrite bool_decide_eq_false_2 by done. cbn [negb]. rewrite (valid_set_none k m) by (by apply eq_None_not_Some).
      rewrite union_empty_l_L. apply IH.
Qed.

Lemma may_sdiff now keys m :
  (now ≤ horizon)%Z → may (DbSDiff now keys) m (λ l m', m' = m ∧ lists_members l (diff_sets keys m)).
Proof.
  intros Hn db H. exists m. unfold DbSDiff, diff_sets. destruct keys as [|key keys]; [split; [done|]; split; [done|]; by apply lists_members_nil|].
  assert (Hg := get_set_models key db m H). destruct (GetSet key db) as [d|].
  2: { split; [done|]. split; [done|]. rewrite Hg. apply lists_members_nil. clear. induction keys as [|k keys IH]; [done|]. cbn. by assert (∅ ∖ set_at k m = ∅) as -> by set_solver. }
  destruct Hg as [_ Ed]. assert (Hl := lists_members_keys d). rewrite Ed in Hl. clear Ed.
  revert Hl. generalize (DGetAllKeys d) as l, (set_at key m) as s. induction keys as [|k keys IH]; intros l s Hl; cbn [foldl fst snd]; [done|].
  rewrite (valid_models now k db m Hn H). assert (Hg := get_set_models k db m H). destruct (decide (is_Some (m !! k))) as [Hk|Hk].
  - rewrite bool_decide_eq_true_2 by done. cbn [negb]. destruct (GetSet k db) as [t|].
    + destruct Hg as [Ht Et]. apply IH. apply (lists_members_filter _ _ s); [done|]. intros x.
      rewrite set_view_contains, Et, bool_decide_eq_false. set_solver.
    + apply IH. by assert (s ∖ set_at k m = s) as -> by (rewrite Hg; set_solver).
  - rewrite bool_decide_eq_false_2 by done. cbn [negb]. apply IH. rewrite (valid_set_none k m) by (by apply eq_None_not_Some).
    by assert (s ∖ ∅ = s) as -> by set_solver.
Qed.

(** The members go into a new set under the destination, which keeps its expiry
    time. *)
Lemma does_store_set destination l s m :
  has_type kSet destination m → lists_members l s → does (store_set destination l) m (zlen l) (put destination (VSet s) m).
Proof.
  intros Ht Hl db H. unfold store_set. cbn [fst snd]. split; [|done]. set (t := foldl _ dash_empty l).
  assert (Hfold : ∀ (l : list bytes) (d : SetType), dash_ok d → let d' := foldl (λ (s : SetType) (x : bytes), (DInsert x tt s).1) d l in dash_ok d' ∧ set_view d' = list_to_set l ∪ set_view d).
  { clear. induction l as [|x l IH]; intros d Hd; cbn; [split; [done|set_solver]|].
    destruct (IH (DInsert x tt d).1 (DInsert_dash _ _ _ Hd)) as [H1 H2]. split; [done|]. rewrite H2, set_view_insert. set_solver. }
  destruct (Hfold l dash_empty dash_empty_ok) as [Ht1 Ht2]. fold t in Ht1, Ht2. clear Hfold.
  assert (Et : set_view t = s).
  { destruct Hl as [_ Hl]. rewrite Ht2, set_view_empty. apply set_eq. set_solver. }
  set (db1 := match GetSet destination db with Some s => _ | None => _ end).
  assert (H1 : ∃ s0, models db1 (put destination (VSet s0) m)).
  { assert (Hg := look_set db m destination H). unfold db1, GetSet, put, deadline_of in *. unfold has_type in Ht.
    destruct (DGet destination (sets_ db)) as [d|] eqn:Ed; cbn in Hg; destruct (m !! destination) as [[[]e]|] eqn:Em; try done.
    - exists ∅. cbn in Hg. simplify_eq. assert (Hp := kind_put_models (K := set_kind) destination (DClear d) db m _ e H Em dash_empty_ok).
      change (kind_view (DClear d)) with (set_view dash_empty) in Hp. by rewrite set_view_empty in Hp.
    - exists (set_at destination m). destruct (kind_or_new_models (K := set_kind) destination db m H) as (db2 & d & En & _ & _ & H2).
      { unfold has_type. by rewrite Em. }
      change (kind_or_new destination db) with (set_or_new destination db) in En. rewrite En. rewrite <- set_at_kind in H2.
      unfold put, deadline_of in H2. by rewrite Em in H2. }
  clearbody db1. destruct H1 as [s0 H1]. assert (H2 := kind_write (K := set_kind) destination t db1 m s0 H1 Ht1).
  cbn [kind_view kind_value set_kind] in H2. by rewrite Et in H2.
Qed.
End TypedSets.

#[local] Arguments DInsert : simpl never.
#[local] Arguments DRemove : simpl never.
#[local] Arguments DGet : simpl never.

Section TypedLists.
Context {P : Platform} {HZ : Horizon}.
Implicit Types (db : Database) (m : store) (key k : bytes) (now : Z) (v : value) (e : option Z).

(** ** Lists *)

#[export] Instance list_kind : Kind ListType (list bytes).
Proof.
  refine {| kind_map := lists_; kind_with := with_lists; kind_view := storage; kind_value := VList;
            kind_of v := match v with VList s => Some s | _ => None end; kind_wf := list_ok; kind_type := kList; kind_new := empty_list |}.
  - intros a v. destruct v; naive_solver.
  - intros v. destruct v; (split; [done || (by eexists)|by intros [? ?]]).
  - by split; [|unfold kListVectorThreshold; cbn; lia].
  - intros db k c Hs. by apply sound_lists.
  - intros x db [] Hx. by destruct db.
  - intros x db. by destruct db.
  - intros db m k H. rewrite (look_list db m k H). by destruct (m !! k) as [[[]]|].
  - intros x db k E. destruct db. unfold look. cbn in *. by rewrite E.
  - intros x db k a e a' El E. destruct db. unfold look in *. cbn in *. injection El as -> -> -> _ -> ->. by rewrite E.
  - intros x db k a El E. split; [done|]. intros mv. destruct db. unfold look in *. cbn in *. injection El as -> -> -> _ -> _. by rewrite E.
Defined.

Lemma list_at_kind key m : list_at key m = kind_at key m.
Proof. unfold list_at, kind_at. by destruct (m !! key) as [[[]]|]. Qed.

Definition on_elements (g : list bytes → list bytes) : value → value := on_kind g.

Lemma drop_list_models key db m l e : models db m → m !! key = Some (VList l, e) → models (drop_list key db) (delete key m).
Proof.
  intros H Em. assert (E := mod_look _ _ H key). rewrite Em in E. unfold drop_list, unregister.
  apply (models_at db _ m key None); [done| | | |done].
  - assert (Hs := mod_sound _ _ H). apply sound_with. destruct db, Hs. split; cbn in *; try done.
    intros k d. rewrite dash_remove_get. case_decide; [done|]. by apply sound_lists.
  - intros k Hne. rewrite look_with, unregister_view, decide_False by done. destruct db. unfold look. cbn.
    by rewrite dash_remove_get, decide_False.
  - rewrite look_with, unregister_view, decide_True by done. destruct db. unfold look in *. cbn in *.
    injection E as -> -> -> _ -> _. by rewrite dash_remove_get, decide_True.
Qed.

(** The change of a list, and the end of its key. *)
Lemma may_list_on {R} now key (d : R) (f : ListType → ListType * R) (gone : ListType → R → bool) m (Q : R → store → Prop) :
  (now ≤ horizon)%Z →
  (∀ l e, list_ok l → m !! key = Some (VList (storage l), e) →
     list_ok (f l).1 ∧ Q (f l).2 (if gone (f l).1 (f l).2 then delete key m else <[key := (VList (storage (f l).1), e)]> m)) →
  ((∀ l e, m !! key ≠ Some (VList l, e)) → Q d m) → may (on_list now key d f gone) m Q.
Proof.
  intros Hn Hf Hd db H.
  destruct (may_kind_on (K := list_kind) now key (d, false) (λ l, ((f l).1, ((f l).2, gone (f l).1 (f l).2))) m
    (λ y m', if y.2 then ∃ l e, m' !! key = Some (VList l, e) ∧ Q y.1 (delete key m') else Q y.1 m') Hn) with (db := db) as (m' & H1 & H2); [| |done|].
  - intros l Hl El Hk. unfold kind_none in Hk. unfold kind_at in El. destruct (m !! key) as [[[] e]|] eqn:Em; try done. cbn in El. subst.
    destruct (Hf l e Hl eq_refl) as [H1 H2]. split; [done|]. cbn [fst snd]. rewrite (change_some _ _ _ _ _ Em). destruct (gone _ _); [|done].
    eexists _, _. split; [apply lookup_insert_eq|]. by rewrite delete_insert_eq.
  - intros Hk. apply Hd. intros l e Em. unfold kind_none in Hk. by rewrite Em in Hk.
  - unfold on_list. unfold kind_on in H1, H2. destruct (valid now key db) as [db1 ok]. destruct ok; cbn [negb] in *; [|by exists m'].
    change (kind_map db1) with (lists_ db1) in *. unfold GetList. destruct (DGet key (lists_ db1)) as [l|]; [|by exists m'].
    change (kind_put key ?a ?b) with (put_list key a b) in H1. destruct (f l) as [l' r]. cbn [fst snd] in *.
    destruct (gone l' r); [|by exists m']. destruct H2 as (l2 & e & Em & HQ). exists (delete key m'). split; [|done]. by eapply drop_list_models.
Qed.

Lemma change_elements key g m s : g (list_at key m) = s → change key (on_elements (λ _, s)) m = change key (on_elements g) m.
Proof. rewrite list_at_kind. apply (change_kind (K := list_kind)). Qed.
Lemma list_at_change key g m : list_at key m ≠ [] → list_at key (change key (on_elements g) m) = g (list_at key m).
Proof. unfold list_at, change. rewrite lookup_alter_eq. by destruct (m !! key) as [[[] e]|]. Qed.

Lemma no_list key m : (∀ l e, m !! key ≠ Some (VList l, e)) → list_at key m = [].
Proof. intros Hk. unfold list_at. destruct (m !! key) as [[[] e]|]; try done. by destruct (Hk l e). Qed.

(** A list that is left empty goes. *)
Definition shrink key (g : list bytes → list bytes) m : store :=
  match m !! key with
  | Some (VList l, e) => match g l with [] => delete key m | l' => <[key := (VList l', e)]> m end
  | _ => m
  end.

(** A list after an operation of [list_step]. *)
Definition after (o : lop bytes) (s : list bytes) : list bytes := (spec_step s o).1.

Lemma step_at l o s :
  list_ok l → storage l = s → match o with ORemove _ _ => (Z.of_nat (length s) < 2 ^ 63)%Z | _ => True end →
  list_ok (list_step l o).1 ∧ storage (list_step l o).1 = after o s ∧ (list_step l o).2 = (spec_step s o).2.
Proof.
  intros Hl <- Hb. destruct (list_step_sized l o Hl Hb) as [H1 H2]. split; [done|]. unfold after. by rewrite <- H2.
Qed.

Lemma LEmpty_storage l : LEmpty (A := bytes) l = bool_decide (storage l = []).
Proof. unfold LEmpty. by destruct (storage l). Qed.

Lemma push_models now key x db m (left : bool) :
  has_type kList key m → models db m →
  models (push_with now (if left then PushLeft else PushRight) key x db)
    (put key (VList (if left then x :: list_at key m else list_at key m ++ [x])) m).
Proof.
  intros Ht H. unfold push_with. change (list_or_new key db) with (kind_or_new (K := list_kind) key db). rewrite list_at_kind.
  destruct (kind_or_new_models (K := list_kind) key db m H Ht) as (db1 & l & -> & El & Hl & H1).
  assert (H2 := models_track_memory _ _ _ (harmless_element _ key false x : harmless (UpdateListElement key false x)) H1).
  rewrite (models_check now _ _ H2). assert (Hp : list_ok ((if left then PushLeft else PushRight) x l)) by (destruct left; by apply list_ok_on).
  assert (H3 := kind_write (K := list_kind) key _ _ m _ H2 Hp). cbn [kind_view kind_value list_kind] in H3. cbn in El, Hl.
  destruct left; unfold PushLeft, PushRight in H3; rewrite storage_on, El in H3 by done; done.
Qed.

Lemma does_lpush now key x m : has_type kList key m → does (DbLPush now key x) m true (put key (VList (x :: list_at key m)) m).
Proof. intros Ht db H. split; [|done]. by apply (push_models now key x db m true). Qed.
Lemma does_rpush now key x m : has_type kList key m → does (DbRPush now key x) m true (put key (VList (list_at key m ++ [x])) m).
Proof. intros Ht db H. split; [|done]. by apply (push_models now key x db m false). Qed.

Lemma does_list_read {R} now key (d : R) g m x :
  (now ≤ horizon)%Z → (∀ l, list_ok l → storage l = list_at key m → g l = x) → (list_at key m = [] → d = x) →
  does (on_list now key d (λ l, (l, g l)) (λ _ _, false)) m x m.
Proof.
  intros Hn Hg Hd. apply may_does, may_list_on; [done| |by intros Hk; split; [apply Hd, no_list|]].
  intros l e Hl Em. split; [done|]. cbn. rewrite insert_id by done. split; [|done]. apply Hg; [done|]. unfold list_at. by rewrite Em.
Qed.

Lemma does_llen now key m : (now ≤ horizon)%Z → does (DbLLen now key) m (Z.of_nat (length (list_at key m))) m.
Proof. intros Hn. apply does_list_read; [done|by intros l _ <-|by intros ->]. Qed.

(** The element at an index; the first one for an index before the list. *)
Definition element_at (i : Z) (s : list bytes) : option bytes :=
  if (position (length s) i <? 0)%Z then head s else s !! Z.to_nat (position (length s) i).

Lemma Index_ok i (l : ListType) : Index i l = element_at i (storage l).
Proof. unfold element_at. by destruct (Range_Index_positions 0 0 i l). Qed.

Lemma does_lindex now key i m : (now ≤ horizon)%Z → does (DbLIndex now key i) m (element_at i (list_at key m)) m.
Proof.
  intros Hn. apply does_list_read; [done|intros l _ <-; apply Index_ok|]. intros ->. unfold element_at. by destruct (_ <? _)%Z.
Qed.
Lemma does_lrange now key i j m : (now ≤ horizon)%Z → does (DbLRange now key i j) m (slice i j (list_at key m)) m.
Proof.
  intros Hn. apply does_list_read; [done|intros l _ <-; apply LRange_ok|]. intros ->. unfold slice. by rewrite drop_nil, take_nil.
Qed.

(** A change by an operation of [list_step]; [ends] when a list that is left
    empty goes. *)
Lemma does_list_step {R} now key (d : R) f gone (o : lop bytes) (ends : bool) (x : R) m :
  (now ≤ horizon)%Z → match o with ORemove _ _ => (Z.of_nat (length (list_at key m)) < 2 ^ 63)%Z | _ => True end →
  (∀ l, list_ok l → storage l = list_at key m → (list_step l o).2 = (spec_step (list_at key m) o).2 →
     (f l).1 = (list_step l o).1 ∧ (f l).2 = x ∧ gone (f l).1 (f l).2 = (ends && LEmpty (list_step l o).1)) →
  (list_at key m = [] → d = x) →
  does (on_list now key d f gone) m x (if ends then shrink key (after o) m else change key (on_elements (after o)) m).
Proof.
  intros Hn Hb Hf Hd. apply may_does, may_list_on; [done| |].
  - intros l e Hl Em. assert (El : storage l = list_at key m) by (unfold list_at; by rewrite Em).
    destruct (step_at l o _ Hl El Hb) as (H1 & H2 & H3). destruct (Hf l Hl El H3) as (F1 & F2 & F3).
    rewrite F3, F1, LEmpty_storage, H2. split; [done|]. split; [done|]. destruct ends; cbn [andb]; rewrite <- El.
    + unfold shrink. rewrite Em. destruct (after o (storage l)) eqn:Ea; [by rewrite bool_decide_eq_true_2|by rewrite bool_decide_eq_false_2].
    + by rewrite (change_some _ _ _ _ _ Em).
  - intros Hk. assert (Hm : ∀ v e, m !! key = Some (v, e) → kind_of (Kind := list_kind) v = None).
    { intros v e Em. destruct v as [| | |l|]; try done. by destruct (Hk l e). }
    split; [by apply Hd, no_list|].
    destruct ends.
    + unfold shrink. destruct (m !! key) as [[[] e]|] eqn:Em; try done. by destruct (Hk l e).
    + symmetry. apply change_id. intros v e Em. unfold on_elements, on_kind. by rewrite (Hm v e Em).
Qed.

Lemma does_lpop now key m :
  (now ≤ horizon)%Z → does (DbLPop now key) m (head (list_at key m)) (shrink key tail m).
Proof.
  intros Hn. apply (does_list_step now key None _ _ OPopLeft true); [done|done| |by intros ->].
  intros l Hl El Er. cbn [list_step] in *. destruct (PopLeft l) as [l' r] eqn:Ep. cbn in *. injection Er as ->. split; [done|]. split; [done|].
  destruct (head (list_at key m)) eqn:E; cbn; [done|]. rewrite <- El in E.
  unfold PopLeft in Ep. rewrite LEmpty_storage. by destruct (storage l) eqn:Es; simplify_eq; rewrite Es.
Qed.
Lemma does_rpop now key m :
  (now ≤ horizon)%Z → does (DbRPop now key) m (last (list_at key m)) (shrink key (@removelast bytes) m).
Proof.
  intros Hn. apply (does_list_step now key None _ _ OPopRight true); [done|done| |by intros ->].
  intros l Hl El Er. cbn [list_step] in *. destruct (PopRight l) as [l' r] eqn:Ep. cbn in *. injection Er as ->. split; [done|]. split; [done|].
  destruct (last (list_at key m)) eqn:E; cbn; [done|]. rewrite <- El in E.
  unfold PopRight in Ep. rewrite E in Ep. rewrite LEmpty_storage. apply last_None in E. simplify_eq. by rewrite E.
Qed.
Lemma does_lset now key i x m :
  (now ≤ horizon)%Z → does (DbLSet now key i x) m (LinkedList.spec_set i x (list_at key m)).2 (change key (on_elements (after (OSet i x))) m).
Proof.
  intros Hn. apply (does_list_step now key false _ _ (OSet i x) false); [done|done| |].
  - intros l Hl El Er. cbn [list_step spec_step] in *. destruct (LSet i x l), (LinkedList.spec_set i x _). cbn in *. by injection Er as ->.
  - intros ->. unfold LinkedList.spec_set. cbn. by rewrite bool_decide_eq_false_2 by lia.
Qed.
Lemma does_linsert now key i x before m :
  (now ≤ horizon)%Z →
  does (DbLInsert now key i x before) m (spec_insert i x before (list_at key m)).2 (change key (on_elements (after (OInsert i x before))) m).
Proof.
  intros Hn. apply (does_list_step now key false _ _ (OInsert i x before) false); [done|done| |].
  - intros l Hl El Er. cbn [list_step spec_step] in *. destruct (LInsert i x before l), (spec_insert i x before _). cbn in *. by injection Er as ->.
  - intros ->. unfold spec_insert. cbn. by rewrite bool_decide_eq_false_2 by lia.
Qed.
Definition is_list key m : bool := match m !! key with Some (VList _, _) => true | _ => false end.
Lemma does_ltrim now key i j m :
  (now ≤ horizon)%Z → does (DbLTrim now key i j) m (is_list key m) (shrink key (slice i j) m).
Proof.
  intros Hn. apply may_does, may_list_on; [done| |].
  - intros l e Hl Em. destruct (step_at l (OTrim i j) _ Hl eq_refl I) as (H1 & H2 & _). cbn [list_step fst] in *.
    split; [done|]. unfold is_list, shrink. rewrite Em, LEmpty_storage, H2. split; [done|]. cbn [after spec_step fst].
    unfold after. cbn. destruct (slice i j (storage l)); [by rewrite bool_decide_eq_true_2|by rewrite bool_decide_eq_false_2].
  - intros Hk. unfold is_list, shrink. destruct (m !! key) as [[[] e]|] eqn:Em; try done. by destruct (Hk l e).
Qed.
Lemma does_lrem now key x count m :
  (now ≤ horizon)%Z → (count < 2 ^ 63)%Z →
  does (DbLRem now key x count) m
    (u64 (Z.of_nat (length (list_at key m)) - Z.of_nat (length (remove_first x (limit count) (list_at key m)))))
    (shrink key (remove_first x (limit count)) m).
Proof.
  intros Hn Hb. apply may_does, may_list_on; [done| |].
  - intros l e Hl Em. assert (El : storage l = list_at key m) by (unfold list_at; by rewrite Em).
    assert (E := erase_loop_wraps x count (storage l) 0 Hb ltac:(unfold in_u64; lia) ltac:(lia)). cbv zeta in E.
    rewrite Z.sub_0_r in E. fold (limit count) in E. rewrite Z.add_0_l in E. unfold LRemove. cbn [fst snd].
    assert (Ho : storage (on_storage false (λ s, (erase_loop x count s 0).1) l) = remove_first x (limit count) (storage l)) by (by rewrite storage_on, E).
    split; [apply list_ok_on; [done|]; intros _; apply erase_loop_length|]. rewrite E, LEmpty_storage, Ho, <- El. split; [done|]. unfold shrink. rewrite Em.
    destruct (remove_first _ _ _) eqn:Ea; [by rewrite bool_decide_eq_true_2|by rewrite bool_decide_eq_false_2].
  - intros Hk. rewrite (no_list key m Hk). split; [done|]. unfold shrink. destruct (m !! key) as [[[] e]|] eqn:Em; try done. by destruct (Hk l e).
Qed.

(** ** Expiry times *)

Definition set_deadline key e m : store := alter (λ x, (x.1, e)) key m.

Lemma set_deadline_some key e m v e' : m !! key = Some (v, e') → set_deadline key e m = <[key := (v, e)]> m.
Proof.
  intros E. apply map_eq. intros k. unfold set_deadline. destruct (decide (k = key)) as [->|Hne].
  - by rewrite lookup_alter_eq, lookup_insert_eq, E.
  - by rewrite lookup_alter_ne, lookup_insert_ne.
Qed.
Lemma set_deadline_none key e m : m !! key = None → set_deadline key e m = m.
Proof.
  intros E. apply map_eq. intros k. unfold set_deadline. destruct (decide (k = key)) as [->|Hne]; [by rewrite lookup_alter_eq, E|by rewrite lookup_alter_ne].
Qed.

Lemma does_deadline f key e m :
  (∀ md, key_type (f md) = key_type md ∧ expire_time_ms (f md) = e) → (∀ v, later (v, e)) →
  does (on_metadata (update_entry f key)) m (bool_decide (is_Some (m !! key))) (set_deadline key e m).
Proof.
  intros Hf Hl db H. unfold on_metadata, update_entry. assert (Hm := models_meta_at db m key H).
  destruct (DGet key (metadata_manager_ db)) as [md|] eqn:E; cbn [fst snd].
  - destruct Hm as (v & e' & Em & Ht & _). rewrite (set_deadline_some _ _ _ _ _ Em), Em. split; [|done].
    destruct (Hf md) as [F1 F2]. apply (models_at db _ m key (Some (v, e))); [done|apply sound_with, H| | |apply Hl].
    + intros k Hne. rewrite look_with. unfold meta_view. rewrite dash_insert_get, decide_False by done. by destruct db.
    + rewrite look_with, (mod_look _ _ H key), Em. unfold meta_view. rewrite dash_insert_get, decide_True by done. cbn. rewrite F1, F2, Ht.
      by destruct v.
  - rewrite Hm, (set_deadline_none _ _ _ Hm). split; [|done]. by destruct db.
Qed.

Lemma does_set_expire key t m :
  (0 < t)%Z → (horizon < t)%Z → does (DbSetExpireMs key t) m (bool_decide (is_Some (m !! key))) (set_deadline key (Some t) m).
Proof.
  intros H0 Ht. apply does_deadline; [|done]. intros md. unfold MetaSetExpireMs. by rewrite (proj2 (Z.leb_gt t 0)) by lia.
Qed.
Lemma does_persist key m : does (DbPersist key) m (bool_decide (is_Some (m !! key))) (set_deadline key None m).
Proof. by apply does_deadline. Qed.

Definition ttl_of now key m : Z :=
  match m !! key with None => -2 | Some (_, None) => -1 | Some (_, Some t) => i64 (t - now) end.

Lemma ttl_models now key db m : (0 ≤ now ≤ horizon)%Z → models db m → DbGetTtlMs now key db = ttl_of now key m.
Proof.
  intros Hn H. unfold DbGetTtlMs, GetTtlMs, ttl_of, MetaGetTtlMs. assert (Hm := models_meta_at db m key H).
  destruct (DGet key (metadata_manager_ db)) as [md|] eqn:E; [|by rewrite Hm].
  destruct Hm as (v & e & -> & Ht & He & Hl). rewrite (later_valid now md) by (lia || by rewrite He). rewrite He.
  unfold later in Hl. cbn in Hl. destruct e as [t|]; [|done]. cbn. rewrite (proj2 (Z.leb_gt t 0)), (proj2 (Z.leb_gt t now)) by lia. done.
Qed.

Lemma deadline_models now key db m : (now ≤ horizon)%Z → models db m → DbGetExpireTimeMs now key db = deadline_of key m.
Proof.
  intros Hn H. unfold DbGetExpireTimeMs, GetExpireTimeMs, deadline_of. assert (Hm := models_meta_at db m key H).
  destruct (DGet key (metadata_manager_ db)) as [md|] eqn:E; [|by rewrite Hm].
  destruct Hm as (v & e & -> & Ht & He & Hl). cbn. by rewrite (later_valid now md) by (lia || by rewrite He).
Qed.
End TypedLists.
