(* ===== verification/TypedZSets.v ===== *)
(** * The sorted sets of the typed store

    The operations of [DatabaseZSets], for the databases of [TypedStore].  A sorted
    set is the map of its scores; its members in order are those of the map, sorted
    by score and then by hash. *)
From Stdlib Require Import SpecFloat.
From stdpp Require Import sorting.
From S2P Require Import Prelude.
From S2P Require Import BPTreeNode.
From S2P Require Import BPTreeSearch.
From S2P Require Import BPTree.
From S2P Require Import BPTreeSpec.
From S2P Require Import OrderedSet.
From S2P Require Import ZSet.
From S2P Require Import ZSetContract.
From S2P Require Import Simd.
From S2P Require Import Numbers.
From S2P Require Import Text.
From S2P Require Import RespTypes.
From S2P Require Import KeyMetadata.
From S2P Require Import Eviction.
From S2P Require Import Rocks.
From S2P Require Import Database.
From S2P Require Import DatabaseTypes.
From S2P Require Import DatabaseZSets.
From S2P Require Import DatabaseStrings.
From S2P Require Import StringLog.
From S2P Require Import TypedStore.

#[local] Arguments DInsert : simpl never.
#[local] Arguments DRemove : simpl never.
#[local] Arguments DGet : simpl never.

(** ** Sums of doubles *)

Definition is_finite_double (d : spec_float) : bool := match d with S754_zero _ | S754_finite _ _ _ => true | _ => false end.

Lemma iter_shr_nonneg p : ∀ r, (0 ≤ shr_m r)%Z → (0 ≤ shr_m (SpecFloat.iter_pos shr_1 p r))%Z.
Proof.
  assert (H1 : ∀ r, (0 ≤ shr_m r)%Z → (0 ≤ shr_m (shr_1 r))%Z) by (intros [[|[]|] ? ?] H; cbn in *; lia).
  induction p as [p IH|p IH|]; intros r Hr; cbn [SpecFloat.iter_pos]; auto.
Qed.
Lemma shr_fexp_nonneg prec emax m e l : (0 ≤ m)%Z → (0 ≤ shr_m (shr_fexp prec emax m e l).1)%Z.
Proof.
  intros Hm. unfold shr_fexp, shr. assert (H0 : (0 ≤ shr_m (shr_record_of_loc m l))%Z) by (by destruct l as [|[]]).
  destruct (_ - e)%Z; [done|by apply iter_shr_nonneg|done].
Qed.
Lemma binary_normalize_number prec emax m e szero : is_nan (binary_normalize prec emax m e szero) = false.
Proof.
  assert (Hr : ∀ sx mx ex, is_nan (binary_round prec emax sx mx ex) = false); [|by destruct m; [|apply Hr..]].
  intros sx mx ex. unfold binary_round. destruct (shl_align _ _ _) as [mz ez]. unfold binary_round_aux.
  assert (H1 := shr_fexp_nonneg prec emax (Zpos mz) ez loc_Exact ltac:(lia)). destruct (shr_fexp _ _ _ _ _) as [r1 e1]. cbn [fst] in H1.
  assert (H2 : (0 ≤ round_nearest_even (shr_m r1) (loc_of_shr_record r1))%Z).
  { unfold round_nearest_even. destruct (loc_of_shr_record r1) as [|[]]; try lia. destruct (Z.even _); lia. }
  assert (H3 := shr_fexp_nonneg prec emax _ e1 loc_Exact H2). destruct (shr_fexp _ _ (round_nearest_even _ _) _ _) as [r2 e2]. cbn [fst] in H3.
  destruct (shr_m r2); [done|by destruct (_ <=? _)%Z|lia].
Qed.

(** The sum of a number and a finite number is a number. *)
Lemma double_add_number a b : is_nan a = false → is_finite_double b = true → is_nan (double_add a b) = false.
Proof.
  unfold double_add, SFadd. destruct a as [[]|[]| |? ? ?], b as [[]|[]| |? ? ?]; try done. intros _ _. apply binary_normalize_number.
Qed.

Lemma score_of_number d : is_nan d = false → ∃ s, score_of d = Some s ∧ dval s = d.
Proof.
  intros H. unfold score_of. generalize (eq_refl (is_nan d)). generalize (is_nan d) at 2 3. intros b E. destruct b; [congruence|]. by eexists.
Qed.

Section TypedZSets.
Context {P : Platform} {HD : DoubleText} {HZ : Horizon}.
Implicit Types (db : Database) (m : store) (key k x : bytes) (now : Z) (M : gmap bytes Score) (z : ZSetType).

(** ** The order of the members *)

Definition element_of (a : bytes * Score) : ScoredMemberCompact := MakeElement hash a.1 a.2.
Definition rank_le (a b : bytes * Score) : Prop := element_lt (element_of b) (element_of a) = false.
#[export] Instance rank_le_dec : RelDecision rank_le.
Proof. intros a b. unfold rank_le. apply _. Defined.
#[export] Instance rank_le_total : Total rank_le.
Proof.
  intros a b. unfold rank_le. destruct (element_lt (element_of b) (element_of a)) eqn:E; [|by left]. right.
  apply not_true_iff_false. intros E'. assert (H := less_trans _ _ _ E E'). by rewrite less_irrefl in H.
Qed.
#[export] Instance rank_le_trans : Transitive rank_le.
Proof.
  intros a b c. unfold rank_le. rewrite <- !not_true_iff_false, !element_lt_spec. cbv zeta. lia.
Qed.

(** The members with their scores, from the lowest score to the highest. *)
Definition ranked M : list (bytes * Score) := merge_sort rank_le (map_to_list M).

Lemma ranked_perm M : ranked M ≡ₚ map_to_list M.
Proof. apply merge_sort_Permutation. Qed.
Lemma length_ranked M : length (ranked M) = size M.
Proof. rewrite ranked_perm. apply length_map_to_list. Qed.
Lemma ranked_elem M x s : (x, s) ∈ ranked M ↔ M !! x = Some s.
Proof. rewrite ranked_perm. apply elem_of_map_to_list. Qed.
Lemma ranked_empty : ranked ∅ = [].
Proof. unfold ranked. by rewrite map_to_list_empty. Qed.

Lemma element_of_entry z e : zset_inv hash z → e ∈ elements z → element_of (entry z e) = e.
Proof.
  intros Hz He. destruct (element_listing hash z e Hz He) as (x & Hp & _ & Ee). unfold push_element in Hp. unfold element_of, entry.
  destruct (FindMemberByHash _ z) as [y|]; [|done]. cbn in *. by injection Hp as ->.
Qed.

(** The tree lists the members of the map in this order. *)
Lemma listing_ranked z : zset_inv hash z → listing z = ranked (member_to_score_ z).
Proof.
  intros Hz. apply (StronglySorted_unique_strong rank_le).
  - intros [x s] [y t] Hx Hy H1 H2. rewrite (listing_perm hash z Hz), elem_of_map_to_list in Hx. apply ranked_elem in Hy.
    assert (Hh : hash x = hash y).
    { unfold rank_le in H1, H2. rewrite <- !not_true_iff_false, !element_lt_spec in H1, H2. cbv zeta in H1, H2. cbn in H1, H2. lia. }
    assert (Ex := inv_hash hash z Hz _ _ Hx). assert (Ey := inv_hash hash z Hz _ _ Hy). rewrite Hh in Ex. by simplify_eq.
  - rewrite (listing_entries hash) by done. assert (H := os_sorted _ (inv_tree hash z Hz)). unfold sorted in H.
    change (os_items (ordered_set_ z)) with (elements z) in H. assert (He : ∀ e, e ∈ elements z → element_of (entry z e) = e) by (intros e; by apply element_of_entry).
    revert He. induction H as [|e l _ IH HF]; intros He; [constructor|]. rewrite fmap_cons. constructor; [apply IH; intros e' He'; apply He; by constructor|].
    apply Forall_fmap, Forall_forall. intros e' He'. rewrite Forall_forall in HF. specialize (HF e' He'). unfold key_lt, compare_to, ScoredMemberPolicy, DefaultCompareTo in HF.
    unfold rank_le. cbn. rewrite !He by (by constructor). destruct (element_lt e e') eqn:E; [|by destruct (element_lt e' e)].
    apply not_true_iff_false. intros E'. assert (Hx := less_trans _ _ _ E E'). by rewrite less_irrefl in Hx.
  - apply (StronglySorted_merge_sort rank_le).
  - rewrite (listing_perm hash z Hz). by rewrite ranked_perm.
Qed.

(** ** The kind *)

#[export] Instance zset_kind : Kind ZSetType (gmap bytes Score).
Proof.
  refine {| kind_map := zsets_; kind_with := with_zsets; kind_view := member_to_score_; kind_value := VZSet;
            kind_of v := match v with VZSet s => Some s | _ => None end; kind_wf := zset_ok; kind_type := kZSet; kind_new := empty_zset |}.
  - intros a v. destruct v; naive_solver.
  - intros v. destruct v; (split; [done || (by eexists)|by intros [? ?]]).
  - split; [apply empty_zset_inv|]. cbn. set_solver.
  - intros db k c Hs. by apply sound_zsets.
  - intros x db [] Hx. by destruct db.
  - intros x db. by destruct db.
  - intros db m k H. rewrite (look_zset db m k H). by destruct (m !! k) as [[[]]|].
  - intros x db k E. destruct db. unfold look. cbn in *. by rewrite E.
  - intros x db k a e a' El E. destruct db. unfold look in *. cbn in *. injection El as -> -> -> -> _ ->. by rewrite E.
  - intros x db k a El E. split; [done|]. intros mv. destruct db. unfold look in *. cbn in *. injection El as -> -> -> -> _ _. by rewrite E.
Defined.

Lemma zset_at_kind key m : zset_at key m = kind_at key m.
Proof. unfold zset_at, kind_at. by destruct (m !! key) as [[[]]|]. Qed.

Definition on_scored (g : gmap bytes Score → gmap bytes Score) : value → value := on_kind g.

Lemma zset_ok_small z : zset_ok z → small_set z.
Proof.
  intros [Hz Hd]. unfold small_set. rewrite <- (size_elements hash z Hz). assert (Hu := universe_size). apply subseteq_size in Hd. rewrite size_dom in Hd. lia.
Qed.

(** A known member has a hash of its own. *)
Lemma zset_ok_fresh z x : zset_ok z → x ∈ universe → member_to_score_ z !! x = None → hash_to_member_ z !! hash x = None.
Proof.
  intros [Hz Hd] Hx Hn. destruct (hash_to_member_ z !! hash x) as [y|] eqn:E; [|done]. exfalso.
  destruct (inv_member hash z Hz _ _ E) as [Hh Hy]. assert (y ∈ universe) by (apply Hd; by apply elem_of_dom).
  assert (x = y) as -> by (by apply universe_hash). destruct Hy as [? Hy]. by rewrite Hn in Hy.
Qed.
Lemma zadd_dom x s M : dom (zadd_spec x s M) ⊆ {[x]} ∪ dom M.
Proof. unfold zadd_spec. destruct (M !! x) as [t|]; [destruct (score_eq t s)|]; rewrite ?dom_insert_L; set_solver. Qed.

Lemma zset_ok_add z x s :
  zset_ok z → x ∈ universe →
  zset_ok (Add hash x s z).1 ∧ member_to_score_ (Add hash x s z).1 = zadd_spec x s (member_to_score_ z) ∧
  (Add hash x s z).2 = bool_decide (member_to_score_ z !! x = None).
Proof.
  intros Hz Hx. destruct (Add_ok hash x s z (proj1 Hz) (zset_ok_fresh z x Hz Hx)) as (H1 & H2 & H3). fold (zadd_spec x s (member_to_score_ z)) in H3.
  split; [split; [done|]|split; [done|]].
  - rewrite H3. etrans; [apply zadd_dom|]. destruct Hz. set_solver.
  - rewrite H2. unfold ZContains. by destruct (member_to_score_ z !! x).
Qed.

Lemma zset_ok_remove z x :
  zset_ok z → zset_ok (Remove hash x z).1 ∧ member_to_score_ (Remove hash x z).1 = delete x (member_to_score_ z) ∧
  (Remove hash x z).2 = bool_decide (is_Some (member_to_score_ z !! x)).
Proof.
  intros [Hz Hd]. destruct (Remove_ok hash x z Hz) as (H1 & H2 & H3). split; [split; [done|]|done]. rewrite H3, dom_delete_L. set_solver.
Qed.

(** The members of a sorted set are known. *)
Lemma models_universe db m key : models db m → dom (zset_at key m) ⊆ universe.
Proof.
  intros H. assert (E := look_zset db m key H). unfold zset_at. destruct (m !! key) as [[[] e]|]; try set_solver. cbn in E.
  apply fmap_Some in E as (d & E & ->). by apply (sound_zsets db (mod_sound _ _ H) key).
Qed.

(** ** The operations *)

Lemma does_zadd now key s x m :
  has_type kZSet key m → x ∈ universe →
  does (DbZAdd now key s x) m (bool_decide (zset_at key m !! x = None)) (put key (VZSet (zadd_spec x s (zset_at key m))) m).
Proof.
  intros Ht Hx db H. unfold DbZAdd. cbv zeta. set (old := match GetZSet key db with Some _ => _ | None => false end).
  change (zset_or_new key db) with (kind_or_new (K := zset_kind) key db).
  rewrite zset_at_kind. destruct (kind_or_new_models (K := zset_kind) key db m H Ht) as (db1 & z & -> & Ez & Hz & H1).
  assert (H2 := models_track_memory _ _ _ (harmless_element _ key old x : TypedStore.harmless (UpdateZSetMember key old x)) H1).
  rewrite (models_check now _ _ H2). destruct (zset_ok_add z x s Hz Hx) as (Hz' & Em & Er). cbn [kind_view zset_kind] in Ez.
  assert (H3 := kind_write (K := zset_kind) key _ _ m _ H2 Hz'). cbn [kind_view kind_value zset_kind] in H3. rewrite Em, Ez in H3. rewrite Ez in Er.
  destruct (Add hash x s z) as [z' r]. cbn [fst snd] in *. by split.
Qed.

Lemma does_zset_read {R} now key (d : R) g m r :
  (now ≤ horizon)%Z → (∀ z, zset_ok z → member_to_score_ z = zset_at key m → g z = r) → (zset_at key m = ∅ → d = r) →
  does (on_zset now key d (λ z, (z, g z))) m r m.
Proof. rewrite zset_at_kind. exact (does_kind_read (K := zset_kind) now key d g m r). Qed.

Lemma does_zset_change {R} now key (d : R) f g m r :
  (now ≤ horizon)%Z →
  (∀ z, zset_ok z → member_to_score_ z = zset_at key m → zset_ok (f z).1 ∧ member_to_score_ (f z).1 = g (member_to_score_ z) ∧ (f z).2 = r) →
  (zset_at key m = ∅ → d = r) → does (on_zset now key d f) m r (change key (on_scored g) m).
Proof. rewrite zset_at_kind. exact (does_kind_on (K := zset_kind) now key d f g m r). Qed.

Lemma does_zrem now key x m :
  (now ≤ horizon)%Z → does (DbZRem now key x) m (bool_decide (is_Some (zset_at key m !! x))) (change key (on_scored (delete x)) m).
Proof.
  intros Hn. apply does_zset_change; [done| |by intros ->]. intros z Hz <-. by apply zset_ok_remove.
Qed.

Lemma does_zscore now key x m : (now ≤ horizon)%Z → does (DbZScore now key x) m (zset_at key m !! x) m.
Proof. intros Hn. apply does_zset_read; [done|by intros z _ <-|by intros ->]. Qed.

Lemma does_zcard now key m : (now ≤ horizon)%Z → does (DbZCard now key) m (Z.of_nat (size (zset_at key m))) m.
Proof.
  intros Hn. apply does_zset_read; [done| |by intros ->]. intros z Hz <-. rewrite (size_elements hash z (proj1 Hz)).
  apply (os_size_elements hash); [apply Hz|by apply zset_ok_small].
Qed.

(** The members whose scores are in a range. *)
Definition scored_between (lo hi : Score) M : list (bytes * Score) :=
  filter (λ y : bytes * Score, score_le lo y.2 && score_le y.2 hi = true) (ranked M).

Lemma does_zcount now key lo hi m :
  (now ≤ horizon)%Z → does (DbZCount now key lo hi) m (zlen (scored_between lo hi (zset_at key m))) m.
Proof.
  intros Hn. apply does_zset_read; [done| |by intros ->; unfold scored_between; rewrite ranked_empty]. intros z Hz <-.
  unfold scored_between, zlen. rewrite <- (listing_ranked z (proj1 Hz)). apply (CountRange_ok hash); [apply Hz|by apply zset_ok_small].
Qed.

(** The rank of a member. *)
Definition rank_in x M : option nat := fst <$> list_find (λ y : bytes * Score, y.1 = x) (ranked M).

Lemma rank_in_at x s M i : ranked M !! i = Some (x, s) → rank_in x M = Some i.
Proof.
  intros Hi. unfold rank_in. assert (Hnd : NoDup (ranked M).*1) by (rewrite ranked_perm; apply NoDup_fst_map_to_list).
  rewrite (proj2 (list_find_Some (λ y : bytes * Score, y.1 = x) (ranked M) i (x, s))); [done|]. split; [done|]. split; [done|].
  intros j [y t] Hj Hlt Hy. cbn in Hy. subst y. rewrite NoDup_alt in Hnd. assert (j = i); [|lia].
  apply (Hnd j i x); rewrite list_lookup_fmap; [by rewrite Hj|by rewrite Hi].
Qed.

Lemma does_zrank now key x reverse m :
  (now ≤ horizon)%Z →
  does (DbZRank now key x reverse) m
    ((λ i, Z.of_nat (if (reverse : bool) then size (zset_at key m) - 1 - i else i)) <$> rank_in x (zset_at key m)) m.
Proof.
  intros Hn. apply does_zset_read; [done| |by intros ->; unfold rank_in; rewrite ranked_empty]. intros z Hz <-.
  destruct (member_to_score_ z !! x) as [s|] eqn:E.
  - assert (E' := E). apply (listing_member hash z x s (proj1 Hz)) in E' as [i Hi].
    rewrite (GetRank_at hash z i x s reverse (proj1 Hz) (zset_ok_small z Hz) Hi), (size_elements hash z (proj1 Hz)).
    rewrite (listing_ranked z (proj1 Hz)) in Hi. by rewrite (rank_in_at x s _ i Hi).
  - unfold GetRank. rewrite E. assert (rank_in x (member_to_score_ z) = None) as ->; [|done]. unfold rank_in.
    rewrite (proj2 (list_find_None _ _)); [done|]. apply Forall_forall. intros [y t] Hy Hx. cbn in Hx. subst y.
    apply ranked_elem in Hy. by rewrite E in Hy.
Qed.

(** The entries between two positions, which count from the end when they are
    negative; a stop before the first entry is taken for the last. *)
Definition zslice {A} (start stop : Z) (l : list A) : list A :=
  let n := zlen l in
  let i := if (start <? 0)%Z then Z.max 0 (n + start) else start in
  let j := if (stop <? 0)%Z then if (n + stop <? 0)%Z then n else (n + stop)%Z else stop in
  take (Z.to_nat (j - i + 1)) (drop (Z.to_nat i) l).
Definition in_order (reverse : bool) M : list (bytes * Score) := if reverse then rev (ranked M) else ranked M.

Lemma length_in_order reverse M : zlen (in_order reverse M) = Z.of_nat (size M).
Proof. unfold zlen, in_order. destruct reverse; by rewrite ?length_rev, length_ranked. Qed.

Lemma zrange_slice start stop reverse scores z :
  zset_ok z → zrange start stop reverse scores z = strip scores (zslice start stop (in_order reverse (member_to_score_ z))).
Proof.
  intros Hz. assert (Hs := zset_ok_small z Hz). unfold zrange. assert (En : ZSize z = Z.of_nat (size (member_to_score_ z))).
  { unfold ZSize. rewrite (os_size_elements hash z (proj1 Hz) Hs). by rewrite (size_elements hash z (proj1 Hz)). }
  rewrite En. unfold small_set in Hs. rewrite <- (size_elements hash z (proj1 Hz)) in Hs.
  assert (El := length_in_order reverse (member_to_score_ z)). set (n := size (member_to_score_ z)) in *. unfold clamp_ranks, zslice. rewrite El.
  assert (Hnil : ∀ l : list (bytes * Score), zlen l = 0%Z → ∀ i j, strip scores (take i (drop j l)) = []).
  { intros l Hl i j. unfold zlen in Hl. destruct l; [|cbn in Hl; lia]. rewrite drop_nil, take_nil. by destruct scores. }
  destruct (Z.of_nat n =? 0)%Z eqn:E0; b2p; [by rewrite Hnil by lia|].
  set (i := if (start <? 0)%Z then Z.max 0 _ else start). 
  assert (Ei : (if (start <? 0)%Z then if (Z.of_nat n + start <? 0)%Z then 0%Z else (Z.of_nat n + start)%Z else start) = i).
  { unfold i. destruct (start <? 0)%Z; [|done]. destruct (_ <? 0)%Z eqn:E; b2p; lia. }
  rewrite Ei. assert (Hi : (0 ≤ i)%Z) by (unfold i; destruct (start <? 0)%Z eqn:E; b2p; lia). clearbody i. clear Ei.
  destruct (_ <=? i)%Z eqn:E1; b2p.
  { unfold zlen in El. rewrite drop_ge, take_nil by lia. by destruct scores. }
  rewrite (GetRangeByRank_ok hash); [|apply Hz|by apply zset_ok_small|apply Z.mod_pos_bound; lia].
  rewrite (listing_ranked z (proj1 Hz)). fold (in_order reverse (member_to_score_ z)).
  rewrite (u64_small i) by (unfold in_u64; lia). f_equal.
  assert (Hlen : length (drop (Z.to_nat i) (in_order reverse (member_to_score_ z))) = n - Z.to_nat i) by (rewrite length_drop; unfold zlen in El; lia).
  destruct (stop <? 0)%Z eqn:E2; b2p.
  - destruct (_ <? 0)%Z eqn:E3; b2p.
    + destruct (Z.of_nat n <=? -1)%Z eqn:E4; b2p; [lia|]. change (u64 (-1)) with (2 ^ 64 - 1)%Z. rewrite !take_ge by lia. done.
    + destruct (Z.of_nat n <=? _)%Z eqn:E4; b2p; [lia|]. by rewrite u64_small by (unfold in_u64; lia).
  - destruct (Z.of_nat n <=? stop)%Z eqn:E4; b2p; rewrite u64_small by (unfold in_u64; lia); [|done]. rewrite !take_ge by lia. done.
Qed.

Lemma does_zrange now key start stop reverse scores m :
  (now ≤ horizon)%Z → does (DbZRange now key start stop reverse scores) m (strip scores (zslice start stop (in_order reverse (zset_at key m)))) m.
Proof.
  intros Hn. apply does_zset_read; [done|by intros z Hz <-; apply zrange_slice|]. intros ->. unfold in_order, zslice. rewrite ranked_empty.
  destruct reverse; cbn; rewrite drop_nil, take_nil; by destruct scores.
Qed.
Lemma does_zrangebyrank now key start stop reverse scores m :
  (now ≤ horizon)%Z → does (DbZRangeByRank now key start stop reverse scores) m (strip scores (zslice start stop (ranked (zset_at key m)))) m.
Proof. intros Hn. apply (does_zrange now key start stop false scores m Hn). Qed.

Lemma apply_limit_nil {A} offset count : apply_limit offset count ([] : list A) = [].
Proof. unfold apply_limit. case_match; [done|]. by rewrite drop_nil, take_nil. Qed.

(** The members between two bounds in text form.  The exclusive ends are tested on
    zero when scores are not asked for. *)
Definition score_range (min_str max_str : bytes) (reverse scores : bool) (limit : option (Z * Z)) M : option (list (bytes * Score)) :=
  let '(min_exclusive, min_score) := parse_score min_str in
  let '(max_exclusive, max_score) := parse_score max_str in
  lo ← score_of min_score; hi ← score_of max_score;
  let l := filter (λ y : bytes * Score, (min_exclusive && score_le y.2 lo) || (max_exclusive && score_le hi y.2) = false)
             (strip scores (scored_between lo hi M)) in
  let l := if reverse then List.rev l else l in
  Some (match limit with Some (offset, count) => apply_limit offset count l | None => l end).

Lemma does_zrangebyscore now key min_str max_str reverse scores limit m :
  (now ≤ horizon)%Z → is_nan (parse_score min_str).2 = false → is_nan (parse_score max_str).2 = false →
  does (DbZRangeByScore now key min_str max_str reverse scores limit) m (score_range min_str max_str reverse scores limit (zset_at key m)) m.
Proof.
  intros Hn H1 H2. apply does_zset_read; [done| |].
  - intros z Hz <-. unfold zrange_by_score, score_range, scored_between. destruct (parse_score min_str) as [e1 d1], (parse_score max_str) as [e2 d2].
    destruct (score_of d1) as [lo|]; [|done]. destruct (score_of d2) as [hi|]; [|done]. cbn [mbind option_bind].
    rewrite (GetRangeByScore_ok hash) by (apply Hz || by apply zset_ok_small).
    by rewrite (listing_ranked z (proj1 Hz)).
  - intros ->. unfold score_range, scored_between. destruct (parse_score min_str) as [e1 d1], (parse_score max_str) as [e2 d2]. cbn [snd] in *.
    destruct (score_of_number d1 H1) as (lo & -> & _), (score_of_number d2 H2) as (hi & -> & _). cbn [mbind option_bind]. rewrite ranked_empty.
    destruct scores, reverse; cbn; destruct limit as [[offset count]|]; by rewrite ?apply_limit_nil.
Qed.

(** The score of a member after an increment. *)
Definition raised (increment : spec_float) x M : spec_float := double_add (match M !! x with Some s => dval s | None => d0_0 end) increment.

Lemma raised_number increment x M : is_finite_double increment = true → is_nan (raised increment x M) = false.
Proof. intros H. apply double_add_number; [|done]. destruct (M !! x) as [s|]; [apply dval_ok|done]. Qed.

Lemma zincrby_models key increment x db m :
  models db m → has_type kZSet key m → x ∈ universe → is_finite_double increment = true →
  ∃ db' s, DbZIncrBy key increment x db = Some (db', dval s) ∧ dval s = raised increment x (zset_at key m) ∧
    models db' (put key (VZSet (zadd_spec x s (zset_at key m))) m).
Proof.
  intros H Ht Hx Hf. unfold DbZIncrBy. change (zset_or_new key db) with (kind_or_new (K := zset_kind) key db).
  destruct (kind_or_new_models (K := zset_kind) key db m H Ht) as (db1 & z & -> & Ez & Hz & H1). rewrite <- zset_at_kind in *. cbn [kind_view zset_kind] in Ez.
  unfold GetScore. rewrite Ez. fold (raised increment x (zset_at key m)).
  destruct (score_of_number _ (raised_number increment x (zset_at key m) Hf)) as (s & -> & Es). cbn [mbind option_bind].
  destruct (zset_ok_add z x s Hz Hx) as (Hz' & Em & _). assert (H3 := kind_write (K := zset_kind) key _ _ m _ H1 Hz').
  cbn [kind_view kind_value zset_kind] in H3. rewrite Em, Ez in H3. eexists _, s. by split.
Qed.
End TypedZSets.
