(* ===== verification/TypedCommands.v ===== *)
(** * Commands on the typed store

    What a handler does to a typed store and answers, as a rule, and the steps by
    which a handler is shown to follow its rule.  The contexts are calm: one
    worker, no cluster, and no client that blocks. *)
From Stdlib Require Import SpecFloat.
From S2P Require Import Prelude.
From S2P Require Import Simd.
From S2P Require Import Numbers.
From S2P Require Import Text.
From S2P Require Import RespTypes.
From S2P Require Import Executor.
From S2P Require Import KeyMetadata.
From S2P Require Import LinkedList.
From S2P Require Import Eviction.
From S2P Require Import Rocks.
From S2P Require Import Database.
From S2P Require Import DatabaseTypes.
From S2P Require Import Blocking.
From S2P Require Import Commands.
From S2P Require Import StringCommands.
From S2P Require Import StringLog.
From S2P Require Import TypedStore.
From S2P Require Import TypedContainers.

Section TypedCommands.
Context {P : Platform} {HD : DoubleText} {HZ : Horizon}.
Implicit Types (c : Ctx) (m : store) (key : bytes) (now : Z) (args : list bytes).

(** ** Rules *)

(** The answer and the new store for the arguments and the store. *)
Definition rule : Type := Z → list bytes → store → CommandResult → store → Prop.
Definition det (f : Z → list bytes → store → CommandResult * store) : rule := λ now args m r m', f now args m = (r, m').

Definition calm c : Prop :=
  ctx_workers c ≤ 1 ∧ ctx_cluster c = None ∧
  match blocking_manager (ctx_more c) with None => True | Some bm => wait_queues_ bm = ∅ end.

(** The context stands for the store. *)
Definition stands c m : Prop := calm c ∧ models (ctx_db c) m.

Definition answers (r : CommandResult + outcome) (reply : CommandResult) : Prop := r = inl reply ∨ r = inr (Returned reply).

(** A handler follows a rule on bulk strings. *)
Definition follows (s : rule) now args m (r : CommandResult + outcome) c' : Prop :=
  ∃ reply m', answers r reply ∧ s now args m reply m' ∧ stands c' m'.

Definition serves (ok : Z → list bytes → store → Prop) (h : Z → Command → M CommandResult) (s : rule) : Prop :=
  ∀ now name args c m, (0 ≤ now ≤ horizon)%Z → stands c m → ok now args m →
    wp (h now (MkCommand name (bulk <$> args))) (follows s now args m) c.

(** The first argument is a key of the type, or of no type yet. *)
Definition key_is (t : KeyType) now args m : Prop := match args with key :: _ => has_type t key m | [] => True end.
Definition any_args now args m : Prop := True.

(** An error leaves the store. *)
Definition error (message : bytes) m : CommandResult * store := (Failure message, m).

Lemma i64_u64 x : i64 (u64 x) = i64 x.
Proof. unfold i64, u64, swrap, wrap. by rewrite Zplus_mod_idemp_l. Qed.

(** Two elements at a time. *)
Lemma list_pair_ind {A} (Q : list A → Prop) : Q [] → (∀ x, Q [x]) → (∀ x y l, Q l → Q (x :: y :: l)) → ∀ l, Q l.
Proof.
  intros H0 H1 H2. enough (Hl : ∀ l, Q l ∧ ∀ x, Q (x :: l)) by apply Hl. induction l as [|y l [IH1 IH2]]; [by split|].
  split; [apply IH2|]. intros x. by apply H2.
Qed.

Lemma wp_mono {A} (f : M A) (Q Q' : A + outcome → Ctx → Prop) c : (∀ r c', Q r c' → Q' r c') → wp f Q c → wp f Q' c.
Proof. unfold wp. auto. Qed.

Lemma stands_with db c m m' : stands c m → models db m' → stands (with_db db c) m'.
Proof. by intros [Hc _]. Qed.

Lemma wp_may {A} (f : Database → Database * A) c m R Q :
  stands c m → may f m R → (∀ x m' c', R x m' → stands c' m' → Q (inl x) c') → wp (on_db f) Q c.
Proof.
  intros Hs Hf HQ. unfold wp, on_db. destruct (Hf (ctx_db c) (proj2 Hs)) as (m' & H1 & H2). destruct (f (ctx_db c)) as [db x].
  by apply (HQ x m'), (stands_with db c m).
Qed.

Lemma wp_does {A} (f : Database → Database * A) c m x m' Q :
  stands c m → does f m x m' → (∀ c', stands c' m' → Q (inl x) c') → wp (on_db f) Q c.
Proof.
  intros Hs Hf HQ. apply (wp_may f c m (λ y m2, y = x ∧ m2 = m')); [done| |by intros ? ? c' [-> ->]; apply HQ].
  intros db H. exists m'. split; [by apply Hf|]. by split; [apply Hf|].
Qed.

Lemma wp_logging name args c m Q : stands c m → (∀ c', stands c' m → Q (inl ()) c') → wp (LogToAof name args) Q c.
Proof. intros Hs HQ. by apply HQ. Qed.

Lemma follows_ret s now args m r m' c' : s now args m r m' → stands c' m' → follows s now args m (inl r) c'.
Proof. intros H1 H2. exists r, m'. split; [by left|]. by split. Qed.
Lemma follows_stop s now args m r m' c' : s now args m r m' → stands c' m' → follows s now args m (inr (Returned r)) c'.
Proof. intros H1 H2. exists r, m'. split; [by right|]. by split. Qed.

(** A handler that follows a rule returns. *)
Lemma serves_run ok h s now name args c m :
  serves ok h s → (0 ≤ now ≤ horizon)%Z → stands c m → ok now args m →
  ∃ c' reply m', run (h now (MkCommand name (bulk <$> args))) c = (c', Returned reply) ∧ s now args m reply m' ∧ stands c' m'.
Proof.
  intros Hh Hn Hs Hok. assert (Hw := Hh now name args c m Hn Hs Hok). unfold wp in Hw. unfold run. destruct (h now _ c) as [c' r].
  cbn [fst snd] in Hw. destruct Hw as (reply & m' & Ha & Hr & Hs'). exists c', reply, m'. by destruct Ha as [-> | ->].
Qed.

(** Bulk strings are bulk strings. *)
Lemma bulk_all args : all_bulk (bulk <$> args) = true.
Proof. induction args as [|a args IH]; [done|]. exact IH. Qed.
Lemma bulk_values args : arg_value <$> (bulk <$> args) = args.
Proof. induction args as [|a args IH]; [done|]. cbn. by rewrite IH. Qed.
Lemma bulk_drop n args : drop n (bulk <$> args) = bulk <$> drop n args.
Proof. symmetry. apply fmap_drop. Qed.
Lemma bulk_reverse args : reverse (bulk <$> args) = bulk <$> reverse args.
Proof. symmetry. apply fmap_reverse. Qed.

Lemma wp_bulk_args args message Q c : Q (inl args) c → wp (bulk_args (bulk <$> args) message) Q c.
Proof. intros H. unfold bulk_args. apply wp_bind, wp_require; [|by rewrite bulk_all]. intros _. apply wp_ret. by rewrite bulk_values. Qed.

(** ** What a write leaves *)

Lemma hash_at_put key h m : hash_at key (put key (VHash h) m) = h.
Proof. unfold hash_at. by rewrite put_at. Qed.
Lemma set_at_put key s m : set_at key (put key (VSet s) m) = s.
Proof. unfold set_at. by rewrite put_at. Qed.
Lemma list_at_put key l m : list_at key (put key (VList l) m) = l.
Proof. unfold list_at. by rewrite put_at. Qed.
Lemma has_type_put key v m : has_type (type_of v) key (put key v m).
Proof. unfold has_type. by rewrite put_at. Qed.
End TypedCommands.

(** The operations of the store, by their lemmas. *)
Create HintDb store_ops discriminated.
#[export] Hint Resolve does_hset does_hget does_hexists does_hmget does_hlen does_hdel does_hsetnx
  does_sadd does_srem does_sismember does_scard does_smove
  does_lpush does_rpush does_llen does_lindex does_lrange does_lpop does_rpop does_lset does_linsert does_ltrim does_lrem
  does_exists does_type does_del does_get does_set does_persist : store_ops.
#[export] Hint Extern 1 (_ ≤ horizon)%Z => lia : store_ops.
#[export] Hint Extern 1 (has_type _ _ _) => assumption : store_ops.

(** Steps of a handler in a calm context. *)
Ltac st_step :=
  lazymatch goal with
  | |- wp (mbind _ _) _ _ => apply wp_bind
  | |- wp (mret _) _ _ => apply wp_ret
  | |- wp (require true _) _ _ => apply wp_require; [intros _|discriminate]
  | |- wp (require false _) _ _ => apply wp_require; [discriminate|intros _]
  | |- wp (require _ _) _ _ => apply wp_require; [let E := fresh "E" in intros E; try discriminate E|let E := fresh "E" in intros E; try discriminate E]
  | |- wp (need _ _) _ _ => apply wp_need; [intros ? ?|intros ?]
  | |- wp (bulk_args _ _) _ _ => cbn [cmd_args]; rewrite ?bulk_drop; apply wp_bulk_args
  | H : stands ?c ?m |- wp (LogToAof _ _) _ ?c => apply (wp_logging _ _ c m _ H); clear H; intros ? H
  | H : stands ?c ?m |- wp (on_db _) _ ?c => eapply (wp_does _ c m _ _ _ H); [solve [eauto with store_ops]|clear H; intros ? H]
  end; cbv beta iota zeta.

(** The rule for the answer at hand. *)
Ltac st_end :=
  lazymatch goal with
  | H : stands ?c ?m |- follows _ _ _ _ (inl ?r) ?c => refine (follows_ret _ _ _ _ r m c _ H); try reflexivity
  | H : stands ?c ?m |- follows _ _ _ _ (inr (Returned ?r)) ?c => refine (follows_stop _ _ _ _ r m c _ H); try reflexivity
  end.

(** A handler without a loop, for up to four arguments. *)
Ltac st_auto :=
  let now := fresh "now" in let name := fresh "name" in let args := fresh "args" in let Hn := fresh "Hn" in let Hok := fresh "Hok" in
  intros now name args c m Hn Hs Hok; destruct args as [|k [|f [|x [|y [|z args]]]]]; cbn in Hok;
  cbn [fmap list_fmap length ArgCount cmd_args Nat.eqb]; repeat st_step; try st_end.
