(* ===== verification/StringContract.v ===== *)
(** * The rules of string commands on the typed store

    GET, SET with its options, DEL, EXISTS and the commands on one string, beside
    the other types. *)
From S2P Require Import Prelude.
From S2P Require Import Simd.
From S2P Require Import Numbers.
From S2P Require Import Text.
From S2P Require Import RespTypes.
From S2P Require Import Executor.
From S2P Require Import KeyMetadata.
From S2P Require Import Rocks.
From S2P Require Import Database.
From S2P Require Import DatabaseTypes.
From S2P Require Import DatabaseStrings.
From S2P Require Import ClusterConfig.
From S2P Require Import Commands.
From S2P Require Import StringCommands.
From S2P Require Import StringLog.
From S2P Require Import TypedStore.
From S2P Require Import TypedContainers.
From S2P Require Import TypedCommands.

Section StringContract.
Context {P : Platform} {HD : DoubleText} {HZ : Horizon}.
Implicit Types (c : Ctx) (m : store) (key : bytes) (now : Z) (args : list bytes).

Definition rule_get : rule := det (λ now args m,
  match args with [key] => (reply_opt (str_at key m), m) | _ => error (wrong_number (B "GET")) m end).

(** The expiry time of the key stays when none is given. *)
Definition rule_set : rule := det (λ now args m,
  match args with
  | key :: x :: opts =>
      match set_options now (bulk <$> opts) false false None with
      | inr message => error message m
      | inl (nx, xx, expire) =>
          let present := bool_decide (is_Some (str_at key m)) in
          if nx && xx then error (B "ERR NX and XX options at the same time are not compatible") m
          else if nx && present || xx && negb present then (reply_nil, m)
          else
            let m := put key (VStr x) m in
            (ok_response, match expire with Some t => set_deadline key (Some t) m | None => m end)
      end
  | _ => error (wrong_number (B "SET")) m
  end).

(** The key is a string, and its expiry time after the horizon. *)
Definition set_ok now args m : Prop :=
  key_is kString now args m ∧
  ∀ nx xx t, set_options now (bulk <$> drop 2 args) false false None = inl (nx, xx, Some t) → (0 < t ∧ horizon < t)%Z.

Definition rule_del : rule := det (λ now args m,
  match args with
  | [] => error (wrong_number (B "DEL")) m
  | _ => let m' := foldl (λ m k, delete k m) m args in (reply_int (Z.of_nat (size m) - Z.of_nat (size m')), m')
  end).
Definition rule_exists : rule := det (λ now args m,
  match args with
  | [] => error (wrong_number (B "EXISTS")) m
  | _ => (reply_int (Z.of_nat (length (filter (λ k, is_Some (m !! k)) args))), m)
  end).
Definition rule_append : rule := det (λ now args m,
  match args with
  | [key; x] => let s := default [] (str_at key m) ++ x in (reply_int (zlen s), put key (VStr s) m)
  | _ => error (wrong_number (B "APPEND")) m
  end).

(** INCR, DECR, INCRBY and DECRBY: the sum wraps. *)
Definition added (key : bytes) (delta : Z) m : CommandResult * store :=
  match match str_at key m with None => Some 0%Z | Some s => SimpleAtoi s end with
  | None => error not_integer m
  | Some n => (reply_int (i64 (n + delta)), put key (VStr (print_int (i64 (n + delta)))) m)
  end.
Definition rule_incr (name : bytes) (delta : Z) : rule := det (λ now args m,
  match args with [key] => added key delta m | _ => error (wrong_number name) m end).
Definition rule_incrby (name : bytes) (sign : Z) : rule := det (λ now args m,
  match args with
  | [key; x] => match SimpleAtoi x with Some d => added key (sign * d) m | None => error not_integer m end
  | _ => error (wrong_number name) m
  end).

(** ** The handlers *)

Lemma wp_put now key s c m (Q : () + outcome → Ctx → Prop) :
  stands c m → has_type kString key m → (∀ c', stands c' (put key (VStr s) m) → Q (inl ()) c') → wp (put_db (DbSet now key s)) Q c.
Proof. intros Hs Ht HQ. unfold put_db. eapply (wp_does _ c m _ _ _ Hs); [by apply does_set|done]. Qed.

Lemma wp_cluster c m (Q : option ClusterState + outcome → Ctx → Prop) : stands c m → Q (inl None) c → wp cluster_of Q c.
Proof. intros [(_ & Hc & _) _] HQ. unfold wp, cluster_of. cbn [fst snd]. by rewrite Hc. Qed.

Lemma get_serves : serves any_args HandleGet rule_get.
Proof.
  unfold HandleGet. st_auto. apply (wp_cluster c m _ Hs). unfold CheckKeyRedirect. cbn [from_option mbind option_bind]. repeat st_step. st_end.
Qed.

Lemma set_serves : serves set_ok HandleSet rule_set.
Proof.
  unfold HandleSet. intros now name args c m Hn Hs [Hok Hd]. destruct args as [|k [|x opts]]; repeat st_step; try st_end.
  change (drop 2 (k :: x :: opts)) with opts in Hd. change (drop 2 _) with (bulk <$> opts).
  change (arg_text 0 _) with k. change (arg_text 1 _) with x. unfold rule_set.
  destruct (set_options now (bulk <$> opts) false false None) as [[[nx xx] expire]|message] eqn:Eo.
  2: { unfold fail, stop, wp. cbn [fst snd]. st_end. unfold det. by rewrite Eo. }
  st_step. repeat st_step.
  2: { st_end. unfold det. rewrite Eo. apply negb_false_iff in E1. by rewrite E1. }
  apply negb_true_iff in E1. destruct (nx && bool_decide (is_Some (str_at k m))) eqn:E2.
  { st_step. st_end. unfold det. rewrite Eo, E1. cbv zeta. by rewrite E2. }
  destruct (xx && negb (bool_decide (is_Some (str_at k m)))) eqn:E3.
  { st_step. st_end. unfold det. rewrite Eo, E1. cbv zeta. by rewrite E2, E3. }
  apply wp_bind. apply (wp_put now k x c' m _ Hs Hok). clear Hs. intros c1 Hs.
  destruct expire as [t|]; repeat st_step.
  - destruct (Hd nx xx t eq_refl) as [H0 Hh]. eapply (wp_does _ c1 _ _ _ _ Hs); [by apply does_set_expire|]. clear Hs. intros c2 Hs.
    repeat st_step. st_end. unfold det. rewrite Eo, E1. cbv zeta. by rewrite E2, E3.
  - st_end. unfold det. rewrite Eo, E1. cbv zeta. by rewrite E2, E3.
Qed.

Lemma does_delmany keys m :
  does (DbDelMany keys) m (Z.of_nat (size m) - Z.of_nat (size (foldl (λ m k, delete k m) m keys)))%Z (foldl (λ m k, delete k m) m keys).
Proof.
  intros db H. unfold DbDelMany. change (Z.of_nat (size m) - Z.of_nat (size (foldl (λ m k, delete k m) m keys)))%Z
    with (0 + (Z.of_nat (size m) - Z.of_nat (size (foldl (λ m k, delete k m) m keys))))%Z. generalize 0%Z as n. revert m db H.
  induction keys as [|k keys IH]; intros m db H n; cbn [foldl fst snd]; [split; [done|lia]|].
  destruct (does_del k m db H) as [H1 E1]. destruct (DbDel k db) as [db1 b]. cbn [fst snd] in *. subst b.
  destruct (IH (delete k m) db1 H1 (if bool_decide (is_Some (m !! k)) then n + 1 else n)%Z) as [H2 E2]. split; [done|]. rewrite E2.
  destruct (m !! k) as [x|] eqn:Ek.
  - rewrite bool_decide_eq_true_2 by (by eexists). assert (Hz : size m = S (size (delete k m))); [|lia].
    rewrite <- (insert_delete_id _ _ _ Ek) at 1. rewrite map_size_insert_None; [done|apply lookup_delete_eq].
  - rewrite bool_decide_eq_false_2 by (by intros [? ?]). by rewrite delete_id.
Qed.

Lemma del_serves : serves any_args HandleDel rule_del.
Proof.
  unfold HandleDel. intros now name args c m Hn Hs Hok. destruct args as [|k keys]; [repeat st_step; st_end|]. st_step. st_step. st_step.
  cbn [cmd_args]. rewrite bulk_all, bulk_values. repeat st_step.
  eapply (wp_does _ c m _ _ _ Hs); [apply does_delmany|]. clear Hs. intros c' Hs. repeat st_step. st_end.
Qed.

Lemma exists_loop_wp now keys c m (Q : Z + outcome → Ctx → Prop) : (now ≤ horizon)%Z → ∀ n,
  stands c m → (∀ c', stands c' m → Q (inl (n + Z.of_nat (length (filter (λ k, is_Some (m !! k)) keys)))%Z) c') →
  wp (mfold (λ count a,
      _ ← require (is_bulk a) (B "ERR wrong type of key argument");
      t ← on_db (DbGetType now (arg_value a));
      mret (if bool_decide (is_Some t) then count + 1 else count)%Z) n (bulk <$> keys)) Q c.
Proof.
  intros Hn. revert c. induction keys as [|k keys IH]; intros c n Hs HQ.
  - apply wp_ret. specialize (HQ c Hs). cbn in HQ. by rewrite Z.add_0_r in HQ.
  - cbn [fmap list_fmap mfold]. repeat st_step. cbn [arg_value bulk] in *. apply (IH c'); [done|]. intros c2 H2.
    match goal with |- Q (inl ?a) _ => replace a with (n + Z.of_nat (length (filter (λ k, is_Some (m !! k)) (k :: keys))))%Z end; [by apply HQ|].
    rewrite filter_cons. destruct (m !! k) as [x|]; cbn [fmap option_fmap option_map].
    + rewrite decide_True by (by eexists). rewrite bool_decide_eq_true_2 by (by eexists). cbn [length]. lia.
    + rewrite decide_False by (by intros [? ?]). rewrite bool_decide_eq_false_2 by (by intros [? ?]). lia.
Qed.

Lemma exists_serves : serves any_args HandleExists rule_exists.
Proof.
  unfold HandleExists. intros now name args c m Hn Hs Hok. destruct args as [|k keys]; [repeat st_step; st_end|]. st_step. st_step. st_step.
  apply (exists_loop_wp now (k :: keys) c m); [lia|done|]. clear Hs. intros c' Hs. st_step. st_end.
Qed.

Lemma append_serves : serves (key_is kString) HandleAppend rule_append.
Proof.
  unfold HandleAppend. st_auto. change (arg_text 0 _) with k in *. change (arg_text 1 _) with f. apply (wp_put now k _ c' m _ Hs Hok).
  clear Hs. intros c1 Hs. repeat st_step. st_end.
Qed.

Lemma add_to_wp now key delta c m (Q : Z + outcome → Ctx → Prop) :
  stands c m → has_type kString key m →
  (∀ n m' c', added key delta m = (reply_int n, m') → stands c' m' → Q (inl n) c') →
  (∀ c', added key delta m = error not_integer m → stands c' m → Q (inr (Returned (Failure not_integer))) c') →
  wp (add_to now key delta) Q c.
Proof.
  intros Hs Ht H1 H2. unfold add_to, added, number_of in *. repeat st_step. destruct (str_at key m) as [s|] eqn:Es.
  - st_step.
    + rewrite H in *. st_step. apply (wp_put now key _ c' m _ Hs Ht). clear Hs. intros c1 Hs. st_step. by eapply H1.
    + rewrite H in *. by apply H2.
  - st_step. st_step. apply (wp_put now key _ c' m _ Hs Ht). clear Hs. intros c1 Hs. st_step. by eapply H1.
Qed.

Lemma incr_serves : serves (key_is kString) HandleIncr (rule_incr (B "INCR") 1).
Proof.
  unfold HandleIncr. st_auto. apply (add_to_wp now k 1 c m); [done|done| |]; clear Hs.
  - intros n m' c' Hr Hs. repeat st_step. st_end. exact Hr.
  - intros c' Hr Hs. st_end. exact Hr.
Qed.
Lemma decr_serves : serves (key_is kString) HandleDecr (rule_incr (B "DECR") (-1)).
Proof.
  unfold HandleDecr. st_auto. apply (add_to_wp now k (-1) c m); [done|done| |]; clear Hs.
  - intros n m' c' Hr Hs. repeat st_step. st_end. exact Hr.
  - intros c' Hr Hs. st_end. exact Hr.
Qed.
Lemma incrby_serves : serves (key_is kString) HandleIncrBy (rule_incrby (B "INCRBY") 1).
Proof.
  unfold HandleIncrBy. st_auto; change (arg_text 1 _) with f in *; unfold rule_incrby, det; [|by rewrite H].
  apply (add_to_wp now k y c m); [done|done| |]; clear Hs.
  - intros n m' c' Hr Hs. repeat st_step. st_end. by rewrite H, Z.mul_1_l.
  - intros c' Hr Hs. st_end. by rewrite H, Z.mul_1_l.
Qed.
Lemma decrby_serves : serves (key_is kString) HandleDecrBy (rule_incrby (B "DECRBY") (-1)).
Proof.
  unfold HandleDecrBy. st_auto; change (arg_text 1 _) with f in *; unfold rule_incrby, det; [|by rewrite H].
  apply (add_to_wp now k (- y) c m); [done|done| |]; clear Hs.
  - intros n m' c' Hr Hs. repeat st_step. st_end. rewrite H. by replace (-1 * y)%Z with (- y)%Z by lia.
  - intros c' Hr Hs. st_end. rewrite H. by replace (-1 * y)%Z with (- y)%Z by lia.
Qed.
End StringContract.
