(* ===== verification/HashContract.v ===== *)
(** * The rules of the hash commands

    For each handler of [HashCommands] on fields and values, what it answers and
    leaves for every list of bulk strings, and that the handler follows it. *)
From Stdlib Require Import SpecFloat.
From S2P Require Import Prelude.
From S2P Require Import Simd.
From S2P Require Import Numbers.
From S2P Require Import Text.
From S2P Require Import RespTypes.
From S2P Require Import Executor.
From S2P Require Import KeyMetadata.
From S2P Require Import Rocks.
From S2P Require Import Database.
From S2P Require Import DatabaseTypes.
From S2P Require Import Commands.
From S2P Require Import StringCommands.
From S2P Require Import HashCommands.
From S2P Require Import StringLog.
From S2P Require Import TypedStore.
From S2P Require Import TypedCommands.

Section HashContract.
Context {P : Platform} {HD : DoubleText} {HZ : Horizon}.
Implicit Types (c : Ctx) (m : store) (key : bytes) (now : Z) (args : list bytes).

(** How many more entries. *)
Definition grown (h h' : gmap bytes bytes) : Z := Z.of_nat (size h') - Z.of_nat (size h).

(** HSET and HMSET: fields with values, one after the other. *)
Definition hash_set (name : bytes) (reply : Z → CommandResult) now args m : CommandResult * store :=
  match args with
  | key :: ((_ :: _ :: _) as fvs) =>
      if Nat.even (length fvs) then
        let h := hash_at key m in
        let h' := set_pairs fvs h in
        (reply (grown h h'), put key (VHash h') m)
      else error (wrong_number name) m
  | _ => error (wrong_number name) m
  end.
Definition rule_hset : rule := det (hash_set (B "HSET") reply_int).
Definition rule_hmset : rule := det (hash_set (B "HMSET") (λ _, ok_response)).

Definition rule_hget : rule := det (λ now args m,
  match args with [key; f] => (reply_opt (hash_at key m !! f), m) | _ => error (wrong_number (B "HGET")) m end).
Definition rule_hexists : rule := det (λ now args m,
  match args with
  | [key; f] => (reply_bool (bool_decide (is_Some (hash_at key m !! f))), m)
  | _ => error (wrong_number (B "HEXISTS")) m
  end).
Definition rule_hstrlen : rule := det (λ now args m,
  match args with [key; f] => (reply_int (zlen (default [] (hash_at key m !! f))), m) | _ => error (wrong_number (B "HSTRLEN")) m end).
Definition rule_hlen : rule := det (λ now args m,
  match args with [key] => (reply_int (i64 (Z.of_nat (size (hash_at key m)))), m) | _ => error (wrong_number (B "HLEN")) m end).
Definition rule_hmget : rule := det (λ now args m,
  match args with
  | key :: ((_ :: _) as fs) => (reply_array ((λ f, value_or_null (hash_at key m !! f)) <$> fs), m)
  | _ => error (wrong_number (B "HMGET")) m
  end).
Definition rule_hdel : rule := det (λ now args m,
  match args with
  | key :: ((_ :: _) as fs) =>
      (reply_int (grown (drop_fields fs (hash_at key m)) (hash_at key m)), change key (on_fields (drop_fields fs)) m)
  | _ => error (wrong_number (B "HDEL")) m
  end).

(** A value that is no number is left, and the answer is zero. *)
Definition rule_hincrby : rule := det (λ now args m,
  match args with
  | [key; f; x] =>
      match SimpleAtoi x with
      | None => error not_integer m
      | Some n =>
          match match hash_at key m !! f with Some s => SimpleAtoi s | None => Some 0%Z end with
          | None => (reply_int 0, m)
          | Some k => (reply_int (i64 (k + n)), put key (VHash (<[f := print_int (i64 (k + n))]> (hash_at key m))) m)
          end
      end
  | _ => error (wrong_number (B "HINCRBY")) m
  end).
Definition rule_hincrbyfloat : rule := det (λ now args m,
  match args with
  | [key; f; x] =>
      match atod x with
      | None => error (B "ERR value is not a valid float") m
      | Some n =>
          match match hash_at key m !! f with Some s => atod s | None => Some d0_0 end with
          | None => (Success (resp_double d0_0), m)
          | Some k =>
              (Success (resp_double (double_add k n)),
               put key (VHash (<[f := trim_fixed (print_fixed 17 (double_add k n))]> (hash_at key m))) m)
          end
      end
  | _ => error (wrong_number (B "HINCRBYFLOAT")) m
  end).
Definition rule_hsetnx : rule := det (λ now args m,
  match args with
  | [key; f; x] =>
      let h := hash_at key m in
      if decide (h !! f = None) then (reply_bool true, put key (VHash (<[f := x]> h)) m) else (reply_bool false, m)
  | _ => error (wrong_number (B "HSETNX")) m
  end).

(** The pairs in some order. *)
Definition rule_pairs (name : bytes) (f : bytes * bytes → list RespValue) : rule := λ now args m r m',
  m' = m ∧
  match args with
  | [key] => ∃ l, l ≡ₚ map_to_list (hash_at key m) ∧ r = reply_array (concat (f <$> l))
  | _ => r = Failure (wrong_number name)
  end.

(** ** The handlers *)

Lemma hget_serves : serves any_args HandleHGet rule_hget.
Proof. unfold HandleHGet. st_auto. Qed.
Lemma hexists_serves : serves any_args HandleHExists rule_hexists.
Proof. unfold HandleHExists. st_auto. Qed.
Lemma hstrlen_serves : serves any_args HandleHStrLen rule_hstrlen.
Proof. unfold HandleHStrLen. st_auto. Qed.
Lemma hlen_serves : serves any_args HandleHLen rule_hlen.
Proof. unfold HandleHLen. st_auto. unfold rule_hlen, det. by rewrite i64_u64. Qed.
Lemma hmget_serves : serves any_args HandleHMGet rule_hmget.
Proof. 
  unfold HandleHMGet. intros now name args c m Hn Hs Hok. destruct args as [|k [|f args]]; repeat st_step; try st_end.
  apply (f_equal (λ l, (reply_array l, m))). exact (list_fmap_compose (λ f, hash_at k m !! f) value_or_null (f :: args)).
Qed.
Lemma hdel_serves : serves any_args HandleHDel rule_hdel.
Proof. 
  unfold HandleHDel. intros now name args c m Hn Hs Hok. destruct args as [|k [|f args]]; repeat st_step; try st_end.
Qed.
Lemma hsetnx_serves : serves (key_is kHash) HandleHSetNx rule_hsetnx.
Proof.
  unfold HandleHSetNx. st_auto. change (arg_text 0 _) with k. change (arg_text 1 _) with f. change (arg_text 2 _) with x.
  unfold rule_hsetnx, det. cbv zeta. destruct (decide (hash_at k m !! f = None)); [by rewrite bool_decide_eq_true_2|by rewrite bool_decide_eq_false_2].
Qed.

(** A hash with a field is there. *)
Lemma put_same key h m f x : hash_at key m = h → h !! f = Some x → put key (VHash h) m = m.
Proof.
  unfold hash_at, put, deadline_of. intros Eh Ef. destruct (m !! key) as [[[] e]|] eqn:Em; subst; try done. by rewrite insert_id.
Qed.

Lemma hincrby_serves : serves (key_is kHash) HandleHIncrBy rule_hincrby.
Proof.
  unfold HandleHIncrBy. st_auto.
  - rename y into n, H into En. change (arg_text 2 _) with x in En. change (arg_text 0 _) with k. change (arg_text 1 _) with f.
    assert (Hd := does_hincrby k f n m Hok). cbv zeta in Hd. set (old := match hash_at k m !! f with Some s => _ | None => _ end) in *.
    assert (Eo : old = match hash_at k m !! f with Some s => SimpleAtoi s | None => Some 0%Z end) by done. clearbody old. destruct old as [z|].
    + eapply (wp_does _ c m _ _ _ Hs Hd). clear Hs. intros c' Hs. st_step. st_end. unfold rule_hincrby, det. by rewrite En, <- Eo.
    + eapply (wp_does _ c m _ _ _ Hs Hd). clear Hs. intros c' Hs. destruct (hash_at k m !! f) as [s|] eqn:Ef; [|done].
      rewrite (put_same k _ m f s eq_refl Ef) in Hs. st_step. st_end. unfold rule_hincrby, det. by rewrite En, Ef, <- Eo.
  - unfold rule_hincrby, det. change (arg_text 2 _) with x in *. by rewrite H.
Qed.

Lemma hincrbyfloat_serves : serves (key_is kHash) HandleHIncrByFloat rule_hincrbyfloat.
Proof.
  unfold HandleHIncrByFloat. st_auto.
  - rename y into n, H into En. change (arg_text 2 _) with x in En. change (arg_text 0 _) with k. change (arg_text 1 _) with f.
    assert (Hd := does_hincrbyfloat k f n m Hok). cbv zeta in Hd. set (old := match hash_at k m !! f with Some s => _ | None => _ end) in *.
    assert (Eo : old = match hash_at k m !! f with Some s => atod s | None => Some d0_0 end) by done. clearbody old. destruct old as [z|].
    + eapply (wp_does _ c m _ _ _ Hs Hd). clear Hs. intros c' Hs. repeat st_step. st_end. unfold rule_hincrbyfloat, det. by rewrite En, <- Eo.
    + eapply (wp_does _ c m _ _ _ Hs Hd). clear Hs. intros c' Hs. destruct (hash_at k m !! f) as [s|] eqn:Ef; [|done].
      rewrite (put_same k _ m f s eq_refl Ef) in Hs. repeat st_step. st_end. unfold rule_hincrbyfloat, det. by rewrite En, Ef, <- Eo.
  - unfold rule_hincrbyfloat, det. change (arg_text 2 _) with x in *. by rewrite H.
Qed.

Lemma pairs_serves name f : serves any_args (all_pairs name f) (rule_pairs name f).
Proof.
  unfold all_pairs. intros now name' args c m Hn Hs Hok. destruct args as [|k [|x args]]; repeat st_step; try st_end; try (by split).
  eapply (wp_does _ c m _ _ _ Hs); [apply does_hgetall; lia|]. clear Hs. intros c' Hs. st_step. st_end. split; [done|].
  eexists. by split.
Qed.

(** The loop of HSET. *)
Lemma hset_loop_wp now key message fvs : ∀ c m n (Q : Z + outcome → Ctx → Prop),
  stands c m → has_type kHash key m → Nat.even (length fvs) = true →
  (∀ c', stands c' (match fvs with [] => m | _ => put key (VHash (set_pairs fvs (hash_at key m))) m end) →
     Q (inl (n + grown (hash_at key m) (set_pairs fvs (hash_at key m)))%Z) c') →
  wp (hset_loop now key message (bulk <$> fvs) n) Q c.
Proof.
  induction fvs as [|f|f x fvs IH] using list_pair_ind; intros c m n Q Hs Ht He HQ; [|done|].
  - apply wp_ret. replace n with (n + grown (hash_at key m) (set_pairs [] (hash_at key m)))%Z by (unfold grown; cbn; lia). by apply HQ.
  - cbn [fmap list_fmap hset_loop]. repeat st_step. clear E. set (m1 := put key (VHash (<[_ := _]> _)) m) in Hs.
    assert (Eh : hash_at key m1 = <[f := x]> (hash_at key m)) by apply hash_at_put.
    apply (IH c' m1); [done|apply (has_type_put key (VHash _) m)|done|]. intros c2 H2. rewrite Eh in H2 |- *.
    assert (En : (count_if (bool_decide (hash_at key m !! f = None)) n + grown (<[f := x]> (hash_at key m)) (set_pairs fvs (<[f := x]> (hash_at key m))) =
      n + grown (hash_at key m) (set_pairs (f :: x :: fvs) (hash_at key m)))%Z).
    { unfold count_if, grown. cbn [set_pairs]. destruct (hash_at key m !! f) as [y|] eqn:Ef.
      - rewrite bool_decide_eq_false_2 by done. rewrite map_size_insert_Some by (by eexists). lia.
      - rewrite bool_decide_eq_true_2 by done. rewrite map_size_insert_None by done. lia. }
    cbn [arg_value bulk]. rewrite En. apply HQ. cbn [set_pairs]. destruct fvs; [done|]. unfold m1 in H2. by rewrite put_put in H2.
Qed.

Lemma hash_set_serves name guard reply :
  (∀ n, guard n = negb ((n <? 3) || negb ((n - 1) mod 2 =? 0))) →
  ∀ message,
  serves (key_is kHash) (λ now cmd,
    _ ← require (guard (ArgCount cmd)) (wrong_number name);
    _ ← require (is_bulk (arg 0 cmd)) (B "ERR wrong type of key argument");
    added ← hset_loop now (arg_text 0 cmd) message (drop 1 (cmd_args cmd)) 0;
    mret (reply added)) (det (hash_set name reply)).
Proof.
  intros Hg message now name' args c m Hn Hs Hok. cbv beta. rewrite Hg.
  destruct args as [|k [|f [|x fvs]]]; [repeat st_step; st_end..|].
  assert (El : ArgCount (MkCommand name' (bulk <$> (k :: f :: x :: fvs))) = S (S (S (length fvs)))) by (unfold ArgCount; cbn; by rewrite length_map).
  rewrite El.
  assert (Em : ((S (S (S (length fvs))) - 1) mod 2 =? 0) = Nat.even (length fvs)).
  { replace (S (S (S (length fvs))) - 1) with (length fvs + 1 * 2) by lia. rewrite Nat.Div0.mod_add. symmetry.
    destruct (Nat.even (length fvs)) eqn:E; symmetry; [apply Nat.eqb_eq|apply Nat.eqb_neq].
    - apply Nat.even_spec in E as [z ->]. by rewrite Nat.mul_comm, Nat.Div0.mod_mul.
    - intros E'. apply Nat.Lcm0.mod_divide in E' as [z E']. rewrite E', Nat.even_mul, orb_true_r in E. done. }
  rewrite Em. apply wp_bind. destruct (Nat.even (length fvs)) eqn:E.
  - repeat st_step. change (drop 1 _) with (bulk <$> (f :: x :: fvs)).
    apply (hset_loop_wp now k _ (f :: x :: fvs) c m 0); [done|done|done|]. clear Hs. intros c' Hs. st_step. st_end. 
    unfold det, hash_set. change (Nat.even (length (f :: x :: fvs))) with (Nat.even (length fvs)). by rewrite E.
  - repeat st_step. st_end. unfold det, hash_set. change (Nat.even (length (f :: x :: fvs))) with (Nat.even (length fvs)). by rewrite E.
Qed.

Lemma hset_serves : serves (key_is kHash) HandleHSet rule_hset.
Proof. by apply (hash_set_serves (B "HSET") (λ n, negb ((n <? 3) || negb ((n - 1) mod 2 =? 0)))). Qed.

Lemma hmset_serves : serves (key_is kHash) HandleHMSet rule_hmset.
Proof.
  apply (hash_set_serves (B "HMSET") (λ n, negb ((n <? 3) || (n mod 2 =? 0))) (λ _, ok_response)).
  intros n. f_equal. destruct (n <? 3) eqn:E; [done|]. b2p. cbn [orb]. assert (Hm := Nat.mod_upper_bound n 2 ltac:(lia)).
  assert (Hn := Nat.div_mod_eq n 2). assert (Hm' := Nat.mod_upper_bound (n - 1) 2 ltac:(lia)). assert (Hn' := Nat.div_mod_eq (n - 1) 2).
  destruct (n mod 2 =? 0) eqn:E1; destruct ((n - 1) mod 2 =? 0) eqn:E2; b2p; try done; lia.
Qed.
End HashContract.
