(* ===== verification/SetContract.v ===== *)
(** * The rules of the set commands

    For the handlers of [SetCommands], what they answer and leave for every list of
    bulk strings, and that they follow it.  Members come in some order, and SPOP
    and SRANDMEMBER take any member. *)
From S2P Require Import Prelude.
From S2P Require Import Simd.
From S2P Require Import Numbers.
From S2P Require Import Text.
From S2P Require Import RespTypes.
From S2P Require Import Executor.
From S2P Require Import KeyMetadata.
From S2P Require Import Eviction.
From S2P Require Import Rocks.
From S2P Require Import Database.
From S2P Require Import DatabaseTypes.
From S2P Require Import Commands.
From S2P Require Import StringCommands.
From S2P Require Import HashCommands.
From S2P Require Import SetCommands.
From S2P Require Import StringLog.
From S2P Require Import TypedStore.
From S2P Require Import TypedContainers.
From S2P Require Import TypedCommands.

Section SetContract.
Context {P : Platform} {HD : DoubleText} {HZ : Horizon}.
Implicit Types (c : Ctx) (m : store) (key : bytes) (now : Z) (args : list bytes).

Definition rule_sadd : rule := det (λ now args m,
  match args with
  | key :: ((_ :: _) as xs) =>
      let s := set_at key m in
      let s' := s ∪ list_to_set xs in
      (reply_int (Z.of_nat (size s') - Z.of_nat (size s)), put key (VSet s') m)
  | _ => error (wrong_number (B "SADD")) m
  end).
Definition rule_srem : rule := det (λ now args m,
  match args with
  | key :: ((_ :: _) as xs) =>
      let s := set_at key m in
      (reply_int (Z.of_nat (size s) - Z.of_nat (size (s ∖ list_to_set xs))), change key (on_members (λ s, s ∖ list_to_set xs)) m)
  | _ => error (wrong_number (B "SREM")) m
  end).
Definition rule_sismember : rule := det (λ now args m,
  match args with
  | [key; x] => (reply_bool (bool_decide (x ∈ set_at key m)), m)
  | _ => error (wrong_number (B "SISMEMBER")) m
  end).
Definition rule_smismember : rule := det (λ now args m,
  match args with
  | key :: ((_ :: _) as xs) => (reply_array ((λ x, resp_int (if bool_decide (x ∈ set_at key m) then 1 else 0)) <$> xs), m)
  | _ => error (wrong_number (B "SMISMEMBER")) m
  end).
Definition rule_scard : rule := det (λ now args m,
  match args with [key] => (reply_int (i64 (Z.of_nat (size (set_at key m)))), m) | _ => error (wrong_number (B "SCARD")) m end).
Definition rule_smove : rule := det (λ now args m,
  match args with
  | [source; destination; x] =>
      if decide (x ∈ set_at source m) then
        let m := change source (on_members (λ s, s ∖ {[x]})) m in
        (reply_bool true, put destination (VSet ({[x]} ∪ set_at destination m)) m)
      else (reply_bool false, m)
  | _ => error (wrong_number (B "SMOVE")) m
  end).

Definition rule_smembers : rule := λ now args m r m',
  m' = m ∧
  match args with
  | [key] => ∃ l, lists_members l (set_at key m) ∧ r = reply_strings l
  | _ => r = Failure (wrong_number (B "SMEMBERS"))
  end.

(** A member that there is, and nothing only when there is none. *)
Definition picks (name : bytes) (after : bytes → bytes → store → store) : rule := λ now args m r m',
  match args with
  | key :: _ =>
      (∃ x, x ∈ set_at key m ∧ r = reply_bulk x ∧ m' = after key x m) ∨
      (u64 (Z.of_nat (size (set_at key m))) = 0%Z ∧ r = Success (resp_of_type kNull) ∧ m' = m)
  | [] => r = Failure (wrong_number name) ∧ m' = m
  end.
Definition rule_spop : rule := picks (B "SPOP") (λ key x m, change key (on_members (λ s, s ∖ {[x]})) m).
Definition rule_srandmember : rule := picks (B "SRANDMEMBER") (λ _ _ m, m).

(** The members of a combination of sets. *)
Definition combines (name : bytes) (f : list bytes → store → gset bytes) : rule := λ now args m r m',
  m' = m ∧
  match args with
  | [] => r = Failure (wrong_number name)
  | _ => ∃ l, lists_members l (f args m) ∧ r = reply_strings l
  end.
Definition rule_sinter : rule := combines (B "SINTER") inter_sets.
Definition rule_sunion : rule := combines (B "SUNION") union_sets.
Definition rule_sdiff : rule := combines (B "SDIFF") diff_sets.

Definition stores (name : bytes) (f : list bytes → store → gset bytes) : rule := det (λ now args m,
  match args with
  | destination :: ((_ :: _) as keys) =>
      let s := f keys m in (reply_int (Z.of_nat (size s)), put destination (VSet s) m)
  | _ => error (wrong_number name) m
  end).
Definition rule_sinterstore : rule := stores (B "SINTERSTORE") inter_sets.
Definition rule_sunionstore : rule := stores (B "SUNIONSTORE") union_sets.
Definition rule_sdiffstore : rule := stores (B "SDIFFSTORE") diff_sets.

(** ** The handlers *)

Lemma sismember_serves : serves any_args HandleSIsMember rule_sismember.
Proof. unfold HandleSIsMember. st_auto. Qed.
Lemma scard_serves : serves any_args HandleSCard rule_scard.
Proof. unfold HandleSCard. st_auto. unfold rule_scard, det. by rewrite i64_u64. Qed.

Lemma smove_serves : serves (λ now args m, ∀ d, args !! 1 = Some d → has_type kSet d m) HandleSMove rule_smove.
Proof.
  unfold HandleSMove. st_auto. change (arg_text 0 _) with k. change (arg_text 1 _) with f. change (arg_text 2 _) with x.
  unfold rule_smove, det. destruct (decide (x ∈ set_at k m)); [by rewrite bool_decide_eq_true_2|by rewrite bool_decide_eq_false_2].
Qed.

Lemma smembers_serves : serves any_args HandleSMembers rule_smembers.
Proof.
  unfold HandleSMembers. intros now name args c m Hn Hs Hok. destruct args as [|k [|x args]]; repeat st_step; try st_end; try (by split).
  eapply (wp_may _ c m _ _ Hs); [apply may_smembers; lia|]. clear Hs. intros l m' c' [-> Hl] Hs. st_step. st_end. split; [done|].
  exists l. split; [|done]. by apply lists_members_elements.
Qed.

Lemma spop_serves {RO : RandomOk} r : serves any_args (HandleSPop r) rule_spop.
Proof.
  unfold HandleSPop. intros now name args c m Hn Hs Hok. destruct args as [|k args]; repeat st_step; try st_end; try (by split).
  eapply (wp_may _ c m _ _ Hs); [apply may_spop; lia|]. clear Hs. intros [[x|] r'] m' c' [Hx ->] Hs; cbn [fst] in *; repeat st_step; st_end.
  - left. by exists x.
  - by right.
Qed.
Lemma srandmember_serves {RO : RandomOk} r : serves any_args (HandleSRandMember r) rule_srandmember.
Proof.
  unfold HandleSRandMember. intros now name args c m Hn Hs Hok. destruct args as [|k args]; repeat st_step; try st_end; try (by split).
  eapply (wp_may _ c m _ _ Hs); [apply may_srandmember; lia|]. clear Hs. intros [[x|] r'] m' c' [-> Hx] Hs; cbn [fst] in *; repeat st_step; st_end.
  - left. by exists x.
  - by right.
Qed.

(** The loop of SADD. *)
Lemma sadd_loop_wp now key xs : ∀ c m n (Q : Z + outcome → Ctx → Prop),
  stands c m → has_type kSet key m →
  (∀ c', stands c' (match xs with [] => m | _ => put key (VSet (set_at key m ∪ list_to_set xs)) m end) →
     Q (inl (n + (Z.of_nat (size (set_at key m ∪ list_to_set xs)) - Z.of_nat (size (set_at key m))))%Z) c') →
  wp (member_loop (DbSAdd now key) (bulk <$> xs) n) Q c.
Proof.
  induction xs as [|x xs IH]; intros c m n Q Hs Ht HQ.
  - apply wp_ret. specialize (HQ c Hs). cbn in HQ. by rewrite union_empty_r_L, Z.sub_diag, Z.add_0_r in HQ.
  - cbn [fmap list_fmap member_loop]. repeat st_step. clear E. set (m1 := put key (VSet ({[_]} ∪ _)) m) in Hs. set (s := set_at key m) in *.
    assert (Es : set_at key m1 = {[x]} ∪ s) by apply set_at_put.
    apply (IH c' m1); [done|apply (has_type_put key (VSet _) m)|]. intros c2 H2. rewrite Es in H2 |- *. cbn [arg_value bulk].
    assert (En : ({[x]} ∪ s ∪ list_to_set xs) = s ∪ list_to_set (x :: xs)) by set_solver. rewrite En in *.
    assert (Ec : count_if (bool_decide (x ∉ s)) n = (n + (Z.of_nat (size ({[x]} ∪ s)) - Z.of_nat (size s)))%Z).
    { unfold count_if. case_bool_decide as Hx.
      - rewrite size_union, size_singleton by set_solver. lia.
      - replace ({[x]} ∪ s) with s by set_solver. lia. }
    rewrite Ec. match goal with |- Q (inl ?a) _ => replace a with (n + (Z.of_nat (size (s ∪ list_to_set (x :: xs))) - Z.of_nat (size s)))%Z by lia end.
    apply HQ. destruct xs; [|unfold m1 in H2; by rewrite put_put in H2].
    unfold m1 in H2. cbn [arg_value bulk] in H2. by replace (s ∪ list_to_set [x]) with ({[x]} ∪ s) by set_solver.
Qed.

Lemma sadd_serves : serves (key_is kSet) HandleSAdd rule_sadd.
Proof.
  unfold HandleSAdd. intros now name args c m Hn Hs Hok. destruct args as [|k [|x xs]]; repeat st_step; try st_end.
  change (drop 1 _) with (bulk <$> (x :: xs)). apply (sadd_loop_wp now k (x :: xs) c m 0); [done|done|]. clear Hs. intros c' Hs. st_step. st_end.
Qed.

(** Changes one after the other. *)
Lemma change_change key f g m : change key f (change key g m) = change key (λ v, f (g v)) m.
Proof.
  apply map_eq. intros k. unfold change. destruct (decide (k = key)) as [->|Hne].
  - rewrite !lookup_alter_eq. by destruct (m !! key).
  - by rewrite !lookup_alter_ne.
Qed.
Lemma change_ext key f g m : (∀ v, f v = g v) → change key f m = change key g m.
Proof.
  intros E. apply map_eq. intros k. unfold change. destruct (decide (k = key)) as [->|Hne]; [|by rewrite !lookup_alter_ne].
  rewrite !lookup_alter_eq. destruct (m !! key); [|done]. cbn. by rewrite E.
Qed.
Lemma set_at_change key g m : g ∅ = ∅ → set_at key (change key (on_members g) m) = g (set_at key m).
Proof.
  intros Hg. unfold set_at, change. rewrite lookup_alter_eq. by destruct (m !! key) as [[[] e]|].
Qed.

Lemma srem_loop_wp now key xs : (now ≤ horizon)%Z → ∀ c m n (Q : Z + outcome → Ctx → Prop),
  stands c m →
  (∀ c', stands c' (change key (on_members (λ s, s ∖ list_to_set xs)) m) →
     Q (inl (n + (Z.of_nat (size (set_at key m)) - Z.of_nat (size (set_at key m ∖ list_to_set xs))))%Z) c') →
  wp (member_loop (DbSRem now key) (bulk <$> xs) n) Q c.
Proof.
  intros Hn. induction xs as [|x xs IH]; intros c m n Q Hs HQ.
  - apply wp_ret. assert (E : ∀ s : gset bytes, s ∖ list_to_set [] = s) by set_solver. rewrite E, Z.sub_diag, Z.add_0_r in HQ. apply HQ.
    rewrite (change_ext _ _ (on_members (λ s, s))); [by rewrite same_members|]. intros []; try done. cbn. by rewrite E.
  - cbn [fmap list_fmap member_loop]. repeat st_step. clear E. cbn [arg_value bulk] in *. set (s := set_at key m) in *.
    apply (IH c' _ _ _ Hs). intros c2 H2. rewrite set_at_change by set_solver. fold s.
    assert (En : s ∖ {[x]} ∖ list_to_set xs = s ∖ list_to_set (x :: xs)) by set_solver. rewrite En in *.
    assert (Ec : count_if (bool_decide (x ∈ s)) n = (n + (Z.of_nat (size s) - Z.of_nat (size (s ∖ {[x]}))))%Z).
    { unfold count_if. case_bool_decide as Hx.
      - assert (Hz : size s = S (size (s ∖ {[x]}))); [|lia]. rewrite (union_difference_L {[x]} s) at 1 by set_solver.
        rewrite size_union, size_singleton by set_solver. done.
      - replace (s ∖ {[x]}) with s by set_solver. lia. }
    rewrite Ec. match goal with |- Q (inl ?a) _ => replace a with (n + (Z.of_nat (size s) - Z.of_nat (size (s ∖ list_to_set (x :: xs)))))%Z by lia end.
    apply HQ. rewrite change_change in H2. erewrite change_ext; [exact H2|]. intros []; try done. cbn. f_equal. set_solver.
Qed.

Lemma srem_serves : serves any_args HandleSRem rule_srem.
Proof.
  unfold HandleSRem. intros now name args c m Hn Hs Hok. destruct args as [|k [|x xs]]; repeat st_step; try st_end.
  change (drop 1 _) with (bulk <$> (x :: xs)). apply (srem_loop_wp now k (x :: xs) ltac:(lia) c m 0); [done|]. clear Hs. intros c' Hs. st_step. st_end.
Qed.

Lemma is_member_loop_wp now key xs : (now ≤ horizon)%Z → ∀ c m acc (Q : list RespValue + outcome → Ctx → Prop),
  stands c m →
  (∀ c', stands c' m → Q (inl (acc ++ ((λ x, resp_int (if bool_decide (x ∈ set_at key m) then 1 else 0)) <$> xs))) c') →
  wp (is_member_loop now key (bulk <$> xs) acc) Q c.
Proof.
  intros Hn. induction xs as [|x xs IH]; intros c m acc Q Hs HQ.
  - apply wp_ret. specialize (HQ c Hs). cbn in HQ. by rewrite app_nil_r in HQ.
  - cbn [fmap list_fmap is_member_loop]. repeat st_step. apply (IH c' m); [done|]. intros c2 H2. rewrite <- app_assoc. by apply HQ.
Qed.

Lemma smismember_serves : serves any_args HandleSMIsMember rule_smismember.
Proof.
  unfold HandleSMIsMember. intros now name args c m Hn Hs Hok. destruct args as [|k [|x xs]]; repeat st_step; try st_end.
  change (drop 1 _) with (bulk <$> (x :: xs)). apply (is_member_loop_wp now k (x :: xs) ltac:(lia) c m []); [done|]. clear Hs. intros c' Hs. st_step. st_end.
Qed.

(** *** Several sets, on one worker *)

Lemma wp_one_worker c m Q : stands c m → (∀ n, n ≤ 1 → Q (inl n) c) → wp workers_of Q c.
Proof. intros [[Hw _] _] HQ. by apply HQ. Qed.

Definition gathers (local : list bytes → M (list bytes)) (f : list bytes → store → gset bytes) : Prop :=
  ∀ keys c m (Q : list bytes + outcome → Ctx → Prop),
    keys ≠ [] → stands c m → (∀ l c', lists_members l (f keys m) → stands c' m → Q (inl l) c') → wp (local keys) Q c.

Lemma gathers_may local f now : (now ≤ horizon)%Z →
  (∀ keys m, may (local keys) m (λ l m', m' = m ∧ lists_members l (f keys m))) → gathers (λ keys, on_db (local keys)) f.
Proof.
  intros Hn Hf keys c m Q _ Hs HQ. eapply (wp_may _ c m _ _ Hs); [apply Hf|]. intros l m' c' [-> Hl] Hs'. by apply HQ.
Qed.

Lemma gathers_inter now : (now ≤ horizon)%Z → gathers (SInter now) inter_sets.
Proof.
  intros Hn keys c m Q Hk Hs HQ. unfold SInter. destruct keys as [|k keys]; [done|]. unfold SendBatchRequest.
  apply wp_bind, (wp_one_worker c m _ Hs). intros n Hw. apply wp_bind. unfold wp at 1, self_of. cbn [fst snd]. cbv zeta.
  rewrite decide_True by (by left). eapply (wp_may _ c m _ _ Hs); [by apply may_sinter|]. intros l m' c' [-> Hl] Hs'. by apply HQ.
Qed.

Lemma several_serves name combine local f :
  (∀ now, (now ≤ horizon)%Z → gathers (local now) f) →
  serves any_args (λ now, several name combine (local now) now) (combines name f).
Proof.
  intros Hl now name' args c m Hn Hs Hok. unfold several. destruct args as [|k args]; repeat st_step; try st_end; [by split|].
  apply (wp_one_worker c m _ Hs). intros n Hw. replace (1 <? n) with false by (symmetry; by apply Nat.ltb_ge). apply wp_bind.
  apply (Hl now ltac:(lia) (k :: args) c m); [done|done|]. clear Hs. intros l c' Hm Hs. st_step. st_end. split; [done|]. by exists l.
Qed.

Lemma sinter_serves : serves any_args HandleSInter rule_sinter.
Proof. apply several_serves, gathers_inter. Qed.
Lemma sunion_serves : serves any_args HandleSUnion rule_sunion.
Proof. apply several_serves. intros now Hn. eapply gathers_may; [done|]. intros keys m. by apply may_sunion. Qed.
Lemma sdiff_serves : serves any_args HandleSDiff rule_sdiff.
Proof. apply several_serves. intros now Hn. eapply gathers_may; [done|]. intros keys m. by apply may_sdiff. Qed.

Lemma lists_members_size l s : lists_members l s → zlen l = Z.of_nat (size s).
Proof. intros Hl. apply lists_members_elements in Hl. unfold zlen. by rewrite Hl. Qed.

Lemma store_with_serves name local f :
  (∀ now, (now ≤ horizon)%Z → gathers (local now) f) →
  serves (key_is kSet) (λ now, store_with name (local now)) (stores name f).
Proof.
  intros Hl now name' args c m Hn Hs Hok. unfold store_with. destruct args as [|d [|k keys]]; repeat st_step; try st_end.
  apply (Hl now ltac:(lia) (k :: keys) c m); [done|done|]. clear Hs. intros l c' Hm Hs. apply wp_bind.
  eapply (wp_does _ c' m _ _ _ Hs); [by apply does_store_set|]. clear Hs. intros c2 Hs. st_step. st_end.
  unfold stores, det. by rewrite (lists_members_size _ _ Hm).
Qed.

Lemma sinterstore_serves : serves (key_is kSet) HandleSInterStore rule_sinterstore.
Proof. apply store_with_serves, gathers_inter. Qed.
Lemma sunionstore_serves : serves (key_is kSet) HandleSUnionStore rule_sunionstore.
Proof. apply (store_with_serves _ (λ now keys, on_db (DbSUnion now keys))). intros now Hn. eapply gathers_may; [done|]. intros keys m. by apply may_sunion. Qed.
Lemma sdiffstore_serves : serves (key_is kSet) HandleSDiffStore rule_sdiffstore.
Proof. apply (store_with_serves _ (λ now keys, on_db (DbSDiff now keys))). intros now Hn. eapply gathers_may; [done|]. intros keys m. by apply may_sdiff. Qed.
End SetContract.
