(* ===== verification/ListContract.v ===== *)
(** * The rules of the list and expiry commands

    For the handlers of [ListCommands] that do not block and the expiry commands of
    [StringCommands], what they answer and leave for every list of bulk strings, and
    that they follow it. *)
From S2P Require Import Prelude.
From S2P Require Import Simd.
From S2P Require Import Numbers.
From S2P Require Import Text.
From S2P Require Import RespTypes.
From S2P Require Import Executor.
From S2P Require Import KeyMetadata.
From S2P Require Import LinkedList.
From S2P Require Import Rocks.
From S2P Require Import Database.
From S2P Require Import DatabaseTypes.
From S2P Require Import Blocking.
From S2P Require Import Commands.
From S2P Require Import StringCommands.
From S2P Require Import ListCommands.
From S2P Require Import StringLog.
From S2P Require Import TypedStore.
From S2P Require Import TypedContainers.
From S2P Require Import TypedCommands.

Section ListContract.
Context {P : Platform} {HD : DoubleText} {HZ : Horizon}.
Implicit Types (c : Ctx) (m : store) (key : bytes) (now : Z) (args : list bytes) (left : bool).

(** ** Lists *)

(** LPUSH puts its values before the list in the order of the arguments; the
    answer is their number. *)
Definition rule_push (name : bytes) left : rule := det (λ now args m,
  match args with
  | [] => error (wrong_number name) m
  | [key] => (reply_int 0, m)
  | key :: xs => (reply_int (zlen xs), put key (VList (if left then xs ++ list_at key m else list_at key m ++ xs)) m)
  end).
Definition popped left (l : list bytes) : option bytes := if left then head l else last l.
Definition rest left (l : list bytes) : list bytes := if left then tail l else removelast l.
Definition rule_pop (name : bytes) left : rule := det (λ now args m,
  match args with
  | [key] => (reply_opt (popped left (list_at key m)), shrink key (rest left) m)
  | _ => error (wrong_number name) m
  end).
Definition pushed left (x : bytes) (l : list bytes) : list bytes := if left then x :: l else l ++ [x].
Definition rule_pushx (name : bytes) left : rule := det (λ now args m,
  match args with
  | [key; x] =>
      if is_list key m then (reply_int (i64 (Z.of_nat (length (list_at key m) + 1))), put key (VList (pushed left x (list_at key m))) m)
      else (reply_int 0, m)
  | _ => error (wrong_number name) m
  end).

Definition rule_llen : rule := det (λ now args m,
  match args with [key] => (reply_int (i64 (Z.of_nat (length (list_at key m)))), m) | _ => error (wrong_number (B "LLEN")) m end).
Definition rule_lindex : rule := det (λ now args m,
  match args with
  | [key; i] => match strtoll i with Some i => (reply_opt (element_at i (list_at key m)), m) | None => error not_integer m end
  | _ => error (wrong_number (B "LINDEX")) m
  end).
Definition rule_lset : rule := det (λ now args m,
  match args with
  | [key; i; x] =>
      match strtoll i with
      | Some i =>
          (if (LinkedList.spec_set i x (list_at key m)).2 then ok_response else Failure (B "ERR no such key or index out of range"),
           change key (on_elements (after (OSet i x))) m)
      | None => error not_integer m
      end
  | _ => error (wrong_number (B "LSET")) m
  end).

(** LRANGE and LTRIM *)
Definition ranged (name : bytes) (f : Z → Z → bytes → store → CommandResult * store) : rule := det (λ now args m,
  match args with
  | [key; i; j] =>
      match strtoll i, strtoll j with
      | Some i, Some j => f i j key m
      | _, _ => error not_integer m
      end
  | _ => error (wrong_number name) m
  end).
Definition rule_lrange : rule := ranged (B "LRANGE") (λ i j key m, (reply_strings (slice i j (list_at key m)), m)).
Definition rule_ltrim : rule := ranged (B "LTRIM") (λ i j key m,
  (if is_list key m then ok_response else Failure (B "ERR no such key"), shrink key (slice i j) m)).

(** A count below zero removes as zero does. *)
Definition rule_lrem : rule := det (λ now args m,
  match args with
  | [key; count; x] =>
      match strtoll count with
      | Some count =>
          let l := list_at key m in
          (reply_int (i64 (Z.of_nat (length l) - Z.of_nat (length (remove_first x (limit count) l)))),
           shrink key (remove_first x (limit count)) m)
      | None => error not_integer m
      end
  | _ => error (wrong_number (B "LREM")) m
  end).

(** Before or after the first pivot. *)
Fixpoint insert_near (before : bool) (pivot x : bytes) (l : list bytes) : option (list bytes) :=
  match l with
  | [] => None
  | y :: l =>
      if decide (y = pivot) then Some (if before then x :: y :: l else y :: x :: l)
      else option_map (cons y) (insert_near before pivot x l)
  end.
Definition rule_linsert : rule := det (λ now args m,
  match args with
  | [key; where_; pivot; x] =>
      let before := bool_decide (where_ = B "BEFORE") in
      if before || bool_decide (where_ = B "AFTER") then
        match insert_near before pivot x (list_at key m) with
        | None => (reply_int (-1), m)
        | Some l => (reply_int (i64 (Z.of_nat (length l))), change key (on_elements (λ _, l)) m)
        end
      else error syntax_error m
  | _ => error (wrong_number (B "LINSERT")) m
  end).

(** From an end of one list to an end of another. *)
Definition moved (from to : bool) (source destination : bytes) m : CommandResult * store :=
  match popped from (list_at source m) with
  | None => (reply_nil, shrink source (rest from) m)
  | Some x =>
      let m := shrink source (rest from) m in
      (reply_bulk x, put destination (VList (pushed to x (list_at destination m))) m)
  end.
Definition rule_rpoplpush : rule := det (λ now args m,
  match args with [source; destination] => moved false false source destination m | _ => error (wrong_number (B "RPOPLPUSH")) m end).
Definition rule_lmove : rule := det (λ now args m,
  match args with
  | [source; destination; from; to] =>
      match direction from, direction to with
      | Some from, Some to => moved from to source destination m
      | _, _ => error syntax_error m
      end
  | _ => error (wrong_number (B "LMOVE")) m
  end).

(** *** The handlers *)

Lemma does_push left now key x m : has_type kList key m → does (push left now key x) m true (put key (VList (pushed left x (list_at key m))) m).
Proof. destruct left; [apply does_lpush|apply does_rpush]. Qed.
Lemma does_pop left now key m : (now ≤ horizon)%Z → does (pop left now key) m (popped left (list_at key m)) (shrink key (rest left) m).
Proof. destruct left; [apply does_lpop|apply does_rpop]. Qed.

Lemma push_loop_wp left now key xs : ∀ c m (Q : () + outcome → Ctx → Prop),
  stands c m → has_type kList key m →
  (∀ c', stands c' (match xs with [] => m | _ => put key (VList (if left then reverse xs ++ list_at key m else list_at key m ++ xs)) m end) → Q (inl ()) c') →
  wp (push_loop left now key (bulk <$> xs)) Q c.
Proof.
  induction xs as [|x xs IH]; intros c m Q Hs Ht HQ; [by apply wp_ret, HQ|].
  cbn [fmap list_fmap push_loop]. do 3 st_step. eapply (wp_does _ c m _ _ _ Hs); [by apply does_push|]. clear Hs. intros c1 Hs.
  apply (IH c1 _ _ Hs); [apply (has_type_put key (VList _) m)|]. intros c2 H2. rewrite list_at_put, put_put in H2. apply HQ.
  cbn [arg_value bulk] in H2. destruct xs as [|y xs].
  - destruct left; exact H2.
  - unfold pushed in H2. destruct left; [|by rewrite <- app_assoc in H2]. rewrite (reverse_cons (y :: xs) x), <- app_assoc. exact H2.
Qed.

Lemma wake_up_calm now key c m (Q : () + outcome → Ctx → Prop) : stands c m → (∀ c', stands c' m → Q (inl ()) c') → wp (wake_up now key) Q c.
Proof.
  intros [(Hw & Hc & Hb) Hm] HQ. unfold wp, wake_up. destruct (blocking_manager (ctx_more c)) as [bm|] eqn:Eb.
  - unfold WakeUpBlockedClients, take_waiting, queue_of. rewrite Hb, lookup_empty. cbn [default fst snd].
    apply HQ. split; [|done]. split; [done|]. by split.
  - apply HQ. split; [|done]. split; [done|]. split; [done|]. cbn [fst]. by rewrite Eb.
Qed.

Lemma push_serves name left : serves (key_is kList) (push_all name left) (rule_push name left).
Proof.
  unfold push_all. intros now name' args c m Hn Hs Hok. destruct args as [|k xs]; repeat st_step; try st_end.
  change (drop 1 _) with (bulk <$> xs). change (arg_text 0 _) with k.
  replace (if left then reverse (bulk <$> xs) else bulk <$> xs) with (bulk <$> (if left then reverse xs else xs)) by (destruct left; by rewrite ?bulk_reverse).
  apply (push_loop_wp left now k _ c m); [done|done|]. clear Hs. intros c1 Hs. apply wp_bind, (wake_up_calm _ _ _ _ _ Hs). clear Hs. intros c2 Hs.
  st_step. replace (Z.of_nat (ArgCount _ - 1)) with (zlen xs) by (unfold ArgCount, zlen; cbn; rewrite length_map; lia).
  assert (Er : (if left then reverse (if left then reverse xs else xs) ++ list_at k m else list_at k m ++ (if left then reverse xs else xs)) =
    (if left then xs ++ list_at k m else list_at k m ++ xs)) by (destruct left; by rewrite ?reverse_involutive).
  rewrite Er in Hs. destruct xs as [|x xs]; [destruct left; by st_end|].
  st_end. unfold rule_push, det. f_equal. destruct left; [|done]. destruct (reverse (x :: xs)) eqn:Ev; [|done].
  by apply (f_equal length) in Ev; rewrite length_reverse in Ev.
Qed.

Lemma pop_serves name left : serves any_args (pop_one name left) (rule_pop name left).
Proof.
  unfold pop_one. st_auto. eapply (wp_does _ c m _ _ _ Hs); [apply does_pop; lia|]. clear Hs. intros c' Hs. st_step. st_end.
Qed.

Lemma type_is_list key m : ((λ x : value * option Z, type_of x.1) <$> m !! key) = Some kList ↔ is_list key m = true.
Proof. unfold is_list. destruct (m !! key) as [[[] e]|]; cbn; naive_solver. Qed.
Lemma is_list_type key m : is_list key m = true → has_type kList key m.
Proof. unfold is_list, has_type. by destruct (m !! key) as [[[] e]|]. Qed.

Lemma pushx_serves name left : serves any_args (push_existing name left) (rule_pushx name left).
Proof.
  unfold push_existing. st_auto. change (arg_text 0 _) with k in *. change (arg_text 1 _) with f.
  destruct (is_list k m) eqn:El.
  - rewrite decide_True by (by apply type_is_list). apply wp_bind. eapply (wp_does _ c' m _ _ _ Hs); [by apply does_push, is_list_type|].
    clear Hs. intros c1 Hs. repeat st_step. st_end. unfold rule_pushx, det. rewrite El, list_at_put. do 4 f_equal.
    unfold pushed. destruct left; cbn; [lia|]. rewrite length_app. done.
  - rewrite decide_False by (intros E'; apply type_is_list in E'; by rewrite El in E'). st_step. st_end. unfold rule_pushx, det. by rewrite El.
Qed.

Lemma llen_serves : serves any_args HandleLLen rule_llen.
Proof. unfold HandleLLen. st_auto. Qed.
Lemma lindex_serves : serves any_args HandleLIndex rule_lindex.
Proof. unfold HandleLIndex. st_auto; unfold rule_lindex, det; change (arg_text 1 _) with f in *; by rewrite H. Qed.
Lemma lset_serves : serves any_args HandleLSet rule_lset.
Proof.
  unfold HandleLSet. st_auto; unfold rule_lset, det; change (arg_text 1 _) with f in *; change (arg_text 0 _) with k in *;
    change (arg_text 2 _) with x in *; rewrite H; [by rewrite E2|by rewrite E2|done].
Qed.

(** The two bounds. *)
Lemma range_args_wp name name' args c m (Q : Z * Z + outcome → Ctx → Prop) :
  (∀ key i j zi zj, args = [key; i; j] → strtoll i = Some zi → strtoll j = Some zj → Q (inl (zi, zj)) c) →
  (∀ message, (∀ f now, ranged name f now args m (Failure message) m) → Q (inr (Returned (Failure message))) c) →
  wp (range_args name (MkCommand name' (bulk <$> args))) Q c.
Proof.
  intros H1 H2. unfold range_args. destruct args as [|k [|i [|j [|? args]]]]; repeat st_step; try (apply H2; intros f now; reflexivity).
  - by eapply H1.
  - apply H2. intros f now. unfold ranged, det. change (arg_text 1 _) with i in *. change (arg_text 2 _) with j in *. by rewrite H, H0.
  - apply H2. intros f now. unfold ranged, det. change (arg_text 1 _) with i in *. by rewrite H.
Qed.

Lemma lrange_serves : serves any_args HandleLRange rule_lrange.
Proof.
  unfold HandleLRange. intros now name args c m Hn Hs Hok. st_step. apply (range_args_wp _ _ _ _ m).
  - intros k i j zi zj -> Ei Ej. repeat st_step. st_end. unfold rule_lrange, ranged, det. by rewrite Ei, Ej.
  - intros message Hr. st_end. apply Hr.
Qed.
Lemma ltrim_serves : serves any_args HandleLTrim rule_ltrim.
Proof.
  unfold HandleLTrim. intros now name args c m Hn Hs Hok. st_step. apply (range_args_wp _ _ _ _ m).
  - intros k i j zi zj -> Ei Ej. repeat st_step; st_end; unfold rule_ltrim, ranged, det; change (arg_text 0 _) with k in *; by rewrite Ei, Ej, E.
  - intros message Hr. st_end. apply Hr.
Qed.

Lemma lrem_serves : serves any_args HandleLRem rule_lrem.
Proof.
  unfold HandleLRem. st_auto; change (arg_text 1 _) with f in *.
  - rename y into count. eapply (wp_does _ c m _ _ _ Hs); [apply does_lrem; [lia|]|].
    { apply strtoll_range in H. unfold in_i64 in H. lia. }
    clear Hs. intros c' Hs. st_step. st_end. unfold rule_lrem, det. by rewrite H, i64_u64.
  - unfold rule_lrem, det. by rewrite H.
Qed.

(** The first position of the pivot. *)
Lemma insert_near_positions before pivot x l : ∀ n,
  (0 ≤ n)%Z →
  match positions n pivot l with
  | [] => insert_near before pivot x l = None
  | p :: _ => (n ≤ p < n + Z.of_nat (length l))%Z ∧
      insert_near before pivot x l = Some (insert_at (if before then Z.to_nat (p - n) else Z.to_nat (p - n) + 1) x l)
  end.
Proof.
  induction l as [|y l IH]; intros n Hn; [done|]. cbn [positions insert_near length]. destruct (decide (y = pivot)).
  - split; [lia|]. rewrite Z.sub_diag. by destruct before.
  - specialize (IH (n + 1)%Z ltac:(lia)). destruct (positions (n + 1) pivot l) as [|p ps]; [by rewrite IH|].
    destruct IH as [Hp ->]. split; [lia|]. cbn [option_map]. f_equal. unfold insert_at.
    replace (Z.to_nat (p - n)) with (S (Z.to_nat (p - (n + 1)))) by lia. by destruct before.
Qed.

Lemma slice_all (l : list bytes) : slice 0 (-1) l = l.
Proof.
  unfold slice, position. cbn [Z.ltb Z.compare]. rewrite drop_0. replace (Z.of_nat (length l) + -1 + 1)%Z with (Z.of_nat (length l)) by lia.
  rewrite Nat2Z.id, Nat.sub_0_r. by apply take_ge.
Qed.

Lemma linsert_serves : serves any_args HandleLInsert rule_linsert.
Proof.
  unfold HandleLInsert. st_auto; change (arg_text 0 _) with k in *; change (arg_text 1 _) with f in *; change (arg_text 2 _) with x in *;
    change (arg_text 3 _) with y in *.
  2: { unfold rule_linsert, det. cbv zeta. by rewrite E3. }
  rewrite slice_all. assert (Hp := insert_near_positions (bool_decide (f = B "BEFORE")) x y (list_at k m) 0 ltac:(lia)).
  destruct (positions 0 x (list_at k m)) as [|p ps].
  - st_step. st_end. unfold rule_linsert, det. cbv zeta. by rewrite E3, Hp.
  - destruct Hp as [Hp Hi]. rewrite Z.sub_0_r in Hi. repeat st_step. unfold spec_insert, position.
    rewrite (proj2 (Z.ltb_ge p 0)) by lia. rewrite bool_decide_eq_true_2 by lia. cbn [negb snd]. repeat st_step. st_end.
    unfold rule_linsert, det. cbv zeta. rewrite E3, Hi. set (g := after _). set (l' := insert_at _ _ _) in *.
    assert (Eg : g (list_at k m) = l').
    { unfold g, after. cbn [spec_step]. unfold spec_insert, position. rewrite (proj2 (Z.ltb_ge p 0)) by lia. by rewrite bool_decide_eq_true_2 by lia. }
    rewrite (change_elements k g m l' Eg), list_at_change, Eg; [done|]. intros El. rewrite El in Hp. cbn in Hp. lia.
Qed.

(** The key of the source goes when its list is empty, and the destination is
    looked up after that. *)
Lemma has_type_shrink t key k g m : has_type t k m → has_type t k (shrink key g m).
Proof.
  unfold has_type, shrink. intros H. destruct (m !! key) as [[[] e]|] eqn:E; try done. destruct (g l).
  - destruct (decide (key = k)) as [->|]; [by rewrite lookup_delete_eq|by rewrite lookup_delete_ne].
  - destruct (decide (key = k)) as [->|]; [rewrite lookup_insert_eq; by rewrite E in H|by rewrite lookup_insert_ne].
Qed.

Lemma does_move from to now source destination m :
  (now ≤ horizon)%Z → has_type kList destination m →
  ∀ db, models db m →
    let y := move from to now source destination db in
    ∃ m', models y.1 m' ∧ moved from to source destination m = (reply_opt y.2, m').
Proof.
  intros Hn Ht db H. unfold move, moved. destruct (does_pop from now source m Hn db H) as [H1 E1].
  destruct (pop from now source db) as [db1 v]. cbn [fst snd] in *. subst v. destruct (popped from (list_at source m)) as [x|]; [|by eexists].
  eexists. split; [|done]. cbn [fst]. apply does_push; [|done]. by apply has_type_shrink.
Qed.

Definition second_is (t : KeyType) now args m : Prop := ∀ d, args !! 1 = Some d → has_type t d m.

Lemma rpoplpush_serves : serves (second_is kList) HandleRPopLPush rule_rpoplpush.
Proof.
  unfold HandleRPopLPush. st_auto. change (arg_text 0 _) with k. change (arg_text 1 _) with f.
  change (DbRPopLPush now k f) with (move false false now k f).
  eapply (wp_may _ c m (λ y m', moved false false k f m = (reply_opt y, m')) _ Hs);
    [intros db H; apply (does_move false false now k f m); [lia|by apply Hok|done]|].
  clear Hs. intros v m' c' Hm Hs. st_step. st_end. exact Hm.
Qed.
Lemma lmove_serves : serves (second_is kList) HandleLMove rule_lmove.
Proof.
  unfold HandleLMove. st_auto; change (arg_text 0 _) with k in *; change (arg_text 1 _) with f in *; change (arg_text 2 _) with x in *;
    change (arg_text 3 _) with y in *.
  - eapply (wp_may _ c m (λ v m', moved y0 y1 k f m = (reply_opt v, m')) _ Hs);
      [intros db Hdb; apply (does_move y0 y1 now k f m); [lia|by apply Hok|done]|].
    clear Hs. intros v m' c' Hm Hs. st_step. st_end. unfold rule_lmove, det. by rewrite H, H0.
  - unfold rule_lmove, det. by rewrite H, H0.
  - unfold rule_lmove, det. by rewrite H.
Qed.


(** ** Expiry times *)

(** A time that has come deletes the key. *)
Definition rule_expire (name : bytes) (past : Z → Z → bool) (deadline : Z → Z → Z) : rule := det (λ now args m,
  match args with
  | [key; n] =>
      match strtoll n with
      | None => error not_integer m
      | Some n =>
          (reply_bool (bool_decide (is_Some (m !! key))), if past now n then delete key m else set_deadline key (Some (deadline now n)) m)
      end
  | _ => error (wrong_number name) m
  end).
Definition rule_expire_s : rule := rule_expire (B "EXPIRE") (λ _ n, n <=? 0)%Z (λ now n, i64 (now + n * 1000)).
Definition rule_expireat : rule := rule_expire (B "EXPIREAT") (λ now n, i64 (n * 1000) <=? Z.quot now 1000 * 1000)%Z (λ _ n, i64 (n * 1000)).
Definition rule_pexpire : rule := rule_expire (B "PEXPIRE") (λ _ n, n <=? 0)%Z (λ now n, i64 (now + n)).
Definition rule_pexpireat : rule := rule_expire (B "PEXPIREAT") (λ now n, n <=? now)%Z (λ _ n, n).

(** What a command answers about a key. *)
Definition about (name : bytes) (f : Z → bytes → store → Z * store) : rule := det (λ now args m,
  match args with [key] => let '(n, m) := f now key m in (reply_int n, m) | _ => error (wrong_number name) m end).
Definition rule_pttl : rule := about (B "PTTL") (λ now key m, (ttl_of now key m, m)).
Definition rule_ttl : rule := about (B "TTL") (λ now key m,
  let ttl := ttl_of now key m in (if (ttl <? 0)%Z then ttl else Z.quot ttl 1000, m)).
(** The answer is 1 for every key that is there, also without an expiry time. *)
Definition rule_persist : rule := about (B "PERSIST") (λ now key m,
  (if bool_decide (is_Some (m !! key)) then 1 else 0, set_deadline key None m)%Z).
Definition rule_expiretime : rule := about (B "EXPIRETIME") (λ now key m,
  (match deadline_of key m with Some t => Z.quot t 1000 | None => -2 end, m)%Z).
Definition rule_pexpiretime : rule := about (B "PEXPIRETIME") (λ now key m, (default (-2)%Z (deadline_of key m), m)).

(** The deadline is past or after the horizon. *)
Definition far (past : Z → Z → bool) (deadline : Z → Z → Z) now args (m : store) : Prop :=
  ∀ x n, args !! 1 = Some x → strtoll x = Some n → past now n = true ∨ (0 < deadline now n ∧ horizon < deadline now n)%Z.

Lemma expire_serves name what past deadline :
  serves (far past deadline) (λ now, expire_with name what (past now) (deadline now) now) (rule_expire name past deadline).
Proof.
  unfold expire_with. st_auto; change (arg_text 1 _) with f in *; change (arg_text 0 _) with k.
  2: { unfold rule_expire, det. by rewrite H. }
  rename y into n. destruct (past now n) eqn:Ep.
  - unfold expire_now. repeat st_step. destruct (m !! k) as [x|] eqn:Em.
    + rewrite bool_decide_eq_true_2 by (by eexists). cbn [negb]. repeat st_step. st_end. unfold rule_expire, det. by rewrite H, Ep, Em.
    + rewrite bool_decide_eq_false_2 by (by intros [? ?]). cbn [negb]. repeat st_step. st_end. unfold rule_expire, det. rewrite H, Ep, Em.
      by rewrite delete_id.
  - destruct (Hok f n eq_refl H) as [Hp|[H0 Hh]]; [by rewrite Ep in Hp|]. st_step.
    eapply (wp_does _ c m _ _ _ Hs); [by apply does_set_expire|]. clear Hs. intros c' Hs. st_step. st_end. unfold rule_expire, det. by rewrite H, Ep.
Qed.

Lemma about_serves name (h : Z → bytes → Database → Database * Z) g :
  (∀ now key m, (0 ≤ now ≤ horizon)%Z → does (h now key) m (g now key m).1 (g now key m).2) →
  serves any_args (λ now, about_key name (h now)) (about name g).
Proof.
  intros Hf. unfold about_key. st_auto.
  unfold about, det. change (arg_text 0 _) with k. by destruct (g now k m).
Qed.

Lemma pttl_serves : serves any_args HandlePTTL rule_pttl.
Proof. apply about_serves. intros now key m Hn. apply does_read. intros db H. by rewrite (ttl_models now key db m). Qed.
Lemma ttl_serves : serves any_args HandleTTL rule_ttl.
Proof.
  apply about_serves. intros now key m Hn. apply does_read. intros db H. unfold DbGetTtlSeconds, GetTtlSeconds.
  fold (DbGetTtlMs now key db). by rewrite (ttl_models now key db m).
Qed.
Lemma persist_serves : serves any_args HandlePersist rule_persist.
Proof.
  apply about_serves. intros now key m Hn db H. destruct (does_persist key m db H) as [H1 H2]. destruct (DbPersist key db) as [db' b].
  cbn [fst snd] in *. by subst b.
Qed.
Lemma expiretime_serves : serves any_args HandleExpireTime rule_expiretime.
Proof. apply about_serves. intros now key m Hn. apply does_read. intros db H. rewrite (deadline_models now key db m) by (done || lia). done. Qed.
Lemma pexpiretime_serves : serves any_args HandlePExpireTime rule_pexpiretime.
Proof. apply about_serves. intros now key m Hn. apply does_read. intros db H. rewrite (deadline_models now key db m) by (done || lia). done. Qed.
End ListContract.
