(* ===== verification/BitmapContract.v ===== *)
(** * Strings as bits

    The bits of a string as a list of booleans, what the helpers of the bitmap
    commands do to it, and the rules of the commands on the typed store, which the
    handlers follow. *)
From Stdlib Require Import SpecFloat.
From S2P Require Import Prelude.
From S2P Require Import Simd.
From S2P Require Import Numbers.
From S2P Require Import RespTypes.
From S2P Require Import KeyMetadata.
From S2P Require Import Executor.
From S2P Require Import Text.
From S2P Require Import Rocks.
From S2P Require Import Database.
From S2P Require Import DatabaseTypes.
From S2P Require Import Commands.
From S2P Require Import StringCommands.
From S2P Require Import BitmapCommands.
From S2P Require Import StringLog.
From S2P Require Import TypedStore.
From S2P Require Import TypedCommands.
From S2P Require Import StringContract.

(** ** Bits *)

Definition byte_bits (c : ascii) : list bool := (λ k, Z.testbit (code c) (7 - Z.of_nat k)) <$> seq 0 8.
Definition bits_of (s : bytes) : list bool := concat (byte_bits <$> s).

(** Eight bits make a byte, the highest first. *)
Definition bits_byte (l : list bool) : ascii := of_code (foldl (λ v b, 2 * v + (if b : bool then 1 else 0))%Z 0%Z l).
Fixpoint of_bits_loop (n : nat) (l : list bool) : bytes :=
  match n with O => [] | S n => bits_byte (take 8 l) :: of_bits_loop n (drop 8 l) end.
Definition of_bits (l : list bool) : bytes := of_bits_loop (length l / 8) l.

Lemma byte_bits_byte c : bits_byte (byte_bits c) = c.
Proof. destruct c as [[] [] [] [] [] [] [] []]; reflexivity. Qed.
Lemma bits_byte_bits l : length l = 8 → byte_bits (bits_byte l) = l.
Proof.
  intros H. do 8 (destruct l as [|[] l]; [discriminate H| |]); destruct l as [|b l]; try discriminate H; reflexivity.
Qed.
Lemma length_byte_bits c : length (byte_bits c) = 8.
Proof. reflexivity. Qed.

Lemma length_bits_of s : length (bits_of s) = 8 * length s.
Proof. unfold bits_of. induction s as [|c s IH]; [done|]. cbn [fmap list_fmap concat]. rewrite length_app, IH, length_byte_bits. cbn [length]. lia. Qed.
Lemma bits_of_cons c s : bits_of (c :: s) = byte_bits c ++ bits_of s.
Proof. done. Qed.
Lemma bits_of_app s s' : bits_of (s ++ s') = bits_of s ++ bits_of s'.
Proof. unfold bits_of. by rewrite fmap_app, concat_app. Qed.
Lemma bits_of_zeros n : bits_of (replicate n zero_char) = replicate (8 * n) false.
Proof.
  induction n as [|n IH]; [done|]. cbn [replicate]. rewrite bits_of_cons, IH.
  replace (8 * S n) with (8 + 8 * n) by lia. by rewrite replicate_add.
Qed.

(** Strings are the lists of bits of whole bytes. *)
Lemma of_bits_of s : of_bits (bits_of s) = s.
Proof.
  unfold of_bits. rewrite length_bits_of, Nat.mul_comm, Nat.div_mul by done. induction s as [|c s IH]; [done|].
  cbn [length of_bits_loop]. rewrite bits_of_cons. rewrite take_app_length' by done. rewrite drop_app_length' by done.
  by rewrite IH, byte_bits_byte.
Qed.
Lemma bits_of_bits n l : length l = 8 * n → bits_of (of_bits l) = l.
Proof.
  unfold of_bits. intros H. rewrite H, Nat.mul_comm, Nat.div_mul by done. revert l H. induction n as [|n IH]; intros l H.
  - by destruct l.
  - cbn [of_bits_loop]. rewrite bits_of_cons, IH by (rewrite length_drop; lia). rewrite bits_byte_bits by (rewrite length_take; lia).
    apply take_drop.
Qed.
Lemma bits_of_inj s s' : bits_of s = bits_of s' → s = s'.
Proof. intros H. by rewrite <- (of_bits_of s), H, of_bits_of. Qed.

Lemma byte_bits_lookup c k : k < 8 → byte_bits c !! k = Some (Z.testbit (code c) (7 - Z.of_nat k)).
Proof. intros H. unfold byte_bits. rewrite list_lookup_fmap, lookup_seq_lt by lia. done. Qed.

Lemma bits_lookup s i : bits_of s !! i = (λ c, Z.testbit (code c) (7 - Z.of_nat (i mod 8))) <$> s !! (i / 8).
Proof.
  revert i. induction s as [|c s IH]; intros i; [done|]. rewrite bits_of_cons. destruct (decide (i < 8)) as [H|H].
  - rewrite lookup_app_l by (rewrite length_byte_bits; lia). rewrite byte_bits_lookup by done.
    rewrite (Nat.div_small i 8), (Nat.mod_small i 8) by done. done.
  - rewrite lookup_app_r by (rewrite length_byte_bits; lia). rewrite length_byte_bits, IH.
    assert (Em : i mod 8 = (i - 8) mod 8) by (replace i with ((i - 8) + 1 * 8) at 1 by lia; by rewrite Nat.Div0.mod_add).
    assert (Ed : i / 8 = S ((i - 8) / 8)) by (replace i with ((i - 8) + 1 * 8) at 1 by lia; rewrite Nat.div_add by done; lia).
    by rewrite Em, Ed.
Qed.

Lemma quot_8 i : Z.quot (Z.of_nat i) 8 = Z.of_nat (i / 8).
Proof. rewrite Z.quot_div_nonneg by lia. by rewrite Nat2Z.inj_div. Qed.
Lemma rem_8 i : Z.rem (Z.of_nat i) 8 = Z.of_nat (i mod 8).
Proof. rewrite Z.rem_mod_nonneg by lia. by rewrite Nat2Z.inj_mod. Qed.

(** The bit at an offset, clear behind the end. *)
Definition bit_at (l : list bool) (i : nat) : bool := default false (l !! i).

Lemma GetBit_bit s i : GetBit s (Z.of_nat i) = bit_at (bits_of s) i.
Proof.
  unfold GetBit, bit_at. rewrite (proj2 (Z.ltb_ge _ _)) by lia. cbv zeta. rewrite bits_lookup, quot_8, rem_8, Nat2Z.id. by destruct (s !! (i / 8)).
Qed.

(** ** Setting a bit *)

(** The list with a bit changed, after zeros up to the end of its byte. *)
Definition set_bit (i : nat) (v : bool) (l : list bool) : list bool := <[i := v]> (l ++ replicate (8 * (i / 8 + 1) - length l) false).

Lemma put_bit_code v b c : (0 ≤ b < 8)%Z →
  code (put_bit v b c) = if v then Z.lor (code c) (2 ^ b) else Z.land (code c) (Z.lnot (2 ^ b)).
Proof.
  intros Hb. unfold put_bit. rewrite Z.shiftl_1_l. assert (Hc := code_bound c). change 256%Z with (2 ^ 8)%Z in Hc.
  assert (Hh : ∀ l, (8 ≤ l)%Z → Z.testbit (code c) l = false) by (by apply Z.bounded_iff_bits_nonneg; lia).
  apply code_of_code. change 256%Z with (2 ^ 8)%Z. destruct v.
  - assert (H0 : (0 ≤ Z.lor (code c) (2 ^ b))%Z) by (apply Z.lor_nonneg; lia). split; [done|].
    apply Z.bounded_iff_bits_nonneg; [lia|done|]. intros l Hl. rewrite Z.lor_spec, Hh by done. rewrite Z.pow2_bits_false by lia. done.
  - assert (H0 : (0 ≤ Z.land (code c) (Z.lnot (2 ^ b)))%Z) by (apply Z.land_nonneg; lia). split; [done|].
    apply Z.bounded_iff_bits_nonneg; [lia|done|]. intros l Hl. by rewrite Z.land_spec, Hh.
Qed.

Lemma put_bit_testbit v b c k : (0 ≤ b < 8)%Z → (0 ≤ k < 8)%Z →
  Z.testbit (code (put_bit v b c)) k = if decide (k = b) then v else Z.testbit (code c) k.
Proof.
  intros Hb Hk. rewrite put_bit_code by done.
  assert (Ep : Z.testbit (2 ^ b) k = bool_decide (k = b)).
  { case_bool_decide; [subst; apply Z.pow2_bits_true; lia|apply Z.pow2_bits_false; lia]. }
  destruct v; rewrite ?Z.lor_spec, ?Z.land_spec, ?Z.lnot_spec, Ep by lia; case_decide; case_bool_decide; try done; by destruct (Z.testbit (code c) k).
Qed.

Section SetBit.
Context {P : Platform}.

Lemma SetBit_bits s i v s' : SetBit s (Z.of_nat i) v = Some s' → bits_of s' = set_bit i v (bits_of s).
Proof.
  unfold SetBit. rewrite (proj2 (Z.ltb_ge _ _)) by lia. rewrite quot_8, rem_8, Nat2Z.id.
  destruct (EnsureBitmapSize s (Z.of_nat i)) as [t|] eqn:Et; [|done]. cbn [mbind option_bind]. intros [= <-].
  assert (Ht : bits_of t = bits_of s ++ replicate (8 * (i / 8 + 1) - length (bits_of s)) false ∧ i / 8 < length t).
  { unfold EnsureBitmapSize in Et. rewrite quot_8 in Et. unfold zlen in Et. rewrite length_bits_of. destruct (_ <? _)%Z eqn:El in Et; b2p.
    - unfold grow in Et. destruct (can_allocate _); [|done]. injection Et as <-. rewrite bits_of_app, bits_of_zeros, length_app, length_replicate.
      replace (Z.to_nat (Z.of_nat (i / 8) + 1)) with (i / 8 + 1) by lia. split; [do 2 f_equal; lia|lia].
    - injection Et as <-. replace (8 * (i / 8 + 1) - 8 * length s) with 0 by lia. rewrite app_nil_r. split; [done|lia]. }
  destruct Ht as [Ht Hi]. unfold set_bit. rewrite <- Ht. apply list_eq. intros k. rewrite bits_lookup.
  assert (Hm := Nat.mod_upper_bound i 8 ltac:(done)). assert (Hmk := Nat.mod_upper_bound k 8 ltac:(done)).
  assert (Di := Nat.div_mod_eq i 8). assert (Dk := Nat.div_mod_eq k 8). destruct (decide (k / 8 = i / 8)) as [E|E].
  - rewrite E, list_lookup_alter_eq. destruct (lookup_lt_is_Some_2 t (i / 8) Hi) as [c Hc].
    destruct (decide (k = i)) as [->|Hk].
    + rewrite list_lookup_insert_eq by (rewrite length_bits_of; lia). rewrite Hc. cbn [fmap option_fmap option_map].
      rewrite put_bit_testbit by lia. by rewrite decide_True.
    + rewrite list_lookup_insert_ne by done. rewrite bits_lookup, E, Hc. cbn [fmap option_fmap option_map].
      rewrite put_bit_testbit by lia. rewrite decide_False; [done|lia].
  - rewrite list_lookup_alter_ne by done. rewrite list_lookup_insert_ne by congruence. by rewrite bits_lookup.
Qed.

Lemma SetBit_some s i v : can_allocate (Z.of_nat (i / 8) + 1) = true → ∃ s', SetBit s (Z.of_nat i) v = Some s'.
Proof.
  intros H. unfold SetBit, EnsureBitmapSize, grow. rewrite (proj2 (Z.ltb_ge _ _)) by lia. rewrite quot_8, H.
  destruct (_ <? _)%Z; by eexists.
Qed.
End SetBit.

(** ** Looking for bits *)

Lemma filter_ext_in {A} (P Q : A → Prop) `{!∀ x, Decision (P x), !∀ x, Decision (Q x)} (l : list A) :
  (∀ x, x ∈ l → P x ↔ Q x) → filter P l = filter Q l.
Proof.
  induction l as [|x l IH]; intros HPQ; [done|]. rewrite !filter_cons, IH by (intros y Hy; apply HPQ; by constructor).
  assert (Hx := HPQ x ltac:(by constructor)). do 2 case_decide; tauto.
Qed.
Lemma filter_fmap {A C} (f : A → C) (P : C → Prop) `{!∀ x, Decision (P x)} (l : list A) :
  filter P (f <$> l) = f <$> filter (λ x, P (f x)) l.
Proof. induction l as [|x l IH]; [done|]. cbn [fmap list_fmap]. rewrite !filter_cons, IH. by case_decide. Qed.

(** The positions of the bits that are [t], in the bytes from [a] to [b]; the list
    starts at byte [k]. *)
Definition hits_from (k : nat) (t : bool) (a b : Z) (l : list bool) : list nat :=
  filter (λ p, l !! p = Some t ∧ a ≤ Z.of_nat (k + p / 8) ≤ b)%Z (seq 0 (length l)).
Definition hits : bool → Z → Z → list bool → list nat := hits_from 0.

(** The positions of one byte. *)
Definition byte_hits (t : bool) (c : ascii) : list nat := filter (λ p, Z.testbit (code c) (7 - Z.of_nat p) = t) (seq 0 8).

Lemma seq_from k n : seq k n = (λ i, k + i) <$> seq 0 n.
Proof. induction k as [|k IH]; [by rewrite list_fmap_id|]. rewrite <- seq_shift, IH. by rewrite <- list_fmap_compose. Qed.

Lemma hits_from_cons k t a b c s :
  hits_from k t a b (bits_of (c :: s)) =
    (if decide (a ≤ Z.of_nat k ≤ b)%Z then byte_hits t c else []) ++ ((λ p, 8 + p) <$> hits_from (S k) t a b (bits_of s)).
Proof.
  unfold hits_from. rewrite bits_of_cons, length_app, length_byte_bits, seq_app, filter_app. f_equal.
  - destruct (decide (a ≤ Z.of_nat k ≤ b)%Z) as [H|H].
    + apply filter_ext_in. intros p Hp. apply elem_of_seq in Hp. rewrite lookup_app_l by (rewrite length_byte_bits; lia).
      rewrite byte_bits_lookup, (Nat.div_small p 8), Nat.add_0_r by lia. split; [by intros [[=] _]|by intros ->].
    + apply filter_none. apply Forall_forall. intros p Hp. apply elem_of_seq in Hp. rewrite (Nat.div_small p 8), Nat.add_0_r by lia. tauto.
  - rewrite Nat.add_0_l, (seq_from 8), filter_fmap. f_equal. apply list_filter_iff. intros p.
    rewrite lookup_app_r by (rewrite length_byte_bits; lia). rewrite length_byte_bits. replace (8 + p - 8) with p by lia.
    replace (8 + p) with (p + 1 * 8) by lia. rewrite Nat.div_add by done. by replace (k + (p / 8 + 1)) with (S k + p / 8) by lia.
Qed.

Lemma hits_from_above k t a b l : (b < Z.of_nat k)%Z → hits_from k t a b l = [].
Proof. intros H. apply filter_none, Forall_forall. intros p _. lia. Qed.

Lemma PopCount_hits c : PopCount (code c) = Z.of_nat (length (byte_hits true c)).
Proof. destruct c as [[] [] [] [] [] [] [] []]; vm_compute; reflexivity. Qed.

Lemma count_loop_hits s : ∀ k a b n, (a ≤ Z.of_nat k)%Z → u64 n = n →
  count_loop (Z.of_nat k) b s n = u64 (n + Z.of_nat (length (hits_from k true a b (bits_of s)))).
Proof.
  induction s as [|c s IH]; intros k a b n Ha Hn; [cbn; by rewrite Z.add_0_r|]. cbn [count_loop]. destruct (_ <=? _)%Z eqn:E; b2p.
  - rewrite hits_from_cons, decide_True by lia. rewrite length_app, length_fmap, PopCount_hits.
    replace (Z.of_nat k + 1)%Z with (Z.of_nat (S k)) by lia. rewrite (IH (S k) a b); [|lia|by apply Z.mod_mod].
    unfold u64, wrap. rewrite Zplus_mod_idemp_l. f_equal. lia.
  - rewrite hits_from_above by lia. cbn. by rewrite Z.add_0_r.
Qed.

Lemma bit_loop_filter n byte t : ∀ j,
  bit_loop n (Z.of_nat j) byte t = Z.of_nat <$> head (filter (λ p, Z.testbit byte (7 - Z.of_nat p) = t) (seq j n)).
Proof.
  induction n as [|n IH]; intros j; [done|]. cbn [bit_loop seq]. rewrite filter_cons. replace (Z.of_nat j + 1)%Z with (Z.of_nat (S j)) by lia.
  rewrite IH. destruct (Bool.eqb _ t) eqn:E.
  - apply eqb_prop in E. by rewrite decide_True.
  - rewrite decide_False; [done|]. intros Ht. rewrite Ht, eqb_reflx in E. done.
Qed.

Lemma pos_loop_hits t b s : ∀ k a, (a ≤ Z.of_nat k)%Z →
  pos_loop (Z.of_nat k) b s t = match hits_from k t a b (bits_of s) with [] => (-1)%Z | p :: _ => Z.of_nat (8 * k + p) end.
Proof.
  induction s as [|c s IH]; intros k a Ha; [done|]. cbn [pos_loop]. destruct (_ <=? _)%Z eqn:E; b2p.
  - rewrite hits_from_cons, decide_True by lia. change 0%Z with (Z.of_nat 0) at 1. rewrite bit_loop_filter. fold (byte_hits t c).
    destruct (byte_hits t c) as [|p l]; cbn [head fmap option_fmap option_map app]; [|lia].
    replace (Z.of_nat k + 1)%Z with (Z.of_nat (S k)) by lia. rewrite (IH (S k) a) by lia.
    destruct (hits_from (S k) t a b (bits_of s)); cbn [fmap list_fmap]; [done|]. lia.
  - by rewrite hits_from_above.
Qed.

Lemma hits_skip t a b k : ∀ j s, (Z.of_nat (j + k) ≤ a)%Z →
  hits_from j t a b (bits_of s) = (λ p, 8 * k + p) <$> hits_from (j + k) t a b (bits_of (drop k s)).
Proof.
  induction k as [|k IH]; intros j s H.
  - rewrite drop_0, Nat.add_0_r. symmetry. apply list_fmap_id.
  - destruct s as [|c s]; [done|]. rewrite hits_from_cons, decide_False by lia. rewrite IH by lia. cbn [drop app].
    rewrite <- list_fmap_compose. replace (S j + k) with (j + S k) by lia. apply list_fmap_ext. intros _ p _. cbn. lia.
Qed.

Lemma hits_stop t a b s : (zlen s ≤ b)%Z → hits t a b (bits_of s) = hits t a (zlen s - 1) (bits_of s).
Proof.
  intros H. apply filter_ext_in. intros p Hp. apply elem_of_seq in Hp. rewrite length_bits_of in Hp.
  assert (p / 8 < length s) by (apply Nat.Div0.div_lt_upper_bound; lia). unfold zlen in *. split; intros [? ?]; (split; [done|lia]).
Qed.
Lemma hits_start t a b l : (a ≤ 0)%Z → hits t a b l = hits t 0 b l.
Proof. intros H. apply list_filter_iff. intros p. split; intros [? ?]; (split; [done|lia]). Qed.

(** An index from the end. *)
Definition from_end (len i : Z) : Z := if (i <? 0)%Z then (len + i)%Z else i.

(** The search starts at the byte [k] and ends at [b'], after clamping. *)
Lemma hits_clamped t s a b : let len := zlen s in let '(start, stop) := clamp_bytes len a b in
  hits t (from_end len a) (from_end len b) (bits_of s) =
    (λ p, 8 * Z.to_nat start + p) <$> hits_from (Z.to_nat start) t start stop (bits_of (drop (Z.to_nat start) s)) ∧ (0 ≤ start)%Z.
Proof.
  cbv zeta. unfold clamp_bytes. fold (from_end (zlen s) a). fold (from_end (zlen s) b). generalize (from_end (zlen s) a), (from_end (zlen s) b).
  clear a b. intros a b. set (start := if (a <? 0)%Z then 0%Z else a). set (stop := if (zlen s <=? b)%Z then (zlen s - 1)%Z else b).
  assert (Hs : (0 ≤ start)%Z) by (unfold start; case_match; b2p; lia). split; [|done].
  transitivity (hits t start stop (bits_of s)).
  - unfold stop. destruct (zlen s <=? b)%Z eqn:Eb; b2p; [rewrite (hits_stop t a b) by done|];
      (unfold start; destruct (a <? 0)%Z eqn:Ea; b2p; [apply hits_start; lia|done]).
  - unfold hits. rewrite (hits_skip t start stop (Z.to_nat start) 0) by lia. by rewrite Nat.add_0_l.
Qed.

(** BITCOUNT and BITPOS over a range of bytes. *)
Lemma count_range s a b : let '(start, stop) := clamp_bytes (zlen s) a b in
  count_loop start stop (drop (Z.to_nat start) s) 0 = u64 (Z.of_nat (length (hits true (from_end (zlen s) a) (from_end (zlen s) b) (bits_of s)))).
Proof.
  assert (H := hits_clamped true s a b). cbv zeta in H. destruct (clamp_bytes (zlen s) a b) as [start stop]. destruct H as [-> H].
  rewrite length_fmap. rewrite <- (Z2Nat.id start) at 1 by done. by rewrite (count_loop_hits _ (Z.to_nat start) start) by (done || lia).
Qed.
Lemma pos_range t s a b : let '(start, stop) := clamp_bytes (zlen s) a b in
  pos_loop start stop (drop (Z.to_nat start) s) t =
    match hits t (from_end (zlen s) a) (from_end (zlen s) b) (bits_of s) with [] => (-1)%Z | p :: _ => Z.of_nat p end.
Proof.
  assert (H := hits_clamped t s a b). cbv zeta in H. destruct (clamp_bytes (zlen s) a b) as [start stop]. destruct H as [-> H].
  rewrite <- (Z2Nat.id start) at 1 by done. rewrite (pos_loop_hits t stop _ (Z.to_nat start) start) by lia. by destruct (hits_from _ _ _ _ _).
Qed.

(** ** Bit-wise operations *)

Definition longest {A} (ls : list (list A)) : nat := foldl (λ m l, max m (length l)) 0 ls.

(** The operation at each position, over all lists. *)
Definition op_bits (op : BitOperation) (ls : list (list bool)) : list bool :=
  (λ p, match op with
        | OpAnd => forallb (λ l, bit_at l p) ls
        | OpOr => existsb (λ l, bit_at l p) ls
        | OpXor => foldr xorb false ((λ l, bit_at l p) <$> ls)
        | OpNot => negb (bit_at (default [] (head ls)) p)
        end) <$> seq 0 (longest ls).

Lemma byte_range z : (0 ≤ z)%Z → (∀ l, (8 ≤ l)%Z → Z.testbit z l = false) → (0 ≤ z < 256)%Z.
Proof. intros H0 H. split; [done|]. change 256%Z with (2 ^ 8)%Z. by apply Z.bounded_iff_bits_nonneg. Qed.
Lemma byte_high z l : (0 ≤ z < 256)%Z → (8 ≤ l)%Z → Z.testbit z l = false.
Proof. intros Hz Hl. change 256%Z with (2 ^ 8)%Z in Hz. revert l Hl. apply Z.bounded_iff_bits_nonneg; lia. Qed.

Lemma source_byte_range i s : (0 ≤ source_byte i s < 256)%Z.
Proof. unfold source_byte. destruct (s !! i); [apply code_bound|lia]. Qed.
Lemma source_byte_bit s p : Z.testbit (source_byte (p / 8) s) (7 - Z.of_nat (p mod 8)) = bit_at (bits_of s) p.
Proof. unfold bit_at, source_byte. rewrite bits_lookup. destruct (s !! (p / 8)); [done|]. apply Z.bits_0. Qed.

(** The bits of a fold of a bit-wise operation. *)
Section Folds.
Context (f : Z → Z → Z) (g : bool → bool → bool).
Hypothesis f_bits : ∀ x y k, Z.testbit (f x y) k = g (Z.testbit x k) (Z.testbit y k).
Hypothesis g_false : g false false = false.
Hypothesis f_nonneg : ∀ x y, (0 ≤ x)%Z → (0 ≤ y)%Z → (0 ≤ f x y)%Z.

Lemma fold_byte_range (ss : list bytes) i : ∀ v, (0 ≤ v < 256)%Z → (0 ≤ foldl (λ b s, f b (source_byte i s)) v ss < 256)%Z.
Proof.
  induction ss as [|s ss IH]; intros v Hv; [done|]. cbn [foldl]. apply IH. assert (Hs := source_byte_range i s). apply byte_range.
  - apply f_nonneg; lia.
  - intros l Hl. by rewrite f_bits, !byte_high.
Qed.
Lemma fold_byte_bit (ss : list bytes) p : ∀ v,
  Z.testbit (foldl (λ b s, f b (source_byte (p / 8) s)) v ss) (7 - Z.of_nat (p mod 8)) =
  foldl (λ b s, g b (bit_at (bits_of s) p)) (Z.testbit v (7 - Z.of_nat (p mod 8))) ss.
Proof. induction ss as [|s ss IH]; intros v; [done|]. cbn [foldl]. by rewrite IH, f_bits, source_byte_bit. Qed.
End Folds.

Lemma longest_bits_from ss : ∀ n, foldl (λ m l, max m (length l)) (8 * n) (bits_of <$> ss) = 8 * foldl (λ m l, max m (length l)) n ss.
Proof. induction ss as [|s ss IH]; intros n; [done|]. cbn [fmap list_fmap foldl]. rewrite length_bits_of.
  replace (max (8 * n) (8 * length s)) with (8 * max n (length s)) by lia. apply IH. Qed.
Lemma longest_bits ss : longest (bits_of <$> ss) = 8 * longest ss.
Proof. apply (longest_bits_from ss 0). Qed.

Lemma fold_and (ss : list bytes) p : ∀ b, foldl (λ b s, b && bit_at (bits_of s) p) b ss = b && forallb (λ l, bit_at l p) (bits_of <$> ss).
Proof. induction ss as [|s ss IH]; intros b; cbn [foldl fmap list_fmap forallb]; [by rewrite andb_true_r|]. rewrite IH. by rewrite andb_assoc. Qed.
Lemma fold_or (ss : list bytes) p : ∀ b, foldl (λ b s, b || bit_at (bits_of s) p) b ss = b || existsb (λ l, bit_at l p) (bits_of <$> ss).
Proof. induction ss as [|s ss IH]; intros b; cbn [foldl fmap list_fmap existsb]; [by rewrite orb_false_r|]. rewrite IH. by rewrite orb_assoc. Qed.
Lemma fold_xor (ss : list bytes) p : ∀ b,
  foldl (λ b s, xorb b (bit_at (bits_of s) p)) b ss = xorb b (foldr xorb false ((λ l, bit_at l p) <$> (bits_of <$> ss))).
Proof. induction ss as [|s ss IH]; intros b; cbn [foldl fmap list_fmap foldr]; [by rewrite xorb_false_r|]. rewrite IH. by rewrite xorb_assoc. Qed.

Lemma bitop_bits beyond op ss : (op = OpNot → ∃ s, ss = [s]) → bits_of (bitop beyond op ss (longest ss)) = op_bits op (bits_of <$> ss).
Proof.
  intros Hnot. apply list_eq. intros p. rewrite bits_lookup. unfold bitop, op_bits. rewrite !list_lookup_fmap, longest_bits.
  destruct (decide (p < 8 * longest ss)) as [Hp|Hp].
  2: { rewrite !lookup_seq_ge; [done|lia|]. assert (D := Nat.div_mod_eq p 8). assert (Hm := Nat.mod_upper_bound p 8 ltac:(done)). lia. }
  assert (Hd : p / 8 < longest ss) by (apply Nat.Div0.div_lt_upper_bound; lia). rewrite !lookup_seq_lt by done. cbn [fmap option_fmap option_map]. f_equal.
  assert (Hm := Nat.mod_upper_bound p 8 ltac:(done)). rewrite !Nat.add_0_l. destruct op.
  - rewrite code_of_code by (apply (fold_byte_range Z.land andb Z.land_spec eq_refl); [intros; apply Z.land_nonneg; lia|lia]).
    rewrite (fold_byte_bit Z.land andb Z.land_spec), fold_and. change 255%Z with (Z.ones 8). by rewrite Z.ones_spec_low by lia.
  - rewrite code_of_code by (apply (fold_byte_range Z.lor orb Z.lor_spec eq_refl); [intros; apply Z.lor_nonneg; lia|lia]).
    by rewrite (fold_byte_bit Z.lor orb Z.lor_spec), fold_or, Z.bits_0.
  - rewrite code_of_code by (apply (fold_byte_range Z.lxor xorb Z.lxor_spec eq_refl); [intros; apply Z.lxor_nonneg; lia|lia]).
    by rewrite (fold_byte_bit Z.lxor xorb Z.lxor_spec), fold_xor, Z.bits_0, xorb_false_l.
  - destruct (Hnot eq_refl) as [s ->]. cbn [head fmap list_fmap from_option id]. unfold longest in Hd. cbn [foldl] in Hd.
    destruct (lookup_lt_is_Some_2 s (p / 8) ltac:(lia)) as [c Hc]. unfold char_at. rewrite Hc.
    unfold bit_at. rewrite bits_lookup, Hc. cbn [fmap option_fmap option_map from_option id].
    assert (Hu : (0 ≤ u8 (Z.lnot (code c)) < 256)%Z) by (apply Z.mod_pos_bound; lia). rewrite code_of_code by done.
    unfold u8, wrap. rewrite Z.mod_pow2_bits_low by lia. rewrite Z.lnot_spec by lia. done.
Qed.

(** ** The rules of the bitmap commands

    SETBIT, GETBIT, BITCOUNT, BITPOS and BITOP on the bits of strings, beside the
    other types of the typed store. *)

Section BitmapContract.
Context {P : Platform} {HD : DoubleText} {HZ : Horizon}.
Implicit Types (c : Ctx) (m : store) (key : bytes) (now : Z) (args : list bytes).

(** The bits of a key; none when there is no string. *)
Definition bits_at key m : list bool := bits_of (default [] (str_at key m)).

Definition bad_offset : bytes := B "ERR offset is not an integer or out of range".

Definition rule_getbit : rule := det (λ now args m,
  match args with
  | [key; x] =>
      match SimpleAtoi x with
      | None => error bad_offset m
      | Some i => if (i <? 0)%Z then error (B "ERR offset is out of range") m else (reply_bool (bit_at (bits_at key m) (Z.to_nat i)), m)
      end
  | _ => error (wrong_number (B "getbit")) m
  end).

(** The answer is the bit that was set. *)
Definition rule_setbit : rule := det (λ now args m,
  match args with
  | [key; x; y] =>
      match SimpleAtoi x with
      | None => error bad_offset m
      | Some i =>
          match SimpleAtoi y with
          | None => error not_integer m
          | Some v =>
              if (i <? 0)%Z || negb (v =? 0)%Z && negb (v =? 1)%Z then error (B "ERR offset or value is out of range") m
              else (reply_int v, put key (VStr (of_bits (set_bit (Z.to_nat i) (v =? 1)%Z (bits_at key m)))) m)
          end
      end
  | _ => error (wrong_number (B "setbit")) m
  end).

(** There is memory for the byte of the offset. *)
Definition setbit_side now args : Prop :=
  match args with _ :: x :: _ => ∀ i, SimpleAtoi x = Some i → can_allocate (Z.quot i 8 + 1) = true | _ => True end.
Definition setbit_ok now args m : Prop := key_is kString now args m ∧ setbit_side now args.

(** The indices of a range of bytes. *)
Definition range_of (len : Z) (opts : list bytes) : option (Z * Z) :=
  match opts with
  | [] => Some (0, len - 1)%Z
  | [x] => a ← SimpleAtoi x; Some (a, len - 1)%Z
  | x :: y :: _ => a ← SimpleAtoi x; b ← SimpleAtoi y; Some (a, b)
  end.
Definition in_bytes (s : bytes) (opts : list bytes) (f : Z → Z → CommandResult) m : CommandResult * store :=
  match range_of (zlen s) opts with
  | None => error not_integer m
  | Some (a, b) => (f (from_end (zlen s) a) (from_end (zlen s) b), m)
  end.

Definition rule_bitcount : rule := det (λ now args m,
  match args with
  | key :: opts =>
      if 2 <? length opts then error (wrong_number (B "bitcount")) m
      else match str_at key m with
           | None => (reply_int 0, m)
           | Some s => in_bytes s opts (λ a b, reply_int (i64 (Z.of_nat (length (hits true a b (bits_of s)))))) m
           end
  | [] => error (wrong_number (B "bitcount")) m
  end).

Definition rule_bitpos : rule := det (λ now args m,
  match args with
  | key :: x :: opts =>
      if 2 <? length opts then error (wrong_number (B "bitpos")) m
      else match SimpleAtoi x with
           | None => error not_integer m
           | Some v =>
               if negb (v =? 0)%Z && negb (v =? 1)%Z then error (B "ERR bit value must be 0 or 1") m
               else match str_at key m with
                    | None => (reply_int (if (v =? 1)%Z then -1 else 0), m)
                    | Some s => in_bytes s opts (λ a b, reply_int
                        match hits (v =? 1)%Z a b (bits_of s) with [] => -1 | p :: _ => Z.of_nat p end) m
                    end
           end
  | _ => error (wrong_number (B "bitpos")) m
  end).

Definition rule_bitop : rule := det (λ now args m,
  match args with
  | op :: dest :: ((_ :: _) as keys) =>
      match operation_of op with
      | None => error (B "ERR syntax error, unknown BITOP operation") m
      | Some o =>
          if bool_decide (o = OpNot) && negb (length keys =? 1) then error (B "ERR BITOP NOT must be called with a single source key") m
          else let s := of_bits (op_bits o ((λ k, bits_at k m) <$> keys)) in (reply_int (zlen s), put dest (VStr s) m)
      end
  | _ => error (wrong_number (B "bitop")) m
  end).
Definition bitop_ok now args m : Prop := match args with _ :: dest :: _ => has_type kString dest m | _ => True end.

(** ** The handlers *)

Lemma getbit_serves : serves any_args HandleGetBit rule_getbit.
Proof.
  unfold HandleGetBit. st_auto; unfold rule_getbit, det; change (arg_text 1 _) with f in *; change (arg_text 0 _) with k in *.
  - rewrite H. b2p. rewrite (proj2 (Z.ltb_ge _ _)) by done. unfold bits_at. rewrite <- GetBit_bit, Z2Nat.id by done. f_equal.
    destruct (str_at k m); [done|]. cbn [from_option]. unfold GetBit. rewrite (proj2 (Z.ltb_ge _ _)) by done. by rewrite lookup_nil.
  - rewrite H. b2p. by rewrite (proj2 (Z.ltb_lt _ _)) by lia.
  - by rewrite H.
Qed.

Lemma wp_allocated x s c (Q : bytes + outcome → Ctx → Prop) : x = Some s → Q (inl s) c → wp (allocated x) Q c.
Proof. by intros ->. Qed.

Lemma setbit_serves : serves setbit_ok HandleSetBit rule_setbit.
Proof.
  unfold HandleSetBit. intros now name args c m Hn Hs [Hk Hok]. destruct args as [|k [|f [|x [|y args]]]];
    cbn [fmap list_fmap length ArgCount cmd_args Nat.eqb]; repeat st_step; try st_end;
    unfold rule_setbit, det; change (arg_text 0 _) with k in *; change (arg_text 1 _) with f in *; change (arg_text 2 _) with x in *.
  - apply negb_true_iff in E. assert (E' := E). apply orb_false_elim in E' as [Ei _]. apply Z.ltb_ge in Ei. rename y into i, y0 into v.
    assert (Ha := Hok i H). rewrite <- (Z2Nat.id i) in Ha by done. rewrite quot_8 in Ha.
    destruct (SetBit_some (default [] (str_at k m)) (Z.to_nat i) (v =? 1)%Z Ha) as [s Es]. rewrite Z2Nat.id in Es by done.
    apply (wp_allocated _ _ _ _ Es). repeat st_step. apply (wp_put now k s c' m _ Hs Hk). clear Hs. intros c1 Hs. repeat st_step. st_end.
    unfold det. rewrite H, H0, E. rewrite <- (Z2Nat.id i) in Es by done. apply SetBit_bits in Es. unfold bits_at. by rewrite <- Es, of_bits_of.
  - rewrite H, H0. apply negb_false_iff in E. by rewrite E.
  - by rewrite H, H0.
  - by rewrite H.
Qed.

(** The two optional indices. *)
Lemma wp_index i otherwise cmd c (Q : Z + outcome → Ctx → Prop) :
  (∀ x, (if i <? ArgCount cmd then SimpleAtoi (arg_text i cmd) else Some otherwise) = Some x → Q (inl x) c) →
  ((if i <? ArgCount cmd then SimpleAtoi (arg_text i cmd) else Some otherwise) = None → Q (inr (Returned (Failure not_integer))) c) →
  wp (index_arg i otherwise cmd) Q c.
Proof. intros H1 H2. unfold index_arg. destruct (i <? ArgCount cmd); [apply wp_need; auto|]. apply wp_ret. by apply H1. Qed.

(** A test that failed or did not. *)
Ltac unneg H :=
  lazymatch type of H with negb _ = true => apply negb_true_iff in H | negb _ = false => apply negb_false_iff in H | _ => idtac end.

(** The range of the indices that follow argument [i]. *)
Lemma wp_range (i : nat) name (before opts : list bytes) (s : bytes) c (f : Z → Z → CommandResult) (Q : CommandResult + outcome → Ctx → Prop) m :
  length before = i → length opts ≤ 2 →
  (∀ r, in_bytes s opts f m = (r, m) → Q (inl r) c ∧ Q (inr (Returned r)) c) →
  let cmd := MkCommand name (bulk <$> (before ++ opts)) in
  ∀ g : Z → Z → CommandResult, (∀ a b, (let '(start, stop) := clamp_bytes (zlen s) a b in g start stop) = f (from_end (zlen s) a) (from_end (zlen s) b)) →
  wp (start ← index_arg i 0 cmd; stop ← index_arg (S i) (zlen s - 1) cmd;
      let '(start, stop) := clamp_bytes (zlen s) start stop in mret (g start stop)) Q c.
Proof.
  intros Hi Ho HQ cmd g Hg.
  assert (Hc : ArgCount cmd = i + length opts) by (unfold ArgCount, cmd; cbn [cmd_args]; rewrite length_fmap, length_app; lia).
  assert (Ha : ∀ j x, opts !! j = Some x → arg_text (i + j) cmd = x).
  { intros j x Hx. unfold arg_text, arg, cmd. cbn [cmd_args]. rewrite list_lookup_fmap, lookup_app_r by lia. replace (i + j - length before) with j by lia. by rewrite Hx. }
  assert (Hend : ∀ a b, range_of (zlen s) opts = Some (a, b) → wp (let '(start, stop) := clamp_bytes (zlen s) a b in mret (g start stop)) Q c).
  { intros a b E. assert (Hf := Hg a b). destruct (clamp_bytes (zlen s) a b) as [start stop]. apply wp_ret.
    apply (HQ (g start stop)). unfold in_bytes. by rewrite E, Hf. }
  assert (Hnone : range_of (zlen s) opts = None → Q (inr (Returned (Failure not_integer))) c).
  { intros E. apply (HQ (Failure not_integer)). unfold in_bytes. by rewrite E. }
  destruct opts as [|x [|y [|z opts]]]; cbn [length] in *; [..|lia].
  - apply wp_bind, wp_index; rewrite Hc, (proj2 (Nat.ltb_ge _ _)) by lia; [|done]. intros ? [= <-].
    apply wp_bind, wp_index; rewrite Hc, (proj2 (Nat.ltb_ge _ _)) by lia; [|done]. intros ? [= <-]. by apply Hend.
  - assert (Ex := Ha 0 x eq_refl). rewrite Nat.add_0_r in Ex. cbn [range_of] in *.
    apply wp_bind, wp_index; rewrite Hc, (proj2 (Nat.ltb_lt _ _)), Ex by lia; intros; [|by apply Hnone; rewrite H].
    apply wp_bind, wp_index; rewrite Hc, (proj2 (Nat.ltb_ge _ _)) by lia; [|done]. intros ? [= <-]. apply Hend. by rewrite H.
  - assert (Ex := Ha 0 x eq_refl). rewrite Nat.add_0_r in Ex. assert (Ey := Ha 1 y eq_refl). rewrite Nat.add_1_r in Ey. cbn [range_of] in *.
    apply wp_bind, wp_index; rewrite Hc, (proj2 (Nat.ltb_lt _ _)), Ex by lia; intros; [|by apply Hnone; rewrite H].
    apply wp_bind, wp_index; rewrite Hc, (proj2 (Nat.ltb_lt _ _)), Ey by lia; intros; [apply Hend|apply Hnone]; by rewrite H, H0.
Qed.

Lemma bitcount_serves : serves any_args HandleBitCount rule_bitcount.
Proof.
  unfold HandleBitCount. intros now name args c m Hn Hs _. destruct args as [|k opts]; [repeat st_step; st_end|].
  assert (Ec : ArgCount (MkCommand name (bulk <$> k :: opts)) = S (length opts)) by (unfold ArgCount; cbn; by rewrite length_fmap).
  rewrite Ec. repeat st_step; unneg E; change (arg_text 0 _) with k in *.
  - apply orb_false_elim in E as [_ El]. apply Nat.ltb_ge in El. destruct (str_at k m) as [s|] eqn:Es.
    2: { repeat st_step. st_end. unfold rule_bitcount, det. by rewrite Es, (proj2 (Nat.ltb_ge _ _)) by lia. }
    eapply (wp_range 1 name [k] opts s c' (λ a b, reply_int (i64 (Z.of_nat (length (hits true a b (bits_of s)))))) _ m eq_refl); [lia| |].
    + intros r Hr. assert (Hrule : rule_bitcount now (k :: opts) m r m).
      { unfold rule_bitcount, det. by rewrite Es, (proj2 (Nat.ltb_ge _ _)) by lia. }
      split; [by eapply follows_ret|by eapply follows_stop].
    + intros a b. assert (Hc := count_range s a b). destruct (clamp_bytes _ _ _) as [start stop]. by rewrite Hc, i64_u64.
  - st_end. unfold rule_bitcount, det. rewrite (proj2 (Nat.ltb_lt _ _)); [done|]. apply orb_prop in E as [E|E]; apply Nat.ltb_lt in E; lia.
Qed.

Lemma bitpos_serves : serves any_args HandleBitPos rule_bitpos.
Proof.
  unfold HandleBitPos. intros now name args c m Hn Hs _. destruct args as [|k [|x opts]]; [repeat st_step; st_end..|].
  assert (Ec : ArgCount (MkCommand name (bulk <$> k :: x :: opts)) = S (S (length opts))) by (unfold ArgCount; cbn; by rewrite length_fmap).
  rewrite Ec. st_step. apply wp_require; intros E; cbv beta iota; unneg E.
  2: { st_end. unfold rule_bitpos, det. rewrite (proj2 (Nat.ltb_lt _ _)); [done|]. apply orb_prop in E as [E|E]; apply Nat.ltb_lt in E; lia. }
  apply orb_false_elim in E as [_ El]. apply Nat.ltb_ge in El. assert (Eo : (2 <? length opts) = false) by (apply Nat.ltb_ge; lia).
  repeat st_step; change (arg_text 0 _) with k in *; change (arg_text 1 _) with x in *; try unneg E.
  2: { st_end. unfold rule_bitpos, det. by rewrite Eo, H, E. }
  2: { st_end. unfold rule_bitpos, det. by rewrite Eo, H. }
  destruct (str_at k m) as [s|] eqn:Es.
  2: { repeat st_step. st_end. unfold rule_bitpos, det. by rewrite Eo, H, E, Es. }
  eapply (wp_range 2 name [k; x] opts s c' (λ a b, reply_int match hits (y =? 1)%Z a b (bits_of s) with [] => -1 | p :: _ => Z.of_nat p end) _ m eq_refl); [lia| |].
  - intros r Hr. assert (Hrule : rule_bitpos now (k :: x :: opts) m r m) by (unfold rule_bitpos, det; by rewrite Eo, H, E, Es).
    split; [by eapply follows_ret|by eapply follows_stop].
  - intros a b. assert (Hc := pos_range (y =? 1)%Z s a b). destruct (clamp_bytes _ _ _) as [start stop]. by rewrite Hc.
Qed.

(** The values of the sources. *)
Lemma sources_wp now (keys : list bytes) c m (Q : list bytes + outcome → Ctx → Prop) : ∀ l,
  stands c m → (∀ c', stands c' m → Q (inl (l ++ ((λ k, default [] (str_at k m)) <$> keys))) c') →
  wp (mfold (λ l key, value ← on_db (DbGet now key); mret (l ++ [default [] value])) l keys) Q c.
Proof.
  revert c. induction keys as [|k keys IH]; intros c l Hs HQ; cbn [mfold].
  - apply wp_ret. rewrite <- (app_nil_r l). by apply HQ.
  - repeat st_step. apply IH; [done|]. intros c2 H2. rewrite <- app_assoc. by apply HQ.
Qed.

Lemma operation_not op : operation_of op = Some OpNot → op = B "NOT".
Proof. unfold operation_of. by repeat case_decide. Qed.

Lemma bitop_serves beyond : serves bitop_ok (HandleBitOp beyond) rule_bitop.
Proof.
  unfold HandleBitOp. intros now name args c m Hn Hs Hok. destruct args as [|op [|dest [|k keys]]]; [repeat st_step; st_end..|].
  set (sources := k :: keys) in *. st_step. apply wp_require; [intros _|intros E; discriminate E]. st_step.
  destruct Hs as [(Hw & Hcl & Hbl) Hm]. unfold workers_of, wp at 1. cbn [fst snd]. rewrite (proj2 (Nat.ltb_ge _ _)) by done.
  assert (Hs : stands c m) by done. clear Hw Hcl Hbl Hm. change (drop 2 _) with (bulk <$> sources). rewrite bulk_values.
  apply wp_bind, (sources_wp now sources c m _ [] Hs). clear Hs. intros c1 Hs. cbv beta iota. rewrite app_nil_l.
  set (ss := (λ k, default [] (str_at k m)) <$> sources). apply wp_bind. unfold combine. change (arg_text 0 _) with op. change (arg_text 1 _) with dest.
  destruct (operation_of op) as [o|] eqn:Eo; [|unfold fail, stop, wp; cbn [fst snd]; st_end; unfold rule_bitop, det, sources; by rewrite Eo].
  assert (Hl : length ss = length sources) by apply length_fmap. rewrite Hl.
  repeat st_step; unneg E.
  2: { st_end. unfold rule_bitop, det, sources in *. by rewrite Eo, E. }
  set (s := bitop _ _ _ _). apply (wp_put now dest s c1 m _ Hs Hok). clear Hs. intros c2 Hs. repeat st_step. st_end.
  assert (Es : s = of_bits (op_bits o ((λ k, bits_at k m) <$> sources))).
  { rewrite <- (of_bits_of s). f_equal. unfold s. change (foldl _ 0 ss) with (longest ss). rewrite bitop_bits.
    - unfold ss. by rewrite <- list_fmap_compose.
    - intros ->. rewrite bool_decide_eq_true_2 in E by done. apply negb_false_iff, Nat.eqb_eq in E. rewrite <- Hl in E.
      destruct ss as [|s1 [|s2 ss]]; try discriminate E. by exists s1. }
  unfold rule_bitop, det, sources in *. by rewrite Eo, E, Es.
Qed.
End BitmapContract.
