(* ===== verification/ZSetRules.v ===== *)
(** * The rules of the sorted-set commands

    For the handlers of [ZSetCommands], what they answer and leave for every list of
    bulk strings, and that they follow it.  The members a command adds are known
    ([universe]) and its scores are numbers; under these conditions the handlers never
    come to what is [undefined]. *)
From Stdlib Require Import SpecFloat.
From stdpp Require Import sorting.
From S2P Require Import Prelude.
From S2P Require Import OrderedSet.
From S2P Require Import ZSet.
From S2P Require Import ZSetContract.
From S2P Require Import Simd.
From S2P Require Import Numbers.
From S2P Require Import Text.
From S2P Require Import RespTypes.
From S2P Require Import Executor.
From S2P Require Import KeyMetadata.
From S2P Require Import Eviction.
From S2P Require Import Rocks.
From S2P Require Import Database.
From S2P Require Import DatabaseTypes.
From S2P Require Import DatabaseZSets.
From S2P Require Import Commands.
From S2P Require Import StringCommands.
From S2P Require Import HashCommands.
From S2P Require Import SetCommands.
From S2P Require Import ListCommands.
From S2P Require Import ZSetCommands.
From S2P Require Import StringLog.
From S2P Require Import TypedStore.
From S2P Require Import TypedZSets.
From S2P Require Import TypedCommands.
From S2P Require Import SetContract.

#[export] Hint Resolve does_zadd does_zrem does_zscore does_zcard does_zcount does_zrank does_zrange does_zrangebyrank does_zrangebyscore : store_ops.
#[export] Hint Extern 1 (_ ∈ universe) => assumption : store_ops.
#[export] Hint Extern 1 (is_nan _ = false) => assumption : store_ops.

Section ZSetRules.
Context {P : Platform} {HD : DoubleText} {HZ : Horizon} (undefined : Ctx → Ctx * outcome).
Implicit Types (c : Ctx) (m : store) (key x : bytes) (now : Z) (args xs : list bytes) (M : gmap bytes Score).

(** ** Members and scores *)

(** The pairs of ZADD, until a score is no number; what was added before stays. *)
Fixpoint zadd_pairs key xs (n : Z) m : CommandResult * store :=
  match xs with
  | s :: x :: xs =>
      match atod s ≫= score_of with
      | None => error not_float m
      | Some s =>
          let M := zset_at key m in
          zadd_pairs key xs (count_if (bool_decide (M !! x = None)) n) (put key (VZSet (zadd_spec x s M)) m)
      end
  | _ => (reply_int n, m)
  end.

Definition a_number (s : bytes) : Prop := ∀ d, atod s = Some d → is_nan d = false.
Fixpoint known_pairs xs : Prop :=
  match xs with s :: x :: xs => a_number s ∧ x ∈ universe ∧ known_pairs xs | _ => True end.

Definition rule_zadd : rule := det (λ now args m,
  if negb ((length args <? 3) || negb (length args mod 2 =? 1)) then zadd_pairs (default [] (head args)) (drop 1 args) 0 m
  else error (wrong_number (B "ZADD")) m).

Definition without (xs : list bytes) M : gmap bytes Score := foldl (λ M x, delete x M) M xs.
Definition rule_zrem : rule := det (λ now args m,
  match args with
  | key :: ((_ :: _) as xs) =>
      let M := zset_at key m in
      (reply_int (Z.of_nat (size M) - Z.of_nat (size (without xs M))), change key (on_scored (without xs)) m)
  | _ => error (wrong_number (B "ZREM")) m
  end).

Definition rule_zscore : rule := det (λ now args m,
  match args with [key; x] => (Success (score_or_nil (zset_at key m !! x)), m) | _ => error (wrong_number (B "ZSCORE")) m end).
Definition rule_zmscore : rule := det (λ now args m,
  match args with
  | key :: ((_ :: _) as xs) => (reply_array ((λ x, score_or_nil (zset_at key m !! x)) <$> xs), m)
  | _ => error (wrong_number (B "ZMSCORE")) m
  end).
Definition rule_zcard : rule := det (λ now args m,
  match args with [key] => (reply_int (i64 (Z.of_nat (size (zset_at key m)))), m) | _ => error (wrong_number (B "ZCARD")) m end).

Definition rule_zcount : rule := det (λ now args m,
  match args with
  | [key; a; b] =>
      match atod a ≫= score_of, atod b ≫= score_of with
      | Some lo, Some hi => (reply_int (i64 (zlen (scored_between lo hi (zset_at key m)))), m)
      | _, _ => error not_float m
      end
  | _ => error (wrong_number (B "ZCOUNT")) m
  end).
Definition zcount_side now args : Prop := match args with [_; a; b] => a_number a ∧ a_number b | _ => True end.

Definition rule_zincrby : rule := det (λ now args m,
  match args with
  | [key; a; x] =>
      match atod a with
      | None => error not_float m
      | Some increment =>
          let M := zset_at key m in
          match score_of (raised increment x M) with
          | Some s => (Success (resp_double (dval s)), put key (VZSet (zadd_spec x s M)) m)
          | None => error not_float m
          end
      end
  | _ => error (wrong_number (B "ZINCRBY")) m
  end).
Definition zincrby_side now args : Prop :=
  match args with [_; a; x] => x ∈ universe ∧ ∀ d, atod a = Some d → is_finite_double d = true | _ => True end.

Definition rule_rank (name : bytes) (reverse : bool) : rule := det (λ now args m,
  match args with
  | [key; x] =>
      let M := zset_at key m in
      (match rank_in x M with
       | Some i => reply_int (i64 (Z.of_nat (if reverse then size M - 1 - i else i)))
       | None => Success (resp_of_type kNull)
       end, m)
  | _ => error (wrong_number name) m
  end).

(** ** The handlers *)

Lemma zscore_serves : serves any_args HandleZScore rule_zscore.
Proof. unfold HandleZScore. st_auto. Qed.
Lemma zcard_serves : serves any_args HandleZCard rule_zcard.
Proof. unfold HandleZCard. st_auto. Qed.
Lemma rank_serves name reverse : serves any_args (rank_with name reverse) (rule_rank name reverse).
Proof.
  unfold rank_with. st_auto. change (arg_text 0 _) with k. change (arg_text 1 _) with f. unfold rule_rank, det. by destruct (rank_in f _).
Qed.

Lemma a_number_score s d : a_number s → atod s = Some d → ∃ sc, score_of d = Some sc ∧ dval sc = d.
Proof. intros Hs E. apply score_of_number, (Hs d E). Qed.

Lemma wp_as_score d s Q c : score_of d = Some s → Q (inl s) c → wp (as_score undefined d) Q c.
Proof. intros E HQ. unfold as_score. rewrite E. by apply wp_ret. Qed.

(** How a loop ended: with a value, or with an answer. *)
Definition ends {A} (reply : A → CommandResult) (expected : CommandResult * store) (r : A + outcome) c' : Prop :=
  ∃ m', stands c' m' ∧ match r with inl k => expected = (reply k, m') | inr o => ∃ r', o = Returned r' ∧ expected = (r', m') end.

Lemma wp_ends {A} (f : M A) (reply : A → CommandResult) expected c s now args m :
  wp f (ends reply expected) c → (∀ r m', expected = (r, m') → s now args m r m') →
  wp (x ← f; mret (reply x)) (follows s now args m) c.
Proof.
  intros Hf Hs. apply wp_bind. eapply wp_mono; [|exact Hf]. intros [k|o] c' (m' & Hst & E).
  - apply wp_ret. apply (follows_ret _ _ _ _ _ m'); [by apply Hs|done].
  - destruct E as (r' & -> & E). apply (follows_stop _ _ _ _ _ m'); [by apply Hs|done].
Qed.

Lemma zadd_loop_wp now key xs : ∀ c m n,
  stands c m → has_type kZSet key m → known_pairs xs → wp (zadd_loop undefined now key (bulk <$> xs) n) (ends reply_int (zadd_pairs key xs n m)) c.
Proof.
  induction xs as [|x|s x xs IH] using list_pair_ind; intros c m n Hs Ht Hx; [by exists m..|].
  destruct Hx as (Hsc & Hu & Hx). cbn [fmap list_fmap zadd_loop zadd_pairs]. apply wp_bind, wp_require; [intros _|done]. apply wp_bind, wp_need.
  2: { cbn [arg_value bulk]. intros ->. exists m. split; [done|]. by eexists. }
  cbn [arg_value bulk]. intros d Ed. rewrite Ed. destruct (a_number_score s d Hsc Ed) as (sc & Es & _). cbn [mbind option_bind]. rewrite Es.
  apply wp_bind, (wp_as_score d sc); [done|]. apply wp_bind. st_step. by apply IH; [|apply (has_type_put key (VZSet _))|].
Qed.

Definition zadd_ok now args m : Prop := key_is kZSet now args m ∧ known_pairs (drop 1 args).
Lemma zadd_serves : serves zadd_ok (HandleZAdd undefined) rule_zadd.
Proof.
  unfold HandleZAdd. intros now name args c m Hn Hs [Hk Hx]. unfold ArgCount. cbn [cmd_args]. rewrite length_fmap. apply wp_bind, wp_require; intros E.
  2: { st_end. unfold rule_zadd, det. by rewrite E. }
  destruct args as [|k xs]; [done|]. apply wp_bind, wp_require; [intros _|done]. change (drop 1 (bulk <$> k :: xs)) with (bulk <$> xs).
  apply (wp_ends _ reply_int (zadd_pairs k xs 0 m)); [by apply zadd_loop_wp|]. intros r m' Er. unfold rule_zadd, det. by rewrite E.
Qed.

Lemma without_change xs key m : change key (on_scored (without xs)) m = foldl (λ m x, change key (on_scored (delete x)) m) m xs.
Proof.
  revert m. induction xs as [|x xs IH]; intros m; cbn [foldl].
  - apply change_id. by intros [].
  - rewrite <- IH, change_change. apply change_ext. by intros [].
Qed.
Lemma zset_at_change key g m : g ∅ = ∅ → zset_at key (change key (on_scored g) m) = g (zset_at key m).
Proof. intros Hg. unfold zset_at, change. rewrite lookup_alter_eq. by destruct (m !! key) as [[[] e]|]. Qed.
Lemma without_empty xs : without xs ∅ = ∅.
Proof. induction xs as [|x xs IH]; [done|]. cbn. by rewrite delete_empty. Qed.

Lemma count_members_wp now key xs : (now ≤ horizon)%Z → ∀ c m n (Q : Z + outcome → Ctx → Prop),
  stands c m →
  (∀ c', stands c' (change key (on_scored (without xs)) m) →
     Q (inl (n + (Z.of_nat (size (zset_at key m)) - Z.of_nat (size (without xs (zset_at key m)))))%Z) c') →
  wp (mfold (λ count member, done ← on_db (DbZRem now key member); mret (count_if done count)) n xs) Q c.
Proof.
  intros Hn. induction xs as [|x xs IH]; intros c m n Q Hs HQ; cbn [mfold].
  - apply wp_ret. rewrite without_change in HQ. specialize (HQ c Hs). cbn in HQ. by rewrite Z.sub_diag, Z.add_0_r in HQ.
  - apply wp_bind, wp_bind. st_step. apply wp_ret. apply (IH _ _ _ _ Hs). intros c2 H2. rewrite zset_at_change by apply delete_empty.
    change (without xs (delete x (zset_at key m))) with (without (x :: xs) (zset_at key m)). set (M := zset_at key m) in *.
    assert (Ec : count_if (bool_decide (is_Some (M !! x))) n = (n + (Z.of_nat (size M) - Z.of_nat (size (delete x M))))%Z).
    { unfold count_if. rewrite map_size_delete. destruct (M !! x) as [s|] eqn:Ex; cbn; [|lia].
      assert (size M ≠ 0) by (intros E0%map_size_empty_inv; by rewrite E0, lookup_empty in Ex). lia. }
    rewrite Ec. match goal with |- Q (inl ?a) _ => replace a with (n + (Z.of_nat (size M) - Z.of_nat (size (without (x :: xs) M))))%Z by lia end.
    apply HQ. rewrite without_change in H2 |- *. exact H2.
Qed.

Lemma zrem_serves : serves any_args HandleZRem rule_zrem.
Proof.
  unfold HandleZRem. intros now name args c m Hn Hs Hok. destruct args as [|k [|x xs]]; repeat st_step; try st_end.
  apply (count_members_wp now k (x :: xs) ltac:(lia) c m 0); [done|]. clear Hs. intros c' Hs. st_step. st_end.
Qed.

Lemma mscore_loop_wp now key xs : (now ≤ horizon)%Z → ∀ c m acc (Q : list RespValue + outcome → Ctx → Prop),
  stands c m → (∀ c', stands c' m → Q (inl (acc ++ ((λ x, score_or_nil (zset_at key m !! x)) <$> xs))) c') →
  wp (mscore_loop now key (bulk <$> xs) acc) Q c.
Proof.
  intros Hn. induction xs as [|x xs IH]; intros c m acc Q Hs HQ.
  - apply wp_ret. specialize (HQ c Hs). cbn in HQ. by rewrite app_nil_r in HQ.
  - cbn [fmap list_fmap mscore_loop]. repeat st_step. apply (IH c' m); [done|]. intros c2 H2. rewrite <- app_assoc. by apply HQ.
Qed.
Lemma zmscore_serves : serves any_args HandleZMScore rule_zmscore.
Proof.
  unfold HandleZMScore. intros now name args c m Hn Hs Hok. destruct args as [|k [|x xs]]; repeat st_step; try st_end.
  change (drop 1 _) with (bulk <$> (x :: xs)). apply (mscore_loop_wp now k (x :: xs) ltac:(lia) c m []); [done|]. clear Hs. intros c' Hs. st_step. st_end.
Qed.

Lemma zcount_serves : serves (λ now args m, zcount_side now args) (HandleZCount undefined) rule_zcount.
Proof.
  unfold HandleZCount. intros now name args c m Hn Hs Hok. destruct args as [|k [|a [|b [|y args]]]]; repeat st_step; try st_end.
  - destruct Hok as [Ha Hb]. change (arg_text 1 _) with a in *. change (arg_text 2 _) with b in *.
    destruct (a_number_score _ _ Ha H) as (lo & Elo & _), (a_number_score _ _ Hb H0) as (hi & Ehi & _).
    apply (wp_as_score _ lo); [done|]. apply wp_bind, (wp_as_score _ hi); [done|]. repeat st_step. st_end. unfold rule_zcount, det. rewrite H, H0. cbn. by rewrite Elo, Ehi.
  - destruct Hok as [Ha _]. change (arg_text 1 _) with a in *. change (arg_text 2 _) with b in *. unfold rule_zcount, det. rewrite H, H0. cbn.
    by destruct (a_number_score _ _ Ha H) as (lo & -> & _).
  - change (arg_text 1 _) with a in *. unfold rule_zcount, det. by rewrite H.
Qed.

Definition zincrby_ok now args m : Prop := key_is kZSet now args m ∧ zincrby_side now args.
Lemma zincrby_serves : serves zincrby_ok (HandleZIncrBy undefined) rule_zincrby.
Proof.
  unfold HandleZIncrBy. intros now name args c m Hn Hs [Hk Hok]. destruct args as [|k [|a [|x [|y args]]]]; repeat st_step; try st_end.
  - destruct Hok as [Hu Hf]. change (arg_text 1 _) with a in *. change (arg_text 2 _) with x. change (arg_text 0 _) with k.
    destruct (zincrby_models k y x (ctx_db c) m (proj2 Hs) Hk Hu (Hf _ H)) as (db' & s & Ei & Es & Hm). unfold wp at 1, on_scores. rewrite Ei. cbn [on_db fst snd].
    assert (H2 := stands_with db' c m _ Hs Hm). clear Hs. rename H2 into Hs. repeat st_step. unfold follows. eexists _, _. split; [by left|]. split; [|exact Hs].
    unfold rule_zincrby, det. rewrite H. cbn zeta. rewrite <- Es. destruct (score_of_number (dval s) (dval_ok s)) as (s' & -> & E').
    assert (s' = s) as -> by (destruct s, s'; cbn in E'; subst; f_equal; apply (Eqdep_dec.UIP_dec Bool.bool_dec)). done.
  - change (arg_text 1 _) with a in *. unfold rule_zincrby, det. by rewrite H.
Qed.

(** ** Ranges *)

Lemma flat_strip scores (l : list (bytes * Score)) : flat scores (doubles (strip scores l)) = flat scores (doubles l).
Proof.
  destruct scores; [done|]. unfold flat, doubles, strip. induction l as [|y l IH]; [done|]. cbn. cbn in IH. by rewrite IH.
Qed.
Lemma fst_strip scores (l : list (bytes * Score)) : (strip scores l).*1 = l.*1.
Proof. destruct scores; [done|]. unfold strip. induction l as [|y l IH]; [done|]. cbn. by rewrite <- IH. Qed.
Lemma zslice_all {A} (l : list A) : zslice 0 (-1) l = l.
Proof.
  unfold zslice. cbn [Z.ltb Z.compare]. destruct (_ <? 0)%Z eqn:E; b2p; unfold zlen in *; rewrite drop_0, take_ge by lia; done.
Qed.
Lemma lex_strip a b scores (l : list (bytes * Score)) : lex_members a b (strip scores l) = strip scores (lex_members a b l).
Proof.
  destruct scores; [done|]. unfold strip, lex_members. induction l as [|y l IH]; [done|]. rewrite fmap_cons, !filter_cons, IH. cbn [fst].
  by destruct (decide _).
Qed.

Definition rule_zrange : rule := det (λ now args m,
  match args with
  | key :: a :: b :: rest =>
      if 1 <? length rest then error (wrong_number (B "ZRANGE")) m
      else match SimpleAtoi a, SimpleAtoi b with
           | Some i, Some j =>
               let l := doubles (zslice i j (ranked (zset_at key m))) in
               match rest with
               | [] => (reply_members false l, m)
               | o :: _ => if decide (upper o = B "WITHSCORES") then (reply_members true l, m) else error syntax_error m
               end
           | _, _ => error not_integer m
           end
  | _ => error (wrong_number (B "ZRANGE")) m
  end).

Definition rule_zrevrange : rule := det (λ now args m,
  match args with
  | key :: a :: b :: rest =>
      match stoll a, stoll b with
      | Some i, Some j =>
          let scores := match rest with o :: _ => bool_decide (to_lower <$> o = B "withscores") | [] => false end in
          (reply_members scores (doubles (zslice i j (rev (ranked (zset_at key m))))), m)
      | _, _ => error not_integer m
      end
  | _ => error (wrong_number (B "ZREVRANGE")) m
  end).

Definition rule_by_score (name : bytes) (reverse : bool) : rule := det (λ now args m,
  match args with
  | key :: a :: b :: rest =>
      match range_options (bulk <$> rest) false false 0 (-1) with
      | inr message => error message m
      | inl (scores, limit) =>
          match score_range (if reverse then b else a) (if reverse then a else b) reverse scores limit (zset_at key m) with
          | Some l => (reply_members scores (doubles l), m)
          | None => error not_float m
          end
      end
  | _ => error (wrong_number name) m
  end).
Definition bounds_side now args : Prop :=
  match args with _ :: a :: b :: _ => is_nan (parse_score a).2 = false ∧ is_nan (parse_score b).2 = false | _ => True end.

Lemma reply_strip scores (l : list (bytes * Score)) : reply_members scores (doubles (strip scores l)) = reply_members scores (doubles l).
Proof. unfold reply_members. by rewrite flat_strip. Qed.

(** A test on the number and types of the arguments. *)
Ltac st_if := match goal with |- wp (if ?b then _ else _) _ _ => let v := eval vm_compute in b in change b with v; cbv iota end.

Lemma zrange_serves : serves any_args HandleZRange rule_zrange.
Proof.
  unfold HandleZRange. intros now name args c m Hn Hs Hok. destruct args as [|k [|a [|b [|o [|y args]]]]];
    repeat (st_step || st_if); try st_end; change (arg_text 0 _) with k in *; change (arg_text 1 _) with a in *; change (arg_text 2 _) with b in *;
    unfold rule_zrange, det; cbn [length Nat.ltb Nat.leb];
    repeat match goal with H : SimpleAtoi _ = _ |- _ => rewrite H; clear H end; try done.
  - by rewrite reply_strip.
  - change (arg_text 3 _) with o in *. apply bool_decide_eq_true in E1. rewrite decide_True by done. by rewrite reply_strip.
  - change (arg_text 3 _) with o in *. apply bool_decide_eq_false in E1. by rewrite decide_False.
Qed.

Lemma zrevrange_serves : serves any_args HandleZRevRange rule_zrevrange.
Proof.
  unfold HandleZRevRange. intros now name args c m Hn Hs Hok. destruct args as [|k [|a [|b rest]]]; repeat st_step; try st_end;
    change (arg_text 0 _) with k in *; change (arg_text 1 _) with a in *; change (arg_text 2 _) with b in *; unfold rule_zrevrange, det;
    repeat match goal with H : stoll _ = _ |- _ => rewrite H; clear H end; try done.
  rewrite reply_strip. by destruct rest.
Qed.

Lemma score_range_number a b reverse scores limit M :
  is_nan (parse_score a).2 = false → is_nan (parse_score b).2 = false → is_Some (score_range a b reverse scores limit M).
Proof.
  intros Ha Hb. unfold score_range. destruct (parse_score a) as [ea da], (parse_score b) as [eb db]. cbn [snd] in *.
  destruct (score_of_number da Ha) as (lo & -> & _), (score_of_number db Hb) as (hi & -> & _). by eexists.
Qed.

Lemma by_score_serves name reverse :
  serves (λ now args m, bounds_side now args) (range_by_score undefined name reverse) (rule_by_score name reverse).
Proof.
  unfold range_by_score. intros now name' args c m Hn Hs Hok. destruct args as [|k [|a [|b rest]]]; repeat st_step; try st_end. destruct Hok as [Ha Hb].
  change (drop 3 _) with (bulk <$> rest). change (arg_text 0 _) with k. unfold rule_by_score.
  destruct (range_options (bulk <$> rest) false false 0 (-1)) as [[scores limit]|message] eqn:Eo.
  2: { unfold fail, stop, wp. cbn [fst snd]. st_end. unfold det. by rewrite Eo. }
  assert (E1 : arg_text (if reverse then 2 else 1) (MkCommand name' (bulk <$> k :: a :: b :: rest)) = if reverse then b else a) by (by destruct reverse).
  assert (E2 : arg_text (if reverse then 1 else 2) (MkCommand name' (bulk <$> k :: a :: b :: rest)) = if reverse then a else b) by (by destruct reverse).
  rewrite E1, E2. assert (H1 : is_nan (parse_score (if reverse then b else a)).2 = false) by (by destruct reverse).
  assert (H2 : is_nan (parse_score (if reverse then a else b)).2 = false) by (by destruct reverse). repeat st_step.
  destruct (score_range_number _ _ reverse scores limit (zset_at k m) H1 H2) as [l El]. rewrite El. st_step. st_end. unfold det. by rewrite Eo, El.
Qed.

(** ** Ranges of members *)

Definition between (a b : bytes) M : list (bytes * Score) := lex_members a b (ranked M).

Definition rule_zlexcount : rule := det (λ now args m,
  match args with
  | [key; a; b] => (reply_int (zlen (between a b (zset_at key m))), m)
  | _ => error (wrong_number (B "ZLEXCOUNT")) m
  end).

Definition rule_zrangebylex : rule := det (λ now args m,
  match args with
  | key :: a :: b :: rest =>
      match lex_options (bulk <$> rest) 0 (2 ^ 64 - 1) with
      | inr message => error message m
      | inl (offset, count) =>
          if decide (zset_at key m = ∅) then (Success (resp_of_type kNullArray), m)
          else (reply_strings (take (Z.to_nat count) (drop (Z.to_nat offset) (between a b (zset_at key m)).*1)), m)
      end
  | _ => error (wrong_number (B "ZRANGEBYLEX")) m
  end).

(** The bounds are the other way round; the order is not. *)
Definition rule_zrevrangebylex : rule := det (λ now args m,
  match args with
  | key :: b :: a :: _ =>
      (if decide (zset_at key m = ∅) then Success (resp_of_type kNullArray) else reply_strings (between a b (zset_at key m)).*1, m)
  | _ => error (wrong_number (B "ZREVRANGEBYLEX")) m
  end).

(** Members that go, and how many they are. *)
Definition removes (name : bytes) (which : list bytes → gmap bytes Score → list bytes) : rule := det (λ now args m,
  match args with
  | [key; _; _] => let xs := which args (zset_at key m) in (reply_int (zlen xs), change key (on_scored (without xs)) m)
  | _ => error (wrong_number name) m
  end).
Definition rule_zremrangebylex : rule := removes (B "ZREMRANGEBYLEX") (λ args M, (between (args !!! 1) (args !!! 2) M).*1).
Definition rule_zremrangebyscore : rule := removes (B "ZREMRANGEBYSCORE") (λ args M,
  (filter (λ y : bytes * Score, in_scores (parse_bound (args !!! 1)) (parse_bound (args !!! 2)) (dval y.2) = true) (ranked M)).*1).
Definition rule_zremrangebyrank : rule := det (λ now args m,
  match args with
  | [key; a; b] =>
      match SimpleAtoi a, SimpleAtoi b with
      | Some i, Some j =>
          let xs := (rank_members i j (ranked (zset_at key m))).*1 in (reply_int (zlen xs), change key (on_scored (without xs)) m)
      | _, _ => error not_integer m
      end
  | _ => error (wrong_number (B "ZREMRANGEBYRANK")) m
  end).

(** The range replaces the destination, which goes when it is empty. *)
Definition rule_zrangestore : rule := det (λ now args m,
  match args with
  | destination :: source :: a :: b :: _ =>
      let l := between a b (zset_at source m) in
      (reply_int (zlen l),
       match l with [] => delete destination m | _ => <[destination := (VZSet (list_to_map l), None)]> m end)
  | _ => error (wrong_number (B "ZRANGESTORE")) m
  end).

Lemma ranked_nil M : ranked M = [] ↔ M = ∅.
Proof.
  split; [|intros ->; apply ranked_empty]. intros E. apply map_size_empty_inv. by rewrite <- length_ranked, E.
Qed.

Lemma wp_every now key scores c m Q :
  (now ≤ horizon)%Z → stands c m → (∀ c', stands c' m → Q (inl (strip scores (ranked (zset_at key m)))) c') → wp (every_member now key scores) Q c.
Proof.
  intros Hn Hs HQ. unfold every_member. eapply (wp_does _ c m _ _ _ Hs); [by apply does_zrangebyrank|]. intros c' Hs'. rewrite zslice_all. by apply HQ.
Qed.

Lemma zlexcount_serves : serves any_args HandleZLexCount rule_zlexcount.
Proof.
  unfold HandleZLexCount. intros now name args c m Hn Hs Hok. destruct args as [|k [|a [|b [|y args]]]]; repeat st_step; try st_end.
  apply (wp_every _ _ _ c m); [lia|done|]. clear Hs. intros c' Hs. st_step. st_end. unfold rule_zlexcount, det, between. rewrite lex_strip.
  unfold strip, zlen. by rewrite length_fmap.
Qed.

Definition slice_ok (x : Z * Z) : Prop := x = (0, 2 ^ 64 - 1)%Z ∨ (0 ≤ x.1 < 2 ^ 63 ∧ 0 ≤ x.2 < 2 ^ 63)%Z.

Lemma lex_options_ok {AN : AbslNumbersOk} (args : list CommandArg) : ∀ (o n : Z) (r : Z * Z), slice_ok (o, n) → lex_options args o n = inl r → slice_ok r.
Proof.
  induction args as [args IH] using (induction_ltof1 _ (@length CommandArg)). unfold ltof in IH. destruct args as [|a args]; intros o n r Ho; [cbn; congruence|].
  cbn [lex_options]. destruct (negb (is_bulk a)); [done|]. destruct args as [|y [|z rest]]; [apply IH; cbn; lia || done..|].
  destruct (decide _); [|apply IH; [cbn; lia|done]]. destruct (SimpleAtoi (arg_value y)) as [o'|] eqn:E1; [|done]. destruct (o' <? 0)%Z eqn:E2; [done|].
  destruct (SimpleAtoi (arg_value z)) as [n'|] eqn:E3; [|done]. destruct (n' <? 0)%Z eqn:E4; [done|]. b2p. apply SimpleAtoi_range in E1, E3. unfold in_i64 in *.
  apply IH; [cbn; lia|]. right. cbn. lia.
Qed.

Lemma lex_slice {A} (l : list A) (offset count : Z) :
  slice_ok (offset, count) → (Z.of_nat (length l) < 2 ^ 32)%Z →
  let start := Z.min offset (zlen l) in let stop := Z.min (u64 (start + count)) (zlen l) in
  take (Z.to_nat (stop - start)) (drop (Z.to_nat start) l) = take (Z.to_nat count) (drop (Z.to_nat offset) l).
Proof.
  intros Hok Hl. cbv zeta. unfold zlen. assert (Hu : u64 (Z.min offset (Z.of_nat (length l)) + count) = (Z.min offset (Z.of_nat (length l)) + count)%Z).
  { apply u64_small. unfold in_u64. destruct Hok as [[= -> ->]|Hok]; cbn in *; lia. }
  rewrite Hu. assert (H0 : (0 ≤ offset ∧ 0 ≤ count)%Z) by (destruct Hok as [[= -> ->]|Hok]; cbn in *; lia).
  destruct (Z.le_gt_cases (Z.of_nat (length l)) offset) as [Hle|Hgt].
  - rewrite (drop_ge l (Z.to_nat offset)) by lia. rewrite drop_ge by lia. by rewrite !take_nil.
  - rewrite (Z.min_l offset) by lia. destruct (Z.le_gt_cases (Z.of_nat (length l)) (offset + count)) as [H1|H1].
    + rewrite !take_ge; [done|rewrite length_drop; lia..].
    + rewrite Z.min_l by lia. f_equal. lia.
Qed.

Lemma between_small c m key a b : stands c m → (Z.of_nat (length (between a b (zset_at key m)).*1) < 2 ^ 32)%Z.
Proof.
  intros [_ H]. assert (Hd := models_universe _ _ key H). apply subseteq_size in Hd. rewrite size_dom in Hd. assert (Hu := universe_size).
  rewrite length_fmap. unfold between, lex_members. assert (Hf := length_filter (λ y : bytes * Score, in_lex (parse_lex a) (parse_lex b) y.1 = true) (ranked (zset_at key m))).
  rewrite length_ranked in Hf. lia.
Qed.

Lemma strip_nil scores (l : list (bytes * Score)) : strip scores l = [] ↔ l = [].
Proof. destruct scores; [done|]. unfold strip. by destruct l. Qed.

Lemma zrangebylex_serves {AN : AbslNumbersOk} : serves any_args HandleZRangeByLex rule_zrangebylex.
Proof.
  unfold HandleZRangeByLex. intros now name args c m Hn Hs Hok. destruct args as [|k [|a [|b rest]]]; repeat st_step; try st_end. unfold rule_zrangebylex.
  change (drop 3 _) with (bulk <$> rest). destruct (lex_options (bulk <$> rest) 0 (2 ^ 64 - 1)) as [[offset count]|message] eqn:Eo.
  2: { unfold fail, stop, wp. cbn [fst snd]. st_end. unfold det. by rewrite Eo. }
  apply wp_bind, (wp_every _ _ _ c m); [lia|done|]. clear Hs. intros c' Hs. change (arg_text 0 _) with k. change (arg_text 1 _) with a. change (arg_text 2 _) with b.
  destruct (strip false (ranked (zset_at k m))) as [|y l] eqn:El.
  - st_step. st_end. unfold det. rewrite Eo. apply strip_nil, ranked_nil in El. by rewrite decide_True.
  - rewrite <- El. st_step. st_end. unfold det. rewrite Eo, decide_False by (intros E1; by rewrite E1, ranked_empty in El).
    rewrite lex_strip, fst_strip. fold (between a b (zset_at k m)). do 2 f_equal.
    symmetry. apply (lex_slice (between a b (zset_at k m)).*1); [|by eapply between_small]. apply (lex_options_ok _ _ _ _ (or_introl eq_refl) Eo).
Qed.

Lemma zrevrangebylex_serves : serves any_args HandleZRevRangeByLex rule_zrevrangebylex.
Proof.
  unfold HandleZRevRangeByLex. intros now name args c m Hn Hs Hok. destruct args as [|k [|b [|a rest]]]; repeat st_step; try st_end. unfold rule_zrevrangebylex.
  change (arg_text 0 _) with k in *. change (arg_text 1 _) with b. change (arg_text 2 _) with a. rewrite zslice_all.
  destruct (strip false (ranked (zset_at k m))) as [|y l] eqn:El.
  - st_step. st_end. unfold det. apply strip_nil, ranked_nil in El. by rewrite decide_True.
  - rewrite <- El. st_step. st_end. unfold det. rewrite decide_False by (intros E1; by rewrite E1, ranked_empty in El). by rewrite lex_strip, fst_strip.
Qed.

(** ** Removal *)

Lemma remove_all_wp now key xs c m Q :
  (now ≤ horizon)%Z → stands c m → (∀ c', stands c' (change key (on_scored (without xs)) m) → Q (inl ()) c') → wp (remove_all now key xs) Q c.
Proof.
  intros Hn Hs HQ. unfold remove_all, count_members. apply wp_bind, (count_members_wp now key xs Hn c m 0); [done|]. intros c' Hs'. apply wp_ret. by apply HQ.
Qed.

Lemma zremrangebylex_serves : serves any_args HandleZRemRangeByLex rule_zremrangebylex.
Proof.
  unfold HandleZRemRangeByLex. intros now name args c m Hn Hs Hok. destruct args as [|k [|a [|b [|y args]]]]; repeat st_step; try st_end.
  apply (wp_every _ _ _ c m); [lia|done|]. clear Hs. intros c' Hs. cbv zeta. apply wp_bind, (remove_all_wp _ _ _ c' m); [lia|done|]. clear Hs. intros c2 Hs.
  st_step. st_end.
Qed.
Lemma zremrangebyscore_serves : serves any_args HandleZRemRangeByScore rule_zremrangebyscore.
Proof.
  unfold HandleZRemRangeByScore. intros now name args c m Hn Hs Hok. destruct args as [|k [|a [|b [|y args]]]]; repeat st_step; try st_end.
  apply (wp_every _ _ _ c m); [lia|done|]. clear Hs. intros c' Hs. cbv zeta. apply wp_bind, (remove_all_wp _ _ _ c' m); [lia|done|]. clear Hs. intros c2 Hs.
  st_step. st_end.
Qed.

Lemma rank_strip i j scores (l : list (bytes * Score)) : (rank_members i j (strip scores l)).*1 = (rank_members i j l).*1.
Proof.
  destruct scores; [done|]. unfold rank_members, strip. unfold zlen. rewrite length_fmap. case_match; [done|]. rewrite <- fmap_drop, <- fmap_take.
  exact (fst_strip false _).
Qed.
Lemma zremrangebyrank_serves : serves any_args HandleZRemRangeByRank rule_zremrangebyrank.
Proof.
  unfold HandleZRemRangeByRank. intros now name args c m Hn Hs Hok. destruct args as [|k [|a [|b [|y args]]]]; repeat st_step; try st_end;
    change (arg_text 0 _) with k in *; change (arg_text 1 _) with a in *; change (arg_text 2 _) with b in *.
  - apply (wp_every _ _ _ c m); [lia|done|]. clear Hs. intros c' Hs. cbv zeta. apply wp_bind, (remove_all_wp _ _ _ c' m); [lia|done|]. clear Hs. intros c2 Hs.
    st_step. rewrite !rank_strip in *. st_end. unfold rule_zremrangebyrank, det. by rewrite H, H0.
  - unfold rule_zremrangebyrank, det. by rewrite H, H0.
  - unfold rule_zremrangebyrank, det. by rewrite H.
Qed.

(** *** ZRANGESTORE *)

Lemma zadd_new x s M : M !! x = None → zadd_spec x s M = <[x := s]> M.
Proof. intros E. unfold zadd_spec. by rewrite E. Qed.

Lemma zadd_all_wp now key (l : list (bytes * Score)) : ∀ c m M e (Q : () + outcome → Ctx → Prop),
  stands c m → m !! key = Some (VZSet M, e) → NoDup l.*1 → (∀ x, x ∈ l.*1 → x ∈ universe ∧ M !! x = None) →
  (∀ c', stands c' (<[key := (VZSet (list_to_map l ∪ M), e)]> m) → Q (inl ()) c') → wp (zadd_all now key l) Q c.
Proof.
  induction l as [|[x s] l IH]; intros c m M e Q Hs Em Hnd Hl HQ; cbn [zadd_all].
  - apply wp_ret, HQ. cbn. by rewrite map_empty_union, insert_id.
  - assert (Hx : x ∈ universe ∧ M !! x = None) by (apply Hl; cbn; constructor). destruct Hx as [Hu Hn]. apply wp_bind.
    assert (Ez : zset_at key m = M) by (unfold zset_at; by rewrite Em).
    eapply (wp_does _ c m _ _ _ Hs); [apply does_zadd; [unfold has_type; by rewrite Em|done]|]. clear Hs. intros c' Hs. rewrite Ez, zadd_new in Hs by done.
    assert (Ed : deadline_of key m = e) by (unfold deadline_of; by rewrite Em). unfold put in Hs. rewrite Ed in Hs. cbn in Hnd. apply NoDup_cons in Hnd as [Hx Hnd].
    apply (IH c' (<[key := (VZSet (<[x := s]> M), e)]> m) (<[x := s]> M) e); [done|apply lookup_insert_eq|done| |].
    + intros y Hy. destruct (Hl y) as [H1 H2]; [cbn; by constructor|]. split; [done|]. rewrite lookup_insert_ne by (intros ->; done). done.
    + intros c2 H2. apply HQ. rewrite insert_insert_eq in H2. cbn [list_to_map]. cbn. rewrite <- insert_union_l.
      by rewrite <- insert_union_r in H2 by (by apply not_elem_of_list_to_map_1).
Qed.

Lemma between_elem a b M x s : (x, s) ∈ between a b M → M !! x = Some s.
Proof. unfold between, lex_members. rewrite list_elem_of_filter. intros [_ H]. by apply ranked_elem. Qed.
Lemma between_nodup a b M : NoDup (between a b M).*1.
Proof.
  unfold between, lex_members. eapply sublist_NoDup; [|apply fmap_sublist, sublist_filter]. rewrite ranked_perm. apply NoDup_fst_map_to_list.
Qed.

Lemma zrangestore_serves : serves any_args HandleZRangeStore rule_zrangestore.
Proof.
  unfold HandleZRangeStore. intros now name args c m Hn Hs Hok. destruct args as [|d [|k [|a [|b args]]]]; repeat st_step; try st_end.
  change (arg_text 0 _) with d. change (arg_text 1 _) with k. change (arg_text 2 _) with a. change (arg_text 3 _) with b. assert (Hu := models_universe _ _ k (proj2 Hs)).
  apply (wp_every _ _ _ c m); [lia|done|]. clear Hs. intros c1 Hs. cbv zeta. apply wp_bind. st_step.
  change (strip true (ranked (zset_at k m))) with (ranked (zset_at k m)). fold (between a b (zset_at k m)). unfold rule_zrangestore. apply wp_bind.
  assert (Hl : ∀ y, y ∈ (between a b (zset_at k m)).*1 → y ∈ universe).
  { intros y ([y' s] & -> & Hy)%list_elem_of_fmap. apply Hu, elem_of_dom. exists s. by eapply between_elem. }
  assert (Hnd := between_nodup a b (zset_at k m)). destruct (between a b (zset_at k m)) as [|[x s] l] eqn:El.
  { apply wp_ret. st_step. st_end. unfold det. by rewrite El. }
  cbn [zadd_all]. apply wp_bind. eapply (wp_does _ c' _ _ _ _ Hs);
    [apply does_zadd; [unfold has_type; by rewrite lookup_delete_eq|apply Hl; cbn; constructor]|]. clear Hs. intros c2 Hs.
  assert (Ez : zset_at d (delete d m) = ∅) by (unfold zset_at; by rewrite lookup_delete_eq). rewrite Ez, zadd_new in Hs by apply lookup_empty.
  assert (Ed : deadline_of d (delete d m) = None) by (unfold deadline_of; by rewrite lookup_delete_eq). unfold put in Hs. rewrite Ed, insert_delete_eq in Hs.
  cbn in Hnd. apply NoDup_cons in Hnd as [Hx Hnd]. eapply (zadd_all_wp now d l c2 _ {[x := s]} None _ Hs); [apply lookup_insert_eq|done| |].
  - intros y Hy. split; [apply Hl; cbn; by constructor|]. apply lookup_singleton_None. by intros ->.
  - clear Hs. intros c3 Hs. rewrite insert_insert_eq in Hs. st_step. st_end. unfold det. rewrite El. cbn [list_to_map]. do 4 f_equal. cbn.
    rewrite <- (map_union_empty (<[x := s]> (list_to_map l : gmap bytes Score))), <- insert_union_l.
    by rewrite (insert_union_r _ _ x s) by (by apply not_elem_of_list_to_map_1).
Qed.
End ZSetRules.
