(* ===== verification/TypedServer.v ===== *)
(** * A server of typed commands

    The registry with the string, bitmap, hash, set, list, sorted-set and expiry commands: histories of
    commands that use each key at one type answer and leave what the rules say. *)
From Stdlib Require Import SpecFloat.
From S2P Require Import Prelude.
From S2P Require Import Simd.
From S2P Require Import Numbers.
From S2P Require Import Text.
From S2P Require Import RespTypes.
From S2P Require Import Executor.
From S2P Require Import KeyMetadata.
From S2P Require Import LinkedList.
From S2P Require Import Eviction.
From S2P Require Import Rocks.
From S2P Require Import Database.
From S2P Require Import DatabaseTypes.
From S2P Require Import Commands.
From S2P Require Import StringCommands.
From S2P Require Import HashCommands.
From S2P Require Import SetCommands.
From S2P Require Import ListCommands.
From S2P Require Import BitmapCommands.
From S2P Require Import ZSetCommands.
From S2P Require Import StringLog.
From S2P Require Import TypedStore.
From S2P Require Import TypedContainers.
From S2P Require Import TypedZSets.
From S2P Require Import TypedCommands.
From S2P Require Import StringContract.
From S2P Require Import HashContract.
From S2P Require Import SetContract.
From S2P Require Import ListContract.
From S2P Require Import BitmapContract.
From S2P Require Import ZSetRules.
From S2P Require Import SmallPlatform.

Create HintDb keeping discriminated.

Section TypedServer.
Context {P : Platform} {HD : DoubleText} {HZ : Horizon}.
Implicit Types (c : Ctx) (m : TypedStore.store) (key : bytes) (now : Z) (args : list bytes) (ty : bytes → KeyType).

(** ** Keys at one type *)

Definition typed ty m : Prop := ∀ k x, m !! k = Some x → type_of x.1 = ty k.

Lemma typed_insert ty key v e m : typed ty m → type_of v = ty key → typed ty (<[key := (v, e)]> m).
Proof. intros Hm Hv k x. destruct (decide (key = k)) as [<-|Hne]; [rewrite lookup_insert_eq; by intros [= <-]|rewrite lookup_insert_ne by done; apply Hm]. Qed.
Lemma typed_put ty key v m : typed ty m → type_of v = ty key → typed ty (put key v m).
Proof. apply typed_insert. Qed.
Lemma typed_delete ty key m : typed ty m → typed ty (delete key m).
Proof. intros Hm k x Hx. apply (Hm k x). by apply lookup_delete_Some in Hx as [_ Hx]. Qed.
Lemma typed_change ty key f m : typed ty m → (∀ v, type_of (f v) = type_of v) → typed ty (change key f m).
Proof.
  intros Hm Hf k x. unfold change. destruct (decide (key = k)) as [<-|Hne]; [|rewrite lookup_alter_ne by done; apply Hm].
  rewrite lookup_alter_eq. destruct (m !! key) as [y|] eqn:E; [|done]. cbn. intros [= <-]. cbn. rewrite Hf. by apply Hm.
Qed.
Lemma typed_deadline ty key e m : typed ty m → typed ty (set_deadline key e m).
Proof.
  intros Hm k x. unfold set_deadline. destruct (decide (key = k)) as [<-|Hne]; [|rewrite lookup_alter_ne by done; apply Hm].
  rewrite lookup_alter_eq. destruct (m !! key) as [y|] eqn:E; [|done]. cbn. intros [= <-]. exact (Hm _ _ E).
Qed.
Lemma typed_shrink ty key g m : typed ty m → typed ty (shrink key g m).
Proof.
  intros Hm. unfold shrink. destruct (m !! key) as [[[] e]|] eqn:E; try done. destruct (g l); [by apply typed_delete|].
  apply typed_insert; [done|]. exact (Hm _ _ E).
Qed.
Lemma typed_deletes ty keys m : typed ty m → typed ty (foldl (λ m k, delete k m) m keys).
Proof. revert m. induction keys as [|k keys IH]; intros m Hm; [done|]. by apply IH, typed_delete. Qed.

Lemma members_type g v : type_of (on_members g v) = type_of v.
Proof. by destruct v. Qed.
Lemma fields_type g v : type_of (on_fields g v) = type_of v.
Proof. by destruct v. Qed.
Lemma elements_type g v : type_of (on_elements g v) = type_of v.
Proof. by destruct v. Qed.
Lemma scored_type g v : type_of (on_scored g v) = type_of v.
Proof. by destruct v. Qed.

(** ** The commands *)

(** A rule with the keys that the command needs at a type, and a condition on its
    other arguments. *)
Definition first_key (t : KeyType) args : list (bytes * KeyType) := match args with k :: _ => [(k, t)] | [] => [] end.
Definition second_key (t : KeyType) args : list (bytes * KeyType) := match args with _ :: k :: _ => [(k, t)] | _ => [] end.
Definition no_keys args : list (bytes * KeyType) := [].
Definition nothing now args : Prop := True.

Record described := Described {
  d_rule : rule;
  d_keys : list bytes → list (bytes * KeyType);
  d_side : Z → list bytes → Prop
}.

Definition far_side (past : Z → Z → bool) (deadline : Z → Z → Z) now args : Prop := far past deadline now args ∅.
Definition set_side now args : Prop :=
  ∀ nx xx t, set_options now (bulk <$> drop 2 args) false false None = inl (nx, xx, Some t) → (0 < t ∧ horizon < t)%Z.

Definition reads (r : rule) : described := Described r no_keys nothing.
Definition writes (t : KeyType) (r : rule) : described := Described r (first_key t) nothing.
Definition expires (r : rule) (past : Z → Z → bool) (deadline : Z → Z → Z) : described := Described r no_keys (far_side past deadline).

Definition string_rules : list (bytes * described) :=
  [(B "GET", reads rule_get); (B "SET", Described rule_set (first_key kString) set_side);
   (B "DEL", reads rule_del); (B "EXISTS", reads rule_exists); (B "APPEND", writes kString rule_append);
   (B "INCR", writes kString (rule_incr (B "INCR") 1)); (B "DECR", writes kString (rule_incr (B "DECR") (-1)));
   (B "INCRBY", writes kString (rule_incrby (B "INCRBY") 1)); (B "DECRBY", writes kString (rule_incrby (B "DECRBY") (-1)))].
Definition hash_rules : list (bytes * described) :=
  [(B "HSET", writes kHash rule_hset); (B "HMSET", writes kHash rule_hmset); (B "HGET", reads rule_hget);
   (B "HEXISTS", reads rule_hexists); (B "HSTRLEN", reads rule_hstrlen); (B "HLEN", reads rule_hlen);
   (B "HMGET", reads rule_hmget); (B "HDEL", reads rule_hdel); (B "HINCRBY", writes kHash rule_hincrby);
   (B "HINCRBYFLOAT", writes kHash rule_hincrbyfloat); (B "HSETNX", writes kHash rule_hsetnx);
   (B "HGETALL", reads (rule_pairs (B "HGETALL") (λ fv, [resp_string fv.1; resp_string fv.2])));
   (B "HKEYS", reads (rule_pairs (B "HKEYS") (λ fv, [resp_string fv.1])));
   (B "HVALS", reads (rule_pairs (B "HVALS") (λ fv, [resp_string fv.2])))].
Definition set_rules : list (bytes * described) :=
  [(B "SADD", writes kSet rule_sadd); (B "SREM", reads rule_srem); (B "SISMEMBER", reads rule_sismember);
   (B "SMISMEMBER", reads rule_smismember); (B "SCARD", reads rule_scard); (B "SMEMBERS", reads rule_smembers);
   (B "SPOP", reads rule_spop); (B "SRANDMEMBER", reads rule_srandmember);
   (B "SMOVE", Described rule_smove (second_key kSet) nothing); (B "SINTER", reads rule_sinter);
   (B "SUNION", reads rule_sunion); (B "SDIFF", reads rule_sdiff); (B "SINTERSTORE", writes kSet rule_sinterstore);
   (B "SUNIONSTORE", writes kSet rule_sunionstore); (B "SDIFFSTORE", writes kSet rule_sdiffstore)].
Definition list_rules : list (bytes * described) :=
  [(B "LPUSH", writes kList (rule_push (B "LPUSH") true)); (B "RPUSH", writes kList (rule_push (B "RPUSH") false));
   (B "LPOP", reads (rule_pop (B "LPOP") true)); (B "RPOP", reads (rule_pop (B "RPOP") false));
   (B "LPUSHX", reads (rule_pushx (B "LPUSHX") true)); (B "RPUSHX", reads (rule_pushx (B "RPUSHX") false));
   (B "LLEN", reads rule_llen); (B "LINDEX", reads rule_lindex); (B "LSET", reads rule_lset); (B "LRANGE", reads rule_lrange);
   (B "LTRIM", reads rule_ltrim); (B "LREM", reads rule_lrem); (B "LINSERT", reads rule_linsert);
   (B "RPOPLPUSH", Described rule_rpoplpush (second_key kList) nothing); (B "LMOVE", Described rule_lmove (second_key kList) nothing)].
Definition ttl_rules : list (bytes * described) :=
  [(B "EXPIRE", expires rule_expire_s (λ _ n, n <=? 0)%Z (λ now n, i64 (now + n * 1000)));
   (B "EXPIREAT", expires rule_expireat (λ now n, i64 (n * 1000) <=? Z.quot now 1000 * 1000)%Z (λ _ n, i64 (n * 1000)));
   (B "PEXPIRE", expires rule_pexpire (λ _ n, n <=? 0)%Z (λ now n, i64 (now + n)));
   (B "PEXPIREAT", expires rule_pexpireat (λ now n, n <=? now)%Z (λ _ n, n));
   (B "TTL", reads rule_ttl); (B "PTTL", reads rule_pttl); (B "PERSIST", reads rule_persist);
   (B "EXPIRETIME", reads rule_expiretime); (B "PEXPIRETIME", reads rule_pexpiretime)].
Definition bitmap_rules : list (bytes * described) :=
  [(B "GETBIT", reads rule_getbit); (B "SETBIT", Described rule_setbit (first_key kString) setbit_side); (B "BITCOUNT", reads rule_bitcount);
   (B "BITPOS", reads rule_bitpos); (B "BITOP", Described rule_bitop (second_key kString) nothing)].
Definition zadd_side now args : Prop := known_pairs (drop 1 args).
Definition zset_rules : list (bytes * described) :=
  [(B "ZADD", Described rule_zadd (first_key kZSet) zadd_side); (B "ZREM", reads rule_zrem); (B "ZSCORE", reads rule_zscore);
   (B "ZMSCORE", reads rule_zmscore); (B "ZCARD", reads rule_zcard); (B "ZCOUNT", Described rule_zcount no_keys zcount_side);
   (B "ZINCRBY", Described rule_zincrby (first_key kZSet) zincrby_side); (B "ZRANK", reads (rule_rank (B "ZRANK") false));
   (B "ZREVRANK", reads (rule_rank (B "ZREVRANK") true)); (B "ZRANGE", reads rule_zrange); (B "ZREVRANGE", reads rule_zrevrange);
   (B "ZRANGEBYSCORE", Described (rule_by_score (B "ZRANGEBYSCORE") false) no_keys bounds_side);
   (B "ZREVRANGEBYSCORE", Described (rule_by_score (B "ZREVRANGEBYSCORE") true) no_keys bounds_side); (B "ZLEXCOUNT", reads rule_zlexcount);
   (B "ZRANGEBYLEX", reads rule_zrangebylex); (B "ZREVRANGEBYLEX", reads rule_zrevrangebylex); (B "ZREMRANGEBYLEX", reads rule_zremrangebylex);
   (B "ZREMRANGEBYRANK", reads rule_zremrangebyrank); (B "ZREMRANGEBYSCORE", reads rule_zremrangebyscore);
   (B "ZRANGESTORE", writes kZSet rule_zrangestore)].
Definition typed_rules : list (bytes * described) :=
  string_rules ++ hash_rules ++ set_rules ++ list_rules ++ ttl_rules ++ bitmap_rules ++ zset_rules.

(** What is needed of the arguments, in a store. *)
Definition needs (d : described) now args m : Prop :=
  Forall (λ kt, has_type kt.2 kt.1 m) (d_keys d args) ∧ d_side d now args.

(** The rule keeps the types. *)
Definition keeps (d : described) : Prop := ∀ ty now args m r m',
  d_rule d now args m r m' → typed ty m → Forall (λ kt, ty kt.1 = kt.2) (d_keys d args) → typed ty m'.

Lemma typed_is_list ty key m : is_list key m = true → typed ty m → kList = ty key.
Proof. unfold is_list. intros H Ht. destruct (m !! key) as [[[] e]|] eqn:E; try done. exact (Ht _ _ E). Qed.

Hint Resolve typed_put typed_delete typed_deletes typed_change typed_deadline typed_shrink members_type fields_type elements_type scored_type : keeping.
Hint Extern 1 (type_of _ = _) => (symmetry; assumption) : keeping.

Ltac keep :=
  let Hr := fresh "Hr" in let Ht := fresh "Ht" in let Hk := fresh "Hk" in
  intros ty now args m r m' Hr Ht Hk; cbn [d_rule d_keys] in *;
  unfold ranged, about, rule_expire, stores in Hr; unfold det, error, moved in Hr; cbv beta zeta in Hr;
  repeat case_match; simplify_eq; try done; cbn [first_key second_key no_keys] in Hk; rewrite ?Forall_cons in Hk; cbn [fst snd] in Hk; destruct_and?;
  eauto 4 with keeping.

(** Each rule of a table. *)
Ltac each := repeat (apply Forall_cons; split); [..|by apply Forall_nil]; cbn [snd]; unfold reads, writes, expires.

Lemma string_keeps : Forall (λ nd, keeps nd.2) string_rules.
Proof. each; unfold rule_get, rule_set, rule_del, rule_exists, rule_append, rule_incr, rule_incrby, added; keep. Qed.
Lemma hash_keeps : Forall (λ nd, keeps nd.2) hash_rules.
Proof.
  each; unfold rule_hset, rule_hmset, rule_hget, hash_set, rule_hexists, rule_hstrlen, rule_hlen, rule_hmget, rule_hdel, rule_hincrby,
    rule_hincrbyfloat, rule_hsetnx, rule_pairs.
  12-14: by intros ty now args m r m' [-> _].
  all: keep.
Qed.
Lemma picks_keeps name after : (∀ ty key x m, typed ty m → typed ty (after key x m)) → keeps (reads (picks name after)).
Proof.
  intros Ha ty now args m r m' Hr Ht _. cbn in Hr. unfold picks in Hr. destruct args; [by destruct Hr as [_ ->]|].
  destruct Hr as [(x & _ & _ & ->)|(_ & _ & ->)]; auto.
Qed.
Lemma set_keeps : Forall (λ nd, keeps nd.2) set_rules.
Proof.
  each; unfold rule_sadd, rule_srem, rule_sismember, rule_smismember, rule_scard, rule_smembers, rule_smove, rule_sinter, rule_sunion, rule_sdiff, combines,
    rule_sinterstore, rule_sunionstore, rule_sdiffstore.
  7-8: apply picks_keeps; eauto with keeping.
  6, 8-10: by intros ty now args m r m' [-> _].
  all: keep.
Qed.
Lemma list_keeps : Forall (λ nd, keeps nd.2) list_rules.
Proof.
  each; unfold rule_push, rule_pop, rule_pushx, rule_llen, rule_lindex, rule_lset, rule_lrange, rule_ltrim, rule_lrem, rule_linsert, rule_rpoplpush, rule_lmove.
  all: keep. all: (apply typed_put; [done|by eapply typed_is_list]).
Qed.
Lemma ttl_keeps : Forall (λ nd, keeps nd.2) ttl_rules.
Proof.
  each; unfold rule_expire_s, rule_expireat, rule_pexpire, rule_pexpireat, rule_ttl, rule_pttl, rule_persist, rule_expiretime, rule_pexpiretime; keep.
Qed.

Lemma bitmap_keeps : Forall (λ nd, keeps nd.2) bitmap_rules.
Proof. each; unfold rule_getbit, rule_setbit, rule_bitcount, rule_bitpos, rule_bitop, in_bytes; keep. Qed.

Lemma zadd_pairs_typed ty key xs : ∀ n m r m', zadd_pairs key xs n m = (r, m') → typed ty m → ty key = kZSet → typed ty m'.
Proof.
  induction xs as [| |s x xs IH] using list_pair_ind; intros n m r m' E Ht Hk; cbn [zadd_pairs] in E; [by injection E as _ <-..|].
  destruct (atod s ≫= _) as [sc|]; [|by injection E as _ <-]. eapply IH; [exact E| |done]. by apply typed_put.
Qed.
Lemma zset_keeps : Forall (λ nd, keeps nd.2) zset_rules.
Proof.
  each; unfold rule_zrem, rule_zscore, rule_zmscore, rule_zcard, rule_zcount, rule_zincrby, rule_rank, rule_zrange, rule_zrevrange, rule_by_score, rule_zlexcount,
    rule_zrangebylex, rule_zrevrangebylex, rule_zremrangebylex, rule_zremrangebyscore, rule_zremrangebyrank, rule_zrangestore, removes.
  1: { intros ty now args m r m' Hr Ht Hk. cbn [d_rule] in Hr. unfold rule_zadd, det in Hr. destruct args as [|k xs]; [by injection Hr as _ <-|].
       destruct (negb _); [|by injection Hr as _ <-]. eapply zadd_pairs_typed; [exact Hr|done|]. by inversion Hk. }
  all: keep. apply typed_insert; [done|]. by symmetry.
Qed.

Lemma keeps_all name d : (name, d) ∈ typed_rules → keeps d.
Proof.
  intros Hin. enough (H : Forall (λ nd, keeps nd.2) typed_rules) by (rewrite Forall_forall in H; by apply (H (name, d))).
  unfold typed_rules. rewrite !Forall_app. auto 8 using string_keeps, hash_keeps, set_keeps, list_keeps, ttl_keeps, bitmap_keeps, zset_keeps.
Qed.

(** ** The handlers of the registry *)

Lemma serves_weaken (ok ok' : Z → list bytes → TypedStore.store → Prop) h s :
  serves ok h s → (∀ now args m, ok' now args m → ok now args m) → serves ok' h s.
Proof. intros Hs Ho now name args c m Hn Hc Ha. by apply Hs, Ho. Qed.

Lemma needs_any d now args m : needs d now args m → any_args now args m.
Proof. done. Qed.
Lemma needs_key r t side now args m : needs (Described r (first_key t) side) now args m → key_is t now args m.
Proof. intros [Hk _]. destruct args; [done|]. by inversion Hk. Qed.
Lemma needs_second r t side now args m : needs (Described r (second_key t) side) now args m → second_is t now args m.
Proof. intros [Hk _] d Hd. destruct args as [|? [|? ?]]; try done. inversion Hk. by injection Hd as <-. Qed.
Lemma needs_far r past deadline now args m : needs (Described r no_keys (far_side past deadline)) now args m → far past deadline now args m.
Proof. by intros [_ H]. Qed.
Lemma needs_set r now args m : needs (Described r (first_key kString) set_side) now args m → set_ok now args m.
Proof. intros H. split; [by eapply needs_key|apply H]. Qed.

Lemma needs_setbit r now args m : needs (Described r (first_key kString) setbit_side) now args m → setbit_ok now args m.
Proof. intros H. split; [by eapply needs_key|apply H]. Qed.
Lemma needs_bitop r now args m : needs (Described r (second_key kString) nothing) now args m → bitop_ok now args m.
Proof. intros [Hk _]. destruct args as [|? [|? ?]]; try done. by inversion Hk. Qed.

Lemma needs_zadd r now args m : needs (Described r (first_key kZSet) zadd_side) now args m → zadd_ok now args m.
Proof. intros H. split; [by eapply needs_key|apply H]. Qed.
Lemma needs_zincrby r now args m : needs (Described r (first_key kZSet) zincrby_side) now args m → zincrby_ok now args m.
Proof. intros H. split; [by eapply needs_key|apply H]. Qed.
Lemma needs_side r side now args m : needs (Described r no_keys side) now args m → side now args.
Proof. by intros [_ H]. Qed.

Section Registry.
Context {RO : RandomOk} {AN : AbslNumbersOk} (shuffled : nat → list nat) (r : rng) (clock : Z) (beyond : bytes → nat → ascii)
  (undefined : Ctx → Ctx * outcome).

Definition all_commands : list (bytes * (Z * RoutingStrategy * bool * (Z → Command → M CommandResult))) :=
  string_table ++ hash_table shuffled r ++ set_table r ++ list_table clock ++ ttl_table ++ bitmap_table beyond ++
  zset_table undefined clock shuffled r.

(** The first entry of a name. *)
Fixpoint find_entry {T} (name : bytes) (table : list (bytes * T)) : option T :=
  match table with
  | [] => None
  | (n, x) :: table => if decide (n = name) then Some x else find_entry name table
  end.

Lemma find_entry_map {T U} (f : T → U) name table x :
  find_entry name table = Some x → (list_to_map ((λ '(n, x), (n, f x)) <$> table) : gmap bytes U) !! name = Some (f x).
Proof.
  induction table as [|[n y] table IH]; [done|]. cbn. destruct (decide (n = name)) as [->|Hne].
  - intros [= ->]. apply lookup_insert_eq.
  - intros E. rewrite lookup_insert_ne by done. by apply IH.
Qed.

Definition served (nd : bytes * described) : Prop :=
  ∃ a route write h, find_entry nd.1 all_commands = Some (a, route, write, h) ∧ serves (needs nd.2) h (d_rule nd.2).

Lemma served_by (ok : Z → list bytes → TypedStore.store → Prop) name d a route write h :
  find_entry name all_commands = Some (a, route, write, h) → serves ok h (d_rule d) → (∀ now args m, needs d now args m → ok now args m) →
  served (name, d).
Proof. intros Hf Hs Ho. exists a, route, write, h. split; [done|]. by eapply serves_weaken. Qed.

Ltac by_rule L := eapply served_by;
  [reflexivity|apply L|first [apply needs_any|apply needs_key|apply needs_second|apply needs_set|apply needs_far|apply needs_setbit|apply needs_bitop|apply needs_zadd|apply needs_zincrby|cbv beta; intros ? ? ?; apply needs_side]].

Lemma string_served : Forall served string_rules.
Proof.
  each; [by_rule get_serves|by_rule set_serves|by_rule del_serves|by_rule exists_serves|by_rule append_serves|by_rule incr_serves
    |by_rule decr_serves|by_rule incrby_serves|by_rule decrby_serves].
Qed.
Lemma hash_served : Forall served hash_rules.
Proof.
  each; [by_rule hset_serves|by_rule hmset_serves|by_rule hget_serves|by_rule hexists_serves|by_rule hstrlen_serves|by_rule hlen_serves
    |by_rule hmget_serves|by_rule hdel_serves|by_rule hincrby_serves|by_rule hincrbyfloat_serves|by_rule hsetnx_serves|by_rule pairs_serves..].
Qed.
Lemma set_served : Forall served set_rules.
Proof.
  each; [by_rule sadd_serves|by_rule srem_serves|by_rule sismember_serves|by_rule smismember_serves|by_rule scard_serves|by_rule smembers_serves
    |by_rule spop_serves|by_rule srandmember_serves|by_rule smove_serves|by_rule sinter_serves|by_rule sunion_serves|by_rule sdiff_serves
    |by_rule sinterstore_serves|by_rule sunionstore_serves|by_rule sdiffstore_serves].
Qed.
Lemma list_served : Forall served list_rules.
Proof.
  each; [by_rule push_serves|by_rule push_serves|by_rule pop_serves|by_rule pop_serves|by_rule pushx_serves|by_rule pushx_serves
    |by_rule llen_serves|by_rule lindex_serves|by_rule lset_serves|by_rule lrange_serves|by_rule ltrim_serves|by_rule lrem_serves
    |by_rule linsert_serves|by_rule rpoplpush_serves|by_rule lmove_serves].
Qed.
Lemma ttl_served : Forall served ttl_rules.
Proof.
  each; [by_rule expire_serves|by_rule expire_serves|by_rule expire_serves|by_rule expire_serves|by_rule ttl_serves|by_rule pttl_serves
    |by_rule persist_serves|by_rule expiretime_serves|by_rule pexpiretime_serves].
Qed.

Lemma bitmap_served : Forall served bitmap_rules.
Proof. each; [by_rule getbit_serves|by_rule setbit_serves|by_rule bitcount_serves|by_rule bitpos_serves|by_rule bitop_serves]. Qed.

Lemma zset_served : Forall served zset_rules.
Proof.
  each; [by_rule (zadd_serves undefined)|by_rule (zrem_serves undefined)|by_rule (zscore_serves undefined)|by_rule (zmscore_serves undefined)|by_rule (zcard_serves undefined)|by_rule (zcount_serves undefined)
    |by_rule (zincrby_serves undefined)|by_rule (rank_serves undefined)|by_rule (rank_serves undefined)|by_rule (zrange_serves undefined)|by_rule (zrevrange_serves undefined)|by_rule (by_score_serves undefined)|by_rule (by_score_serves undefined)
    |by_rule (zlexcount_serves undefined)|by_rule (zrangebylex_serves undefined)|by_rule (zrevrangebylex_serves undefined)|by_rule (zremrangebylex_serves undefined)|by_rule (zremrangebyrank_serves undefined)
    |by_rule (zremrangebyscore_serves undefined)|by_rule (zrangestore_serves undefined)].
Qed.

Lemma served_all nd : nd ∈ typed_rules → served nd.
Proof.
  intros Hin. enough (H : Forall served typed_rules) by (rewrite Forall_forall in H; by apply (H nd)).
  unfold typed_rules. rewrite !Forall_app. auto 8 using string_served, hash_served, set_served, list_served, ttl_served, bitmap_served, zset_served.
Qed.

(** ** Histories *)

Section Server.
Context (self : Z) (shard : bytes → Z) (master : bool).
Implicit Types (w : Worker Ctx) (name : bytes).

Definition entry_of now (x : Z * RoutingStrategy * bool * (Z → Command → M CommandResult)) : CommandEntry Ctx :=
  let '(arity, route, write, h) := x in MkEntry arity route write (HData (λ _ cmd, run (h now cmd))).

Definition typed_env now : Env Ctx :=
  MkEnv Ctx (list_to_map (((λ '(n, x), (n, entry_of now x)) <$> all_commands) ++ transaction_entries))
    (λ key c, DbGetKeyVersion key (ctx_db c)) None (λ _, []) self shard master.

(** The commands, each with its time and client, as the registry runs them. *)
Fixpoint execute (trace : list (Z * Z * (bytes * list bytes))) w : Worker Ctx * list CommandResult :=
  match trace with
  | [] => (w, [])
  | (now, id, (name, args)) :: trace =>
      let '(w, r) := RegistryExecute (typed_env now) id (MkCommand name (bulk <$> args)) w in
      let '(w, rs) := execute trace w in (w, r :: rs)
  end.

(** The number of arguments does not fit the registration. *)
Definition misfits name args : bool :=
  match find_entry (NormalizeUppercase name) all_commands with
  | Some x => wrong_arity (entry_of 0 x) (MkCommand name (bulk <$> args))
  | None => false
  end.

Definition steps now name args m (r : CommandResult) m' : Prop :=
  ∃ d, find_entry (NormalizeUppercase name) typed_rules = Some d ∧
    if misfits name args then (r, m') = error (B "ERR wrong number of arguments for '" ++ NormalizeUppercase name ++ B "' command") m
    else d_rule d now args m r m'.

Inductive history : list (Z * Z * (bytes * list bytes)) → TypedStore.store → list CommandResult → TypedStore.store → Prop :=
  | history_nil m : history [] m [] m
  | history_cons now id name args trace m r m' rs m2 :
      steps now name args m r m' → history trace m' rs m2 → history ((now, id, (name, args)) :: trace) m (r :: rs) m2.

(** A command that uses its keys at their types. *)
Definition proper_use ty (x : Z * Z * (bytes * list bytes)) : Prop :=
  let '(now, _, (name, args)) := x in
  (0 ≤ now ≤ horizon)%Z ∧
  ∃ d, find_entry (NormalizeUppercase name) typed_rules = Some d ∧ Forall (λ kt, ty kt.1 = kt.2) (d_keys d args) ∧ d_side d now args.

Lemma find_entry_elem {T} name (table : list (bytes * T)) x : find_entry name table = Some x → (name, x) ∈ table.
Proof.
  induction table as [|[n y] table IH]; [done|]. cbn. destruct (decide (n = name)) as [->|]; [intros [= ->]; constructor|].
  intros E. constructor. by apply IH.
Qed.

Lemma typed_needs ty d now args m :
  typed ty m → Forall (λ kt, ty kt.1 = kt.2) (d_keys d args) → d_side d now args → needs d now args m.
Proof.
  intros Ht Hk Hd. split; [|done]. eapply Forall_impl; [exact Hk|]. intros [k t] E. cbn in *. unfold has_type.
  destruct (m !! k) as [[v e]|] eqn:Em; [|done]. by rewrite <- E, <- (Ht _ _ Em).
Qed.

Lemma registered now name x :
  find_entry name all_commands = Some x → commands_ (typed_env now) !! name = Some (entry_of now x).
Proof.
  intros E. cbn [commands_ typed_env]. rewrite list_to_map_app. apply lookup_union_Some_l. by apply find_entry_map.
Qed.

Lemma execute_one ty now id name args w m :
  stands (db w) m → typed ty m → proper_use ty (now, id, (name, args)) →
  ∃ m', let y := RegistryExecute (typed_env now) id (MkCommand name (bulk <$> args)) w in
    steps now name args m y.2 m' ∧ stands (db y.1) m' ∧ typed ty m'.
Proof.
  intros Hs Ht (Hn & d & Hd & Hk & Hside). assert (Hin := find_entry_elem _ _ _ Hd).
  destruct (served_all _ Hin) as (a & route & write & h & Hf & Hh). cbn [fst snd] in Hf, Hh. unfold RegistryExecute. cbn [cmd_name].
  rewrite bool_decide_eq_false_2 by (intros ->; by vm_compute in Hd). rewrite (registered now _ _ Hf).
  assert (Em : misfits name args = wrong_arity (entry_of now (a, route, write, h)) (MkCommand name (bulk <$> args))) by (unfold misfits; by rewrite Hf).
  unfold steps. rewrite Em. destruct (wrong_arity _ _); [by exists m; cbn; split; [exists d|]|]. cbn [no_permission acl typed_env entry_of handler run_handler].
  assert (Hw := Hh now name args (db w) m Hn Hs (typed_needs ty d now args m Ht Hk Hside)). unfold wp in Hw. unfold run.
  destruct Hw as (reply & m' & Ha & Hr & Hs'). exists m'. destruct (h now (MkCommand name (bulk <$> args)) (db w)) as [c' o]. cbn [fst snd] in *.
  assert (Ht' := keeps_all _ _ Hin ty now args m reply m' Hr Ht Hk).
  destruct Ha as [-> | ->]; cbn [fst snd db]; by split; [exists d|].
Qed.

End Server.
End Registry.
End TypedServer.

(** A new database has no key. *)
Lemma fresh_stands {P : Platform} {HZ : Horizon} tm mode self more :
  match blocking_manager more with None => True | Some bm => Blocking.wait_queues_ bm = ∅ end →
  stands (MkCtx _ (fresh tm None None mode None) self 1 ∅ None [] more) ∅.
Proof.
  intros Hb. split; [by split; [cbn; lia|]|]. assert (E : ∀ V k, DGet k (dash_empty : DashMap V) = None) by (intros V k; apply lookup_empty).
  split.
  - split; [done|..]; intros k; try intros d; unfold fresh; cbn [ctx_db hashes_ sets_ lists_ zsets_ streams_ vectors_ jsons_]; by rewrite E.
  - intros k. unfold look, fresh. cbn [ctx_db strings_ hashes_ sets_ lists_ metadata_manager_]. by rewrite !E, lookup_empty.
  - intros k x. by rewrite lookup_empty.
Qed.

(** ** Witnesses *)

#[local] Existing Instance small_platform.
#[local] Existing Instance decimal_numbers_ok.
#[local] Instance small_doubles : DoubleText := {| dtoa _ := []; atod s := double_of_Z <$> decimal_atoi s |}.
#[local] Instance small_horizon : Horizon.
Proof.
  refine {| horizon := 5000; universe := {[B "x"; B "yy"]} |}; [by vm_compute|].
  intros x y. rewrite !elem_of_union, !elem_of_singleton. intros [-> | ->] [-> | ->]; by vm_compute.
Defined.

Definition small_typed : Worker Ctx :=
  MkWorker (MkCtx _ (fresh None None None kRedis None) 0 1 ∅ None [] (MkExtras _ ∅ (Some (Blocking.MkBlocking ∅ ∅)) [] 0 true [])) ∅.

Definition typed_trace : list (Z * Z * (bytes * list bytes)) :=
  [(1, 1, (B "HSET", [B "h"; B "a"; B "1"; B "b"; B "2"])); (2, 2, (B "lpush", [B "l"; B "x"; B "y"]));
   (3, 1, (B "SADD", [B "s"; B "p"; B "q"; B "p"])); (4, 1, (B "EXPIRE", [B "s"; B "100"]));
   (5, 2, (B "SMOVE", [B "s"; B "d"; B "p"])); (6, 2, (B "HINCRBY", [B "h"; B "a"; B "5"]));
   (7, 1, (B "LTRIM", [B "l"; B "1"; B "1"])); (8, 1, (B "SINTERSTORE", [B "d"; B "s"; B "s"]));
   (9, 2, (B "TTL", [B "s"])); (10, 1, (B "LPOP", [B "l"])); (11, 1, (B "EXISTS", [B "l"; B "h"; B "d"]));
   (12, 1, (B "SET", [B "k"; B "v"; B "NX"])); (13, 2, (B "HGET", [B "h"; B "a"]));
   (14, 1, (B "SETBIT", [B "k"; B "12"; B "1"])); (15, 1, (B "BITCOUNT", [B "k"; B "0"; B "-1"]));
   (16, 2, (B "ZADD", [B "z"; B "2"; B "x"; B "1"; B "yy"])); (17, 2, (B "ZINCRBY", [B "z"; B "5"; B "yy"]));
   (18, 1, (B "ZREVRANGE", [B "z"; B "0"; B "-1"])); (19, 1, (B "ZRANGEBYSCORE", [B "z"; B "2"; B "6"; B "LIMIT"; B "1"; B "1"]));
   (20, 2, (B "ZREMRANGEBYRANK", [B "z"; B "0"; B "0"])); (21, 2, (B "ZRANK", [B "z"; B "yy"]))]%Z.

Definition small_types (k : bytes) : KeyType :=
  if decide (k = B "h") then kHash else if decide (k = B "l") then kList else if decide (k = B "k") then kString
  else if decide (k = B "z") then kZSet else kSet.

Definition small_execute := execute (λ n, seq 0 n) (0%Z : rng) 0 (λ _ _, zero_char) (λ c, (c, ThrewUnknown)) 0 (λ _, 0%Z) true.

#[local] Instance small_random_ok : @RandomOk (@platform_random small_platform).
Proof. constructor. intros n r Hn. cbn. by apply Z.mod_pos_bound. Qed.

Example typed_replies : (small_execute typed_trace small_typed).2 =
  [reply_int 2; reply_int 2; reply_int 2; reply_int 1; Failure (wrong_number (B "SMOVE")); reply_int 6; ok_response; reply_int 2;
   reply_int 99; reply_bulk (B "y"); reply_int 2; ok_response; reply_bulk (B "6"); reply_int 1; reply_int 6;
   reply_int 2; Success (resp_double (double_of_Z 6)); reply_strings [B "yy"; B "x"]; reply_strings [B "yy"]; reply_int 1; reply_int 0].
Proof. vm_compute. reflexivity. Qed.

Lemma typed_trace_proper : Forall (proper_use small_types) typed_trace.
Proof.
  unfold typed_trace. repeat (apply Forall_cons; split); [..|by apply Forall_nil].
  all: split; [unfold horizon, small_horizon, until; lia|]; eexists; (split; [reflexivity|]); (split; [repeat constructor|]).
  all: try exact I.
  - intros x n [= <-] E. right. vm_compute in E. injection E as <-. by vm_compute.
  - intros nx xx t E. by vm_compute in E.
  - intros i E. vm_compute in E. injection E as <-. by vm_compute.
  - repeat split; try (apply (bool_decide_unpack _); by vm_compute); intros d E; vm_compute in E; by injection E as <-.
  - split; [apply (bool_decide_unpack _); by vm_compute|]. intros d E. vm_compute in E. by injection E as <-.
  - by split; vm_compute.
Qed.

