(* ===== verification/ScanContract.v ===== *)
(** * Iterating over hashes and sets

    A client that repeats HSCAN or SSCAN with the cursor it was given, until the
    cursor is zero, gets every matching entry once. *)
From S2P Require Import Prelude.
From S2P Require Import Simd.
From S2P Require Import Numbers.
From S2P Require Import Text.
From S2P Require Import RespTypes.
From S2P Require Import Executor.
From S2P Require Import KeyMetadata.
From S2P Require Import Rocks.
From S2P Require Import Database.
From S2P Require Import DatabaseTypes.
From S2P Require Import Commands.
From S2P Require Import StringCommands.
From S2P Require Import HashCommands.
From S2P Require Import SetCommands.
From S2P Require Import StringLog.
From S2P Require Import TypedStore.
From S2P Require Import TypedContainers.
From S2P Require Import TypedCommands.
From S2P Require Import HashContract.
From S2P Require Import TypedServer.
From S2P Require Import SmallPlatform.

Section ScanContract.
Context {P : Platform} {HD : DoubleText} {HZ : Horizon}.
Implicit Types (c : Ctx) (m : store) (key : bytes) (now : Z) (args : list bytes).

(** ** The rules *)

Definition scans (entries : bytes → store → list bytes) (show : bytes → bytes → store → list RespValue) (name : bytes) : rule := det (λ now args m,
  match args with
  | key :: cursor :: opts =>
      match SimpleAtou cursor with
      | None => error (B "ERR invalid cursor") m
      | Some cursor =>
          match scan_options (bulk <$> opts) (B "*") 10 with
          | inr message => error message m
          | inl (pattern, count) =>
              let '(page, next) := scan_page (filter (λ x, scan_matches pattern x = true) (entries key m)) cursor count in
              (scan_reply next (concat ((λ x, show key x m) <$> page)), m)
          end
      end
  | _ => error (wrong_number name) m
  end).
Definition rule_hscan : rule :=
  scans (λ key m, fst <$> map_to_list (hash_at key m)) (λ key f m, [resp_string f; bulk_or_nil (hash_at key m !! f)]) (B "HSCAN").
Definition rule_sscan : rule := scans (λ key m, elements (set_at key m)) (λ _ x _, [resp_string x]) (B "SSCAN").

Lemma with_values_wp now key fields : (now ≤ horizon)%Z → ∀ c m (Q : list RespValue + outcome → Ctx → Prop),
  stands c m →
  (∀ c', stands c' m → Q (inl (concat ((λ f, [resp_string f; bulk_or_nil (hash_at key m !! f)]) <$> fields))) c') →
  wp (with_values now key fields) Q c.
Proof.
  intros Hn. induction fields as [|f fields IH]; intros c m Q Hs HQ; [by apply wp_ret, HQ|].
  cbn [with_values]. repeat st_step. apply (IH c' m _ Hs). clear Hs. intros c2 Hs. st_step. by apply HQ.
Qed.

Lemma hscan_serves : serves any_args HandleHScan rule_hscan.
Proof.
  unfold HandleHScan. intros now name args c m Hn Hs Hok. destruct args as [|k [|cur opts]]; repeat st_step; try st_end.
  - eapply (wp_does _ c m _ _ _ Hs); [apply does_hgetall; lia|]. clear Hs. intros c' Hs. change (arg_text 1 _) with cur in H. unfold rule_hscan, scans.
    change (drop 2 _) with (bulk <$> opts). destruct (scan_options (bulk <$> opts) (B "*") 10) as [[pattern count]|message] eqn:Eo.
    + change (arg_text 0 _) with k. destruct (scan_page _ y count) as [page next] eqn:Ep. st_step.
      apply (with_values_wp now k page ltac:(lia) c' m _ Hs). clear Hs. intros c2 Hs. st_step. st_end. unfold det. by rewrite H, Eo, Ep.
    + unfold fail, stop, wp. cbn [fst snd]. st_end. unfold det. by rewrite H, Eo.
  - change (arg_text 1 _) with cur in H. unfold rule_hscan, scans, det. by rewrite H.
Qed.

(** The members come in the order of the table, which is that of the set. *)
Lemma keys_elements (d : SetType) : DGetAllKeys d = elements (set_view d).
Proof.
  unfold DGetAllKeys. assert (HX : ∀ x, x ∈ set_view d ↔ is_Some (map_ d !! x)) by (intros x; apply elem_of_dom).
  revert HX. generalize (set_view d) as X. intros [m] HX. assert (Em : map_ d = m); [|by rewrite Em].
  apply map_eq. intros k. assert (Hk : m !! k = Some () ↔ is_Some (map_ d !! k)) by apply HX.
  destruct (map_ d !! k) as [[]|] eqn:E; [symmetry; by apply Hk|]. destruct (m !! k) as [[]|] eqn:E2; [|done].
  by destruct (proj1 Hk eq_refl) as [? ?].
Qed.

Lemma does_smembers now key m : (now ≤ horizon)%Z → does (DbSMembers now key) m (elements (set_at key m)) m.
Proof.
  intros Hn db H. unfold DbSMembers. rewrite (plain_load now key db m _ _ H). revert db H.
  apply does_set_read; [done|intros s _ <-; apply keys_elements|]. intros ->. by rewrite elements_empty.
Qed.

Lemma concat_units {A B} (f : A → B) l : concat ((λ x, [f x]) <$> l) = f <$> l.
Proof. induction l as [|x l IH]; [done|]. cbn. by rewrite <- IH. Qed.

Lemma sscan_serves : serves any_args HandleSScan rule_sscan.
Proof.
  unfold HandleSScan. intros now name args c m Hn Hs Hok. destruct args as [|k [|cur opts]]; repeat st_step; try st_end.
  - eapply (wp_does _ c m _ _ _ Hs); [apply does_smembers; lia|]. clear Hs. intros c' Hs. change (arg_text 1 _) with cur in H. unfold rule_sscan, scans.
    change (drop 2 _) with (bulk <$> opts). destruct (scan_options (bulk <$> opts) (B "*") 10) as [[pattern count]|message] eqn:Eo.
    + change (arg_text 0 _) with k. destruct (scan_page _ y count) as [page next] eqn:Ep. st_step. st_end. unfold det.
      rewrite H, Eo, Ep. by rewrite (concat_units resp_string).
    + unfold fail, stop, wp. cbn [fst snd]. st_end. unfold det. by rewrite H, Eo.
  - change (arg_text 1 _) with cur in H. unfold rule_sscan, scans, det. by rewrite H.
Qed.

(** ** Clients *)

(** The cursor and the entries of an answer. *)
Definition page_of (o : outcome) : option (bytes * list RespValue) :=
  match o with
  | Returned (Success (MkResp _ (VArray [MkResp _ (VString cursor); MkResp _ (VArray entries)]))) => Some (cursor, entries)
  | _ => None
  end.

(** From a cursor on, until the cursor is zero. *)
Fixpoint scan_client (fuel : nat) (h : Z → Command → M CommandResult) now (name key : bytes) (opts : list bytes) (cursor : bytes) c
    : option (list RespValue) :=
  match fuel with
  | 0 => None
  | S fuel =>
      let '(c, o) := run (h now (MkCommand name (bulk <$> (key :: cursor :: opts)))) c in
      '(next, entries) ← page_of o;
      if decide (next = B "0") then Some entries
      else option_map (app entries) (scan_client fuel h now name key opts next c)
  end.

Context {AO : AbslNumbersOk}.

Lemma SimpleAtou_print n : in_u64 n → SimpleAtou (print_u64 n) = Some n.
Proof.
  intros Hn. unfold print_u64, in_u64 in *. assert (Hv : digits_value 0 (decimal 20 n) = n).
  { apply decimal_value. change (10 ^ Z.of_nat 20)%Z with 100000000000000000000%Z. lia. }
  rewrite SimpleAtou_digits; [by rewrite Hv|apply decimal_digits; lia|apply decimal_nonempty; lia|lia].
Qed.

Lemma print_zero n : in_u64 n → print_u64 n = B "0" → n = 0%Z.
Proof.
  intros Hn E. assert (H := SimpleAtou_print n Hn). rewrite E in H. change (B "0") with (print_u64 0) in H.
  rewrite SimpleAtou_print in H by (unfold in_u64; lia). congruence.
Qed.

(** The rest of the entries, a page at a time. *)
Lemma scan_client_rest entries show name h now key opts pattern count :
  serves any_args h (scans entries show name) → (0 ≤ now ≤ horizon)%Z → scan_options (bulk <$> opts) (B "*") 10 = inl (pattern, count) →
  (0 < count)%Z →
  ∀ fuel c m i, stands c m →
    let matched := filter (λ x, scan_matches pattern x = true) (entries key m) in
    (Z.of_nat (length matched) + count < 2 ^ 64)%Z → (i = 0 ∨ i < length matched) → length matched - i < fuel →
    scan_client fuel h now name key opts (print_u64 (Z.of_nat i)) c = Some (concat ((λ x, show key x m) <$> drop i matched)).
Proof.
  intros Hserve Hn Eo Hc. induction fuel as [|fuel IH]; intros c m i Hs matched Hb Hi Hf; [lia|]. cbn [scan_client].
  destruct (serves_run _ _ _ now name (key :: print_u64 (Z.of_nat i) :: opts) c m Hserve Hn Hs I) as (c' & reply & m' & -> & Hr & Hs').
  unfold scans, det in Hr. rewrite SimpleAtou_print in Hr by (unfold in_u64; lia). rewrite Eo in Hr. fold matched in Hr.
  unfold scan_page in Hr. rewrite u64_small in Hr by (unfold in_u64; lia). unfold zlen in Hr.
  destruct (_ <=? _)%Z eqn:E; b2p; injection Hr as <- <-; cbn [page_of scan_reply reply_array resp_array resp_string mbind option_bind].
  - rewrite decide_True by done. do 3 f_equal. rewrite Z.min_r by lia. rewrite Nat2Z.id. apply take_ge. rewrite length_drop. lia.
  - rewrite Z.min_l in * by lia. set (j := Z.to_nat (Z.of_nat i + count)). replace (Z.of_nat i + count)%Z with (Z.of_nat j) in * by lia.
    rewrite decide_False by (intros E0; apply print_zero in E0; [lia|unfold in_u64; lia]).
    rewrite (IH c' m j Hs') by (fold matched; lia). fold matched. cbn [option_map]. f_equal. rewrite <- concat_app, <- fmap_app. do 2 f_equal.
    replace (Z.to_nat (Z.of_nat j - Z.of_nat i)) with (j - i) by lia. rewrite Nat2Z.id.
    replace (drop j matched) with (drop (j - i) (drop i matched)) by (rewrite drop_drop; f_equal; lia). apply take_drop.
Qed.

Lemma pairs_shown (h : gmap bytes bytes) (Q : bytes → Prop) `{!∀ x, Decision (Q x)} :
  concat ((λ f, [resp_string f; bulk_or_nil (h !! f)]) <$> filter Q (fst <$> map_to_list h)) =
  concat ((λ fv, [resp_string fv.1; resp_string fv.2]) <$> filter (λ fv, Q fv.1) (map_to_list h)).
Proof.
  assert (Hl : Forall (λ fv, h !! fv.1 = Some fv.2) (map_to_list h)) by (apply Forall_forall; by intros [f v] Hx%elem_of_map_to_list).
  revert Hl. generalize (map_to_list h) as l. induction l as [|[f v] l IH]; intros Hl; [done|]. apply Forall_cons in Hl as [E Hl]. cbn in E.
  rewrite fmap_cons, !filter_cons. cbn [fst]. destruct (decide (Q f)); [|by apply IH]. rewrite !fmap_cons. cbn [concat fst snd]. rewrite E, IH by done. done.
Qed.

Lemma length_filter_le {A} (Q : A → Prop) `{!∀ x, Decision (Q x)} (l : list A) : length (filter Q l) ≤ length l.
Proof. apply length_filter. Qed.

(** C24. A client that repeats HSCAN or SSCAN with the cursor of the last answer,
    from zero until it is zero again, ends after at most one call more than there
    are entries, and gets every entry that matches the pattern exactly once, a
    field with its value. The COUNT is positive ([scan_count_zero] is about zero),
    and nothing is written between the calls: a cursor is a position in the
    listing, so that a deletion makes the scan skip entries ([deletion_skips]). *)
Theorem scans_complete now key opts pattern count c m :
  (0 ≤ now ≤ horizon)%Z → stands c m → scan_options (bulk <$> opts) (B "*") 10 = inl (pattern, count) → (0 < count)%Z →
  (Z.of_nat (size (hash_at key m)) + count < 2 ^ 64)%Z → (Z.of_nat (size (set_at key m)) + count < 2 ^ 64)%Z →
  scan_client (S (size (hash_at key m))) HandleHScan now (B "HSCAN") key opts (B "0") c =
    Some (concat ((λ fv, [resp_string fv.1; resp_string fv.2]) <$> filter (λ fv, scan_matches pattern fv.1 = true) (map_to_list (hash_at key m)))) ∧
  scan_client (S (size (set_at key m))) HandleSScan now (B "SSCAN") key opts (B "0") c =
    Some (resp_string <$> filter (λ x, scan_matches pattern x = true) (elements (set_at key m))).
Proof.
  intros Hn Hs Eo Hc Hh Hb. change (B "0") with (print_u64 (Z.of_nat 0)).
  assert (L1 := length_filter_le (λ x, scan_matches pattern x = true) (fst <$> map_to_list (hash_at key m))).
  assert (L2 := length_filter_le (λ x, scan_matches pattern x = true) (elements (set_at key m))).
  rewrite length_fmap, length_map_to_list in L1. change (length (elements (set_at key m))) with (size (set_at key m)) in L2. split.
  - rewrite (scan_client_rest _ _ _ _ now key opts pattern count hscan_serves Hn Eo Hc _ c m 0 Hs); [|lia|by left|lia].
    by rewrite drop_0, pairs_shown.
  - rewrite (scan_client_rest _ _ _ _ now key opts pattern count sscan_serves Hn Eo Hc _ c m 0 Hs); [|lia|by left|lia].
    by rewrite drop_0, (concat_units resp_string).
Qed.

(** With COUNT 0 the first answer has no entry and the cursor zero. *)
Theorem scan_count_zero now key opts pattern c m :
  (0 ≤ now ≤ horizon)%Z → stands c m → scan_options (bulk <$> opts) (B "*") 10 = inl (pattern, 0%Z) →
  scan_client 1 HandleHScan now (B "HSCAN") key opts (B "0") c = Some [].
Proof.
  intros Hn Hs Eo. change (B "0") with (print_u64 0). cbn [scan_client].
  destruct (serves_run _ _ _ now (B "HSCAN") (key :: print_u64 0 :: opts) c m hscan_serves Hn Hs I) as (c' & reply & m' & -> & Hr & _).
  unfold rule_hscan, scans, det in Hr. rewrite SimpleAtou_print, Eo in Hr by (unfold in_u64; lia). unfold scan_page in Hr.
  change (u64 (0 + 0)) with 0%Z in Hr. rewrite Z.min_l in Hr by (unfold zlen; lia). cbn [Z.sub Z.to_nat take] in Hr.
  destruct (_ <=? 0)%Z; injection Hr as <- _; reflexivity.
Qed.

(** Two entries are read of four, one of them is deleted, and the next call goes on
    behind the third, which is never shown. *)
Example deletion_skips :
  scan_page ["a"; "b"; "c"; "d"]%string 0 2 = (["a"; "b"]%string, 2%Z) ∧ scan_page ["b"; "c"; "d"]%string 2 2 = (["d"]%string, 0%Z).
Proof. by split; vm_compute. Qed.
End ScanContract.

(** ** A scan *)

#[local] Existing Instance small_platform.
#[local] Instance small_doubles : DoubleText := {| dtoa _ := []; atod _ := None |}.
#[local] Instance small_horizon : Horizon := until 5000.

Lemma scans_complete_witness : ∃ c m,
  stands c m ∧ size (hash_at (B "h") m) = 3 ∧
  scan_client (S (size (hash_at (B "h") m))) HandleHScan 7 (B "HSCAN") (B "h") [B "COUNT"; B "2"] (B "0") c =
    Some (concat ((λ fv, [resp_string fv.1; resp_string fv.2]) <$> filter (λ fv, scan_matches (B "*") fv.1 = true) (map_to_list (hash_at (B "h") m)))) ∧
  scan_client (S (size (set_at (B "h") m))) HandleSScan 7 (B "SSCAN") (B "h") [B "COUNT"; B "2"] (B "0") c =
    Some (resp_string <$> filter (λ x, scan_matches (B "*") x = true) (elements (set_at (B "h") m))).
Proof.
  destruct (serves_run _ _ _ 1 (B "HSET") [B "h"; B "a"; B "1"; B "b"; B "2"; B "c"; B "3"] (db small_typed) ∅ hset_serves)
    as (c & reply & m & _ & Hr & Hs); [unfold horizon, small_horizon, until; lia|by apply fresh_stands|by constructor|].
  assert (Em : m = put (B "h") (VHash {[B "a" := B "1"; B "b" := B "2"; B "c" := B "3"]}) ∅) by (injection Hr as _ <-; f_equal; by vm_compute).
  exists c, m. assert (Eh : hash_at (B "h") m = {[B "a" := B "1"; B "b" := B "2"; B "c" := B "3"]}) by (rewrite Em; apply hash_at_put).
  assert (Es : set_at (B "h") m = ∅) by (by rewrite Em). split; [done|]. split; [rewrite Eh; by vm_compute|].
  assert (S1 : size (hash_at (B "h") m) = 3) by (rewrite Eh; by vm_compute). assert (S2 : size (set_at (B "h") m) = 0) by (by rewrite Es).
  apply (scans_complete (P := small_platform) (AO := decimal_numbers_ok) 7 (B "h") [B "COUNT"; B "2"] (B "*") 2 c m);
    [unfold horizon, small_horizon, until; lia|done|by vm_compute|lia|rewrite S1; lia|rewrite S2; lia].
Defined.
