(* ===== verification/BlockingLists.v ===== *)
(** * Lists and the clients that wait for them

    A push calls [Send] for the first request of BLPOP that waits on its key; one that
    waits in BRPOP is not found by it. *)
From Stdlib Require Import SpecFloat.
From S2P Require Import Prelude.
From S2P Require Import Simd.
From S2P Require Import Numbers.
From S2P Require Import Text.
From S2P Require Import RespTypes.
From S2P Require Import Executor.
From S2P Require Import KeyMetadata.
From S2P Require Import LinkedList.
From S2P Require Import Rocks.
From S2P Require Import Database.
From S2P Require Import DatabaseTypes.
From S2P Require Import Blocking.
From S2P Require Import Commands.
From S2P Require Import StringCommands.
From S2P Require Import ListCommands.
From S2P Require Import StringLog.
From S2P Require Import TypedStore.
From S2P Require Import TypedContainers.
From S2P Require Import TypedCommands.
From S2P Require Import ListContract.
From S2P Require Import TypedServer.
From S2P Require Import SmallPlatform.

Section BlockingLists.
Context {P : Platform} {HD : DoubleText} {HZ : Horizon}.
Implicit Types (c : Ctx) (m : store) (key x : bytes) (now : Z) (left : bool).

(** The other parts of the context stay. *)
Lemma wp_does_db {A} (f : Database → Database * A) c m y m' (Q : A + outcome → Ctx → Prop) :
  models (ctx_db c) m → does f m y m' → (∀ db, models db m' → Q (inl y) (with_db db c)) → wp (on_db f) Q c.
Proof.
  intros Hm Hf HQ. unfold wp, on_db. destruct (Hf _ Hm) as [H1 H2]. destruct (f (ctx_db c)) as [db z]. cbn [fst snd] in *. subst z.
  by apply HQ.
Qed.

(** The client of the command, with its number. *)
Definition as_client (id : Z) c : Ctx :=
  let x := ctx_more c in
  MkCtx _ (ctx_db c) (ctx_self c) (ctx_workers c) (ctx_remote c) (ctx_cluster c) (ctx_log c)
    (MkExtras _ (g_hash_field_expires x) (blocking_manager x) (blocking_sent x) id true (batch_answers x)).

Definition manager_of c : BlockingManager (Z * Database) := default (MkBlocking ∅ ∅) (blocking_manager (ctx_more c)).

(** What the callback of BLPOP and BRPOP answers. *)
Definition pop_callback left key : Z * Database → (Z * Database) * RespValue :=
  on_wake (λ now, pop left now key) (λ v, match v with Some v => reply_pair (key, v) | None => resp_of_type kNullBulkString end).

(** The command on a key without a list: the client enters a queue. *)
Lemma waits name left queue_key clock now key t d c m bm id :
  (0 ≤ now ≤ horizon)%Z → models (ctx_db c) m → m !! key = None → blocking_manager (ctx_more c) = Some bm →
  timeout_of (bulk t) = Some d → double_lt d0_0 d = true →
  let cmd := MkCommand name (bulk <$> [key; t]) in
  let '(c', o) := run (blocking_pop name left queue_key clock now cmd) (as_client id c) in
  o = Returned Blocking ∧ models (ctx_db c') m ∧ blocking_sent (ctx_more c') = blocking_sent (ctx_more c) ∧
  blocking_manager (ctx_more c') =
    Some (AddBlockedClient (queue_key key) (MkBlocked id key cmd d clock (pop_callback left key) true) bm).
Proof.
  intros Hn Hm Hk Hb Ht Hd cmd.
  enough (Hw : wp (blocking_pop name left queue_key clock now cmd) (λ r c', r = inl Blocking ∧ models (ctx_db c') m ∧
    blocking_sent (ctx_more c') = blocking_sent (ctx_more c) ∧
    blocking_manager (ctx_more c') = Some (AddBlockedClient (queue_key key) (MkBlocked id key cmd d clock (pop_callback left key) true) bm)) (as_client id c)).
  { unfold wp in Hw. unfold run. destruct (blocking_pop _ _ _ _ _ _ _) as [c' r]. cbn [fst snd] in Hw. by destruct Hw as (-> & Hw). }
  unfold blocking_pop. repeat st_step. all: change (arg _ cmd) with (bulk t) in H; rewrite Ht in H; try discriminate. injection H as <-.
  change (take _ _) with [bulk key]. cbn [first_pop]. repeat st_step.
  eapply (wp_does_db _ _ m); [done|apply does_pop; lia|]. intros db Hdb. cbn [arg_value bulk] in *.
  unfold list_at in *. rewrite Hk. replace (popped left []) with (@None bytes) by (by destruct left). cbv iota. cbn [first_pop]. st_step. rewrite Hd.
  change (arg_text 0 cmd) with key. unfold block, wp. cbn [with_db as_client ctx_more blocking_manager]. rewrite Hb. cbn [fst snd ctx_db ctx_more blocking_manager blocking_sent].
  split; [done|]. split; [|done]. unfold shrink in Hdb. by rewrite Hk in Hdb.
Qed.

(** A push on the key of an empty queue, and on that of a client. *)
Lemma push_alone left now name key x c m bm :
  (0 ≤ now ≤ horizon)%Z → models (ctx_db c) m → has_type kList key m → blocking_manager (ctx_more c) = Some bm → queue_of key bm = [] →
  let '(c', o) := run (push_all name left now (MkCommand name (bulk <$> [key; x]))) c in
  o = Returned (reply_int 1) ∧ models (ctx_db c') (put key (VList (pushed left x (list_at key m))) m) ∧
  blocking_sent (ctx_more c') = blocking_sent (ctx_more c) ∧ blocking_manager (ctx_more c') = Some bm.
Proof.
  intros Hn Hm Ht Hb Hq.
  enough (Hw : wp (push_all name left now (MkCommand name (bulk <$> [key; x]))) (λ r c', r = inl (reply_int 1) ∧
    models (ctx_db c') (put key (VList (pushed left x (list_at key m))) m) ∧
    blocking_sent (ctx_more c') = blocking_sent (ctx_more c) ∧ blocking_manager (ctx_more c') = Some bm) c).
  { unfold wp in Hw. unfold run. destruct (push_all _ _ _ _ _) as [c' r]. cbn [fst snd] in Hw. by destruct Hw as (-> & Hw). }
  unfold push_all. repeat st_step. replace (if left then reverse _ else _) with [bulk x] by (by destruct left). cbn [push_loop]. repeat st_step.
  eapply (wp_does_db _ _ m); [done|by apply does_push|]. intros db Hdb. repeat st_step.
  unfold wake_up, wp. cbn [with_db ctx_more blocking_manager]. rewrite Hb. unfold WakeUpBlockedClients, take_waiting. change (arg_text 0 _) with key. rewrite Hq.
  cbn [fst snd]. split; [done|]. split; [done|]. cbn [ctx_more blocking_sent blocking_manager]. by rewrite app_nil_r.
Qed.

(** Several elements; the other parts of the context stay. *)
Lemma push_loop_db left now key xs : ∀ c m (Q : () + outcome → Ctx → Prop),
  models (ctx_db c) m → has_type kList key m →
  (∀ db, models db (match xs with [] => m | _ => put key (VList (if left then reverse xs ++ list_at key m else list_at key m ++ xs)) m end) → Q (inl ()) (with_db db c)) →
  wp (push_loop left now key (bulk <$> xs)) Q c.
Proof.
  induction xs as [|x xs IH]; intros c m Q Hm Ht HQ; [apply wp_ret; destruct c; by apply HQ|].
  cbn [fmap list_fmap push_loop]. do 3 st_step. eapply (wp_does_db _ c m); [done|by apply does_push|]. intros db Hdb.
  apply (IH (with_db db c) _ _ Hdb); [apply (has_type_put key (VList _) m)|]. intros db2 H2. rewrite list_at_put, put_put in H2. apply HQ.
  cbn [arg_value bulk] in H2. destruct xs as [|y xs].
  - destruct left; exact H2.
  - unfold pushed in H2. destruct left; [|by rewrite <- app_assoc in H2]. rewrite (reverse_cons (y :: xs) x), <- app_assoc. exact H2.
Qed.

(** The list after a push of several elements. *)
Definition grown left (xs l : list bytes) : list bytes := if left then xs ++ l else l ++ xs.

Lemma push_wakes left pop_left now name key xs c m bm b q v :
  (0 ≤ now ≤ horizon)%Z → models (ctx_db c) m → has_type kList key m → blocking_manager (ctx_more c) = Some bm → xs ≠ [] →
  queue_of key bm = b :: q → callback b = pop_callback pop_left key → connected b = true → popped pop_left (grown left xs (list_at key m)) = Some v →
  let '(c', o) := run (push_all name left now (MkCommand name (bulk <$> key :: xs))) c in
  o = Returned (reply_int (zlen xs)) ∧ models (ctx_db c') (shrink key (rest pop_left) (put key (VList (grown left xs (list_at key m))) m)) ∧
  blocking_sent (ctx_more c') = blocking_sent (ctx_more c) ++ [(client_id b, reply_pair (key, v))] ∧
  blocking_manager (ctx_more c') = Some (MkBlocking (put_queue key q bm) (delete (client_id b) (timeout_timers_ bm))).
Proof.
  intros Hn Hm Ht Hb Hx Hq Hcb Hcon Hv.
  enough (Hw : wp (push_all name left now (MkCommand name (bulk <$> key :: xs))) (λ r c', r = inl (reply_int (zlen xs)) ∧
    models (ctx_db c') (shrink key (rest pop_left) (put key (VList (grown left xs (list_at key m))) m)) ∧
    blocking_sent (ctx_more c') = blocking_sent (ctx_more c) ++ [(client_id b, reply_pair (key, v))] ∧
    blocking_manager (ctx_more c') = Some (MkBlocking (put_queue key q bm) (delete (client_id b) (timeout_timers_ bm)))) c).
  { unfold wp in Hw. unfold run. destruct (push_all _ _ _ _ _) as [c' r]. cbn [fst snd] in Hw. by destruct Hw as (-> & Hw). }
  unfold push_all. repeat st_step. change (drop 1 _) with (bulk <$> xs). change (arg_text 0 _) with key.
  replace (if left then reverse (bulk <$> xs) else bulk <$> xs) with (bulk <$> (if left then reverse xs else xs)) by (destruct left; by rewrite ?bulk_reverse).
  apply (push_loop_db left now key _ c m); [done|done|]. intros db Hdb. repeat st_step.
  assert (El : (match (if left then reverse xs else xs) with [] => m | _ => put key (VList (if left then reverse (if left then reverse xs else xs) ++ list_at key m
    else list_at key m ++ (if left then reverse xs else xs))) m end) = put key (VList (grown left xs (list_at key m))) m).
  { unfold grown. destruct left; [|by destruct xs]. rewrite reverse_involutive. destruct (reverse xs) eqn:Er; [|done]. apply (f_equal reverse) in Er. by rewrite reverse_involutive in Er. }
  rewrite El in Hdb. unfold wake_up, wp. cbn [with_db ctx_more blocking_manager ctx_db]. rewrite Hb. unfold WakeUpBlockedClients, take_waiting. rewrite Hq.
  unfold ProcessBlockedCommand. rewrite Hcb. unfold pop_callback, on_wake. cbn [fst snd].
  destruct (does_pop pop_left now key _ (proj2 Hn) db Hdb) as [Hp Ep]. rewrite list_at_put, Hv in Ep.
  destruct (pop pop_left now key db) as [db2 v']. cbn [fst snd] in *. subst v'. unfold send. rewrite Hcon.
  cbn [ctx_db ctx_more blocking_sent blocking_manager]. split; [|done]. unfold ArgCount, zlen. cbn. rewrite length_map. do 3 f_equal. lia.
Qed.

(** A client waits on a key that has no value, and no other waits there. *)
Definition ready now key t c m bm : Prop :=
  (0 ≤ now ≤ horizon)%Z ∧ models (ctx_db c) m ∧ m !! key = None ∧ blocking_manager (ctx_more c) = Some bm ∧ queue_of key bm = [] ∧
  ∃ d, timeout_of (bulk t) = Some d ∧ double_lt d0_0 d = true.


(** C33. A client that waits in BRPOP is not: its queue is that of the empty key,
    and a push on the key it asked for sends nothing and keeps the element. *)
Theorem brpop_forgotten left clock now now' key t x c m bm id id' :
  ready now key t c m bm → (0 ≤ now' ≤ horizon)%Z → key ≠ [] →
  let c1 := (run (HandleBRPop clock now (MkCommand (B "BRPOP") (bulk <$> [key; t]))) (as_client id c)).1 in
  let '(c2, o) := run (push_all (B "PUSH") left now' (MkCommand (B "PUSH") (bulk <$> [key; x]))) (as_client id' c1) in
  o = Returned (reply_int 1) ∧ models (ctx_db c2) (put key (VList [x]) m) ∧
  blocking_sent (ctx_more c2) = blocking_sent (ctx_more c) ∧ id ∈ client_id <$> queue_of [] (manager_of c2).
Proof.
  intros (Hn & Hm & Hk & Hb & Hq & d & Ht & Hd) Hn' Hne c1.
  assert (H1 := waits (B "BRPOP") false (λ _, []) clock now key t d c m bm id Hn Hm Hk Hb Ht Hd). cbv zeta in H1. unfold c1, HandleBRPop.
  destruct (run (blocking_pop _ _ _ _ _ _) _) as [c1' o1]. destruct H1 as (_ & H1 & H2 & H3). cbn [fst].
  set (bm1 := AddBlockedClient _ _ _) in H3. assert (Hq1 : queue_of key bm1 = []).
  { unfold bm1, AddBlockedClient, queue_of at 1. cbn [wait_queues_]. rewrite lookup_insert_ne by done. exact Hq. }
  assert (H4 := push_alone left now' (B "PUSH") key x (as_client id' c1') m bm1 Hn' H1 ltac:(unfold has_type; by rewrite Hk) H3 Hq1).
  destruct (run (push_all _ _ _ _) _) as [c2 o]. destruct H4 as (-> & H4 & H5 & H6). split; [done|]. split; [|split].
  - unfold list_at in H4. rewrite Hk in H4. by destruct left.
  - rewrite H5. exact H2.
  - unfold manager_of. rewrite H6. change (default (MkBlocking ∅ ∅) (Some bm1)) with bm1. unfold bm1, AddBlockedClient, queue_of at 1. cbn [wait_queues_].
    rewrite lookup_insert_eq. change (default [] (Some ?a)) with a. rewrite fmap_app. apply elem_of_app. right. by constructor.
Qed.
End BlockingLists.

(** ** Witnesses *)

#[local] Existing Instance small_platform.
#[local] Instance small_horizon : Horizon := until 5000.

Lemma small_ready : ready 1 (B "l") (B "2") (db small_typed) ∅ (MkBlocking ∅ ∅).
Proof.
  split; [unfold horizon, small_horizon, until; lia|]. split; [by apply (fresh_stands None kRedis 0)|]. split; [done|]. split; [done|]. split; [done|].
  eexists. by split; [vm_compute; reflexivity|].
Qed.


Lemma brpop_forgotten_witness :
  let c1 := (run (HandleBRPop 0 1 (MkCommand (B "BRPOP") (bulk <$> [B "l"; B "2"]))) (as_client 7 (db small_typed))).1 in
  let '(c2, o) := run (push_all (B "PUSH") true 2 (MkCommand (B "PUSH") (bulk <$> [B "l"; B "x"]))) (as_client 8 c1) in
  o = Returned (reply_int 1) ∧ models (ctx_db c2) (put (B "l") (VList [B "x"]) ∅) ∧
  blocking_sent (ctx_more c2) = [] ∧ 7%Z ∈ client_id <$> queue_of [] (manager_of c2).
Proof. apply (brpop_forgotten true 0 1 2 (B "l") (B "2") (B "x") (db small_typed) ∅ (MkBlocking ∅ ∅) 7 8); [exact small_ready|unfold horizon, small_horizon, until; lia|done]. Defined.
