(* ===== verification/SetWorkers.v ===== *)
(** * Sets on several workers

    The set commands that read the sets of other workers, over databases that each
    have the keys of their own: SINTER, SUNION and SDIFF see every set, and so does
    the intersection of SINTERSTORE when the other workers answer in time; SUNIONSTORE
    and SDIFFSTORE see those of the own worker only. *)
From S2P Require Import Prelude.
From S2P Require Import Simd.
From S2P Require Import Numbers.
From S2P Require Import Text.
From S2P Require Import RespTypes.
From S2P Require Import Sharding.
From S2P Require Import Executor.
From S2P Require Import KeyMetadata.
From S2P Require Import Rocks.
From S2P Require Import Database.
From S2P Require Import DatabaseTypes.
From S2P Require Import Commands.
From S2P Require Import StringCommands.
From S2P Require Import HashCommands.
From S2P Require Import SetCommands.
From S2P Require Import StringLog.
From S2P Require Import TypedStore.
From S2P Require Import TypedContainers.
From S2P Require Import TypedCommands.
From S2P Require Import SetContract.
From S2P Require Import TypedServer.
From S2P Require Import SmallPlatform.

Section SetWorkers.
Context {P : Platform} {HD : DoubleText} {HZ : Horizon}.
Implicit Types (c : Ctx) (m : TypedStore.store) (ms : nat → TypedStore.store) (key : bytes) (now : Z) (keys args : list bytes) (w n : nat).

(** The worker has a database that stands for its store. *)
Definition has_store c w m : Prop :=
  if decide (w = ctx_self c) then models (ctx_db c) m else ∃ db, ctx_remote c !! w = Some db ∧ models db m.

(** [n] workers with their stores. *)
Definition spread c n ms : Prop := ctx_workers c = n ∧ ctx_self c < n ∧ ∀ w, w < n → has_store c w (ms w).

(** A key is at its owner. *)
Definition placed n ms : Prop := ∀ w k, w < n → is_Some (ms w !! k) → owner_of n k = w.

(** The set of a key, wherever it is. *)
Definition set_of n ms key : gset bytes := set_at key (ms (owner_of n key)).

Lemma wp_worker {A} w (f : Database → Database * A) c n ms R (Q : A + outcome → Ctx → Prop) :
  spread c n ms → w < n → may f (ms w) (λ x m', m' = ms w ∧ R x) → (∀ x c', spread c' n ms → R x → Q (inl x) c') → wp (on_worker w f) Q c.
Proof.
  intros (Hw & Hself & Hs) Hn Hf HQ. unfold wp, on_worker. assert (Hws := Hs w Hn). unfold has_store in Hws. case_decide as Ew.
  - subst w. unfold on_db. destruct (Hf _ Hws) as (m' & H1 & -> & HR). destruct (f (ctx_db c)) as [db x]. apply HQ; [|done].
    split; [done|]. split; [done|]. intros w Hw'. specialize (Hs w Hw'). unfold has_store in *. cbn in *. case_decide; [by subst|done].
  - destruct Hws as (db & Er & Hm). rewrite Er. destruct (Hf _ Hm) as (m' & H1 & -> & HR). destruct (f db) as [db' x]. apply HQ; [|done].
    split; [done|]. split; [done|]. intros w' Hw'. specialize (Hs w' Hw'). unfold has_store in *. cbn in *. case_decide; [done|].
    destruct (decide (w = w')) as [<-|Hne]; [rewrite lookup_insert_eq; by exists db'|by rewrite lookup_insert_ne].
Qed.

(** The sets of the keys at the worker are added. *)
Definition adds (ks : list bytes) m (sets sets' : gmap bytes (gset bytes)) : Prop :=
  ∀ key, default ∅ (sets' !! key) = (if decide (key ∈ ks) then set_at key m else ∅) ∪ default ∅ (sets !! key).

Lemma collect_keys now w c n ms : (now ≤ horizon)%Z → w < n → ∀ ks sets c (Q : gmap bytes (gset bytes) + outcome → Ctx → Prop),
  spread c n ms → (∀ sets' c', spread c' n ms → adds ks (ms w) sets sets' → Q (inl sets') c') →
  wp (mfold (λ (sets : gmap bytes (gset bytes)) key,
      members ← on_worker w (DbSMembers now key);
      mret (<[key := list_to_set members ∪ default ∅ (sets !! key)]> sets)) sets ks) Q c.
Proof.
  clear c. intros Hn Hw. induction ks as [|k ks IH]; intros sets c Q Hs HQ.
  - apply wp_ret, HQ; [done|]. intros key. rewrite decide_False by set_solver. by rewrite union_empty_l_L.
  - cbn [mfold]. apply wp_bind, wp_bind. eapply (wp_worker w _ c n ms _ _ Hs Hw); [by apply may_smembers|].
    intros l c' Hs' Hl. apply wp_ret. apply (IH _ c' _ Hs'). intros sets' c2 Hs2 Ha. apply HQ; [done|]. intros key. rewrite Ha.
    assert (El : list_to_set l = set_at k (ms w)) by (apply lists_members_elements in Hl; destruct Hl as [_ Hl]; apply set_eq; intros x; rewrite elem_of_list_to_set; apply Hl).
    rewrite El. destruct (decide (k = key)) as [->|Hne].
    + rewrite lookup_insert_eq. cbn [default from_option id]. rewrite (decide_True (P := key ∈ key :: ks)) by set_solver. case_decide; set_solver.
    + rewrite lookup_insert_ne by done. destruct (decide (key ∈ ks)); [rewrite decide_True by set_solver|rewrite decide_False by set_solver]; done.
Qed.

Lemma collect_workers now keys n ms : (now ≤ horizon)%Z → ∀ ws sets c (Q : gmap bytes (gset bytes) + outcome → Ctx → Prop),
  Forall (λ w, w < n) ws → spread c n ms →
  (∀ sets' c', spread c' n ms →
     (∀ key, default ∅ (sets' !! key) = (if decide (key ∈ keys) then ⋃ ((λ w, set_at key (ms w)) <$> ws) else ∅) ∪ default ∅ (sets !! key)) →
     Q (inl sets') c') →
  wp (mfold (λ sets w,
    mfold (λ (sets : gmap bytes (gset bytes)) key,
      members ← on_worker w (DbSMembers now key);
      mret (<[key := list_to_set members ∪ default ∅ (sets !! key)]> sets)) sets keys) sets ws) Q c.
Proof.
  intros Hn. induction ws as [|w ws IH]; intros sets c Q Hws Hs HQ.
  - apply wp_ret, HQ; [done|]. intros key. case_decide; cbn; by rewrite union_empty_l_L.
  - apply Forall_cons in Hws as [Hw Hws]. cbn [mfold]. apply wp_bind. eapply (collect_keys now w c n ms Hn Hw _ _ _ _ Hs).
    intros sets1 c1 Hs1 Ha. apply (IH _ c1 _ Hws Hs1). intros sets2 c2 Hs2 Hb. apply HQ; [done|]. intros key. rewrite Hb, Ha.
    destruct (decide (key ∈ keys)); cbn; set_solver.
Qed.

(** A set is found at its owner only. *)
Lemma owner_lt n key : 0 < n → owner_of n key < n.
Proof.
  intros Hn. unfold owner_of. assert (H := Z.mod_pos_bound (CalculateWithTag key) (Z.of_nat n) ltac:(lia)). lia.
Qed.
Lemma placed_union n ms key : 0 < n → placed n ms → ⋃ ((λ w, set_at key (ms w)) <$> seq 0 n) = set_of n ms key.
Proof.
  intros Hn Hp. apply set_eq. intros x. rewrite elem_of_union_list. split.
  - intros (X & HX & Hx). apply list_elem_of_fmap in HX as (w & -> & Hw). apply elem_of_seq in Hw. unfold set_of.
    rewrite (Hp w key); [done|lia|]. unfold set_at in Hx. destruct (ms w !! key); [by eexists|set_solver].
  - intros Hx. exists (set_of n ms key). split; [|done]. apply list_elem_of_fmap. exists (owner_of n key). split; [done|].
    apply elem_of_seq. assert (H := owner_lt n key Hn). lia.
Qed.

(** The command over several workers: the combination of all the sets. *)
Lemma several_spread name combine local now args c n ms :
  (0 ≤ now ≤ horizon)%Z → 1 < n → spread c n ms → placed n ms → args ≠ [] →
  let '(c', o) := run (several name combine local now (MkCommand name (bulk <$> args))) c in
  o = Returned (reply_strings (elements (combine ((λ key, set_of n ms key) <$> args)))) ∧ spread c' n ms.
Proof.
  intros Hn H1 Hs Hp Ha.
  enough (Hw : wp (several name combine local now (MkCommand name (bulk <$> args)))
    (λ r c', r = inl (reply_strings (elements (combine ((λ key, set_of n ms key) <$> args)))) ∧ spread c' n ms) c).
  { unfold wp in Hw. unfold run. destruct (several _ _ _ _ _ _) as [c' r]. cbn [fst snd] in Hw. by destruct Hw as (-> & Hw). }
  unfold several. destruct args as [|a args]; [done|]. repeat st_step. unfold wp at 1, workers_of. cbn [fst snd].
  assert (En : ctx_workers c = n) by apply Hs. rewrite En, (proj2 (Nat.ltb_lt 1 n)) by done. apply wp_bind. unfold collect_sets. apply wp_bind.
  unfold wp at 1, workers_of. cbn [fst snd]. rewrite En.
  apply (collect_workers now (a :: args) n ms ltac:(lia) (seq 0 n) ∅ c); [apply Forall_forall; intros w Hw%elem_of_seq; lia|done|].
  intros sets c' Hs' Hsets. apply wp_ret. split; [|done]. do 4 f_equal. apply list_fmap_ext. intros i key Hi.
  rewrite Hsets, decide_True by (by eapply list_elem_of_lookup_2). rewrite lookup_empty. cbn [default from_option].
  rewrite union_empty_r_L. apply placed_union; [lia|done].
Qed.

(** ** The batch of an intersection *)

Lemma inter_sets_elem ks m x : ks ≠ [] → x ∈ inter_sets ks m ↔ ∀ k, k ∈ ks → x ∈ set_at k m.
Proof.
  destruct ks as [|k ks]; [done|]. intros _. cbn [inter_sets].
  assert (H : ∀ s, x ∈ foldl (λ s k, s ∩ set_at k m) s ks ↔ x ∈ s ∧ ∀ k, k ∈ ks → x ∈ set_at k m).
  { induction ks as [|k' ks IH]; intros s; cbn [foldl]; [set_solver|]. rewrite IH. set_solver. }
  rewrite H. set_solver.
Qed.

Lemma inter_all_elem (sets : list (gset bytes)) x : sets ≠ [] → x ∈ inter_all sets ↔ ∀ s, s ∈ sets → x ∈ s.
Proof.
  destruct sets as [|s sets]; [done|]. intros _. cbn [inter_all]. revert s. induction sets as [|s' sets IH]; intros s; cbn [foldl].
  - split; [by intros Hx s' ->%list_elem_of_singleton|]. intros H. apply H. by constructor.
  - rewrite IH. repeat setoid_rewrite elem_of_cons. split; intros H t Ht.
    + assert (Hi := H _ (or_introl eq_refl)). apply elem_of_intersection in Hi as [H1 H2]. destruct Ht as [->|[->|Ht]]; auto.
    + destruct Ht as [->|Ht]; [apply elem_of_intersection|]; auto.
Qed.

Lemma inter_results_members (rs : list (list bytes)) :
  rs ≠ [] → Forall NoDup rs → NoDup (inter_results rs) ∧ ∀ x, x ∈ inter_results rs ↔ ∀ r, r ∈ rs → x ∈ r.
Proof.
  destruct rs as [|r rs]; [done|]. intros _ Hn. cbn [inter_results]. apply Forall_cons in Hn as [Hr _]. revert r Hr.
  induction rs as [|r' rs IH]; intros r Hr; cbn [foldl]; [split; [done|set_solver]|].
  destruct (IH (filter (λ y : bytes, y ∈ r') r) (NoDup_filter _ _ Hr)) as [H1 H2]. split; [done|]. intros x. rewrite H2. set_unfold.
  split; [intros H y Hy|intros H y Hy].
  - assert (Hf := H _ (or_introl eq_refl)). apply list_elem_of_filter in Hf as [Hx1 Hx2]. destruct Hy as [->|[->|Hy]]; auto.
  - destruct Hy as [->|Hy]; [apply list_elem_of_filter|]; auto.
Qed.

Lemma batch_results now sub n ms : (now ≤ horizon)%Z → ∀ ws acc c (Q : list (list bytes) + outcome → Ctx → Prop),
  Forall (λ w, w < n) ws → spread c n ms →
  (∀ rs c', spread c' n ms → Forall2 (λ w r, lists_members r (inter_sets (sub w) (ms w))) ws rs → Q (inl (acc ++ rs)) c') →
  wp (mfold (λ results w, result ← on_worker w (DbSInterLocal now (sub w)); mret (results ++ [result])) acc ws) Q c.
Proof.
  intros Hn. induction ws as [|w ws IH]; intros acc c Q Hws Hs HQ.
  - apply wp_ret. rewrite <- (app_nil_r acc). by apply HQ.
  - apply Forall_cons in Hws as [Hw Hws]. cbn [mfold]. apply wp_bind, wp_bind. eapply (wp_worker w _ c n ms _ _ Hs Hw); [by apply may_sinter|].
    intros r c' Hs' Hr. apply wp_ret. apply (IH _ c' _ Hws Hs'). intros rs c2 Hs2 Hrs. rewrite <- app_assoc. apply HQ; [done|]. by constructor.
Qed.

Lemma wp_own {A} (f : Database → Database * A) c n ms R (Q : A + outcome → Ctx → Prop) :
  spread c n ms → may f (ms (ctx_self c)) (λ x m', m' = ms (ctx_self c) ∧ R x) → (∀ x c', spread c' n ms → R x → Q (inl x) c') → wp (on_db f) Q c.
Proof.
  intros Hs Hf HQ. assert (H := wp_worker (ctx_self c) f c n ms R Q Hs (proj1 (proj2 Hs)) Hf HQ). unfold wp, on_worker in H.
  by rewrite decide_True in H.
Qed.

(** Every other worker that owns a key answers the next batch request in time. *)
Definition in_time c n keys : Prop :=
  Forall (λ key, owner_of n key = ctx_self c ∨ owner_of n key ∈ default [] (head (batch_answers (ctx_more c)))) keys.
#[local] Instance in_time_dec c n keys : Decision (in_time c n keys) := _.

(** The results of some workers, and empty ones for the others. *)
Lemma results_members keys (sub : nat → list bytes) (ws late : list nat) n ms rs :
  Forall2 (λ w r, lists_members r (inter_sets (sub w) (ms w))) ws rs →
  (∀ w, sub w = filter (λ k, owner_of n k = w) keys) → (∀ w, w ∈ ws → sub w ≠ []) → ws ++ late ≠ [] →
  (∀ k, k ∈ keys → owner_of n k ∈ ws ++ late) →
  lists_members (inter_results (rs ++ ((λ _, []) <$> late)))
    (if decide (late = []) then inter_all ((λ key, set_of n ms key) <$> keys) else ∅).
Proof.
  intros Hrs Hsub Hne Hall Hk. assert (Hlen := Forall2_length _ _ _ Hrs).
  destruct (inter_results_members (rs ++ ((λ _, []) <$> late))) as [H1 H2].
  { intros [-> ->%fmap_nil_inv]%app_eq_nil. destruct ws; [by destruct Hall|done]. }
  { apply Forall_app. split; [|apply Forall_fmap, Forall_true; intros; constructor]. apply Forall_forall. intros r Hr.
    apply list_elem_of_lookup in Hr as [i Hi]. by destruct (Forall2_lookup_r _ _ _ _ _ Hrs Hi) as (w & _ & [Hd _]). }
  split; [done|]. intros x. rewrite H2. destruct late as [|w late]; [rewrite decide_True by done|rewrite decide_False by done].
  2:{ split; [|set_solver]. intros H. specialize (H []). cbn in H. set_solver. }
  cbn [fmap list_fmap]. rewrite app_nil_r in *. destruct keys as [|k0 keys].
  { exfalso. destruct ws as [|w ws]; [done|]. apply (Hne w); [constructor|]. by rewrite Hsub. }
  rewrite inter_all_elem by done. setoid_rewrite list_elem_of_fmap. set (l := k0 :: keys) in *. split.
  - intros H s (k & -> & Hin). assert (Ht := Hk k Hin). apply list_elem_of_lookup in Ht as [i Hi].
    destruct (Forall2_lookup_l _ _ _ _ _ Hrs Hi) as (r & Hr & [_ Hm]). assert (Hx : x ∈ r) by (apply H; by eapply list_elem_of_lookup_2).
    apply Hm in Hx. rewrite inter_sets_elem in Hx by (apply Hne; by eapply list_elem_of_lookup_2). apply Hx. rewrite Hsub. by apply list_elem_of_filter.
  - intros H r Hr. apply list_elem_of_lookup in Hr as [i Hi]. destruct (Forall2_lookup_r _ _ _ _ _ Hrs Hi) as (w & Hw & [_ Hm]).
    apply Hm. rewrite inter_sets_elem by (apply Hne; by eapply list_elem_of_lookup_2). intros k. rewrite Hsub. intros [Ek Hin]%list_elem_of_filter.
    rewrite <- Ek. apply H. by exists k.
Qed.

Lemma batch_spread now keys c n ms (Q : list bytes + outcome → Ctx → Prop) :
  (now ≤ horizon)%Z → keys ≠ [] → spread c n ms →
  (∀ l c', spread c' n ms →
     lists_members l (if decide (in_time c n keys) then inter_all ((λ key, set_of n ms key) <$> keys) else ∅) → Q (inl l) c') →
  wp (SInter now keys) Q c.
Proof.
  intros Hn Hk Hs HQ. assert (H0 : 0 < n) by (destruct Hs as (_ & Hs & _); lia).
  replace (SInter now keys) with (SendBatchRequest now keys) by (by destruct keys). unfold SendBatchRequest.
  apply wp_bind. unfold wp at 1, workers_of. cbn [fst snd]. apply wp_bind. unfold wp at 1, self_of. cbn [fst snd]. cbv zeta.
  assert (En : ctx_workers c = n) by apply Hs. rewrite En. clear En. set (sub w := filter (λ k, owner_of n k = w) keys).
  set (targets := filter (λ w, filter (λ key, owner_of n key = w) keys ≠ []) (seq 0 n)).
  assert (Htg : ∀ w, w ∈ targets ↔ sub w ≠ [] ∧ w < n) by (intros w; unfold targets; rewrite list_elem_of_filter, elem_of_seq; naive_solver lia).
  assert (Hin : ∀ k, k ∈ keys → owner_of n k ∈ targets).
  { intros k Hin. apply Htg. split; [|by apply owner_lt]. intros E. assert (k ∈ sub (owner_of n k)) by (by apply list_elem_of_filter). rewrite E in *. set_solver. }
  destruct (decide (n ≤ 1 ∨ targets = [ctx_self c])) as [Ed|Ed].
  - assert (Eo : ∀ k, k ∈ keys → owner_of n k = ctx_self c).
    { intros k Hi. apply Hin in Hi. destruct Ed as [Hle|E]; [|rewrite E in Hi; set_solver].
      assert (H := owner_lt n k H0). destruct Hs as (_ & Hs & _). lia. }
    eapply (wp_own _ c n ms _ _ Hs); [by apply may_sinter|]. intros l c' Hs' [Hl Hx]. apply HQ; [done|].
    rewrite decide_True by (apply Forall_forall; auto). split; [done|]. intros x. rewrite Hx, inter_sets_elem, inter_all_elem by (by destruct keys).
    setoid_rewrite list_elem_of_fmap. unfold set_of. split; [intros H s (k & -> & Hi); rewrite (Eo k Hi)|intros H k Hi; rewrite <- (Eo k Hi)]; eauto.
  - apply wp_bind. unfold wp at 1, next_answers, on_more. cbn [fst snd]. set (answers := default [] _).
    set (others := filter (λ w, w ≠ ctx_self c) targets). set (ready := filter (λ w, w ∈ others) (remove_dups answers)).
    set (late := filter (λ w, w ∉ answers) others). set (own := filter (λ w, w = ctx_self c) targets).
    assert (Hw : ∀ w, w ∈ own ++ ready → w ∈ targets) by (intros w; unfold own, ready, others; rewrite elem_of_app, !list_elem_of_filter; tauto).
    assert (Hall : ∀ w, w ∈ targets → w ∈ (own ++ ready) ++ late).
    { intros w Hw'. unfold own, ready, late, others. rewrite !elem_of_app, !list_elem_of_filter, elem_of_remove_dups.
      destruct (decide (w = ctx_self c)), (decide (w ∈ answers)); tauto. }
    apply wp_bind. eapply (batch_results now sub n ms Hn (own ++ ready) [] _); [apply Forall_forall; intros w H; by apply Htg, Hw|exact Hs|].
    intros rs c' Hs' Hrs. apply wp_ret. cbn [app]. apply HQ; [done|].
    assert (El : in_time c n keys ↔ late = []).
    { unfold in_time. fold answers. rewrite Forall_forall. split.
      - intros H. destruct late as [|w l] eqn:E; [done|]. exfalso. assert (Hl : w ∈ late) by (rewrite E; constructor). unfold late, others in Hl.
        rewrite !list_elem_of_filter in Hl. destruct Hl as (Ha & Hne & Ht). apply Htg in Ht as [Hsub _]. destruct (sub w) as [|k ks] eqn:Es; [done|].
        assert (Hkin : k ∈ sub w) by (rewrite Es; constructor). apply list_elem_of_filter in Hkin as [<- Hkin]. destruct (H k Hkin); done.
      - intros H k Hi. apply Hin in Hi. destruct (decide (owner_of n k = ctx_self c)); [by left|right]. destruct (decide (owner_of n k ∈ answers)); [done|].
        exfalso. assert (Hl : owner_of n k ∈ late) by (unfold late, others; by rewrite !list_elem_of_filter). rewrite H in Hl. set_solver. }
    rewrite (decide_ext _ _ _ _ El). apply (results_members keys sub (own ++ ready) late n ms rs); [done|done|intros w H; by apply Htg, Hw| |auto].
    intros E. destruct keys as [|k keys]; [done|]. assert (H := Hall _ (Hin k ltac:(constructor))). rewrite E in H. set_solver.
Qed.

(** ** The theorems *)

(** What a command answers, and that the workers keep their stores. *)
Definition gives (h : Command → M CommandResult) (name : bytes) args c n ms (s : gset bytes) : Prop :=
  ∃ l, lists_members l s ∧
    let '(c', o) := run (h (MkCommand name (bulk <$> args))) c in o = Returned (reply_strings l) ∧ spread c' n ms.

Lemma several_gives name combine local now args c n ms :
  (0 ≤ now ≤ horizon)%Z → 1 < n → spread c n ms → placed n ms → args ≠ [] →
  gives (several name combine local now) name args c n ms (combine ((λ key, set_of n ms key) <$> args)).
Proof.
  intros Hn H1 Hs Hp Ha. exists (elements (combine ((λ key, set_of n ms key) <$> args))). split; [by apply lists_members_elements|].
  by apply several_spread.
Qed.


(** SUNIONSTORE sees the sets of its own worker only: with all the sets at other
    workers it stores an empty set. *)
Theorem sunionstore_own now destination keys c n ms :
  (0 ≤ now ≤ horizon)%Z → spread c n ms → placed n ms → has_type KeyMetadata.kSet destination (ms (ctx_self c)) → keys ≠ [] →
  Forall (λ key, owner_of n key ≠ ctx_self c) keys →
  let '(c', o) := run (HandleSUnionStore now (MkCommand (B "SUNIONSTORE") (bulk <$> destination :: keys))) c in
  o = Returned (reply_int 0) ∧ models (ctx_db c') (put destination (VSet ∅) (ms (ctx_self c))).
Proof.
  intros Hn Hs Hp Ht Hk Ho. set (m := ms (ctx_self c)) in *.
  assert (Hm : models (ctx_db c) m). { destruct Hs as (_ & Hself & Hs). specialize (Hs _ Hself). unfold has_store in Hs. by rewrite decide_True in Hs. }
  assert (Eu : union_sets keys m = ∅).
  { unfold union_sets. clear Hk. induction Ho as [|k keys Hk Ho IH]; [done|]. cbn [foldl].
    assert (set_at k m = ∅) as ->; [|by rewrite union_empty_l_L]. unfold set_at. destruct (m !! k) eqn:E; [|done].
    destruct Hk. apply Hp; [apply Hs|]. fold m. rewrite E. by eexists. }
  enough (Hw : wp (HandleSUnionStore now (MkCommand (B "SUNIONSTORE") (bulk <$> destination :: keys)))
    (λ r c', r = inl (reply_int 0) ∧ models (ctx_db c') (put destination (VSet ∅) m)) c).
  { unfold wp in Hw. unfold run. destruct (HandleSUnionStore _ _ _) as [c' r]. cbn [fst snd] in Hw. by destruct Hw as (-> & Hw). }
  unfold HandleSUnionStore, store_with. destruct keys as [|k keys]; [done|]. repeat st_step. change (arg_text 0 _) with destination.
  unfold wp at 1, on_db. destruct (may_sunion now (k :: keys) m (proj2 Hn) _ Hm) as (m' & H1 & -> & Hl). rewrite Eu in Hl.
  change (drop 1 (destination :: k :: keys)) with (k :: keys).
  destruct (DbSUnion now (k :: keys) (ctx_db c)) as [db1 l]. cbn [fst snd] in *. apply wp_bind. unfold wp at 1, on_db. cbn [ctx_db].
  destruct (does_store_set destination l ∅ m Ht Hl db1 H1) as [H2 E2]. destruct (store_set destination l db1) as [db2 z]. cbn [fst snd] in *. subst z.
  apply wp_ret. split; [|done]. by rewrite (lists_members_size _ _ Hl), size_empty.
Qed.
End SetWorkers.

(** ** Two workers *)

#[local] Existing Instance small_platform.
#[local] Instance small_doubles : DoubleText := {| dtoa _ := []; atod _ := None |}.
#[local] Instance small_horizon : Horizon := until 5000.

Definition small_stores (w : nat) : TypedStore.store :=
  match w with
  | 0 => put (B "b") (VSet (∅ ∪ list_to_set [B "x"; B "y"])) ∅
  | 1 => put (B "a") (VSet (∅ ∪ list_to_set [B "y"; B "z"])) ∅
  | _ => ∅
  end.

Lemma small_placed : placed 2 small_stores.
Proof.
  intros w k Hw [x Hx]. destruct w as [|[|w]]; [| |lia]; cbn in Hx; unfold put in Hx; apply lookup_insert_Some in Hx as [[<- _]|[_ Hx]];
    try (by rewrite lookup_empty in Hx); by vm_compute.
Qed.

(** A worker with a set. *)
Lemma small_worker key xs : xs ≠ [] → ∃ c, stands c (put key (VSet (∅ ∪ list_to_set xs)) ∅).
Proof.
  intros Hx. destruct (serves_run _ _ _ 1 (B "SADD") (key :: xs) (db small_typed) ∅ sadd_serves) as (c & reply & m & _ & Hr & Hs);
    [unfold horizon, small_horizon, until; lia|by apply fresh_stands|by constructor|]. exists c. destruct xs; [done|]. by injection Hr as _ <-.
Qed.

Lemma small_spread answers : ∃ c, spread c 2 small_stores ∧ ctx_self c = 0 ∧ batch_answers (ctx_more c) = answers.
Proof.
  destruct (small_worker (B "b") [B "x"; B "y"] ltac:(done)) as [c0 [_ H0]]. destruct (small_worker (B "a") [B "y"; B "z"] ltac:(done)) as [c1 [_ H1]].
  exists (MkCtx _ (ctx_db c0) 0 2 {[1 := ctx_db c1]} None [] (MkExtras _ ∅ None [] 0 true answers)). split; [|done]. split; [done|]. split; [cbn; lia|].
  intros w Hw. destruct w as [|[|w]]; [exact H0| |lia]. exists (ctx_db c1). by split; [|exact H1].
Qed.

