(* ===== verification/ZSetServer.v ===== *)
(** * Sorted sets that are popped, waited for and united

    ZPOPMIN and ZPOPMAX take the members at an end of the order; a set they empty
    stays in the map without its metadata, and takes in what is added later without
    showing it.  ZADD leaves the clients that wait for a sorted set where they are.
    On several workers ZUNION has the members of every set, and no scores. *)
From Stdlib Require Import SpecFloat.
From stdpp Require Import sorting.
From S2P Require Import Prelude.
From S2P Require Import OrderedSet.
From S2P Require Import ZSet.
From S2P Require Import ZSetContract.
From S2P Require Import Simd.
From S2P Require Import Numbers.
From S2P Require Import Text.
From S2P Require Import RespTypes.
From S2P Require Import Sharding.
From S2P Require Import Executor.
From S2P Require Import KeyMetadata.
From S2P Require Import Eviction.
From S2P Require Import Rocks.
From S2P Require Import Database.
From S2P Require Import DatabaseTypes.
From S2P Require Import DatabaseZSets.
From S2P Require Import Blocking.
From S2P Require Import Commands.
From S2P Require Import StringCommands.
From S2P Require Import ListCommands.
From S2P Require Import ZSetCommands.
From S2P Require Import StringLog.
From S2P Require Import TypedStore.
From S2P Require Import TypedZSets.
From S2P Require Import TypedCommands.
From S2P Require Import ZSetRules.
From S2P Require Import TypedServer.
From S2P Require Import BlockingLists.
From S2P Require Import SetWorkers.
From S2P Require Import SmallPlatform.

Section ZSetServer.
Context {P : Platform} {HD : DoubleText} {HZ : Horizon} (undefined : Ctx → Ctx * outcome).
Implicit Types (db : Database) (c : Ctx) (m : TypedStore.store) (key x : bytes) (now : Z) (M : gmap bytes Score) (pop_max : bool).

(** ** The order without a member *)

Lemma ranked_unique M l : dom M ⊆ universe → StronglySorted rank_le l → l ≡ₚ map_to_list M → l = ranked M.
Proof.
  intros Hd Hl Hp. apply (StronglySorted_unique_strong rank_le); [|done|apply (StronglySorted_merge_sort rank_le)|by rewrite ranked_perm].
  intros [x s] [y t] Hx Hy H1 H2. rewrite Hp, elem_of_map_to_list in Hx. apply ranked_elem in Hy.
  assert (Hh : hash x = hash y).
  { unfold rank_le in H1, H2. rewrite <- !not_true_iff_false, !element_lt_spec in H1, H2. cbv zeta in H1, H2. cbn in H1, H2. lia. }
  assert (x = y) as -> by (apply universe_hash; [apply Hd; by apply elem_of_dom|apply Hd; by apply elem_of_dom|done]). by simplify_eq.
Qed.

Lemma StronglySorted_app_l {A} (R : A → A → Prop) l k : StronglySorted R (l ++ k) → StronglySorted R l.
Proof.
  induction l as [|x l IH]; intros H; [constructor|]. apply StronglySorted_inv in H as [H1 H2]. constructor; [by apply IH|]. by apply Forall_app in H2 as [H2 _].
Qed.

Lemma in_order_delete pop_max M y l : dom M ⊆ universe → in_order pop_max M = y :: l → in_order pop_max (delete y.1 M) = l ∧ M !! y.1 = Some y.2.
Proof.
  intros Hd E. assert (Hs := StronglySorted_merge_sort rank_le (map_to_list M) : StronglySorted rank_le (ranked M)). assert (Hp := ranked_perm M).
  assert (Hy : M !! y.1 = Some y.2).
  { apply ranked_elem. destruct y as [y s]. destruct pop_max; cbn in E |- *; [rewrite (Permutation_rev (ranked M)), E|rewrite E]; by constructor. }
  split; [|done]. assert (Hdel := map_to_list_delete M y.1 y.2 Hy). assert (Hd' : dom (delete y.1 M) ⊆ universe) by (rewrite dom_delete_L; set_solver).
  replace (y.1, y.2) with y in Hdel by (by destruct y). destruct pop_max; cbn in E |- *.
  - assert (E' : ranked M = rev l ++ [y]) by (rewrite <- (rev_involutive (ranked M)), E; done). rewrite E' in Hs, Hp.
    rewrite <- (ranked_unique (delete y.1 M) (rev l)), rev_involutive; [done|done|by eapply StronglySorted_app_l|].
    apply (Permutation_cons_inv (a := y)). rewrite Hdel, <- Hp. by rewrite Permutation_app_comm.
  - rewrite E in Hs, Hp. apply StronglySorted_inv in Hs as [Hs _]. rewrite <- (ranked_unique (delete y.1 M) l); [done|done|done|].
    apply (Permutation_cons_inv (a := y)). by rewrite Hdel, <- Hp.
Qed.

(** ** Members popped *)

(** A key without metadata whose sorted set is still in the map; the rest stands for
    [m]. *)
Record ghost key M db m : Prop := {
  gh_sound : sound db;
  gh_none : m !! key = None;
  gh_at : look db key = MkShape None None None None (Some M) None;
  gh_look k : k ≠ key → look db k = shape_of (m !! k);
}.

Definition end_rank pop_max (z : ZSetType) : Z := if pop_max then u64 (ZSize z - 1) else 0%Z.
Lemma zpop_rank pop_max now key : zpop pop_max now key = pop_rank now key (end_rank pop_max).
Proof. by destruct pop_max. Qed.

Lemma end_member pop_max z y l :
  zset_ok z → in_order pop_max (member_to_score_ z) = y :: l → GetRangeByRank (end_rank pop_max z) (end_rank pop_max z) false true z = [y].
Proof.
  intros Hz E. assert (Hsm := zset_ok_small z Hz). assert (Hlen := length_in_order pop_max (member_to_score_ z)). rewrite E in Hlen. unfold zlen in Hlen. cbn [length] in Hlen.
  assert (Ez : ZSize z = Z.of_nat (size (member_to_score_ z))).
  { unfold ZSize. rewrite (os_size_elements hash z (proj1 Hz) Hsm). by rewrite (size_elements hash z (proj1 Hz)). }
  assert (Hr : end_rank pop_max z = if pop_max then (Z.of_nat (length l)) else 0%Z).
  { unfold end_rank. destruct pop_max; [|done]. rewrite Ez, u64_small; [lia|]. unfold in_u64, small_set in *. rewrite <- (size_elements hash z (proj1 Hz)) in Hsm. lia. }
  rewrite (GetRangeByRank_ok hash); [|apply Hz|done|rewrite Hr; destruct pop_max; lia]. rewrite (listing_ranked z (proj1 Hz)), Z.sub_diag. change (Z.to_nat (0 + 1)) with 1. cbn [strip].
  rewrite Hr. destruct pop_max; cbn in E.
  - assert (E' : ranked (member_to_score_ z) = rev l ++ [y]) by (rewrite <- (rev_involutive (ranked _)), E; done).
    rewrite E', Nat2Z.id. rewrite drop_app_length' by (by rewrite length_rev). done.
  - by rewrite E.
Qed.

Lemma zset_found db m key y l pop_max :
  models db m → in_order pop_max (zset_at key m) = y :: l →
  ∃ z e, m !! key = Some (VZSet (member_to_score_ z), e) ∧ DGet key (zsets_ db) = Some z ∧ zset_ok z ∧ zset_at key m = member_to_score_ z.
Proof.
  intros H E. assert (El := look_zset db m key H). unfold zset_at in *.
  assert (Hn : in_order pop_max ∅ = []) by (unfold in_order; rewrite ranked_empty; by destruct pop_max).
  destruct (m !! key) as [[[] e]|]; try (by rewrite Hn in E). cbn in El. apply fmap_Some in El as (z' & Ez & ->). exists z', e.
  split; [done|]. split; [done|]. split; [|done]. by apply (sound_zsets db (mod_sound _ _ H) key).
Qed.

(** One member: the set goes on without it, or is lost when it was the last. *)
Lemma zpop_one pop_max now key db m y l :
  (now ≤ horizon)%Z → models db m → in_order pop_max (zset_at key m) = y :: l →
  ∃ db', zpop pop_max now key db = (db', Some y) ∧
    if decide (l = []) then ghost key ∅ db' (delete key m)
    else let m' := change key (on_scored (delete y.1)) m in models db' m' ∧ in_order pop_max (zset_at key m') = l.
Proof.
  intros Hn H E. destruct (zset_found db m key y l pop_max H E) as (z & e & Em & Ez & Hz & Eat). rewrite Eat in E.
  rewrite zpop_rank. unfold pop_rank. rewrite (valid_models now key db m Hn H), Em, bool_decide_eq_true_2 by (by eexists). cbn [negb]. unfold GetZSet. rewrite Ez.
  assert (Hlen := length_in_order pop_max (member_to_score_ z)). rewrite E in Hlen. unfold zlen in Hlen. cbn [length] in Hlen.
  assert (Hsize : ∀ z, zset_ok z → ZSize z = Z.of_nat (size (member_to_score_ z))).
  { clear. intros z Hz. unfold ZSize. rewrite (os_size_elements hash z (proj1 Hz) (zset_ok_small z Hz)). by rewrite (size_elements hash z (proj1 Hz)). }
  rewrite (Hsize z Hz), (proj2 (Z.eqb_neq _ 0)) by lia. rewrite (end_member pop_max z y l Hz E).
  destruct (zset_ok_remove z y.1 Hz) as (Hz' & Em' & _). set (z' := (Remove hash y.1 z).1) in *. rewrite (Hsize z' Hz'), Em'.
  destruct (in_order_delete pop_max _ _ _ (proj2 Hz) E) as [El Hy].
  assert (Hl : Z.of_nat (size (delete y.1 (member_to_score_ z))) = zlen l) by (by rewrite <- El, length_in_order).
  rewrite Hl. assert (H1 := kind_put_models (K := zset_kind) key z' db m _ e H Em Hz'). change (kind_put (K := zset_kind) key z' db) with (put_zset key z' db) in H1.
  cbn [kind_view kind_value zset_kind] in H1. rewrite Em' in H1. eexists. split; [done|]. unfold zlen. case_decide as Ed.
  - rewrite Ed in Hl |- *. change (Z.of_nat (length _) =? 0)%Z with true. cbv iota. assert (E0 : delete y.1 (member_to_score_ z) = ∅) by (apply map_size_empty_inv; apply Nat2Z.inj; exact Hl).
    rewrite E0 in H1. split.
    + apply sound_with, H1.
    + by rewrite lookup_delete_eq.
    + unfold unregister. rewrite look_with, (mod_look _ _ H1), lookup_insert_eq, unregister_view, decide_True by done. done.
    + intros k Hne. unfold unregister. rewrite look_with, unregister_view, decide_False by done. rewrite lookup_delete_ne by done.
      assert (Hk := mod_look _ _ H1 k). rewrite lookup_insert_ne in Hk by done. rewrite <- Hk. done.
  - destruct l as [|y' l]; [done|]. rewrite (proj2 (Z.eqb_neq _ 0)) by (cbn; lia). cbv zeta. rewrite (change_some _ _ _ _ _ Em). split; [exact H1|].
    unfold zset_at. rewrite lookup_insert_eq. exact El.
Qed.

(** The members that remain. *)
Lemma change_deletes key xs x m :
  change key (on_scored (without xs)) (change key (on_scored (delete x)) m) = change key (on_scored (without (x :: xs))) m.
Proof. by rewrite !without_change. Qed.

Lemma zpop_some pop_max now key n : ∀ db m,
  (now ≤ horizon)%Z → models db m → n < size (zset_at key m) →
  let popped := take n (in_order pop_max (zset_at key m)) in
  ∃ db', zpop_many pop_max now key n db = (db', popped) ∧ models db' (change key (on_scored (without popped.*1)) m).
Proof.
  induction n as [|n IH]; intros db m Hn H Hlt popped.
  { exists db. split; [done|]. unfold popped. rewrite take_0. rewrite change_id; [done|]. by intros []. }
  assert (Hlen := length_in_order pop_max (zset_at key m)). unfold zlen in Hlen. destruct (in_order pop_max (zset_at key m)) as [|y l] eqn:E; [cbn in Hlen; lia|].
  cbn [length] in Hlen. destruct (zpop_one pop_max now key db m y l Hn H E) as (db1 & E1 & H1). cbn [zpop_many]. rewrite E1.
  rewrite decide_False in H1 by (intros ->; cbn in Hlen; lia). destruct H1 as [H1 El].
  assert (Hs : n < size (zset_at key (change key (on_scored (delete y.1)) m))).
  { assert (Hl := length_in_order pop_max (zset_at key (change key (on_scored (delete y.1)) m))). rewrite El in Hl. unfold zlen in Hl. lia. }
  destruct (IH db1 _ Hn H1 Hs) as (db2 & E2 & H2). rewrite E2. exists db2. rewrite El in *. split; [done|]. rewrite change_deletes in H2. done.
Qed.

Lemma ghost_valid key M db m now : ghost key M db m → valid now key db = (db, false).
Proof.
  intros H. assert (E := gh_at _ _ _ _ H). unfold look in E. injection E as _ _ _ _ _ E. unfold valid, IsValid. destruct (DGet key (metadata_manager_ db)); [done|]. by destruct db.
Qed.
Lemma ghost_pop pop_max key M db m now n : ghost key M db m → zpop_many pop_max now key n db = (db, []).
Proof. intros H. destruct n; [done|]. cbn [zpop_many]. rewrite zpop_rank. unfold pop_rank. by rewrite (ghost_valid _ _ _ _ now H). Qed.

Lemma zpop_all pop_max now key n : ∀ db m,
  (now ≤ horizon)%Z → models db m → 0 < size (zset_at key m) ≤ n →
  ∃ db', zpop_many pop_max now key n db = (db', in_order pop_max (zset_at key m)) ∧ ghost key ∅ db' (delete key m).
Proof.
  induction n as [|n IH]; intros db m Hn H Hle; [lia|].
  assert (Hlen := length_in_order pop_max (zset_at key m)). unfold zlen in Hlen. destruct (in_order pop_max (zset_at key m)) as [|y l] eqn:E; [cbn in Hlen; lia|].
  cbn [length] in Hlen. destruct (zpop_one pop_max now key db m y l Hn H E) as (db1 & E1 & H1). cbn [zpop_many]. rewrite E1. case_decide as Ed.
  - subst l. exists db1. by rewrite (ghost_pop pop_max key ∅ db1 _ now n H1).
  - destruct H1 as [H1 El]. set (m' := change key (on_scored (delete y.1)) m) in *.
    assert (Hl := length_in_order pop_max (zset_at key m')). rewrite El in Hl. unfold zlen in Hl.
    assert (length l ≠ 0) by (by destruct l). destruct (IH db1 m' Hn H1 ltac:(lia)) as (db2 & E2 & H2). rewrite E2, El. exists db2. split; [done|].
    replace (delete key m) with (delete key m'); [done|]. unfold m', change. apply map_eq. intros k. destruct (decide (k = key)) as [->|Hne].
    + by rewrite !lookup_delete_eq.
    + by rewrite !lookup_delete_ne, lookup_alter_ne.
Qed.

(** What is added goes into the set of the map, and the key stays without metadata. *)
Lemma ghost_zadd now key s x M db m :
  ghost key M db m → x ∈ universe →
  ghost key (zadd_spec x s M) (DbZAdd now key s x db).1 m ∧ (DbZAdd now key s x db).2 = bool_decide (M !! x = None).
Proof.
  intros [Hs Hn Ha Hl] Hx. assert (Ez : ∃ z, DGet key (zsets_ db) = Some z ∧ member_to_score_ z = M).
  { unfold look in Ha. injection Ha as _ _ _ _ Ha _. apply fmap_Some in Ha as (z & ? & ?). by exists z. }
  destruct Ez as (z & Ez & EM). assert (Hz := sound_zsets db Hs key z Ez). unfold DbZAdd, zset_or_new, GetZSet. rewrite Ez. cbv zeta.
  set (db1 := track_memory _ db). assert (H1 : sound db1 ∧ zsets_ db1 = zsets_ db ∧ ∀ k, look db1 k = look db k).
  { unfold db1, track_memory. destruct (memory_tracker_ db) as [t|]; [|done].
    assert (Hh := harmless_element _ key (ZContains x z) x (t, metadata_manager_ db) : ∀ k, meta_view (UpdateZSetMember key (ZContains x z) x (t, metadata_manager_ db)).2 k = _).
    destruct (UpdateZSetMember _ _ _ _) as [t' md]. cbn [snd] in Hh. split; [by apply sound_tracker, sound_with|]. split; [by destruct db|].
    intros k. transitivity (look (with_metadata md db) k); [by destruct db|]. rewrite look_with, Hh. done. }
  destruct H1 as (Hs1 & Ez1 & Hl1). rewrite (plain_check now db1 (sound_plain _ Hs1)). destruct (zset_ok_add z x s Hz Hx) as (Hz' & Em & Er).
  destruct (Add hash x s z) as [z' r]. cbn [fst snd] in *. rewrite EM in *. split; [|exact Er].
  assert (Hx1 : is_Some (DGet key (zsets_ db1))) by (rewrite Ez1, Ez; by eexists). unfold put_zset. split.
  - apply (kind_sound_with (Kind := zset_kind)); [done|]. cbn [kind_wf zset_kind]. intros k c. rewrite put_back_get by done. case_decide; [by intros [= <-]|]. by apply sound_zsets.
  - done.
  - assert (E1 : look db1 key = look db key) by apply Hl1. rewrite Ha in E1. destruct db1. unfold look in *. cbn in *. injection E1 as -> -> -> -> _ ->.
    rewrite put_back_get by done. rewrite decide_True by done. cbn. by rewrite Em.
  - intros k Hne. rewrite <- Hl, <- Hl1 by done. apply (kind_look_same (Kind := zset_kind)). cbn [kind_map zset_kind]. by rewrite put_back_get, decide_False.
Qed.

(** The sorted set alone. *)
Definition only key M : TypedStore.store := {[key := (VZSet M, None)]}.
Lemma put_only key M M' : put key (VZSet M') (only key M) = only key M'.
Proof. unfold put, deadline_of, only. by rewrite lookup_singleton_eq, insert_singleton_eq. Qed.
Lemma only_at key M : zset_at key (only key M) = M.
Proof. unfold zset_at, only. by rewrite lookup_singleton_eq. Qed.

Definition shows (expected : CommandResult * TypedStore.store) key m (r : Z + outcome) c' : Prop :=
  calm c' ∧ ∃ M', ghost key M' (ctx_db c') m ∧ expected.2 = only key M' ∧
  match r with inl k => expected.1 = reply_int k | inr o => o = Returned expected.1 end.

Lemma zadd_loop_ghost now key m xs : ∀ c M n,
  calm c → ghost key M (ctx_db c) m → known_pairs xs →
  wp (zadd_loop undefined now key (bulk <$> xs) n) (shows (zadd_pairs key xs n (only key M)) key m) c.
Proof.
  induction xs as [|x|s x xs IH] using list_pair_ind; intros c M n Hc Hg Hx; [split; [done|]; by exists M..|].
  destruct Hx as (Hsc & Hu & Hx). cbn [fmap list_fmap zadd_loop zadd_pairs]. apply wp_bind, wp_require; [intros _|done]. apply wp_bind, wp_need.
  2: { cbn [arg_value bulk]. intros ->. split; [done|]. by exists M. }
  cbn [arg_value bulk]. intros d Ed. rewrite Ed. destruct (a_number_score s d Hsc Ed) as (sc & Es & _). cbn [mbind option_bind]. rewrite Es.
  apply wp_bind, (wp_as_score undefined d sc); [done|]. apply wp_bind. unfold wp at 1, on_db. destruct (ghost_zadd now key sc x M _ m Hg Hu) as [Hg' Er].
  destruct (DbZAdd now key sc x (ctx_db c)) as [db' b]. cbn [fst snd] in *. subst b. rewrite only_at, put_only. by apply IH.
Qed.

(** ** The commands *)

Definition zadd now key (xs : list bytes) c : Ctx * outcome := run (HandleZAdd undefined now (MkCommand (B "ZADD") (bulk <$> key :: xs))) c.
Fixpoint zadds now key (adds : list (list bytes)) c : Ctx * list outcome :=
  match adds with
  | [] => (c, [])
  | xs :: adds => let '(c, o) := zadd now key xs c in let '(c, os) := zadds now key adds c in (c, o :: os)
  end.
(** What they answer when the sorted set starts with [M]. *)
Fixpoint zadd_replies key (adds : list (list bytes)) m : list CommandResult :=
  match adds with
  | [] => []
  | xs :: adds => let '(r, m) := zadd_pairs key xs 0 m in r :: zadd_replies key adds m
  end.

Definition pairs_ok (xs : list bytes) : Prop := 2 ≤ length xs ∧ Nat.Even (length xs) ∧ known_pairs xs.

Lemma zadd_ghost now key xs c M m :
  calm c → ghost key M (ctx_db c) m → pairs_ok xs →
  let '(c', o) := zadd now key xs c in let '(r, m') := zadd_pairs key xs 0 (only key M) in
  o = Returned r ∧ calm c' ∧ ∃ M', m' = only key M' ∧ ghost key M' (ctx_db c') m.
Proof.
  intros Hc Hg (Hlen & [j Hj] & Hk). assert (Hw := zadd_loop_ghost now key m xs c M 0 Hc Hg Hk). destruct (zadd_pairs key xs 0 (only key M)) as [r m'].
  enough (Hz : wp (HandleZAdd undefined now (MkCommand (B "ZADD") (bulk <$> key :: xs))) (λ a c', answers a r ∧ calm c' ∧ ∃ M', m' = only key M' ∧ ghost key M' (ctx_db c') m) c).
  { unfold zadd, run. unfold wp in Hz. destruct (HandleZAdd _ _ _ _) as [c' a]. cbn [fst snd] in Hz. by destruct Hz as ([-> | ->] & Hz). }
  unfold HandleZAdd. apply wp_bind, wp_require; unfold ArgCount; cbn [cmd_args]; rewrite length_fmap; cbn [length].
  2: { assert ((S (length xs) <? 3) = false) as -> by (apply Nat.ltb_ge; lia). assert ((S (length xs) mod 2 =? 1) = true) as ->; [|done].
       apply Nat.eqb_eq. rewrite Hj. replace (S (2 * j)) with (1 + j * 2) by lia. by rewrite Nat.Div0.mod_add. }
  intros _. apply wp_bind, wp_require; [intros _|done]. change (drop 1 (bulk <$> key :: xs)) with (bulk <$> xs). change (arg_text 0 _) with key.
  apply wp_bind. eapply wp_mono; [|exact Hw]. intros [k|o] c' (Hc' & M' & Hg' & E2 & E1); cbn [fst snd] in *.
  - apply wp_ret. subst. split; [by left|]. split; [done|]. by exists M'.
  - subst. split; [by right|]. split; [done|]. by exists M'.
Qed.

(** ZSCORE, ZCARD and EXISTS do not find the key. *)
Definition hidden key c : Prop := ∀ now x, (0 ≤ now ≤ horizon)%Z →
  (run (HandleZScore now (MkCommand (B "ZSCORE") (bulk <$> [key; x]))) c).2 = Returned (Success (resp_of_type kNullBulkString)) ∧
  (run (HandleZCard now (MkCommand (B "ZCARD") (bulk <$> [key]))) c).2 = Returned (reply_int 0) ∧
  (run (HandleExists now (MkCommand (B "EXISTS") (bulk <$> [key]))) c).2 = Returned (reply_int 0).

(** ZINCRBY, which does not look at the metadata, finds the members. *)
Definition remembered key (M : gmap bytes Score) c : Prop := ∀ now x t sc d, M !! x = Some sc → atod t = Some d → is_nan (double_add (dval sc) d) = false →
  (run (HandleZIncrBy undefined now (MkCommand (B "ZINCRBY") (bulk <$> [key; t; x]))) c).2 = Returned (Success (resp_double (double_add (dval sc) d))).

Lemma wp_answer (f : M CommandResult) r c : wp f (λ a _, a = inl r) c → (run f c).2 = Returned r.
Proof. unfold wp, run. destruct (f c) as [c' a]. cbn [fst snd]. by intros ->. Qed.
Lemma wp_stays {A} (f : Database → Database * A) c (y : A) (Q : A + outcome → Ctx → Prop) : f (ctx_db c) = (ctx_db c, y) → Q (inl y) c → wp (on_db f) Q c.
Proof. intros E HQ. unfold wp, on_db. rewrite E. by destruct c. Qed.

Lemma ghost_hidden key M c m : ghost key M (ctx_db c) m → hidden key c.
Proof.
  intros Hg now x Hn. assert (Hv := ghost_valid key M (ctx_db c) m now Hg).
  assert (Hon : ∀ R (d : R) f, on_zset now key d f (ctx_db c) = (ctx_db c, d)) by (intros R d f; unfold on_zset; by rewrite Hv).
  split; [|split]; apply wp_answer.
  - unfold HandleZScore. do 2 (apply wp_bind, wp_require; [intros _|done]). by apply wp_bind, (wp_stays _ c None); [apply Hon|].
  - unfold HandleZCard. do 2 (apply wp_bind, wp_require; [intros _|done]). by apply wp_bind, (wp_stays _ c 0%Z); [apply Hon|].
  - assert (E := gh_at _ _ _ _ Hg). unfold look in E. injection E as _ _ _ _ _ E. unfold HandleExists. apply wp_bind, wp_require; [intros _|done].
    cbn [cmd_args fmap list_fmap mfold]. apply wp_bind, wp_bind, wp_bind, wp_require; [intros _|done]. apply wp_bind, (wp_stays _ c None); [|done].
    unfold DbGetType, on_metadata, GetKeyType. cbn [arg_value bulk]. destruct (DGet key (metadata_manager_ (ctx_db c))); [done|]. by destruct (ctx_db c).
Qed.

Lemma ghost_remembered key M c m : ghost key M (ctx_db c) m → remembered key M c.
Proof.
  intros Hg now x t sc d Hx Ht Hn. assert (E := gh_at _ _ _ _ Hg). unfold look in E. injection E as _ _ _ _ E _. apply wp_answer.
  unfold HandleZIncrBy. do 2 (apply wp_bind, wp_require; [intros _|done]). apply wp_bind, wp_need; change (arg_text 1 _) with t; rewrite Ht; [|done]. intros y [= <-].
  apply wp_bind. change (arg_text 0 _) with key. change (arg_text 2 _) with x. unfold wp, on_scores, DbZIncrBy, zset_or_new, GetZSet.
  destruct (DGet key (zsets_ (ctx_db c))) as [z|]; [|done]. injection E as E. unfold GetScore. rewrite E, Hx.
  destruct (score_of_number _ Hn) as (sc' & -> & Es). cbn [mbind option_bind]. unfold on_db. rewrite Es. done.
Qed.

(** The set after the commands. *)
Fixpoint zadd_store key (adds : list (list bytes)) m : TypedStore.store :=
  match adds with [] => m | xs :: adds => zadd_store key adds (zadd_pairs key xs 0 m).2 end.

Lemma zadds_ghost now key m adds : ∀ c M,
  calm c → ghost key M (ctx_db c) m → Forall pairs_ok adds →
  let '(c', os) := zadds now key adds c in os = Returned <$> zadd_replies key adds (only key M) ∧ hidden key c' ∧ remembered key (zset_at key (zadd_store key adds (only key M))) c'.
Proof.
  induction adds as [|xs adds IH]; intros c M Hc Hg Ha; [split; [done|]; split; [by eapply ghost_hidden|cbn; rewrite only_at; by eapply ghost_remembered]|].
  apply Forall_cons in Ha as [Hx Ha]. cbn [zadds zadd_replies zadd_store]. assert (H1 := zadd_ghost now key xs c M m Hc Hg Hx). destruct (zadd now key xs c) as [c1 o].
  destruct (zadd_pairs key xs 0 (only key M)) as [r m']. destruct H1 as (-> & Hc1 & M' & -> & Hg'). assert (H2 := IH c1 M' Hc1 Hg' Ha).
  destruct (zadds now key adds c1) as [c2 os]. destruct H2 as [-> H2]. by split.
Qed.

(** A text for a number of members. *)
Definition counts (t : bytes) (n : nat) : Prop := ArgIsInteger (bulk t) = true ∧ ArgAsInteger (bulk t) = Z.of_nat n ∧ 0 < n.

Lemma pop_wp name pop_max now key t n c db' l (Q : CommandResult + outcome → Ctx → Prop) :
  counts t n → zpop_many pop_max now key n (ctx_db c) = (db', l) → l ≠ [] →
  Q (inl (reply_array (pair_of <$> l))) (with_db db' c) → wp (pop_members name pop_max now (MkCommand name (bulk <$> [key; t]))) Q c.
Proof.
  intros (H1 & H2 & H3) E Hl HQ. unfold pop_members. do 2 (apply wp_bind, wp_require; [intros _|done]). apply wp_bind.
  change (1 <? ArgCount _) with true. change (arg 1 _) with (bulk t). cbv iota. unfold blmpop_count. rewrite H1, H2. apply wp_ret.
  apply wp_bind, wp_require; [intros _|]. 2: { rewrite (proj2 (Z.ltb_ge _ _)); [done|lia]. }
  apply wp_bind. unfold wp at 1, on_db. change (arg_text 0 _) with key. rewrite Nat2Z.id, E. apply wp_ret. by destruct l.
Qed.

(** ZPOPMIN and ZPOPMAX with a count below the size of the set answer the members
    with the lowest or the highest scores, in order, and the set goes on without
    them. *)
Theorem zpop_takes_ends name pop_max now key t n c m :
  (0 ≤ now ≤ horizon)%Z → stands c m → counts t n → n < size (zset_at key m) →
  let popped := take n (in_order pop_max (zset_at key m)) in
  let '(c', o) := run (pop_members name pop_max now (MkCommand name (bulk <$> [key; t]))) c in
  o = Returned (reply_array (pair_of <$> popped)) ∧ stands c' (change key (on_scored (without popped.*1)) m).
Proof.
  intros Hn [Hc Hm] Ht Hlt popped. destruct (zpop_some pop_max now key n (ctx_db c) m (proj2 Hn) Hm Hlt) as (db' & E & Hm'). fold popped in E, Hm'.
  enough (Hw : wp (pop_members name pop_max now (MkCommand name (bulk <$> [key; t])))
    (λ r c', r = inl (reply_array (pair_of <$> popped)) ∧ stands c' (change key (on_scored (without popped.*1)) m)) c).
  { unfold wp in Hw. unfold run. destruct (pop_members _ _ _ _ _) as [c' r]. cbn [fst snd] in Hw. by destruct Hw as (-> & Hw). }
  apply (pop_wp name pop_max now key t n c db' popped); [done|done| |by split; [|split]].
  intros E0. apply (f_equal length) in E0. unfold popped in E0. rewrite length_take in E0. assert (Hl := length_in_order pop_max (zset_at key m)).
  unfold zlen in Hl. cbn [length] in E0. destruct Ht as (_ & _ & Ht). lia.
Qed.

(** C37. A sorted set that ZPOPMIN or ZPOPMAX empties swallows what is added
    later: the members come out in order, and from then on ZADD answers as for a
    new set, while ZSCORE, ZCARD and EXISTS do not find the key. The members that
    were added are there all the same: ZINCRBY adds to their scores. *)
Theorem emptied_set_swallows name pop_max now now' key t n adds c m :
  (0 ≤ now ≤ horizon)%Z → stands c m → counts t n → 0 < size (zset_at key m) ≤ n → Forall pairs_ok adds →
  let '(c1, o) := run (pop_members name pop_max now (MkCommand name (bulk <$> [key; t]))) c in
  let '(c2, os) := zadds now' key adds c1 in
  o = Returned (reply_array (pair_of <$> in_order pop_max (zset_at key m))) ∧
  os = Returned <$> zadd_replies key adds (only key ∅) ∧ hidden key c2 ∧ remembered key (zset_at key (zadd_store key adds (only key ∅))) c2.
Proof.
  intros Hn [Hc Hm] Ht Hle Ha. destruct (zpop_all pop_max now key n (ctx_db c) m (proj2 Hn) Hm Hle) as (db' & E & Hg).
  enough (Hw : wp (pop_members name pop_max now (MkCommand name (bulk <$> [key; t])))
    (λ r c', r = inl (reply_array (pair_of <$> in_order pop_max (zset_at key m))) ∧ calm c' ∧ ghost key ∅ (ctx_db c') (delete key m)) c).
  { unfold wp in Hw. unfold run. destruct (pop_members _ _ _ _ _) as [c1 r]. cbn [fst snd] in Hw. destruct Hw as (-> & Hc1 & Hg1).
    assert (H2 := zadds_ghost now' key _ adds c1 ∅ Hc1 Hg1 Ha). destruct (zadds now' key adds c1) as [c2 os]. by split. }
  apply (pop_wp name pop_max now key t n c db' (in_order pop_max (zset_at key m))); [done|done| |by split].
  intros E0. apply (f_equal zlen) in E0. rewrite length_in_order in E0. change (zlen []) with 0%Z in E0. lia.
Qed.

(** ** Clients that wait *)

Lemma none_pops pop_max now key n db m : (now ≤ horizon)%Z → models db m → m !! key = None → zpop_many pop_max now key n db = (db, []).
Proof.
  intros Hn Hm Hk. destruct n; [done|]. cbn [zpop_many]. rewrite zpop_rank. unfold pop_rank. rewrite (valid_models now key db m Hn Hm), Hk. done.
Qed.

(** A client that waits in BZPOPMIN or BZPOPMAX is not served by ZADD, which adds
    the member and leaves the client in its queue. *)
Theorem bzpop_forgotten name pop_max clock now now' key t s x sc d c m bm id id' :
  ready now key t c m bm → (0 ≤ now' ≤ horizon)%Z → atod s = Some d → score_of d = Some sc → x ∈ universe →
  let c1 := (run (blocking_zpop name pop_max clock now (MkCommand name (bulk <$> [key; t]))) (as_client id c)).1 in
  let '(c2, o) := zadd now' key [s; x] (as_client id' c1) in
  o = Returned (reply_int 1) ∧ models (ctx_db c2) (put key (VZSet {[x := sc]}) m) ∧
  blocking_sent (ctx_more c2) = blocking_sent (ctx_more c) ∧ id ∈ client_id <$> queue_of key (manager_of c2).
Proof.
  intros (Hn & Hm & Hk & Hb & _ & w & Hw & Hp) Hn' Hd Hs Hx c1.
  set (cmd := MkCommand name (bulk <$> [key; t])) in *.
  assert (H1 : ∃ f, wp (blocking_zpop name pop_max clock now cmd) (λ r c', r = inl Blocking ∧ ctx_db c' = ctx_db c ∧ blocking_sent (ctx_more c') = blocking_sent (ctx_more c) ∧
    blocking_manager (ctx_more c') = Some (AddBlockedClient key (MkBlocked id key cmd w clock f true) bm)) (as_client id c)).
  { eexists. unfold blocking_zpop. apply wp_bind, wp_require; [intros _|done]. apply wp_bind. change (arg _ cmd) with (bulk t). rewrite Hw. apply wp_ret.
    change (take _ _) with [bulk key]. unfold zpop_or_wait. cbn [zpop_loop fmap list_fmap arg_value bulk]. apply wp_bind, wp_bind, wp_require; [intros _|done].
    apply wp_bind. apply (wp_stays _ _ []); [by apply (none_pops _ _ _ _ _ m); [lia|..]|]. apply wp_ret. rewrite Hp.
    unfold block, wp. cbn [with_db as_client ctx_more blocking_manager]. rewrite Hb. done. }
  destruct H1 as [f H1]. unfold c1. unfold wp in H1. unfold run at 1. destruct (blocking_zpop _ _ _ _ _ _) as [c1' r1]. cbn [fst snd] in H1.
  destruct H1 as (-> & Edb & Es & Ebm). cbn [fst]. set (bm1 := AddBlockedClient _ _ _) in Ebm.
  enough (Hz : wp (HandleZAdd undefined now' (MkCommand (B "ZADD") (bulk <$> [key; s; x]))) (λ r c', r = inl (reply_int 1) ∧
    models (ctx_db c') (put key (VZSet {[x := sc]}) m) ∧ ctx_more c' = ctx_more (as_client id' c1')) (as_client id' c1')).
  { unfold wp in Hz. unfold zadd, run. destruct (HandleZAdd _ _ _ _) as [c2 r2]. cbn [fst snd] in Hz. destruct Hz as (-> & H2 & E2). split; [done|]. split; [done|].
    split; [by rewrite E2|]. unfold manager_of. rewrite E2. cbn [as_client ctx_more blocking_manager]. rewrite Ebm. change (default _ (Some ?a)) with a.
    unfold bm1, AddBlockedClient, queue_of at 1. cbn [wait_queues_]. rewrite lookup_insert_eq. change (default [] (Some ?a)) with a. rewrite fmap_app. apply elem_of_app. right. by constructor. }
  unfold HandleZAdd. do 2 (apply wp_bind, wp_require; [intros _|done]). change (drop 1 _) with (bulk <$> [s; x]). change (arg_text 0 _) with key. cbn [fmap list_fmap zadd_loop].
  apply wp_bind, wp_bind, wp_require; [intros _|done]. apply wp_bind, wp_need; cbn [arg_value bulk]; [|by rewrite Hd]. intros d' Hd'. rewrite Hd in Hd'. injection Hd' as <-.
  apply wp_bind, (wp_as_score undefined d sc); [done|]. apply wp_bind. eapply (wp_does_db _ _ m); [cbn; by rewrite Edb|apply does_zadd; [unfold has_type; by rewrite Hk|done]|].
  intros db Hdb. apply wp_ret, wp_ret. unfold zset_at in Hdb |- *. rewrite Hk in Hdb |- *. rewrite lookup_empty. split; [done|]. split; [|done].
  unfold zadd_spec in Hdb. rewrite lookup_empty in Hdb. exact Hdb.
Qed.

(** ** Unions and intersections *)

Implicit Types (f : bytes → Scores) (keys opts : list bytes) (o : ScoreOptions).

(** The scores of a member in the sets that have it, times the weights. *)
Definition weighted_score f x (kw : bytes * spec_float) : option spec_float := (λ s, double_mul s kw.2) <$> f kw.1 !! x.
Definition weighted_scores f (kws : list (bytes * spec_float)) x : list spec_float := omap (weighted_score f x) kws.

(** [l] lists the union: every member of a set, once, with the aggregate of its
    weighted scores, from the lowest to the highest. *)
Definition unites o keys f (l : list (bytes * spec_float)) : Prop :=
  let scores := weighted_scores f (zip keys (set_weights o)) in
  NoDup l.*1 ∧ Sorted by_score l ∧ ∀ x s, (x, s) ∈ l ↔ scores x ≠ [] ∧ s = union_score (aggregate o) (scores x).

(** The intersection: the members of all sets. *)
Definition inter_total (aggregate : bytes) (scores : list spec_float) : spec_float :=
  (foldl (λ a s, (false, inter_score aggregate a.1 a.2 s)) (true, d0_0) scores).2.
Definition intersects o keys f (l : list (bytes * spec_float)) : Prop :=
  NoDup l.*1 ∧ Sorted by_score l ∧
  ∀ x s, (x, s) ∈ l ↔ is_Some (f (default [] (head keys)) !! x) ∧
    ∃ scores, mapM (weighted_score f x) (zip keys (set_weights o)) = Some scores ∧ s = inter_total (aggregate o) scores.

#[local] Instance by_score_total : Total by_score.
Proof.
  intros [x a] [y b]. unfold by_score. cbn. destruct (double_lt b a) eqn:E1; [|by left]. right. destruct (double_lt a b) eqn:E2; [|done]. exfalso.
  unfold double_lt, SFltb in *. revert E1 E2.
  destruct a as [[]|[]| |[] ma ea], b as [[]|[]| |[] mb eb]; cbn; try done; rewrite (Z.compare_antisym ea eb); destruct (ea ?= eb)%Z; cbn; try done;
    change (Pos.compare_cont Eq) with Pos.compare; rewrite (Pos.compare_antisym ma mb); by destruct (ma ?= mb)%positive.
Qed.
Lemma sortable_perm l l' : l ≡ₚ l' → sortable l ↔ sortable l'.
Proof. intros Hp. unfold sortable. rewrite Hp. setoid_rewrite Hp. done. Qed.

(** A handler answers with a list of members, or is undefined where the scores have
    no order, in a state with [I]. *)
Definition sorted_answer o (listed : list (bytes * spec_float) → Prop) (I : Ctx → Prop) (c' : Ctx) (a : outcome) : Prop :=
  ∃ l, listed l ∧ if decide (sortable l) then I c' ∧ a = Returned (reply_members (with_scores o) l) else ∃ c, I c ∧ undefined c = (c', a).
Definition outcome_of (r : CommandResult + outcome) : outcome := match r with inl r => Returned r | inr a => a end.

Lemma sort_answers o listed (I : Ctx → Prop) l c :
  I c → (∀ l', Sorted by_score l' → l' ≡ₚ l → listed l') →
  wp (sorted ← sort_scores undefined l; mret (reply_members (with_scores o) sorted)) (λ r c', sorted_answer o listed I c' (outcome_of r)) c.
Proof.
  intros Hi Hl. assert (Hp := merge_sort_Permutation by_score l). apply wp_bind. unfold sort_scores. case_decide as Hs.
  - apply wp_ret, wp_ret. exists (merge_sort by_score l). split; [apply Hl; [apply (Sorted_merge_sort by_score)|done]|].
    rewrite decide_True by (by apply (sortable_perm _ _ Hp)). done.
  - unfold wp, lost. destruct (undefined c) as [c' a] eqn:E. cbn [fst snd outcome_of]. exists (merge_sort by_score l).
    split; [apply Hl; [apply (Sorted_merge_sort by_score)|done]|]. rewrite decide_False by (by rewrite (sortable_perm _ _ Hp)). by exists c.
Qed.

(** The scores gathered so far. *)
Definition gathered (acc : gmap bytes (list spec_float)) (g : bytes → list spec_float) : Prop :=
  ∀ x, acc !! x = match g x with [] => None | l => Some l end.

Lemma gathered_step acc g k w f (l : list (bytes * spec_float)) :
  gathered acc g → NoDup l.*1 → list_to_map l = f k → gathered (add_scores w l acc) (λ x, g x ++ option_list (weighted_score f x (k, w))).
Proof.
  intros Hg Hd Hl x. unfold weighted_score. cbn [fst snd]. rewrite <- Hl. clear Hl. unfold add_scores. revert acc g Hg. induction l as [|[y s] l IH]; intros acc g Hg.
  - cbn. rewrite lookup_empty. cbn. by rewrite app_nil_r.
  - rewrite fmap_cons in Hd. apply NoDup_cons in Hd as [Hy Hd]. cbn [foldl fst snd list_to_map foldr].
    rewrite (IH Hd _ (λ z, if decide (z = y) then g z ++ [double_mul s w] else g z)).
    2: { intros z. destruct (decide (z = y)) as [->|Hne].
         - rewrite lookup_insert_eq, Hg. destruct (g y) as [|a r]; [done|]. cbn. done.
         - by rewrite lookup_insert_ne, Hg. }
    destruct (decide (x = y)) as [->|Hne].
    + rewrite lookup_insert_eq, (not_elem_of_list_to_map_1 l y) by done. cbn. by rewrite app_nil_r.
    + by rewrite lookup_insert_ne.
Qed.

Lemma gathered_unites o keys f acc :
  gathered acc (weighted_scores f (zip keys (set_weights o))) → ∀ l, Sorted by_score l → l ≡ₚ map_to_list (union_score (aggregate o) <$> acc) →
  unites o keys f l.
Proof.
  intros Hg l Hs Hp. split; [|split; [done|]].
  - rewrite Hp. apply NoDup_fst_map_to_list.
  - intros x s. rewrite Hp, elem_of_map_to_list, lookup_fmap, Hg. destruct (weighted_scores f _ x) eqn:E; [naive_solver|]. cbn. naive_solver.
Qed.

Lemma weighted_scores_snoc f kws kw x : weighted_scores f (kws ++ [kw]) x = weighted_scores f kws x ++ option_list (weighted_score f x kw).
Proof. unfold weighted_scores. by rewrite omap_app. Qed.

Lemma doubles_nodup M : NoDup (doubles (ranked M)).*1.
Proof. unfold doubles. rewrite <- list_fmap_compose. change (NoDup ((ranked M).*1)). rewrite ranked_perm. apply NoDup_fst_map_to_list. Qed.
Lemma ranked_map M : list_to_map (doubles (ranked M)) = dval <$> M.
Proof.
  apply map_eq. intros x. rewrite lookup_fmap. destruct (M !! x) as [s|] eqn:E.
  - apply elem_of_list_to_map_1; [apply doubles_nodup|]. apply list_elem_of_fmap. exists (x, s). split; [done|]. by apply ranked_elem.
  - apply not_elem_of_list_to_map_1. intros Hx. unfold doubles in Hx. rewrite <- list_fmap_compose in Hx. apply list_elem_of_fmap in Hx as ([y s] & -> & Hy).
    apply ranked_elem in Hy. cbn in E. by rewrite E in Hy.
Qed.

(** The number of keys, the keys and the options. *)
Definition numbered (t : bytes) keys : Prop := SimpleAtoi t = Some (Z.of_nat (length keys)) ∧ (0 < zlen keys < 2 ^ 31)%Z.

Lemma counted_keys_wp name t keys opts c (Q : list bytes + outcome → Ctx → Prop) :
  numbered t keys → Q (inl keys) c → wp (counted_keys name 1 (MkCommand name (bulk <$> t :: keys ++ opts))) Q c.
Proof.
  intros [Ht Hl] HQ. unfold counted_keys, zlen in *. apply wp_bind, wp_require; [intros _|done]. change (arg_text 0 _) with t. rewrite Ht. apply wp_bind, wp_ret.
  apply wp_bind, wp_require; [intros _|by rewrite (proj2 (Z.leb_gt _ _)) by lia]. apply wp_bind, wp_require; [intros _|].
  2: { unfold ArgCount. cbn [cmd_args]. rewrite length_fmap. cbn [length]. rewrite length_app, i64_small, u64_small by (unfold in_i64, in_u64; lia).
       by rewrite (proj2 (Z.ltb_ge _ _)) by lia. }
  cbn [cmd_args]. rewrite Nat2Z.id. change (drop 1 (bulk <$> t :: keys ++ opts)) with (bulk <$> keys ++ opts).
  rewrite <- fmap_take, take_app_length. by apply wp_bulk_args.
Qed.

Definition opts_of keys opts : ScoreOptions + bytes :=
  combine_options (length keys) (bulk <$> opts) 0 (MkScoreOptions false (replicate (length keys) d1_0) (B "SUM")).
Lemma options_of_command name t keys opts : options_of keys (MkCommand name (bulk <$> t :: keys ++ opts)) = opts_of keys opts.
Proof. unfold options_of, opts_of. cbn [cmd_args fmap list_fmap drop]. by rewrite fmap_app, drop_app_length' by (by rewrite length_fmap). Qed.

(** The scores of the sets of a store. *)
Definition scores_in m key : Scores := dval <$> zset_at key m.

Lemma union_loop now m kws : (now ≤ horizon)%Z → ∀ acc past c (Q : gmap bytes (list spec_float) + outcome → Ctx → Prop),
  stands c m → gathered acc (weighted_scores (scores_in m) past) →
  (∀ acc' c', stands c' m → gathered acc' (weighted_scores (scores_in m) (past ++ kws)) → Q (inl acc') c') →
  wp (mfold (λ acc kw, members ← every_member now kw.1 true; mret (add_scores kw.2 (doubles members) acc)) acc kws) Q c.
Proof.
  intros Hn. induction kws as [|[k w] kws IH]; intros acc past c Q Hs Hg HQ; cbn [mfold].
  - apply wp_ret, HQ; [done|]. by rewrite app_nil_r.
  - apply wp_bind, wp_bind. apply (wp_every now k true c m); [done|done|]. intros c' Hs'. apply wp_ret. cbn [strip fst snd].
    apply (IH _ (past ++ [(k, w)]) c'); [done| |by rewrite <- app_assoc]. intros x. rewrite weighted_scores_snoc.
    by apply (gathered_step acc _ k w (scores_in m)); [..|apply doubles_nodup|apply ranked_map].
Qed.

Lemma union_fold f kws : ∀ acc past, gathered acc (weighted_scores f past) →
  gathered (foldl (λ acc kw, add_scores kw.2 (map_to_list (f kw.1)) acc) acc kws) (weighted_scores f (past ++ kws)).
Proof.
  induction kws as [|[k w] kws IH]; intros acc past Hg; cbn [foldl]; [by rewrite app_nil_r|].
  rewrite (app_assoc past [(k, w)] kws : past ++ (k, w) :: kws = _). apply IH. intros x. rewrite weighted_scores_snoc.
  apply (gathered_step acc _ k w f); [done|apply NoDup_fst_map_to_list|apply list_to_map_to_list].
Qed.

Section Intersection.
Context (score : bytes → bytes → M (option spec_float)) (f : bytes → Scores) (I : Ctx → Prop).
Hypothesis score_wp : ∀ key x c (Q : option spec_float + outcome → Ctx → Prop), I c → (∀ c', I c' → Q (inl (f key !! x)) c') → wp (score key x) Q c.

Lemma inter_member_wp aggregate x keys : ∀ weights first acc c (Q : option spec_float + outcome → Ctx → Prop),
  I c →
  (∀ c', I c' → Q (inl ((λ ss, (foldl (λ a s, (false, inter_score aggregate a.1 a.2 s)) (first, acc) ss).2) <$> mapM (weighted_score f x) (zip keys weights))) c') →
  wp (inter_member score aggregate x first weights keys acc) Q c.
Proof.
  induction keys as [|k keys IH]; intros [|w weights] first acc c Q Hi HQ; [exact (HQ c Hi)..|].
  cbn [inter_member zip mapM]. apply wp_bind, score_wp; [done|]. intros c1 H1. cbn [zip_with mapM] in HQ.
  assert (Ew : weighted_score f x (k, w) = (λ s, double_mul s w) <$> f k !! x) by done. rewrite Ew in HQ. clear Ew.
  destruct (f k !! x) as [s|]; [|by apply HQ]. apply IH; [done|]. intros c2 H2. specialize (HQ c2 H2). cbn in HQ.
  by destruct (mapM (weighted_score f x) (zip keys weights)).
Qed.

Lemma inter_result_wp o keys members c :
  I c → NoDup members → (∀ x, x ∈ members ↔ is_Some (f (default [] (head keys)) !! x)) →
  wp (inter_result undefined score o keys members) (λ r c', sorted_answer o (intersects o keys f) I c' (outcome_of r)) c.
Proof.
  intros Hi Hd Hm. unfold inter_result. apply wp_bind.
  set (value x := (λ ss, inter_total (aggregate o) ss) <$> mapM (weighted_score f x) (zip keys (set_weights o))).
  assert (H : ∀ xs acc c (Q : list (bytes * spec_float) + outcome → Ctx → Prop), I c →
    (∀ c', I c' → Q (inl (acc ++ omap (λ x, (λ s, (x, s)) <$> value x) xs)) c') →
    wp (mfold (λ result member, s ← inter_member score (aggregate o) member true (set_weights o) keys d0_0;
      mret (result ++ match s with Some s => [(member, s)] | None => [] end)) acc xs) Q c).
  { clear - score_wp. induction xs as [|x xs IH]; intros acc c Q Hi HQ; cbn [mfold].
    - apply wp_ret. specialize (HQ c Hi). by rewrite app_nil_r in HQ.
    - apply wp_bind, wp_bind, inter_member_wp; [done|]. intros c1 H1. apply wp_ret, IH; [done|]. intros c2 H2. rewrite <- app_assoc.
      specialize (HQ c2 H2). cbn [omap list_omap] in HQ. unfold value at 1 in HQ. unfold inter_total in HQ.
      by destruct (mapM (weighted_score f x) (zip keys (set_weights o))). }
  apply H; [done|]. clear H. intros c' Hi'. cbn [app]. set (l := omap _ members). apply sort_answers; [done|]. intros l' Hs Hp.
  assert (Hl : ∀ x s, (x, s) ∈ l ↔ x ∈ members ∧ value x = Some s).
  { intros x s. unfold l. rewrite list_elem_of_omap. split; [intros (y & Hy & E)|intros [Hx Hv]; exists x; by rewrite Hv].
    destruct (value y) eqn:Ev; [|done]. cbn in E. by injection E as <- <-. }
  split; [|split; [done|]].
  - rewrite Hp. unfold l. clear - Hd. induction Hd as [|x members Hx Hd IH]; [constructor|]. cbn. destruct (value x); [|done]. cbn. constructor; [|done].
    intros Hy. apply list_elem_of_fmap in Hy as ([y s'] & -> & Hy). apply list_elem_of_omap in Hy as (z & Hz & E). destruct (value z); [|done]. cbn in E. by injection E as <- <-.
  - intros x s. rewrite Hp, Hl, Hm. unfold value. rewrite fmap_Some. done.
Qed.
End Intersection.

(** ** The sets of several workers *)

Implicit Types (ms : nat → TypedStore.store) (w n : nat).

(** Members whose scores were not asked for. *)
Definition blank M : Scores := (λ _, d0_0) <$> M.
Definition blanks n ms key : Scores := blank (zset_at key (ms (owner_of n key))).

Lemma strip_map M : list_to_map (doubles (strip false (ranked M))) = blank M.
Proof.
  assert (E : doubles (strip false (ranked M)) = prod_map id (λ _, d0_0) <$> doubles (ranked M)).
  { unfold doubles, strip. rewrite <- !list_fmap_compose. by apply list_fmap_ext. }
  rewrite E, list_to_map_fmap, ranked_map. unfold blank. rewrite <- map_fmap_compose. done.
Qed.

Lemma worker_zsets_wp now (reverse : bool) w n ms keys c (Q : list (bytes * Scores) + outcome → Ctx → Prop) :
  (now ≤ horizon)%Z → w < n → spread c n ms →
  (∀ c', spread c' n ms → Q (inl ((λ key, (key, blank (zset_at key (ms w)))) <$> keys)) c') → wp (worker_zsets now reverse w keys) Q c.
Proof.
  intros Hn Hw. unfold worker_zsets.
  enough (H : ∀ acc c, spread c n ms → (∀ c', spread c' n ms → Q (inl (acc ++ ((λ key, (key, blank (zset_at key (ms w)))) <$> keys))) c') →
    wp (mfold (λ l key, members ← on_worker w (DbZRangeByRank now key 0 (-1) reverse false); mret (l ++ [(key, list_to_map (doubles members))])) acc keys) Q c) by apply (H []).
  clear c. induction keys as [|k keys IH]; intros acc c Hs HQ; cbn [mfold].
  - apply wp_ret. specialize (HQ c Hs). by rewrite app_nil_r in HQ.
  - apply wp_bind, wp_bind. apply (wp_worker w _ c n ms (λ l, l = strip false (ranked (zset_at k (ms w)))) _ Hs Hw).
    { intros db Hm. exists (ms w). destruct (does_zrangebyrank now k 0 (-1) reverse false (ms w) Hn db Hm) as [H1 H2]. rewrite zslice_all in H2. by split. }
    intros l c1 Hs1 ->. apply wp_ret, IH; [done|]. intros c2 Hs2. rewrite strip_map, <- app_assoc. by apply HQ.
Qed.

Abbreviation zset_of := ZSetCommands.set_of.

Lemma insert_sets (g : bytes → Scores) keys : ∀ (all : gmap bytes Scores) key,
  zset_of (foldl (λ (all : gmap bytes Scores) kz, <[kz.1 := default ∅ (all !! kz.1) ∪ kz.2]> all) all ((λ key, (key, g key)) <$> keys)) key =
  if decide (key ∈ keys) then zset_of all key ∪ g key else zset_of all key.
Proof.
  induction keys as [|k keys IH]; intros all key; [by rewrite decide_False by set_solver|]. cbn [fmap list_fmap foldl fst snd]. rewrite IH. unfold ZSetCommands.set_of.
  destruct (decide (k = key)) as [->|Hne].
  - rewrite lookup_insert_eq. cbn [default from_option]. rewrite (decide_True (P := key ∈ key :: keys)) by set_solver. unfold id.
    destruct (decide (key ∈ keys)); [|done]. by rewrite <- (assoc_L (∪)), (idemp_L (∪)).
  - rewrite lookup_insert_ne by done. destruct (decide (key ∈ keys)); [rewrite decide_True by set_solver|rewrite decide_False by set_solver]; done.
Qed.

(** Every set, as its owner has it. *)
Lemma collect_zsets_wp now (reverse : bool) n ms keys c (Q : gmap bytes Scores + outcome → Ctx → Prop) :
  (now ≤ horizon)%Z → spread c n ms → placed n ms →
  (∀ all c', spread c' n ms → (∀ key, key ∈ keys → zset_of all key = blanks n ms key) → Q (inl all) c') → wp (collect_zsets now reverse n keys) Q c.
Proof.
  intros Hn Hs Hp HQ. assert (H0 : 0 < n) by (destruct Hs as (_ & Hs & _); lia). unfold collect_zsets.
  assert (H : ∀ ws (all : gmap bytes Scores) past c, Forall (λ w, w < n) ws → spread c n ms →
    (∀ key, key ∈ keys → zset_of all key = if decide (owner_of n key ∈ past) then blanks n ms key else ∅) →
    (∀ all c', spread c' n ms → (∀ key, key ∈ keys → zset_of all key = if decide (owner_of n key ∈ past ++ ws) then blanks n ms key else ∅) → Q (inl all) c') →
    wp (mfold (λ (all : gmap bytes Scores) w, zsets ← worker_zsets now reverse w keys;
      mret (foldl (λ (all : gmap bytes Scores) kz, <[kz.1 := default ∅ (all !! kz.1) ∪ kz.2]> all) all zsets)) all ws) Q c).
  { clear c Hs HQ. induction ws as [|w ws IH]; intros all past c Hws Hs Hall HQ; cbn [mfold].
    - apply wp_ret, HQ; [done|]. by rewrite app_nil_r.
    - apply Forall_cons in Hws as [Hw Hws]. apply wp_bind, wp_bind. apply (worker_zsets_wp now reverse w n ms keys c); [done|done|done|]. intros c1 Hs1. apply wp_ret.
      apply (IH _ (past ++ [w]) c1 Hws Hs1); [|intros all' c'; rewrite <- app_assoc; apply HQ]. intros key Hk. rewrite (insert_sets (λ key, blank (zset_at key (ms w)))), decide_True, Hall by done.
      destruct (decide (owner_of n key = w)) as [Ew|Ew].
      + rewrite (decide_True (P := _ ∈ past ++ [w])) by set_solver. unfold blanks. rewrite Ew. destruct (decide (w ∈ past)); [apply (idemp_L (∪))|apply (left_id_L ∅ (∪))].
      + assert (zset_at key (ms w) = ∅) as ->. { unfold zset_at. destruct (ms w !! key) eqn:E; [|done]. destruct Ew. apply Hp; [done|]. by rewrite E. }
        unfold blank. rewrite fmap_empty, (right_id_L ∅ (∪)). destruct (decide (owner_of n key ∈ past)); [rewrite decide_True by set_solver|rewrite decide_False by set_solver]; done. }
  apply (H (seq 0 n) ∅ [] c); [apply Forall_forall; intros w Hw%elem_of_seq; lia|done| |].
  - intros key _. rewrite decide_False by set_solver. unfold ZSetCommands.set_of. by rewrite lookup_empty.
  - intros all c' Hs' Hall. apply HQ; [done|]. intros key Hk. rewrite (Hall key Hk), decide_True; [done|]. cbn [app]. apply elem_of_seq.
    assert (Ho := owner_lt n key H0). lia.
Qed.

Lemma zip_keys {A} (keys : list bytes) (ws : list A) kw : kw ∈ zip keys ws → kw.1 ∈ keys.
Proof. destruct kw as [k w]. apply elem_of_zip_l. Qed.
Lemma unites_ext o keys f g l : (∀ key, key ∈ keys → f key = g key) → unites o keys f l → unites o keys g l.
Proof.
  intros Hfg. unfold unites. enough (E : ∀ x, weighted_scores f (zip keys (set_weights o)) x = weighted_scores g (zip keys (set_weights o)) x).
  { cbv zeta. intros (H1 & H2 & H3). split; [done|]. split; [done|]. intros x s. rewrite <- E. apply H3. }
  intros x. unfold weighted_scores. assert (H := zip_keys keys (set_weights o)). revert H. generalize (zip keys (set_weights o)). intros kws H.
  induction kws as [|kw kws IH]; [done|]. cbn [omap list_omap]. assert (weighted_score f x kw = weighted_score g x kw) as ->.
  { unfold weighted_score. rewrite (Hfg kw.1); [done|]. apply H. by constructor. }
  rewrite IH; [done|]. intros kw' Hk. apply H. by constructor.
Qed.
Lemma intersects_ext o keys f g l : keys ≠ [] → (∀ key, key ∈ keys → f key = g key) → intersects o keys f l → intersects o keys g l.
Proof.
  intros Hne Hfg. unfold intersects. rewrite (Hfg (default [] (head keys))) by (destruct keys; [done|by constructor]).
  enough (E : ∀ x, mapM (weighted_score f x) (zip keys (set_weights o)) = mapM (weighted_score g x) (zip keys (set_weights o))).
  { intros (H1 & H2 & H3). split; [done|]. split; [done|]. intros x s. rewrite <- E. apply H3. }
  intros x. apply Forall2_mapM_ext, Forall_Forall2_diag, Forall_forall. intros kw Hk. unfold weighted_score. by rewrite (Hfg kw.1) by (by eapply zip_keys).
Qed.

Definition command_of name t keys opts : Command := MkCommand name (bulk <$> t :: keys ++ opts).

(** What ZUNION and ZINTER answer for the scores [f], and that [I] is kept, unless the
    sort is undefined; ZINTER answers a null array when the first set is empty. *)
Definition zunion_gives now t keys opts o f (I : Ctx → Prop) c : Prop :=
  let '(c', a) := run (HandleZUnion undefined now (command_of (B "ZUNION") t keys opts)) c in
  sorted_answer o (unites o keys f) I c' a.
Definition zinter_gives now t keys opts o f (I : Ctx → Prop) c : Prop :=
  let '(c', a) := run (HandleZInter undefined now (command_of (B "ZINTER") t keys opts)) c in
  if decide (f (default [] (head keys)) = ∅) then I c' ∧ a = Returned (Success (resp_of_type kNullArray))
  else sorted_answer o (intersects o keys f) I c' a.

Lemma run_outcome (h : M CommandResult) c : run h c = ((h c).1, outcome_of (h c).2).
Proof. unfold run. by destruct (h c) as [c' [r|a]]. Qed.

Lemma zunion_start now t keys opts o f (I : Ctx → Prop) c n :
  numbered t keys → opts_of keys opts = inl o → ctx_workers c = n →
  wp (if 1 <? n then
        all_zsets ← collect_zsets now true n keys;
        union_result undefined o (foldl (λ acc kw, add_scores kw.2 (map_to_list (zset_of all_zsets kw.1)) acc) ∅ (zip keys (set_weights o)))
      else
        member_scores ← mfold (λ acc kw, members ← every_member now kw.1 true; mret (add_scores kw.2 (doubles members) acc)) ∅ (zip keys (set_weights o));
        union_result undefined o member_scores)
    (λ r c', sorted_answer o (unites o keys f) I c' (outcome_of r)) c →
  zunion_gives now t keys opts o f I c.
Proof.
  intros Ht Ho Hn Hw. unfold zunion_gives. rewrite run_outcome. revert Hw. generalize (sorted_answer o (unites o keys f) I). intros R Hw.
  change (wp (HandleZUnion undefined now (command_of (B "ZUNION") t keys opts)) (λ r c', R c' (outcome_of r)) c).
  unfold HandleZUnion, command_of. apply wp_bind, wp_require; [intros _|]. 2: { destruct Ht as [_ Ht]. destruct keys; [by destruct Ht|done]. }
  apply wp_bind, counted_keys_wp; [done|]. rewrite options_of_command, Ho. cbv zeta. apply wp_bind. unfold wp at 1, workers_of. cbn [fst snd]. by rewrite Hn.
Qed.

Lemma zinter_start now t keys opts o f (I : Ctx → Prop) c n :
  numbered t keys → opts_of keys opts = inl o → ctx_workers c = n →
  wp (if 1 <? n then
        all_zsets ← collect_zsets now true n keys;
        match map_to_list (zset_of all_zsets (default [] (head keys))) with
        | [] => mret (Success (resp_of_type kNullArray))
        | members => inter_result undefined (score_in all_zsets) o keys (fst <$> members)
        end
      else
        first_members ← every_member now (default [] (head keys)) false;
        match first_members with
        | [] => mret (Success (resp_of_type kNullArray))
        | _ => inter_result undefined (score_at now) o keys (fst <$> first_members)
        end)
    (λ r c', if decide (f (default [] (head keys)) = ∅) then I c' ∧ outcome_of r = Returned (Success (resp_of_type kNullArray))
             else sorted_answer o (intersects o keys f) I c' (outcome_of r)) c →
  zinter_gives now t keys opts o f I c.
Proof.
  intros Ht Ho Hn Hw. unfold zinter_gives. rewrite run_outcome.
  set (R c' a := if decide (f (default [] (head keys)) = ∅) then I c' ∧ a = Returned (Success (resp_of_type kNullArray)) else sorted_answer o (intersects o keys f) I c' a).
  change (wp (HandleZInter undefined now (command_of (B "ZINTER") t keys opts)) (λ r c', R c' (outcome_of r)) c).
  unfold HandleZInter, command_of. apply wp_bind, wp_require; [intros _|]. 2: { destruct Ht as [_ Ht]. destruct keys; [by destruct Ht|done]. }
  apply wp_bind, counted_keys_wp; [done|]. rewrite options_of_command, Ho. cbv zeta. apply wp_bind. unfold wp at 1, workers_of. cbn [fst snd]. by rewrite Hn.
Qed.

(** C22. On one worker ZUNION answers the union of the sorted sets, each member
    with the aggregate of its weighted scores, and ZINTER their intersection; the
    store stays. What follows is undefined where an aggregate is not a number and
    two others differ. *)
Theorem zsets_combined now t keys opts o c m :
  (0 ≤ now ≤ horizon)%Z → stands c m → numbered t keys → opts_of keys opts = inl o →
  zunion_gives now t keys opts o (scores_in m) (λ c', stands c' m) c ∧ zinter_gives now t keys opts o (scores_in m) (λ c', stands c' m) c.
Proof.
  intros Hn Hs Ht Ho. assert (H1 : (1 <? ctx_workers c) = false) by (apply Nat.ltb_ge, Hs). split.
  - apply (zunion_start _ _ _ _ _ _ _ _ _ Ht Ho eq_refl). rewrite H1. apply wp_bind.
    apply (union_loop now m _ (proj2 Hn) ∅ [] c); [done|by intros x; rewrite lookup_empty|]. intros acc c' Hs' Hg. apply sort_answers; [done|].
    by apply gathered_unites.
  - apply (zinter_start _ _ _ _ _ _ _ _ _ Ht Ho eq_refl). rewrite H1. set (first := default [] (head keys)). apply wp_bind, (wp_every now first false c m); [lia|done|].
    intros c' Hs'. destruct (decide (scores_in m first = ∅)) as [E|E]; unfold scores_in in E.
    + apply fmap_empty_iff in E. rewrite E, ranked_empty. by apply wp_ret.
    + destruct (strip false (ranked (zset_at first m))) as [|y l] eqn:El.
      { destruct E. apply fmap_nil_inv in El. apply ranked_nil in El. rewrite El. apply fmap_empty. }
      rewrite <- El, fst_strip. apply (inter_result_wp (score_at now) (scores_in m) (λ c', stands c' m)).
      * intros key x c1 Q H HQ. unfold score_at. apply wp_bind. eapply (wp_does _ c1 m _ _ _ H); [by apply does_zscore; lia|]. intros c2 H2. apply wp_ret.
        specialize (HQ c2 H2). unfold scores_in in HQ. by rewrite lookup_fmap in HQ.
      * done.
      * rewrite ranked_perm. apply NoDup_fst_map_to_list.
      * intros x. unfold scores_in. rewrite lookup_fmap, fmap_is_Some. fold first. rewrite list_elem_of_fmap. split.
        -- intros ([y' s] & -> & Hy). apply ranked_elem in Hy. by eexists.
        -- intros [s Hx]. exists (x, s). split; [done|]. by apply ranked_elem.
Qed.

(** C38. On several workers they find the sets wherever they are, and take every
    score for zero: a member comes with the aggregate of as many zeros, weighted,
    as sets have it. A weight that makes an aggregate no number leaves the sort
    undefined as on one worker. *)
Theorem zsets_across_workers now t keys opts o c n ms :
  (0 ≤ now ≤ horizon)%Z → 1 < n → spread c n ms → placed n ms → numbered t keys → opts_of keys opts = inl o →
  zunion_gives now t keys opts o (blanks n ms) (λ c', spread c' n ms) c ∧ zinter_gives now t keys opts o (blanks n ms) (λ c', spread c' n ms) c.
Proof.
  intros Hn H1 Hs Hp Ht Ho. assert (Hne : keys ≠ []) by (intros ->; by destruct Ht as [_ [? _]]). split.
  - apply (zunion_start _ _ _ _ _ _ _ _ _ Ht Ho (proj1 Hs)). rewrite (proj2 (Nat.ltb_lt 1 n)) by done. apply wp_bind.
    apply (collect_zsets_wp now true n ms keys c); [lia|done|done|]. intros all c' Hs' Hall. apply sort_answers; [done|].
    intros l Hl1 Hl2. apply (unites_ext o keys (zset_of all)); [done|]. refine (gathered_unites _ _ _ _ _ l Hl1 Hl2). apply (union_fold (zset_of all) _ ∅ []). intros x. by rewrite lookup_empty.
  - apply (zinter_start _ _ _ _ _ _ _ _ _ Ht Ho (proj1 Hs)). rewrite (proj2 (Nat.ltb_lt 1 n)) by done. apply wp_bind. set (first := default [] (head keys)).
    apply (collect_zsets_wp now true n ms keys c); [lia|done|done|]. intros all c' Hs' Hall.
    assert (Hf : zset_of all first = blanks n ms first) by (apply Hall; destruct keys; [done|by constructor]). rewrite Hf. case_decide as E.
    + rewrite E, map_to_list_empty. by apply wp_ret.
    + destruct (map_to_list (blanks n ms first)) as [|y l] eqn:El; [by apply map_to_list_empty_iff in El|]. rewrite <- El.
      enough (Hw : wp (inter_result undefined (score_in all) o keys (map_to_list (blanks n ms first)).*1)
        (λ r c', sorted_answer o (intersects o keys (zset_of all)) (λ c', spread c' n ms) c' (outcome_of r)) c').
      { destruct Hw as (l' & Hl & Hw). exists l'. split; [by apply (intersects_ext o keys (zset_of all))|done]. }
      apply (inter_result_wp (score_in all) (zset_of all) (λ c', spread c' n ms)); [|done|apply NoDup_fst_map_to_list|].
      * intros key x c1 Q H HQ. unfold score_in. apply wp_ret. by apply HQ.
      * intros x. fold first. rewrite Hf, list_elem_of_fmap. split.
        -- intros ([y' s] & -> & Hy). apply elem_of_map_to_list in Hy. by eexists.
        -- intros [s Hx]. exists (x, s). split; [done|]. by apply elem_of_map_to_list.
Qed.
End ZSetServer.

(** ** Witnesses *)

#[local] Existing Instance small_platform.
#[local] Existing Instance TypedServer.small_doubles.
#[local] Existing Instance TypedServer.small_horizon.

Definition nowhere (c : Ctx) : Ctx * outcome := (c, ThrewUnknown).
Definition small_pairs : list bytes := [B "7"; B "x"; B "2"; B "yy"].
Definition small_set_at (key : bytes) : TypedStore.store := (zadd_pairs key small_pairs 0 ∅).2.

Lemma small_numbers : a_number (B "7") ∧ a_number (B "2").
Proof. split; intros d E; vm_compute in E; by injection E as <-. Qed.
Lemma small_known : pairs_ok small_pairs.
Proof. split; [cbn; lia|]. split; [by exists 2|]. destruct small_numbers. repeat split; try done; cbn; set_solver. Qed.

Lemma small_zset key : ∃ c, stands c (small_set_at key).
Proof.
  destruct (serves_run _ _ _ 1 (B "ZADD") (key :: small_pairs) (db small_typed) ∅ (zadd_serves nowhere)) as (c & reply & m & _ & Hr & Hs);
    [cbn; lia|by apply fresh_stands|by split; [|apply small_known]|].
  exists c. change (zadd_pairs key small_pairs 0 ∅ = (reply, m)) in Hr. unfold small_set_at. by rewrite Hr.
Qed.

Lemma small_now : (0 ≤ 1 ≤ horizon)%Z.
Proof. cbn. lia. Qed.
Lemma small_counts : counts (B "1") 1 ∧ counts (B "9") 9.
Proof. by repeat split; lia. Qed.

Lemma zpop_takes_ends_witness : ∃ c c',
  run (pop_members (B "ZPOPMAX") true 1 (MkCommand (B "ZPOPMAX") (bulk <$> [B "s"; B "1"]))) c =
    (c', Returned (reply_array [resp_array [resp_string (B "x"); resp_double (double_of_Z 7)]])) ∧
  stands c' (change (B "s") (on_scored (without [B "x"])) (small_set_at (B "s"))).
Proof.
  destruct (small_zset (B "s")) as [c Hs]. exists c.
  assert (H := zpop_takes_ends nowhere (B "ZPOPMAX") true 1 (B "s") (B "1") 1 c _ small_now Hs (proj1 small_counts) ltac:(by vm_compute)).
  cbv zeta in H. destruct (run _ c) as [c' o]. exists c'. destruct H as [-> H].
  assert (E1 : (take 1 (in_order true (zset_at (B "s") (small_set_at (B "s"))))).*1 = [B "x"]) by (by vm_compute).
  assert (E2 : pair_of <$> take 1 (in_order true (zset_at (B "s") (small_set_at (B "s")))) = [resp_array [resp_string (B "x"); resp_double (double_of_Z 7)]]) by (by vm_compute).
  rewrite E1 in H. rewrite E2. exact (conj eq_refl H).
Defined.

Lemma emptied_set_swallows_witness : ∃ c c1 c2,
  run (pop_members (B "ZPOPMIN") false 1 (MkCommand (B "ZPOPMIN") (bulk <$> [B "s"; B "9"]))) c =
    (c1, Returned (reply_array [resp_array [resp_string (B "yy"); resp_double (double_of_Z 2)]; resp_array [resp_string (B "x"); resp_double (double_of_Z 7)]])) ∧
  zadds nowhere 2 (B "s") [small_pairs; small_pairs] c1 = (c2, [Returned (reply_int 2); Returned (reply_int 0)]) ∧ hidden (B "s") c2 ∧
  remembered nowhere (B "s") (zset_at (B "s") (zadd_store (B "s") [small_pairs; small_pairs] (only (B "s") ∅))) c2.
Proof.
  destruct (small_zset (B "s")) as [c Hs]. exists c.
  assert (H := emptied_set_swallows nowhere (B "ZPOPMIN") false 1 2 (B "s") (B "9") 9 [small_pairs; small_pairs] c _ small_now Hs (proj2 small_counts)
    ltac:(vm_compute; lia) ltac:(repeat constructor; apply small_known)).
  destruct (run _ c) as [c1 o]. exists c1. destruct (zadds _ _ _ _ c1) as [c2 os]. exists c2. destruct H as (-> & -> & H).
  assert (E1 : pair_of <$> in_order false (zset_at (B "s") (small_set_at (B "s"))) =
    [resp_array [resp_string (B "yy"); resp_double (double_of_Z 2)]; resp_array [resp_string (B "x"); resp_double (double_of_Z 7)]]) by (by vm_compute).
  assert (E2 : zadd_replies (B "s") [small_pairs; small_pairs] (only (B "s") ∅) = [reply_int 2; reply_int 0]) by (by vm_compute).
  rewrite E1, E2. exact (conj eq_refl (conj eq_refl H)).
Defined.

Lemma bzpop_forgotten_witness :
  let c1 := (run (blocking_zpop (B "BZPOPMIN") false 0 1 (MkCommand (B "BZPOPMIN") (bulk <$> [B "s"; B "2"]))) (as_client 7 (db small_typed))).1 in
  let '(c2, o) := zadd nowhere 2 (B "s") [B "7"; B "x"] (as_client 8 c1) in
  o = Returned (reply_int 1) ∧ blocking_sent (ctx_more c2) = [] ∧ 7%Z ∈ client_id <$> queue_of (B "s") (manager_of c2).
Proof.
  destruct (score_of (double_of_Z 7)) as [sc|] eqn:E; [|by vm_compute in E].
  assert (H := bzpop_forgotten nowhere (B "BZPOPMIN") false 0 1 2 (B "s") (B "2") (B "7") (B "x") sc (double_of_Z 7) (db small_typed) ∅ (MkBlocking ∅ ∅) 7 8).
  cbv zeta in H |- *. destruct (zadd _ _ _ _ _) as [c2 o]. destruct H as (H1 & _ & H3); [|cbn; lia|by vm_compute|done|cbn; set_solver|done].
  split; [cbn; lia|]. split; [by apply (fresh_stands None kRedis 0)|]. split; [done|]. split; [done|]. split; [done|]. eexists. by split; [vm_compute; reflexivity|].
Defined.

Definition small_options (weights : nat) : ScoreOptions := MkScoreOptions true (replicate weights d1_0) (B "SUM").

Lemma zsets_combined_witness : ∃ c,
  zunion_gives nowhere 1 (B "2") [B "s"; B "s"] [B "WITHSCORES"] (small_options 2) (scores_in (small_set_at (B "s"))) (λ c', stands c' (small_set_at (B "s"))) c ∧
  zinter_gives nowhere 1 (B "2") [B "s"; B "s"] [B "WITHSCORES"] (small_options 2) (scores_in (small_set_at (B "s"))) (λ c', stands c' (small_set_at (B "s"))) c.
Proof.
  destruct (small_zset (B "s")) as [c Hs]. exists c. apply zsets_combined; [exact small_now|exact Hs|split; [by vm_compute|unfold zlen; cbn; lia]|by vm_compute].
Defined.

Definition small_zsets (w : nat) : TypedStore.store :=
  match w with 0 => small_set_at (B "b") | 1 => small_set_at (B "a") | _ => ∅ end.
Lemma small_zsets_placed : placed 2 small_zsets.
Proof.
  assert (H : ∀ key k, is_Some (small_set_at key !! k) → k = key).
  { intros key k [x Hx]. unfold small_set_at, small_pairs in Hx. cbn [zadd_pairs] in Hx. cbn [atod TypedServer.small_doubles] in Hx.
    repeat (match type of Hx with context [match ?b with _ => _ end] => destruct b end; cbn [snd error zadd_pairs] in Hx);
      unfold put in Hx; repeat (apply lookup_insert_Some in Hx as [[<- _]|[_ Hx]]; [done|]); by rewrite lookup_empty in Hx. }
  intros w k Hw Hx. destruct w as [|[|w]]; [| |lia]; apply H in Hx as ->; by vm_compute.
Qed.
Lemma small_zsets_spread : ∃ c, spread c 2 small_zsets.
Proof.
  destruct (small_zset (B "b")) as [c0 [_ H0]], (small_zset (B "a")) as [c1 [_ H1]]. exists (MkCtx _ (ctx_db c0) 0 2 {[1 := ctx_db c1]} None [] (ctx_more c0)).
  split; [done|]. split; [cbn; lia|]. intros w Hw. destruct w as [|[|w]]; [exact H0| |lia]. exists (ctx_db c1). by split; [|exact H1].
Qed.

Lemma zsets_across_workers_witness : ∃ c,
  zunion_gives nowhere 1 (B "2") [B "a"; B "b"] [B "WITHSCORES"] (small_options 2) (blanks 2 small_zsets) (λ c', spread c' 2 small_zsets) c ∧
  zinter_gives nowhere 1 (B "2") [B "a"; B "b"] [B "WITHSCORES"] (small_options 2) (blanks 2 small_zsets) (λ c', spread c' 2 small_zsets) c.
Proof.
  destruct small_zsets_spread as [c Hs]. exists c.
  apply zsets_across_workers; [exact small_now|lia|exact Hs|exact small_zsets_placed|split; [by vm_compute|unfold zlen; cbn; lia]|by vm_compute].
Defined.
