(* ===== verification/BitFields.v ===== *)
(** * Integers in the bits of a string

    BITFIELD with one type of fields makes any string an array of integers of that
    many bits: GET, SET and INCRBY with the three ways to treat an overflow.  And what
    BITOP does with the keys of several workers. *)
From Stdlib Require Import SpecFloat.
From stdpp Require Import functions.
From S2P Require Import Prelude.
From S2P Require Import Simd.
From S2P Require Import Numbers.
From S2P Require Import Text.
From S2P Require Import RespTypes.
From S2P Require Import Executor.
From S2P Require Import KeyMetadata.
From S2P Require Import Rocks.
From S2P Require Import Database.
From S2P Require Import DatabaseTypes.
From S2P Require Import Commands.
From S2P Require Import StringCommands.
From S2P Require Import BitmapCommands.
From S2P Require Import BitmapContract.
From S2P Require Import StringLog.
From S2P Require Import TypedStore.
From S2P Require Import TypedCommands.
From S2P Require Import StringContract.
From S2P Require Import TypedServer.
From S2P Require Import SetWorkers.
From S2P Require Import SmallPlatform.

(** ** Values of bits *)

(** The number of a list of bits, the lowest first. *)
Definition bits_value (l : list bool) : Z := foldr (λ b v, (if b : bool then 1 else 0) + 2 * v)%Z 0%Z l.

Lemma bits_value_range l : (0 ≤ bits_value l < 2 ^ zlen l)%Z.
Proof.
  unfold zlen. induction l as [|b l IH]; [done|]. cbn [bits_value foldr length]. fold (bits_value l).
  rewrite Nat2Z.inj_succ, Z.pow_succ_r by lia. destruct b; lia.
Qed.
Lemma bits_value_testbit l : ∀ k, Z.testbit (bits_value l) (Z.of_nat k) = bit_at l k.
Proof.
  unfold bit_at. induction l as [|b l IH]; intros k; [by rewrite lookup_nil, Z.bits_0|]. cbn [bits_value foldr]. fold (bits_value l).
  assert (E : ((if b then 1 else 0) + 2 * bits_value l = Z.lor (Z.b2z b) (Z.shiftl (bits_value l) 1))%Z).
  { rewrite Z.shiftl_mul_pow2 by lia. change (2 ^ 1)%Z with 2%Z. rewrite <- Z.add_nocarry_lor; [destruct b; cbn [Z.b2z]; lia|].
    apply Z.bits_inj'. intros n Hn. rewrite Z.land_spec, Z.bits_0. destruct (decide (n = 0)%Z) as [->|Hz].
    - rewrite Z.mul_comm, Z.testbit_even_0. apply andb_false_r.
    - assert (Eb : Z.testbit (Z.b2z b) n = false); [|by rewrite Eb]. destruct b; [|apply Z.bits_0]. apply (Z.pow2_bits_false 0); lia. }
  rewrite E, Z.lor_spec. destruct k as [|k].
  - rewrite Z.shiftl_spec_low by lia. rewrite orb_false_r. by destruct b.
  - rewrite Z.shiftl_spec by lia. replace (Z.of_nat (S k) - 1)%Z with (Z.of_nat k) by lia. rewrite IH.
    assert (Eb : Z.testbit (Z.b2z b) (Z.of_nat (S k)) = false); [|by rewrite Eb]. destruct b; [|apply Z.bits_0]. apply (Z.pow2_bits_false 0); lia.
Qed.

(** The bits from [p] on. *)
Definition field_at (l : list bool) (p n : nat) : Z := bits_value (bit_at l <$> seq p n).

Lemma field_at_testbit l p n k : Z.testbit (field_at l p n) (Z.of_nat k) = (k <? n) && bit_at l (p + k).
Proof.
  unfold field_at. rewrite bits_value_testbit. unfold bit_at at 1. rewrite list_lookup_fmap. destruct (k <? n) eqn:E; b2p.
  - by rewrite lookup_seq_lt.
  - by rewrite lookup_seq_ge.
Qed.
Lemma field_at_range l p n : (0 ≤ field_at l p n < 2 ^ Z.of_nat n)%Z.
Proof. assert (H := bits_value_range (bit_at l <$> seq p n)). unfold zlen in H. by rewrite length_fmap, length_seq in H. Qed.

(** Numbers are equal when their bits are. *)
Lemma bits_eq x y : (0 ≤ x)%Z → (0 ≤ y)%Z → (∀ k : nat, Z.testbit x (Z.of_nat k) = Z.testbit y (Z.of_nat k)) → x = y.
Proof. intros Hx Hy H. apply Z.bits_inj'. intros n Hn. rewrite <- (Z2Nat.id n) by done. apply H. Qed.

Lemma pow2_bit (n k : nat) : Z.testbit (2 ^ Z.of_nat n) (Z.of_nat k) = (k =? n).
Proof.
  destruct (Nat.eqb_spec k n) as [->|H]; [apply Z.pow2_bits_true; lia|]. apply Z.pow2_bits_false. lia.
Qed.
Lemma ltb_S k n : (k <? S n) = (k <? n) || (k =? n).
Proof. destruct (Nat.ltb_spec k (S n)), (Nat.ltb_spec k n), (Nat.eqb_spec k n); done || lia. Qed.

Lemma read_field_at s p n : read_field s (Z.of_nat p) (Z.of_nat n) = field_at (bits_of s) p n.
Proof.
  unfold read_field. rewrite Nat2Z.id.
  assert (H : let v := foldl (λ v j, if GetBit s (Z.of_nat p + Z.of_nat j) then Z.lor v (Z.shiftl 1 (Z.of_nat j)) else v) 0%Z (seq 0 n) in
    (0 ≤ v)%Z ∧ ∀ k : nat, Z.testbit v (Z.of_nat k) = (k <? n) && bit_at (bits_of s) (p + k)).
  { induction n as [|n [IH0 IH]]; [split; [done|intros; by rewrite Z.bits_0]|]. rewrite seq_S, foldl_app. cbn [foldl Nat.add].
    set (v := foldl _ _ _) in *. rewrite <- Nat2Z.inj_add, GetBit_bit, Z.shiftl_1_l. split.
    { destruct (bit_at _ _); [apply Z.lor_nonneg; lia|done]. }
    intros k. rewrite ltb_S. destruct (bit_at (bits_of s) (p + n)) eqn:Eb; rewrite ?Z.lor_spec, IH, ?pow2_bit;
      destruct (Nat.eqb_spec k n) as [->|_]; rewrite ?Eb; destruct (_ <? _); try done; apply orb_false_r. }
  destruct H as [H0 H]. apply bits_eq; [done|apply field_at_range|]. intros k. by rewrite H, field_at_testbit.
Qed.

(** ** Writing a field *)

Section Fields.
Context {P : Platform}.

Lemma bit_at_set i v l q : bit_at (set_bit i v l) q = if decide (q = i) then v else bit_at l q.
Proof.
  unfold set_bit, bit_at. assert (D := Nat.div_mod_eq i 8). assert (Hm := Nat.mod_upper_bound i 8 ltac:(done)). case_decide as E.
  - subst q. rewrite list_lookup_insert_eq; [done|]. rewrite length_app, length_replicate. lia.
  - rewrite list_lookup_insert_ne by done. destruct (decide (q < length l)) as [H|H]; [by rewrite lookup_app_l|].
    rewrite lookup_app_r, (lookup_ge_None_2 l) by lia. destruct (replicate _ _ !! _) as [b|] eqn:Eb; [|done].
    apply lookup_replicate in Eb as [-> _]. done.
Qed.

(** There is memory for the bits before [limit]. *)
Definition room (limit : nat) : Prop := ∀ i, i < limit → can_allocate (Z.of_nat (i / 8) + 1) = true.

Lemma write_field_at s p n v : room (p + n) →
  ∃ s', write_field s (Z.of_nat p) (Z.of_nat n) v = Some s' ∧
    (∀ q, bit_at (bits_of s') q = if decide (p ≤ q < p + n) then Z.testbit v (Z.of_nat (q - p)) else bit_at (bits_of s) q) ∧
    length s' = match n with 0 => length s | _ => max (length s) ((p + n - 1) / 8 + 1) end.
Proof.
  intros Hr. unfold write_field. rewrite Nat2Z.id. induction n as [|n IH].
  - exists s. split; [done|]. split; [intros q; by rewrite decide_False by lia|done].
  - destruct IH as (s1 & E1 & B1 & L1); [intros i Hi; apply Hr; lia|]. rewrite seq_S, foldl_app, E1. cbn [foldl Nat.add mbind option_bind].
    rewrite <- Nat2Z.inj_add. destruct (SetBit_some s1 (p + n) (Z.testbit v (Z.of_nat n)) (Hr (p + n) ltac:(lia))) as [s2 E2].
    exists s2. split; [done|]. assert (Hb := SetBit_bits _ _ _ _ E2). split.
    + intros q. rewrite Hb, bit_at_set, B1. destruct (decide (q = p + n)) as [->|Hq].
      * rewrite decide_True by lia. do 2 f_equal. lia.
      * destruct (decide (p ≤ q < p + n)); [by rewrite decide_True by lia|by rewrite decide_False by lia].
    + assert (Hl := length_bits_of s2). rewrite Hb in Hl. unfold set_bit in Hl. rewrite length_insert, length_app, length_replicate, length_bits_of in Hl.
      replace (p + S n - 1) with (p + n) by lia. assert (Hm : (p + n - 1) / 8 ≤ (p + n) / 8) by (apply Nat.Div0.div_le_mono; lia). destruct n; lia.
Qed.
End Fields.

(** ** Integers of a width *)

Section Width.
Context (sg : bool) (n : Z) (Hn : (0 < n ≤ 62)%Z).
Implicit Types v : Z.

Definition fit v : Z := if sg then swrap n v else wrap n v.
Definition lowest : Z := if sg then (- 2 ^ (n - 1))%Z else 0%Z.
Definition highest : Z := if sg then (2 ^ (n - 1) - 1)%Z else (2 ^ n - 1)%Z.
Definition fits v : bool := (lowest <=? v)%Z && (v <=? highest)%Z.
Definition nearest v : Z := Z.max lowest (Z.min highest v).

Lemma pow_pred : (2 ^ n = 2 * 2 ^ (n - 1))%Z.
Proof. rewrite <- Z.pow_succ_r by lia. f_equal. lia. Qed.
Lemma pow_bounds : (0 < 2 ^ (n - 1) ≤ 2 ^ 61)%Z.
Proof. split; [apply Z.pow_pos_nonneg; lia|]. apply Z.pow_le_mono_r; lia. Qed.

Lemma fit_mod v v' : (v mod 2 ^ n = v' mod 2 ^ n)%Z → fit v = fit v'.
Proof.
  intros H. unfold fit, swrap, wrap. destruct sg; [|done]. f_equal. rewrite (Zplus_mod v), (Zplus_mod v'), H. done.
Qed.
Lemma fit_fits v : fits v = true → fit v = v.
Proof.
  assert (Hp := pow_pred). assert (Hb := pow_bounds). unfold fits, fit, lowest, highest, swrap, wrap. intros H. b2p. destruct sg.
  - rewrite Z.mod_small by lia. lia.
  - apply Z.mod_small. lia.
Qed.
Lemma fits_fit v : fits (fit v) = true.
Proof.
  assert (Hp := pow_pred). assert (Hb := pow_bounds). unfold fits, fit, lowest, highest, swrap, wrap.
  destruct sg; apply andb_true_intro; split; apply Z.leb_le.
  - assert (H := Z.mod_pos_bound (v + 2 ^ (n - 1)) (2 ^ n) ltac:(lia)). lia.
  - assert (H := Z.mod_pos_bound (v + 2 ^ (n - 1)) (2 ^ n) ltac:(lia)). lia.
  - assert (H := Z.mod_pos_bound v (2 ^ n) ltac:(lia)). lia.
  - assert (H := Z.mod_pos_bound v (2 ^ n) ltac:(lia)). lia.
Qed.
Lemma fits_nearest v : fits (nearest v) = true.
Proof. assert (Hp := pow_pred). assert (Hb := pow_bounds). unfold fits, nearest, lowest, highest. destruct sg; apply andb_true_intro; split; apply Z.leb_le; lia. Qed.
Lemma fits_range v : fits v = true → (- 2 ^ 62 < v < 2 ^ 62)%Z.
Proof. assert (Hp := pow_pred). assert (Hb := pow_bounds). unfold fits, lowest, highest. intros H. b2p. destruct sg; lia. Qed.
Lemma mod_fit v : (fit v mod 2 ^ n = v mod 2 ^ n)%Z.
Proof.
  unfold fit, swrap, wrap. destruct sg; [|by apply Z.mod_mod; assert (H := pow_bounds); lia].
  rewrite Zminus_mod_idemp_l. f_equal. lia.
Qed.

Lemma shl1_pow k : (0 ≤ k < 64)%Z → shl1 k = (2 ^ k)%Z.
Proof.
  intros H. unfold shl1. rewrite (Z.mod_small k) by lia. rewrite Z.shiftl_1_l. apply Z.mod_small. split; [apply Z.pow_nonneg; lia|].
  apply Z.pow_lt_mono_r; lia.
Qed.

Lemma min_value_pow : min_value n = (- 2 ^ (n - 1))%Z.
Proof. assert (Hb := pow_bounds). unfold min_value. rewrite Z.shiftl_1_l. rewrite (i64_small (2 ^ (n - 1))) by (unfold in_i64; lia). apply i64_small. unfold in_i64. lia. Qed.
Lemma max_signed_pow : max_signed_value n = (2 ^ (n - 1) - 1)%Z.
Proof. assert (Hb := pow_bounds). unfold max_signed_value. rewrite Z.shiftl_1_l. rewrite (i64_small (2 ^ (n - 1))) by (unfold in_i64; lia). apply i64_small. unfold in_i64. lia. Qed.
Lemma max_value_pow : max_value n = (2 ^ n - 1)%Z.
Proof. assert (Hp := pow_pred). assert (Hb := pow_bounds). unfold max_value. rewrite shl1_pow by lia. apply Z.mod_small. lia. Qed.

Lemma out_of_field_fits v : in_i64 v → out_of_field sg n v = negb (fits v).
Proof.
  intros Hv. assert (Hp := pow_pred). assert (Hb := pow_bounds). unfold out_of_field, fits, lowest, highest. unfold in_i64 in Hv.
  destruct sg; rewrite ?min_value_pow, ?max_signed_pow, ?max_value_pow, negb_andb.
  - f_equal; [destruct (Z.ltb_spec v (- 2 ^ (n - 1))), (Z.leb_spec (- 2 ^ (n - 1)) v)|destruct (Z.ltb_spec (2 ^ (n - 1) - 1) v), (Z.leb_spec v (2 ^ (n - 1) - 1))]; done || lia.
  - destruct (Z.ltb_spec v 0), (Z.leb_spec 0 v); try lia; try done. cbn [orb negb]. assert (Eu : u64 v = v) by (apply Z.mod_small; lia). rewrite Eu.
    destruct (Z.ltb_spec (2 ^ n - 1) v), (Z.leb_spec v (2 ^ n - 1)); done || lia.
Qed.
Lemma saturate_nearest v : in_i64 v → saturate sg n v = nearest v.
Proof.
  intros Hv. assert (Hp := pow_pred). assert (Hb := pow_bounds). unfold saturate, nearest, lowest, highest. unfold in_i64 in Hv.
  destruct sg; rewrite ?min_value_pow, ?max_signed_pow, ?max_value_pow; cbv zeta.
  - destruct (Z.ltb_spec v (- 2 ^ (n - 1))); destruct (Z.ltb_spec (2 ^ (n - 1) - 1) v); try lia;
      match goal with |- context [(?a <? ?b)%Z] => destruct (Z.ltb_spec a b) | _ => idtac end; lia.
  - destruct (Z.ltb_spec v 0).
    + rewrite (proj2 (Z.ltb_ge _ _)); [lia|]. change (u64 0) with 0%Z. lia.
    + assert (Eu : u64 v = v) by (apply Z.mod_small; lia). rewrite Eu. destruct (Z.ltb_spec (2 ^ n - 1) v); [|lia].
      rewrite i64_small by (unfold in_i64; lia). lia.
Qed.

(** The sign bit is set for the upper half. *)
Lemma sign_bit v : (0 ≤ v < 2 ^ n)%Z → (Z.land v (2 ^ (n - 1)) =? 0)%Z = (v <? 2 ^ (n - 1))%Z.
Proof.
  intros Hv. assert (Hp := pow_pred). assert (Hb := pow_bounds).
  assert (Et : Z.testbit v (n - 1) = negb (v <? 2 ^ (n - 1))%Z).
  { apply eq_bool_prop_intro. rewrite !Is_true_true, negb_true_iff, Z.ltb_ge, Z.testbit_true by lia. assert (D := Z.div_mod v (2 ^ (n - 1)) ltac:(lia)).
    assert (Hm := Z.mod_pos_bound v (2 ^ (n - 1)) ltac:(lia)). assert (Hq : (0 ≤ v / 2 ^ (n - 1) < 2)%Z).
    { split; [apply Z.div_pos; lia|apply Z.div_lt_upper_bound; lia]. }
    rewrite Z.mod_small by lia. split; intros H; nia. }
  assert (El : Z.land v (2 ^ (n - 1)) = if Z.testbit v (n - 1) then (2 ^ (n - 1))%Z else 0%Z).
  { apply Z.bits_inj'. intros k Hk. rewrite Z.land_spec. destruct (decide (k = n - 1)%Z) as [->|Hne].
    - rewrite Z.pow2_bits_true by lia. rewrite andb_true_r. destruct (Z.testbit v (n - 1)); [by rewrite Z.pow2_bits_true by lia|by rewrite Z.bits_0].
    - rewrite Z.pow2_bits_false by lia. rewrite andb_false_r. destruct (Z.testbit v (n - 1)); [by rewrite Z.pow2_bits_false by lia|by rewrite Z.bits_0]. }
  rewrite El, Et. destruct (Z.ltb_spec v (2 ^ (n - 1))); cbn [negb]; [done|]. apply Z.eqb_neq. lia.
Qed.

(** The bits above the width. *)
Lemma high_ones : u64 (Z.lnot (shl1 n - 1)) = Z.shiftl (Z.ones (64 - n)) n.
Proof.
  assert (Hp := pow_pred). assert (Hb := pow_bounds). rewrite shl1_pow by lia. unfold Z.lnot, u64, wrap. rewrite Z.shiftl_mul_pow2, Z.ones_equiv by lia.
  replace (Z.pred (- (2 ^ n - 1))) with (- 2 ^ n + 0 * 2 ^ 64)%Z by lia. assert (E : (2 ^ (64 - n) * 2 ^ n = 2 ^ 64)%Z).
  { rewrite <- Z.pow_add_r by lia. f_equal. lia. }
  rewrite Z.add_0_r. rewrite <- (Z_mod_plus_full (- 2 ^ n) 1 (2 ^ 64)). rewrite Z.mod_small by lia. lia.
Qed.

Lemma sign_extend_fit v : (0 ≤ v < 2 ^ n)%Z → i64 (sign_extend sg n v) = fit v.
Proof.
  intros Hv. assert (Hp := pow_pred). assert (Hb := pow_bounds). unfold sign_extend, fit. rewrite (proj2 (Z.ltb_lt n 64)), andb_true_r by lia.
  destruct sg; cbn [andb].
  2: { rewrite i64_small by (unfold in_i64; lia). unfold wrap. by rewrite Z.mod_small. }
  rewrite (shl1_pow (n - 1)), sign_bit by lia. unfold swrap. destruct (Z.ltb_spec v (2 ^ (n - 1))); cbn [negb].
  - rewrite i64_small by (unfold in_i64; lia). rewrite Z.mod_small by lia. lia.
  - rewrite high_ones, <- Z.add_nocarry_lor.
    + rewrite Z.shiftl_mul_pow2, Z.ones_equiv by lia. assert (E : (2 ^ (64 - n) * 2 ^ n = 2 ^ 64)%Z) by (rewrite <- Z.pow_add_r by lia; f_equal; lia).
      replace (v + Z.pred (2 ^ (64 - n)) * 2 ^ n)%Z with (v - 2 ^ n + 1 * 2 ^ 64)%Z by lia. unfold i64, swrap.
      replace (v - 2 ^ n + 1 * 2 ^ 64 + 2 ^ (64 - 1))%Z with (v - 2 ^ n + 2 ^ (64 - 1) + 1 * 2 ^ 64)%Z by lia. rewrite Z_mod_plus_full.
      rewrite Z.mod_small by lia. rewrite <- (Z_mod_plus_full (v + 2 ^ (n - 1)) (-1) (2 ^ n)). rewrite Z.mod_small by lia. lia.
    + apply Z.bits_inj'. intros k Hk. rewrite Z.land_spec, Z.bits_0. destruct (Z.ltb_spec k n).
      * rewrite Z.shiftl_spec_low by lia. apply andb_false_r.
      * rewrite (Z.bounded_iff_bits_nonneg n v) in Hv by lia. rewrite (proj2 Hv) by lia. done.
Qed.

Lemma wrap_field_fit v : wrap_field sg n v = fit v.
Proof.
  assert (Hp := pow_pred). assert (Hb := pow_bounds). unfold wrap_field. cbv zeta. rewrite max_value_pow.
  replace (2 ^ n - 1)%Z with (Z.ones n) by (rewrite Z.ones_equiv; lia). rewrite Z.land_ones by lia.
  assert (Hm := Z.mod_pos_bound (u64 v) (2 ^ n) ltac:(lia)). rewrite sign_extend_fit by done. apply fit_mod. rewrite Z.mod_mod by lia.
  unfold u64, wrap. apply Z.mod_mod_divide. exists (2 ^ (64 - n))%Z. rewrite <- Z.pow_add_r by lia. f_equal. lia.
Qed.
End Width.

(** ** Arrays *)

Section Arrays.
Context {P : Platform} (sg : bool) (w : nat) (Hw : 0 < w ≤ 62).
Implicit Types (s : bytes) (k : nat) (v : Z) (arr : nat → Z).
Abbreviation n := (Z.of_nat w).

Definition raw s k : Z := field_at (bits_of s) (k * w) w.

(** The elements of an array, and the bytes of its string. *)
Abbreviation field_array := ((nat → Z) * nat)%type.
Implicit Types a : field_array.
Definition array_of s : field_array := (λ k, fit sg n (raw s k), length s).
Definition holds s a : Prop := (∀ k, fit sg n (raw s k) = a.1 k) ∧ length s = a.2.

(** The bytes that GET and INCRBY ask for, which are fewer than the field takes when it
    does not start with a byte, and the bytes that a field takes. *)
Definition asked k : nat := k * w / 8 + (w + 7) / 8.
Definition taken k : nat := (k * w + w - 1) / 8 + 1.

Lemma holds_self s : holds s (array_of s).
Proof. done. Qed.

(** Zeros at the end are not seen. *)
Lemma holds_grow s arr len size : holds s (arr, len) → len ≤ size → holds (s ++ replicate (size - length s) zero_char) (arr, size).
Proof.
  intros [H L] Hz. cbn in L. split; [|cbn; rewrite length_app, length_replicate; lia]. intros k. set (add := size - length s).
  assert (E : raw (s ++ replicate add zero_char) k = raw s k); [|rewrite E; apply H].
  unfold raw, field_at. f_equal. apply list_fmap_ext. intros _ q _. rewrite bits_of_app, bits_of_zeros. unfold bit_at.
  destruct (decide (q < length (bits_of s))) as [Hq|Hq]; [by rewrite lookup_app_l|]. rewrite lookup_app_r, (lookup_ge_None_2 (bits_of s)) by lia.
  destruct (replicate _ _ !! _) as [b|] eqn:Eb; [|done]. by apply lookup_replicate in Eb as [-> _].
Qed.

Lemma start_i64 k : (Z.of_nat (k * w) < 2 ^ 62)%Z → i64 (Z.of_nat k * n) = Z.of_nat (k * w).
Proof. intros H. rewrite <- Nat2Z.inj_mul. apply i64_small. unfold in_i64. lia. Qed.
Lemma required_bytes k : (Z.quot (Z.of_nat (k * w)) 8 + Z.quot (n + 7) 8 = Z.of_nat (asked k))%Z.
Proof. unfold asked. rewrite quot_8. replace (n + 7)%Z with (Z.of_nat (w + 7)) by lia. rewrite quot_8. lia. Qed.

Lemma read_holds s a k : holds s a → i64 (sign_extend sg n (read_field s (Z.of_nat (k * w)) n)) = a.1 k.
Proof. intros H. rewrite read_field_at, sign_extend_fit; [apply H|lia|apply field_at_range]. Qed.

Lemma field_get_holds s a k : holds s a → (Z.of_nat (k * w) < 2 ^ 62)%Z → field_get s sg n (Z.of_nat k) = if asked k <=? a.2 then a.1 k else 0%Z.
Proof.
  intros H Hk. unfold field_get. rewrite start_i64, required_bytes by done. destruct H as [H L]. unfold zlen. rewrite L.
  destruct (Z.ltb_spec (Z.of_nat a.2) (Z.of_nat (asked k))), (Nat.leb_spec (asked k) a.2); try lia. by apply read_holds.
Qed.

Lemma write_holds s arr len k v : holds s (arr, len) → room (k * w + w) →
  ∃ s', write_field s (Z.of_nat (k * w)) n (u64 v) = Some s' ∧ holds s' (<[k := fit sg n v]> arr, max len (taken k)).
Proof.
  intros [H L] Hr. cbn [fst snd] in *. destruct (write_field_at s (k * w) w (u64 v) Hr) as (s' & E & Hb & Hl). exists s'. split; [done|].
  split; [|cbn [snd]; rewrite Hl; unfold taken; destruct w; lia]. intros j. cbn [fst]. destruct (decide (j = k)) as [->|Hj].
  - rewrite fn_lookup_insert. assert (Er : raw s' k = (v mod 2 ^ n)%Z); [|rewrite Er; apply fit_mod; apply Z.mod_mod; lia].
    apply bits_eq; [apply field_at_range|apply Z.mod_pos_bound; lia|]. intros i. unfold raw. rewrite field_at_testbit, Hb.
    destruct (Nat.ltb_spec i w) as [Hi|Hi]; cbn [andb].
    + rewrite decide_True by lia. replace (k * w + i - k * w) with i by lia. unfold u64, wrap. rewrite !Z.mod_pow2_bits_low by lia. done.
    + by rewrite Z.mod_pow2_bits_high by lia.
  - rewrite fn_lookup_insert_ne by done. assert (Er : raw s' j = raw s j); [|rewrite Er; apply H].
    unfold raw, field_at. f_equal. apply list_fmap_ext. intros i q Hq. apply lookup_seq in Hq as [-> Hi]. rewrite Hb, decide_False; [done|]. nia.
Qed.

(** ** Commands on an array *)

Inductive field_op := FMode (mode : Overflow) | FGet (k : nat) | FSet (k : nat) (v : Z) | FIncr (k : nat) (d : Z).

(** The answer and the element for a new value, or neither. *)
Definition settle (mode : Overflow) v : option Z :=
  match mode with
  | WRAP => Some (fit sg n v)
  | SAT => Some (nearest sg n v)
  | FAIL => if fits sg n v then Some v else None
  end.

(** GET answers 0 when the bytes it asks for are not all there; SET answers the value as
    it was given when it wraps; INCRBY makes room for the bytes it asks for also when it
    refuses the sum. *)
Definition array_step (op : field_op) (mode : Overflow) a : Overflow * field_array * list RespValue :=
  let '(arr, len) := a in
  match op with
  | FMode mode => (mode, a, [])
  | FGet k => (mode, a, [resp_int (if asked k <=? len then arr k else 0%Z)])
  | FSet k v =>
      match settle mode v with
      | Some x => (mode, (<[k := x]> arr, max len (taken k)), [resp_int match mode with WRAP => v | _ => x end])
      | None => (mode, a, [resp_of_type kNullBulkString])
      end
  | FIncr k d =>
      match settle mode (arr k + d) with
      | Some x => (mode, (<[k := x]> arr, max len (taken k)), [resp_int x])
      | None => (mode, (arr, max len (asked k)), [resp_of_type kNullBulkString])
      end
  end.
Fixpoint array_steps (ops : list field_op) (mode : Overflow) a : field_array * list RespValue :=
  match ops with
  | [] => (a, [])
  | op :: ops =>
      let '(mode, a, answer) := array_step op mode a in
      let '(a, answers) := array_steps ops mode a in (a, answer ++ answers)
  end.

(** The text of the operations. *)
Definition type_text : bytes := (if sg then "i"%char else "u"%char) :: print_int n.
Definition mode_text (mode : Overflow) : bytes := match mode with WRAP => B "WRAP" | SAT => B "SAT" | FAIL => B "FAIL" end.
Definition op_text (op : field_op) : list bytes :=
  match op with
  | FMode mode => [B "OVERFLOW"; mode_text mode]
  | FGet k => [B "GET"; type_text; print_int (Z.of_nat k)]
  | FSet k v => [B "SET"; type_text; print_int (Z.of_nat k); print_int v]
  | FIncr k d => [B "INCRBY"; type_text; print_int (Z.of_nat k); print_int d]
  end.

(** The fields are before [limit], and a sum does not overflow. *)
Definition op_ok (limit : nat) (op : field_op) : Prop :=
  match op with
  | FMode _ => True
  | FGet k => k * w + w ≤ limit
  | FSet k v => k * w + w ≤ limit ∧ in_i64 v
  | FIncr k d => k * w + w ≤ limit ∧ (- 2 ^ 62 ≤ d ≤ 2 ^ 62)%Z
  end.

Context {NO : AbslNumbersOk} (limit : nat) (Hlimit : (Z.of_nat limit < 2 ^ 62)%Z) (Hroom : room limit).

Lemma element_fits s a k : holds s a → fits sg n (a.1 k) = true.
Proof. intros [H _]. rewrite <- H. apply fits_fit. lia. Qed.
Lemma asked_taken k : 0 < asked k ≤ taken k.
Proof. unfold asked, taken. clear -Hw. zify. Z.to_euclidean_division_equations. lia. Qed.

(** A value settled is written as it is. *)
Lemma settle_fit mode v x : settle mode v = Some x → fit sg n x = x.
Proof.
  assert (Hn : (0 < n ≤ 62)%Z) by lia. destruct mode; cbn [settle]; [intros [= <-]; by apply fit_fits, fits_fit|intros [= <-]; by apply fit_fits, fits_nearest|].
  destruct (fits sg n v) eqn:E; [|done]. intros [= <-]. by apply fit_fits.
Qed.

Lemma room_at k : k * w + w ≤ limit → room (k * w + w).
Proof. intros H i Hi. apply Hroom. lia. Qed.

Lemma field_set_holds mode s a k v : holds s a → op_ok limit (FSet k v) →
  let '(_, a', answers) := array_step (FSet k v) mode a in
  ∃ s' answer, field_set mode s sg n (Z.of_nat k) v = Some (answer, s') ∧ answers = [answer] ∧ holds s' a'.
Proof.
  destruct a as [arr len]. intros H [Hk Hv]. assert (Hn : (0 < n ≤ 62)%Z) by lia. unfold field_set. rewrite start_i64 by lia. cbn [array_step].
  rewrite (out_of_field_fits sg n Hn v Hv). rewrite (saturate_nearest sg n Hn v Hv).
  destruct mode; cbn [settle].
  - destruct (write_holds s arr len k v H (room_at k Hk)) as (s' & -> & Hs). by exists s', (resp_int v).
  - destruct (write_holds s arr len k (nearest sg n v) H (room_at k Hk)) as (s' & -> & Hs). exists s', (resp_int (nearest sg n v)).
    split; [done|]. split; [done|]. by rewrite (settle_fit SAT v _ eq_refl) in Hs.
  - destruct (fits sg n v) eqn:E; cbn [negb]; [|by exists s, (resp_of_type kNullBulkString)].
    destruct (write_holds s arr len k v H (room_at k Hk)) as (s' & -> & Hs). exists s', (resp_int v). split; [done|]. split; [done|]. by rewrite fit_fits in Hs.
Qed.

(** The string with the bytes that INCRBY asks for. *)
Lemma grow_holds s arr len k : holds s (arr, len) → k * w + w ≤ limit →
  ∃ s1, (if (zlen s <? Z.of_nat (asked k))%Z then grow (Z.of_nat (asked k)) s else Some s) = Some s1 ∧ holds s1 (arr, max len (asked k)).
Proof.
  intros H Hk. assert (L := proj2 H). cbn [snd] in L. destruct (Z.ltb_spec (zlen s) (Z.of_nat (asked k))) as [Hlt|Hge]; unfold zlen in *.
  - unfold grow. assert (Hz := asked_taken k). assert (Hs : 8 * (asked k - 1) < limit) by (unfold asked; clear -Hk Hw; zify; Z.to_euclidean_division_equations; lia).
    assert (Ha := Hroom (8 * (asked k - 1)) ltac:(lia)). rewrite Nat.mul_comm, Nat.div_mul in Ha by done.
    replace (Z.of_nat (asked k - 1) + 1)%Z with (Z.of_nat (asked k)) in Ha by lia. rewrite Ha. eexists. split; [done|]. rewrite Nat2Z.id.
    replace (max len (asked k)) with (asked k) by lia. apply (holds_grow s arr len); [done|lia].
  - exists s. split; [done|]. by replace (max len (asked k)) with len by lia.
Qed.

Lemma field_incr_holds mode s a k d : holds s a → op_ok limit (FIncr k d) →
  let '(_, a', answers) := array_step (FIncr k d) mode a in
  ∃ s' answer, field_incr mode s sg n (Z.of_nat k) d = Some (answer, s') ∧ answers = [answer] ∧ holds s' a'.
Proof.
  destruct a as [arr len]. intros H [Hk Hd]. assert (Hn : (0 < n ≤ 62)%Z) by lia. unfold field_incr. rewrite start_i64, required_bytes by lia. cbv zeta.
  destruct (grow_holds s arr len k H Hk) as (s1 & -> & H1). cbn [mbind option_bind]. rewrite (read_holds s1 _ k H1). cbn [fst].
  assert (Hr := fits_range sg n Hn _ (element_fits s1 _ k H1)). cbn [fst] in Hr. assert (Hi : in_i64 (arr k + d)) by (unfold in_i64; lia). rewrite (i64_small _ Hi).
  rewrite (out_of_field_fits sg n Hn _ Hi), (saturate_nearest sg n Hn _ Hi), (wrap_field_fit sg n Hn). cbn [array_step].
  assert (Hx : ∀ x, settle mode (arr k + d) = Some x → ∃ s' answer, (bitmap ← write_field s1 (Z.of_nat (k * w)) n (u64 x); Some (resp_int x, bitmap)) = Some (answer, s') ∧
    [resp_int x] = [answer] ∧ holds s' (<[k := x]> arr, max len (taken k))).
  { intros x Ex. destruct (write_holds s1 arr (max len (asked k)) k x H1 (room_at k Hk)) as (s' & -> & Hs). exists s', (resp_int x). split; [done|]. split; [done|].
    rewrite (settle_fit mode _ _ Ex) in Hs. assert (Ha := asked_taken k). by replace (max (max len (asked k)) (taken k)) with (max len (taken k)) in Hs by lia. }
  destruct mode; cbn [settle] in *; [by apply Hx|by apply Hx|]. destruct (fits sg n (arr k + d)); [by apply Hx|].
  by exists s1, (resp_of_type kNullBulkString).
Qed.

Lemma field_type_text message : field_type type_text message = inl (sg, n).
Proof.
  unfold field_type, type_text. unfold SimpleAtoi_int. rewrite SimpleAtoi_print by (unfold in_i64; lia). cbn [mbind option_bind].
  rewrite bool_decide_eq_true_2 by (unfold in_i32; lia). rewrite (proj2 (Z.leb_gt _ _)), (proj2 (Z.ltb_ge _ _)) by lia. by destruct sg.
Qed.
Lemma overflow_text mode : overflow_of (mode_text mode) = Some mode.
Proof. by destruct mode. Qed.

Lemma bitfield_loop_ok ops : ∀ s mode a results, holds s a → Forall (op_ok limit) ops →
  ∃ s', bitfield_loop (bulk <$> concat (op_text <$> ops)) s mode results = inl (s', results ++ (array_steps ops mode a).2) ∧
    holds s' (array_steps ops mode a).1.
Proof.
  induction ops as [|op ops IH]; intros s mode a results H Hok; [exists s; by rewrite app_nil_r|].
  apply Forall_cons in Hok as [Ho Hok]. cbn [fmap list_fmap concat].
  assert (Hk : ∀ k, k * w + w ≤ limit → in_i64 (Z.of_nat k)) by (intros k Hk; unfold in_i64; nia).
  assert (Hnext : ∀ s mode' a' answers, array_step op mode a = (mode', a', answers) → holds s a' →
    ∃ s', bitfield_loop (bulk <$> concat (op_text <$> ops)) s mode' (results ++ answers) = inl (s', results ++ (array_steps (op :: ops) mode a).2) ∧
      holds s' (array_steps (op :: ops) mode a).1).
  { intros s1 mode' a' answers E H1. destruct (IH s1 mode' a' (results ++ answers) H1 Hok) as (s' & Hl & Hh). exists s'. cbn [array_steps].
    rewrite E. destruct (array_steps ops mode' a'). rewrite <- app_assoc in Hl. done. }
  destruct op as [mode'|k|k v|k d]; cbn [op_text app fmap list_fmap bitfield_loop arg_value bulk].
  - rewrite decide_True, overflow_text by done. destruct (Hnext s mode' a [] ltac:(by destruct a) H) as (s' & Hl & Hh). exists s'. by rewrite app_nil_r in Hl.
  - rewrite decide_False, decide_True, SimpleAtoi_print, field_type_text by (by auto). cbn [op_ok] in Ho. rewrite (field_get_holds s a) by (done || lia).
    apply (Hnext s mode a); [by destruct a|done].
  - rewrite decide_False, decide_False, decide_True by (done || by left). destruct Ho as [Ho Hv]. rewrite !SimpleAtoi_print, field_type_text, decide_True by auto.
    assert (Hf := field_set_holds mode s a k v H (conj Ho Hv)). destruct (array_step (FSet k v) mode a) as [[mode' a'] answers] eqn:E.
    destruct Hf as (s1 & answer & -> & -> & H1). assert (mode' = mode) as -> by (destruct a; cbn [array_step] in E; destruct (settle mode _); congruence). by apply (Hnext s1 mode a').
  - rewrite decide_False, decide_False, decide_True by (done || by right). destruct Ho as [Ho Hd].
    rewrite !SimpleAtoi_print, field_type_text, decide_False by (done || auto || (unfold in_i64; lia)).
    assert (Hf := field_incr_holds mode s a k d H (conj Ho Hd)). destruct (array_step (FIncr k d) mode a) as [[mode' a'] answers] eqn:E.
    destruct Hf as (s1 & answer & -> & -> & H1). assert (mode' = mode) as -> by (destruct a; cbn [array_step] in E; destruct (settle mode _); congruence). by apply (Hnext s1 mode a').
Qed.

(** ** Histories of commands on a key *)

Section Commands.
Context {HD : DoubleText} {HZ : Horizon} (key : bytes).

Fixpoint bitfields (cmds : list (Z * list field_op)) (c : Ctx) : Ctx * list outcome :=
  match cmds with
  | [] => (c, [])
  | (now, ops) :: cmds =>
      let '(c, o) := run (HandleBitField now (MkCommand (B "BITFIELD") (bulk <$> key :: concat (op_text <$> ops)))) c in
      let '(c, os) := bitfields cmds c in (c, o :: os)
  end.
Fixpoint array_history (cmds : list (list field_op)) a : field_array * list outcome :=
  match cmds with
  | [] => (a, [])
  | ops :: cmds =>
      let '(a, answers) := array_steps ops WRAP a in
      let '(a, os) := array_history cmds a in (a, Returned (reply_array answers) :: os)
  end.

Lemma bitfield_serves now ops c m a : (0 ≤ now ≤ horizon)%Z → stands c m → has_type kString key m → holds (default [] (str_at key m)) a →
  Forall (op_ok limit) ops →
  ∃ c' s', run (HandleBitField now (MkCommand (B "BITFIELD") (bulk <$> key :: concat (op_text <$> ops)))) c =
      (c', Returned (reply_array (array_steps ops WRAP a).2)) ∧
    stands c' (put key (VStr s') m) ∧ holds s' (array_steps ops WRAP a).1.
Proof.
  intros Hn Hs Ht Hh Hok. destruct (bitfield_loop_ok ops _ WRAP a [] Hh Hok) as (s' & El & H').
  assert (Hw' : wp (HandleBitField now (MkCommand (B "BITFIELD") (bulk <$> key :: concat (op_text <$> ops))))
    (λ r c', r = inl (reply_array (array_steps ops WRAP a).2) ∧ stands c' (put key (VStr s') m)) c).
  { unfold HandleBitField. repeat st_step. change (drop 1 _) with (bulk <$> concat (op_text <$> ops)). change (arg_text 0 _) with key. rewrite El.
    repeat st_step. apply (wp_put now key s' c' m _ Hs Ht). intros c2 H2. st_step. done. }
  unfold wp in Hw'. unfold run. destruct (HandleBitField _ _ c) as [c' r]. cbn [fst snd] in Hw'. destruct Hw' as [-> Hs']. by exists c', s'.
Qed.

Lemma bitfield_history cmds : ∀ c m a,
  Forall (λ x, (0 ≤ x.1 ≤ horizon)%Z ∧ Forall (op_ok limit) x.2) cmds →
  stands c m → has_type kString key m → holds (default [] (str_at key m)) a →
  ∃ m', (bitfields cmds c).2 = (array_history (snd <$> cmds) a).2 ∧ stands (bitfields cmds c).1 m' ∧
    holds (default [] (str_at key m')) (array_history (snd <$> cmds) a).1 ∧ has_type kString key m' ∧
    ∀ other : bytes, other ≠ key → m' !! other = m !! other.
Proof.
  induction cmds as [|[now ops] cmds IH]; intros c m a Hok Hs Ht Hh; [by exists m|]. apply Forall_cons in Hok as [[Hn Ho] Hok].
  destruct (bitfield_serves now ops c m a Hn Hs Ht Hh Ho) as (c1 & s1 & E1 & Hs1 & Hh1). change (snd <$> (now, ops) :: cmds) with (ops :: (snd <$> cmds)).
  cbn [bitfields array_history].
  rewrite E1. destruct (array_steps ops WRAP a) as [a1 answers]. cbn [fst snd] in *.
  assert (Es : str_at key (put key (VStr s1) m) = Some s1) by (unfold str_at; by rewrite put_at).
  destruct (IH c1 (put key (VStr s1) m) a1 Hok Hs1) as (m' & H1 & H2 & H3 & H4 & H5); [apply (has_type_put key (VStr s1))|by rewrite Es|].
  destruct (bitfields cmds c1) as [c2 os]. destruct (array_history (snd <$> cmds) a1) as [a2 os']. cbn [fst snd] in *.
  exists m'. split; [by rewrite H1|]. split; [done|]. split; [done|]. split; [done|]. intros other Ho'. rewrite H5 by done. unfold put. by apply lookup_insert_ne.
Qed.

End Commands.
End Arrays.

(** ** BITOP on several workers *)

Section Workers.
Context {P : Platform} {HD : DoubleText} {HZ : Horizon}.
Implicit Types (c : Ctx) (ms : nat → TypedStore.store) (key : bytes) (now : Z) (keys : list bytes).

Lemma find_pair (g : bytes → bytes) key keys : key ∈ keys → ∃ i, list_find (λ kv, kv.1 = key) ((λ k, (k, g k)) <$> keys) = Some (i, (key, g key)).
Proof.
  induction keys as [|k keys IH]; intros Hk; [by apply not_elem_of_nil in Hk|]. cbn [fmap list_fmap list_find fst].
  destruct (decide (k = key)) as [->|Hne]; [by exists 0|]. apply elem_of_cons in Hk as [->|Hk]; [done|]. destruct (IH Hk) as [i ->]. by exists (S i).
Qed.

(** The values of a worker replace all values. *)
Lemma merge_values_map (g : bytes → bytes) keys sources mx : length sources = length keys →
  merge_values keys ((λ k, (k, g k)) <$> keys) (sources, mx) = (g <$> keys, foldl (λ m k, max m (length (g k))) mx keys).
Proof.
  intros Hl. unfold merge_values. set (all := (λ k, (k, g k)) <$> keys).
  assert (H : ∀ rest before src mx, (∀ k, k ∈ rest → k ∈ keys) → length src = length rest →
    foldl (λ '(sources, max_len) '(i, key), match list_find (λ kv, kv.1 = key) all with
      | Some (_, kv) => (<[i := kv.2]> sources, max max_len (length kv.2)) | None => (sources, max_len) end)
      ((g <$> before) ++ src, mx) (imap (λ i k, (length before + i, k)) rest) =
    (g <$> (before ++ rest), foldl (λ m k, max m (length (g k))) mx rest)).
  { induction rest as [|k rest IH]; intros before src mx' Hin Hs; [destruct src; [|done]; by rewrite !app_nil_r|].
    destruct src as [|x src]; [done|]. cbn [imap foldl]. destruct (find_pair g k keys (Hin k ltac:(by constructor))) as [i Ei]. unfold all. rewrite Ei.
    cbn [snd]. rewrite Nat.add_0_r, insert_app_r_alt by (rewrite length_fmap; lia). rewrite length_fmap, Nat.sub_diag. cbn [insert list_insert].
    specialize (IH (before ++ [k]) src (max mx' (length (g k))) ltac:(intros; apply Hin; by constructor) ltac:(by injection Hs)).
    rewrite fmap_app, <- !app_assoc in IH. cbn [fmap list_fmap app] in IH. rewrite <- IH. f_equal.
    unfold compose. apply imap_ext. intros j y _. f_equal. rewrite length_app. cbn. lia. }
  exact (H keys [] sources mx ltac:(done) Hl).
Qed.

Lemma worker_values_wp now w n ms (Q : list (bytes * bytes) + outcome → Ctx → Prop) : w < n → ∀ keys l c, spread c n ms →
  (∀ c', spread c' n ms → Q (inl (l ++ ((λ k, (k, default [] (str_at k (ms w)))) <$> keys))) c') →
  wp (mfold (λ l key, value ← on_worker w (DbGet now key); mret (l ++ [(key, default [] value)])) l keys) Q c.
Proof.
  intros Hw. induction keys as [|k keys IH]; intros l c Hs HQ; cbn [mfold].
  - apply wp_ret. rewrite <- (app_nil_r l). by apply HQ.
  - apply wp_bind, wp_bind. eapply (wp_worker w _ c n ms (λ x, x = str_at k (ms w)) _ Hs Hw).
    { intros db H. exists (ms w). destruct (does_get now k (ms w) db H) as [H1 H2]. done. }
    intros x c' Hs' ->. apply wp_ret. apply IH; [done|]. intros c2 H2. rewrite <- app_assoc. by apply HQ.
Qed.

(** The last worker decides; the longest value of any counts. *)
Lemma collect_values_wp now n ms keys (Q : list bytes * nat + outcome → Ctx → Prop) : ∀ ws acc c, Forall (λ w, w < n) ws → length acc.1 = length keys →
  spread c n ms →
  (∀ c', spread c' n ms → Q (inl (foldl (λ acc w, ((λ k, default [] (str_at k (ms w))) <$> keys,
      foldl (λ m k, max m (length (default [] (str_at k (ms w))))) acc.2 keys)) acc ws)) c') →
  wp (mfold (λ acc w, values ← worker_values now w keys; mret (merge_values keys values acc)) acc ws) Q c.
Proof.
  induction ws as [|w ws IH]; intros acc c Hws Hl Hs HQ; cbn [mfold]; [by apply wp_ret, HQ|]. apply Forall_cons in Hws as [Hw Hws].
  apply wp_bind, wp_bind. apply (worker_values_wp now w n ms _ Hw keys [] c Hs). intros c1 H1. apply wp_ret. rewrite app_nil_l.
  destruct acc as [src mx]. rewrite (merge_values_map (λ k, default [] (str_at k (ms w)))) by done. apply IH; [done|cbn [fst]; by rewrite length_fmap|done|].
  intros c2 H2. by apply HQ.
Qed.

(** The length of the longest value at any worker. *)
Definition longest_at n ms keys : nat :=
  foldl (λ mx w, foldl (λ m k, max m (length (default [] (str_at k (ms w))))) mx keys) 0 (seq 0 n).

Lemma collected n ms keys : 0 < n →
  foldl (λ acc w, ((λ k, default [] (str_at k (ms w))) <$> keys, foldl (λ m k, max m (length (default [] (str_at k (ms w))))) acc.2 keys))
    (replicate (length keys) [], 0) (seq 0 n) = ((λ k, default [] (str_at k (ms (n - 1)))) <$> keys, longest_at n ms keys).
Proof.
  intros Hn. unfold longest_at. destruct n as [|n]; [lia|]. rewrite seq_S, !foldl_app. cbn [foldl Nat.add]. replace (S n - 1) with n by lia. f_equal.
  f_equal. clear Hn. induction n as [|n IH]; [done|]. rewrite seq_S, !foldl_app. cbn [foldl Nat.add]. by rewrite IH.
Qed.

Lemma bitop_zeros beyond op m len : op ≠ OpNot → bitop beyond op (replicate (S m) []) len = replicate len zero_char.
Proof.
  intros Ho. unfold bitop. apply list_eq. intros i. rewrite list_lookup_fmap. destruct (decide (i < len)) as [Hi|Hi].
  2: { rewrite lookup_seq_ge by lia. symmetry. apply lookup_replicate_None. lia. }
  rewrite lookup_seq_lt by done. cbn [fmap option_fmap option_map]. rewrite (lookup_replicate_2 len zero_char i Hi). f_equal.
  assert (Hz : ∀ f v, (∀ v, f v 0%Z = v ∨ f v 0%Z = 0%Z) → f v 0%Z = 0%Z → foldl (λ b s, f b (source_byte (0 + i) s)) v (replicate (S m) []) = 0%Z).
  { intros f v Hf Hv. cbn [replicate foldl]. change (source_byte _ []) with 0%Z. rewrite Hv. clear Hv v. induction m as [|m IH]; [done|].
    cbn [replicate foldl]. change (source_byte _ []) with 0%Z. destruct (Hf 0%Z) as [-> | ->]; exact IH. }
  destruct op; [rewrite (Hz Z.land)|rewrite (Hz Z.lor)|rewrite (Hz Z.lxor)|done]; try done; intros v; [right; apply Z.land_0_r|left; apply Z.lor_0_r|left; apply Z.lxor_0_r].
Qed.

Lemma wp_worker_do {A} w (f : Database → Database * A) c n ms x m' (Q : A + outcome → Ctx → Prop) :
  spread c n ms → w < n → does f (ms w) x m' → (∀ c', has_store c' w m' → Q (inl x) c') → wp (on_worker w f) Q c.
Proof.
  intros (_ & _ & Hs) Hw Hf HQ. unfold wp, on_worker. assert (Hws := Hs w Hw). unfold has_store in Hws. case_decide as Ew.
  - unfold on_db. destruct (Hf _ Hws) as [H1 H2]. destruct (f (ctx_db c)) as [db y]. cbn [fst snd] in *. subst y. apply HQ. unfold has_store. by rewrite decide_True.
  - destruct Hws as (db & Er & Hm). rewrite Er. destruct (Hf _ Hm) as [H1 H2]. destruct (f db) as [db' y]. cbn [fst snd] in *. subst y. apply HQ.
    unfold has_store. rewrite decide_False by done. exists db'. split; [apply lookup_insert_eq|done].
Qed.

(** What the last of [n] workers has of a key; the values of other workers are lost. *)
Definition last_value n ms key : bytes := if decide (owner_of n key = n - 1) then default [] (str_at key (ms (n - 1))) else [].

Lemma last_values n ms keys : placed n ms → 0 < n → (λ key, default [] (str_at key (ms (n - 1)))) <$> keys = last_value n ms <$> keys.
Proof.
  intros Hp Hn. apply list_fmap_ext. intros _ key _. unfold last_value, str_at. case_decide as Ho; [done|]. destruct (ms (n - 1) !! key) as [y|] eqn:E; [|done].
  destruct Ho. apply Hp; [lia|]. rewrite E. by eexists.
Qed.

End Workers.

(** ** Witnesses *)

#[local] Existing Instance small_platform.
#[local] Existing Instance decimal_numbers_ok.
#[local] Instance small_doubles : DoubleText := {| dtoa _ := []; atod _ := None |}.
#[local] Instance small_horizon : Horizon := until 5000.

(** Signed numbers of five bits: 15 + 3 wraps to -14, 15 saturates. *)
Definition small_fields : list (Z * list field_op) :=
  [(1, [FSet 3 15; FIncr 3 3; FGet 3]); (2, [FMode SAT; FSet 1 200; FIncr 1 7; FMode FAIL; FIncr 1 1; FGet 1; FGet 2])]%Z.

Example small_answers : (array_history true 5 (snd <$> small_fields) (array_of true 5 [])).2 =
  [Returned (reply_array (resp_int <$> [15; -14; -14]%Z));
   Returned (reply_array [resp_int 15; resp_int 15; resp_of_type kNullBulkString; resp_int 15; resp_int 0])].
Proof. vm_compute. reflexivity. Qed.

(** A string of one byte with a field of twelve bits: GET answers 0, INCRBY by 0 finds
    255, and GET finds it then. *)
Example short_string : (array_history false 12 [[FGet 0; FIncr 0 0; FGet 0]] (array_of false 12 [of_code 255])).2 =
  [Returned (reply_array (resp_int <$> [0; 255; 255]%Z))].
Proof. vm_compute. reflexivity. Qed.


(** A worker with a string. *)
Lemma small_string key x : ∃ c, stands c (put key (VStr x) ∅).
Proof.
  destruct (serves_run _ _ _ 1 (B "APPEND") [key; x] (db small_typed) ∅ append_serves) as (c & reply & m & _ & Hr & Hs);
    [unfold horizon, small_horizon, until; lia|by apply fresh_stands|by constructor|]. exists c. by injection Hr as _ <-.
Qed.

(** The key "b" lives at worker 0 of two. *)
Definition small_strings (w : nat) : TypedStore.store := match w with 0 => put (B "b") (VStr (B "xyz")) ∅ | _ => ∅ end.

Lemma small_strings_spread : ∃ c, spread c 2 small_strings.
Proof.
  destruct (small_string (B "b") (B "xyz")) as [c0 [_ H0]]. assert (H1 : stands (db small_typed) ∅) by by apply fresh_stands.
  exists (MkCtx _ (ctx_db c0) 0 2 {[1 := ctx_db (db small_typed)]} None [] (ctx_more c0)). split; [done|]. split; [cbn; lia|].
  intros w Hw. destruct w as [|[|w]]; [exact H0| |lia]. exists (ctx_db (db small_typed)). by split; [|apply H1].
Qed.

