(* ===== verification/StringServer.v ===== *)
(** * A server of string commands

    The executor with the registry of the string commands and of the transaction
    commands: what clients do through it, transactions included, can be rebuilt
    from the log. *)
From Stdlib Require Import SpecFloat.
From S2P Require Import Prelude.
From S2P Require Import Simd.
From S2P Require Import Numbers.
From S2P Require Import Text.
From S2P Require Import RespTypes.
From S2P Require Import Executor.
From S2P Require Import KeyMetadata.
From S2P Require Import Eviction.
From S2P Require Import Rocks.
From S2P Require Import Database.
From S2P Require Import DatabaseTypes.
From S2P Require Import DatabaseStrings.
From S2P Require Import Commands.
From S2P Require Import StringCommands.
From S2P Require Import StringLog.
From S2P Require Import SmallPlatform.

#[local] Arguments DInsert : simpl never.
#[local] Arguments DGet : simpl never.

Create HintDb implementations discriminated.
#[global] Hint Constants Opaque : implementations.

Section StringServer.
Context {P : Platform} {HD : DoubleText}.
Implicit Types (c d : Ctx) (key : bytes) (now : Z) (e : bytes * list bytes).

(** ** Replaying the log *)

(** The handler of a name in the table. *)
Fixpoint find_handler {T} (name : bytes) (table : list (bytes * (Z * RoutingStrategy * bool * T))) : option T :=
  match table with
  | [] => None
  | (n, (_, _, _, h)) :: table => if decide (n = name) then Some h else find_handler name table
  end.

Definition replay now c e : Ctx :=
  match find_handler e.1 string_table with
  | Some h => (run (h now (MkCommand e.1 (bulk <$> e.2))) c).1
  | None => c
  end.

(** The commands that are logged, with the least number of their arguments and
    whether it is the only one. *)
Definition log_shapes : list (bytes * (nat * bool)) :=
  [(B "SET", (2, false)); (B "DEL", (1, false)); (B "MSET", (2, false)); (B "MSETNX", (2, false)); (B "INCR", (1, true));
   (B "DECR", (1, true)); (B "INCRBY", (2, true)); (B "DECRBY", (2, true)); (B "APPEND", (2, true)); (B "GETSET", (2, true));
   (B "SETEX", (3, true)); (B "SETNX", (2, true)); (B "SETRANGE", (3, true))].

Definition well_shaped e : Prop :=
  ∃ n exact, (e.1, (n, exact)) ∈ log_shapes ∧ if (exact : bool) then length e.2 = n else n ≤ length e.2.

Definition replay_log now (log : list (bytes * list bytes)) c : Ctx := foldl (replay now) c log.

(** From [c] to [c'] the log got entries that lead from the strings of [c] to
    those of [c'], at any time and in any other context. *)
Definition logged c c' : Prop :=
  plain c' ∧ ∃ log, ctx_log c' = ctx_log c ++ log ∧ Forall well_shaped log ∧
    ∀ now d, plain d → cstrs d = cstrs c → moves d (cstrs c') log (replay_log now log d).

Lemma logged_refl c : plain c → logged c c.
Proof.
  intros H. split; [done|]. exists []. split; [by rewrite app_nil_r|]. split; [done|]. intros now d Hd E. rewrite <- E. by apply moves_refl.
Qed.

Lemma logged_trans c1 c2 c3 : logged c1 c2 → logged c2 c3 → logged c1 c3.
Proof.
  intros (_ & l1 & E1 & F1 & H1) (Hp & l2 & E2 & F2 & H2). split; [done|]. exists (l1 ++ l2).
  split; [by rewrite E2, E1, app_assoc|]. split; [by apply Forall_app|].
  intros now d Hd E. unfold replay_log. rewrite foldl_app. fold (replay_log now l1 d).
  destruct (H1 now d Hd E) as (Hp1 & Hs1 & Hl1). destruct (H2 now _ Hp1 Hs1) as (Hp2 & Hs2 & Hl2).
  split; [done|]. split; [done|]. fold (replay_log now l2 (replay_log now l1 d)). by rewrite Hl2, Hl1, app_assoc.
Qed.

(** ** The entries replay *)

(** The entries of a specification are commands of the same specification. *)
Definition replayable (ok : list bytes → Prop) (h : Z → Command → M CommandResult) (s : spec) : Prop :=
  ∀ args m e m', s args m = Some (e, m') →
    well_shaped e ∧ find_handler e.1 string_table = Some h ∧ ok e.2 ∧ s e.2 m = Some (e, m').

Lemma implements_logged ok h s now name args c :
  implements ok h s → replayable ok h s → ok args → plain c →
  logged c (run (h now (MkCommand name (bulk <$> args))) c).1.
Proof.
  intros Hi Hr Hok Hp. assert (Hc := Hi now name args c Hok Hp). unfold wp, leaves in Hc. unfold run.
  destruct (h now _ c) as [c' r]. cbn [fst snd] in Hc. replace (match r with inl _ => _ | inr _ => _ end).1 with c' by (by destruct r).
  destruct (s args (cstrs c)) as [[e m]|] eqn:E.
  2:{ destruct Hc as (H1 & H2 & H3). split; [done|]. exists []. split; [done|]. split; [done|]. intros now' d Hd Ed. rewrite H2, <- Ed. by apply moves_refl. }
  destruct Hc as (H1 & H2 & H3). destruct (Hr _ _ _ _ E) as (Hw & Hf & Ho & Es). split; [done|].
  exists [e]. split; [done|]. split; [by constructor|]. intros now' d Hd Ed. cbn [replay_log foldl].
  unfold replay. rewrite Hf. assert (Hc := Hi now' e.1 e.2 d Ho Hd).
  unfold wp, leaves in Hc. rewrite Ed, Es in Hc. unfold run. destruct (h now' _ d) as [d' r']. cbn [fst snd] in Hc.
  rewrite H2. by destruct r'.
Qed.

Lemma read_replayable ok h : replayable ok h spec_read.
Proof. intros args m e m' E. discriminate E. Qed.

Lemma paired_two args : paired args = true → 2 ≤ length args.
Proof. unfold paired. destruct args as [|? [|? args]]; cbn; [done..|lia]. Qed.

(** The entry has the arguments of the command. *)
Tactic Notation "same_entry" reference(s) :=
  let E := fresh in intros args m e m' E; assert (E' := E);
  unfold s, mbind, option_bind in E'; repeat case_match; try discriminate; injection E' as <- <-;
  (split; [eexists _, _; (split; [solve [repeat constructor]|])|by repeat split]); cbn [length fst snd]; first [lia|apply paired_two; b2p; done].

Lemma append_replayable : replayable always HandleAppend spec_append.
Proof. same_entry spec_append. Qed.
Lemma getset_replayable : replayable always HandleGetSet spec_getset.
Proof. same_entry spec_getset. Qed.
Lemma setnx_replayable : replayable always HandleSetNx spec_setnx.
Proof. same_entry spec_setnx. Qed.
Lemma setex_replayable : replayable always HandleSetEx spec_setex.
Proof. same_entry spec_setex. Qed.
Lemma setrange_replayable : replayable always HandleSetRange spec_setrange.
Proof. same_entry spec_setrange. Qed.
Lemma del_replayable : replayable always HandleDel spec_del.
Proof. same_entry spec_del. Qed.
Lemma mset_replayable : replayable always HandleMSet spec_mset.
Proof. same_entry spec_mset. Qed.
Lemma msetnx_replayable : replayable always HandleMSetNx spec_msetnx.
Proof. same_entry spec_msetnx. Qed.
Lemma incr_replayable : replayable always HandleIncr (spec_incr (B "INCR") 1).
Proof. same_entry spec_incr. Qed.
Lemma decr_replayable : replayable always HandleDecr (spec_incr (B "DECR") (-1)).
Proof. same_entry spec_incr. Qed.
Lemma incrby_replayable : replayable always HandleIncrBy (spec_incrby (B "INCRBY") 1).
Proof. same_entry spec_incrby. Qed.
Lemma decrby_replayable : replayable always HandleDecrBy (spec_incrby (B "DECRBY") (-1)).
Proof. same_entry spec_incrby. Qed.

(** SET is logged without its options. *)
Lemma set_replayable : replayable no_expiry HandleSet spec_set.
Proof.
  intros args m e m' E. unfold spec_set in E. repeat case_match; try discriminate. injection E as <- <-. split; [|by repeat constructor].
  eexists _, _. split; [by constructor|]. cbn. lia.
Qed.

#[local] Hint Resolve get_implements set_implements del_implements mget_implements mset_implements msetnx_implements
  exists_implements incr_implements decr_implements incrby_implements decrby_implements append_implements
  strlen_implements getset_implements setex_implements setnx_implements getrange_implements substr_implements setrange_implements
  stralgo_implements echo_implements lcs_implements dump_implements getex_implements : implementations.
#[local] Hint Resolve append_replayable getset_replayable setnx_replayable setex_replayable setrange_replayable del_replayable
  mset_replayable msetnx_replayable incr_replayable decr_replayable incrby_replayable decrby_replayable set_replayable
  read_replayable : implementations.

(** ** The commands *)

(** The commands that change strings and log nothing. *)
Definition unlogged : list bytes :=
  [B "INCRBYFLOAT"; B "PSETEX"; B "COPY"; B "RESTORE"; B "UNLINK"; B "GETDEL"].

(** The condition on the arguments. *)
Definition args_ok (name : bytes) (args : list bytes) : Prop := name = B "SET" → no_expiry args.

(** A command of clients: bulk strings, logged, SET without an expiry time. *)
Definition proper (cmd : Command) : Prop :=
  let name := NormalizeUppercase (cmd_name cmd) in
  all_bulk (cmd_args cmd) = true ∧ (name ∉ unlogged) ∧ args_ok name (arg_value <$> cmd_args cmd).

#[global] Instance proper_dec cmd : Decision (proper cmd).
Proof. unfold proper, args_ok, no_expiry. cbv zeta. apply _. Defined.

Lemma all_bulk_args l : all_bulk l = true → (bulk <$> (arg_value <$> l)) = l.
Proof.
  induction l as [|[t v] l IH]; [done|]. intros H. apply andb_true_iff in H as [H1 H2]. cbn. rewrite IH by done.
  apply bool_decide_eq_true in H1. cbn in H1. by subst t.
Qed.

Lemma table_logged name arity route write h : 
  (name, (arity, route, write, h)) ∈ string_table → name ∉ unlogged →
  ∃ ok s, implements ok h s ∧ replayable ok h s ∧ ∀ args, args_ok name args → ok args.
Proof.
  intros Hin Hn. unfold string_table in Hin.
  repeat (apply elem_of_cons in Hin as [Hin|Hin]; [injection Hin as -> -> -> -> ->|]); [..|by apply not_elem_of_nil in Hin].
  all: try (exfalso; apply Hn; solve [repeat constructor]).
  all: eexists _, _; (split; [solve [eauto with implementations]|split; [solve [eauto with implementations]|]]).
  all: try done. intros args Ha. by apply Ha.
Qed.

(** ** The executor *)

Section Server.
Context (permissions : option ((bytes → bool) * (bytes → bool))) (slot_check : Command → bytes)
  (self : Z) (shard : bytes → Z) (master : bool).
Implicit Types (w : Worker Ctx) (id : Z) (cmd : Command) (st : Store).

Definition string_env now : Env Ctx :=
  MkEnv Ctx (list_to_map (string_entries now ++ transaction_entries)) (λ key c, DbGetKeyVersion key (ctx_db c))
    permissions slot_check self shard master.

(** The commands of clients, each at its time. *)
Definition serve (trace : list (Z * Z * Command)) w : Worker Ctx :=
  foldl (λ w '(now, id, cmd), (process_client (string_env now) id cmd w).1) w trace.

Definition queues_ok st : Prop := ∀ id, Forall proper (GetQueuedCommands id st).

(** The databases are logged and the queues stay proper. *)
Definition tracks w w' : Prop := logged (db w) (db w') ∧ queues_ok (store w').

Lemma queued_insert id id' s st :
  GetQueuedCommands id' (<[id := s]> st) = if decide (id = id') then queued_commands s else GetQueuedCommands id' st.
Proof. unfold GetQueuedCommands. destruct (decide (id = id')) as [<-|]; [by rewrite lookup_insert_eq|by rewrite lookup_insert_ne]. Qed.

Lemma queued_delete id id' st : GetQueuedCommands id' (delete id st) = if decide (id = id') then [] else GetQueuedCommands id' st.
Proof. unfold GetQueuedCommands. destruct (decide (id = id')) as [<-|]; [by rewrite lookup_delete_eq|by rewrite lookup_delete_ne]. Qed.

Lemma queued_get_state id st : queued_commands (get_state id st) = GetQueuedCommands id st.
Proof. unfold get_state, GetQueuedCommands. by destruct (st !! id). Qed.

Lemma queues_insert id s st : queues_ok st → Forall proper (queued_commands s) → queues_ok (<[id := s]> st).
Proof. intros H Hs id'. rewrite queued_insert. destruct (decide _); auto. Qed.

Lemma queues_delete id st : queues_ok st → queues_ok (delete id st).
Proof. intros H id'. rewrite queued_delete. by destruct (decide _). Qed.

Lemma queues_erase id st : queues_ok st → queues_ok (MaybeErase id st).
Proof. intros H. unfold MaybeErase. repeat case_match; auto using queues_delete. Qed.

Lemma queues_watch id key v st : queues_ok st → queues_ok (WatchKey id key v st).
Proof. intros H. apply queues_insert; [done|]. cbn. rewrite queued_get_state. apply H. Qed.

Lemma queues_unwatch id st : queues_ok st → queues_ok (ClearWatchedKeys id st).
Proof.
  intros H. unfold ClearWatchedKeys. destruct (st !! id) as [s|] eqn:E; [|done]. apply queues_erase, queues_insert; [done|].
  specialize (H id). unfold GetQueuedCommands in H. by rewrite E in H.
Qed.

Lemma queues_clear id st : queues_ok st → queues_ok (ClearQueuedCommands id st).
Proof. intros H. unfold ClearQueuedCommands. destruct (st !! id); [|done]. by apply queues_erase, queues_insert. Qed.

Lemma queues_handler now id cmd h w :
  match h with HData _ => False | _ => True end → queues_ok (store w) →
  db (run_handler (string_env now) id cmd h w).1 = db w ∧ queues_ok (store (run_handler (string_env now) id cmd h w).1).
Proof.
  intros Hh H. destruct h as [| | | | |f]; cbn [run_handler]; [| | | | |done].
  - unfold HandleMulti. destruct (IsInTransaction _ _); [done|]. split; [done|]. by apply queues_insert.
  - unfold HandleExec. destruct (negb _); [done|]. split; [done|]. by apply queues_delete, queues_unwatch, queues_clear.
  - unfold HandleDiscard. destruct (negb _); [done|]. split; [done|]. by apply queues_delete.
  - unfold HandleWatch. destruct (_ <? _); [done|]. destruct (IsInTransaction _ _); [done|]. split; [done|]. cbn [with_store store fst].
    revert H. generalize (store w). induction (cmd_args cmd) as [|a l IH]; intros st H; [done|]. cbn [foldl].
    apply IH. destruct (arg_type a); auto using queues_watch.
  - split; [done|]. by apply queues_unwatch.
Qed.

(** The entries of the registry. *)
Lemma registered_entry now name (en : CommandEntry Ctx) :
  commands_ (string_env now) !! name = Some en →
  (∃ h a r b, handler en = HData (λ _ cmd, run (h now cmd)) ∧ (name, (a, r, b, h)) ∈ string_table) ∨
  match handler en with HData _ => False | _ => True end.
Proof.
  intros H. apply elem_of_list_to_map_2, elem_of_app in H as [H|H].
  - left. apply list_elem_of_fmap in H as ([n [[[a r] b] h]] & E & Hin). injection E as -> ->. by exists h, a, r, b.
  - right. unfold transaction_entries in H. repeat (apply elem_of_cons in H as [H|H]; [by injection H as -> ->|]). by apply not_elem_of_nil in H.
Qed.

Lemma tracks_refl w : plain (db w) → queues_ok (store w) → tracks w w.
Proof. intros H1 H2. split; [by apply logged_refl|done]. Qed.

Lemma tracks_trans w1 w2 w3 : tracks w1 w2 → tracks w2 w3 → tracks w1 w3.
Proof. intros [H1 _] [H2 H3]. split; [by eapply logged_trans|done]. Qed.

Lemma tracks_plain w w' : tracks w w' → plain (db w').
Proof. by intros [[H _] _]. Qed.

Lemma RegistryExecute_tracks now id cmd w :
  proper cmd → plain (db w) → queues_ok (store w) → tracks w (RegistryExecute (string_env now) id cmd w).1.
Proof.
  intros (Hb & Hn & Ha) Hp Hq. assert (H0 := tracks_refl w Hp Hq). unfold RegistryExecute. destruct (bool_decide _); [done|]. cbv zeta.
  destruct (commands_ _ !! _) as [en|] eqn:E; [|done]. destruct (wrong_arity en cmd); [done|]. destruct (no_permission _ _ _); [done|].
  apply registered_entry in E as [(h & a & r & b & -> & Hin)|Hh].
  2:{ destruct (queues_handler now id cmd (handler en) w Hh Hq) as [E1 E2]. split; [|done]. rewrite E1. by apply logged_refl. }
  destruct (table_logged _ _ _ _ _ Hin Hn) as (ok & s & Hi & Hr & Hok).
  assert (Hl := implements_logged ok h s now (cmd_name cmd) (arg_value <$> cmd_args cmd) (db w) Hi Hr (Hok _ Ha) Hp).
  rewrite all_bulk_args in Hl by done. destruct cmd as [name args]. cbn [run_handler cmd_name cmd_args] in *.
  destruct (run _ _) as [c o]. by split.
Qed.

Lemma ShardExecute_tracks now id cmd w :
  proper cmd → plain (db w) → queues_ok (store w) → tracks w (ShardExecute (string_env now) id cmd w).1.
Proof.
  intros Hc Hp Hq. unfold ShardExecute. destruct (negb _); [by apply tracks_refl|].
  assert (H := RegistryExecute_tracks now id cmd w Hc Hp Hq). by destruct (RegistryExecute _ _ _ _) as [w' []].
Qed.

Lemma exec_queued_tracks now id queued : ∀ w,
  Forall proper queued → plain (db w) → queues_ok (store w) → tracks w (exec_queued (string_env now) id queued w).1.1.
Proof.
  induction queued as [|cmd queued IH]; intros w Hc Hp Hq; [by apply tracks_refl|]. inversion Hc; subst. cbn [exec_queued].
  destruct (negb _).
  - assert (H := IH w ltac:(done) Hp Hq). by destruct (exec_queued _ _ _ _) as [[w1 i1] a1].
  - assert (H := ShardExecute_tracks now id cmd w ltac:(done) Hp Hq). destruct (ShardExecute _ _ _ _) as [w0 item]. cbn [fst] in H.
    assert (H' := IH w0 ltac:(done) (tracks_plain _ _ H) (proj2 H)). destruct (exec_queued _ _ _ _) as [[w1 i1] a1].
    by apply (tracks_trans _ w0).
Qed.

Lemma process_client_tracks now id cmd w :
  proper cmd → plain (db w) → queues_ok (store w) → tracks w (process_client (string_env now) id cmd w).1.
Proof.
  intros Hc Hp Hq. assert (H0 := tracks_refl w Hp Hq). assert (HS := ShardExecute_tracks now id cmd w Hc Hp Hq).
  assert (Hd : tracks w (with_store (DiscardTransaction id) w)) by (split; [by apply logged_refl|by apply queues_delete]).
  unfold process_client. cbv zeta. destruct (_ && negb (is_transaction_control _)).
  { destruct (negb _); [done|]. split; [by apply logged_refl|]. apply queues_insert; [done|]. cbn. rewrite queued_get_state.
    apply Forall_app. split; [apply Hq|by constructor]. }
  destruct (_ && negb (are_watch_keys_local _ _)); [done|]. destruct (_ && _).
  - destruct (IsWatchedKeyModified _ _ _); [done|].
    assert (H := exec_queued_tracks now id (GetQueuedCommands id (store w)) (with_store (DiscardTransaction id) w) (Hq id) Hp (proj2 Hd)).
    destruct (exec_queued _ _ _ _) as [[w1 i1] a1]. by apply (tracks_trans _ _ _ Hd).
  - destruct (_ =? _)%Z; [|done]. by destruct (ShardExecute _ _ _ _).
Qed.

Lemma serve_tracks trace : ∀ w,
  Forall (λ x, proper x.2) trace → plain (db w) → queues_ok (store w) → tracks w (serve trace w).
Proof.
  induction trace as [|[[now id] cmd] trace IH]; intros w Ht Hp Hq; [by apply tracks_refl|]. inversion Ht; subst.
  assert (H := process_client_tracks now id cmd w ltac:(done) Hp Hq). cbn [serve foldl].
  apply (tracks_trans _ _ _ H), IH; [done|by apply tracks_plain in H|apply H].
Qed.
End Server.

(** ** What the log loses *)

Definition command (name : bytes) (args : list bytes) : Command := MkCommand name (bulk <$> args).

(** One command after the other. *)
Definition run_all now (cmds : list (bytes * list bytes)) c : Ctx := foldl (replay now) c cmds.

Lemma getdel_deletes now name key c0 m log c :
  moves c0 m log c → wp (HandleGetDel now (command name [key])) (λ _ c', moves c0 (delete key m) log c') c.
Proof.
  intros Hm. unfold HandleGetDel. repeat wp_step; [|discriminate..]. change (arg_text 0 _) with key. destruct (m !! key) eqn:E.
  - apply wp_bind. destruct Hm as ((Hp & Hw) & Hs & Hl). destruct (DbDel_plain key _ Hp) as [H1 H2]. unfold wp, on_db.
    destruct (DbDel key (ctx_db c')) as [db b]. cbn [fst snd] in *. split; [done|]. split; [|done].
    by rewrite <- Hs.
  - wp_step. by rewrite delete_id.
Qed.

Lemma run_wp (m : M CommandResult) (Q : Ctx → Prop) c : wp m (λ _ c', Q c') c → Q (run m c).1.
Proof. unfold wp, run. by destruct (m c) as [c' []]. Qed.

Lemma replay_wp now name args h (Q : Ctx → Prop) c :
  find_handler name string_table = Some h → wp (h now (command name args)) (λ _ c', Q c') c → Q (replay now c (name, args)).
Proof. intros Hh H. unfold replay. cbn [fst snd]. rewrite Hh. by apply run_wp. Qed.

Lemma replay_set now key value c :
  plain c → moves c (<[key := value]> (cstrs c)) [(B "SET", [key; value])] (replay now c (B "SET", [key; value])).
Proof. intros Hp. eapply replay_wp; [reflexivity|]. by apply (set_implements now (B "SET") [key; value] c ltac:(constructor)). Qed.

(** A deleted value comes back. GETDEL is not logged: after SET and GETDEL of a
    key the key is gone, and replaying the log brings its value back. *)
Theorem getdel_comes_back now now' key value c d :
  plain c → plain d → cstrs d = cstrs c →
  let c' := run_all now [(B "SET", [key; value]); (B "GETDEL", [key])] c in
  let log := drop (length (ctx_log c)) (ctx_log c') in
  cstrs c' !! key = None ∧ cstrs (replay_log now' log d) !! key = Some value.
Proof.
  intros Hp Hd E. cbn [run_all foldl]. cbv zeta. assert (H1 := replay_set now key value c Hp). set (c1 := replay now c _) in *. clearbody c1.
  assert (H3 : moves c (delete key (<[key := value]> (cstrs c))) [(B "SET", [key; value])] (replay now c1 (B "GETDEL", [key]))).
  { eapply replay_wp; [reflexivity|]. by apply getdel_deletes. }
  destruct H3 as (_ & -> & ->). rewrite lookup_delete_eq, drop_app_length. split; [done|].
  destruct (replay_set now' key value d Hd) as (_ & H4 & _). unfold replay_log. cbn [foldl]. by rewrite H4, lookup_insert_eq.
Qed.

(** ** Expiry times and the log *)

Definition expiry_of key c : option Z := m ← DGet key (metadata_manager_ (ctx_db c)); expire_time_ms m.

Lemma update_entry_known (f : KeyMetadata → KeyMetadata) key k (m : Manager) :
  is_Some (DGet key m) → is_Some (DGet key (update_entry f k m).1).
Proof.
  intros H. unfold update_entry. destruct (DGet k m) eqn:E; [|done]. cbn [fst]. rewrite DGet_DInsert. by destruct (decide _).
Qed.

(** A new string is registered. *)
Lemma DbSet_registers now key value (db0 : Database) :
  plain_db db0 → strs db0 !! key = None → is_Some (DGet key (metadata_manager_ (DbSet now key value db0))).
Proof.
  intros H Hk. unfold DbSet. cbv zeta. change (DGet key (strings_ db0)) with (strs db0 !! key). rewrite Hk. cbn [default].
  set (db1 := register _ _ _). assert (H1 : plain_db db1) by by destruct db0.
  assert (E1 : is_Some (DGet key (metadata_manager_ db1))).
  { unfold db1, register, RegisterKey. destruct db0. cbn. rewrite DGet_DInsert, decide_True by done. by eexists. }
  clearbody db1. destruct (plain_track_access now key db1 H1) as [H2 _].
  assert (E2 : is_Some (DGet key (metadata_manager_ (track_access now key db1)))).
  { unfold track_access, touch. destruct (ShouldTrackAccessInfo db1); [|done]. destruct db1. by apply update_entry_known. }
  set (db2 := track_access now key db1) in *. clearbody db2. destruct (plain_track_memory (UpdateString key [] value) db2 H2) as [H3 _].
  rewrite plain_check, plain_persist by done. unfold track_memory in *. destruct (memory_tracker_ db2); [|done].
  destruct db2. by apply update_entry_known.
Qed.

(** SET with PX on a new key: the expiry time and the log. *)
Lemma set_px now name key value ms c :
  plain c → cstrs c !! key = None → AbslNumbersOk → (0 ≤ ms < 2 ^ 63)%Z → (0 < now + ms < 2 ^ 63)%Z →
  let c' := (run (HandleSet now (command name [key; value; B "PX"; print_int ms])) c).1 in
  expiry_of key c' = Some (now + ms)%Z ∧
  ctx_log c' = ctx_log c ++ [(B "SET", [key; value; B "PX"; print_int (now + ms)%Z])].
Proof.
  intros Hp Hk HA Hms Hn. cbv zeta. 
  apply (run_wp _ (λ c', expiry_of key c' = Some (now + ms)%Z ∧
    ctx_log c' = ctx_log c ++ [(B "SET", [key; value; B "PX"; print_int (now + ms)%Z])])).
  unfold HandleSet. apply wp_bind, wp_require; [intros _|discriminate]. apply wp_bind, wp_require; [intros _|discriminate].
  cbv beta iota zeta. change (arg_text 0 _) with key. change (arg_text 1 _) with value.
  assert (Eo : set_options now (drop 2 (cmd_args (command name [key; value; B "PX"; print_int ms]))) false false None =
    inl (false, false, Some (now + ms)%Z)).
  { transitivity (match SimpleAtoi (print_int ms) with
      | None => inr not_integer
      | Some n => if (n <? 0)%Z then inr (B "ERR invalid expire time") else inl (false, false, Some (i64 (now + n)))
      end); [reflexivity|]. rewrite SimpleAtoi_print by (unfold in_i64; lia). rewrite (proj2 (Z.ltb_ge ms 0)) by lia.
    rewrite i64_small; [done|unfold in_i64; lia]. }
  rewrite Eo. clear Eo. assert (Hm := moves_refl c Hp). repeat wp_step; [|discriminate].
  rewrite Hk. change (bool_decide (is_Some None)) with false. cbn [negb andb]. destruct Hm as ((Hp1 & Hw) & Hs & Hl). rewrite app_nil_r in Hl.
  rewrite <- Hs in Hk. assert (Hr := DbSet_registers now key value _ Hp1 Hk). destruct Hr as [m Hr].
  unfold wp, put_db, on_db, LogToAof, mbind, M_bind, mret, M_ret, DbSetExpireMs, on_metadata, SetExpireMs, update_entry.
  cbn [ctx_db fst snd]. rewrite Hr. cbn [fst snd ctx_log]. rewrite Hl. split; [|done]. unfold expiry_of. cbn [ctx_db].
  set (db1 := DbSet _ _ _ _). destruct db1. cbn. rewrite DGet_DInsert, decide_True by done. cbn. unfold MetaSetExpireMs.
  by rewrite (proj2 (Z.leb_gt _ _)) by lia.
Qed.

(** The expiry time of a SET is logged as a time of day after PX, which counts
    from the time of the command: replaying the entry puts the expiry as much
    later as the time it is replayed at. *)
Theorem replayed_expiry `{!AbslNumbersOk} now now' key value ms c d :
  plain c → plain d → cstrs c !! key = None → cstrs d !! key = None →
  (0 ≤ ms)%Z → (0 < now)%Z → (0 ≤ now')%Z → (now' + now + ms < 2 ^ 63)%Z →
  let c' := replay now c (B "SET", [key; value; B "PX"; print_int ms]) in
  let log := drop (length (ctx_log c)) (ctx_log c') in
  expiry_of key c' = Some (now + ms)%Z ∧ expiry_of key (replay_log now' log d) = Some (now' + (now + ms))%Z.
Proof.
  intros Hp Hd Hk Hk' H1 H2 H3 H4. cbv zeta.
  destruct (set_px now (B "SET") key value ms c Hp Hk _ ltac:(lia) ltac:(lia)) as [E1 E2].
  destruct (set_px now' (B "SET") key value (now + ms)%Z d Hd Hk' _ ltac:(lia) ltac:(lia)) as [E3 _].
  change (replay now c _) with (run (HandleSet now (command (B "SET") [key; value; B "PX"; print_int ms])) c).1.
  rewrite E1, E2, drop_app_length. by split.
Qed.
End StringServer.

(** ** Witnesses *)

#[local] Existing Instance small_platform.
#[local] Instance small_text : DoubleText := {| dtoa _ := []; atod _ := None |}.

Definition small_context : Ctx := MkCtx _ (fresh None None None kRedis None) 0 1 ∅ None [] (MkExtras _ ∅ None [] 0 false []).

(** A client in a transaction, and another one between its commands. *)
Definition small_trace : list (Z * Z * Command) :=
  [(1, 1, command (B "set") [B "a"; B "5"]); (2, 1, command (B "MULTI") []); (3, 1, command (B "INCR") [B "a"]);
   (4, 2, command (B "APPEND") [B "b"; B "x"]); (5, 1, command (B "DEL") [B "b"]); (6, 1, command (B "EXEC") []);
   (7, 2, command (B "SETRANGE") [B "b"; B "2"; B "yz"]); (8, 2, command (B "GETSET") [B "a"; B "7"]);
   (9, 2, command (B "SET") [B "a"; B "8"; B "NX"])]%Z.

Definition small_serve : list (Z * Z * Command) → Worker Ctx → Worker Ctx := serve None (λ _, []) 0 (λ _, 0)%Z true.

Lemma small_plain : plain small_context.
Proof. split; [done|]. cbn. lia. Qed.

Lemma getdel_comes_back_witness :
  let c' := run_all 5 [(B "SET", [B "k"; B "v"]); (B "GETDEL", [B "k"])] small_context in
  let log := drop (length (ctx_log small_context)) (ctx_log c') in
  cstrs c' !! B "k" = None ∧ cstrs (replay_log 9 log small_context) !! B "k" = Some (B "v").
Proof. apply getdel_comes_back; [exact small_plain..|reflexivity]. Defined.

Lemma replayed_expiry_witness :
  let c' := replay 1000 small_context (B "SET", [B "k"; B "v"; B "PX"; print_int 50]) in
  let log := drop (length (ctx_log small_context)) (ctx_log c') in
  expiry_of (B "k") c' = Some 1050%Z ∧ expiry_of (B "k") (replay_log 1020 log small_context) = Some 2070%Z.
Proof.
  apply (@replayed_expiry small_platform _ decimal_numbers_ok 1000 1020 (B "k") (B "v") 50 small_context small_context);
    [exact small_plain|exact small_plain|reflexivity|reflexivity|lia..].
Defined.
