(* ===== verification/AofWriter.v ===== *)
(** * The append-only file

    Models src/astra/persistence/aof_writer.hpp and [LogToAof] of
    src/astra/server/worker.hpp: the text of an entry, the buffer and the file,
    flushing and stopping, and the rewrite with its renames.  Writes of an open
    file succeed; opening and renaming may fail.  zstd is a function. *)
From S2P Require Import Prelude.
From S2P Require Import Simd.
From S2P Require Import Numbers.
From S2P Require Import Text.

(** ** Entries *)

Definition resp_line (s : bytes) : bytes := B "$" ++ print_u64 (zlen s) ++ CRLF ++ s ++ CRLF.

(** [LogToAof] *)
Definition aof_text (command : bytes) (args : list bytes) : bytes :=
  foldl (λ cmd_str arg, cmd_str ++ resp_line arg)
    (B "*" ++ print_u64 (u64 (zlen args + 1)) ++ CRLF ++ resp_line command) args.

Definition FormatRespCommand (cmd_name : bytes) (args : list bytes) : bytes :=
  foldl (λ result arg, result ++ resp_line arg)
    (B "*" ++ print_u64 (u64 (zlen args + 1)) ++ CRLF ++ resp_line cmd_name) args.

(** ** The writer *)

Inductive AofSyncPolicy := kAlways | kEverySec | kNever.
Inductive AofFormat := kResp | kFlatbuffers | kHybrid.

#[global] Instance AofSyncPolicy_eq_dec : EqDecision AofSyncPolicy.
Proof. solve_decision. Defined.

Record AofOptions := MkAofOptions {
  aof_path : bytes;
  sync_policy : AofSyncPolicy;
  format : AofFormat;
  compress : bool;
  compression_level : Z
}.

(** The directory and the contents of the files in it. *)
Record Files := MkFiles { directory : gmap bytes nat; contents : gmap nat bytes; next_inode : nat }.

(** [file_] is the file the stream is open on. *)
Record AofWriter := MkAofWriter {
  aof_options : AofOptions;
  file_ : option nat;
  buffer_ : bytes;
  buffer_size_ : Z;
  initialized_ : bool;
  running_ : bool;
  files : Files
}.

Class Zstd := { ZSTD_compress : Z → bytes → option bytes }.

Section AofWriter.
Context {Z0 : Zstd}.
Implicit Types (w : AofWriter) (fs : Files).

(** ** Files *)

Definition read_path (path : bytes) fs : option bytes := i ← directory fs !! path; contents fs !! i.

Definition append_inode (i : nat) (s : bytes) fs : Files :=
  MkFiles (directory fs) (<[i := default [] (contents fs !! i) ++ s]> (contents fs)) (next_inode fs).

(** Opening for appending makes the file when there is none. *)
Definition open_append (path : bytes) fs : nat * Files :=
  match directory fs !! path with
  | Some i => (i, fs)
  | None => (next_inode fs, MkFiles (<[path := next_inode fs]> (directory fs)) (<[next_inode fs := []]> (contents fs)) (S (next_inode fs)))
  end.

(** Opening for writing empties it. *)
Definition open_truncate (path : bytes) fs : nat * Files :=
  let '(i, fs) := open_append path fs in
  (i, MkFiles (directory fs) (<[i := []]> (contents fs)) (next_inode fs)).

Definition path_exists (path : bytes) fs : bool := bool_decide (is_Some (directory fs !! path)).
Definition rename (from to : bytes) fs : Files :=
  match directory fs !! from with
  | Some i => MkFiles (<[to := i]> (delete from (directory fs))) (contents fs) (next_inode fs)
  | None => fs
  end.
Definition remove (path : bytes) fs : Files := MkFiles (delete path (directory fs)) (contents fs) (next_inode fs).

(** ** Appending and flushing *)

Definition with_buffer (b : bytes) (n : Z) w : AofWriter :=
  MkAofWriter (aof_options w) (file_ w) b n (initialized_ w) (running_ w) (files w).
Definition with_running (r : bool) w : AofWriter :=
  MkAofWriter (aof_options w) (file_ w) (buffer_ w) (buffer_size_ w) (initialized_ w) r (files w).
Definition with_files fs w : AofWriter :=
  MkAofWriter (aof_options w) (file_ w) (buffer_ w) (buffer_size_ w) (initialized_ w) (running_ w) fs.
Definition with_file f w : AofWriter :=
  MkAofWriter (aof_options w) f (buffer_ w) (buffer_size_ w) (initialized_ w) (running_ w) (files w).

(** [file_.write]: a closed stream writes nothing and is not good. *)
Definition write (s : bytes) w : AofWriter :=
  match file_ w with Some i => with_files (append_inode i s (files w)) w | None => w end.
Definition good w : bool := bool_decide (is_Some (file_ w)).

(** The four bytes of a number, the lowest first. *)
Definition le32 (n : Z) : bytes := (λ i, of_code (Z.land (Z.shiftr n (8 * i)) 255)) <$> [0; 1; 2; 3]%Z.

Definition FlushCompressed w : AofWriter * bool :=
  let block :=
    match ZSTD_compress (compression_level (aof_options w)) (buffer_ w) with
    | None => buffer_ w
    | Some c => le32 (u32 (zlen c)) ++ c
    end in
  let w := with_buffer [] 0 (write block w) in
  (w, good w).

Definition Flush w : AofWriter * bool :=
  if decide (buffer_ w = []) then (w, true)
  else if compress (aof_options w) then FlushCompressed w
  else let w := with_buffer [] 0 (write (buffer_ w) w) in (w, good w).

(** [sync_with_stdio] of a stream does not touch the file. *)
Definition Sync w : AofWriter * bool :=
  let '(w, ok) := Flush w in (w, ok).

Definition Append (command : bytes) w : AofWriter * bool :=
  if negb (initialized_ w) then (w, false)
  else
    let w := with_buffer (buffer_ w ++ command) (u64 (buffer_size_ w + zlen command)) w in
    if decide (sync_policy (aof_options w) = kAlways) then Sync w else (w, true).

Definition AppendSet (key value : bytes) : AofWriter → AofWriter * bool := Append (FormatRespCommand (B "SET") [key; value]).
Definition AppendDel (key : bytes) : AofWriter → AofWriter * bool := Append (FormatRespCommand (B "DEL") [key]).
Definition AppendHSet (key field value : bytes) : AofWriter → AofWriter * bool :=
  Append (FormatRespCommand (B "HSET") [key; field; value]).
Definition AppendHDel (key field : bytes) : AofWriter → AofWriter * bool := Append (FormatRespCommand (B "HDEL") [key; field]).
Definition AppendSAdd (key member : bytes) : AofWriter → AofWriter * bool := Append (FormatRespCommand (B "SADD") [key; member]).
Definition AppendSRem (key member : bytes) : AofWriter → AofWriter * bool := Append (FormatRespCommand (B "SREM") [key; member]).
Definition AppendZRem (key member : bytes) : AofWriter → AofWriter * bool := Append (FormatRespCommand (B "ZREM") [key; member]).
Definition AppendLPush (key value : bytes) : AofWriter → AofWriter * bool := Append (FormatRespCommand (B "LPUSH") [key; value]).
Definition AppendRPush (key value : bytes) : AofWriter → AofWriter * bool := Append (FormatRespCommand (B "RPUSH") [key; value]).
Definition AppendLPop (key : bytes) : AofWriter → AofWriter * bool := Append (FormatRespCommand (B "LPOP") [key]).
Definition AppendRPop (key : bytes) : AofWriter → AofWriter * bool := Append (FormatRespCommand (B "RPOP") [key]).
Definition AppendExpire (key : bytes) (seconds : Z) : AofWriter → AofWriter * bool :=
  Append (FormatRespCommand (B "EXPIRE") [key; print_int seconds]).
Definition AppendPExpire (key : bytes) (ms : Z) : AofWriter → AofWriter * bool :=
  Append (FormatRespCommand (B "PEXPIRE") [key; print_int ms]).

(** ** Starting and stopping *)

(** [opens] says whether the file can be opened. *)
Definition AofInit (options : AofOptions) (opens : bool) w : AofWriter * bool :=
  if negb opens then (MkAofWriter options (file_ w) (buffer_ w) (buffer_size_ w) (initialized_ w) (running_ w) (files w), false)
  else
    let '(i, fs) := open_append (aof_path options) (files w) in
    let running := if decide (sync_policy options = kEverySec) then true else running_ w in
    (MkAofWriter options (Some i) (buffer_ w) (buffer_size_ w) true running fs, true).

(** Only a writer with a running thread flushes. *)
Definition Stop w : AofWriter :=
  if negb (running_ w) then w
  else with_file None (Flush (with_running false w)).1.

(** A turn of the thread that syncs every second. *)
Definition SyncThread w : AofWriter := if running_ w then (Sync w).1 else w.

Definition GetFileSize w : Z :=
  match file_ w with Some i => zlen (default [] (contents (files w) !! i)) | None => 0%Z end.
Definition GetBufferSize w : Z := buffer_size_ w.

(** ** Rewriting *)

(** What succeeds: making the temporary file, the renames, opening again. *)
Record Luck := MkLuck { temp_opens : bool; backup_renames : bool; final_renames : bool; restores : bool; reopens : bool }.

Definition temp_path (path : bytes) : bytes := path ++ B ".tmp-rewrite".
Definition backup_path (path : bytes) : bytes := path ++ B ".backup".

(** The temporary file, the backup of the old file, and the renames. *)
Definition swap_files (luck : Luck) (final data : bytes) fs : Files * bool :=
  let '(i, fs) := open_truncate (temp_path final) fs in
  let fs := append_inode i data fs in
  let fs := if path_exists final fs && backup_renames luck then rename final (backup_path final) fs else fs in
  if negb (final_renames luck) then
    (if path_exists (backup_path final) fs && restores luck then rename (backup_path final) final fs else fs, false)
  else
    let fs := rename (temp_path final) final fs in
    (if path_exists (backup_path final) fs then remove (backup_path final) fs else fs, true).

Definition Rewrite (luck : Luck) (data : bytes) w : AofWriter * bool :=
  if negb (initialized_ w) then (w, false)
  else
    let was_running := running_ w in
    let w := (Flush (with_running false w)).1 in
    if negb (temp_opens luck) then (with_running was_running w, false)
    else
      let '(fs, renamed) := swap_files luck (aof_path (aof_options w)) data (files w) in
      if negb renamed then (with_files fs w, false)
      else
        let w := with_file None (with_files fs w) in
        if negb (reopens luck) then (w, false)
        else
          let '(i, fs) := open_append (aof_path (aof_options w)) (files w) in
          let w := with_file (Some i) (with_files fs w) in
          (if was_running && bool_decide (sync_policy (aof_options w) = kEverySec) then with_running true w else w, true).

(** ** What reaches the file *)

Definition on_disk w : bytes := default [] (read_path (aof_path (aof_options w)) (files w)).

(** The file and what will follow. *)
Definition logged_bytes w : bytes := on_disk w ++ buffer_ w.

(** Open on the file of its path, without compression. *)
Definition writer_ok w : Prop :=
  initialized_ w = true ∧ compress (aof_options w) = false ∧
  ∃ i s, file_ w = Some i ∧ directory (files w) !! aof_path (aof_options w) = Some i ∧ contents (files w) !! i = Some s.

Lemma Flush_ok w :
  writer_ok w → writer_ok (Flush w).1 ∧ buffer_ (Flush w).1 = [] ∧ on_disk (Flush w).1 = logged_bytes w ∧
  running_ (Flush w).1 = running_ w.
Proof.
  intros (Hi & Hc & i & s & Hf & Hd & Hs). unfold Flush. destruct (decide _) as [E|E].
  { unfold logged_bytes. rewrite E, app_nil_r. repeat split; eauto 10. }
  rewrite Hc. destruct w as [o f b n ini run fs]. cbn in *. subst f. unfold write. cbn.
  split; [|split; [done|split; [|done]]].
  - split; [done|]. split; [done|]. exists i, (s ++ b). cbn. by rewrite lookup_insert_eq, Hs.
  - unfold logged_bytes, on_disk, read_path. cbn. rewrite Hd. cbn. rewrite lookup_insert_eq. by rewrite ?Hs.
Qed.

Lemma Append_ok command w :
  writer_ok w → writer_ok (Append command w).1 ∧ logged_bytes (Append command w).1 = logged_bytes w ++ command ∧
  running_ (Append command w).1 = running_ w.
Proof.
  intros Hw. unfold Append. destruct Hw as (Hi & Hw). rewrite Hi. cbn [negb].
  set (w1 := with_buffer _ _ _). assert (H1 : writer_ok w1) by (by split).
  assert (E1 : logged_bytes w1 = logged_bytes w ++ command) by (unfold logged_bytes, w1; cbn; by rewrite app_assoc).
  destruct (decide _); [|done]. unfold Sync. destruct (Flush_ok w1 H1) as (H2 & Hb & E2 & Hr). destruct (Flush w1) as [w2 b].
  cbn [fst] in *. split; [done|]. split; [|done]. unfold logged_bytes at 1. by rewrite Hb, app_nil_r, E2.
Qed.

Lemma Stop_ok w :
  writer_ok w → running_ w = true → on_disk (Stop w) = logged_bytes w ∧ buffer_ (Stop w) = [] ∧ running_ (Stop w) = false.
Proof.
  intros Hw Hr. unfold Stop. rewrite Hr. cbn [negb]. assert (H1 : writer_ok (with_running false w)) by (by destruct w).
  destruct (Flush_ok _ H1) as (_ & Hb & Hd & Hn). by repeat split.
Qed.

Definition append_all (commands : list bytes) w : AofWriter := foldl (λ w c, (Append c w).1) w commands.

(** A writer whose policy is to leave syncing to the system never writes: what is
    appended stays in the buffer, and stopping drops it. *)
Theorem never_policy_loses commands w :
  initialized_ w = true → running_ w = false → sync_policy (aof_options w) = kNever →
  on_disk (Stop (append_all commands w)) = on_disk w ∧ buffer_ (append_all commands w) = buffer_ w ++ concat commands.
Proof.
  intros Hi Hr Hp. assert (H : running_ (append_all commands w) = false ∧ on_disk (append_all commands w) = on_disk w ∧
    buffer_ (append_all commands w) = buffer_ w ++ concat commands).
  { revert w Hi Hr Hp. induction commands as [|c commands IH]; intros w Hi Hr Hp; [by rewrite app_nil_r|].
    assert (E : (Append c w).1 = with_buffer (buffer_ w ++ c) (u64 (buffer_size_ w + zlen c)) w).
    { unfold Append. rewrite Hi. cbn [negb aof_options with_buffer]. by rewrite Hp, decide_False. }
    unfold append_all in *. cbn [foldl]. rewrite E. destruct (IH (with_buffer (buffer_ w ++ c) (u64 (buffer_size_ w + zlen c)) w) Hi Hr Hp) as (H1 & H2 & H3).
    rewrite H1, H2, H3. cbn. by rewrite app_assoc. }
  destruct H as (H1 & H2 & H3). unfold Stop. by rewrite H1.
Qed.

(** ** The rewrite *)

(** Inodes are below the next one, and no two paths have the same. *)
Definition fs_ok fs : Prop :=
  (∀ p i, directory fs !! p = Some i → i < next_inode fs) ∧
  (∀ p q i, directory fs !! p = Some i → directory fs !! q = Some i → p = q).

Lemma suffixed (s t : bytes) : t ≠ [] → s ++ t ≠ s.
Proof. intros Ht E. apply Ht. apply (f_equal length) in E. rewrite length_app in E. destruct t; [done|]. cbn in E. lia. Qed.

Lemma temp_backup path : temp_path path ≠ backup_path path.
Proof. unfold temp_path, backup_path. intros E. by apply (inj (app path)) in E. Qed.

(** The temporary file is a new one or an old one that is no other file. *)
Lemma open_temp final i fs :
  fs_ok fs → directory fs !! final = Some i →
  ∃ j fs1, open_truncate (temp_path final) fs = (j, fs1) ∧ j ≠ i ∧ directory fs1 !! final = Some i ∧
    directory fs1 !! temp_path final = Some j ∧ contents fs1 !! j = Some [] ∧ contents fs1 !! i = contents fs !! i.
Proof.
  intros [H1 H2] Hf. assert (Hne : temp_path final ≠ final) by by apply suffixed.
  unfold open_truncate, open_append. destruct (directory fs !! temp_path final) as [j|] eqn:E.
  - assert (j ≠ i) by (intros ->; by apply Hne, (H2 _ _ i)). eexists j, _. split; [reflexivity|]. cbn.
    rewrite lookup_insert_eq, lookup_insert_ne by done. done.
  - assert (i < next_inode fs) by by apply (H1 final). eexists (next_inode fs), _. split; [reflexivity|]. cbn.
    rewrite !lookup_insert_eq, (lookup_insert_ne _ _ final), !(lookup_insert_ne _ _ i) by (done || lia). split; [lia|done].
Qed.

Lemma swap_ok luck final data i s fs :
  fs_ok fs → directory fs !! final = Some i → contents fs !! i = Some s → backup_renames luck = true → restores luck = true →
  let '(fs', renamed) := swap_files luck final data fs in
  renamed = final_renames luck ∧
  if renamed then ∃ j, directory fs' !! final = Some j ∧ contents fs' !! j = Some data
  else directory fs' !! final = Some i ∧ contents fs' !! i = Some s.
Proof.
  intros Hfs Hf Hs Hb Hr. destruct (open_temp final i fs Hfs Hf) as (j & fs1 & E & Hji & D1 & D2 & C1 & C2).
  assert (Hne : temp_path final ≠ final) by by apply suffixed. assert (Hnb : backup_path final ≠ final) by by apply suffixed.
  assert (Htb := temp_backup final). unfold swap_files. rewrite E, Hb, Hr. unfold append_inode. rewrite C1. cbn.
  unfold path_exists, rename, remove. cbn. rewrite D1. cbn. destruct (final_renames luck); cbn.
  - rewrite lookup_insert_ne, lookup_delete_ne, D2 by done. cbn. rewrite (lookup_insert_ne _ final), lookup_delete_ne, lookup_insert_eq by done.
    cbn. split; [done|]. exists j. by rewrite lookup_delete_ne, !lookup_insert_eq.
  - rewrite lookup_insert_eq. cbn. rewrite lookup_insert_eq, lookup_insert_ne by done. by rewrite C2.
Qed.

Lemma Flush_frame w :
  aof_options (Flush w).1 = aof_options w ∧ directory (files (Flush w).1) = directory (files w) ∧
  next_inode (files (Flush w).1) = next_inode (files w).
Proof.
  unfold Flush, FlushCompressed, write. destruct (decide _); [done|]. destruct (compress _); cbn; by destruct (file_ w).
Qed.

(** A rewrite that succeeds replaces the file by the data, and what is appended
    then follows it; one whose last rename fails leaves the old file, with the
    syncing thread stopped, so that stopping the writer drops what is appended
    then. *)
Theorem rewrite_replaces luck data command w :
  writer_ok w → fs_ok (files w) → sync_policy (aof_options w) = kEverySec → running_ w = true →
  temp_opens luck = true → backup_renames luck = true → restores luck = true → reopens luck = true →
  let '(w1, done) := Rewrite luck data w in
  done = final_renames luck ∧
  on_disk (Stop (Append command w1).1) = if final_renames luck then data ++ command else logged_bytes w.
Proof.
  intros Hw Hfs Hp Hr Ht Hb Hre Ho. assert (Hi : initialized_ w = true) by apply Hw. unfold Rewrite. rewrite Hi, Ht. cbn [negb].
  assert (Hwf : writer_ok (with_running false w)) by by destruct w. destruct (Flush_ok _ Hwf) as (H1 & Hb1 & Hd1 & Hr1).
  destruct (Flush_frame (with_running false w)) as (F1 & F2 & F3). change (logged_bytes (with_running false w)) with (logged_bytes w) in Hd1.
  change (running_ (with_running false w)) with false in Hr1. set (w1 := (Flush (with_running false w)).1) in *. clearbody w1.
  assert (Hfs1 : fs_ok (files w1)) by (unfold fs_ok; by rewrite F2, F3). destruct H1 as (Hi1 & Hc1 & i & s & Hf1 & D1 & C1).
  assert (Hs := swap_ok luck (aof_path (aof_options w1)) data i s (files w1) Hfs1 D1 C1 Hb Hre).
  destruct (swap_files _ _ _ _) as [fs renamed]. destruct Hs as [-> Hs]. destruct (final_renames luck); cbn [negb].
  - destruct Hs as (j & D2 & C2). rewrite Ho. unfold open_append. cbn [negb files with_files with_file aof_options]. rewrite D2, Hr, F1.
    cbn [with_running aof_options]. rewrite Hp, bool_decide_eq_true_2 by done. cbn [andb]. split; [done|].
    set (w2 := with_running true _). assert (H2 : writer_ok w2) by (split; [done|]; split; [done|]; by exists j, data).
    destruct (Append_ok command w2 H2) as (H3 & E3 & R3). destruct (Stop_ok _ H3 R3) as (E4 & _). rewrite E4, E3.
    unfold logged_bytes, on_disk, read_path, w2. cbn. rewrite D2. cbn. rewrite C2, Hb1. by rewrite app_nil_r.
  - destruct Hs as (D2 & C2). split; [done|]. set (w2 := with_files fs w1).
    assert (H2 : writer_ok w2) by (split; [done|]; split; [done|]; by exists i, s).
    assert (R : running_ (Append command w2).1 = false) by (rewrite (proj2 (proj2 (Append_ok command w2 H2))); done).
    unfold Stop. rewrite R. cbn [negb]. assert (P2 : sync_policy (aof_options w2) = kEverySec) by (cbn; by rewrite F1).
    unfold Append. rewrite (proj1 H2). cbn [negb aof_options with_buffer]. rewrite P2, decide_False by done.
    rewrite <- Hd1. unfold on_disk, read_path. cbn. by rewrite D1, D2; cbn; rewrite C1, C2.
Qed.
End AofWriter.
