(* ===== verification/Persistence.v ===== *)
(** * The persistence manager

    Models the append-only side of [PersistenceManager] in
    src/astra/server/managers.hpp as steps of its threads: workers that append
    commands, the thread of [ProcessCommands], the thread that syncs every
    second and the one that shuts the manager down.  The queue keeps the order of
    each worker and gives elements of any worker; [try_dequeue] finds an element
    when there is one.  [Signal] wakes the thread when it waits and does nothing
    otherwise; a wait may also end by itself. *)
From S2P Require Import Prelude.
From S2P Require Import AofWriter.

(** Where the thread of [ProcessCommands] is. *)
Inductive consumer :=
  | CTop                        (* before the test of running_ *)
  | CBatch (processed : nat)    (* in the loop over a batch *)
  | CIdle                       (* saw an empty queue, before the wait *)
  | CWait                       (* in the wait *)
  | CDrain                      (* the remaining commands *)
  | CExited.

(** Where the thread in [Shutdown] is. *)
Inductive stopper := SNone | SSignal | SJoin | SDone.

#[global] Instance consumer_eq_dec : EqDecision consumer.
Proof. solve_decision. Defined.
#[global] Instance stopper_eq_dec : EqDecision stopper.
Proof. solve_decision. Defined.

(** [signalling] has the workers between [enqueue] and [Signal]. *)
Record PersistenceManager := MkPM {
  command_queue_ : gmap nat (list bytes);
  pm_running_ : bool;
  aof_writer_ : AofWriter;
  consumer_pc : consumer;
  stopper_pc : stopper;
  signalling : gset nat
}.

Inductive action :=
  | Enqueue (worker : nat) (command : bytes)
  | Signal (worker : nat)
  | Dequeue (worker : nat)
  | Proceed
  | Spurious
  | SyncTurn
  | Stopping.

#[global] Instance action_eq_dec : EqDecision action.
Proof. solve_decision. Defined.

Definition kBatchSize : nat := 100.

Section Persistence.
Context {Z0 : Zstd}.
Implicit Types (s : PersistenceManager) (q : gmap nat (list bytes)).

Definition queue_of (worker : nat) q : list bytes := default [] (q !! worker).
Definition all_empty q : bool := bool_decide (map_Forall (λ _ l, l = []) q).

Definition wake (c : consumer) : consumer := match c with CWait => CTop | c => c end.

Definition with_consumer (c : consumer) s : PersistenceManager :=
  MkPM (command_queue_ s) (pm_running_ s) (aof_writer_ s) c (stopper_pc s) (signalling s).
Definition with_writer (w : AofWriter) s : PersistenceManager :=
  MkPM (command_queue_ s) (pm_running_ s) w (consumer_pc s) (stopper_pc s) (signalling s).

(** [try_dequeue] and [Append]. *)
Definition dequeue (worker : nat) (c : consumer) s : option PersistenceManager :=
  match queue_of worker (command_queue_ s) with
  | [] => None
  | command :: rest =>
      Some (MkPM (<[worker := rest]> (command_queue_ s)) (pm_running_ s) (Append command (aof_writer_ s)).1 c
        (stopper_pc s) (signalling s))
  end.

(** A step of a thread; [None] when it cannot take it. *)
Definition pm_step (a : action) s : option PersistenceManager :=
  match a with
  | Enqueue w command =>
      if decide (w ∈ signalling s) then None
      else Some (MkPM (<[w := queue_of w (command_queue_ s) ++ [command]]> (command_queue_ s)) (pm_running_ s) (aof_writer_ s)
             (consumer_pc s) (stopper_pc s) ({[w]} ∪ signalling s))
  | Signal w =>
      if decide (w ∈ signalling s) then
        Some (MkPM (command_queue_ s) (pm_running_ s) (aof_writer_ s) (wake (consumer_pc s)) (stopper_pc s) (signalling s ∖ {[w]}))
      else None
  | Dequeue w =>
      match consumer_pc s with
      | CBatch n => if n <? kBatchSize then dequeue w (CBatch (S n)) s else None
      | CDrain => dequeue w CDrain s
      | _ => None
      end
  | Proceed =>
      match consumer_pc s with
      | CTop => Some (with_consumer (if pm_running_ s then CBatch 0 else CDrain) s)
      | CBatch n =>
          if (n <? kBatchSize) && negb (all_empty (command_queue_ s)) then None
          else Some (if n =? 0 then with_consumer CIdle s
                     else with_consumer CTop (with_writer (Flush (aof_writer_ s)).1 s))
      | CIdle => Some (with_consumer CWait s)
      | CDrain =>
          if all_empty (command_queue_ s) then Some (with_consumer CExited (with_writer (Flush (aof_writer_ s)).1 s)) else None
      | CWait | CExited => None
      end
  | Spurious => if decide (consumer_pc s = CWait) then Some (with_consumer CTop s) else None
  | SyncTurn => if running_ (aof_writer_ s) then Some (with_writer (SyncThread (aof_writer_ s)) s) else None
  | Stopping =>
      match stopper_pc s with
      | SNone => Some (MkPM (command_queue_ s) false (aof_writer_ s) (consumer_pc s) SSignal (signalling s))
      | SSignal => Some (MkPM (command_queue_ s) (pm_running_ s) (aof_writer_ s) (wake (consumer_pc s)) SJoin (signalling s))
      | SJoin =>
          if decide (consumer_pc s = CExited)
          then Some (MkPM (command_queue_ s) (pm_running_ s) (Stop (aof_writer_ s)) (consumer_pc s) SDone (signalling s))
          else None
      | SDone => None
      end
  end.

(** After [Init]: the writer is open and the thread has started. *)
Definition started (w : AofWriter) : PersistenceManager := MkPM ∅ true w CTop SNone ∅.

Fixpoint pm_run (actions : list action) s : option PersistenceManager :=
  match actions with
  | [] => Some s
  | a :: actions => s ← pm_step a s; pm_run actions s
  end.

(** ** What a run appends and what it writes *)

(** The commands of a worker. *)
Fixpoint appended (worker : nat) (actions : list action) : list bytes :=
  match actions with
  | [] => []
  | Enqueue w command :: actions => if decide (w = worker) then command :: appended worker actions else appended worker actions
  | _ :: actions => appended worker actions
  end.

(** The queue after a step, and what leaves it. *)
Definition next_queue (a : action) q : gmap nat (list bytes) :=
  match a with
  | Enqueue w command => <[w := queue_of w q ++ [command]]> q
  | Dequeue w => match queue_of w q with [] => q | _ :: rest => <[w := rest]> q end
  | _ => q
  end.
Definition taken (a : action) q : list (nat * bytes) :=
  match a with
  | Dequeue w => match queue_of w q with [] => [] | command :: _ => [(w, command)] end
  | _ => []
  end.

(** The commands in the order they left the queue, with their workers. *)
Fixpoint dequeued (actions : list action) q : list (nat * bytes) :=
  match actions with
  | [] => []
  | a :: actions => taken a q ++ dequeued actions (next_queue a q)
  end.

Definition of_worker (worker : nat) (l : list (nat * bytes)) : list bytes := (filter (λ x, x.1 = worker) l).*2.

(** ** The queue *)

Lemma queue_insert w w' l q : queue_of w (<[w' := l]> q) = if decide (w' = w) then l else queue_of w q.
Proof. unfold queue_of. destruct (decide (w' = w)) as [->|]; [by rewrite lookup_insert_eq|by rewrite lookup_insert_ne]. Qed.

Lemma all_empty_queue q w : all_empty q = true → queue_of w q = [].
Proof.
  intros H%bool_decide_eq_true. unfold queue_of. destruct (q !! w) eqn:E; [|done]. by apply (H _ _ E).
Qed.

Lemma of_worker_cons w w' c l : of_worker w ((w', c) :: l) = if decide (w' = w) then c :: of_worker w l else of_worker w l.
Proof. unfold of_worker. rewrite filter_cons. cbn. by destruct (decide (w' = w)). Qed.

Lemma of_worker_app w l1 l2 : of_worker w (l1 ++ l2) = of_worker w l1 ++ of_worker w l2.
Proof. unfold of_worker. by rewrite filter_app, fmap_app. Qed.

Lemma step_queue a s s' : pm_step a s = Some s' → command_queue_ s' = next_queue a (command_queue_ s).
Proof.
  intros E. destruct a as [w c|w|w| | | |]; cbn [pm_step next_queue] in *.
  - destruct (decide _); [discriminate|]. by injection E as <-.
  - destruct (decide _); [|discriminate]. by injection E as <-.
  - assert (Hd : ∃ c, dequeue w c s = Some s') by (destruct (consumer_pc s); try discriminate; [destruct (_ <? _); [|discriminate]|]; eauto).
    destruct Hd as [c Hd]. unfold dequeue in Hd. destruct (queue_of w (command_queue_ s)); [discriminate|]. by injection Hd as <-.
  - destruct (consumer_pc s); try discriminate; repeat (case_match; try discriminate); by injection E as <-.
  - destruct (decide _); [|discriminate]. by injection E as <-.
  - destruct (running_ _); [|discriminate]. by injection E as <-.
  - destruct (stopper_pc s); try discriminate; repeat (case_match; try discriminate); by injection E as <-.
Qed.

(** Runs one after the other. *)
Lemma run_app l1 l2 : ∀ s, pm_run (l1 ++ l2) s = s ← pm_run l1 s; pm_run l2 s.
Proof. induction l1 as [|a l1 IH]; intros s; [done|]. cbn. destruct (pm_step a s); [|done]. cbn. apply IH. Qed.

Lemma dequeued_app l1 l2 : ∀ s s1,
  pm_run l1 s = Some s1 → dequeued (l1 ++ l2) (command_queue_ s) = dequeued l1 (command_queue_ s) ++ dequeued l2 (command_queue_ s1).
Proof.
  induction l1 as [|a l1 IH]; intros s s1 E; [by injection E as <-|]. cbn [pm_run] in E.
  destruct (pm_step a s) as [s2|] eqn:E2; [|discriminate]. cbn [app dequeued]. rewrite <- (step_queue a s s2 E2), (IH s2 s1 E).
  by rewrite <- app_assoc.
Qed.

Lemma appended_app w l1 l2 : appended w (l1 ++ l2) = appended w l1 ++ appended w l2.
Proof. induction l1 as [|[] l1 IH]; cbn; try done. destruct (decide _); [|done]. by rewrite IH. Qed.

(** Every worker's commands leave in their order, each once. *)
Lemma run_queue w actions : ∀ s s',
  pm_run actions s = Some s' →
  of_worker w (dequeued actions (command_queue_ s)) ++ queue_of w (command_queue_ s') =
  queue_of w (command_queue_ s) ++ appended w actions.
Proof.
  induction actions as [|a actions IH]; intros s s' H; [injection H as <-; cbn; by rewrite app_nil_r|].
  cbn [pm_run] in H. destruct (pm_step a s) as [s1|] eqn:E; [|discriminate]. specialize (IH s1 s' H). cbn [dequeued].
  rewrite of_worker_app, <- (step_queue a s s1 E), <- app_assoc, IH, (step_queue a s s1 E). clear.
  destruct a as [w' c|w'|w'| | | |]; cbn [taken next_queue appended]; try done.
  - rewrite queue_insert. destruct (decide (w' = w)) as [->|]; [|done]. cbn. by rewrite <- app_assoc.
  - destruct (queue_of w' (command_queue_ s)) as [|x rest] eqn:Eq; [done|]. rewrite of_worker_cons, queue_insert.
    destruct (decide (w' = w)) as [->|]; [|done]. by rewrite Eq.
Qed.

(** ** The file *)

Definition leaving (c : consumer) : bool := match c with CDrain | CExited => true | _ => false end.

(** The writer works until the manager has stopped; then all is on disk. *)
Definition pm_inv s : Prop :=
  (if decide (stopper_pc s = SDone)
   then consumer_pc s = CExited ∧ running_ (aof_writer_ s) = false ∧ buffer_ (aof_writer_ s) = []
   else writer_ok (aof_writer_ s) ∧ running_ (aof_writer_ s) = true) ∧
  pm_running_ s = bool_decide (stopper_pc s = SNone) ∧
  (leaving (consumer_pc s) = true → pm_running_ s = false).

Abbreviation bytes_of s := (logged_bytes (aof_writer_ s)).

(** Before the end, the thread and the writer move. *)
Lemma inv_move s q w c sig :
  pm_inv s → stopper_pc s ≠ SDone → writer_ok w → running_ w = true → (leaving c = true → pm_running_ s = false) →
  pm_inv (MkPM q (pm_running_ s) w c (stopper_pc s) sig).
Proof.
  intros (_ & Hr & _) Hs H1 H2 H3. unfold pm_inv. cbn. by rewrite decide_False.
Qed.

Lemma inv_writer s : pm_inv s → consumer_pc s ≠ CExited → stopper_pc s ≠ SDone ∧ writer_ok (aof_writer_ s) ∧ running_ (aof_writer_ s) = true.
Proof. intros (Hw & _) Hc. destruct (decide _); [by destruct Hw|done]. Qed.

Lemma flush_bytes w : writer_ok w → writer_ok (Flush w).1 ∧ running_ (Flush w).1 = running_ w ∧ logged_bytes (Flush w).1 = logged_bytes w.
Proof.
  intros H. destruct (Flush_ok w H) as (H1 & Hb & Hd & Hr). split; [done|]. split; [done|].
  unfold logged_bytes at 1. by rewrite Hb, app_nil_r, Hd.
Qed.

Lemma proceed_inv s s' : pm_inv s → pm_step Proceed s = Some s' → pm_inv s' ∧ bytes_of s' = bytes_of s.
Proof.
  intros Hi E. assert (Hl : leaving (consumer_pc s) = true → pm_running_ s = false) by apply Hi.
  assert (Hc : consumer_pc s ≠ CExited) by (intros Hc; cbn in E; by rewrite Hc in E).
  destruct (inv_writer s Hi Hc) as (Hs & Hw & Hr). destruct (flush_bytes _ Hw) as (Fw & Fr & Fb). rewrite Hr in Fr.
  cbn [pm_step] in E. destruct (consumer_pc s) as [|n| | | |]; try discriminate.
  - injection E as <-. split; [|done]. apply inv_move; try done. by destruct (pm_running_ s).
  - destruct (_ && _); [discriminate|]. injection E as <-. destruct (n =? 0); (split; [by apply (inv_move s)|done]).
  - injection E as <-. split; [by apply inv_move|done].
  - destruct (all_empty _); [|discriminate]. injection E as <-. split; [apply (inv_move s); auto|done].
Qed.

Lemma dequeue_inv w s s' :
  pm_inv s → pm_step (Dequeue w) s = Some s' →
  ∃ command rest, queue_of w (command_queue_ s) = command :: rest ∧ command_queue_ s' = <[w := rest]> (command_queue_ s) ∧
    pm_inv s' ∧ bytes_of s' = bytes_of s ++ command.
Proof.
  intros Hi E. assert (Hl : leaving (consumer_pc s) = true → pm_running_ s = false) by apply Hi.
  assert (Hc : consumer_pc s ≠ CExited) by (intros Hc; cbn in E; by rewrite Hc in E).
  assert (Hd : ∃ c, dequeue w c s = Some s' ∧ leaving c = leaving (consumer_pc s)).
  { cbn [pm_step] in E. destruct (consumer_pc s); try discriminate; [destruct (_ <? _); [|discriminate]|]; eauto. }
  destruct Hd as (c & Hd & Hlc). destruct (inv_writer s Hi Hc) as (Hs & Hw & Hr). unfold dequeue in Hd.
  destruct (queue_of w (command_queue_ s)) as [|command rest]; [discriminate|]. injection Hd as <-.
  destruct (Append_ok command _ Hw) as (H1 & H2 & H3). exists command, rest.
  split; [done|]. split; [done|]. split; [|done]. apply (inv_move s); try done; [by rewrite H3|by rewrite Hlc].
Qed.

Lemma stopping_inv s s' : pm_inv s → pm_step Stopping s = Some s' → pm_inv s' ∧ bytes_of s' = bytes_of s.
Proof.
  intros (Hw & Hr & Hl) E. unfold pm_inv. cbn [pm_step] in E. destruct (stopper_pc s) eqn:Es; try discriminate.
  - injection E as <-. cbn. rewrite decide_False in Hw by done. rewrite decide_False by done. done.
  - injection E as <-. cbn. rewrite decide_False in Hw by done. rewrite decide_False by done.
    split; [|done]. split; [done|]. split; [done|]. done.
  - rewrite decide_False in Hw by done. destruct Hw as [Hw Hn]. destruct (decide (consumer_pc s = CExited)) as [Hc|]; [|discriminate].
    injection E as <-. cbn. destruct (Stop_ok _ Hw Hn) as (H1 & H2 & H3). split; [split; [done|]; split; [done|auto]|].
    unfold logged_bytes at 1. by rewrite H2, app_nil_r.
Qed.

Lemma step_inv a s s' :
  pm_inv s → pm_step a s = Some s' →
  pm_inv s' ∧ bytes_of s' = bytes_of s ++ concat (taken a (command_queue_ s)).*2.
Proof.
  intros Hi E. destruct a as [w c|w|w| | | |]; cbn [taken].
  - cbn in E. destruct (decide (w ∈ signalling s)); [discriminate|]. injection E as <-. cbn. by rewrite app_nil_r.
  - cbn in E. destruct (decide (w ∈ signalling s)); [|discriminate]. injection E as <-. cbn. rewrite app_nil_r. split; [|done].
    destruct Hi as (Hw & Hr & Hl). unfold pm_inv. cbn. split; [|split; [done|by destruct (consumer_pc s)]].
    destruct (decide _); [by destruct Hw as [-> ?]|done].
  - destruct (dequeue_inv w s s' Hi E) as (c & rest & -> & _ & Hi' & Hb). cbn. by rewrite app_nil_r.
  - cbn. rewrite app_nil_r. by apply proceed_inv.
  - cbn in E |- *. rewrite app_nil_r. destruct (decide (consumer_pc s = CWait)) as [Hc|]; [|discriminate]. injection E as <-.
    split; [|done]. destruct (inv_writer s Hi ltac:(by rewrite Hc)) as (Hs & Hw & Hr). by apply inv_move.
  - cbn in E |- *. rewrite app_nil_r. destruct (running_ (aof_writer_ s)) eqn:Hr; [|discriminate]. injection E as <-.
    assert (Hs : stopper_pc s ≠ SDone ∧ writer_ok (aof_writer_ s)).
    { destruct Hi as (Hw & _). destruct (decide _); [|by destruct Hw]. destruct Hw as (_ & Hw & _). by rewrite Hr in Hw. }
    destruct Hs as [Hs Hw]. unfold SyncThread, Sync. rewrite Hr. destruct (flush_bytes _ Hw) as (Fw & Fr & Fb).
    destruct (Flush (aof_writer_ s)) as [w ok]. cbn [fst] in *. split; [|done]. apply inv_move; try done; [by rewrite Fr|]. apply Hi.
  - cbn. rewrite app_nil_r. by apply stopping_inv.
Qed.

Lemma run_inv actions : ∀ s s',
  pm_inv s → pm_run actions s = Some s' →
  pm_inv s' ∧ bytes_of s' = bytes_of s ++ concat (dequeued actions (command_queue_ s)).*2.
Proof.
  induction actions as [|a actions IH]; intros s s' Hi E; [injection E as <-; cbn; by rewrite app_nil_r|].
  cbn [pm_run] in E. destruct (pm_step a s) as [s1|] eqn:E1; [|discriminate].
  destruct (step_inv a s s1 Hi E1) as [Hi1 Hb1]. destruct (IH s1 s' Hi1 E) as [Hi' Hb']. split; [done|].
  rewrite Hb', Hb1, <- app_assoc. cbn [dequeued]. by rewrite fmap_app, concat_app, (step_queue a s s1 E1).
Qed.

(** ** The end *)

Lemma started_inv w : writer_ok w → running_ w = true → pm_inv (started w).
Proof. by intros. Qed.

Lemma not_stopping l : ∀ s s', Stopping ∉ l → pm_run l s = Some s' → stopper_pc s' = stopper_pc s.
Proof.
  induction l as [|a l IH]; intros s s' Hn E; [by injection E as <-|]. apply not_elem_of_cons in Hn as [Ha Hn].
  cbn [pm_run] in E. destruct (pm_step a s) as [s1|] eqn:E1; [|discriminate]. rewrite (IH s1 s' Hn E). clear E IH.
  destruct a; cbn [pm_step] in E1; unfold dequeue in E1; repeat (case_match; try discriminate); try (by injection E1 as <-).
Qed.

(** The thread ends when it finds the queue empty. *)
Lemma step_exit a s s1 :
  pm_step a s = Some s1 → consumer_pc s ≠ CExited → consumer_pc s1 = CExited → a = Proceed ∧ all_empty (command_queue_ s) = true.
Proof.
  intros E Hc H1. destruct a; cbn [pm_step] in E; unfold dequeue in E.
  all: repeat (case_match; try discriminate); injection E as <-; cbn in H1; try done.
  all: destruct (consumer_pc s); done.
Qed.

Lemma exit_point l : ∀ s s',
  pm_run l s = Some s' → consumer_pc s ≠ CExited → consumer_pc s' = CExited →
  ∃ la lb sm, l = la ++ Proceed :: lb ∧ pm_run la s = Some sm ∧ all_empty (command_queue_ sm) = true.
Proof.
  induction l as [|a l IH]; intros s s' E Hc Hx; [injection E as <-; done|]. cbn [pm_run] in E.
  destruct (pm_step a s) as [s1|] eqn:E1; [|discriminate]. destruct (decide (consumer_pc s1 = CExited)) as [H1|H1].
  - destruct (step_exit a s s1 E1 Hc H1) as [-> He]. by exists [], l, s.
  - destruct (IH s1 s' E H1 Hx) as (la & lb & sm & -> & Em & He). exists (a :: la), lb, sm. cbn [pm_run]. by rewrite E1.
Qed.

(** C8. Shutting down loses nothing. However the steps of the workers and of the
    threads interleave: when [Shutdown] has returned, the file has what was there
    before and then whole commands; those of a worker are in the order the worker
    appended them, each once, and all that it appended before the shutdown began
    are there. *)
Theorem shutdown_saves w0 l1 l2 s :
  writer_ok w0 → running_ w0 = true → Stopping ∉ l1 → pm_run (l1 ++ Stopping :: l2) (started w0) = Some s → stopper_pc s = SDone →
  ∃ out : list (nat * bytes),
    on_disk (aof_writer_ s) = logged_bytes w0 ++ concat out.*2 ∧
    ∀ worker, appended worker l1 `prefix_of` of_worker worker out ∧
      of_worker worker out `prefix_of` appended worker (l1 ++ Stopping :: l2).
Proof.
  intros Hw Hr Hn E Hs. assert (Hi := started_inv w0 Hw Hr). destruct (run_inv _ _ _ Hi E) as [(Hd & _) Hb].
  rewrite decide_True in Hd by done. destruct Hd as (Hx & _ & He). set (out := dequeued _ _) in Hb. exists out.
  split; [unfold logged_bytes at 1 in Hb; by rewrite He, app_nil_r in Hb|]. intros worker.
  assert (Hq := run_queue worker _ _ _ E). fold out in Hq. change (queue_of worker (command_queue_ (started w0))) with (@nil bytes) in Hq.
  cbn [app] in Hq. split; [|rewrite <- Hq; by apply prefix_app_r]. rewrite run_app in E.
  destruct (pm_run l1 (started w0)) as [s1|] eqn:E1; [|discriminate]. cbn in E. destruct (run_inv _ _ _ Hi E1) as [(_ & Hr1 & Hl1) _].
  assert (Hs1 : stopper_pc s1 = SNone) by (by rewrite (not_stopping _ _ _ Hn E1)).
  assert (Hc1 : consumer_pc s1 ≠ CExited).
  { intros Hc. rewrite Hs1 in Hr1. rewrite Hc in Hl1. specialize (Hl1 eq_refl). rewrite Hl1 in Hr1. done. }
  destruct (exit_point (Stopping :: l2) s1 s E Hc1 Hx) as (la & lb & sm & Hl & Em & Hempty).
  assert (E2 : pm_run (l1 ++ la) (started w0) = Some sm) by (rewrite run_app, E1; done).
  assert (Hq2 := run_queue worker _ _ _ E2). rewrite (all_empty_queue _ _ Hempty), app_nil_r in Hq2.
  change (queue_of worker (command_queue_ (started w0))) with (@nil bytes) in Hq2. cbn [app] in Hq2.
  unfold out. rewrite Hl, app_assoc, (dequeued_app _ (Proceed :: lb) _ _ E2), of_worker_app, Hq2. rewrite appended_app.
  rewrite <- app_assoc. by eexists.
Qed.

(** ** Wakeups that are lost *)

(** The steps that could help: a new command, or a wait that ends by itself. *)
Definition helpful (a : action) : bool := match a with Enqueue _ _ | Spurious => true | _ => false end.

(** C32. The thread saw an empty queue and has not begun to wait when the manager
    shuts down: the signal is lost, the thread waits, and [Shutdown] waits for the
    thread. *)
Theorem shutdown_hangs w0 :
  ∃ s, pm_run [Proceed; Proceed; Stopping; Stopping; Proceed] (started w0) = Some s ∧
    ∀ l s', Forall (λ a, helpful a = false) l → pm_run l s = Some s' → stopper_pc s' = SJoin.
Proof.
  eexists. split; [reflexivity|]. cbn. intros l. generalize w0. induction l as [|a l IH]; intros w s' Hl E; [by injection E as <-|].
  inversion Hl as [|? ? Ha Hl']; subst. cbn [pm_run] in E. destruct a as [w' c|w'|w'| | | |]; try discriminate; cbn in E; try discriminate.
  all: try (destruct (decide (w' ∈ _)); [set_solver|discriminate]).
  destruct (running_ w); [|discriminate]. by apply (IH _ _ Hl' E).
Qed.

(** The same with a command: it stays in the queue, and the file does not get it. *)
Theorem command_stays w0 command :
  ∃ s, pm_run [Proceed; Proceed; Enqueue 0 command; Signal 0; Proceed] (started w0) = Some s ∧
    ∀ l s', Forall (λ a, helpful a = false ∧ a ≠ Stopping) l → pm_run l s = Some s' →
      queue_of 0 (command_queue_ s') = [command] ∧ consumer_pc s' = CWait.
Proof.
  eexists. split; [reflexivity|]. cbn. intros l. generalize w0. induction l as [|a l IH]; intros w s' Hl E.
  { by injection E as <-. }
  inversion Hl as [|? ? [Ha Hs] Hl']; subst. cbn [pm_run] in E. destruct a as [w' c|w'|w'| | | |]; try done; cbn in E; try discriminate.
  all: try (destruct (decide (w' ∈ _)); [set_solver|discriminate]).
  destruct (running_ w); [|discriminate]. by apply (IH _ _ Hl' E).
Qed.
End Persistence.

(** ** Witness *)

#[local] Instance small_zstd : Zstd := {| ZSTD_compress _ s := None |}.

Definition small_writer : AofWriter :=
  MkAofWriter (MkAofOptions (B "a") kEverySec kResp false 3) (Some 0) [] 0 true true (MkFiles {[B "a" := 0]} {[0 := B "old"]} 1).

(** Two workers; a batch, a wait that a signal ends, and a command that arrives
    while the manager stops. *)
Definition small_run : list action :=
  [Enqueue 0 (B "x"); Proceed; Enqueue 1 (B "y"); Dequeue 1; Signal 0; SyncTurn; Dequeue 0; Signal 1; Proceed; Proceed; Proceed;
   Proceed; Enqueue 0 (B "z"); Signal 0].
Definition small_end : list action := [Proceed; Stopping; Dequeue 0; Enqueue 1 (B "w"); Dequeue 1; Proceed; Stopping].

Lemma shutdown_saves_witness :
  ∃ s, pm_run (small_run ++ Stopping :: small_end) (started small_writer) = Some s ∧ on_disk (aof_writer_ s) = B "oldyxzw" ∧
    ∃ out : list (nat * bytes), on_disk (aof_writer_ s) = B "old" ++ concat out.*2 ∧
      [B "x"; B "z"] `prefix_of` of_worker 0 out.
Proof.
  eexists. split; [vm_compute; reflexivity|]. split; [vm_compute; reflexivity|].
  edestruct (shutdown_saves small_writer small_run small_end) as (out & H1 & H2).
  - split; [done|]. split; [done|]. by exists 0, (B "old").
  - reflexivity.
  - apply (bool_decide_unpack _). vm_compute. exact I.
  - vm_compute. reflexivity.
  - reflexivity.
  - exists out. split; [exact H1|]. exact (proj1 (H2 0)).
Defined.
