(* ===== verification/AofReplay.v ===== *)
(** * Replaying the append-only file

    What the log of a worker is worth as a file: the text that [LogToAof] writes,
    sent to a server in reads of any sizes, makes it execute commands after which
    it has the same strings. *)
From Stdlib Require Import SpecFloat.
From S2P Require Import Prelude.
From S2P Require Import Simd.
From S2P Require Import Numbers.
From S2P Require Import Text.
From S2P Require Import RespTypes.
From S2P Require Import Executor.
From S2P Require Import KeyMetadata.
From S2P Require Import Eviction.
From S2P Require Import Rocks.
From S2P Require Import Database.
From S2P Require Import DatabaseTypes.
From S2P Require Import DatabaseStrings.
From S2P Require Import Commands.
From S2P Require Import StringCommands.
From S2P Require Import StringLog.
From S2P Require Import SmallPlatform.
From S2P Require Import RespParser.
From S2P Require Import RespCommands.
From S2P Require Import Connection.
From S2P Require Import AofWriter.
From S2P Require Import StringServer.

Section AofReplay.
Context {P : Platform} {HD : DoubleText} {HA : Allocator}.
Implicit Types (c d : Ctx) (now : Z) (e : bytes * list bytes).

(** ** The text *)

Lemma decimal_more fuel n : (0 ≤ n < 10 ^ Z.of_nat fuel)%Z → 0 < fuel → decimal (S fuel) n = decimal fuel n.
Proof.
  revert n. induction fuel as [|fuel IH]; intros n Hn Hf; [lia|]. cbn [decimal] in *. destruct (n <? 10)%Z eqn:E; [done|]. b2p.
  f_equal. destruct fuel as [|fuel]; [cbn in Hn; lia|]. apply IH; [|lia]. rewrite Nat2Z.inj_succ, Z.pow_succ_r in Hn by lia.
  split; [apply Z.div_pos; lia|]. apply Z.div_lt_upper_bound; lia.
Qed.

Lemma print_u64_int n : (0 ≤ n < 2 ^ 63)%Z → print_u64 n = print_int n.
Proof.
  intros Hn. rewrite print_int_nonneg by lia. apply decimal_more; [|lia].
  change (10 ^ Z.of_nat 19)%Z with 10000000000000000000%Z. lia.
Qed.

Lemma resp_line_bulk s : RespCommands.fits s → resp_line s = BuildBulkString s.
Proof.
  intros H. rewrite BuildBulkString_eq, fits_i64 by done. unfold resp_line, zlen, RespCommands.fits in *.
  rewrite print_u64_int by lia. reflexivity.
Qed.

Lemma lines_bulk l : Forall RespCommands.fits l → concat (map resp_line l) = concat (map BuildBulkString l).
Proof. induction 1 as [|a l Ha Hl IH]; [done|]. cbn [map concat]. by rewrite resp_line_bulk, IH. Qed.

Lemma aof_text_message e : sendable_command e.1 e.2 → aof_text e.1 e.2 = message e.
Proof.
  intros H. unfold message. rewrite (command_header _ _ H). destruct H as (H1 & H2 & H3 & _). unfold aof_text.
  rewrite foldl_concat. unfold zlen. rewrite u64_small by (unfold in_u64; lia). rewrite print_u64_int by lia.
  replace (Z.of_nat (length e.2) + 1)%Z with (Z.of_nat (S (length e.2))) by lia. cbn [map concat].
  rewrite (resp_line_bulk e.1), <- !app_assoc by done. cbn [app].
  by rewrite (lines_bulk _ H2).
Qed.

(** The file of a log. *)
Definition aof_file (log : list (bytes * list bytes)) : bytes := concat ((λ e, aof_text e.1 e.2) <$> log).

(** ** Executing the commands of a file *)

(** The commands that a connection hands to the executor. *)
Definition commands_of (events : list event) : list Command :=
  omap (λ ev, match ev with Enqueue cmd => Some cmd | SendResponseViaQueue _ => None end) events.

(** A server without permissions, slots and other workers. *)
Definition open_serve : list (Z * Z * Command) → Worker Ctx → Worker Ctx := serve None (λ _, []) 0 (λ _, 0%Z) false.

Definition load now (events : list event) c : Ctx :=
  db (open_serve ((λ cmd, (now, 0%Z, cmd)) <$> commands_of events) (MkWorker c ∅)).

Abbreviation open_env := (string_env None (λ _, []) 0 (λ _, 0%Z) false).

(** What the registry has for the commands of the log. *)
Lemma shape_entry now name n (exact : bool) :
  (name, (n, exact)) ∈ log_shapes →
  ∃ h r b, find_handler name string_table = Some h ∧
    commands_ (open_env now) !! name =
      Some (MkEntry (if exact then Z.of_nat (S n) else - Z.of_nat (S n)) r b (HData (λ _ cmd, run (h now cmd)))) ∧
    is_command_name name (B "WATCH") = false ∧ NormalizeUppercase name = name ∧ name ≠ [].
Proof.
  intros H. unfold log_shapes in H.
  repeat (apply elem_of_cons in H as [H|H]; [injection H as -> -> ->; eexists _, _, _; repeat split; [reflexivity..|done]|]).
  by apply not_elem_of_nil in H.
Qed.

(** A command of the log, executed, is what replaying it is. *)
Lemma process_entry now d e :
  well_shaped e → (Z.of_nat (S (length e.2)) < 2 ^ 31)%Z →
  (process_client (open_env now) 0 (command_of e.1 e.2) (MkWorker d ∅)).1 = MkWorker (replay now d e) ∅.
Proof.
  destruct e as [name args]. intros (n & exact & Hin & Hn) Hlen. cbn [fst snd] in *.
  destruct (shape_entry now name n exact Hin) as (h & r & b & Hh & He & Hw & Hu & Hne).
  unfold process_client. change (IsInTransaction 0 (store (MkWorker d ∅))) with false. cbv zeta. cbn [andb]. rewrite andb_false_r.
  change (cmd_name (command_of name args)) with name. rewrite Hw. cbn [andb].
  set (target := match cmd_args (command_of name args) with [] => _ | _ => _ end).
  assert (Ht : target = 0%Z) by (unfold target; destruct (cmd_args _); [done|]; by destruct (_ && _)). rewrite Ht. clear target Ht.
  change (0 =? worker_id_ (open_env now))%Z with true. cbv iota.
  assert (HR : RegistryExecute (open_env now) 0 (command_of name args) (MkWorker d ∅) =
    run_handler (open_env now) 0 (command_of name args) (HData (λ _ cmd, run (h now cmd))) (MkWorker d ∅)).
  { unfold RegistryExecute. change (cmd_name (command_of name args)) with name. rewrite bool_decide_eq_false_2 by done. cbv zeta.
    rewrite Hu, He. assert (Ha : ∀ en : CommandEntry Ctx, arity en = (if exact then Z.of_nat (S n) else - Z.of_nat (S n))%Z →
      wrong_arity en (command_of name args) = false).
    { intros en Ea. unfold wrong_arity. rewrite Ea. cbn [command_of cmd_args]. rewrite length_map.
      rewrite !i32_small by (rewrite ?i32_small; unfold in_i32; lia). destruct exact.
      - rewrite (proj2 (Z.ltb_lt _ _)) by lia. apply negb_false_iff, Z.eqb_eq. lia.
      - rewrite (proj2 (Z.ltb_ge _ _)), (proj2 (Z.ltb_lt _ _)) by lia. apply Z.ltb_ge. lia. }
    rewrite Ha by done. done. }
  unfold ShardExecute. change (bool_decide (CheckClusterSlot (open_env now) _ = [])) with true. cbn [negb]. rewrite HR.
  cbn [run_handler db store]. unfold replay. cbn [fst snd]. rewrite Hh.
  change (MkCommand name (bulk <$> args)) with (command_of name args).
  destruct (run (h now (command_of name args)) d) as [d' o]. cbn. by destruct o as [[]| |].
Qed.

Lemma open_serve_entries now log : ∀ d,
  Forall well_shaped log → Forall valid_command log →
  open_serve ((λ e, (now, 0%Z, command_of e.1 e.2)) <$> log) (MkWorker d ∅) = MkWorker (replay_log now log d) ∅.
Proof.
  unfold open_serve, serve, replay_log. induction log as [|e log IH]; intros d Hs Hv; [done|].
  inversion Hs as [|? ? H1 H2]; inversion Hv as [|? ? H3 H4]; subst. cbn [fmap list_fmap foldl].
  rewrite process_entry; [by apply IH|done|]. by destruct H3 as [(_ & _ & H3 & _) _].
Qed.

Lemma commands_received log : commands_of (map received log) = (λ e, command_of e.1 e.2) <$> log.
Proof. induction log as [|e log IH]; [done|]. cbn. by f_equal. Qed.

Lemma aof_file_messages log : Forall valid_command log → aof_file log = concat (map message log).
Proof.
  unfold aof_file. induction 1 as [|e log [He _] _ IH]; [done|]. cbn [fmap list_fmap concat map]. by rewrite aof_text_message, IH.
Qed.

Lemma incomplete_nil log : incomplete [] log.
Proof. destruct log as [|e log]; [done|]. exists (message e). split; [|done]. unfold message. by rewrite BuildArrayOfStrings_eq. Qed.

(** C1. The append-only file restores the strings. Any clients send string
    commands to a worker, in transactions or not, each at its time, under any
    permissions, slots and routes. The bytes that the worker logged, sent to a
    server with the strings the worker began with, in reads of any sizes and at
    any time, leave it with exactly the strings the worker ended with, and it logs
    the same bytes. This holds for a single worker without eviction and RocksDB,
    for log entries whose texts fit the parser, and for commands of bulk strings
    that are [proper]: none of INCRBYFLOAT, PSETEX, COPY, RESTORE, UNLINK and
    GETDEL, which change strings and log nothing ([getdel_comes_back]), and no SET
    with EX or PX, whose logged time is wrong ([replayed_expiry]). Expiry times
    are not part of it. *)
Theorem aof_restores permissions slot_check self shard master trace (w : Worker Ctx) now d chunks :
  Forall (λ x, proper x.2) trace → plain (db w) → queues_ok (store w) → plain d → cstrs d = cstrs (db w) →
  let c := db (serve permissions slot_check self shard master trace w) in
  let log := drop (length (ctx_log (db w))) (ctx_log c) in
  Forall valid_command log → concat chunks = aof_file log →
  ∃ conn events, run_reads chunks cleared = Some (conn, events) ∧
    cstrs (load now events d) = cstrs c ∧ ctx_log (load now events d) = ctx_log d ++ log.
Proof.
  intros Ht Hp Hq Hd E. destruct (serve_tracks permissions slot_check self shard master trace w Ht Hp Hq) as [(_ & log & El & Hs & H) _].
  cbv zeta. rewrite El, drop_app_length. intros Hv Hc. rewrite (aof_file_messages log Hv) in Hc.
  destruct (run_reads_stream chunks log cleared Hv (Nat.le_0_l _) (incomplete_nil log) Hc) as (conn & Hr & _ & _).
  exists conn, (map received log). split; [done|]. unfold load. rewrite commands_received.
  replace ((λ cmd, (now, 0%Z, cmd)) <$> ((λ e, command_of e.1 e.2) <$> log)) with ((λ e, (now, 0%Z, command_of e.1 e.2)) <$> log)
    by (by rewrite <- list_fmap_compose).
  rewrite open_serve_entries by done. cbn [db]. destruct (H now d Hd E) as (_ & H1 & H2). done.
Qed.
End AofReplay.

(** ** Witness *)

#[local] Existing Instance small_platform.
#[local] Instance small_text : DoubleText := {| dtoa _ := []; atod _ := None |}.
#[local] Instance small_allocator : Allocator := {| reserve_values n := (n <=? 1000)%Z; reserve_args n := (n <=? 1000)%Z |}.

(** The log of the trace of two clients. *)
Definition small_log : list (bytes * list bytes) :=
  [(B "SET", [B "a"; B "5"]); (B "APPEND", [B "b"; B "x"]); (B "INCR", [B "a"]); (B "DEL", [B "b"]);
   (B "SETRANGE", [B "b"; B "2"; B "yz"]); (B "GETSET", [B "a"; B "7"])].

Lemma small_valid : Forall valid_command small_log.
Proof.
  repeat constructor; vm_compute; reflexivity.
Qed.

Lemma aof_restores_witness :
  let c := db (serve None (λ _, []) 0 (λ _, 0)%Z true small_trace (MkWorker small_context ∅)) in
  ctx_log c = small_log ∧ cstrs c !! B "a" = Some (B "7") ∧
  ∃ conn events, run_reads [take 40 (aof_file small_log); drop 40 (aof_file small_log)] cleared = Some (conn, events) ∧
    cstrs (load 100 events small_context) = cstrs c.
Proof.
  cbv zeta. assert (El : ctx_log (db (serve None (λ _, []) 0 (λ _, 0)%Z true small_trace (MkWorker small_context ∅))) = small_log)
    by (vm_compute; reflexivity).
  split; [exact El|]. split; [vm_compute; reflexivity|].
  assert (H := aof_restores None (λ _, []) 0 (λ _, 0)%Z true small_trace (MkWorker small_context ∅) 100 small_context
    [take 40 (aof_file small_log); drop 40 (aof_file small_log)]).
  cbv zeta in H. change (length (ctx_log (db (MkWorker small_context ∅)))) with 0 in H. rewrite drop_0, El in H.
  destruct H as (conn & events & H1 & H2 & _).
  - apply (bool_decide_unpack _). vm_compute. exact I.
  - exact small_plain.
  - intros id. constructor.
  - exact small_plain.
  - reflexivity.
  - exact small_valid.
  - vm_compute. reflexivity.
  - exists conn, events. exact (conj H1 H2).
Defined.
