(* ===== verification/Rdb.v ===== *)
(** * Snapshot files

    Models src/astra/persistence/rdb_common.hpp, rdb_writer.hpp and
    rdb_reader.hpp: the records of a snapshot, the writer with its temporary
    file and running checksum, and the reader.  Writes of an open file succeed;
    opening and renaming may fail.  A read past the end of the file leaves the
    rest of the buffer as it was, which [stale] gives where the source leaves it
    uninitialised.  CRC32C is a class. *)
From S2P Require Import Prelude.
From S2P Require Import Simd.
From S2P Require Import Numbers.
From S2P Require Import KeyMetadata.
From S2P Require Import AofWriter.

(** ** Records *)

Definition RDB_OPCODE_EOF : Z := 255.
Definition RDB_OPCODE_SELECTDB : Z := 254.
Definition RDB_OPCODE_RESIZEDB : Z := 251.
Definition RDB_OPCODE_EXPIRETIME_MS : Z := 253.
Definition RDB_OPCODE_AUX : Z := 250.
Definition RDB_TYPE_STRING : Z := 0.
Definition RDB_TYPE_HASH : Z := 1.
Definition RDB_TYPE_LIST : Z := 2.
Definition RDB_TYPE_SET : Z := 3.
Definition RDB_TYPE_ZSET : Z := 4.
Definition RDB_VERSION : Z := 10.

Definition KeyTypeToRdbType (key_type : KeyType) : Z :=
  match key_type with
  | kString => RDB_TYPE_STRING
  | kHash => RDB_TYPE_HASH
  | kList => RDB_TYPE_LIST
  | kSet => RDB_TYPE_SET
  | kZSet => RDB_TYPE_ZSET
  | kStream => RDB_TYPE_HASH
  | _ => RDB_TYPE_STRING
  end.

Definition RdbTypeToKeyType (rdb_type : Z) : KeyType :=
  if (rdb_type =? RDB_TYPE_STRING)%Z then kString
  else if (rdb_type =? RDB_TYPE_HASH)%Z then kHash
  else if (rdb_type =? RDB_TYPE_LIST)%Z then kList
  else if (rdb_type =? RDB_TYPE_SET)%Z then kSet
  else if (rdb_type =? RDB_TYPE_ZSET)%Z then kZSet
  else kString.

Record RdbKeyValue := MkRdbKv { kv_type : Z; kv_key : bytes; kv_value : bytes; kv_expire_ms : Z }.

(** [absl::ExtendCrc32c] *)
Class Crc32c := { ExtendCrc32c : Z → bytes → Z }.

(** Extending by two texts in turn is extending by both; a sum has 32 bits. *)
Class Crc32cOk {C : Crc32c} : Prop := {
  ExtendCrc32c_nil c : ExtendCrc32c c [] = c;
  ExtendCrc32c_app c s t : ExtendCrc32c (ExtendCrc32c c s) t = ExtendCrc32c c (s ++ t);
  ExtendCrc32c_range c s : in_u32 c → in_u32 (ExtendCrc32c c s)
}.

Record RdbOptions := MkRdbOptions { save_path : bytes; rdb_compress : bool; rdb_compression_level : Z; checksum : bool }.

Record RdbWriter := MkRdbWriter {
  rdb_options_ : RdbOptions;
  rdb_initialized_ : bool;
  current_file_ : option nat;
  crc_value_ : Z;
  rdb_files : Files
}.

(** A stream: what is left to read, and whether the end was hit.  [reads] counts
    the reads. *)
Record Stream := MkStream { left_ : bytes; eof_ : bool; reads : nat }.

Record RdbReader := MkRdbReader {
  file_path_ : bytes;
  reader_initialized_ : bool;
  reader_file_ : option Stream;
  verify_checksum_ : bool;
  reader_crc_ : Z
}.

(** The bytes of a number, the lowest or the highest first. *)
Definition le_bytes (n : nat) (v : Z) : bytes := (λ i, of_code (Z.land (Z.shiftr v (8 * Z.of_nat i)) 255)) <$> seq 0 n.
Definition be_bytes (n : nat) (v : Z) : bytes := reverse (le_bytes n v).
Fixpoint le_value (s : bytes) : Z := match s with [] => 0 | c :: s => (code c + 256 * le_value s)%Z end.

Section RdbWriter.
Context {C : Crc32c}.
Implicit Types w : RdbWriter.

(** ** The writer *)

(** [creates] says whether the directory could be made. *)
Definition RdbInit (options : RdbOptions) (creates : bool) w : RdbWriter * bool :=
  if creates then (MkRdbWriter options true (current_file_ w) (crc_value_ w) (rdb_files w), true)
  else (MkRdbWriter options (rdb_initialized_ w) (current_file_ w) (crc_value_ w) (rdb_files w), false).

Definition RdbStop w : RdbWriter :=
  MkRdbWriter (rdb_options_ w) (rdb_initialized_ w) None (crc_value_ w) (rdb_files w).

Definition RdbWrite (data : bytes) w : RdbWriter :=
  match current_file_ w with
  | None => w
  | Some i =>
      MkRdbWriter (rdb_options_ w) (rdb_initialized_ w) (Some i) (ExtendCrc32c (crc_value_ w) data)
        (append_inode i data (rdb_files w))
  end.

Definition byte (b : Z) : bytes := [of_code (u8 b)].

Definition WriteLength (len : Z) w : RdbWriter :=
  if (len <? 64)%Z then RdbWrite (byte len) w
  else if (len <? 16384)%Z then
    let v := Z.lor (u16 len) 16384 in
    RdbWrite (byte (Z.land v 255)) (RdbWrite (byte (Z.land (Z.shiftr v 8) 255)) w)
  else RdbWrite (be_bytes 8 len) (RdbWrite (byte 128) w).

Definition WriteString (str : bytes) w : RdbWriter := RdbWrite str (WriteLength (u64 (zlen str)) w).

Definition WriteAux (key value : bytes) w : RdbWriter :=
  WriteString value (WriteString key (RdbWrite (byte RDB_OPCODE_AUX) w)).

Definition SelectDb (db_num : Z) w : RdbWriter :=
  match current_file_ w with
  | None => w
  | Some _ => WriteLength (u64 db_num) (RdbWrite (byte RDB_OPCODE_SELECTDB) w)
  end.

Definition ResizeDb (db_size expires_size : Z) w : RdbWriter :=
  match current_file_ w with
  | None => w
  | Some _ => WriteLength expires_size (WriteLength db_size (RdbWrite (byte RDB_OPCODE_RESIZEDB) w))
  end.

Definition WriteKv (kv : RdbKeyValue) w : RdbWriter :=
  match current_file_ w with
  | None => w
  | Some _ =>
      let w :=
        if (0 <=? kv_expire_ms kv)%Z
        then RdbWrite (le_bytes 8 (u64 (kv_expire_ms kv))) (RdbWrite (byte RDB_OPCODE_EXPIRETIME_MS) w)
        else w in
      WriteString (kv_value kv) (WriteString (kv_key kv) (RdbWrite (byte (kv_type kv)) w))
  end.

Definition rdb_temp_path (path : bytes) : bytes := path ++ B ".tmp".

(** [opens] and [renames] say what succeeds; [now] is the clock in milliseconds. *)
Definition RdbSave (now : Z) (opens renames : bool) (save_callback : RdbWriter → RdbWriter) w : RdbWriter * bool :=
  if negb (rdb_initialized_ w) then (w, false)
  else if negb opens then (RdbStop w, false)
  else
    let temp := rdb_temp_path (save_path (rdb_options_ w)) in
    let '(i, fs) := open_truncate temp (rdb_files w) in
    let w := MkRdbWriter (rdb_options_ w) true (Some i) 0 fs in
    let w := RdbWrite (byte RDB_VERSION) (RdbWrite (B "REDIS") w) in
    let w := WriteAux (B "redis-bits") (B "64") (WriteAux (B "redis-ver") (B "6.0.0") w) in
    let w := WriteAux (B "ctime") (print_int (now / 1000)) w in
    let w := save_callback w in
    let w := RdbWrite (byte RDB_OPCODE_EOF) w in
    let fs := if checksum (rdb_options_ w)
              then append_inode i (le_bytes 4 (crc_value_ w)) (rdb_files w) else rdb_files w in
    let fs := if renames then rename temp (save_path (rdb_options_ w)) fs else fs in
    (MkRdbWriter (rdb_options_ w) (rdb_initialized_ w) None (crc_value_ w) fs, renames).
End RdbWriter.

(** ** The reader *)

Section RdbReader.
Context {C : Crc32c} (stale : nat → nat → ascii).
Implicit Types r : RdbReader.

Definition ReaderInit (file_path : bytes) (verify : bool) (fs : Files) r : RdbReader * bool :=
  if path_exists file_path fs then (MkRdbReader file_path true (reader_file_ r) verify (reader_crc_ r), true)
  else (MkRdbReader file_path (reader_initialized_ r) (reader_file_ r) verify (reader_crc_ r), false).

(** [istream::read] into a buffer: a stream that hit its end gives nothing more. *)
Definition stream_read (buffer : bytes) (f : Stream) : Stream * bytes :=
  if eof_ f then (MkStream (left_ f) true (S (reads f)), buffer)
  else
    let got := take (length buffer) (left_ f) in
    (MkStream (drop (length buffer) (left_ f)) (length (left_ f) <? length buffer) (S (reads f)),
     got ++ drop (length got) buffer).

(** A buffer on the stack. *)
Definition fresh_buffer (len : nat) (f : Stream) : bytes := stale (reads f) <$> seq 0 len.

(** Hitting the end is no failure. *)
Definition Read_into (buffer : Stream → bytes) r : RdbReader * option bytes :=
  match reader_file_ r with
  | None => (r, None)
  | Some f =>
      let '(f, data) := stream_read (buffer f) f in
      (MkRdbReader (file_path_ r) (reader_initialized_ r) (Some f) (verify_checksum_ r) (ExtendCrc32c (reader_crc_ r) data),
       Some data)
  end.
Definition Read (len : nat) : RdbReader → RdbReader * option bytes := Read_into (fresh_buffer len).

Definition byte_of (s : bytes) : Z := match s with c :: _ => code c | [] => 0 end.

Definition ReadOpcode r : RdbReader * Z :=
  match Read 1 r with
  | (r, None) => (r, RDB_OPCODE_EOF)
  | (r, Some s) => (r, byte_of s)
  end.

Definition ReadLength r : RdbReader * Z :=
  match Read 1 r with
  | (r, None) => (r, 0%Z)
  | (r, Some s) =>
      let first_byte := byte_of s in
      if (first_byte <? 64)%Z then (r, first_byte)
      else if (first_byte <? 128)%Z then
        match Read 1 r with
        | (r, None) => (r, 0%Z)
        | (r, Some s) => (r, Z.land (u16 (Z.lor (Z.shiftl first_byte 8) (byte_of s))) 16383)
        end
      else
        match Read 1 r with
        | (r, None) => (r, 0%Z)
        | (r, Some s) =>
            if negb (byte_of s =? 128)%Z then
              let len := Z.shiftl (byte_of s) 8 in
              match Read 1 r with
              | (r, None) => (r, 0%Z)
              | (r, Some s) => (r, Z.lor len (byte_of s))
              end
            else (r, 0%Z)
        end
  end.

Definition ReadString r : RdbReader * bytes :=
  let '(r, len) := ReadLength r in
  if (len =? 0)%Z then (r, [])
  else match Read_into (λ _, replicate (Z.to_nat len) "000"%char) r with
       | (r, None) => (r, [])
       | (r, Some str) => (r, str)
       end.

Definition ReadUint64 r : RdbReader * Z :=
  match Read 8 r with
  | (r, None) => (r, 0%Z)
  | (r, Some s) => (r, le_value s)
  end.

Definition ReadHeader r : RdbReader * bool :=
  match Read 5 r with
  | (r, None) => (r, false)
  | (r, Some magic) =>
      if negb (bool_decide (magic = B "REDIS")) then (r, false)
      else match Read 1 r with
           | (r, None) => (r, false)
           | (r, Some s) => (r, (byte_of s =? RDB_VERSION)%Z)
           end
  end.

(** No result: the fields do not end within the fuel. *)
Fixpoint ReadAuxFields (fuel : nat) r : option (RdbReader * Z) :=
  match fuel with
  | 0 => None
  | S fuel =>
      let '(r, opcode) := ReadOpcode r in
      if (opcode =? RDB_OPCODE_EOF)%Z then Some (r, opcode)
      else if negb (opcode =? RDB_OPCODE_AUX)%Z then Some (r, opcode)
      else let r := (ReadString r).1 in ReadAuxFields fuel (ReadString r).1
  end.

Definition ReadKeyValue {State : Type} (type expire_ms db_num : Z) (callback : Z → RdbKeyValue → State → State) (r : RdbReader) (s : State) : RdbReader * State :=
  let '(r, key) := ReadString r in
  if decide (key = []) then (r, s)
  else
    let '(r, value) := ReadString r in
    if decide (value = []) then (r, s) else (r, callback db_num (MkRdbKv type key value expire_ms) s).

(** The sections, from an opcode that was read. *)
Fixpoint read_sections {State : Type} (callback : Z → RdbKeyValue → State → State) (fuel : nat) (opcode current_db : Z) (r : RdbReader) (s : State) : option (RdbReader * State) :=
  match fuel with
  | 0 => None
  | S fuel =>
      if (opcode =? RDB_OPCODE_EOF)%Z then Some (r, s)
      else
        let '(r, s, current_db) :=
          if (opcode =? RDB_OPCODE_SELECTDB)%Z then let '(r, n) := ReadLength r in (r, s, i32 n)
          else if (opcode =? RDB_OPCODE_RESIZEDB)%Z then ((ReadLength (ReadLength r).1).1, s, current_db)
          else if (opcode =? RDB_OPCODE_EXPIRETIME_MS)%Z then
            let '(r, exp) := ReadUint64 r in
            let '(r, type) := ReadOpcode r in
            (ReadKeyValue type (i64 exp) current_db callback r s, current_db)
          else (ReadKeyValue opcode (-1) current_db callback r s, current_db) in
        let '(r, opcode) := ReadOpcode r in
        read_sections callback fuel opcode current_db r s
  end.

Definition VerifyChecksum r : RdbReader * bool :=
  match reader_file_ r with
  | None => (r, false)
  | Some f =>
      let '(f, data) := stream_read (fresh_buffer 4 f) f in
      (MkRdbReader (file_path_ r) (reader_initialized_ r) (Some f) (verify_checksum_ r) (reader_crc_ r),
       (le_value data =? reader_crc_ r)%Z)
  end.

Definition close_reader r : RdbReader :=
  MkRdbReader (file_path_ r) (reader_initialized_ r) None (verify_checksum_ r) (reader_crc_ r).

(** No result: the file has more sections than the fuel, or none of the opcodes
    read past the end ends it. *)
Definition RdbLoad {State : Type} (callback : Z → RdbKeyValue → State → State) (fuel : nat) (fs : Files) (r : RdbReader) (s : State) : option (RdbReader * State * bool) :=
  if negb (reader_initialized_ r) then Some (r, s, false)
  else
    match read_path (file_path_ r) fs with
    | None => Some (close_reader r, s, false)
    | Some content =>
        let r := MkRdbReader (file_path_ r) true (Some (MkStream content false 0)) (verify_checksum_ r) 0 in
        let '(r, ok) := ReadHeader r in
        if negb ok then Some (close_reader r, s, false)
        else
          '(r, opcode) ← ReadAuxFields fuel r;
          '(r, s) ← read_sections callback fuel opcode 0 r s;
          if verify_checksum_ r then
            let '(r, ok) := VerifyChecksum r in
            Some (close_reader r, s, ok)
          else Some (close_reader r, s, true)
    end.
End RdbReader.
