(* ===== verification/RdbContract.v ===== *)
(** * Snapshot files: the contract

    The texts of lengths, strings and records, and the reader run over them. *)
From S2P Require Import Prelude.
From S2P Require Import Simd.
From S2P Require Import Numbers.
From S2P Require Import AofWriter.
From S2P Require Import Rdb.

(** ** The texts *)

Definition length_text (len : Z) : bytes :=
  if (len <? 64)%Z then byte len
  else if (len <? 16384)%Z then
    byte (Z.land (Z.shiftr (Z.lor (u16 len) 16384) 8) 255) ++ byte (Z.land (Z.lor (u16 len) 16384) 255)
  else byte 128 ++ be_bytes 8 len.
Definition string_text (s : bytes) : bytes := length_text (u64 (zlen s)) ++ s.
Definition aux_text (key value : bytes) : bytes := byte RDB_OPCODE_AUX ++ string_text key ++ string_text value.

(** What a callback writes. *)
Inductive item := ISelect (db_num : Z) | IResize (db_size expires_size : Z) | IKv (kv : RdbKeyValue).

Definition expiry_text (expire_ms : Z) : bytes :=
  if (0 <=? expire_ms)%Z then byte RDB_OPCODE_EXPIRETIME_MS ++ le_bytes 8 (u64 expire_ms) else [].
Definition item_text (it : item) : bytes :=
  match it with
  | ISelect n => byte RDB_OPCODE_SELECTDB ++ length_text (u64 n)
  | IResize a b => byte RDB_OPCODE_RESIZEDB ++ length_text a ++ length_text b
  | IKv kv => expiry_text (kv_expire_ms kv) ++ byte (kv_type kv) ++ string_text (kv_key kv) ++ string_text (kv_value kv)
  end.
Definition items_text (items : list item) : bytes := concat (item_text <$> items).

Lemma items_text_app l k : items_text (l ++ k) = items_text l ++ items_text k.
Proof. unfold items_text. by rewrite fmap_app, concat_app. Qed.

(** ** The writer *)

Section writing.
Context {C : Crc32c} {HC : Crc32cOk}.
Implicit Types w : RdbWriter.

Definition write_item (it : item) : RdbWriter → RdbWriter :=
  match it with ISelect n => SelectDb n | IResize a b => ResizeDb a b | IKv kv => WriteKv kv end.
Definition write_items (items : list item) w : RdbWriter := foldl (λ w it, write_item it w) w items.

Lemma append_append i a b fs : append_inode i b (append_inode i a fs) = append_inode i (a ++ b) fs.
Proof. unfold append_inode. cbn. rewrite lookup_insert_eq, insert_insert_eq. cbn. by rewrite app_assoc. Qed.

Lemma RdbWrite_app a b w : RdbWrite b (RdbWrite a w) = RdbWrite (a ++ b) w.
Proof.
  unfold RdbWrite. destruct (current_file_ w) as [i|] eqn:E; [|by rewrite E]. cbn.
  by rewrite append_append, ExtendCrc32c_app.
Qed.

Lemma WriteLength_text len w : WriteLength len w = RdbWrite (length_text len) w.
Proof. unfold WriteLength, length_text. repeat case_match; by rewrite ?RdbWrite_app. Qed.

Lemma WriteString_text s w : WriteString s w = RdbWrite (string_text s) w.
Proof. unfold WriteString. by rewrite WriteLength_text, RdbWrite_app. Qed.

Lemma WriteAux_text key value w : WriteAux key value w = RdbWrite (aux_text key value) w.
Proof. unfold WriteAux. by rewrite !WriteString_text, !RdbWrite_app, <- ?app_assoc. Qed.

Lemma write_item_text it w : is_Some (current_file_ w) → write_item it w = RdbWrite (item_text it) w.
Proof.
  intros [i Hi]. destruct it as [n|a b|kv]; cbn [write_item]; unfold SelectDb, ResizeDb, WriteKv; rewrite Hi; cbv zeta.
  - by rewrite WriteLength_text, RdbWrite_app.
  - by rewrite !WriteLength_text, !RdbWrite_app, <- ?app_assoc.
  - rewrite !WriteString_text. cbn [item_text]. unfold expiry_text. destruct (0 <=? _)%Z; by rewrite !RdbWrite_app, <- ?app_assoc.
Qed.

Lemma RdbWrite_file s w : current_file_ (RdbWrite s w) = current_file_ w.
Proof. unfold RdbWrite. by destruct (current_file_ w) eqn:E. Qed.

Lemma write_items_text items : ∀ w, is_Some (current_file_ w) → w = RdbWrite [] w → write_items items w = RdbWrite (items_text items) w.
Proof.
  induction items as [|it items IH]; intros w Hw He; [done|].
  change (write_items (it :: items) w) with (write_items items (write_item it w)).
  rewrite write_item_text by done. rewrite IH; [by rewrite RdbWrite_app|by rewrite RdbWrite_file|by rewrite RdbWrite_app, app_nil_r].
Qed.

Definition head_text (now : Z) : bytes :=
  B "REDIS" ++ byte RDB_VERSION ++ aux_text (B "redis-ver") (B "6.0.0") ++ aux_text (B "redis-bits") (B "64") ++
  aux_text (B "ctime") (print_int (now / 1000)).
Definition body_text (now : Z) (items : list item) : bytes := head_text now ++ items_text items ++ byte RDB_OPCODE_EOF.
Definition file_text (now : Z) (sum : bool) (items : list item) : bytes :=
  body_text now items ++ if sum then le_bytes 4 (ExtendCrc32c 0 (body_text now items)) else [].

Lemma rdb_temp_ne path : rdb_temp_path path ≠ path.
Proof. by apply suffixed. Qed.

(** A snapshot that is saved is under its path. *)
Lemma RdbSave_text now items w :
  rdb_initialized_ w = true →
  let '(w', ok) := RdbSave now true true (write_items items) w in
  ok = true ∧ current_file_ w' = None ∧ rdb_options_ w' = rdb_options_ w ∧
  read_path (save_path (rdb_options_ w)) (rdb_files w') = Some (file_text now (checksum (rdb_options_ w)) items).
Proof.
  intros Hi. unfold RdbSave. rewrite Hi. cbn [negb]. set (temp := rdb_temp_path _).
  destruct (open_truncate temp (rdb_files w)) as [i fs] eqn:E.
  assert (Hfs : directory fs !! temp = Some i ∧ contents fs !! i = Some []).
  { revert E. unfold open_truncate, open_append. destruct (directory _ !! temp) eqn:D; intros [= <- <-]; cbn; by rewrite ?lookup_insert_eq. }
  cbv zeta. rewrite !WriteAux_text, !RdbWrite_app, write_items_text by (rewrite ?RdbWrite_app, ?app_nil_r; done).
  rewrite !RdbWrite_app. match goal with |- context [RdbWrite ?t _] => replace t with (body_text now items) end.
  2: { unfold body_text, head_text. by rewrite <- !app_assoc. }
  unfold file_text. generalize (body_text now items). intros text. unfold RdbWrite. cbn.
  split; [done|]. split; [done|]. split; [done|]. destruct Hfs as [Hd Hc]. unfold read_path, rename.
  destruct (checksum (rdb_options_ w)); cbn -[le_bytes]; rewrite Hd; cbn -[le_bytes]; 
    rewrite !lookup_insert_eq, Hc; cbn -[le_bytes]; by rewrite ?lookup_insert_eq, ?app_nil_r.
Qed.
End writing.

(** ** The bytes of numbers *)

Lemma byte_code b : (0 ≤ b < 256)%Z → byte b = [of_code b] ∧ code (of_code b) = b.
Proof. intros H. split; [|by apply code_of_code]. unfold byte, u8, wrap. by rewrite Z.mod_small. Qed.

Lemma le_bytes_S n v : le_bytes (S n) v = of_code (Z.land v 255) :: le_bytes n (Z.shiftr v 8).
Proof.
  unfold le_bytes. cbn [seq]. rewrite <- fmap_S_seq, fmap_cons, <- list_fmap_compose.
  rewrite Z.shiftr_0_r. f_equal. apply list_fmap_ext. intros i x _. cbn [compose]. rewrite Z.shiftr_shiftr by lia. do 3 f_equal. lia.
Qed.

Lemma land_255 v : Z.land v 255 = (v mod 256)%Z.
Proof. apply (Z.land_ones v 8). lia. Qed.

Lemma lor_low a k b : (0 ≤ k)%Z → (0 ≤ b < 2 ^ k)%Z → Z.lor (Z.shiftl a k) b = (a * 2 ^ k + b)%Z.
Proof.
  intros Hk Hb. rewrite <- Z.shiftl_mul_pow2 by done. assert (E := Z.add_lor_land (Z.shiftl a k) b).
  assert (E0 : Z.land (Z.shiftl a k) b = 0%Z); [|lia]. apply Z.bits_inj'. intros n Hn.
  rewrite Z.land_spec, Z.shiftl_spec, Z.bits_0 by done. destruct (decide (n < k)%Z); [by rewrite Z.testbit_neg_r by lia|].
  rewrite <- (Z.mod_small b (2 ^ k)) by done. by rewrite (Z.mod_pow2_bits_high b k n), andb_false_r by lia.
Qed.

Lemma le_value_bytes n : ∀ v, (0 ≤ v < 256 ^ Z.of_nat n)%Z → le_value (le_bytes n v) = v.
Proof.
  induction n as [|n IH]; intros v Hv; [cbn in *; lia|]. rewrite le_bytes_S. cbn [le_value].
  rewrite Z.shiftr_div_pow2, land_255, code_of_code by (lia || (apply Z.mod_pos_bound; lia)). change (2 ^ 8)%Z with 256%Z.
  rewrite Nat2Z.inj_succ, Z.pow_succ_r in Hv by lia. rewrite IH; [pose proof (Z.div_mod v 256); lia|].
  split; [apply Z.div_pos; lia|apply Z.div_lt_upper_bound; lia].
Qed.

Lemma length_le_bytes n v : length (le_bytes n v) = n.
Proof. unfold le_bytes. by rewrite length_fmap, length_seq. Qed.

(** ** The reader *)

Section reading.
Context {C : Crc32c} {HC : Crc32cOk} (stale : nat → nat → ascii) (path : bytes) (verify : bool).
Implicit Types r : RdbReader.

(** The text that is ahead, and the checksum of what was read. *)
Definition ahead (text : bytes) (c : Z) r : Prop :=
  ∃ n, r = MkRdbReader path true (Some (MkStream text false n)) verify c.

Lemma Read_into_ahead buffer a t c r :
  (∀ f, length (buffer f) = length a) → ahead (a ++ t) c r →
  ∃ r', Read_into buffer r = (r', Some a) ∧ ahead t (ExtendCrc32c c a) r'.
Proof.
  intros Hb [n ->]. unfold Read_into, stream_read. cbn -[Nat.ltb]. rewrite Hb, take_app_length, drop_app_length, length_app.
  rewrite drop_ge by (by rewrite Hb). rewrite app_nil_r. rewrite (proj2 (Nat.ltb_ge _ _)) by lia.
  eexists. split; [done|]. by eexists.
Qed.

Lemma Read_ahead len a t c r :
  length a = len → ahead (a ++ t) c r → ∃ r', Read stale len r = (r', Some a) ∧ ahead t (ExtendCrc32c c a) r'.
Proof. intros <- H. apply Read_into_ahead; [|done]. intros f. unfold fresh_buffer. by rewrite length_fmap, length_seq. Qed.

Lemma ReadOpcode_ahead b t c r :
  (0 ≤ b < 256)%Z → ahead (byte b ++ t) c r → ∃ r', ReadOpcode stale r = (r', b) ∧ ahead t (ExtendCrc32c c (byte b)) r'.
Proof.
  intros Hb H. destruct (Read_ahead 1 (byte b) t c r eq_refl H) as (r' & E & H'). exists r'. split; [|done].
  unfold ReadOpcode. rewrite E. destruct (byte_code b Hb) as [-> Hc]. cbn. by rewrite Hc.
Qed.

(** A length of fourteen bits, as two bytes of which the first is tagged. *)
Lemma long_length len :
  (64 ≤ len < 16384)%Z →
  let v := Z.lor (u16 len) 16384 in
  Z.land (Z.shiftr v 8) 255 = (64 + len / 256)%Z ∧ Z.land v 255 = (len mod 256)%Z ∧
  Z.land (u16 (Z.lor (Z.shiftl (64 + len / 256) 8) (len mod 256))) 16383 = len.
Proof.
  intros H v. assert (Hq : (0 ≤ len / 256 < 64)%Z) by (split; [apply Z.div_pos|apply Z.div_lt_upper_bound]; lia).
  assert (Hm := Z.mod_pos_bound len 256 ltac:(lia)). assert (Hd := Z.div_mod len 256 ltac:(lia)).
  assert (Hv : v = (len + 16384)%Z).
  { unfold v, u16, wrap. rewrite Z.mod_small by lia. rewrite Z.lor_comm.
    change 16384%Z with (Z.shiftl 1 14). rewrite (lor_low 1 14 len) by lia. change (Z.shiftl 1 14) with (1 * 2 ^ 14)%Z. lia. }
  rewrite Hv, !land_255, Z.shiftr_div_pow2, (lor_low (64 + len / 256) 8 (len mod 256)) by lia.
  change (2 ^ 8)%Z with 256%Z. change 16384%Z with (64 * 256)%Z. rewrite Z.div_add, Z.mod_add by lia.
  split; [rewrite Z.mod_small; lia|]. split; [done|]. unfold u16, wrap. change 16383%Z with (Z.ones 14). rewrite Z.land_ones by lia.
  rewrite (Z.mod_small _ (2 ^ 16)) by lia. replace ((64 + len / 256) * 256 + len mod 256)%Z with (len + 1 * 2 ^ 14)%Z by lia.
  rewrite Z.mod_add, Z.mod_small by lia. done.
Qed.

Lemma ReadLength_ahead len t c r :
  (0 ≤ len < 16384)%Z → ahead (length_text len ++ t) c r →
  ∃ r', ReadLength stale r = (r', len) ∧ ahead t (ExtendCrc32c c (length_text len)) r'.
Proof.
  intros Hl. unfold length_text, ReadLength. destruct (len <? 64)%Z eqn:E; b2p.
  - intros H. destruct (Read_ahead 1 (byte len) _ _ _ eq_refl H) as (r1 & -> & H1). exists r1. split; [|done].
    destruct (byte_code len) as [-> Hc]; [lia|]. cbn [byte_of]. cbv zeta. rewrite Hc. by rewrite (proj2 (Z.ltb_lt _ _)).
  - rewrite (proj2 (Z.ltb_lt len 16384)) by lia. destruct (long_length len) as (-> & -> & Ev); [lia|].
    assert (Hq : (0 ≤ len / 256 < 64)%Z) by (split; [apply Z.div_pos|apply Z.div_lt_upper_bound]; lia).
    assert (Hm := Z.mod_pos_bound len 256 ltac:(lia)). intros H. rewrite <- app_assoc in H.
    destruct (Read_ahead 1 (byte (64 + len / 256)) _ _ _ eq_refl H) as (r1 & -> & H1).
    destruct (Read_ahead 1 (byte (len mod 256)) _ _ _ eq_refl H1) as (r2 & E2 & H2).
    exists r2. rewrite ExtendCrc32c_app in H2. split; [|done].
    destruct (byte_code (64 + len / 256)) as [-> Hc1]; [lia|]. destruct (byte_code (len mod 256)) as [Eb2 Hc2]; [lia|].
    cbn [byte_of]. cbv zeta. rewrite Hc1, (proj2 (Z.ltb_ge _ _)), (proj2 (Z.ltb_lt _ _)), E2 by lia.
    rewrite Eb2. cbn [byte_of]. by rewrite Hc2, Ev.
Qed.

Definition short (s : bytes) : Prop := (zlen s < 16384)%Z.

Lemma short_length s : short s → u64 (zlen s) = zlen s ∧ (0 ≤ zlen s < 16384)%Z.
Proof. unfold short, zlen. intros H. split; [|lia]. apply u64_small. unfold in_u64. lia. Qed.

Lemma ReadString_ahead s t c r :
  short s → ahead (string_text s ++ t) c r →
  ∃ r', ReadString stale r = (r', s) ∧ ahead t (ExtendCrc32c c (string_text s)) r'.
Proof.
  intros Hs H. destruct (short_length s Hs) as [El Hl]. unfold string_text in *. rewrite El, <- app_assoc in *.
  destruct (ReadLength_ahead _ _ _ _ Hl H) as (r1 & E1 & H1). unfold ReadString. rewrite E1.
  destruct (zlen s =? 0)%Z eqn:E; b2p.
  - destruct s; [|done]. exists r1. by rewrite app_nil_r.
  - assert (Hb : length (replicate (Z.to_nat (zlen s)) "000"%char) = length s) by (rewrite length_replicate; unfold zlen; lia).
    destruct (Read_into_ahead (λ _, replicate (Z.to_nat (zlen s)) "000"%char) s t _ r1 (λ _, Hb) H1) as (r2 & -> & H2).
    exists r2. by rewrite ExtendCrc32c_app in H2.
Qed.

Lemma ReadUint64_ahead n t c r :
  in_u64 n → ahead (le_bytes 8 n ++ t) c r →
  ∃ r', ReadUint64 stale r = (r', n) ∧ ahead t (ExtendCrc32c c (le_bytes 8 n)) r'.
Proof.
  intros Hn H. destruct (Read_ahead 8 _ _ _ _ (length_le_bytes 8 n) H) as (r' & E & H'). exists r'. split; [|done].
  unfold ReadUint64. rewrite E, le_value_bytes by (unfold in_u64 in Hn; cbn; lia). done.
Qed.

(** ** Sections *)

Context {State : Type} (callback : Z → RdbKeyValue → State → State).

(** From the next opcode. *)
Definition next (fuel : nat) (db : Z) (r : RdbReader) (s : State) : option (RdbReader * State) :=
  let '(r, opcode) := ReadOpcode stale r in read_sections stale callback fuel opcode db r s.

(** The reader passes the text in [k] turns, to the effect [g] on the current
    database and the state. *)
Definition covers (text : bytes) (k : nat) (g : Z * State → Z * State) : Prop :=
  ∀ t c r db s fuel, ahead (text ++ t) c r →
  ∃ r', ahead t (ExtendCrc32c c text) r' ∧ next (k + fuel) db r s = next fuel (g (db, s)).1 r' (g (db, s)).2.

Lemma covers_app a b k l g h : covers a k g → covers b l h → covers (a ++ b) (k + l) (h ∘ g).
Proof.
  intros Ha Hb t c r db s fuel H. rewrite <- app_assoc in H. destruct (Ha _ _ _ db s (l + fuel) H) as (r1 & H1 & E1).
  destruct (Hb _ _ _ (g (db, s)).1 (g (db, s)).2 fuel H1) as (r2 & H2 & E2). exists r2. rewrite ExtendCrc32c_app in H2.
  split; [done|]. rewrite <- Nat.add_assoc, E1, E2. by rewrite <- surjective_pairing.
Qed.

Definition item_ok (it : item) : Prop :=
  match it with
  | ISelect n => (0 ≤ n < 16384)%Z
  | IResize a b => (0 ≤ a < 16384)%Z ∧ (0 ≤ b < 16384)%Z
  | IKv kv => (0 ≤ kv_type kv < 250)%Z ∧ kv_key kv ≠ [] ∧ short (kv_key kv) ∧ kv_value kv ≠ [] ∧ short (kv_value kv) ∧
      (kv_expire_ms kv = -1 ∨ 0 ≤ kv_expire_ms kv < 2 ^ 63)%Z
  end.

Definition effect (it : item) (x : Z * State) : Z * State :=
  match it with
  | ISelect n => (n, x.2)
  | IResize _ _ => x
  | IKv kv => (x.1, callback x.1 kv x.2)
  end.
Definition effects (items : list item) (x : Z * State) : Z * State := foldl (λ x it, effect it x) x items.

Lemma ReadKeyValue_ahead type key value e db t c r s :
  key ≠ [] → short key → value ≠ [] → short value → ahead (string_text key ++ string_text value ++ t) c r →
  ∃ r', ReadKeyValue stale type e db callback r s = (r', callback db (MkRdbKv type key value e) s) ∧
    ahead t (ExtendCrc32c c (string_text key ++ string_text value)) r'.
Proof.
  intros Hk Hks Hv Hvs H. destruct (ReadString_ahead _ _ _ _ Hks H) as (r1 & E1 & H1).
  destruct (ReadString_ahead _ _ _ _ Hvs H1) as (r2 & E2 & H2). rewrite ExtendCrc32c_app in H2. exists r2. split; [|done].
  unfold ReadKeyValue. by rewrite E1, decide_False, E2, decide_False.
Qed.

Lemma read_sections_kv opcode db r s fuel :
  (0 ≤ opcode < 250)%Z →
  read_sections stale callback (1 + fuel) opcode db r s =
  let '(r, s) := ReadKeyValue stale opcode (-1) db callback r s in next fuel db r s.
Proof.
  intros H. cbn [read_sections Nat.add]. unfold RDB_OPCODE_EOF, RDB_OPCODE_SELECTDB, RDB_OPCODE_RESIZEDB, RDB_OPCODE_EXPIRETIME_MS.
  do 4 (rewrite (proj2 (Z.eqb_neq opcode _)) by lia). by destruct (ReadKeyValue _ _ _ _ _ _ _).
Qed.

Lemma kv_covers kv : item_ok (IKv kv) → covers (item_text (IKv kv)) 1 (effect (IKv kv)).
Proof.
  destruct kv as [type key value e]. intros (Ht & Hk & Hks & Hv & Hvs & He) t c r db s fuel H.
  cbn [item_text kv_type kv_key kv_value kv_expire_ms effect fst snd] in *.
  unfold expiry_text in *. destruct He as [-> |He].
  - cbn [Z.leb Z.compare app] in *. rewrite <- !app_assoc in H. unfold next at 1.
    destruct (ReadOpcode_ahead type _ _ _ ltac:(lia) H) as (r1 & -> & H1).
    destruct (ReadKeyValue_ahead type key value (-1) db _ _ _ s Hk Hks Hv Hvs H1) as (r2 & E2 & H2). exists r2.
    rewrite ExtendCrc32c_app in H2. split; [done|]. rewrite (read_sections_kv type db r1 s fuel), E2 by lia. done.
  - rewrite (proj2 (Z.leb_le 0 e)) in * by lia. rewrite <- !app_assoc in H. unfold next at 1.
    destruct (ReadOpcode_ahead RDB_OPCODE_EXPIRETIME_MS _ _ _ ltac:(done) H) as (r1 & -> & H1).
    rewrite (u64_small e) in * by (unfold in_u64; lia).
    destruct (ReadUint64_ahead e _ _ _ ltac:(unfold in_u64; lia) H1) as (r2 & E2 & H2).
    destruct (ReadOpcode_ahead type _ _ _ ltac:(lia) H2) as (r3 & E3 & H3).
    destruct (ReadKeyValue_ahead type key value e db _ _ _ s Hk Hks Hv Hvs H3) as (r4 & E4 & H4). exists r4.
    rewrite !ExtendCrc32c_app, <- ?app_assoc in H4. rewrite <- ?app_assoc. split; [done|]. cbn [read_sections Nat.add].
    change (RDB_OPCODE_EXPIRETIME_MS =? _)%Z with false at 1 2 3. change (RDB_OPCODE_EXPIRETIME_MS =? _)%Z with true. cbv iota.
    rewrite E2, E3, i64_small by (unfold in_i64; lia). by rewrite E4.
Qed.

Lemma item_covers it : item_ok it → covers (item_text it) 1 (effect it).
Proof.
  destruct it as [n|a b|kv]; [| |apply kv_covers].
  - intros Hn t c r db s fuel H. cbn [item_text] in *. rewrite (u64_small n), <- app_assoc in * by (unfold in_u64; cbn in Hn; lia).
    unfold next at 1. destruct (ReadOpcode_ahead RDB_OPCODE_SELECTDB _ _ _ ltac:(done) H) as (r1 & -> & H1).
    destruct (ReadLength_ahead n _ _ _ Hn H1) as (r2 & E2 & H2). rewrite ExtendCrc32c_app in H2. exists r2. split; [done|].
    cbn [read_sections Nat.add]. change (RDB_OPCODE_SELECTDB =? RDB_OPCODE_EOF)%Z with false. rewrite Z.eqb_refl, E2. cbv iota.
    rewrite i32_small by (unfold in_i32; cbn in Hn; lia). done.
  - intros [Ha Hb] t c r db s fuel H. cbn [item_text] in *. rewrite <- !app_assoc in H.
    unfold next at 1. destruct (ReadOpcode_ahead RDB_OPCODE_RESIZEDB _ _ _ ltac:(done) H) as (r1 & -> & H1).
    destruct (ReadLength_ahead a _ _ _ Ha H1) as (r2 & E2 & H2). destruct (ReadLength_ahead b _ _ _ Hb H2) as (r3 & E3 & H3).
    rewrite !ExtendCrc32c_app, <- ?app_assoc in H3. exists r3. split; [done|].
    cbn [read_sections Nat.add]. change (RDB_OPCODE_RESIZEDB =? RDB_OPCODE_EOF)%Z with false.
    change (RDB_OPCODE_RESIZEDB =? RDB_OPCODE_SELECTDB)%Z with false. rewrite Z.eqb_refl, E2. cbn [fst]. rewrite E3. done.
Qed.

Lemma covers_nil : covers [] 0 (λ x, x).
Proof. intros t c r db s fuel H. exists r. by rewrite ExtendCrc32c_nil. Qed.

Lemma items_cover items : Forall item_ok items → covers (items_text items) (length items) (effects items).
Proof.
  induction 1 as [|it items Hit _ IH]; [apply covers_nil|]. exact (covers_app _ _ 1 _ _ _ (item_covers it Hit) IH).
Qed.

(** The end of the sections. *)
Lemma next_eof fuel db t c r s :
  ahead (byte RDB_OPCODE_EOF ++ t) c r →
  ∃ r', next (1 + fuel) db r s = Some (r', s) ∧ ahead t (ExtendCrc32c c (byte RDB_OPCODE_EOF)) r'.
Proof. intros H. destruct (ReadOpcode_ahead RDB_OPCODE_EOF _ _ _ ltac:(done) H) as (r1 & E & H1). exists r1. unfold next. by rewrite E. Qed.

(** ** The head *)

Lemma ReadHeader_ahead t c r :
  ahead (B "REDIS" ++ byte RDB_VERSION ++ t) c r →
  ∃ r', ReadHeader stale r = (r', true) ∧ ahead t (ExtendCrc32c c (B "REDIS" ++ byte RDB_VERSION)) r'.
Proof.
  intros H. destruct (Read_ahead 5 (B "REDIS") _ _ _ eq_refl H) as (r1 & E1 & H1).
  destruct (Read_ahead 1 (byte RDB_VERSION) _ _ _ eq_refl H1) as (r2 & E2 & H2). rewrite ExtendCrc32c_app in H2. exists r2.
  split; [|done]. unfold ReadHeader. by rewrite E1, bool_decide_eq_true_2, E2.
Qed.

Lemma aux_ahead key value t c r :
  short key → short value → ahead (aux_text key value ++ t) c r →
  ∃ r', (∀ fuel, ReadAuxFields stale (1 + fuel) r = ReadAuxFields stale fuel r') ∧ ahead t (ExtendCrc32c c (aux_text key value)) r'.
Proof.
  intros Hk Hv H. unfold aux_text in *. rewrite <- !app_assoc in H.
  destruct (ReadOpcode_ahead RDB_OPCODE_AUX _ _ _ ltac:(done) H) as (r1 & E1 & H1).
  destruct (ReadString_ahead _ _ _ _ Hk H1) as (r2 & E2 & H2). destruct (ReadString_ahead _ _ _ _ Hv H2) as (r3 & E3 & H3).
  rewrite !ExtendCrc32c_app, <- ?app_assoc in H3. exists r3. split; [|done].
  intros fuel. cbn [ReadAuxFields Nat.add]. rewrite E1. change (RDB_OPCODE_AUX =? _)%Z with false at 1. rewrite Z.eqb_refl. cbn [negb]. cbv iota zeta.
  rewrite E2. cbn [fst]. by rewrite E3.
Qed.
End reading.

(** ** Snapshot files: the contract

    A snapshot of small records comes back as it was written; a value of 16384
    bytes comes back as the records that it spells; a file that was cut short is
    read forever. *)

Lemma decimal_short fuel n : length (decimal fuel n) ≤ fuel.
Proof. revert n. induction fuel as [|fuel IH]; intros n; cbn; [done|]. case_match; cbn; [lia|]. rewrite length_app. cbn. specialize (IH (n / 10)%Z). lia. Qed.

Lemma print_int_short n : short (print_int n).
Proof.
  unfold short, zlen, print_int. assert (H1 := decimal_short 19 (- n)). assert (H2 := decimal_short 19 n).
  case_match; cbn [length]; lia.
Qed.

Lemma byte_of_code b : byte (code b) = [b].
Proof. rewrite (proj1 (byte_code _ (code_bound b))). by rewrite of_code_code. Qed.

(** The text does not go on with an auxiliary field. *)
Definition no_aux (text : bytes) : Prop := match text with b :: _ => code b ≠ RDB_OPCODE_AUX | [] => True end.

Lemma items_no_aux items : Forall item_ok items → no_aux (items_text items).
Proof.
  destruct 1 as [|[n|a b|[type key value e]] items Hit _]; [done|done|done|]. unfold items_text. rewrite fmap_cons. cbn [concat item_text kv_expire_ms kv_type].
  destruct Hit as (Ht & _). cbn [kv_type] in Ht. unfold expiry_text. destruct (0 <=? e)%Z; [done|]. cbn [app].
  destruct (byte_code type) as [-> Hc]; [lia|]. cbn [app no_aux]. rewrite Hc. unfold RDB_OPCODE_AUX. lia.
Qed.

Lemma items_text_ne items : items ≠ [] → items_text items ≠ [].
Proof. destruct items as [|[n|a b|kv] items]; [done|done|done|]. intros _. unfold items_text. cbn. unfold expiry_text. by destruct (0 <=? _)%Z. Qed.

Section loading.
Context {C : Crc32c} {HC : Crc32cOk} (stale : nat → nat → ascii) {State : Type} (callback : Z → RdbKeyValue → State → State).

(** ** Loading a text *)

(** After the auxiliary fields, the sections start. *)
Lemma aux_end path verify text c r fuel :
  no_aux text → text ≠ [] → ahead path verify text c r →
  ∃ r' opcode, ReadAuxFields stale (1 + fuel) r = Some (r', opcode) ∧
    ∀ fuel' s, read_sections stale callback fuel' opcode 0 r' s = next stale callback fuel' 0 r s.
Proof.
  intros Hn Ht H. destruct text as [|b text]; [done|]. change (b :: text) with ([b] ++ text) in H. rewrite <- (byte_of_code b) in H.
  destruct (ReadOpcode_ahead stale _ _ _ _ _ _ (code_bound b) H) as (r1 & E1 & _). exists r1, (code b).
  cbn [ReadAuxFields Nat.add]. unfold next. rewrite E1. cbn in Hn. rewrite (proj2 (Z.eqb_neq (code b) RDB_OPCODE_AUX)) by done.
  by destruct (code b =? RDB_OPCODE_EOF)%Z.
Qed.

Definition sum_text (sum : bool) (body : bytes) : bytes := if sum then le_bytes 4 (ExtendCrc32c 0 body) else [].

Lemma VerifyChecksum_ahead path verify body c r :
  c = ExtendCrc32c 0 body → ahead path verify (sum_text true body) c r → (VerifyChecksum stale r).2 = true.
Proof.
  intros -> [n ->]. unfold VerifyChecksum, stream_read. cbn -[le_bytes fresh_buffer].
  assert (Hb : length (fresh_buffer stale 4 (MkStream (le_bytes 4 (ExtendCrc32c 0 body)) false n)) = 4) by done.
  rewrite Hb, take_ge, drop_ge by (rewrite ?Hb, length_le_bytes; lia). rewrite app_nil_r.
  destruct (ExtendCrc32c_range 0 body) as [H1 H2]; [done|]. rewrite le_value_bytes by (cbn; lia). apply Z.eqb_refl.
Qed.

(** What [RdbLoad] does at the end of the sections. *)
Definition finish (r : RdbReader) (s : State) : option (RdbReader * State * bool) :=
  if verify_checksum_ r then let '(r, ok) := VerifyChecksum stale r in Some (close_reader r, s, ok)
  else Some (close_reader r, s, true).

(** The head is passed, and then the auxiliary fields end. *)
Lemma load_head fs path verify now text t f c0 :
  read_path path fs = Some (head_text now ++ text ++ t) → no_aux (text ++ t) → text ++ t ≠ [] →
  ∃ r, ahead path verify (text ++ t) (ExtendCrc32c 0 (head_text now)) r ∧
    ∀ fuel s, RdbLoad stale callback (4 + fuel) fs (MkRdbReader path true f verify c0) s =
      ('(r, s) ← next stale callback (4 + fuel) 0 r s; finish r s).
Proof.
  intros Hp Hn Ht. set (r0 := MkRdbReader path true (Some (MkStream (head_text now ++ text ++ t) false 0)) verify 0).
  assert (H0 : ahead path verify (head_text now ++ text ++ t) 0 r0) by (exists 0; reflexivity).
  assert (E0 : ∀ fuel s, RdbLoad stale callback fuel fs (MkRdbReader path true f verify c0) s =
    let '(r, ok) := ReadHeader stale r0 in
    if negb ok then Some (close_reader r, s, false)
    else '(r, opcode) ← ReadAuxFields stale fuel r; '(r, s) ← read_sections stale callback fuel opcode 0 r s; finish r s).
  { intros. unfold RdbLoad. cbn [reader_initialized_ negb file_path_ verify_checksum_]. by rewrite Hp. }
  clearbody r0. unfold head_text in H0. rewrite <- !app_assoc in H0.
  destruct (ReadHeader_ahead stale _ _ _ _ _ H0) as (r1 & E1 & H1). rewrite E1 in E0. cbn [negb] in E0.
  assert (Hx : ∃ r4, (∀ fuel, ReadAuxFields stale (4 + fuel) r1 = ReadAuxFields stale (1 + fuel) r4) ∧
    ahead path verify (text ++ t) (ExtendCrc32c 0 (head_text now)) r4).
  { destruct (aux_ahead stale _ _ (B "redis-ver") (B "6.0.0") _ _ _ ltac:(done) ltac:(done) H1) as (r2 & E2 & H2).
    destruct (aux_ahead stale _ _ (B "redis-bits") (B "64") _ _ _ ltac:(done) ltac:(done) H2) as (r3 & E3 & H3).
    destruct (aux_ahead stale _ _ (B "ctime") (print_int (now / 1000)) _ _ _ ltac:(done) (print_int_short _) H3) as (r4 & E4 & H4).
    exists r4. split.
    - intros fuel. exact (eq_trans (E2 (3 + fuel)) (eq_trans (E3 (2 + fuel)) (E4 (1 + fuel)))).
    - rewrite !ExtendCrc32c_app, <- ?app_assoc in H4. unfold head_text. by rewrite <- ?app_assoc. }
  destruct Hx as (r4 & E4 & H4). exists r4. split; [done|]. intros fuel s. rewrite E0, E4.
  destruct (aux_end _ _ _ _ _ fuel Hn Ht H4) as (r5 & opcode & -> & H5). cbn [mbind option_bind]. by rewrite H5.
Qed.

Lemma load_text fs path verify now text k g fuel f c0 s :
  covers stale path verify callback text k g → no_aux text →
  (∃ sum, (verify = true → sum = true) ∧
     read_path path fs = Some (head_text now ++ text ++ byte RDB_OPCODE_EOF ++ sum_text sum (head_text now ++ text ++ byte RDB_OPCODE_EOF))) →
  k + 4 ≤ fuel →
  ∃ r, RdbLoad stale callback fuel fs (MkRdbReader path true f verify c0) s = Some (r, (g (0%Z, s)).2, true).
Proof.
  intros Hc Hn (sum & Hsum & Hp) Hf.
  destruct (load_head fs path verify now _ _ f c0 Hp) as (r & H & E); [by destruct text|by destruct text|].
  replace fuel with (4 + (fuel - 4)) by lia. rewrite E. destruct (Hc _ _ _ 0%Z s (4 + (fuel - 4) - k) H) as (r1 & H1 & E1).
  replace (k + (4 + (fuel - 4) - k)) with (4 + (fuel - 4)) in E1 by lia. rewrite E1.
  replace (4 + (fuel - 4) - k) with (1 + (fuel - k - 1)) by lia.
  destruct (next_eof stale _ _ callback (fuel - k - 1) (g (0%Z, s)).1 _ _ _ (g (0%Z, s)).2 H1) as (r2 & -> & H2). cbn [mbind option_bind].
  rewrite !ExtendCrc32c_app, <- ?app_assoc in H2. unfold finish. assert (Hv : verify_checksum_ r2 = verify) by (by destruct H2 as [? ->]).
  rewrite Hv. destruct verify; [|by eexists]. rewrite Hsum in H2 by done.
  assert (H3 := VerifyChecksum_ahead path true _ _ r2 eq_refl H2).
  destruct (VerifyChecksum stale r2). cbn [snd] in H3. subst. by eexists.
Qed.

(** What was saved, loaded. *)
Lemma save_load now items g k w verify fuel f i0 c0 s :
  rdb_initialized_ w = true → (verify = true → checksum (rdb_options_ w) = true) →
  covers stale (save_path (rdb_options_ w)) verify callback (items_text items) k g → no_aux (items_text items) → k + 4 ≤ fuel →
  let '(w', saved) := RdbSave now true true (write_items items) w in
  saved = true ∧
  let '(r, found) := ReaderInit (save_path (rdb_options_ w)) verify (rdb_files w') (MkRdbReader f i0 None true c0) in
  found = true ∧ ∃ r', RdbLoad stale callback fuel (rdb_files w') r s = Some (r', (g (0%Z, s)).2, true).
Proof.
  intros Hi Hv Hc Hn Hf. assert (H := RdbSave_text now items w Hi). destruct (RdbSave _ _ _ _ _) as [w' saved].
  destruct H as (-> & _ & _ & Hp). split; [done|]. unfold ReaderInit, path_exists.
  assert (Hd : is_Some (directory (rdb_files w') !! save_path (rdb_options_ w))).
  { unfold read_path in Hp. by destruct (directory _ !! _) eqn:E; [eexists|]. }
  rewrite bool_decide_eq_true_2 by done. split; [done|]. eapply load_text; [done|done| |done].
  exists (checksum (rdb_options_ w)). split; [done|]. rewrite Hp. unfold file_text, body_text, sum_text. by rewrite <- !app_assoc.
Qed.

(** ** Long values *)

(** The eight bytes of a length that the reader takes for opcodes. *)
Lemma long_text : length_text 16384 = byte 128 ++ byte 0 ++ byte 0 ++ byte 0 ++ byte 0 ++ byte 0 ++ byte 0 ++ byte 64 ++ byte 0.
Proof. by vm_compute. Qed.

Lemma skip_covers path verify b : (0 ≤ b < 250)%Z → covers stale path verify callback (byte b ++ byte 0) 1 (λ x, x).
Proof.
  intros Hb t c r db s fuel H. rewrite <- app_assoc in H. destruct (ReadOpcode_ahead stale _ _ b _ _ _ ltac:(lia) H) as (r1 & E1 & H1).
  destruct (ReadString_ahead stale _ _ [] _ _ _ ltac:(done) H1) as (r2 & E2 & H2). rewrite ExtendCrc32c_app in H2. exists r2.
  split; [done|]. unfold next at 1. rewrite E1, read_sections_kv by lia. unfold ReadKeyValue. by rewrite E2, decide_True.
Qed.

Lemma long_value_covers path verify type key :
  (0 ≤ type < 250)%Z → key ≠ [] → short key →
  covers stale path verify callback (byte type ++ string_text key ++ length_text 16384) 4 (λ x, x).
Proof.
  intros Ht Hk Hks. replace (byte type ++ string_text key ++ length_text 16384)
    with ((byte type ++ string_text key ++ byte 128 ++ byte 0 ++ byte 0) ++ (byte 0 ++ byte 0) ++ (byte 0 ++ byte 0) ++ (byte 64 ++ byte 0))
    by (by rewrite long_text, <- ?app_assoc).
  apply (covers_app stale _ _ callback _ _ 1 3 (λ x, x) (λ x, x));
    [|apply (covers_app stale _ _ callback _ _ 1 2 (λ x, x) (λ x, x)); [by apply skip_covers|];
      apply (covers_app stale _ _ callback _ _ 1 1 (λ x, x) (λ x, x)); by apply skip_covers].
  intros t c r db s fuel H. rewrite <- !app_assoc in H. destruct (ReadOpcode_ahead stale _ _ type _ _ _ ltac:(lia) H) as (r1 & E1 & H1).
  destruct (ReadString_ahead stale _ _ key _ _ _ Hks H1) as (r2 & E2 & H2).
  destruct (Read_ahead stale _ _ 1 (byte 128) _ _ _ eq_refl H2) as (r3 & E3 & H3). destruct (Read_ahead stale _ _ 1 (byte 0) _ _ _ eq_refl H3) as (r4 & E4 & H4).
  destruct (Read_ahead stale _ _ 1 (byte 0) _ _ _ eq_refl H4) as (r5 & E5 & H5). rewrite !ExtendCrc32c_app, <- ?app_assoc in H5.
  exists r5. split; [done|]. unfold next at 1. rewrite E1, read_sections_kv by lia. unfold ReadKeyValue.
  rewrite E2, decide_False by done. unfold ReadString, ReadLength. rewrite E3. cbn. rewrite E4. cbn. rewrite E5. done.
Qed.
End loading.

(** ** A file without its end *)

Section spent.
Context {C : Crc32c} {State : Type} (callback : Z → RdbKeyValue → State → State).

Definition zeros (i j : nat) : ascii := "000"%char.

(** Nothing is left to read. *)
Definition spent (r : RdbReader) : Prop := ∃ f, reader_file_ r = Some f ∧ left_ f = [].

Lemma spent_Read len r : spent r → ∃ r', Read zeros len r = (r', Some (zeros 0 <$> seq 0 len)) ∧ spent r'.
Proof.
  intros ([l e n] & Hr & Hl). cbn in Hl. subst. unfold Read, Read_into. rewrite Hr. unfold stream_read. cbn [eof_ left_ reads].
  rewrite take_nil, drop_nil. cbn [app length]. rewrite drop_0. by destruct e; (eexists; split; [reflexivity|]; eexists).
Qed.

Lemma spent_next fuel : ∀ db r s, spent r → next zeros callback fuel db r s = None.
Proof.
  induction fuel as [|fuel IH]; intros db r s H; unfold next, ReadOpcode;
    destruct (spent_Read 1 r H) as (r1 & -> & H1); [done|]. cbn [seq fmap list_fmap byte_of].
  change (code (zeros 0 0)) with 0%Z. change (S fuel) with (1 + fuel). rewrite read_sections_kv by lia.
  unfold ReadKeyValue, ReadString, ReadLength. destruct (spent_Read 1 r1 H1) as (r2 & -> & H2). cbn. by apply IH.
Qed.
End spent.

Section RdbContract.
Context {C : Crc32c} {HC : Crc32cOk}.

(** C14. A snapshot that is saved and loaded again is handed to the callback
    record by record, in order, under the database that was selected, with its
    checksum verified: keys and values that are not empty and shorter than 16384
    bytes, counts below 16384. *)
Theorem rdb_roundtrip {State : Type} (callback : Z → RdbKeyValue → State → State) stale now items w verify fuel s :
  rdb_initialized_ w = true → (verify = true → checksum (rdb_options_ w) = true) → Forall item_ok items → length items + 4 ≤ fuel →
  let '(w', saved) := RdbSave now true true (write_items items) w in
  saved = true ∧
  let '(r, found) := ReaderInit (save_path (rdb_options_ w)) verify (rdb_files w') (MkRdbReader [] false None true 0) in
  found = true ∧ ∃ r', RdbLoad stale callback fuel (rdb_files w') r s = Some (r', (effects callback items (0%Z, s)).2, true).
Proof. intros Hi Hv Hok Hf. eapply save_load; [done|done|by apply items_cover|by apply items_no_aux|done]. Qed.

(** C39. A value of exactly 16384 bytes is not loaded as a value. Its bytes are
    read as records, with the right checksum: who may set a string chooses keys,
    values and types that appear after the next start. *)
Theorem long_value_injected {State : Type} (callback : Z → RdbKeyValue → State → State) stale now before type key inner after w fuel s :
  rdb_initialized_ w = true → checksum (rdb_options_ w) = true → Forall item_ok (before ++ inner ++ after) →
  (0 ≤ type < 250)%Z → key ≠ [] → short key → zlen (items_text inner) = 16384%Z →
  length (before ++ inner ++ after) + 8 ≤ fuel →
  let items := before ++ IKv (MkRdbKv type key (items_text inner) (-1)) :: after in
  let '(w', saved) := RdbSave now true true (write_items items) w in
  saved = true ∧
  let '(r, found) := ReaderInit (save_path (rdb_options_ w)) true (rdb_files w') (MkRdbReader [] false None true 0) in
  found = true ∧ ∃ r', RdbLoad stale callback fuel (rdb_files w') r s =
    Some (r', (effects callback (before ++ inner ++ after) (0%Z, s)).2, true).
Proof.
  intros Hi Hv Hok Ht Hk Hks Hl Hf items. rewrite !Forall_app in Hok. destruct Hok as (H1 & H2 & H3).
  assert (E : items_text items = items_text before ++ (byte type ++ string_text key ++ length_text 16384) ++ items_text inner ++ items_text after).
  { unfold items. rewrite items_text_app. change (items_text (?a :: ?l)) with (item_text a ++ items_text l). cbn [item_text kv_key kv_value kv_type kv_expire_ms].
    unfold string_text at 2. rewrite Hl. change (u64 16384) with 16384%Z. by rewrite <- !app_assoc. }
  assert (Hg : ∀ x, effects callback (before ++ inner ++ after) x = effects callback after (effects callback inner (effects callback before x)))
    by (intros x; unfold effects; by rewrite !foldl_app).
  rewrite Hg. eapply (save_load stale callback now items (λ x, effects callback after (effects callback inner (effects callback before x)))
    (length before + (4 + (length inner + length after)))); [done|done| | |rewrite !length_app in Hf; lia]; rewrite E.
  - eapply (covers_app _ _ _ _ _ _ _ _ (effects callback before) (λ x, effects callback after (effects callback inner x))); [by apply items_cover|].
    eapply (covers_app _ _ _ _ _ _ _ _ (λ x, x) (λ x, effects callback after (effects callback inner x))); [by apply long_value_covers|].
    by eapply (covers_app _ _ _ _ _ _ _ _ (effects callback inner) (effects callback after)); apply items_cover.
  - assert (Hn := items_no_aux before H1). destruct (items_text before); [|done]. cbn [app]. destruct (byte_code type) as [-> Hc]; [lia|].
    cbn [app no_aux]. rewrite Hc. unfold RDB_OPCODE_AUX. lia.
Qed.

(** A file that ends before its end mark is read forever when the bytes that the
    reader leaves uninitialised are zero: each is taken for one more empty string. *)
Theorem truncated_load_hangs {State : Type} (callback : Z → RdbKeyValue → State → State) now items path fs fuel s :
  read_path path fs = Some (head_text now ++ items_text items) → Forall item_ok items → items ≠ [] →
  let '(r, found) := ReaderInit path true fs (MkRdbReader [] false None true 0) in
  found = true ∧ RdbLoad zeros callback (length items + 4 + fuel) fs r s = None.
Proof.
  intros Hp Hok Hi. unfold ReaderInit, path_exists. assert (Hd : is_Some (directory fs !! path)).
  { unfold read_path in Hp. by destruct (directory fs !! path) eqn:E; [eexists|]. }
  rewrite bool_decide_eq_true_2 by done. split; [done|].
  assert (Hp' : read_path path fs = Some (head_text now ++ items_text items ++ [])) by by rewrite app_nil_r.
  destruct (load_head zeros callback fs path true now (items_text items) [] None 0 Hp') as (r & H & E);
    [rewrite app_nil_r; by apply items_no_aux|rewrite app_nil_r; by apply items_text_ne|].
  replace (length items + 4 + fuel) with (4 + (length items + fuel)) by lia. rewrite E.
  destruct (items_cover zeros path true callback items Hok [] _ r 0%Z s (4 + fuel) H) as (r1 & [n ->] & E1).
  replace (4 + (length items + fuel)) with (length items + (4 + fuel)) by lia. rewrite E1, spent_next; [done|]. by eexists.
Qed.
End RdbContract.

(** ** CRC32C *)

Definition crc_bit (c : Z) : Z := if Z.testbit c 0 then Z.lxor (Z.shiftr c 1) 2197175160 else Z.shiftr c 1.
Definition crc_byte (c : Z) (b : ascii) : Z := Nat.iter 8 crc_bit (Z.lxor c (code b)).
Definition crc32c : Crc32c := {|
  ExtendCrc32c c s := Z.lxor (foldl crc_byte (Z.lxor c 4294967295) s) 4294967295
|}.

Lemma u32_lxor a b : in_u32 a → in_u32 b → in_u32 (Z.lxor a b).
Proof.
  intros [Ha1 Ha2] [Hb1 Hb2]. assert (H : (0 ≤ Z.lxor a b)%Z) by (apply Z.lxor_nonneg; lia). split; [done|].
  apply Z.bounded_iff_bits_nonneg; [done..|]. intros l Hl. rewrite Z.lxor_spec.
  by rewrite (proj1 (Z.bounded_iff_bits_nonneg 32 a ltac:(done) Ha1) Ha2 l Hl), (proj1 (Z.bounded_iff_bits_nonneg 32 b ltac:(done) Hb1) Hb2 l Hl).
Qed.

Lemma crc_bit_range c : in_u32 c → in_u32 (crc_bit c).
Proof.
  intros H. assert (Hs : in_u32 (Z.shiftr c 1)).
  { rewrite Z.shiftr_div_pow2 by lia. destruct H. split; [apply Z.div_pos; lia|apply Z.div_lt_upper_bound; lia]. }
  unfold crc_bit. destruct (Z.testbit c 0); [by apply u32_lxor|done].
Qed.

Lemma crc_fold_range s : ∀ c, in_u32 c → in_u32 (foldl crc_byte c s).
Proof.
  induction s as [|b s IH]; intros c H; [done|]. cbn [foldl]. apply IH. unfold crc_byte. cbn [Nat.iter].
  do 8 apply crc_bit_range. apply u32_lxor; [done|]. assert (Hb := code_bound b). split; lia.
Qed.

Lemma crc32c_ok : @Crc32cOk crc32c.
Proof.
  assert (Hx : ∀ c, Z.lxor (Z.lxor c 4294967295) 4294967295 = c) by (intros; by rewrite Z.lxor_assoc, Z.lxor_nilpotent, Z.lxor_0_r).
  split; cbn.
  - apply Hx.
  - intros c s t. by rewrite Hx, foldl_app.
  - intros c s H. apply u32_lxor; [apply crc_fold_range; by apply u32_lxor|done].
Qed.

(** The check value of the polynomial. *)
Example crc32c_check : @ExtendCrc32c crc32c 0 (B "123456789") = 3808858755%Z.
Proof. by vm_compute. Qed.

(** ** Witnesses *)

#[local] Existing Instances crc32c crc32c_ok.

Definition small_options : RdbOptions := MkRdbOptions (B "dump.rdb") true 6 true.
Definition small_writer : RdbWriter := MkRdbWriter small_options true None 0 (MkFiles ∅ ∅ 0).
Definition small_items : list item :=
  [ISelect 0; IResize 3 1; IKv (MkRdbKv 0 (B "k") (B "value") (-1)); IKv (MkRdbKv 0 (B "t") (B "soon") 1700000000000);
   IKv (MkRdbKv 3 (B "s") (replicate 300 "m"%char) (-1))].
Definition collect (db : Z) (kv : RdbKeyValue) (l : list (Z * RdbKeyValue)) : list (Z * RdbKeyValue) := l ++ [(db, kv)].

Lemma small_items_ok : Forall item_ok small_items.
Proof. unfold small_items. repeat (apply Forall_cons; split); [cbn; unfold short, zlen; cbn; repeat split; lia || auto || done..|apply Forall_nil_2]. Qed.

Lemma rdb_roundtrip_witness :
  let '(w, saved) := RdbSave 1700000000000 true true (write_items small_items) small_writer in
  saved = true ∧
  let '(r, found) := ReaderInit (B "dump.rdb") true (rdb_files w) (MkRdbReader [] false None true 0) in
  found = true ∧ ∃ r', RdbLoad (λ _ _, "U"%char) collect 9 (rdb_files w) r [] =
    Some (r', (effects collect small_items (0%Z, [])).2, true).
Proof.
  exact (rdb_roundtrip collect (λ _ _, "U"%char) 1700000000000 small_items small_writer true 9 []
    eq_refl (λ _, eq_refl) small_items_ok ltac:(cbn; lia)).
Defined.

(** What a string of 16384 bytes spells. *)
Definition small_inner : list item := [IKv (MkRdbKv 0 (B "admin") (replicate (Z.to_nat 16375) "x"%char) (-1))].

Lemma small_inner_ok : Forall item_ok ([ISelect 0] ++ small_inner ++ [IKv (MkRdbKv 0 (B "k") (B "v") (-1))]).
Proof.
  repeat (apply Forall_cons; split); [by cbn| | |apply Forall_nil_2]; cbn [item_ok kv_type kv_key kv_value kv_expire_ms];
    unfold short, zlen; rewrite ?length_replicate; repeat split; done || lia || by left.
Qed.

Lemma long_value_injected_witness :
  let items := [ISelect 0] ++ IKv (MkRdbKv 0 (B "note") (items_text small_inner) (-1)) :: [IKv (MkRdbKv 0 (B "k") (B "v") (-1))] in
  let '(w, saved) := RdbSave 0 true true (write_items items) small_writer in
  saved = true ∧
  let '(r, found) := ReaderInit (B "dump.rdb") true (rdb_files w) (MkRdbReader [] false None true 0) in
  found = true ∧ ∃ r', RdbLoad (λ _ _, "U"%char) collect 11 (rdb_files w) r [] =
    Some (r', (effects collect ([ISelect 0] ++ small_inner ++ [IKv (MkRdbKv 0 (B "k") (B "v") (-1))]) (0%Z, [])).2, true).
Proof.
  exact (long_value_injected collect (λ _ _, "U"%char) 0 [ISelect 0] 0 (B "note") small_inner [IKv (MkRdbKv 0 (B "k") (B "v") (-1))]
    small_writer 11 [] eq_refl eq_refl small_inner_ok ltac:(lia) ltac:(done) ltac:(done) ltac:(vm_compute; reflexivity) ltac:(cbn; lia)).
Defined.

Definition cut_files : Files := MkFiles {[B "dump.rdb" := 0]} {[0 := head_text 0 ++ items_text small_items]} 1.

Lemma truncated_load_hangs_witness :
  let '(r, found) := ReaderInit (B "dump.rdb") true cut_files (MkRdbReader [] false None true 0) in
  found = true ∧ RdbLoad zeros collect (length small_items + 4 + 1000) cut_files r [] = None.
Proof.
  exact (truncated_load_hangs collect 0 small_items (B "dump.rdb") cut_files 1000 [] eq_refl small_items_ok ltac:(done)).
Defined.
