(* ===== verification/RdbDatabase.v ===== *)
(** * Snapshots of the workers

    Models [SaveRdb] and [LoadRdb] of src/astra/server/managers.hpp and
    [GetRdbData] of src/astra/server/worker.hpp: what the workers hold is written
    to the snapshot, and handed to them again when the server starts. *)
From Stdlib Require Import SpecFloat.
From S2P Require Import Prelude.
From S2P Require Import OrderedSet.
From S2P Require Import Simd.
From S2P Require Import Numbers.
From S2P Require Import KeyMetadata.
From S2P Require Import Eviction.
From S2P Require Import Rocks.
From S2P Require Import Database.
From S2P Require Import DatabaseTypes.
From S2P Require Import DatabaseZSets.
From S2P Require Import DatabaseStrings.
From S2P Require Import SmallPlatform.
From S2P Require Import AofWriter.
From S2P Require Import Rdb.
From S2P Require Import RdbContract.

(** [1.0] *)
Definition score_one : Score := MkScore (S754_finite false 4503599627370496 (-52)) eq_refl.

Section RdbDatabase.
Context {P : Platform} {C : Crc32c} {HC : Crc32cOk}.
Implicit Types (db : Database) (key : bytes) (workers : list Database).

(** ** Saving *)

Abbreviation rdb_entry := (bytes * KeyType * bytes * Z)%type.

Definition GetRdbData (now : Z) db : list rdb_entry := ForEachKey now db.

(** A time that does not fit is the last one. *)
Definition entry_kv (now : Z) (e : rdb_entry) : RdbKeyValue :=
  let '(key, type, value, ttl_ms) := e in
  let expire_ms := if (0 <? ttl_ms)%Z then Z.min (now + ttl_ms) (2 ^ 63 - 1) else (-1)%Z in
  MkRdbKv (KeyTypeToRdbType type) key value expire_ms.

Definition save_callback (now : Z) (all_data : list (list rdb_entry)) (w : RdbWriter) : RdbWriter :=
  let db_size := foldl (λ n worker_data, u64 (n + zlen worker_data)) 0%Z all_data in
  let expires_size :=
    foldl (λ n worker_data, foldl (λ n (e : rdb_entry), if (0 <? e.2)%Z then u64 (n + 1) else n) n worker_data) 0%Z all_data in
  let w := ResizeDb db_size expires_size (SelectDb 0 w) in
  foldl (λ w worker_data, foldl (λ w e, WriteKv (entry_kv now e) w) w worker_data) w all_data.

Definition SaveRdb (rdb_enabled : bool) (now : Z) (opens renames : bool) workers (w : RdbWriter) : RdbWriter * bool :=
  if negb rdb_enabled then (w, false)
  else RdbSave now opens renames (save_callback now (GetRdbData now <$> workers)) w.

(** ** Loading *)

(** What a record does to the database it is loaded into. *)
Definition load_kv (now : Z) (kv : RdbKeyValue) db : Database :=
  let expire ttl_ms db := if (0 <? ttl_ms)%Z then (DbSetExpireMs (kv_key kv) ttl_ms db).1 else db in
  let load ttl_ms :=
    if (kv_type kv =? RDB_TYPE_STRING)%Z then expire ttl_ms (DbSet now (kv_key kv) (kv_value kv) db)
    else if (kv_type kv =? RDB_TYPE_HASH)%Z then db
    else if (kv_type kv =? RDB_TYPE_LIST)%Z then expire ttl_ms (DbLPush now (kv_key kv) (kv_value kv) db).1
    else if (kv_type kv =? RDB_TYPE_SET)%Z then expire ttl_ms (DbSAdd now (kv_key kv) (kv_value kv) db).1
    else if (kv_type kv =? RDB_TYPE_ZSET)%Z then expire ttl_ms (DbZAdd now (kv_key kv) score_one (kv_value kv) db).1
    else db in
  if (0 <? kv_expire_ms kv)%Z then
    let ttl_ms := (kv_expire_ms kv - now)%Z in
    if (ttl_ms <=? 0)%Z then db else load ttl_ms
  else load (-1)%Z.

(** [std_hash] is [std::hash<std::string>]. *)
Definition target_worker (std_hash : bytes → Z) key workers : nat := Z.to_nat (std_hash key mod zlen workers).
Definition load_callback (std_hash : bytes → Z) (now : Z) (db_num : Z) (kv : RdbKeyValue) workers : list Database :=
  alter (load_kv now kv) (target_worker std_hash (kv_key kv) workers) workers.

Definition LoadRdb (rdb_enabled : bool) (stale : nat → nat → ascii) (std_hash : bytes → Z) (fuel : nat) (now : Z) (options : RdbOptions)
    (fs : Files) (r : RdbReader) workers : option (RdbReader * list Database * bool) :=
  if negb rdb_enabled then Some (r, workers, false)
  else if negb (path_exists (save_path options) fs) then Some (r, workers, true)
  else
    let '(r, ok) := ReaderInit (save_path options) true fs r in
    if negb ok then Some (r, workers, false) else RdbLoad stale (load_callback std_hash now) fuel fs r workers.

(** ** What is saved *)

Definition all_entries (now : Z) workers : list rdb_entry := concat (GetRdbData now <$> workers).

Definition save_items (now : Z) (all_data : list (list rdb_entry)) : list item :=
  ISelect 0 ::
  IResize (foldl (λ n worker_data, u64 (n + zlen worker_data)) 0%Z all_data)
    (foldl (λ n worker_data, foldl (λ n (e : rdb_entry), if (0 <? e.2)%Z then u64 (n + 1) else n) n worker_data) 0%Z all_data) ::
  ((λ e, IKv (entry_kv now e)) <$> concat all_data).

Lemma save_callback_items now all_data w : save_callback now all_data w = write_items (save_items now all_data) w.
Proof.
  unfold save_callback, save_items, write_items. cbv zeta. cbn [foldl write_item].
  match goal with |- foldl _ ?w1 _ = _ => generalize w1 end.
  clear w. induction all_data as [|d all_data IH]; intros w; [done|]. cbn [concat foldl]. rewrite fmap_app, foldl_app, IH. f_equal.
  clear. revert w. induction d as [|e d IH]; intros w; [done|]. cbn. apply IH.
Qed.

Lemma SaveRdb_items now workers w :
  SaveRdb true now true true workers w = RdbSave now true true (write_items (save_items now (GetRdbData now <$> workers))) w.
Proof.
  unfold SaveRdb, RdbSave. cbn [negb]. destruct (rdb_initialized_ w); [|done]. cbn [negb].
  destruct (open_truncate _ _). cbv zeta. by rewrite save_callback_items.
Qed.

Lemma entries_count {A} (all_data : list (list A)) n :
  (0 ≤ n)%Z → (n + zlen (concat all_data) < 2 ^ 64)%Z →
  foldl (λ n d, u64 (n + zlen d)) n all_data = (n + zlen (concat all_data))%Z.
Proof.
  revert n. induction all_data as [|d all_data IH]; intros n Hn Hb; [unfold zlen; cbn; lia|]. cbn [foldl concat] in *. unfold zlen in *.
  rewrite length_app, Nat2Z.inj_add in *. rewrite u64_small by (unfold in_u64; lia). rewrite IH; lia.
Qed.

Lemma expires_count (all_data : list (list rdb_entry)) n :
  (0 ≤ n)%Z → (n + zlen (concat all_data) < 2 ^ 64)%Z →
  (0 ≤ foldl (λ n d, foldl (λ n (e : rdb_entry), if (0 <? e.2)%Z then u64 (n + 1) else n) n d) n all_data ≤ n + zlen (concat all_data))%Z.
Proof.
  assert (Hd : ∀ (d : list rdb_entry) n, (0 ≤ n)%Z → (n + zlen d < 2 ^ 64)%Z →
    (0 ≤ foldl (λ n (e : rdb_entry), if (0 <? e.2)%Z then u64 (n + 1) else n) n d ≤ n + zlen d)%Z).
  { unfold zlen. induction d as [|e d IH]; intros m Hm Hb; cbn [foldl length] in *; [lia|]. destruct (0 <? e.2)%Z.
    - rewrite u64_small by (unfold in_u64; lia). destruct (IH (m + 1)%Z); lia.
    - destruct (IH m); lia. }
  unfold zlen in *. revert n. induction all_data as [|d all_data IH]; intros n Hn Hb; [cbn; lia|]. cbn [foldl concat] in *.
  rewrite length_app, Nat2Z.inj_add in *. destruct (Hd d n) as [H1 H2]; [lia..|]. set (m := foldl _ n d) in *.
  destruct (IH m); lia.
Qed.

(** Entries that the format can hold. *)
Definition entry_ok (e : rdb_entry) : Prop :=
  let '(key, type, value, ttl_ms) := e in
  key ≠ [] ∧ short key ∧ value ≠ [] ∧ short value ∧ (type = kString ∨ type = kHash).

Lemma save_items_ok now all_data :
  (0 ≤ now)%Z → Forall entry_ok (concat all_data) → (zlen (concat all_data) < 16384)%Z → Forall item_ok (save_items now all_data).
Proof.
  intros Hn He Hl. assert (H0 : (0 ≤ zlen (concat all_data))%Z) by (unfold zlen; lia).
  apply Forall_cons. split; [done|]. apply Forall_cons. split.
  - assert (H1 := entries_count all_data 0 ltac:(lia) ltac:(lia)). assert (H2 := expires_count all_data 0 ltac:(lia) ltac:(lia)).
    cbn [item_ok]. rewrite H1. lia.
  - apply Forall_fmap. eapply Forall_impl; [exact He|]. intros [[[key type] value] ttl] (H1 & H2 & H3 & H4 & H5). cbn.
    repeat split; try done; try (by destruct H5 as [-> | ->]). destruct (0 <? ttl)%Z eqn:E; b2p; [right; lia|by left].
Qed.

(** ** What is loaded *)

Context {HR : RocksLibOk}.

(** The record has not run out. *)
Definition live (now : Z) (kv : RdbKeyValue) : bool := negb (0 <? kv_expire_ms kv)%Z || (now <? kv_expire_ms kv)%Z.

Lemma load_hash now kv db : kv_type kv = RDB_TYPE_HASH → load_kv now kv db = db.
Proof. intros H. unfold load_kv. rewrite H. cbn. by repeat case_match. Qed.

Lemma load_dead now kv db : live now kv = false → load_kv now kv db = db.
Proof.
  unfold live, load_kv. intros H. apply orb_false_elim in H as [H1 H2]. b2p. rewrite (proj2 (Z.ltb_lt _ _)) by done.
  cbv zeta. by rewrite (proj2 (Z.leb_le _ _)) by lia.
Qed.

Lemma load_string_eq now kv db :
  kv_type kv = RDB_TYPE_STRING → live now kv = true →
  load_kv now kv db =
    let db := DbSet now (kv_key kv) (kv_value kv) db in
    if (0 <? kv_expire_ms kv)%Z then (DbSetExpireMs (kv_key kv) (kv_expire_ms kv - now) db).1 else db.
Proof.
  unfold live, load_kv. intros H Hl. rewrite H, Z.eqb_refl. cbv zeta. destruct (0 <? kv_expire_ms kv)%Z eqn:E; [|done]. cbn in Hl. b2p.
  rewrite (proj2 (Z.leb_gt _ _)) by lia. by rewrite (proj2 (Z.ltb_lt _ _)) by lia.
Qed.

Lemma load_kv_view now kv db :
  strings_ok db → kv_type kv = RDB_TYPE_STRING → live now kv = true →
  strings_ok (load_kv now kv db) ∧ ∀ key, view (load_kv now kv db) key = updated (view db) (kv_key kv) (kv_value kv) key.
Proof.
  intros H Ht Hl. rewrite load_string_eq by done. cbv zeta.
  destruct (DbSet_view now (kv_key kv) (kv_value kv) db H) as (H1 & H2 & _). destruct (0 <? kv_expire_ms kv)%Z; [|done].
  assert (H3 := same_metadata (SetExpireMs (kv_key kv) (kv_expire_ms kv - now) (metadata_manager_ (DbSet now (kv_key kv) (kv_value kv) db))).1 _ H1
    ltac:(by apply types_update)).
  change ((DbSetExpireMs _ _ ?d).1) with (on_metadata (SetExpireMs (kv_key kv) (kv_expire_ms kv - now)) d).1. unfold on_metadata.
  destruct (SetExpireMs _ _ _) as [m b]. cbn [fst] in *. split; [apply H3|]. intros key. rewrite (proj1 (proj2 H3)). apply H2.
Qed.

(** ** Many records *)

Section records.
Context (std_hash : bytes → Z) (now : Z).

Definition load_all (kvs : list RdbKeyValue) workers : list Database := foldl (λ ws kv, load_callback std_hash now 0 kv ws) workers kvs.

Definition string_kv (kv : RdbKeyValue) : Prop := kv_type kv = RDB_TYPE_STRING ∧ live now kv = true.
#[global] Instance string_kv_dec kv : Decision (string_kv kv).
Proof. unfold string_kv. apply _. Defined.

Definition kv_known (kv : RdbKeyValue) : Prop := kv_type kv = RDB_TYPE_STRING ∨ kv_type kv = RDB_TYPE_HASH.

Lemma target_same key (ws ws' : list Database) : length ws = length ws' → target_worker std_hash key ws = target_worker std_hash key ws'.
Proof. unfold target_worker, zlen. by intros ->. Qed.

Lemma length_load_all kvs : ∀ ws, length (load_all kvs ws) = length ws.
Proof. unfold load_all. induction kvs as [|kv kvs IH]; intros ws; [done|]. cbn. rewrite IH. apply length_alter. Qed.

(** A record that is no string to load changes nothing. *)
Lemma load_skip kv ws : kv_known kv → ¬ string_kv kv → load_callback std_hash now 0 kv ws = ws.
Proof.
  intros Hk Hn. apply list_alter_id. intros x. destruct (live now kv) eqn:E; [|by apply load_dead].
  destruct Hk as [Hk|Hk]; [exfalso; by apply Hn|by apply load_hash].
Qed.

(** Something of the databases that a record sets for its key and keeps for the
    others. *)
Section keyed.
Context {A : Type} (I : Database → Prop) (f : Database → bytes → A) (new : RdbKeyValue → A) (pre : A → Prop).
Context (Hstep : ∀ kv db, I db → string_kv kv → pre (f db (kv_key kv)) →
  I (load_kv now kv db) ∧ ∀ key, f (load_kv now kv db) key = if decide (kv_key kv = key) then new kv else f db key).

Definition ready (kvs : list RdbKeyValue) (ws : list Database) : Prop :=
  Forall I ws ∧ ∀ kv db i, kv ∈ kvs → string_kv kv → ws !! i = Some db → pre (f db (kv_key kv)).

Lemma load_one_spec kv kvs ws i db :
  ready (kv :: kvs) ws → string_kv kv → ws !! i = Some db →
  ∃ db', load_callback std_hash now 0 kv ws !! i = Some db' ∧ I db' ∧
    ∀ key, f db' key = if decide (kv_key kv = key ∧ i = target_worker std_hash key ws) then new kv else f db key.
Proof.
  intros [HI Hp] Hs Hi. assert (HIdb : I db) by by eapply (Forall_lookup_1 _ ws i).
  unfold load_callback. destruct (decide (i = target_worker std_hash (kv_key kv) ws)) as [->|Hne].
  - rewrite list_lookup_alter_eq, Hi. eexists. split; [done|].
    destruct (Hstep kv db) as [H1 H2]; [done|done|by eapply Hp; [left| |]|]. split; [done|]. intros key. rewrite H2.
    destruct (decide (kv_key kv = key)) as [<-|]; [by rewrite decide_True|rewrite decide_False by tauto; done].
  - rewrite list_lookup_alter_ne by done. exists db. split; [done|]. split; [done|]. intros key. rewrite decide_False; [done|]. by intros [<- ->].
Qed.

Lemma load_all_spec kvs : ∀ ws, Forall kv_known kvs → NoDup (kv_key <$> filter string_kv kvs) → ready kvs ws →
  Forall I (load_all kvs ws) ∧
  (∀ kv db', kv ∈ kvs → string_kv kv → load_all kvs ws !! target_worker std_hash (kv_key kv) ws = Some db' →
     f db' (kv_key kv) = new kv) ∧
  (∀ i db' key, load_all kvs ws !! i = Some db' →
     (∀ kv, kv ∈ kvs → string_kv kv → kv_key kv = key → i ≠ target_worker std_hash key ws) →
     ∃ db, ws !! i = Some db ∧ f db' key = f db key).
Proof.
  induction kvs as [|kv kvs IH]; intros ws Hk Hd Hr.
  { split; [apply Hr|]. split; [by intros ? ? ?%not_elem_of_nil|]. intros i db' key H _. by exists db'. }
  apply Forall_cons in Hk as [Hk1 Hk2]. rewrite filter_cons in Hd. change (load_all (kv :: kvs) ws) with (load_all kvs (load_callback std_hash now 0 kv ws)).
  destruct (decide (string_kv kv)) as [Hs|Hs].
  2: { rewrite load_skip by done. destruct (IH ws Hk2 Hd) as (H1 & H2 & H3).
    { destruct Hr as [Hr1 Hr2]. split; [done|]. intros. eapply Hr2; [by right|done|done]. }
    split; [done|]. split.
    - intros kv' db' [->|Hin]%elem_of_cons Hs'; [done|]. by apply H2.
    - intros i db' key Hi Hno. apply H3; [done|]. intros kv' Hin. apply Hno. by right. }
  rewrite fmap_cons, NoDup_cons in Hd. destruct Hd as [Hd1 Hd2]. set (ws1 := load_callback std_hash now 0 kv ws).
  assert (Hl : length ws1 = length ws) by apply length_alter.
  assert (Hback : ∀ i db1, ws1 !! i = Some db1 → ∃ db, ws !! i = Some db ∧ I db1 ∧
    ∀ key, f db1 key = if decide (kv_key kv = key ∧ i = target_worker std_hash key ws) then new kv else f db key).
  { intros i db1 Hi. destruct (lookup_lt_is_Some_2 ws i) as [db Hdb]; [rewrite <- Hl; by eapply lookup_lt_Some|].
    destruct (load_one_spec kv kvs ws i db Hr Hs Hdb) as (db1' & E & H1 & H2). fold ws1 in E. rewrite Hi in E. injection E as <-. eauto. }
  assert (Hother : ∀ kv', kv' ∈ kvs → string_kv kv' → kv_key kv ≠ kv_key kv').
  { intros kv' Hin Hs' E. apply Hd1. rewrite E. apply list_elem_of_fmap. exists kv'. split; [done|]. by apply list_elem_of_filter. }
  destruct (IH ws1 Hk2 Hd2) as (H1 & H2 & H3).
  { split; [apply Forall_lookup; intros i db1 Hi; by destruct (Hback i db1 Hi) as (? & ? & ? & ?)|].
    intros kv' db1 i Hin Hs' Hi. destruct (Hback i db1 Hi) as (db & Hdb & _ & ->). rewrite decide_False by (intros [E _]; by eapply Hother).
    destruct Hr as [_ Hr]. eapply Hr; [by right|done|done]. }
  split; [done|]. split.
  - intros kv' db' [->|Hin]%elem_of_cons Hs' Hi.
    + destruct (H3 _ db' (kv_key kv) Hi) as (db1 & Hdb1 & ->).
      { intros kv' Hin Hs'' E. exfalso. by eapply Hother. }
      destruct (Hback _ _ Hdb1) as (db & _ & _ & ->). by rewrite decide_True.
    + apply H2; [done|done|]. by rewrite (target_same _ ws1 ws).
  - intros i db' key Hi Hno. destruct (H3 i db' key Hi) as (db1 & Hdb1 & ->).
    { intros kv' Hin. rewrite (target_same _ ws1 ws) by done. apply Hno. by right. }
    destruct (Hback _ _ Hdb1) as (db & Hdb & _ & ->). exists db. split; [done|]. rewrite decide_False; [done|].
    intros [E ->]. by eapply (Hno kv); [left|..].
Qed.
End keyed.
End records.

(** ** The entries of the workers *)

Abbreviation entry_key e := (e.1.1.1) (only parsing).
Definition is_string (e : rdb_entry) : Prop := e.1.1.2 = kString.
#[local] Instance is_string_dec e : Decision (is_string e).
Proof. unfold is_string. apply _. Defined.

(** [ForEachKey] gives the strings first. *)
Lemma ForEachKey_strings now db :
  ∃ rest, ForEachKey now db = ((λ kv, (kv.1, kString, kv.2, DbGetTtlMs now kv.1 db)) <$> DGetAllKeyValuePairs (strings_ db)) ++ rest ∧
    Forall (λ e, ¬ is_string e) rest.
Proof.
  eexists. split; [reflexivity|]. rewrite !Forall_app, !Forall_fmap. repeat split; apply Forall_true; by intros.
Qed.

Lemma string_entries now db :
  filter is_string (GetRdbData now db) = (λ kv, (kv.1, kString, kv.2, DbGetTtlMs now kv.1 db)) <$> DGetAllKeyValuePairs (strings_ db).
Proof.
  unfold GetRdbData. destruct (ForEachKey_strings now db) as (rest & -> & H). rewrite filter_app, (filter_none is_string rest), app_nil_r by done.
  apply filter_all. apply Forall_fmap, Forall_true. by intros.
Qed.

Lemma string_entry now db key v ttl :
  (key, kString, v, ttl) ∈ GetRdbData now db ↔ DGet key (strings_ db) = Some v ∧ ttl = DbGetTtlMs now key db.
Proof.
  trans ((key, kString, v, ttl) ∈ filter is_string (GetRdbData now db)).
  { rewrite list_elem_of_filter. unfold is_string. cbn. tauto. }
  rewrite string_entries, list_elem_of_fmap. unfold DGetAllKeyValuePairs, DGet. split.
  - intros ([k x] & [= -> -> ->] & H%elem_of_map_to_list). done.
  - intros [H ->]. exists (key, v). split; [done|]. by apply elem_of_map_to_list.
Qed.

(** No two workers have the same string. *)
Definition separate workers : Prop :=
  ∀ i j db db' key, workers !! i = Some db → workers !! j = Some db' →
  is_Some (DGet key (strings_ db)) → is_Some (DGet key (strings_ db')) → i = j.

Lemma separate_tail db workers : separate (db :: workers) → separate workers.
Proof. intros H i j db1 db2 key H1 H2 H3 H4. assert (S i = S j) by (by eapply (H (S i) (S j))). lia. Qed.

Lemma all_entries_elem now workers e : e ∈ all_entries now workers ↔ ∃ j db, workers !! j = Some db ∧ e ∈ GetRdbData now db.
Proof.
  unfold all_entries. rewrite list_elem_of_In, in_concat. split.
  - intros (d & Hd & He). apply list_elem_of_In, list_elem_of_fmap in Hd as (db & -> & Hdb). apply list_elem_of_lookup in Hdb as [j Hj].
    apply list_elem_of_In in He. eauto.
  - intros (j & db & Hj & He). exists (GetRdbData now db). split; apply list_elem_of_In; [|done]. apply list_elem_of_fmap. exists db.
    split; [done|]. by eapply list_elem_of_lookup_2.
Qed.

Lemma string_keys_distinct now workers :
  separate workers → NoDup ((λ e : rdb_entry, entry_key e) <$> filter is_string (all_entries now workers)).
Proof.
  induction workers as [|db workers IH]; intros Hs; [apply NoDup_nil_2|]. unfold all_entries. cbn [fmap list_fmap concat]. fold (all_entries now workers).
  rewrite filter_app, fmap_app. apply NoDup_app. split; [|split; [|apply IH; by eapply separate_tail]].
  - rewrite string_entries, <- list_fmap_compose. apply NoDup_fst_map_to_list.
  - intros key H1 H2. apply list_elem_of_fmap in H1 as ([[[k1 t1] v1] l1] & -> & [E1 H1]%list_elem_of_filter).
    apply list_elem_of_fmap in H2 as ([[[k2 t2] v2] l2] & E & [E2 H2]%list_elem_of_filter). unfold is_string in *. cbn in *. subst.
    apply string_entry in H1 as [H1 _]. apply all_entries_elem in H2 as (j & db' & Hj & [H2 _]%string_entry).
    assert (0 = S j); [|lia]. eapply (Hs 0 (S j) db db' k2); [done|done|by eexists|by eexists].
Qed.

Lemma string_kvs_distinct t2 now es :
  Forall entry_ok es → NoDup ((λ e : rdb_entry, entry_key e) <$> filter is_string es) →
  NoDup (kv_key <$> filter (string_kv t2) (entry_kv now <$> es)).
Proof.
  intros He Hd. eapply sublist_NoDup; [exact Hd|]. clear Hd. induction He as [|[[[key type] value] ttl] es He _ IH]; [done|].
  rewrite fmap_cons, !filter_cons. cbn [entry_kv]. destruct He as (_ & _ & _ & _ & [-> | ->]).
  - rewrite (decide_True (P := is_string _)) by done. rewrite fmap_cons. cbn [fst]. case_decide; [by apply sublist_skip|by apply sublist_cons].
  - rewrite (decide_False (P := is_string _)) by done. rewrite decide_False; [done|]. by intros [E _].
Qed.

(** ** Expiry times *)

Definition deadline db key : option (option Z) := expire_time_ms <$> DGet key (metadata_manager_ db).

(** The value and the expiry time. *)
Definition timed db key : option bytes * option (option Z) := (DGet key (strings_ db), deadline db key).

Lemma deadline_update g key key' (m : Manager) :
  (∀ x, expire_time_ms (g x) = expire_time_ms x) → expire_time_ms <$> DGet key (update_entry g key' m).1 = expire_time_ms <$> DGet key m.
Proof. intros Hg. rewrite DGet_update. case_bool_decide; [|done]. destruct (DGet key m); [|done]. cbn. by rewrite Hg. Qed.

Lemma timed_metadata m db key :
  expire_time_ms <$> DGet key m = deadline db key → timed (with_metadata m db) key = timed db key.
Proof. intros H. unfold timed, deadline. destruct db. cbn in *. by rewrite H. Qed.

Lemma timed_track_access now key' db key : timed (track_access now key' db) key = timed db key.
Proof. unfold track_access. destruct (ShouldTrackAccessInfo db); [|done]. apply timed_metadata, deadline_update. done. Qed.

Lemma timed_track_string key' o n db key : timed (track_memory (UpdateString key' o n) db) key = timed db key.
Proof.
  unfold track_memory. destruct (memory_tracker_ db); [|done]. unfold UpdateString, track_sizes. cbn [fst snd].
  assert (H := timed_metadata (UpdateEstimatedSize key' (EstimateStringSize key' n) (metadata_manager_ db)).1 db key).
  destruct db. cbn in *. apply H. by apply (deadline_update (with_size _)).
Qed.

Lemma timed_PersistKey key' t db key : timed (PersistKey key' t db) key = timed db key.
Proof. unfold PersistKey, put_rocks. destruct db. cbn. by repeat case_match. Qed.

Lemma eviction_PersistKey key t db : eviction_manager_ (PersistKey key t db) = eviction_manager_ db.
Proof. unfold PersistKey, put_rocks. destruct db. cbn. by repeat case_match. Qed.

Lemma eviction_track_access now key db : eviction_manager_ (track_access now key db) = eviction_manager_ db.
Proof. unfold track_access, touch. destruct (ShouldTrackAccessInfo db); by destruct db. Qed.

Lemma eviction_track_memory g db : eviction_manager_ (track_memory g db) = eviction_manager_ db.
Proof. unfold track_memory. destruct (memory_tracker_ db); [|done]. destruct (g _). by destruct db. Qed.

(** Setting a key that was not there, without eviction. *)
Lemma DbSet_timed now key value db :
  eviction_manager_ db = None → DGet key (strings_ db) = None →
  eviction_manager_ (DbSet now key value db) = None ∧
  ∀ k, timed (DbSet now key value db) k = if decide (key = k) then (Some value, Some None) else timed db k.
Proof.
  intros He Hs. unfold DbSet. cbv zeta. rewrite Hs. set (db1 := register key kString _).
  assert (He1 : eviction_manager_ db1 = None) by (by destruct db).
  assert (H1 : ∀ k, timed db1 k = if decide (key = k) then (Some value, Some None) else timed db k).
  { intros k. unfold db1, timed, deadline, register, RegisterKey. destruct db. cbn -[DInsert DGet]. rewrite !DGet_DInsert. by case_decide. }
  set (db2 := track_memory _ _). assert (He2 : eviction_manager_ db2 = None) by (unfold db2; by rewrite eviction_track_memory, eviction_track_access).
  assert (Hc : check_eviction now db2 = db2) by (unfold check_eviction; by rewrite He2). rewrite Hc. unfold persist_all_in.
  assert (H2 : ∀ k, timed db2 k = timed db1 k) by (intros k; unfold db2; by rewrite timed_track_string, timed_track_access).
  destruct (decide _).
  - rewrite eviction_PersistKey. split; [done|]. intros k. by rewrite timed_PersistKey, H2, H1.
  - split; [done|]. intros k. by rewrite H2, H1.
Qed.

Definition loaded_timed (now : Z) (kv : RdbKeyValue) : option bytes * option (option Z) :=
  (Some (kv_value kv), Some (if (0 <? kv_expire_ms kv)%Z then Some (kv_expire_ms kv - now)%Z else None)).

Lemma load_kv_timed now kv db :
  eviction_manager_ db = None → string_kv now kv → (timed db (kv_key kv)).1 = None →
  eviction_manager_ (load_kv now kv db) = None ∧
  ∀ key, timed (load_kv now kv db) key = if decide (kv_key kv = key) then loaded_timed now kv else timed db key.
Proof.
  intros He [Ht Hl] Hp. rewrite load_string_eq by done. cbv zeta. destruct (DbSet_timed now (kv_key kv) (kv_value kv) db He Hp) as [H1 H2].
  set (db1 := DbSet _ _ _ _) in *. unfold loaded_timed. destruct (0 <? kv_expire_ms kv)%Z eqn:E; [|done].
  unfold live in Hl. rewrite E in Hl. cbn in Hl. b2p. unfold DbSetExpireMs, on_metadata, SetExpireMs.
  assert (Hm : ∀ key, DGet key (update_entry (MetaSetExpireMs (kv_expire_ms kv - now)) (kv_key kv) (metadata_manager_ db1)).1 =
    if bool_decide (kv_key kv = key) then MetaSetExpireMs (kv_expire_ms kv - now) <$> DGet key (metadata_manager_ db1) else DGet key (metadata_manager_ db1))
    by (intros; apply DGet_update).
  destruct (update_entry _ _ _) as [m b]. cbn [fst] in *. split; [by destruct db1|]. intros key. specialize (H2 key). revert H2. unfold timed, deadline.
  specialize (Hm key). destruct db1. cbn in *. rewrite Hm. case_decide as Hk; [|by rewrite bool_decide_eq_false_2]. rewrite bool_decide_eq_true_2 by done.
  intros [= E1 E2]. rewrite E1. apply fmap_Some in E2 as (x & -> & _). cbn. rewrite (proj2 (Z.leb_gt _ _)) by lia. done.
Qed.

(** ** A restart *)

(** What a snapshot may hold: strings that are neither empty nor long, and hashes, of
    which nothing is loaded. *)
Definition snapshot_ok (now : Z) workers : Prop :=
  (0 ≤ now)%Z ∧ separate workers ∧ Forall entry_ok (all_entries now workers) ∧ (zlen (all_entries now workers) < 16384)%Z.

(** The reader of a server that starts. *)
Definition new_reader : RdbReader := MkRdbReader [] false None true 0.

Abbreviation saved_kvs now workers := (entry_kv now <$> all_entries now workers).

Lemma effects_load std_hash now t2 all_data ws :
  (effects (load_callback std_hash t2) (save_items now all_data) (0%Z, ws)).2 = load_all std_hash t2 (entry_kv now <$> concat all_data) ws.
Proof.
  unfold save_items, effects. cbn [foldl effect fst snd]. generalize (concat all_data). clear. intros es. revert ws. unfold load_all.
  induction es as [|e es IH]; intros ws; [done|]. cbn. apply IH.
Qed.

Lemma save_then_load stale std_hash fuel now t2 workers targets w :
  rdb_initialized_ w = true → checksum (rdb_options_ w) = true → snapshot_ok now workers → length (all_entries now workers) + 6 ≤ fuel →
  let '(w', saved) := SaveRdb true now true true workers w in
  saved = true ∧ ∃ r, LoadRdb true stale std_hash fuel t2 (rdb_options_ w) (rdb_files w') new_reader targets =
    Some (r, load_all std_hash t2 (saved_kvs now workers) targets, true).
Proof.
  intros Hi Hc (H1 & H2 & H3 & H4) Hf. rewrite SaveRdb_items. set (items := save_items _ _).
  assert (Hok : Forall item_ok items) by by apply save_items_ok.
  assert (Hl : length items + 4 ≤ fuel) by (unfold items, save_items; cbn [length]; rewrite length_fmap; fold (all_entries now workers); lia).
  assert (H := save_load stale (load_callback std_hash t2) now items (effects (load_callback std_hash t2) items) (length items) w true fuel [] false 0 targets
    Hi (λ _, Hc) (items_cover _ _ _ _ _ Hok) (items_no_aux _ Hok) Hl).
  destruct (RdbSave _ _ _ _ _) as [w' saved]. destruct H as [-> H]. split; [done|]. revert H. unfold LoadRdb, ReaderInit, new_reader. cbn [negb].
  destruct (path_exists _ _); [|by intros [? _]]. cbn [negb]. intros [_ [r ->]]. exists r. unfold items. by rewrite effects_load.
Qed.

Lemma saved_known now workers : Forall entry_ok (all_entries now workers) → Forall kv_known (saved_kvs now workers).
Proof.
  intros H. apply Forall_fmap. eapply Forall_impl; [exact H|]. intros [[[key type] value] ttl] (_ & _ & _ & _ & [-> | ->]); [by left|by right].
Qed.

(** The record of a string. *)
Lemma saved_string now workers j db key v :
  workers !! j = Some db → DGet key (strings_ db) = Some v →
  entry_kv now (key, kString, v, DbGetTtlMs now key db) ∈ saved_kvs now workers.
Proof.
  intros Hj Hv. apply list_elem_of_fmap. eexists. split; [reflexivity|]. apply all_entries_elem. exists j, db. split; [done|]. by apply string_entry.
Qed.

Lemma saved_string_inv t2 now workers kv :
  Forall entry_ok (all_entries now workers) → kv ∈ saved_kvs now workers → string_kv t2 kv →
  ∃ j db, workers !! j = Some db ∧ DGet (kv_key kv) (strings_ db) = Some (kv_value kv).
Proof.
  intros He Hin [Ht _]. apply list_elem_of_fmap in Hin as ([[[key type] value] ttl] & -> & Hin). rewrite Forall_forall in He.
  destruct (He _ Hin) as (_ & _ & _ & _ & [-> | ->]); [|done]. apply all_entries_elem in Hin as (j & db & Hj & [Hv _]%string_entry). eauto.
Qed.

Lemma load_all_lookup std_hash t2 kvs key (targets : list Database) :
  targets ≠ [] → ∃ db', load_all std_hash t2 kvs targets !! target_worker std_hash key targets = Some db'.
Proof.
  intros Ht. apply lookup_lt_is_Some. rewrite length_load_all. unfold target_worker, zlen. destruct targets as [|x l]; [done|].
  assert (H := Z.mod_pos_bound (std_hash key) (Z.of_nat (length (x :: l))) ltac:(cbn; lia)). lia.
Qed.


(** C40. Expiry times do not survive it: the time that a key has left is loaded as
    the time at which it expires, so the key has long expired; and a key that had
    expired when the snapshot was made, but was still in memory, comes back for
    good. *)
Theorem rdb_expiry_lost stale std_hash fuel now t2 t3 workers targets w j db key v :
  rdb_initialized_ w = true → checksum (rdb_options_ w) = true → snapshot_ok now workers → length (all_entries now workers) + 6 ≤ fuel →
  (t2 < 2 ^ 63 - 1)%Z → (now + DbGetTtlMs now key db < 2 ^ 63)%Z → targets ≠ [] →
  Forall (λ db, eviction_manager_ db = None ∧ ∀ key, DGet key (strings_ db) = None) targets →
  workers !! j = Some db → DGet key (strings_ db) = Some v →
  let '(w', saved) := SaveRdb true now true true workers w in
  ∃ r targets' db', LoadRdb true stale std_hash fuel t2 (rdb_options_ w) (rdb_files w') new_reader targets = Some (r, targets', true) ∧
  targets' !! target_worker std_hash key targets = Some db' ∧
  ((DbGetTtlMs now key db ≤ 0)%Z → DGet key (strings_ db') = Some v ∧ DbGetTtlMs t3 key db' = (-1)%Z) ∧
  ((0 < DbGetTtlMs now key db)%Z → (t2 < now + DbGetTtlMs now key db < t2 + t3)%Z →
     DGet key (strings_ db') = Some v ∧ DbGetTtlMs t3 key db' = (-2)%Z).
Proof.
  intros Hi Hc Hs Hf Ht2 Hb Hne Hempty Hj Hv. assert (H := save_then_load stale std_hash fuel now t2 workers targets w Hi Hc Hs Hf).
  destruct (SaveRdb _ _ _ _ _ _) as [w' saved]. destruct H as (-> & r & ->).
  destruct (load_all_lookup std_hash t2 (saved_kvs now workers) key targets Hne) as [db' Hdb']. eexists _, _, db'. split; [done|]. split; [done|].
  destruct Hs as (Hn & Hsep & Hok & _).
  assert (Hd := string_kvs_distinct t2 now _ Hok (string_keys_distinct now workers Hsep)).
  destruct (load_all_spec std_hash t2 (λ db, eviction_manager_ db = None) timed (loaded_timed t2) (λ x, x.1 = None)
    (load_kv_timed t2) (saved_kvs now workers) targets (saved_known _ _ Hok) Hd) as (_ & H2 & _).
  { split; [by eapply Forall_impl; [exact Hempty|intros ? [??]]|]. intros kv db0 i _ _ Hdb0. rewrite Forall_lookup in Hempty.
    by apply (Hempty i db0 Hdb0). }
  assert (Hin := saved_string now workers j db key v Hj Hv). set (kv := entry_kv _ _) in Hin.
  assert (Ht : string_kv t2 kv → timed db' key = loaded_timed t2 kv) by (intros Hkv; by apply (H2 kv db')).
  assert (Hk : ∀ d, string_kv t2 kv → kv_expire_ms kv = d → DGet key (strings_ db') = Some v ∧
    deadline db' key = Some (if (0 <? d)%Z then Some (d - t2)%Z else None)).
  { intros d Hkv <-. specialize (Ht Hkv). unfold timed, loaded_timed in Ht. by injection Ht. }
  unfold string_kv, live in Hk. cbn in Hk. unfold deadline in Hk. split.
  - intros Hle. rewrite (proj2 (Z.ltb_ge 0 (DbGetTtlMs now key db))) in Hk by done. destruct (Hk (-1)%Z) as [E1 E2]; [done..|]. split; [done|].
    apply fmap_Some in E2 as (m & Em & Ee). cbn in Ee. unfold DbGetTtlMs, GetTtlMs, IsExpired. by rewrite Em, <- Ee.
  - intros Hlt Hr. rewrite (proj2 (Z.ltb_lt 0 (DbGetTtlMs now key db))) in Hk by done. set (e := Z.min _ _) in Hk. assert (He : e = (now + DbGetTtlMs now key db)%Z) by lia.
    destruct (Hk e) as [E1 E2]; [split; [done|]; apply orb_true_iff; right; apply Z.ltb_lt; lia|done|]. split; [done|].
    rewrite (proj2 (Z.ltb_lt _ _)) in E2 by lia. apply fmap_Some in E2 as (m & Em & Ee). unfold DbGetTtlMs, GetTtlMs, IsExpired.
    rewrite Em, <- Ee. rewrite !(proj2 (Z.ltb_lt _ _)) by lia. done.
Qed.
End RdbDatabase.

(** ** Witnesses *)

#[local] Existing Instances small_platform small_rocks_ok crc32c crc32c_ok.

Definition plain_database : Database := fresh None None None kRedis None.
Definition small_worker : Database := (DbSetExpireMs (B "t") 1700000005000 (DbSet 0 (B "t") (B "soon") (DbSet 0 (B "k") (B "v") plain_database))).1.
Definition small_hash (s : bytes) : Z := zlen s.

Lemma small_snapshot_ok : snapshot_ok 1700000000000 [small_worker].
Proof.
  split; [done|]. split.
  - intros [|i] [|j] db db' key H1 H2; done.
  - assert (E : all_entries 1700000000000 [small_worker] = [(B "k", kString, B "v", (-1)%Z); (B "t", kString, B "soon", 5000%Z)] ∨
      all_entries 1700000000000 [small_worker] = [(B "t", kString, B "soon", 5000%Z); (B "k", kString, B "v", (-1)%Z)]) by (vm_compute; auto).
    destruct E as [-> | ->]; (split; [|done]); repeat (apply Forall_cons; split); try apply Forall_nil_2; repeat split; auto; done.
Qed.

Lemma plain_strings : strings_ok plain_database ∧ ∀ key, view plain_database key = None.
Proof. split; [|done]. split; [|done]. intros key m H. done. Qed.


Lemma rdb_expiry_lost_witness :
  let '(w, saved) := SaveRdb true 1700000000000 true true [small_worker] small_writer in
  ∃ r targets db, LoadRdb true (λ _ _, "U"%char) small_hash 8 1700000003000 small_options (rdb_files w) new_reader [plain_database; plain_database] =
    Some (r, targets, true) ∧
  targets !! 1 = Some db ∧ DGet (B "t") (strings_ db) = Some (B "soon") ∧ DbGetTtlMs 1700000003000 (B "t") db = (-2)%Z.
Proof.
  assert (Ht : DbGetTtlMs 1700000000000 (B "t") small_worker = 5000%Z) by (vm_compute; reflexivity).
  assert (H := rdb_expiry_lost (λ _ _, "U"%char) small_hash 8 1700000000000 1700000003000 1700000003000 [small_worker]
    [plain_database; plain_database] small_writer 0 small_worker (B "t") (B "soon") eq_refl eq_refl small_snapshot_ok ltac:(apply Nat.leb_le; vm_compute; reflexivity)
    ltac:(lia) ltac:(rewrite Ht; lia) ltac:(done) ltac:(repeat (apply Forall_cons; split); [split; [reflexivity|intros; reflexivity]..|apply Forall_nil_2])
    eq_refl ltac:(vm_compute; reflexivity)).
  destruct (SaveRdb _ _ _ _ _ _) as [w saved]. destruct H as (r & targets & db & E & Hdb & _ & H). exists r, targets, db. split; [exact E|].
  split; [exact Hdb|]. apply H; rewrite Ht; lia.
Defined.
